(* ===== verification/_CoqProject ===== *)
-Q . S2P
Prelude.v
Text.v
Pool.v
Monitor.v
PyFloat.v
Sha256.v
Json.v
JsonParse.v
JsonGrammar.v
JsonRoundTrip.v
Schemas.v
Domain.v
Tools.v
Approvals.v
ApprovalBinding.v
Outbox.v
Gateway.v
System.v
GatewaySafety.v
Agent.v
Engine.v
Decisions.v
Workflows.v
Records.v
Governance.v
JobQueue.v
Tasks.v
Runtime.v
RuntimeSafety.v
Scheduling.v
Scheduler.v
Events.v
Context.v
Disclosure.v
Consents.v
Router.v
Manifest.v
Extensions.v
Rely.v
Lifecycle.v
LifecycleSafety.v
InstallBarrier.v
Operations.v
Supervision.v
SupervisionSafety.v
Recovery.v
Url.v
BrowserPolicy.v
PyValue.v
IsoTime.v
BrowserModels.v
BrowserAdapters.v
BrowserDocuments.v
BrowserSession.v
BrowserSafety.v
BrowserSystem.v
BrowserSubmit.v
BrowserScenario.v
FormDrafts.v
DataAccess.v
DataGuard.v
MailModels.v
MailExecutor.v
MailSafety.v
SmtpSender.v
SmtpStuffing.v
SmtpSafety.v
JobFairness.v
ExtensionConfig.v
RpcFrames.v
RpcClient.v
RpcSafety.v
Simulator.v
PoolSafety.v
