(* ===== verification/Prelude.v ===== *)
(** * Personal Assistant Framework: verification library

    The program is a single-user assistant: a user command becomes a task, a background worker
    advances the task by asking a model for one proposal at a time, a host-side validator turns
    the proposal into a tool call, and a gateway executes the call.  Tools have risk levels R0 to
    R3; an R2 call (an external write) waits for the user's approval, an R3 call never runs.
    Everything durable goes through compare-and-swap stores, leased jobs and command receipts,
    because requests, workers and crashes interleave.  File names below are relative to
    [src/src/personal_assistant].

    ** Parts of the program and the files that model them

    Foundations:
    - [Prelude]: exceptions ([exn]), [result], the state-and-error monad [M], coroutines [prog E A]
      over a signature [E] of operations, their traces ([run], [execs]), record updates, scopes,
      tactics, hint databases and the shared lemmas;
    - [Text]: the operations of [str]; [PyFloat]: [float], its [repr] and its reading; [Sha256]:
      [hashlib.sha256];
    - [Json]: JSON values, [json.dumps], [core/approvals/canonicalize.py],
      [core/tools/result_sanitizer.py], [core/audit/redaction.py]; [JsonParse]: [json.loads] and
      [parse_proposal] of [core/agent/decisions.py];
    - [Pool]: rely/guarantee reasoning for coroutines that share a compare-and-swap store;
      [Monitor]: trace monitors, for properties of every trace of a coroutine whatever its ports
      answer.

    Values and policies:
    - [Schemas]: [core/tools/schemas.py]; [Domain]: [domain/*.py]; [Tools]:
      [core/tools/registry.py] and [core/tools/policy.py].

    The side-effect path:
    - [Approvals]: [core/approvals/state_machine.py] and [service.py]; [Outbox]:
      [core/jobs/outbox.py] and [infrastructure/memory/outbox.py]; [Gateway]:
      [core/tools/gateway.py];
    - [System]: the event loop over these parts, as a step relation on a pool of coroutines;
      [GatewaySafety] and [PoolSafety]: its invariant; [Simulator]: executable runs of it.

    The agent:
    - [Agent]: [core/agent/state_machine.py], [safety_fuse.py], [progress_detector.py],
      [checkpoint.py]; [Engine]: [core/agent/engine.py]; [Decisions]: [DecisionValidator] of
      [core/agent/decisions.py]; [Workflows]: [core/workflows.py]; [Context]: [core/context/*.py];
    - [Runtime]: [core/agent/runtime.py] with the boundary of [core/jobs/lease.py];
      [RuntimeSafety]: its dispatch discipline.

    Durable services:
    - [Records]: [infrastructure/memory/records.py] behind [core/records.py]; its class
      [RecordSystem] is the interface the next three are written against;
    - [Governance]: [core/governance.py]; [Scheduling] and [Scheduler]: [core/scheduling.py] and
      [core/jobs/scheduler.py]; [Events]: [core/event_delivery.py];
    - [JobQueue]: [core/jobs/queue.py] and [infrastructure/memory/job_queue.py], [JobFairness]: its
      liveness; [Tasks]: [core/tasks/service.py] and [infrastructure/memory/tasks.py];
    - [FormDrafts]: [core/tasks/form_drafts.py] and [infrastructure/memory/form_drafts.py].
    - [JsonRoundTrip]: the canonical form of [Json] is faithful; [ApprovalBinding]: what that means
      for approvals; [IsoTime]: [isoformat] and its reading are inverse.

    Disclosure to models:
    - [Disclosure]: [core/models/provider.py], [core/models/disclosure.py] and
      [infrastructure/memory/disclosures.py]; [Consents]: histories of consents; [Router]:
      [core/models/router.py] and [core/models/cleanup.py].

    The extension host:
    - [Manifest]: [core/extensions/manifest.py]; [Extensions]: [core/extensions/models.py],
      [registry.py] and [infrastructure/memory/extensions.py]; [Rely]: monitors under an assumption
      on the answers;
    - [Lifecycle]: [core/extensions/lifecycle.py]; [LifecycleSafety] and [InstallBarrier]: what is
      published, and what runs before a confirmation;
    - [Operations]: [core/extensions/operations.py] and [infrastructure/memory/operations.py];
      [Supervision]: [core/extensions/supervision.py]; [SupervisionSafety] and [Recovery]: commands
      run once, and what a restarted supervisor publishes;
    - [DataAccess]: the SQL guards of [core/extensions/data_access.py]; [DataGuard]: what they let
      through.

    Sending mail:
    - [MailModels]: [core/mail/ports.py], the delivery ledger of [infrastructure/memory/mail.py],
      the registry of [infrastructure/mail/registry.py] and the guards of [owners.py];
    - [MailExecutor]: [infrastructure/mail/executor.py]; [MailSafety]: any number of executions over
      one ledger;
    - [SmtpSender]: [infrastructure/mail/smtp_client.py], the composite guard and
      [infrastructure/mail/broker.py]; [SmtpStuffing] and [SmtpSafety]: what reaches the server, and
      what a receipt means.

    The supervised browser:
    - [Url]: what the policy uses of [urllib.parse], [ipaddress] and [fnmatch]; [BrowserPolicy]:
      [core/browser/policy.py]; [PyValue]: [str], [int], [float] and [iter] of untyped values;
    - [BrowserModels]: [core/browser/models.py] and [fingerprint.py]; [BrowserAdapters]:
      [core/browser/ports.py] and [infrastructure/memory/browser.py]; [BrowserDocuments]: stored
      documents and payload digests;
    - [BrowserSession]: [BrowserSessionBroker] of [core/browser/session.py], every method;
      [BrowserSafety]: a monitor every broker operation obeys; [BrowserSystem]: any number of
      operations, crashes and recoveries over one session store; [BrowserSubmit]: what a click
      stands on; [BrowserScenario]: one submission from the empty store to its proof.

    ** How code becomes definitions

    A method that holds a lock and does not await inside is one atomic function of the monad [M],
    from the object's attributes to new attributes and a value or an exception; an exception
    keeps the mutations made before it.  A method that awaits is a [prog]: every awaited call is an
    operation, so another coroutine may run, a cancellation may arrive or the process may die at
    each of them.  Code outside of the repository (tool executors, model providers, the regular
    expression engine, the time zone database) is an operation that may answer anything, or an
    argument.  Clocks and random identifiers are operations or arguments, so a theorem holds for
    every clock.  [datetime] and [timedelta] are counted in microseconds ([Z]); a [dict] is an
    association list in insertion order, or a [gmap] where the order is never observed; text is
    one [ascii] per code point, the first 256 code points.

    ** What the theorems show

    - C1 - C3: over every interleaving of gateway invocations and approval commands, an external
      action is started at most once per approval, only what the policy and a matching, unexpired
      approval allow is started, and approvals only move forward.
    - C4, C6, C8: the job queue under every sequence of operations of any number of workers: leases
      exclude, due jobs are served, retries are bounded.
    - C13: the engine's loop returns.  [engine_loop] takes one unit of fuel per round;
      [engine_returns] says how much is enough.
    - C14: a model proposal never carries authority of its own.
    - C15, C16: tasks and idempotent commands under interleaving.
    - C18: untrusted material reaches the model's context only inside of its frame.
    - C22, C23: workflows.
    - C26, C27: the task runtime marks a call durably before starting it and never replays an
      interrupted call.
    - C29, C32: schedules and event delivery.
    - C33: canonical JSON determines the value; C34: an approval is consumed by the action that
      was previewed.
    - C35 - C36: protected data reaches a remote model only under an exact consent, and consents
      are exact, bounded in time and revocable.
    - C37, C40, C31, C17, C28, C39: the extension host: manifests, what is published, what an
      installation needs, commands that run once, recovery after a restart, and the SQL an extension
      may run.
    - C5, C9 - C11, C25: mail: only approved messages are sent and none again after a restart, the SMTP
      session is guarded and its receipts are truthful, and the server reads the message that was sent.
    - C20: a form field never looks like evidence that was not given as evidence.
    - C7, C12, C19, C21, C24, C30, C38: the supervised browser: a session is submitted at most once
      and only for what was confirmed, success is proved by the tracking page, allowed URLs name
      their origin, page evidence only raises a risk, and stored documents and payload digests are
      faithful.

    ** Bounds and fuel

    [validate] (Schemas) takes the depth of the schema, [scan] (Scheduling) the 527040 minutes of
    366 days that [cron_next] searches in the source, [visit] (Context) one more than the number of
    identifiers; each of these is proved enough where a theorem says that a result is returned.
    All other recursion is structural.

    ** Not modelled, and why

    The PostgreSQL adapters (their logic is SQL run by the database; the in-memory adapters of
    the same ports are modelled), the browser driver, the mail protocols below the SMTP
    and IMAP commands, MIME parsing, the HTTP and command
    line entry points, the process and desktop layers: they are I/O against systems outside of the
    repository.  The heartbeat task of [LeaseKeepalive] is represented by what it tells the
    worker ([ensure_owned] may fail at any moment), not by its timing.

    The extension configuration store, the JSON-RPC streams, settings and the bundled extensions
    are mostly parsing of files and environment variables, stdio loops and SQL of their own. *)

From stdpp Require Export base decidable gmap list strings numbers option.
From Stdlib Require Export ZArith Lia.
From coqutil Require Export Datatypes.RecordSetters.
Export DoubleBraceUpdate.

(** ** Scopes, hint databases and tactics *)

Declare Scope py_scope.
Delimit Scope py_scope with py.

Create HintDb pa.

(** Record updates [r {{ f := v }}].  A record type with an [Eta] instance is updated through its
    projections, so that the untouched fields of the result read as [f r]. *)
Class Eta (R : Type) := eta_expand : R -> R.

Ltac eta_setter R E getter :=
  let inst := constr:(_ : Eta R) in
  let body := eval hnf in inst in
  exact (fun (u : E -> E) (r : R) => ltac:(
    let b := eval cbv beta in (body r) in
    match b with
    | context C [getter r] => let b' := context C [u (getter r)] in exact b'
    end)).

#[export] Hint Extern 0 (@Setter ?R ?E ?getter) => eta_setter R E getter : typeclass_instances.

#[global] Arguments constant {E} newValue _ /.
#[global] Arguments apply_update {R E} !u /.

(** Case analysis on the innermost scrutinee of a [match] or [if] in a hypothesis or the goal. *)
Ltac innermost t k :=
  match t with
  | context [match ?x with _ => _ end] => innermost x k
  | _ => k t
  end.

Ltac split_match_in H :=
  match type of H with
  | context [match ?x with _ => _ end] =>
      innermost x ltac:(fun y => let E := fresh "E" in destruct y eqn:E)
  end.

Ltac split_match :=
  match goal with
  | |- context [match ?x with _ => _ end] =>
      innermost x ltac:(fun y => let E := fresh "E" in destruct y eqn:E)
  end.

(** Invert a chain of guards: split every [match] of [H], drop the impossible branches. *)
Ltac run_guards H :=
  repeat (split_match_in H; simpl in H; try discriminate H); simplify_eq/=.

(** Turn boolean tests in the context into propositions. *)
Ltac bool_props :=
  repeat match goal with
  | H : _ && _ = true |- _ => apply andb_true_iff in H as [? ?]
  | H : _ || _ = false |- _ => apply orb_false_iff in H as [? ?]
  | H : negb _ = true |- _ => apply negb_true_iff in H
  | H : negb _ = false |- _ => apply negb_false_iff in H
  | H : bool_decide _ = true |- _ => apply bool_decide_eq_true in H
  | H : bool_decide _ = false |- _ => apply bool_decide_eq_false in H
  | H : (_ =? _)%Z = true |- _ => apply Z.eqb_eq in H
  | H : (_ =? _)%Z = false |- _ => apply Z.eqb_neq in H
  | H : (_ <? _)%Z = true |- _ => apply Z.ltb_lt in H
  | H : (_ <? _)%Z = false |- _ => apply Z.ltb_ge in H
  | H : (_ <=? _)%Z = true |- _ => apply Z.leb_le in H
  | H : (_ <=? _)%Z = false |- _ => apply Z.leb_gt in H
  end.

(** ** Exceptions

    One constructor per exception class the modelled code raises or catches; [exn_parents]
    are the bases of [class C(...)]. *)

Inductive exn_class :=
| PyException | PyRuntimeError | PyValueError | PyKeyError | PyIndexError | PyTypeError | PyTimeoutError
| PyCancelledError
| DomainError | ValidationError | NotFoundError | AlreadyExistsError
| ConcurrentModificationError | InvalidStateTransitionError
| CanonicalizationError | SchemaValidationError
| ApprovalError | ApprovalExpiredError | ApprovalStateError
| ApprovalBindingMismatchError | InvalidApprovalNonceError
| ToolPolicyError | ProhibitedToolError
| ToolRuntimeError | DefinitiveToolFailure | OutcomeUnknownError
| UserActionRequiredError | ExtensionUnavailableError
| LeaseConflict | LeaseLost | DisclosureDenied | WorkflowBindingConflict
| DisclosureError | DisclosureDeniedError | DisclosureStateError | DisclosurePreviewMismatchError
| DisclosureIdempotencyConflictError | DisclosureRecipientUnknownError
| DisclosureConsentNotFoundError
| BrowserError | BrowserPolicyError | BrowserLimitError | NavigationDeniedError | ProhibitedTransactionError
| BrowserSessionStateError | PageDriftError | PreviewExpiredError | UnknownBrowserOutcomeError
| PyOSError | ExtensionError | ManifestValidationError | DuplicateCapabilityError
| InvalidLifecycleTransition | ConfirmationRequiredError | ExtensionOperationError
| RpcCallError | RpcTimeoutError | DataAccessError | ArtifactAccessError | ExtensionConfigError
| MailError | MailAccountNotFoundError | MailLedgerConflictError | MailLedgerStateError | RpcProtocolError
| SendAborted | SMTPException | SMTPServerDisconnected | SMTPAuthenticationError | SMTPNotSupportedError
| SSLError | SSLCertVerificationError | PyOverflowError.

#[global] Instance exn_class_eq_dec : EqDecision exn_class.
Proof. solve_decision. Defined.

Definition exn_parents (c : exn_class) : list exn_class :=
  match c with
  | PyException | PyCancelledError => []
  | PyRuntimeError | PyValueError | PyKeyError | PyIndexError | PyTypeError | PyOSError => [PyException]
  | PyTimeoutError => [PyOSError]
  | DomainError => [PyException]
  | ValidationError | NotFoundError | AlreadyExistsError
  | ConcurrentModificationError | InvalidStateTransitionError => [DomainError]
  | CanonicalizationError | SchemaValidationError => [ValidationError]
  | ApprovalError => [DomainError]
  | ApprovalExpiredError | ApprovalStateError
  | ApprovalBindingMismatchError | InvalidApprovalNonceError => [ApprovalError]
  | ToolPolicyError => [DomainError]
  | ProhibitedToolError => [ToolPolicyError]
  | ToolRuntimeError => [PyException]
  | DefinitiveToolFailure | OutcomeUnknownError
  | UserActionRequiredError | ExtensionUnavailableError => [ToolRuntimeError]
  | LeaseConflict | LeaseLost | DisclosureDenied => [PyRuntimeError]
  | WorkflowBindingConflict => [ConcurrentModificationError]
  | DisclosureError => [DomainError]
  | DisclosureDeniedError | DisclosureStateError | DisclosurePreviewMismatchError
  | DisclosureIdempotencyConflictError | DisclosureRecipientUnknownError => [DisclosureError]
  | DisclosureConsentNotFoundError => [NotFoundError]
  | BrowserError => [PyRuntimeError]
  | BrowserPolicyError | BrowserLimitError | BrowserSessionStateError | PageDriftError
  | PreviewExpiredError | UnknownBrowserOutcomeError => [BrowserError]
  | NavigationDeniedError | ProhibitedTransactionError => [BrowserPolicyError]
  | ExtensionError => [PyException]
  | ManifestValidationError => [ExtensionError; PyValueError]
  | RpcTimeoutError => [ExtensionError; PyTimeoutError]
  | DuplicateCapabilityError | InvalidLifecycleTransition | ConfirmationRequiredError
  | ExtensionOperationError | RpcCallError | ExtensionConfigError => [ExtensionError]
  | DataAccessError | ArtifactAccessError => [ExtensionOperationError]
  | MailError | MailLedgerConflictError | MailLedgerStateError => [PyRuntimeError]
  | MailAccountNotFoundError => [MailError]
  | RpcProtocolError => [PyValueError]
  | SendAborted | PyOverflowError => [PyException]
  | SMTPException | SSLError => [PyOSError]
  | SMTPServerDisconnected | SMTPAuthenticationError | SMTPNotSupportedError => [SMTPException]
  | SSLCertVerificationError => [SSLError; PyValueError]
  end.

(** [isinstance(exc, C)]: the hierarchy is at most four classes deep. *)
Fixpoint subclass_fuel (n : nat) (c d : exn_class) : bool :=
  bool_decide (c = d) ||
  match n with
  | O => false
  | S n => existsb (fun p => subclass_fuel n p d) (exn_parents c)
  end.

Definition subclass (c d : exn_class) : bool := subclass_fuel 5 c d.

(** An exception value: its class, its message, and the extra attributes some classes carry
    ([reference_id], [extension_id], [retryable]). *)
Record exn := Exn {
  exn_cls : exn_class;
  exn_msg : string;
  exn_ref : option string;
  exn_retryable : bool
}.

Definition raise_exn (c : exn_class) (msg : string) : exn := Exn c msg None false.

Definition exn_is (e : exn) (c : exn_class) : bool := subclass (exn_cls e) c.

(** The [code] class attribute of [DomainError] and its subclasses. *)
Definition exn_code (c : exn_class) : string :=
  match c with
  | ValidationError => "validation_error"
  | NotFoundError => "not_found"
  | AlreadyExistsError => "already_exists"
  | ConcurrentModificationError | WorkflowBindingConflict => "concurrent_modification"
  | InvalidStateTransitionError => "invalid_state_transition"
  | CanonicalizationError => "canonicalization_error"
  | SchemaValidationError => "schema_validation_error"
  | ApprovalError => "approval_error"
  | ApprovalExpiredError => "approval_expired"
  | ApprovalStateError => "approval_state_error"
  | ApprovalBindingMismatchError => "approval_binding_mismatch"
  | InvalidApprovalNonceError => "invalid_approval_nonce"
  | ToolPolicyError => "tool_policy_denied"
  | ProhibitedToolError => "prohibited_tool"
  | DisclosureError => "disclosure_error"
  | DisclosureDeniedError => "disclosure_denied"
  | DisclosureStateError => "disclosure_state_error"
  | DisclosurePreviewMismatchError => "disclosure_preview_mismatch"
  | DisclosureIdempotencyConflictError => "idempotency_conflict"
  | DisclosureRecipientUnknownError => "disclosure_recipient_unknown"
  | DisclosureConsentNotFoundError => "not_found"
  | _ => "domain_error"
  end.

(** ** Results *)

Inductive result (A : Type) := Ok (a : A) | Err (e : exn).
Arguments Ok {A} a.
Arguments Err {A} e.

#[global] Instance result_ret : MRet result := fun A a => Ok a.
#[global] Instance result_bind : MBind result := fun A B f r =>
  match r with Ok a => f a | Err e => Err e end.

Definition fail {A} (c : exn_class) (msg : string) : result A := Err (raise_exn c msg).

Definition is_ok {A} (r : result A) : bool := match r with Ok _ => true | Err _ => false end.

(** [if cond: raise C(msg)] *)
Definition raise_if (b : bool) (c : exn_class) (msg : string) : result unit :=
  if b then fail c msg else Ok tt.

Fixpoint result_iter {A} (f : A -> result unit) (l : list A) : result unit :=
  match l with
  | [] => Ok tt
  | x :: l => f x ≫= fun _ => result_iter f l
  end.

Fixpoint result_map {A B} (f : A -> result B) (l : list A) : result (list B) :=
  match l with
  | [] => Ok []
  | x :: l => f x ≫= fun y => result_map f l ≫= fun ys => Ok (y :: ys)
  end.

Lemma result_bind_Ok {A B} (m : result A) (f : A -> result B) b :
  m ≫= f = Ok b <-> exists a, m = Ok a /\ f a = Ok b.
Proof. destruct m; simpl; naive_solver. Qed.

Lemma raise_if_Ok b c msg u : raise_if b c msg = Ok u <-> b = false.
Proof. destruct b, u; naive_solver. Qed.

Lemma result_iter_Ok {A} (f : A -> result unit) l u :
  result_iter f l = Ok u <-> Forall (fun x => f x = Ok tt) l.
Proof.
  destruct u; induction l as [|x l IH]; simpl; [by split|].
  rewrite result_bind_Ok, List.Forall_cons_iff, <- IH. split.
  - by intros ([] & ? & ?).
  - by intros [??]; exists tt.
Qed.

Lemma result_map_Ok {A B} (f : A -> result B) l ys :
  result_map f l = Ok ys <-> Forall2 (fun x y => f x = Ok y) l ys.
Proof.
  revert ys; induction l as [|x l IH]; intros ys; simpl.
  - split; [by intros [= <-]|]. by inversion 1.
  - split.
    + intros (y & Hy & (zs & Hzs & [= <-])%result_bind_Ok)%result_bind_Ok.
      constructor; [done|by apply IH].
    + intros (y & zs & Hy & Hzs & ->)%Forall2_cons_inv_l.
      rewrite Hy. simpl. by rewrite (proj2 (IH zs) Hzs).
Qed.

#[export] Hint Rewrite @result_bind_Ok @raise_if_Ok @result_iter_Ok : pa.

(** ** State passing with exceptions

    [M S A] is a method body over the object state [S]: an exception leaves the mutations that
    were already made in place, as Python does. *)

Definition M (S A : Type) := S -> S * result A.

#[global] Instance M_ret S : MRet (M S) := fun A a s => (s, Ok a).
#[global] Instance M_bind S : MBind (M S) := fun A B f m s =>
  match m s with
  | (s', Ok a) => f a s'
  | (s', Err e) => (s', Err e)
  end.

Definition get_state {S} : M S S := fun s => (s, Ok s).
Definition put_state {S} (s : S) : M S unit := fun _ => (s, Ok tt).
Definition raise {S A} (c : exn_class) (msg : string) : M S A := fun s => (s, fail c msg).
Definition lift {S A} (r : result A) : M S A := fun s => (s, r).

Lemma M_bind_Ok {S A B} (m : M S A) (f : A -> M S B) s s' b :
  (m ≫= f) s = (s', Ok b) <-> exists s1 a, m s = (s1, Ok a) /\ f a s1 = (s', Ok b).
Proof. unfold mbind, M_bind. destruct (m s) as [s1 [a|e]]; naive_solver. Qed.

Lemma lift_Ok {S A} (r : result A) (s s' : S) a : lift r s = (s', Ok a) <-> s' = s /\ r = Ok a.
Proof. unfold lift. naive_solver. Qed.

(** ** Effectful programs

    [prog E A] is a coroutine: a tree of operations of the signature [E], each of which is one
    atomic step of the event loop and answers with a value or an exception. *)

Inductive prog (E : Type -> Type) (A : Type) : Type :=
| Ret (a : A)
| Raise (e : exn)
| Vis (X : Type) (op : E X) (k : result X -> prog E A).
Arguments Ret {E A} a.
Arguments Raise {E A} e.
Arguments Vis {E A X} op k.

Fixpoint prog_bind {E A B} (f : A -> prog E B) (p : prog E A) : prog E B :=
  match p with
  | Ret a => f a
  | Raise e => Raise e
  | Vis op k => Vis op (fun r => prog_bind f (k r))
  end.

#[global] Instance prog_ret E : MRet (prog E) := fun A a => Ret a.
#[global] Instance prog_mbind E : MBind (prog E) := fun A B f p => prog_bind f p.

(** [try: p except ...: h e]; the handler re-raises what it does not catch. *)
Fixpoint prog_try {E A} (p : prog E A) (h : exn -> prog E A) : prog E A :=
  match p with
  | Ret a => Ret a
  | Raise e => h e
  | Vis op k => Vis op (fun r => prog_try (k r) h)
  end.

(** [try: x = p except ...: h] with the rest of the body [f] outside of the [try]. *)
Fixpoint prog_match {E A B} (p : prog E A) (f : A -> prog E B) (h : exn -> prog E B)
  : prog E B :=
  match p with
  | Ret a => f a
  | Raise e => h e
  | Vis op k => Vis op (fun r => prog_match (k r) f h)
  end.

Definition of_result {E A} (r : result A) : prog E A :=
  match r with Ok a => Ret a | Err e => Raise e end.

Definition perform {E X} (op : E X) : prog E X := Vis op of_result.

Definition raise_prog {E A} (c : exn_class) (msg : string) : prog E A :=
  Raise (raise_exn c msg).

(** Signatures compose: [SubE E F] says that the operations of [E] are among those of [F], so a
    component written against its own signature runs inside of a larger system. *)
Class SubE (E F : Type -> Type) := inject : forall X, E X -> F X.

#[global] Instance SubE_refl E : SubE E E := fun X op => op.

Definition call {E F} `{SubE E F} {X} (op : E X) : prog F X := perform (inject X op).

(** A component written against its own signature, inside of a larger system. *)
Fixpoint embed {E F A} `{SubE E F} (p : prog E A) : prog F A :=
  match p with
  | Ret a => Ret a
  | Raise e => Raise e
  | Vis op k => Vis (inject _ op) (fun r => embed (k r))
  end.

(** [asyncio.CancelledError] *)
Definition cancelled : exn := raise_exn PyCancelledError "".

(** A signature whose operations can run in a task of their own under [asyncio.shield]: the
    operation is performed whatever happens to the caller, and the answer says whether the
    caller was cancelled in the meantime. *)
Class ShieldE (F : Type -> Type) := shielded : forall X, F X -> F (result X * bool)%type.

(** The ambient operations: the clock and the random identifiers. *)
Inductive envE : Type -> Type :=
| Now : envE Z
| NewUuid : envE string
| NewToken : envE string.

(** [now or utc_now()] *)
Definition now_or {F} `{SubE envE F} (now : option Z) : prog F Z :=
  match now with Some t => Ret t | None => call Now end.

(** [try: p finally: q] *)
Definition prog_finally {E A} (p : prog E A) (q : prog E unit) : prog E A :=
  prog_match p (fun a => _ ← q; Ret a) (fun e => _ ← q; Raise e).

(** Running a program alone, with a total handler for its operations. *)
Fixpoint run {E S A} (h : forall X, E X -> M S X) (p : prog E A) (s : S) : S * result A :=
  match p with
  | Ret a => (s, Ok a)
  | Raise e => (s, Err e)
  | Vis op k => let '(s', r) := h _ op s in run h (k r) s'
  end.

Lemma run_bind {E S A B} (h : forall X, E X -> M S X) (p : prog E A) (f : A -> prog E B) s :
  run h (p ≫= f) s =
  match run h p s with (s', Ok a) => run h (f a) s' | (s', Err e) => (s', Err e) end.
Proof.
  revert s; induction p as [a|e|X op k IH]; intros s; simpl; [done..|].
  destruct (h X op s) as [s' r]. apply IH.
Qed.

Lemma run_match {E S A B} (h : forall X, E X -> M S X) (p : prog E A) (f : A -> prog E B) k s :
  run h (prog_match p f k) s =
  match run h p s with (s', Ok a) => run h (f a) s' | (s', Err e) => run h (k e) s' end.
Proof.
  revert s; induction p as [a|e|X op c IH]; intros s; simpl; [done..|].
  destruct (h X op s) as [s' r]. apply IH.
Qed.

Lemma run_of_result {E S A B} (h : forall X, E X -> M S X) (r : result A) (f : A -> prog E B) s :
  run h (of_result r ≫= f) s = match r with Ok a => run h (f a) s | Err e => (s, Err e) end.
Proof. by destruct r. Qed.

Lemma run_call {E F S X} `{SubE E F} (h : forall X, F X -> M S X) (op : E X) s :
  run h (call op) s = h X (inject X op) s.
Proof. unfold call, perform. cbn [run]. by destruct (h X (inject X op) s) as [s' [a|e]]. Qed.

Lemma run_call_bind {E F S A X} `{SubE E F} (h : forall X, F X -> M S X) (op : E X) (f : X -> prog F A) s :
  run h (call op ≫= f) s =
  match h X (inject X op) s with (s', Ok a) => run h (f a) s' | (s', Err e) => (s', Err e) end.
Proof. by rewrite run_bind, run_call. Qed.

(** All the ways a program can go when its operations answer anything: [execs p tr r] says that
    [p] ends with [r] after the operations and answers listed in [tr]. *)
Inductive event (E : Type -> Type) := Event (X : Type) (op : E X) (answer : result X).
Arguments Event {E X} op answer.

Fixpoint execs {E A} (p : prog E A) (tr : list (event E)) (r : result A) : Prop :=
  match p with
  | Ret a => tr = [] /\ r = Ok a
  | Raise e => tr = [] /\ r = Err e
  | Vis op k => exists ans tr', tr = Event op ans :: tr' /\ execs (k ans) tr' r
  end.

Lemma execs_match {E A B} (p : prog E A) (f : A -> prog E B) h tr r :
  execs (prog_match p f h) tr r <-> exists tr1 tr2 r1, tr = (tr1 ++ tr2)%list /\ execs p tr1 r1 /\
    match r1 with Ok a => execs (f a) tr2 r | Err e => execs (h e) tr2 r end.
Proof.
  revert tr; induction p as [a|e|X op k IH]; intros tr; simpl.
  - split; [intros H; by exists [], tr, (Ok a)|]. by intros (? & ? & ? & -> & [-> ->] & ?).
  - split; [intros H; by exists [], tr, (Err e)|]. by intros (? & ? & ? & -> & [-> ->] & ?).
  - split.
    + intros (ans & tr' & -> & (tr1 & tr2 & r1 & -> & H1 & H2)%IH).
      exists (Event op ans :: tr1), tr2, r1. split_and!; [done| |done]. by exists ans, tr1.
    + intros (tr1 & tr2 & r1 & -> & (ans & tr' & -> & H1) & H2). exists ans, (tr' ++ tr2)%list.
      split; [done|]. apply IH. by exists tr', tr2, r1.
Qed.

Lemma execs_bind {E A B} (p : prog E A) (f : A -> prog E B) tr r :
  execs (p ≫= f) tr r <-> exists tr1 tr2 r1, tr = (tr1 ++ tr2)%list /\ execs p tr1 r1 /\
    match r1 with Ok a => execs (f a) tr2 r | Err e => tr2 = [] /\ r = Err e end.
Proof.
  revert tr; induction p as [a|e|X op k IH]; intros tr; simpl.
  - split; [intros H; by exists [], tr, (Ok a)|]. by intros (? & ? & ? & -> & [-> ->] & ?).
  - split; [intros H; by exists [], tr, (Err e)|]. by intros (? & ? & ? & -> & [-> ->] & ?).
  - split.
    + intros (ans & tr' & -> & (tr1 & tr2 & r1 & -> & H1 & H2)%IH).
      exists (Event op ans :: tr1), tr2, r1. split_and!; [done| |done]. by exists ans, tr1.
    + intros (tr1 & tr2 & r1 & -> & (ans & tr' & -> & H1) & H2). exists ans, (tr' ++ tr2)%list.
      split; [done|]. apply IH. by exists tr', tr2, r1.
Qed.

Lemma execs_of_result {E A} (x : result A) tr r :
  execs (E := E) (of_result x) tr r <-> tr = [] /\ r = x.
Proof. by destruct x. Qed.

Lemma execs_call {E F X} `{SubE E F} (op : E X) tr r :
  execs (call op) tr r <-> tr = [Event (inject X op) r].
Proof.
  simpl. split.
  - intros (ans & tr' & -> & [-> ->]%execs_of_result). done.
  - intros ->. exists r, []. split; [done|]. by apply execs_of_result.
Qed.

(** The trace of a run with a total handler. *)
Fixpoint trace_run {E S A} (h : forall X, E X -> M S X) (p : prog E A) (s : S)
  : list (event E) * result A :=
  match p with
  | Ret a => ([], Ok a)
  | Raise e => ([], Err e)
  | Vis op k => let '(s', r) := h _ op s in
                let '(tr, res) := trace_run h (k r) s' in (Event op r :: tr, res)
  end.

Lemma trace_run_execs {E S A} (h : forall X, E X -> M S X) (p : prog E A) s :
  execs p (trace_run h p s).1 (trace_run h p s).2.
Proof.
  revert s; induction p as [a|e|X op k IH]; intros s; simpl; [done..|].
  destruct (h X op s) as [s' r]. specialize (IH r s').
  destruct (trace_run h (k r) s') as [tr res]. by exists r, tr.
Qed.

(** ** Python values used everywhere *)

(** [a or b] on an optional string: both [None] and the empty string are falsy. *)
Definition truthy (s : option string) : bool :=
  match s with Some t => negb (bool_decide (t = "")) | None => false end.

Definition str_or (s : option string) (d : string) : string :=
  match s with Some t => if bool_decide (t = "") then d else t | None => d end.

Definition opt_or {A} (o : option A) (d : A) : A := match o with Some a => a | None => d end.

Definition mem_b {A} `{EqDecision A} (x : A) (l : list A) : bool := bool_decide (x ∈ l).

(** [datetime] values are aware UTC instants and [timedelta] values are durations, both in
    microseconds. *)
Notation time := Z (only parsing).
Definition seconds (n : Z) : Z := (n * 1000000)%Z.
Definition minutes (n : Z) : Z := seconds (60 * n).
Definition hours (n : Z) : Z := minutes (60 * n).

(** ** Generic lemmas *)

Lemma lookup_insert_Some' {K A} `{Countable K} (m : gmap K A) i j x y :
  <[i:=x]> m !! j = Some y -> (i = j /\ x = y) \/ (i <> j /\ m !! j = Some y).
Proof. rewrite lookup_insert_Some. naive_solver. Qed.

Lemma mem_b_true {A} `{EqDecision A} (x : A) l : mem_b x l = true <-> x ∈ l.
Proof. unfold mem_b. by rewrite bool_decide_eq_true. Qed.

Lemma mem_b_false {A} `{EqDecision A} (x : A) l : mem_b x l = false <-> x ∉ l.
Proof. unfold mem_b. by rewrite bool_decide_eq_false. Qed.

#[export] Hint Rewrite @mem_b_true @mem_b_false : pa.

(** Reflexive transitive closure of a step relation, for reachability. *)
Inductive star {A} (R : A -> A -> Prop) : A -> A -> Prop :=
| star_refl a : star R a a
| star_step a b c : R a b -> star R b c -> star R a c.

#[export] Hint Constructors star : pa.

(** An invariant that every step preserves holds in every reachable state. *)
Lemma star_invariant {A} (R : A -> A -> Prop) (P : A -> Prop) :
  (forall a b, R a b -> P a -> P b) ->
  forall a b, star R a b -> P a -> P b.
Proof. intros Hstep a b Hs. induction Hs; eauto. Qed.

Lemma star_one {A} (R : A -> A -> Prop) a b : R a b -> star R a b.
Proof. eauto with pa. Qed.

Lemma star_trans {A} (R : A -> A -> Prop) a b c : star R a b -> star R b c -> star R a c.
Proof. induction 1; eauto with pa. Qed.

(** Updating one position of a list of counters. *)
Lemma sum_list_insert (l : list nat) j x y :
  l !! j = Some x -> (sum_list (<[j := y]> l) + x = sum_list l + y)%nat.
Proof.
  revert j; induction l as [|z l IH]; intros [|j] Hj; simpl in *; try discriminate.
  - injection Hj as ->. lia.
  - specialize (IH j Hj). lia.
Qed.

Lemma sum_list_app (l k : list nat) : sum_list (l ++ k) = (sum_list l + sum_list k)%nat.
Proof. induction l as [|x l IH]; simpl; [done|]. rewrite IH. lia. Qed.
