(* ===== verification/Text.v ===== *)
(** * Text: the operations of Python's [str] that the sources use

    A [str] is a [string] with one [ascii] per code point, so the model covers text over the
    first 256 code points (Latin-1); [utf8_encode] is [str.encode("utf-8")] on that range. *)

From S2P Require Import Prelude.
From stdpp Require Export pretty.
Local Open Scope string_scope.
Local Open Scope Z_scope.

Notation chars := String.list_ascii_of_string (only parsing).
Notation of_chars := String.string_of_list_ascii (only parsing).

Definition code (a : Ascii.ascii) : Z := Z.of_N (Ascii.N_of_ascii a).

Definition str_len (s : string) : Z := Z.of_nat (String.length s).

(** [s[:n]] for [n >= 0]. *)
Definition str_take (n : Z) (s : string) : string := of_chars (take (Z.to_nat n) (chars s)).

(** [str.isspace] on one character. *)
Definition is_space (a : Ascii.ascii) : bool :=
  let c := code a in
  ((9 <=? c) && (c <=? 13)) || ((28 <=? c) && (c <=? 32)) || (c =? 133) || (c =? 160).

Fixpoint lstrip_l (l : list Ascii.ascii) : list Ascii.ascii :=
  match l with
  | a :: l' => if is_space a then lstrip_l l' else l
  | [] => []
  end.

Definition strip (s : string) : string :=
  of_chars (reverse (lstrip_l (reverse (lstrip_l (chars s))))).

(** [not s.strip()] *)
Definition blank (s : string) : bool := forallb is_space (chars s).

(** [str.lower] on one character: ASCII and Latin-1 capitals. *)
Definition lower_a (a : Ascii.ascii) : Ascii.ascii :=
  let c := code a in
  if ((65 <=? c) && (c <=? 90)) || ((192 <=? c) && (c <=? 222) && negb (c =? 215))
  then Ascii.ascii_of_N (Z.to_N (c + 32)) else a.

Definition lower (s : string) : string := of_chars (lower_a <$> chars s).

Definition is_digit (a : Ascii.ascii) : bool := (48 <=? code a) && (code a <=? 57).

Definition is_hex_lower (a : Ascii.ascii) : bool :=
  is_digit a || ((97 <=? code a) && (code a <=? 102)).

(** [str.isdecimal] *)
Definition isdecimal (s : string) : bool :=
  negb (bool_decide (s = "")) && forallb is_digit (chars s).

(** [int(s)] on a string of decimal digits. *)
Definition int_of_decimal (s : string) : Z :=
  fold_left (fun acc a => acc * 10 + (code a - 48)) (chars s) 0.

(** [re.fullmatch(r"[A-Za-z0-9_.-]{1,128}", s)] *)
Definition is_ident_char (a : Ascii.ascii) : bool :=
  let c := code a in
  is_digit a || ((65 <=? c) && (c <=? 90)) || ((97 <=? c) && (c <=? 122))
  || (c =? 95) || (c =? 46) || (c =? 45).

Definition ident_fullmatch (s : string) : bool :=
  (1 <=? str_len s) && (str_len s <=? 128) && forallb is_ident_char (chars s).

(** [sep.join(l)] *)
Fixpoint str_join (sep : string) (l : list string) : string :=
  match l with
  | [] => ""
  | [s] => s
  | s :: l' => s ++ sep ++ str_join sep l'
  end.

(** [s.split(sep)] for a one-character separator: always at least one part. *)
Fixpoint split_l (sep : Ascii.ascii) (l cur : list Ascii.ascii) : list string :=
  match l with
  | [] => [of_chars (reverse cur)]
  | a :: l' => if bool_decide (a = sep) then of_chars (reverse cur) :: split_l sep l' []
               else split_l sep l' (a :: cur)
  end.

Definition str_split (sep : Ascii.ascii) (s : string) : list string := split_l sep (chars s) [].

(** [s.replace(old, new)] for a non-empty [old]: leftmost, non-overlapping occurrences. *)
Fixpoint is_prefix_l (p l : list Ascii.ascii) : bool :=
  match p, l with
  | [], _ => true
  | a :: p', b :: l' => bool_decide (a = b) && is_prefix_l p' l'
  | _ :: _, [] => false
  end.

Fixpoint replace_l (fuel : nat) (old new l : list Ascii.ascii) : list Ascii.ascii :=
  match fuel with
  | O => l
  | S fuel =>
      match l with
      | [] => []
      | a :: l' =>
          if is_prefix_l old l then new ++ replace_l fuel old new (drop (length old) l)
          else a :: replace_l fuel old new l'
      end
  end%list.

Definition str_replace (old new s : string) : string :=
  of_chars (replace_l (String.length s) (chars old) (chars new) (chars s)).

(** [str(n)] for an [int]. *)
Definition str_of_Z (n : Z) : string := pretty n.

(** [s.encode("utf-8")] as byte values. *)
Definition utf8_encode (s : string) : list Z :=
  concat ((fun a => let c := code a in
           if c <? 128 then [c] else [192 + c / 64; 128 + c mod 64]) <$> chars s).

(** ** Lemmas *)

Lemma of_chars_chars s : of_chars (chars s) = s.
Proof. apply String.string_of_list_ascii_of_string. Qed.

Lemma chars_of_chars l : chars (of_chars l) = l.
Proof. apply String.list_ascii_of_string_of_list_ascii. Qed.

Lemma chars_inj s t : chars s = chars t -> s = t.
Proof. intros H. by rewrite <- (of_chars_chars s), <- (of_chars_chars t), H. Qed.

Lemma chars_app s t : chars (s ++ t) = (chars s ++ chars t)%list.
Proof. induction s as [|a s IH]; simpl; [done|]. by rewrite IH. Qed.

Lemma length_chars s : length (chars s) = String.length s.
Proof. induction s as [|a s IH]; simpl; [done|]. by rewrite IH. Qed.

Lemma str_len_chars s : str_len s = Z.of_nat (length (chars s)).
Proof. unfold str_len. by rewrite length_chars. Qed.

Lemma str_len_nonneg s : 0 <= str_len s.
Proof. unfold str_len. lia. Qed.

Lemma str_len_app s t : str_len (s ++ t) = str_len s + str_len t.
Proof. rewrite !str_len_chars, chars_app, length_app. lia. Qed.

Lemma str_len_take n s : 0 <= n -> str_len (str_take n s) = Z.min n (str_len s).
Proof.
  intros. unfold str_take. rewrite !str_len_chars, chars_of_chars, length_take. lia.
Qed.

Lemma str_len_0 s : str_len s = 0 -> s = "".
Proof. destruct s; [done|]. unfold str_len. simpl. lia. Qed.

(** [s.strip()] is empty exactly when every character is white space. *)
Lemma lstrip_l_nil l : lstrip_l l = [] <-> forallb is_space l = true.
Proof.
  induction l as [|a l IH]; simpl; [done|].
  destruct (is_space a); simpl; [done|]. split; discriminate.
Qed.

Lemma lstrip_l_head l a l' : lstrip_l l = a :: l' -> is_space a = false.
Proof.
  induction l as [|b l IH]; simpl; [done|].
  destruct (is_space b) eqn:E; [done|]. by intros [= <- _].
Qed.

Lemma strip_blank s : strip s = "" <-> blank s = true.
Proof.
  unfold strip, blank. rewrite <- lstrip_l_nil. split.
  - intros H%(f_equal (fun x => chars x)). rewrite chars_of_chars in H. simpl in H.
    destruct (lstrip_l (chars s)) as [|a l] eqn:E; [done|]. exfalso.
    apply (f_equal reverse) in H. rewrite reverse_involutive in H.
    apply lstrip_l_nil in H. rewrite forallb_forall in H.
    assert (is_space a = true) as Ha.
    { apply H, list_elem_of_In, elem_of_reverse. set_solver. }
    by rewrite (lstrip_l_head _ _ _ E) in Ha.
  - intros ->. done.
Qed.

#[export] Hint Resolve str_len_nonneg : pa.

(** ** Code point order *)

Lemma str_leb_trans s t u : String.leb s t = true -> String.leb t u = true -> String.leb s u = true.
Proof.
  intros H1%Is_true_true H2%Is_true_true. apply Is_true_true.
  change (String.le s u). change (String.le s t) in H1. change (String.le t u) in H2. by etrans.
Qed.

Lemma str_ltb_leb s t : String.ltb s t = negb (String.leb t s).
Proof.
  unfold String.ltb, String.leb. rewrite String.compare_antisym.
  by destruct (String.compare t s).
Qed.

(** ** [repr] of a string *)

Definition repr_char (quote_code : Z) (a : Ascii.ascii) : list Ascii.ascii :=
  let c := code a in
  let escaped l := (fun x => Ascii.ascii_of_N (Z.to_N x)) <$> l in
  let digit x := if x <? 10 then 48 + x else 87 + x in
  if (c =? quote_code) || (c =? 92) then escaped [92; c]
  else if c =? 9 then escaped [92; 116]
  else if c =? 10 then escaped [92; 110]
  else if c =? 13 then escaped [92; 114]
  else if (c <? 32) || ((127 <=? c) && (c <=? 160)) || (c =? 173)
  then escaped [92; 120; digit (c / 16); digit (c mod 16)]
  else [a].

(** [f"{s!r}"]: single quotes unless the text has one and no double quote. *)
Definition str_repr (s : string) : string :=
  let has c := existsb (fun a => code a =? c) (chars s) in
  let q := if has 39 && negb (has 34) then 34 else 39 in
  let mark := [Ascii.ascii_of_N (Z.to_N q)] in
  of_chars (mark ++ concat (repr_char q <$> chars s) ++ mark)%list.

Example str_repr_plain : str_repr "job-1" = "'job-1'". Proof. reflexivity. Qed.
Example str_repr_quote : str_repr (of_chars [Ascii.ascii_of_N 39; Ascii.ascii_of_N 92])
  = of_chars (Ascii.ascii_of_N <$> [34%N; 39%N; 92%N; 92%N; 34%N]).
Proof. reflexivity. Qed.
