(* ===== verification/Pool.v ===== *)
(** * Pool: rely/guarantee for coroutines over a compare-and-swap store

    A pool of coroutines performs operations of a signature [E] on a shared state, one at a time
    and in any order; coroutines arrive, are cancelled and die at any moment.  A coroutine is
    disciplined when each of its writes is justified by records it has read before ([allowed]).
    [pool_history] turns that local discipline into a global invariant over the history of
    records that were ever stored. *)

From S2P Require Import Prelude.

Section pool.
Context {E : Type -> Type} {S K : Type}.

(** One operation on the shared state, and the programs that may arrive. *)
Context (step : forall X, E X -> S -> S -> result X -> Prop).
Context (client : prog E unit -> Prop).

Definition pconfig : Type := S * list (prog E unit).

Inductive pstep : pconfig -> pconfig -> Prop :=
| pstep_run s s' ts j X (op : E X) k r :
    ts !! j = Some (Vis op k) -> step X op s s' r -> pstep (s, ts) (s', <[j := k r]> ts)
| pstep_cancel s ts j X (op : E X) k :
    ts !! j = Some (Vis op k) -> pstep (s, ts) (s, <[j := k (Err cancelled)]> ts)
| pstep_die s ts j p : ts !! j = Some p -> pstep (s, ts) (s, <[j := Raise cancelled]> ts)
| pstep_arrive s ts p : client p -> pstep (s, ts) (s, (ts ++ [p])%list).

(** A client that runs alone, with answers chosen by a handler, is a run of the pool as long as
    every answer is a step of the system. *)
Fixpoint follows (h : forall X, E X -> M S X) (p : prog E unit) (s : S) : Prop :=
  match p with
  | Ret _ | Raise _ => True
  | Vis op k => step _ op s (h _ op s).1 (h _ op s).2 /\ follows h (k (h _ op s).2) (h _ op s).1
  end.

Lemma pool_run_follows (h : forall X, E X -> M S X) p s ts : follows h p s -> client p ->
  star pstep (s, ts) ((run h p s).1,
    (ts ++ [match (run h p s).2 with Ok _ => Ret tt | Err e => Raise e end])%list).
Proof.
  intros Hh Hc. eapply star_step; [by apply pstep_arrive|]. clear Hc. revert s Hh.
  assert (forall p : prog E unit, (ts ++ [p])%list !! length ts = Some p) as Hl.
  { intros q. rewrite lookup_app_r by done. by rewrite Nat.sub_diag. }
  assert (forall p q : prog E unit, <[length ts := q]> (ts ++ [p])%list = (ts ++ [q])%list) as Hi.
  { intros q q'. rewrite insert_app_r_alt by done. by rewrite Nat.sub_diag. }
  induction p as [[]|e|X op k IH]; intros s Hh; simpl in *; [constructor..|].
  destruct Hh as [Hs Hh]. destruct (h X op s) as [s' r]. simpl in Hs, Hh.
  eapply star_step; [by eapply pstep_run|]. rewrite Hi. by apply IH.
Qed.

Lemma pool_run_alone (h : forall X, E X -> M S X) p s ts :
  (forall X (op : E X) s, step X op s (h X op s).1 (h X op s).2) -> client p ->
  star pstep (s, ts) ((run h p s).1,
    (ts ++ [match (run h p s).2 with Ok _ => Ret tt | Err e => Raise e end])%list).
Proof.
  intros Hh. apply pool_run_follows. revert s. induction p as [[]|e|X op k IH]; intros s; simpl; auto.
Qed.

(** A schedule names the coroutine that takes the next step. *)
Definition run_one (h : forall X, E X -> M S X) (c : pconfig) (j : nat) : pconfig :=
  match c.2 !! j with
  | Some (Vis op k) => let '(s, r) := h _ op c.1 in (s, <[j := k r]> c.2)
  | _ => c
  end.
Definition run_schedule (h : forall X, E X -> M S X) (js : list nat) (c : pconfig) : pconfig := foldl (run_one h) c js.

Lemma run_schedule_star (h : forall X, E X -> M S X) js c :
  (forall X (op : E X) s, step X op s (h X op s).1 (h X op s).2) -> star pstep c (run_schedule h js c).
Proof.
  intros Hh. unfold run_schedule. revert c; induction js as [|j js IH]; intros [s ts]; cbn; [constructor|].
  unfold run_one at 2; cbn. destruct (ts !! j) as [[a|e|X op k]|] eqn:Hj; [apply IH..| |apply IH].
  specialize (Hh X op s). destruct (h X op s) as [s' r]. eapply star_step; [by eapply pstep_run|]. apply IH.
Qed.

(** What a coroutine that has seen the records [kn] may do, what it may rely on about the
    answer, and the records the answer shows it. *)
Context (allowed : forall X, list K -> E X -> Prop).
Context (sound : forall X, list K -> E X -> result X -> Prop).
Context (learn : forall X, E X -> result X -> list K).

Fixpoint dwp {A} (p : prog E A) (kn : list K) (Q : list K -> result A -> Prop) : Prop :=
  match p with
  | Ret a => Q kn (Ok a)
  | Raise e => Q kn (Err e)
  | Vis op k => allowed _ kn op /\
      forall ans, sound _ kn op ans -> dwp (k ans) (learn _ op ans ++ kn) Q
  end.

Lemma dwp_mono {A} (p : prog E A) kn (Q Q' : list K -> result A -> Prop) :
  (forall kn' r, Q kn' r -> Q' kn' r) -> dwp p kn Q -> dwp p kn Q'.
Proof.
  intros HQ. revert kn; induction p as [a|e|X op k IH]; intros kn; simpl; [apply HQ..|].
  intros [Ha Hk]. split; [done|]. intros ans Hs. by apply IH, Hk.
Qed.

Lemma dwp_match {A B} (p : prog E A) (f : A -> prog E B) h kn Q :
  dwp p kn (fun kn' r => match r with Ok a => dwp (f a) kn' Q | Err e => dwp (h e) kn' Q end) ->
  dwp (prog_match p f h) kn Q.
Proof.
  revert kn; induction p as [a|e|X op k IH]; intros kn; simpl; [done..|].
  intros [Ha Hk]. split; [done|]. intros ans Hs. by apply IH, Hk.
Qed.

Lemma dwp_bind {A B} (p : prog E A) (f : A -> prog E B) kn Q :
  dwp p kn (fun kn' r => match r with Ok a => dwp (f a) kn' Q | Err e => Q kn' (Err e) end) ->
  dwp (p ≫= f) kn Q.
Proof.
  revert kn; induction p as [a|e|X op k IH]; intros kn; simpl; [done..|].
  intros [Ha Hk]. split; [done|]. intros ans Hs. by apply IH, Hk.
Qed.

Lemma dwp_of_result {A} (r : result A) kn (Q : list K -> result A -> Prop) :
  Q kn r -> dwp (of_result r) kn Q.
Proof. by destruct r. Qed.

Lemma dwp_perform {X} (op : E X) kn (Q : list K -> result X -> Prop) :
  allowed X kn op -> (forall ans, sound X kn op ans -> Q (learn X op ans ++ kn)%list ans) ->
  dwp (perform op) kn Q.
Proof.
  intros Ha HQ. simpl. split; [done|]. intros ans Hs. by apply dwp_of_result, HQ.
Qed.

Lemma dwp_try {A} (p : prog E A) h kn (Q : list K -> result A -> Prop) :
  dwp p kn (fun kn' r => match r with Ok a => Q kn' (Ok a) | Err e => dwp (h e) kn' Q end) ->
  dwp (prog_try p h) kn Q.
Proof.
  revert kn; induction p as [a|e|X op k IH]; intros kn; simpl; [done..|].
  intros [Ha Hk]. split; [done|]. intros ans Hs. by apply IH, Hk.
Qed.

(** An operation that needs no justification. *)
Lemma dwp_any {X} (op : E X) kn (Q : list K -> result X -> Prop) :
  (forall kn, allowed X kn op) -> (forall kn' r, Q kn' r) -> dwp (perform op) kn Q.
Proof. intros Ha HQ. by apply dwp_perform. Qed.

(** ** The global invariant *)

Context (Inv : S -> list K -> Prop).

(** The history of the pool, what the coroutines know of it ([below]) and the state it describes. *)
Section below.
Context (below : list K -> list K -> Prop).

Definition thread_below (H : list K) (p : prog E unit) (kn : list K) : Prop :=
  dwp p kn (fun _ _ => True) /\ below kn H.
Definition threads_below (H : list K) (c : pconfig) : Prop := Inv c.1 H /\ exists kns, Forall2 (thread_below H) c.2 kns.

(** The operations keep the invariant for disciplined callers, and the history only grows. *)
Hypothesis step_below : forall X (op : E X) s s' r H kn,
  Inv s H -> below kn H -> allowed X kn op -> step X op s s' r ->
  exists H', (forall kn', below kn' H -> below kn' H') /\ Inv s' H' /\ below (learn X op r ++ kn)%list H' /\ sound X kn op r.
Hypothesis below_nil : forall H, below [] H.
Hypothesis cancel_sound : forall X (op : E X) kn, sound X kn op (Err cancelled) /\
  learn X op (Err cancelled) = [].
Hypothesis client_ok : forall p, client p -> dwp p [] (fun _ _ => True).

Lemma pstep_below H c c' : pstep c c' -> threads_below H c ->
  exists H', (forall kn, below kn H -> below kn H') /\ threads_below H' c'.
Proof.
  intros Hstep [Hinv [kns Hf]]. destruct Hstep as [s s' ts j X op k r Hj Hs|s ts j X op k Hj
    |s ts j p Hj|s ts p Hp]; simpl in *.
  - destruct (Forall2_lookup_l _ _ _ _ _ Hf Hj) as (kn & Hkn & [[Ha Hk] Hsub]).
    destruct (step_below X op s s' r H kn Hinv Hsub Ha Hs) as (H' & HH & Hinv' & Hl & Hso).
    exists H'. split; [done|]. split; [done|]. exists (<[j := (learn X op r ++ kn)%list]> kns).
    simpl. apply Forall2_insert.
    + eapply Forall2_impl; [|exact Hf]. intros p kn0 [??]. split; [done|]. by apply HH.
    + split; [by apply Hk|done].
  - destruct (Forall2_lookup_l _ _ _ _ _ Hf Hj) as (kn & Hkn & [[Ha Hk] Hsub]).
    destruct (cancel_sound X op kn) as [Hso Hl].
    exists H. split; [done|]. split; [done|]. exists (<[j := kn]> kns).
    apply Forall2_insert; [done|]. split; [|done]. specialize (Hk _ Hso). by rewrite Hl in Hk.
  - exists H. split; [done|]. split; [done|]. exists (<[j := []]> kns).
    apply Forall2_insert; [done|]. split; [done|]. apply below_nil.
  - exists H. split; [done|]. split; [done|]. exists (kns ++ [[]])%list.
    apply Forall2_app; [done|]. repeat constructor; [by apply client_ok|]. apply below_nil.
Qed.

Lemma pool_below H c c' : star pstep c c' -> threads_below H c ->
  exists H', (forall kn, below kn H -> below kn H') /\ threads_below H' c'.
Proof.
  intros Hs. revert H. induction Hs as [c|c1 c2 c3 Hstep _ IH]; intros H Hinv; [by exists H|].
  destruct (pstep_below _ _ _ Hstep Hinv) as (H1 & Hs1 & Hinv1).
  destruct (IH H1 Hinv1) as (H2 & Hs2 & Hinv2). exists H2. split; [by auto|done].
Qed.
End below.

(** Knowledge as a set of records that were stored at some time. *)
Hypothesis step_inv : forall X (op : E X) s s' r H kn,
  Inv s H -> kn ⊆ H -> allowed X kn op -> step X op s s' r ->
  exists H', H ⊆ H' /\ Inv s' H' /\ learn X op r ⊆ H' /\ sound X kn op r.
Hypothesis cancel_sound : forall X (op : E X) kn, sound X kn op (Err cancelled) /\
  learn X op (Err cancelled) = [].
Hypothesis client_ok : forall p, client p -> dwp p [] (fun _ _ => True).

Definition threads_inv (H : list K) (c : pconfig) : Prop := threads_below (⊆) H c.

Lemma pool_history H c c' : star pstep c c' -> threads_inv H c ->
  exists H', H ⊆ H' /\ threads_inv H' c'.
Proof.
  intros Hs Hi. destruct (pool_below (⊆)) with (H := H) (c := c) (c' := c') as (H' & Hsub & Hi'); [|set_solver|done..|].
  - intros X op s s' r H0 kn Hinv Hk Ha Hstep. destruct (step_inv X op s s' r H0 kn) as (H' & HH & Hinv' & Hl & Hso); [done..|].
    exists H'. split_and!; [intros kn' ?; by etrans|done| |done]. set_solver.
  - exists H'. split; [by apply Hsub|done].
Qed.

(** From the empty pool. *)
Lemma pool_reachable H s c : Inv s H -> star pstep (s, []) c ->
  exists H', H ⊆ H' /\ threads_inv H' c.
Proof.
  intros Hi Hs. eapply pool_history; [exact Hs|]. split; [done|]. exists []. constructor.
Qed.
End pool.
