(* ===== verification/Monitor.v ===== *)
(** * Monitor: safety of all traces of a coroutine

    A monitor watches the operations of a program: [ok] says which operation may be performed in
    a monitor state and [next] how the state follows an operation and its answer.  [mwp] is a
    weakest precondition for "every operation is allowed, whatever is answered", and
    [mwp_execs] turns it into a fact about every trace of the program. *)

From S2P Require Import Prelude.

Section monitor.
Context {E : Type -> Type} {St : Type}.
Context (ok : forall X, St -> E X -> Prop).
Context (next : forall X, St -> E X -> result X -> St).

Fixpoint mwp {A} (p : prog E A) (m : St) (Q : St -> result A -> Prop) : Prop :=
  match p with
  | Ret a => Q m (Ok a)
  | Raise e => Q m (Err e)
  | Vis op k => ok _ m op /\ forall ans, mwp (k ans) (next _ m op ans) Q
  end.

(** The states along a trace, and the trace's operations being allowed there. *)
Fixpoint after (m : St) (tr : list (event E)) : St :=
  match tr with
  | [] => m
  | Event op ans :: tr => after (next _ m op ans) tr
  end.

Fixpoint watched (m : St) (tr : list (event E)) : Prop :=
  match tr with
  | [] => True
  | Event op ans :: tr => ok _ m op /\ watched (next _ m op ans) tr
  end.

Lemma mwp_execs {A} (p : prog E A) m Q tr r :
  mwp p m Q -> execs p tr r -> watched m tr /\ Q (after m tr) r.
Proof.
  revert m tr; induction p as [a|e|X op k IH]; intros m tr; simpl.
  - by intros HQ [-> ->].
  - by intros HQ [-> ->].
  - intros [Hok Hk] (ans & tr' & -> & Hx). simpl. destruct (IH ans _ _ (Hk ans) Hx). done.
Qed.

Lemma watched_app m tr1 tr2 : watched m (tr1 ++ tr2) <-> watched m tr1 /\ watched (after m tr1) tr2.
Proof. revert m; induction tr1 as [|[X op ans] tr1 IH]; intros m; simpl; [naive_solver|]. rewrite IH. naive_solver. Qed.

Lemma after_app m tr1 tr2 : after m (tr1 ++ tr2) = after (after m tr1) tr2.
Proof. revert m; induction tr1 as [|[X op ans] tr1 IH]; intros m; simpl; [done|]. apply IH. Qed.

Lemma mwp_mono {A} (p : prog E A) m (Q Q' : St -> result A -> Prop) :
  (forall m' r, Q m' r -> Q' m' r) -> mwp p m Q -> mwp p m Q'.
Proof.
  intros HQ. revert m; induction p as [a|e|X op k IH]; intros m; simpl; [apply HQ..|].
  intros [Hok Hk]. split; [done|]. intros ans. by apply IH.
Qed.

Lemma mwp_match {A B} (p : prog E A) (f : A -> prog E B) h m Q :
  mwp p m (fun m' r => match r with Ok a => mwp (f a) m' Q | Err e => mwp (h e) m' Q end) ->
  mwp (prog_match p f h) m Q.
Proof.
  revert m; induction p as [a|e|X op k IH]; intros m; simpl; [done..|].
  intros [Hok Hk]. split; [done|]. intros ans. by apply IH.
Qed.

Lemma mwp_try {A} (p : prog E A) h m (Q : St -> result A -> Prop) :
  mwp p m (fun m' r => match r with Ok a => Q m' (Ok a) | Err e => mwp (h e) m' Q end) ->
  mwp (prog_try p h) m Q.
Proof.
  revert m; induction p as [a|e|X op k IH]; intros m; simpl; [done..|].
  intros [Hok Hk]. split; [done|]. intros ans. by apply IH.
Qed.

Lemma mwp_bind {A B} (p : prog E A) (f : A -> prog E B) m Q :
  mwp p m (fun m' r => match r with Ok a => mwp (f a) m' Q | Err e => Q m' (Err e) end) ->
  mwp (p ≫= f) m Q.
Proof.
  revert m; induction p as [a|e|X op k IH]; intros m; simpl; [done..|].
  intros [Hok Hk]. split; [done|]. intros ans. by apply IH.
Qed.

Lemma mwp_of_result {A} (r : result A) m (Q : St -> result A -> Prop) :
  Q m r -> mwp (of_result r) m Q.
Proof. by destruct r. Qed.

Lemma mwp_perform {X} (op : E X) m (Q : St -> result X -> Prop) :
  ok X m op -> (forall ans, Q (next X m op ans) ans) -> mwp (perform op) m Q.
Proof. intros Hok HQ. simpl. split; [done|]. intros ans. by apply mwp_of_result. Qed.

(** Programs that keep a predicate of the monitor whatever they are answered. *)
Definition keeps {A} (I : St -> Prop) (p : prog E A) : Prop := forall m, I m -> mwp p m (fun m' _ => I m').

Lemma keeps_ret {A} I (a : A) : keeps I (Ret a).
Proof. by intros m Hm. Qed.

Lemma keeps_raise {A} I e : keeps I (Raise e : prog E A).
Proof. by intros m Hm. Qed.

Lemma keeps_of_result {A} I (r : result A) : keeps I (of_result r).
Proof. intros m Hm. by apply mwp_of_result. Qed.

Lemma keeps_bind {A B} I (p : prog E A) (f : A -> prog E B) :
  keeps I p -> (forall a, keeps I (f a)) -> keeps I (p ≫= f).
Proof.
  intros Hp Hf m Hm. apply mwp_bind. eapply mwp_mono; [|by apply Hp].
  intros m' [a|e] Hm'; [by apply Hf|done].
Qed.

Lemma keeps_of_result_bind {A B} I (r : result A) (f : A -> prog E B) :
  (forall a, r = Ok a -> keeps I (f a)) -> keeps I (of_result r ≫= f).
Proof. destruct r as [a|e]; intros Hf; [by apply Hf|apply keeps_raise]. Qed.

Lemma keeps_match {A B} I (p : prog E A) (f : A -> prog E B) h :
  keeps I p -> (forall a, keeps I (f a)) -> (forall e, keeps I (h e)) -> keeps I (prog_match p f h).
Proof.
  intros Hp Hf Hh m Hm. apply mwp_match. eapply mwp_mono; [|by apply Hp].
  intros m' [a|e] Hm'; [by apply Hf|by apply Hh].
Qed.

Lemma keeps_try {A} I (p : prog E A) h :
  keeps I p -> (forall e, keeps I (h e)) -> keeps I (prog_try p h).
Proof.
  intros Hp Hh m Hm. apply mwp_try. eapply mwp_mono; [|by apply Hp].
  intros m' [a|e] Hm'; [done|by apply Hh].
Qed.

Lemma keeps_perform {X} I (op : E X) :
  (forall m, I m -> ok X m op /\ forall ans, I (next X m op ans)) -> keeps I (perform op).
Proof. intros H m Hm. destruct (H m Hm) as [Hok HI]. by apply mwp_perform. Qed.

End monitor.
