(* ===== verification/PyFloat.v ===== *)
(** * PyFloat: Python's [float], an IEEE binary64 value, with [repr] and [float()]

    Values are Stdlib's [spec_float]; [float_repr] is [float.__repr__] (the shortest decimal
    that reads back as the same double) and [float_of_dec] is the correctly rounded reading of
    a decimal. *)

From S2P Require Import Prelude Text.
From Stdlib Require Import Floats.SpecFloat.
Local Open Scope string_scope.
Local Open Scope Z_scope.

Notation f64 := spec_float (only parsing).

#[global] Instance spec_float_eq_dec : EqDecision spec_float.
Proof. solve_decision. Defined.

Definition isfinite (f : spec_float) : bool :=
  match f with S754_infinity _ | S754_nan => false | _ => true end.

(** The double nearest to [d * 10 ^ ex], ties to even. *)
Definition float_of_dec (neg : bool) (d : Z) (ex : Z) : spec_float :=
  match d with
  | Zpos p =>
      if 0 <=? ex then
        match binary_normalize 53 1024 (d * 10 ^ ex) 0 false with
        | S754_finite _ m e => S754_finite neg m e
        | S754_infinity _ => S754_infinity neg
        | S754_zero _ => S754_zero neg
        | S754_nan => S754_nan
        end
      else
        match 10 ^ (- ex) with
        | Zpos q =>
            let '(mz, e, l) := SFdiv_core_binary 53 1024 (Zpos p) 0 (Zpos q) 0 in
            binary_round_aux 53 1024 neg mz e l
        | _ => S754_nan
        end
  | _ => S754_zero neg
  end.

(** The number of decimal digits of [n > 0]. *)
Definition num_digits (n : Z) : Z := str_len (pretty n).

(** The exponent [k] with [10 ^ (k-1) <= num / den < 10 ^ k]. *)
Fixpoint frac_exponent (fuel : nat) (num den k : Z) : Z :=
  match fuel with
  | O => k
  | S fuel => if den <=? num * 10 then k else frac_exponent fuel (num * 10) den (k - 1)
  end.

Definition decimal_exponent (num den : Z) : Z :=
  if den <=? num then num_digits (num / den) else frac_exponent 400 num den 0.

(** [num / den] rounded to the nearest integer, ties to even. *)
Definition round_half_even (num den : Z) : Z :=
  let q := num / den in
  let r := num mod den in
  if 2 * r <? den then q
  else if den <? 2 * r then q + 1
  else if Z.even q then q else q + 1.

Definition scale (num den p : Z) : Z * Z :=
  if 0 <=? p then (num * 10 ^ p, den) else (num, den * 10 ^ (- p)).

(** The shortest digit string, from [n] digits up to 17, that reads back as [f]. *)
Fixpoint shortest (fuel : nat) (f : spec_float) (num den k n : Z) : Z * Z :=
  let '(sn, sd) := scale num den (n - k) in
  let d := round_half_even sn sd in
  match fuel with
  | O => (d, k - n)
  | S fuel =>
      if bool_decide (float_of_dec false d (k - n) = f) then (d, k - n)
      else shortest fuel f num den k (n + 1)
  end.

Fixpoint drop_trailing_zeros (fuel : nat) (d ex : Z) : Z * Z :=
  match fuel with
  | O => (d, ex)
  | S fuel => if d mod 10 =? 0 then drop_trailing_zeros fuel (d / 10) (ex + 1) else (d, ex)
  end.

Definition zeros (n : Z) : string := of_chars (replicate (Z.to_nat n) (Ascii.ascii_of_N 48)).

(** Format digits [d * 10 ^ ex] the way [repr] does: fixed notation when the decimal point
    falls in (-4, 16], exponent notation otherwise. *)
Definition format_digits (d ex : Z) : string :=
  let ds := pretty d in
  let n := str_len ds in
  let decpt := n + ex in
  if (-4 <? decpt) && (decpt <=? 16) then
    if decpt <=? 0 then "0." ++ zeros (- decpt) ++ ds
    else if n <=? decpt then ds ++ zeros (decpt - n) ++ ".0"
    else str_take decpt ds ++ "." ++ of_chars (drop (Z.to_nat decpt) (chars ds))
  else
    let mant := if n =? 1 then ds
                else str_take 1 ds ++ "." ++ of_chars (drop 1 (chars ds)) in
    let x := decpt - 1 in
    let ax := pretty (Z.abs x) in
    mant ++ "e" ++ (if x <? 0 then "-" else "+") ++ (if str_len ax <? 2 then "0" ++ ax else ax).

Definition float_repr (f : spec_float) : string :=
  match f with
  | S754_nan => "nan"
  | S754_infinity s => if s then "-inf" else "inf"
  | S754_zero s => if s then "-0.0" else "0.0"
  | S754_finite s m e =>
      let '(num, den) := if 0 <=? e then (Zpos m * 2 ^ e, 1) else (Zpos m, 2 ^ (- e)) in
      let k := decimal_exponent num den in
      let '(d, ex) := shortest 16 (S754_finite false m e) num den k 1 in
      let '(d, ex) := drop_trailing_zeros 18 d ex in
      (if s then "-" else "") ++ format_digits d ex
  end.

(** Exact comparison of a finite [float] with an [int], through a common denominator. *)
Definition float_compare_Z (f : spec_float) (z : Z) : option comparison :=
  match f with
  | S754_nan => None
  | S754_infinity s => Some (if s then Lt else Gt)
  | S754_zero _ => Some (0 ?= z)
  | S754_finite s m e =>
      let v := if s then Zneg m else Zpos m in
      Some (if 0 <=? e then v * 2 ^ e ?= z else v ?= z * 2 ^ (- e))
  end.

Example repr_tenth : float_repr (float_of_dec false 1 (-1)) = "0.1".
Proof. vm_compute. reflexivity. Qed.
Example repr_large : float_repr (float_of_dec false 1 16) = "1e+16".
Proof. vm_compute. reflexivity. Qed.
Example repr_small : float_repr (float_of_dec true 25 (-6)) = "-2.5e-05".
Proof. vm_compute. reflexivity. Qed.
Example repr_max : float_repr (float_of_dec false 17976931348623157 292)
  = "1.7976931348623157e+308".
Proof. vm_compute. reflexivity. Qed.
Example repr_min : float_repr (float_of_dec false 5 (-324)) = "5e-324".
Proof. vm_compute. reflexivity. Qed.
Example repr_odd : float_repr (float_of_dec false 123456789125 (-3)) = "123456789.125".
Proof. vm_compute. reflexivity. Qed.
