(* ===== verification/Sha256.v ===== *)
(** * Sha256: [hashlib.sha256(data).hexdigest()] (FIPS 180-4)

    32-bit words are [Z] values reduced modulo [2 ^ 32]. *)

From S2P Require Import Prelude Text.
Local Open Scope string_scope.
Local Open Scope Z_scope.

Definition w32 (x : Z) : Z := Z.land x 4294967295.
Definition add32 (x y : Z) : Z := w32 (x + y).
Definition rotr (n x : Z) : Z := Z.lor (Z.shiftr x n) (w32 (Z.shiftl x (32 - n))).
Definition xor3 (x y z : Z) : Z := Z.lxor (Z.lxor x y) z.

Definition sha_Ch (x y z : Z) : Z := Z.lxor (Z.land x y) (Z.land (Z.lxor x 4294967295) z).
Definition sha_Maj (x y z : Z) : Z := xor3 (Z.land x y) (Z.land x z) (Z.land y z).
Definition Sigma0 (x : Z) : Z := xor3 (rotr 2 x) (rotr 13 x) (rotr 22 x).
Definition Sigma1 (x : Z) : Z := xor3 (rotr 6 x) (rotr 11 x) (rotr 25 x).
Definition sigma0 (x : Z) : Z := xor3 (rotr 7 x) (rotr 18 x) (Z.shiftr x 3).
Definition sigma1 (x : Z) : Z := xor3 (rotr 17 x) (rotr 19 x) (Z.shiftr x 10).

(** The constants: the first 32 bits of the fractional parts of the cube roots of the first 64
    primes, and of the square roots of the first 8. *)
Definition is_prime (n : nat) : bool :=
  (2 <=? n)%nat && forallb (fun d => negb (n mod d =? 0)%nat) (seq 2 (n - 2)).

Definition primes : list Z := Z.of_nat <$> List.filter is_prime (seq 2 310).

(** The largest [r < 2 ^ bits] with [r ^ e <= x], one bit at a time. *)
Fixpoint root_bits (e x : Z) (bits : nat) (r : Z) : Z :=
  match bits with
  | O => r
  | S bits =>
      let r' := r + Z.shiftl 1 (Z.of_nat bits) in
      root_bits e x bits (if r' ^ e <=? x then r' else r)
  end.

Definition root_fraction (e p : Z) : Z := w32 (root_bits e (Z.shiftl p (32 * e)) 40 0).

Definition sha_K : list Z := Eval vm_compute in root_fraction 3 <$> primes.

Definition sha_H0 : list Z := Eval vm_compute in root_fraction 2 <$> take 8 primes.

(** Big-endian bytes of a word of [n] bytes. *)
Fixpoint be_bytes (n : nat) (x : Z) : list Z :=
  match n with
  | O => []
  | S n => be_bytes n (x / 256) ++ [x mod 256]
  end%list.

Definition sha_pad (l : list Z) : list Z :=
  let len := length l in
  let k := ((119 - len mod 64) mod 64)%nat in
  (l ++ 128 :: replicate k 0 ++ be_bytes 8 (8 * Z.of_nat len))%list.

Fixpoint words_of (l : list Z) : list Z :=
  match l with
  | a :: b :: c :: d :: l' => (((a * 256 + b) * 256 + c) * 256 + d) :: words_of l'
  | _ => []
  end.

(** The message schedule, most recent word first. *)
Fixpoint schedule (n : nat) (w : list Z) : list Z :=
  match n with
  | O => w
  | S n =>
      let at_ i := nth i w 0 in
      schedule n (w32 (sigma1 (at_ 1%nat) + at_ 6%nat + sigma0 (at_ 14%nat) + at_ 15%nat) :: w)
  end.

Definition sha_round (st : list Z) (kw : Z * Z) : list Z :=
  match st with
  | [a; b; c; d; e; f; g; h] =>
      let t1 := w32 (h + Sigma1 e + sha_Ch e f g + kw.1 + kw.2) in
      let t2 := w32 (Sigma0 a + sha_Maj a b c) in
      [add32 t1 t2; a; b; c; add32 d t1; e; f; g]
  | _ => st
  end.

Definition compress (h : list Z) (block : list Z) : list Z :=
  let w := reverse (schedule 48 (reverse block)) in
  zip_with add32 h (fold_left sha_round (zip sha_K w) h).

Fixpoint sha_blocks (n : nat) (h words : list Z) : list Z :=
  match n with
  | O => h
  | S n => sha_blocks n (compress h (take 16 words)) (drop 16 words)
  end.

Definition hex_digit (x : Z) : Ascii.ascii :=
  Ascii.ascii_of_N (Z.to_N (if x <? 10 then 48 + x else 87 + x)).

Definition hex_byte (x : Z) : list Ascii.ascii := [hex_digit (x / 16); hex_digit (x mod 16)].

Definition sha256_hex (data : list Z) : string :=
  let words := words_of (sha_pad data) in
  let h := sha_blocks (length words / 16) sha_H0 words in
  of_chars (concat (hex_byte <$> concat (be_bytes 4 <$> h))).

(** [hashlib.sha256(s.encode("utf-8")).hexdigest()] *)
Definition sha256 (s : string) : string := sha256_hex (utf8_encode s).

Example sha256_abc : sha256 "abc"
  = "ba7816bf8f01cfea414140de5dae2223b00361a396177a9cb410ff61f20015ad".
Proof. vm_compute. reflexivity. Qed.

Example sha256_two_blocks : sha256 "abcdbcdecdefdefgefghfghighijhijkijkljklmklmnlmnomnopnopq"
  = "248d6a61d20638b8e5c026930c3e6039a33ce45964ff2167f6ecedd419db06c1".
Proof. vm_compute. reflexivity. Qed.

(** A digest is 64 lower-case hexadecimal characters, for every input. *)
Lemma length_compress h b : length h = 8%nat -> length (compress h b) = 8%nat.
Proof.
  intros Hh. unfold compress. rewrite length_zip_with.
  assert (forall kws st, length st = 8%nat -> length (fold_left sha_round kws st) = 8%nat) as Hf.
  { induction kws as [|kw kws IH]; intros st Hst; simpl; [done|]. apply IH.
    destruct st as [|a [|b' [|c [|d [|e [|f [|g [|i [|]]]]]]]]]; done. }
  rewrite Hf by done. lia.
Qed.

Lemma length_sha_blocks n h ws : length h = 8%nat -> length (sha_blocks n h ws) = 8%nat.
Proof.
  revert h ws; induction n as [|n IH]; intros h ws Hh; simpl; [done|].
  by apply IH, length_compress.
Qed.

Lemma length_be_bytes n x : length (be_bytes n x) = n.
Proof. revert x; induction n as [|n IH]; intros x; simpl; [done|]. rewrite length_app, IH. simpl. lia. Qed.

Lemma length_concat_const {A} (n : nat) (ls : list (list A)) :
  Forall (fun l => length l = n) ls -> length (concat ls) = (n * length ls)%nat.
Proof. induction 1; simpl; [lia|]. rewrite length_app. lia. Qed.

Lemma sha256_length s : str_len (sha256 s) = 64.
Proof.
  unfold sha256, sha256_hex. rewrite str_len_chars, chars_of_chars.
  rewrite (length_concat_const 2) by (apply Forall_fmap, Forall_true; done).
  rewrite length_fmap, (length_concat_const 4)
    by (apply Forall_fmap, Forall_true; intros; apply length_be_bytes).
  rewrite length_fmap, length_sha_blocks by done. done.
Qed.

Lemma be_bytes_range n x : Forall (fun b => 0 <= b < 256) (be_bytes n x).
Proof.
  revert x; induction n as [|n IH]; intros x; simpl; [constructor|].
  apply Forall_app; split; [done|]. repeat constructor; apply Z.mod_pos_bound; lia.
Qed.

Lemma hex_digit_hex x : 0 <= x < 16 -> is_hex_lower (hex_digit x) = true.
Proof.
  intros Hx. assert (x ∈ seqZ 0 16) as Hin by (apply elem_of_seqZ; lia).
  revert x Hin Hx. cut (Forall (fun x => is_hex_lower (hex_digit x) = true) (seqZ 0 16)).
  { rewrite Forall_forall. eauto. }
  vm_compute. repeat constructor.
Qed.

Lemma sha256_hex_chars s : forallb is_hex_lower (chars (sha256 s)) = true.
Proof.
  unfold sha256, sha256_hex. rewrite chars_of_chars. apply forallb_forall.
  intros a (l & Hl & Ha)%in_concat.
  apply list_elem_of_In, list_elem_of_fmap in Hl as (b & -> & Hb).
  apply list_elem_of_In, in_concat in Hb as (ws & Hws & Hb).
  apply list_elem_of_In, list_elem_of_fmap in Hws as (w & -> & _).
  pose proof (be_bytes_range 4 w) as Hr. rewrite List.Forall_forall in Hr. specialize (Hr b Hb).
  unfold hex_byte in Ha. simpl in Ha.
  assert (0 <= b / 16 < 16) by (split; [apply Z.div_pos; lia|apply Z.div_lt_upper_bound; lia]).
  assert (0 <= b mod 16 < 16) by (apply Z.mod_pos_bound; lia).
  destruct Ha as [<-|[<-|[]]]; by apply hex_digit_hex.
Qed.

#[global] Opaque sha256.
