(* ===== verification/Json.v ===== *)
(** * Json: JSON values, [json.dumps], and the canonical form used by approvals

    Models [core/approvals/canonicalize.py], [core/tools/result_sanitizer.py],
    [core/audit/redaction.py], [plain] of [core/agent/planner.py], [stable_fingerprint] of
    [core/agent/progress_detector.py] and [fingerprint] of [core/records.py].

    A value that travels as [Any] is a [json]: a [dict] keeps its insertion order, tuples and
    lists are [JList], and [JOther] stands for any object that is not a JSON value. *)

From S2P Require Import Prelude Text PyFloat Sha256.
From stdpp Require Import sorting.
From Stdlib Require Import Floats.SpecFloat.
Local Open Scope string_scope.
Local Open Scope Z_scope.

Inductive json :=
| JNull
| JBool (b : bool)
| JInt (n : Z)
| JFloat (f : spec_float)
| JStr (s : string)
| JList (l : list json)
| JObj (kvs : list (string * json))
| JOther (ty : string).

(** The induction principle that reaches through lists and dictionaries. *)
Definition json_nested_ind (P : json -> Prop)
  (Hnull : P JNull) (Hbool : forall b, P (JBool b)) (Hint : forall n, P (JInt n))
  (Hfloat : forall f, P (JFloat f)) (Hstr : forall s, P (JStr s))
  (Hlist : forall l, Forall P l -> P (JList l))
  (Hobj : forall kvs, Forall (fun kv => P kv.2) kvs -> P (JObj kvs))
  (Hother : forall ty, P (JOther ty)) : forall v, P v :=
  fix go v :=
    match v with
    | JNull => Hnull
    | JBool b => Hbool b
    | JInt n => Hint n
    | JFloat f => Hfloat f
    | JStr s => Hstr s
    | JList l => Hlist l ((fix gol l : Forall P l := match l with
                           | [] => @List.Forall_nil _ _
                           | x :: l' => @List.Forall_cons _ _ x l' (go x) (gol l')
                           end) l)
    | JObj kvs => Hobj kvs ((fix gok l : Forall (fun kv => P kv.2) l := match l with
                           | [] => @List.Forall_nil _ _
                           | x :: l' => @List.Forall_cons _ _ x l' (go x.2) (gok l')
                           end) kvs)
    | JOther ty => Hother ty
    end.

(** Structural (representation) equality. *)
Fixpoint json_beq (v w : json) {struct v} : bool :=
  match v, w with
  | JNull, JNull => true
  | JBool a, JBool b => Bool.eqb a b
  | JInt a, JInt b => a =? b
  | JFloat a, JFloat b => bool_decide (a = b)
  | JStr a, JStr b => bool_decide (a = b)
  | JList l, JList m =>
      (fix go l m := match l, m with
       | [], [] => true
       | x :: l, y :: m => json_beq x y && go l m
       | _, _ => false
       end) l m
  | JObj l, JObj m =>
      (fix go l m := match l, m with
       | [], [] => true
       | (k, x) :: l, (k', y) :: m => bool_decide (k = k') && json_beq x y && go l m
       | _, _ => false
       end) l m
  | JOther a, JOther b => bool_decide (a = b)
  | _, _ => false
  end.

Lemma json_beq_eq v w : json_beq v w = true <-> v = w.
Proof.
  revert w. induction v as [| | | | |l IH|l IH|] using json_nested_ind; intros [| | | | |m|m|];
    simpl; rewrite ?Bool.eqb_true_iff, ?Z.eqb_eq, ?bool_decide_eq_true;
    try (split; [discriminate|congruence]); try (split; congruence); try done.
  - revert m; induction IH as [|x l Hx _ IHl]; intros [|y m]; try (split; congruence).
    rewrite andb_true_iff, Hx, IHl. naive_solver.
  - revert m; induction IH as [|[k x] l Hx _ IHl]; intros [|[k' y] m]; simpl in *;
      try (split; congruence).
    rewrite !andb_true_iff, bool_decide_eq_true, Hx, IHl. naive_solver.
Qed.

#[global] Instance json_eq_dec : EqDecision json.
Proof.
  intros v w. destruct (json_beq v w) eqn:E.
  - left. by apply json_beq_eq.
  - right. intros H%json_beq_eq. congruence.
Defined.

(** ** Dictionaries *)

Fixpoint assoc {A} (k : string) (l : list (string * A)) : option A :=
  match l with
  | [] => None
  | (k', v) :: l' => if bool_decide (k = k') then Some v else assoc k l'
  end.

(** [d[k] = v]: an existing key keeps its position. *)
Fixpoint assoc_set {A} (k : string) (v : A) (l : list (string * A)) : list (string * A) :=
  match l with
  | [] => [(k, v)]
  | (k', v') :: l' => if bool_decide (k = k') then (k, v) :: l' else (k', v') :: assoc_set k v l'
  end.

(** [d.pop(k, None)] *)
Definition assoc_del {A} (k : string) (l : list (string * A)) : list (string * A) :=
  List.filter (fun kv => negb (bool_decide (kv.1 = k))) l.

Definition keys {A} (l : list (string * A)) : list string := l.*1.

Lemma assoc_set_same {A} k (v : A) l : assoc k (assoc_set k v l) = Some v.
Proof.
  induction l as [|[k' v'] l IH]; simpl; [by rewrite bool_decide_eq_true_2|].
  case_bool_decide as E; simpl; [by rewrite bool_decide_eq_true_2|]. by rewrite bool_decide_eq_false_2.
Qed.

Lemma assoc_set_other {A} k k' (v : A) l : k <> k' -> assoc k (assoc_set k' v l) = assoc k l.
Proof.
  intros Hk. induction l as [|[k1 v1] l IH]; simpl; [by rewrite bool_decide_eq_false_2|].
  destruct (decide (k' = k1)) as [->|]; simpl.
  - rewrite bool_decide_eq_true_2 by done. simpl. by rewrite !bool_decide_eq_false_2.
  - rewrite (bool_decide_eq_false_2 (k' = k1)) by done. simpl. by rewrite IH.
Qed.

Lemma assoc_del_other {A} k k' (l : list (string * A)) : k <> k' -> assoc k (assoc_del k' l) = assoc k l.
Proof.
  intros Hk. induction l as [|[k1 v1] l IH]; simpl; [done|].
  destruct (decide (k1 = k')) as [->|]; simpl.
  - rewrite (bool_decide_eq_true_2 (k' = k')) by done. simpl. by rewrite bool_decide_eq_false_2.
  - rewrite (bool_decide_eq_false_2 (k1 = k')) by done. simpl. by rewrite IH.
Qed.

Lemma assoc_elem_of {A} k (v : A) l : assoc k l = Some v -> (k, v) ∈ l.
Proof.
  induction l as [|[k' v'] l IH]; [done|]. cbn. case_bool_decide as E; [intros [= ->]; subst; apply list_elem_of_here|].
  intros H. by apply list_elem_of_further, IH.
Qed.

Lemma assoc_keys {A} k (l : list (string * A)) : is_Some (assoc k l) <-> k ∈ keys l.
Proof.
  induction l as [|[k1 v1] l IH]; simpl.
  - split; [by intros []|by intros ?%not_elem_of_nil].
  - rewrite elem_of_cons. case_bool_decide as E; [naive_solver|]. rewrite IH. naive_solver.
Qed.

(** [set(d) - allowed] is empty. *)
Definition keys_within {A} (l : list (string * A)) (allowed : list string) : bool :=
  forallb (fun kv => mem_b kv.1 allowed) l.

(** [set(d) == expected] for distinct [expected]. *)
Definition keys_exactly {A} (l : list (string * A)) (expected : list string) : bool :=
  keys_within l expected && forallb (fun k => mem_b k (keys l)) expected.

Definition as_str (v : json) : option string := match v with JStr s => Some s | _ => None end.
Definition as_obj (v : json) : option (list (string * json)) :=
  match v with JObj l => Some l | _ => None end.
Definition is_str (v : json) : bool := match v with JStr _ => true | _ => false end.
Definition is_obj (v : json) : bool := match v with JObj _ => true | _ => false end.

(** [sorted(d.items())]: by key, in code point order. *)
Definition key_le {A} (x y : string * A) : Prop := String.leb x.1 y.1 = true.
#[global] Instance key_le_dec {A} : RelDecision (@key_le A).
Proof. intros x y. unfold key_le. apply _. Defined.

Definition sort_items {A} (l : list (string * A)) : list (string * A) := merge_sort key_le l.

(** ** [json.dumps] *)

Record dump_opts := {
  sort_keys : bool;
  allow_nan : bool;
  item_sep : string;
  key_sep : string
}.

(** [sort_keys=True, separators=(",", ":"), allow_nan=False] *)
Definition canonical_opts : dump_opts := {| sort_keys := true; allow_nan := false;
  item_sep := ","; key_sep := ":" |}.

Definition esc (l : list Z) : list Ascii.ascii := (fun c => Ascii.ascii_of_N (Z.to_N c)) <$> l.

(** [ensure_ascii=False]: the quote, the backslash and the control characters. *)
Definition escape_char (a : Ascii.ascii) : list Ascii.ascii :=
  let c := code a in
  if c =? 34 then esc [92; 34]
  else if c =? 92 then esc [92; 92]
  else if c =? 10 then esc [92; 110]
  else if c =? 13 then esc [92; 114]
  else if c =? 9 then esc [92; 116]
  else if c =? 12 then esc [92; 102]
  else if c =? 8 then esc [92; 98]
  else if c <? 32 then (esc [92; 117; 48; 48] ++ hex_byte c)%list
  else [a].

Definition quote : string := of_chars [Ascii.ascii_of_N 34].

Definition json_string (s : string) : string :=
  quote ++ of_chars (concat (escape_char <$> chars s)) ++ quote.

Definition float_text (o : dump_opts) (f : spec_float) : result string :=
  match f with
  | S754_nan | S754_infinity _ =>
      if allow_nan o then
        Ok (match f with S754_nan => "NaN" | S754_infinity true => "-Infinity" | _ => "Infinity" end)
      else fail PyValueError "Out of range float values are not JSON compliant"
  | _ => Ok (float_repr f)
  end.

Fixpoint sequence {A} (l : list (result A)) : result (list A) :=
  match l with
  | [] => Ok []
  | r :: l => x ← r; xs ← sequence l; Ok (x :: xs)
  end.

Fixpoint dumps (o : dump_opts) (v : json) : result string :=
  match v with
  | JNull => Ok "null"
  | JBool true => Ok "true"
  | JBool false => Ok "false"
  | JInt n => Ok (str_of_Z n)
  | JFloat f => float_text o f
  | JStr s => Ok (json_string s)
  | JList l => parts ← sequence (dumps o <$> l); Ok ("[" ++ str_join (item_sep o) parts ++ "]")
  | JObj kvs =>
      let items := (fun kv => (kv.1, t ← dumps o kv.2; Ok (json_string kv.1 ++ key_sep o ++ t)))
                   <$> kvs in
      parts ← sequence ((if sort_keys o then sort_items items else items).*2);
      Ok ("{" ++ str_join (item_sep o) parts ++ "}")
  | JOther ty => fail PyTypeError ("Object of type " ++ ty ++ " is not JSON serializable")
  end.

(** ** [canonicalize.py] *)

Fixpoint normalize_json_at (path : string) (v : json) : result json :=
  match v with
  | JNull | JBool _ | JInt _ | JStr _ => Ok v
  | JFloat f =>
      if isfinite f then Ok v
      else fail CanonicalizationError (path ++ ": NaN and Infinity are not allowed")
  | JObj kvs =>
      let items := (fun kv => (kv.1,
        w ← normalize_json_at (path ++ "." ++ kv.1) kv.2; Ok (kv.1, w))) <$> kvs in
      kvs' ← sequence ((sort_items items).*2);
      Ok (JObj kvs')
  | JList l =>
      l' ← (fix items (i : Z) (l : list json) : result (list json) :=
              match l with
              | [] => Ok []
              | x :: l => w ← normalize_json_at (path ++ "[" ++ str_of_Z i ++ "]") x;
                          ws ← items (i + 1) l; Ok (w :: ws)
              end) 0 l;
      Ok (JList l')
  | JOther ty => fail CanonicalizationError
      (path ++ ": unsupported value type " ++ ty ++ "; use JSON values")
  end.

Definition normalize_json (v : json) : result json := normalize_json_at "$" v.

Definition canonical_json (v : json) : result string :=
  w ← normalize_json v; dumps canonical_opts w.

Definition canonical_sha256 (v : json) : result string :=
  t ← canonical_json v; Ok (sha256 t).

(** ** [records.fingerprint] *)

Definition fingerprint (v : json) : result string :=
  match dumps canonical_opts v with
  | Err _ => fail ValidationError "command must be canonical JSON"
  | Ok raw =>
      if 1000000 <? Z.of_nat (length (utf8_encode raw))
      then fail ValidationError "command is too large" else Ok (sha256 raw)
  end.

(** ** [result_sanitizer.sanitize_result] *)

Definition DEFAULT_MAX_RESULT_BYTES : Z := 256 * 1024.

Definition sanitize_opts : dump_opts := {| sort_keys := false; allow_nan := false;
  item_sep := ","; key_sep := ":" |}.

Definition sanitize_result (value : json) (max_bytes : Z) : result json :=
  normalized ← normalize_json value;
  text ← dumps sanitize_opts normalized;
  let n := Z.of_nat (length (utf8_encode text)) in
  if max_bytes <? n then
    fail ValidationError
      ("tool result is " ++ str_of_Z n ++ " bytes; maximum is " ++ str_of_Z max_bytes)
  else Ok normalized.

(** ** [audit/redaction.redact] *)

Definition _SECRET_KEYS : list string :=
  ["authorization"; "cookie"; "password"; "private_key"; "secret"; "set-cookie"; "token"].

Fixpoint redact (value : json) : json :=
  match value with
  | JObj kvs => JObj ((fun kv => (kv.1,
      if mem_b (lower kv.1) _SECRET_KEYS then JStr "[REDACTED]" else redact kv.2)) <$> kvs)
  | JList l => JList (redact <$> l)
  | _ => value
  end.

(** ** [planner.plain]: on JSON values, a copy. *)

Fixpoint plain (value : json) : json :=
  match value with
  | JObj kvs => JObj ((fun kv => (kv.1, plain kv.2)) <$> kvs)
  | JList l => JList (plain <$> l)
  | _ => value
  end.

(** ** [progress_detector.stable_fingerprint]

    [default=str] stringifies what is not a JSON value, and non-finite floats are printed; the
    text that [str] gives for an opaque object is the name it carries here. *)

Definition stable_opts : dump_opts := {| sort_keys := true; allow_nan := true;
  item_sep := ","; key_sep := ":" |}.

Fixpoint stringify_other (v : json) : json :=
  match v with
  | JOther ty => JStr ty
  | JList l => JList (stringify_other <$> l)
  | JObj kvs => JObj ((fun kv => (kv.1, stringify_other kv.2)) <$> kvs)
  | _ => v
  end.

Definition stable_fingerprint (v : json) : result string :=
  t ← dumps stable_opts (stringify_other v); Ok (sha256 t).
