(* ===== verification/JsonParse.v ===== *)
(** * JsonParse: [json.loads]

    The scanner of Python's [json] module in strict mode, with the [object_pairs_hook] and
    [parse_constant] hooks as arguments, and [parse_proposal] of [core/agent/decisions.py].
    Escapes beyond the first 256 code points are outside of the text model and are rejected. *)

From S2P Require Import Prelude Text PyFloat Sha256 Json.
From Stdlib Require Import Floats.SpecFloat.
Local Open Scope Z_scope.


Definition decode_error {A} : result A := fail PyValueError "JSONDecodeError".

Definition is_ws (a : Ascii.ascii) : bool :=
  let c := code a in (c =? 32) || (c =? 9) || (c =? 10) || (c =? 13).

Fixpoint skip_ws (l : list Ascii.ascii) : list Ascii.ascii :=
  match l with
  | a :: l' => if is_ws a then skip_ws l' else l
  | [] => []
  end.

Definition hex_val (a : Ascii.ascii) : option Z :=
  let c := code a in
  if is_digit a then Some (c - 48)
  else if (97 <=? c) && (c <=? 102) then Some (c - 87)
  else if (65 <=? c) && (c <=? 70) then Some (c - 55)
  else None.

Definition simple_escape (a : Ascii.ascii) : option Z :=
  let c := code a in
  if (c =? 34) || (c =? 92) || (c =? 47) then Some c
  else if c =? 98 then Some 8
  else if c =? 102 then Some 12
  else if c =? 110 then Some 10
  else if c =? 114 then Some 13
  else if c =? 116 then Some 9
  else None.

Definition chr (c : Z) : Ascii.ascii := Ascii.ascii_of_N (Z.to_N c).

Definition cons_fst (a : Ascii.ascii) (r : result (list Ascii.ascii * list Ascii.ascii))
  : result (list Ascii.ascii * list Ascii.ascii) :=
  '(s, rest) ← r; Ok (a :: s, rest).

(** [scanstring], after the opening quote. *)
Fixpoint scan_string (l : list Ascii.ascii) : result (list Ascii.ascii * list Ascii.ascii) :=
  match l with
  | [] => decode_error
  | a :: l1 =>
      let c := code a in
      if c =? 34 then Ok ([], l1)
      else if c =? 92 then
        match l1 with
        | [] => decode_error
        | e :: l2 =>
            match simple_escape e with
            | Some v => cons_fst (chr v) (scan_string l2)
            | None =>
                if code e =? 117 then
                  match l2 with
                  | h1 :: h2 :: h3 :: h4 :: l3 =>
                      match hex_val h1, hex_val h2, hex_val h3, hex_val h4 with
                      | Some x1, Some x2, Some x3, Some x4 =>
                          let u := ((x1 * 16 + x2) * 16 + x3) * 16 + x4 in
                          if u <? 256 then cons_fst (chr u) (scan_string l3) else decode_error
                      | _, _, _, _ => decode_error
                      end
                  | _ => decode_error
                  end
                else decode_error
            end
        end
      else if c <? 32 then decode_error
      else cons_fst a (scan_string l1)
  end.

Fixpoint span_digits (l : list Ascii.ascii) : list Ascii.ascii * list Ascii.ascii :=
  match l with
  | a :: l' => if is_digit a then let '(d, r) := span_digits l' in (a :: d, r) else ([], l)
  | [] => ([], [])
  end.

Definition digits_value (l : list Ascii.ascii) : Z :=
  fold_left (fun acc a => acc * 10 + (code a - 48)) l 0.

(** The number token: an optional minus, an integer part without superfluous zeros, an optional
    fraction and an optional exponent. *)
Definition scan_int (l : list Ascii.ascii) : option (list Ascii.ascii * list Ascii.ascii) :=
  match l with
  | a :: l' =>
      if code a =? 48 then Some ([a], l')
      else if is_digit a then Some (span_digits l)
      else None
  | [] => None
  end.

Definition scan_frac (l : list Ascii.ascii) : option (list Ascii.ascii) * list Ascii.ascii :=
  match l with
  | a :: l' =>
      if code a =? 46 then
        match span_digits l' with
        | ([], _) => (None, l)
        | (d, r) => (Some d, r)
        end
      else (None, l)
  | [] => (None, l)
  end.

Definition scan_exp (l : list Ascii.ascii) : option Z * list Ascii.ascii :=
  match l with
  | a :: l' =>
      if (code a =? 101) || (code a =? 69) then
        let '(neg, l2) := match l' with
          | b :: l2 => if code b =? 45 then (true, l2) else if code b =? 43 then (false, l2)
                       else (false, l')
          | [] => (false, [])
          end in
        match span_digits l2 with
        | ([], _) => (None, l)
        | (d, r) => (Some (if neg then - digits_value d else digits_value d), r)
        end
      else (None, l)
  | [] => (None, l)
  end.

Definition scan_number (l : list Ascii.ascii) : option (json * list Ascii.ascii) :=
  let '(neg, l1) := match l with
    | a :: l' => if code a =? 45 then (true, l') else (false, l)
    | [] => (false, [])
    end in
  match scan_int l1 with
  | None => None
  | Some (i, l2) =>
      let '(fr, l3) := scan_frac l2 in
      let '(ex, l4) := scan_exp l3 in
      match fr, ex with
      | None, None => Some (JInt (if neg then - digits_value i else digits_value i), l4)
      | _, _ =>
          let frac := default [] fr in
          let d := digits_value (i ++ frac) in
          Some (JFloat (float_of_dec neg d (default 0 ex - Z.of_nat (length frac))), l4)
      end
  end.

Definition match_word (w : string) (l : list Ascii.ascii) : option (list Ascii.ascii) :=
  if is_prefix_l (chars w) l then Some (drop (String.length w) l) else None.

Section parser.
Context (object_hook : list (string * json) -> result json).
Context (constant_hook : string -> result json).

Definition scan_word (l : list Ascii.ascii) : result (json * list Ascii.ascii) :=
  match match_word "null" l, match_word "true" l, match_word "false" l with
  | Some r, _, _ => Ok (JNull, r)
  | _, Some r, _ => Ok (JBool true, r)
  | _, _, Some r => Ok (JBool false, r)
  | None, None, None =>
      match scan_number l with
      | Some vr => Ok vr
      | None =>
          match match_word "NaN" l, match_word "Infinity" l, match_word "-Infinity" l with
          | Some r, _, _ => v ← constant_hook "NaN"; Ok (v, r)
          | _, Some r, _ => v ← constant_hook "Infinity"; Ok (v, r)
          | _, _, Some r => v ← constant_hook "-Infinity"; Ok (v, r)
          | None, None, None => decode_error
          end
      end
  end.

(** [scan_once]; [items] and [members] are the loops of [JSONArray] and [JSONObject]. *)
Fixpoint scan_once (fuel : nat) (l : list Ascii.ascii) : result (json * list Ascii.ascii) :=
  match fuel with
  | O => decode_error
  | S fuel =>
      match l with
      | [] => decode_error
      | a :: l1 =>
          if code a =? 34 then '(s, r) ← scan_string l1; Ok (JStr (of_chars s), r)
          else if code a =? 91 then
            match skip_ws l1 with
            | b :: l2 => if code b =? 93 then Ok (JList [], l2)
                         else '(vs, r) ← items fuel (b :: l2); Ok (JList vs, r)
            | [] => decode_error
            end
          else if code a =? 123 then
            match skip_ws l1 with
            | b :: l2 => if code b =? 125 then v ← object_hook []; Ok (v, l2)
                         else '(kvs, r) ← members fuel (b :: l2); v ← object_hook kvs; Ok (v, r)
            | [] => decode_error
            end
          else scan_word l
      end
  end
with items (fuel : nat) (l : list Ascii.ascii) : result (list json * list Ascii.ascii) :=
  match fuel with
  | O => decode_error
  | S fuel =>
      '(v, r) ← scan_once fuel l;
      match skip_ws r with
      | a :: r1 =>
          if code a =? 93 then Ok ([v], r1)
          else if code a =? 44 then '(vs, r2) ← items fuel (skip_ws r1); Ok (v :: vs, r2)
          else decode_error
      | [] => decode_error
      end
  end
with members (fuel : nat) (l : list Ascii.ascii)
  : result (list (string * json) * list Ascii.ascii) :=
  match fuel with
  | O => decode_error
  | S fuel =>
      match l with
      | q :: l1 =>
          if negb (code q =? 34) then decode_error else
          '(k, r) ← scan_string l1;
          match skip_ws r with
          | a :: r1 =>
              if negb (code a =? 58) then decode_error else
              '(v, r2) ← scan_once fuel (skip_ws r1);
              match skip_ws r2 with
              | b :: r3 =>
                  if code b =? 125 then Ok ([(of_chars k, v)], r3)
                  else if code b =? 44 then
                    '(kvs, r4) ← members fuel (skip_ws r3); Ok ((of_chars k, v) :: kvs, r4)
                  else decode_error
              | [] => decode_error
              end
          | [] => decode_error
          end
      | [] => decode_error
      end
  end.

Definition loads_with (s : string) : result json :=
  let l := skip_ws (chars s) in
  '(v, r) ← scan_once (2 * length l + 2) l;
  match skip_ws r with
  | [] => Ok v
  | _ => decode_error
  end.
End parser.

(** The default hooks: [dict(pairs)] keeps the last value of a repeated key. *)
Definition dict_of_pairs (kvs : list (string * json)) : result json :=
  Ok (JObj (fold_left (fun d kv => assoc_set kv.1 kv.2 d) kvs [])).

Definition float_constant (c : string) : result json :=
  Ok (JFloat (if bool_decide (c = "NaN") then S754_nan
              else if bool_decide (c = "Infinity") then S754_infinity false
              else S754_infinity true)).

Definition loads (s : string) : result json := loads_with dict_of_pairs float_constant s.

(** ** [decisions.parse_proposal] *)

(** [_object]: the [object_pairs_hook] that refuses a repeated key. *)
Fixpoint _object (pairs result_ : list (string * json)) : result json :=
  match pairs with
  | [] => Ok (JObj result_)
  | (key, value) :: pairs =>
      if mem_b key (keys result_) then fail ValidationError "duplicate proposal key"
      else _object pairs (result_ ++ [(key, value)])
  end.

Definition parse_proposal (text : string) : result json :=
  if 128000 <? Z.of_nat (length (utf8_encode text)) then
    fail ValidationError "model proposal is oversized"
  else
    match loads_with (fun pairs => _object pairs []) (fun _ => fail PyValueError "") text with
    | Err e => if exn_is e PyValueError
               then fail ValidationError "model proposal must be one strict JSON object" else Err e
    | Ok (JObj kvs) => Ok (JObj kvs)
    | Ok _ => fail ValidationError "model proposal must be an object"
    end.

Definition quoted (l : list string) : string := str_join quote l.

Example loads_object :
  loads (quoted ["{ "; "a"; " : [1, -2.5e0, true], "; "b"; ":null, "; "a"; ":{}}"])
  = Ok (JObj [("a", JObj []); ("b", JNull)]).
Proof. vm_compute. reflexivity. Qed.

Example parse_duplicate :
  parse_proposal (quoted ["{"; "a"; ":1,"; "a"; ":2}"]) = fail ValidationError "duplicate proposal key".
Proof. vm_compute. reflexivity. Qed.

Example parse_nan :
  parse_proposal (quoted ["{"; "a"; ":NaN}"])
  = fail ValidationError "model proposal must be one strict JSON object".
Proof. vm_compute. reflexivity. Qed.
