(* ===== verification/JsonGrammar.v ===== *)
(** * JsonGrammar: the texts [json.loads] reads as a value

    [renders v t] is the grammar of JSON without floats: [t] is a text of the value [v], with
    white space wherever the grammar allows it.  [json.loads] reads every such text as that value
    ([renders_loads]), whoever wrote it and in whichever layout. *)

From S2P Require Import Prelude Text PyFloat Json JsonParse.
Local Open Scope string_scope.
Local Open Scope Z_scope.

(** ** Numbers *)

Definition digit_val (acc : Z) (a : Ascii.ascii) : Z := acc * 10 + (code a - 48).

Lemma digit_char d : (d < 10)%N -> code (pretty_N_char d) = 48 + Z.of_N d.
Proof.
  intros H. assert (d = 0 \/ d = 1 \/ d = 2 \/ d = 3 \/ d = 4 \/ d = 5 \/ d = 6 \/ d = 7 \/ d = 8 \/ d = 9)%N
    as Hd by lia. by repeat destruct Hd as [->|Hd]; [..|subst].
Qed.

Lemma digit_is_digit d : (d < 10)%N -> is_digit (pretty_N_char d) = true.
Proof. intros H. unfold is_digit. rewrite digit_char by done. apply andb_true_iff. split; apply Z.leb_le; lia. Qed.

(** The decimal text of a positive number: digits, the first of them not a zero, and the value
    they stand for. *)
Lemma pretty_go_digits (x : N) s : (0 < x)%N -> exists d ds,
  chars (pretty_N_go x s) = (d :: ds ++ chars s)%list /\ forallb is_digit (d :: ds) = true /\
  code d <> 48 /\ fold_left digit_val (d :: ds) 0 = Z.of_N x.
Proof.
  revert s. induction (N.lt_wf_0 x) as [x _ IH]; intros s Hx. rewrite pretty_N_go_step by done.
  assert (x `mod` 10 < 10)%N as Hm by (apply N.mod_lt; done).
  pose proof (N.div_mod x 10 ltac:(done)) as Hdm.
  destruct (decide (0 < x / 10)%N) as [Hd|Hd].
  - destruct (IH (x / 10)%N ltac:(by apply N.div_lt) (String (pretty_N_char (x mod 10)) s) Hd)
      as (d & ds & Hc & Hds & Hd0 & Hv).
    exists d, (ds ++ [pretty_N_char (x mod 10)])%list. split_and!; [| |done|].
    + rewrite Hc. simpl. by rewrite <- app_assoc.
    + simpl in *. rewrite forallb_app. simpl. bool_props.
      rewrite digit_is_digit by done. apply andb_true_iff. split; [done|]. by rewrite H0.
    + change (d :: ds ++ [pretty_N_char (x mod 10)])%list with ((d :: ds) ++ [pretty_N_char (x mod 10)])%list.
      rewrite fold_left_app. rewrite Hv. cbn [fold_left]. unfold digit_val. rewrite digit_char by done. lia.
  - assert (x / 10 = 0)%N as E by lia. rewrite E, pretty_N_go_0. exists (pretty_N_char (x mod 10)), [].
    rewrite E in Hdm. split_and!; [done| | |].
    + simpl. by rewrite digit_is_digit.
    + rewrite digit_char by done. lia.
    + cbn [fold_left]. unfold digit_val. rewrite digit_char by done. lia.
Qed.

Lemma pretty_pos_digits p : exists d ds,
  chars (str_of_Z (Z.pos p)) = (d :: ds)%list /\ forallb is_digit (d :: ds) = true /\
  code d <> 48 /\ digits_value (d :: ds) = Z.pos p.
Proof.
  destruct (pretty_go_digits (N.pos p) "" eq_refl) as (d & ds & Hc & H).
  rewrite app_nil_r in Hc. exists d, ds. split; [exact Hc|]. exact H.
Qed.

(** What may follow a number. *)
Definition ends_number (rest : list Ascii.ascii) : bool :=
  match rest with
  | [] => true
  | a :: _ => negb (is_digit a || (code a =? 46) || (code a =? 101) || (code a =? 69))
  end.

Lemma span_digits_app ds rest : forallb is_digit ds = true -> ends_number rest = true ->
  span_digits (ds ++ rest) = (ds, rest).
Proof.
  intros Hds Hr. induction ds as [|a ds IH]; simpl in *.
  - destruct rest as [|a rest]; simpl in *; [done|]. bool_props. by rewrite H.
  - bool_props. by rewrite H, IH.
Qed.

Lemma scan_tail rest : ends_number rest = true -> scan_frac rest = (None, rest) /\ scan_exp rest = (None, rest).
Proof.
  destruct rest as [|a rest]; simpl; [done|]. intros H. bool_props.
  repeat match goal with H : _ <> _ |- _ => apply Z.eqb_neq in H; rewrite H; clear H end.
  done.
Qed.

Lemma scan_number_digits (neg : bool) d ds rest :
  forallb is_digit (d :: ds) = true -> code d <> 48 -> ends_number rest = true ->
  scan_number ((if neg then [Ascii.ascii_of_N 45] else []) ++ (d :: ds) ++ rest)%list
  = Some (JInt (if neg then - digits_value (d :: ds) else digits_value (d :: ds)), rest).
Proof.
  intros Hd H0 Hr. pose proof (scan_tail rest Hr) as [Hf He].
  assert (scan_int ((d :: ds) ++ rest) = Some (d :: ds, rest)) as Hi.
  { pose proof Hd as Hd'. simpl in Hd'. bool_props. unfold scan_int. simpl.
    rewrite (proj2 (Z.eqb_neq (code d) 48)) by done. rewrite H.
    f_equal. pose proof (span_digits_app (d :: ds) rest Hd Hr) as Hs. simpl in Hs. by rewrite H in Hs. }
  assert (code d <> 45) as H45.
  { simpl in Hd. bool_props. unfold is_digit in H. bool_props. lia. }
  unfold scan_number. destruct neg.
  - cbn [app]. change (code (Ascii.ascii_of_N 45) =? 45) with true. cbv iota beta.
    change (d :: ds ++ rest)%list with ((d :: ds) ++ rest)%list. by rewrite Hi, Hf, He.
  - cbn [app]. rewrite (proj2 (Z.eqb_neq (code d) 45)) by done. cbv iota beta.
    change (d :: ds ++ rest)%list with ((d :: ds) ++ rest)%list. by rewrite Hi, Hf, He.
Qed.

Lemma scan_number_int n rest : ends_number rest = true ->
  scan_number (chars (str_of_Z n) ++ rest)%list = Some (JInt n, rest).
Proof.
  intros Hr. destruct n as [|p|p].
  - pose proof (scan_tail rest Hr) as [Hf He]. unfold scan_number. simpl.
    unfold scan_int. simpl. by rewrite Hf, He.
  - destruct (pretty_pos_digits p) as (d & ds & -> & Hd & H0 & Hv).
    pose proof (scan_number_digits false d ds rest Hd H0 Hr) as E. rewrite Hv in E. exact E.
  - destruct (pretty_pos_digits p) as (d & ds & Hc & Hd & H0 & Hv).
    assert (chars (str_of_Z (Z.neg p)) = Ascii.ascii_of_N 45 :: d :: ds) as -> by (simpl; f_equal; exact Hc).
    pose proof (scan_number_digits true d ds rest Hd H0 Hr) as E. rewrite Hv in E. exact E.
Qed.

(** ** Strings *)

Definition quote_a : Ascii.ascii := Ascii.ascii_of_N 34.
Definition comma_a : Ascii.ascii := Ascii.ascii_of_N 44.
Definition bracket_a : Ascii.ascii := Ascii.ascii_of_N 93.
Definition brace_a : Ascii.ascii := Ascii.ascii_of_N 125.

Lemma scan_escaped a l : scan_string (escape_char a ++ l)%list = cons_fst a (scan_string l).
Proof. destruct a as [[] [] [] [] [] [] [] []]; reflexivity. Qed.

Lemma scan_string_escaped s rest :
  scan_string (concat (escape_char <$> s) ++ quote_a :: rest)%list = Ok (s, rest).
Proof.
  induction s as [|a s IH]; [done|]. rewrite fmap_cons. cbn [concat].
  rewrite <- app_assoc, scan_escaped, IH. done.
Qed.

Lemma chars_json_string s :
  chars (json_string s) = (quote_a :: concat (escape_char <$> chars s) ++ [quote_a])%list.
Proof. unfold json_string. rewrite !chars_app, chars_of_chars. done. Qed.

(** ** Tokens *)

Lemma assoc_set_new {A} k (v : A) d : k ∉ keys d -> assoc_set k v d = (d ++ [(k, v)])%list.
Proof.
  induction d as [|[k1 v1] d IH]; simpl; [done|]. rewrite not_elem_of_cons. intros [H1 H2].
  rewrite bool_decide_eq_false_2 by done. by rewrite IH.
Qed.

(** [dict(pairs)] of distinct keys keeps the pairs. *)
Lemma dict_of_distinct (kvs : list (string * json)) : NoDup (keys kvs) -> dict_of_pairs kvs = Ok (JObj kvs).
Proof.
  intros Hd. unfold dict_of_pairs. do 2 f_equal. change kvs with ([] ++ kvs)%list in Hd |- * at 2.
  revert Hd. generalize (@nil (string * json)). induction kvs as [|[k v] kvs IH]; intros d Hd; simpl.
  { by rewrite app_nil_r. }
  assert (k ∉ keys d) as Hk.
  { unfold keys in *. rewrite fmap_app in Hd. apply NoDup_app in Hd as (_ & Hx & _).
    intros Hk. apply (Hx k Hk). simpl. set_solver. }
  rewrite assoc_set_new by done. rewrite (IH (d ++ [(k, v)])%list); rewrite <- app_assoc; done.
Qed.

(** No white space and no closing bracket at the head of a value. *)
Definition starts_value (l : list Ascii.ascii) : bool :=
  match l with
  | a :: _ => negb (is_ws a) && negb (code a =? 93) && negb (code a =? 125)
  | [] => false
  end.

Lemma starts_digit d l : is_digit d = true -> starts_value (d :: l) = true.
Proof.
  unfold is_digit, starts_value, is_ws. intros H. bool_props.
  repeat match goal with |- context [?x =? ?y] => rewrite (proj2 (Z.eqb_neq x y)) by lia end. done.
Qed.

Lemma int_starts n : starts_value (chars (str_of_Z n)) = true.
Proof.
  destruct n as [|p|p]; [done| |done].
  destruct (pretty_pos_digits p) as (d & ds & -> & Hd & _). apply starts_digit. simpl in Hd. by bool_props.
Qed.

Lemma skip_ws_starts l rest : starts_value l = true -> skip_ws (l ++ rest)%list = (l ++ rest)%list.
Proof. destruct l as [|a l]; simpl; [done|]. intros H. bool_props. by rewrite H. Qed.

Lemma match_word_head w a l : (match chars w with b :: _ => code a <> code b | [] => False end) ->
  match_word w (a :: l) = None.
Proof.
  unfold match_word. destruct (chars w) as [|b p]; [done|]. intros H. simpl.
  by rewrite bool_decide_eq_false_2 by congruence.
Qed.

(** ** The grammar *)

Definition white (w : list Ascii.ascii) : Prop := Forall (fun a => is_ws a = true) w.
Definition open_bracket_a : Ascii.ascii := Ascii.ascii_of_N 91.
Definition open_brace_a : Ascii.ascii := Ascii.ascii_of_N 123.
Definition colon_a : Ascii.ascii := Ascii.ascii_of_N 58.

Inductive renders : json -> list Ascii.ascii -> Prop :=
| R_null : renders JNull (chars "null")
| R_true : renders (JBool true) (chars "true")
| R_false : renders (JBool false) (chars "false")
| R_int n : renders (JInt n) (chars (str_of_Z n))
| R_str s : renders (JStr s) (chars (json_string s))
| R_nil w : white w -> renders (JList []) (open_bracket_a :: w ++ [bracket_a])
| R_list vs w t : white w -> renders_items vs t -> renders (JList vs) (open_bracket_a :: w ++ t)
| R_empty w : white w -> renders (JObj []) (open_brace_a :: w ++ [brace_a])
| R_obj kvs w t : white w -> NoDup (keys kvs) -> renders_members kvs t ->
    renders (JObj kvs) (open_brace_a :: w ++ t)
with renders_items : list json -> list Ascii.ascii -> Prop :=
| RI_last v t w : renders v t -> white w -> renders_items [v] (t ++ w ++ [bracket_a])
| RI_cons v t w w' vs ts : renders v t -> white w -> white w' -> renders_items vs ts ->
    renders_items (v :: vs) (t ++ w ++ comma_a :: w' ++ ts)
with renders_members : list (string * json) -> list Ascii.ascii -> Prop :=
| RM_last k v t w1 w2 w : white w1 -> white w2 -> renders v t -> white w ->
    renders_members [(k, v)] (chars (json_string k) ++ w1 ++ colon_a :: w2 ++ t ++ w ++ [brace_a])
| RM_cons k v t w1 w2 w w' kvs ts : white w1 -> white w2 -> renders v t -> white w -> white w' ->
    renders_members kvs ts ->
    renders_members ((k, v) :: kvs)
      (chars (json_string k) ++ w1 ++ colon_a :: w2 ++ t ++ w ++ comma_a :: w' ++ ts).

Scheme renders_mut := Induction for renders Sort Prop
  with renders_items_mut := Induction for renders_items Sort Prop
  with renders_members_mut := Induction for renders_members Sort Prop.
Combined Scheme renders_all_ind from renders_mut, renders_items_mut, renders_members_mut.

#[global] Hint Constructors renders renders_items renders_members : pa.

Lemma white_nil : white [].
Proof. constructor. Qed.
#[global] Hint Resolve white_nil : pa.

Lemma skip_ws_white w l : white w -> skip_ws (w ++ l)%list = skip_ws l.
Proof. induction 1 as [|a w Ha _ IH]; simpl; [done|]. by rewrite Ha. Qed.

Lemma ws_ends a l : is_ws a = true -> ends_number (a :: l) = true.
Proof.
  intros Ha. cbn [ends_number]. unfold is_ws, is_digit in *.
  repeat match goal with H : _ || _ = true |- _ => apply orb_true_iff in H as [H|H] end;
    bool_props; by rewrite Ha.
Qed.

Lemma white_ends w a l : white w -> ends_number (a :: l) = true -> ends_number (w ++ a :: l)%list = true.
Proof. intros [|b w' Hb _] Ha; [done|by apply ws_ends]. Qed.

Lemma renders_starts v t : renders v t -> starts_value t = true.
Proof. destruct 1; try done. apply int_starts. Qed.

Lemma items_start vs t : renders_items vs t -> starts_value t = true.
Proof. by destruct 1 as [v t w H|v t w w' vs ts H]; apply renders_starts in H; destruct t. Qed.

Lemma members_start kvs t : renders_members kvs t -> exists l, t = quote_a :: l.
Proof. by destruct 1; rewrite chars_json_string; eexists. Qed.

(** ** Scanning

    [constant_hook] is the [parse_constant] of the call; no text of the grammar reaches it. *)

Section scanning.
Context (constant_hook : string -> result json).
Notation scan := (scan_once dict_of_pairs constant_hook).

Lemma scan_int_value n rest fuel : ends_number rest = true ->
  scan (S fuel) (chars (str_of_Z n) ++ rest)%list = Ok (JInt n, rest).
Proof.
  intros Hr. pose proof (scan_number_int n rest Hr) as Hn.
  assert (exists a l, chars (str_of_Z n) = a :: l /\ (is_digit a = true \/ code a = 45)) as (a & l & E & Ha).
  { destruct n as [|p|p]; [by do 2 eexists; split; [|left]| |by do 2 eexists; split; [|right]].
    destruct (pretty_pos_digits p) as (d & ds & -> & Hd & _). exists d, ds. simpl in Hd. bool_props. auto. }
  assert (45 <= code a <= 57) as Hc.
  { destruct Ha as [Ha|Ha]; [unfold is_digit in Ha; bool_props; lia|lia]. }
  rewrite E in Hn |- *. cbn [app] in *. cbn [scan_once].
  repeat match goal with |- context [code a =? ?y] => rewrite (proj2 (Z.eqb_neq (code a) y)) by lia end.
  unfold scan_word. rewrite Hn.
  do 3 (rewrite match_word_head by (simpl; change (code _) with (code a) at 1; cbv [code] in *; simpl; lia)). done.
Qed.

Lemma scan_array fuel l : scan (S fuel) (Ascii.ascii_of_N 91 :: l) =
  match skip_ws l with
  | b :: l2 => if code b =? 93 then Ok (JList [], l2)
               else '(vs, r) ← items dict_of_pairs constant_hook fuel (b :: l2); Ok (JList vs, r)
  | [] => decode_error
  end.
Proof. reflexivity. Qed.

Lemma scan_object fuel l : scan (S fuel) (Ascii.ascii_of_N 123 :: l) =
  match skip_ws l with
  | b :: l2 => if code b =? 125 then v ← dict_of_pairs []; Ok (v, l2)
               else '(kvs, r) ← members dict_of_pairs constant_hook fuel (b :: l2);
                    v ← dict_of_pairs kvs; Ok (v, r)
  | [] => decode_error
  end.
Proof. reflexivity. Qed.


Definition scans_as (v : json) (t : list Ascii.ascii) : Prop := forall rest fuel,
  ends_number rest = true -> (2 * length t <= fuel)%nat -> scan fuel (t ++ rest)%list = Ok (v, rest).
Definition scans_items (vs : list json) (t : list Ascii.ascii) : Prop := forall rest fuel,
  (2 * length t <= fuel)%nat -> items dict_of_pairs constant_hook fuel (t ++ rest)%list = Ok (vs, rest).
Definition scans_members (kvs : list (string * json)) (t : list Ascii.ascii) : Prop := forall rest fuel,
  (2 * length t <= fuel)%nat -> members dict_of_pairs constant_hook fuel (t ++ rest)%list = Ok (kvs, rest).

Lemma string_scans s : scans_as (JStr s) (chars (json_string s)).
Proof.
  intros rest fuel Hr Hf. rewrite chars_json_string in *. destruct fuel; [simpl in Hf; lia|].
  cbn [app scan_once]. rewrite <- app_assoc. change (code quote_a =? 34) with true. cbv iota.
  cbn [app]. rewrite scan_string_escaped. simpl. by rewrite of_chars_chars.
Qed.

Lemma int_scans n : scans_as (JInt n) (chars (str_of_Z n)).
Proof.
  intros rest fuel Hr Hf. destruct fuel; [|by apply scan_int_value].
  pose proof (int_starts n) as Hs. destruct (chars (str_of_Z n)); simpl in *; [done|lia].
Qed.

Lemma list_scans vs w t : white w -> renders_items vs t -> scans_items vs t ->
  scans_as (JList vs) (open_bracket_a :: w ++ t)%list.
Proof.
  intros Hw Ht Hi rest fuel Hr Hf. cbn [length app] in *. rewrite length_app in Hf. destruct fuel; [lia|].
  unfold open_bracket_a. rewrite scan_array, <- app_assoc, skip_ws_white by done.
  pose proof (items_start _ _ Ht) as Hs. rewrite skip_ws_starts by done. specialize (Hi rest fuel ltac:(lia)).
  destruct t as [|a t]; [done|]. cbn [app starts_value] in *. bool_props.
  rewrite (proj2 (Z.eqb_neq (code a) 93)) by done. by rewrite Hi.
Qed.

Lemma object_scans kvs w t : white w -> NoDup (keys kvs) -> renders_members kvs t -> scans_members kvs t ->
  scans_as (JObj kvs) (open_brace_a :: w ++ t)%list.
Proof.
  intros Hw Hd Ht Hi rest fuel Hr Hf. cbn [length app] in *. rewrite length_app in Hf. destruct fuel; [lia|].
  unfold open_brace_a. rewrite scan_object, <- app_assoc, skip_ws_white by done.
  specialize (Hi rest fuel ltac:(lia)). destruct (members_start _ _ Ht) as [l ->]. cbn [app] in *.
  change (skip_ws (quote_a :: l ++ rest))%list with (quote_a :: l ++ rest)%list. cbv iota.
  change (code quote_a =? 125) with false. cbv iota. rewrite Hi. cbn [mbind result_bind].
  by rewrite dict_of_distinct.
Qed.

(** One step of the loops: a value, white space and the character [c] that decides what follows. *)
Lemma item_step v t w c l fuel : scans_as v t -> white w -> ends_number (c :: l) = true -> is_ws c = false ->
  (2 * length t <= fuel)%nat ->
  scan fuel (t ++ w ++ c :: l)%list = Ok (v, (w ++ c :: l)%list) /\ skip_ws (w ++ c :: l)%list = c :: l.
Proof.
  intros Hv Hw He Hc Hf. split; [apply Hv; [by apply white_ends|done]|].
  rewrite skip_ws_white by done. cbn [skip_ws]. by rewrite Hc.
Qed.

Lemma key_step k w1 w2 t l fuel : white w1 -> white w2 -> starts_value t = true ->
  members dict_of_pairs constant_hook (S fuel) (chars (json_string k) ++ w1 ++ colon_a :: w2 ++ t ++ l)%list
  = ('(v, r2) ← scan fuel (t ++ l)%list;
     match skip_ws r2 with
     | b :: r3 =>
         if code b =? 125 then Ok ([(k, v)], r3)
         else if code b =? 44 then
           '(kvs, r4) ← members dict_of_pairs constant_hook fuel (skip_ws r3); Ok ((k, v) :: kvs, r4)
         else decode_error
     | [] => decode_error
     end).
Proof.
  intros H1 H2 Hs. rewrite chars_json_string. cbn [app]. rewrite <- app_assoc. cbn [app members].
  change (code quote_a =? 34) with true. cbn [negb]. rewrite scan_string_escaped. cbn [mbind result_bind].
  rewrite skip_ws_white by done. change (skip_ws (colon_a :: ?l)) with (colon_a :: l). cbv iota beta.
  change (negb (code colon_a =? 58)) with false. cbv iota. rewrite skip_ws_white, skip_ws_starts by done.
  by rewrite of_chars_chars.
Qed.

Lemma renders_scan :
  (forall v t, renders v t -> scans_as v t) /\ (forall vs t, renders_items vs t -> scans_items vs t) /\
  (forall kvs t, renders_members kvs t -> scans_members kvs t).
Proof.
  apply renders_all_ind.
  1-3: intros rest fuel Hr Hf; destruct fuel; [simpl in Hf; lia|done].
  - apply int_scans.
  - apply string_scans.
  - intros w Hw rest fuel Hr Hf. cbn [length app] in *. destruct fuel; [lia|].
    unfold open_bracket_a. by rewrite scan_array, <- app_assoc, skip_ws_white.
  - intros vs w t Hw Ht Hi. by apply list_scans.
  - intros w Hw rest fuel Hr Hf. cbn [length app] in *. destruct fuel; [lia|].
    unfold open_brace_a. by rewrite scan_object, <- app_assoc, skip_ws_white.
  - intros kvs w t Hw Hd Ht Hi. by apply object_scans.
  - intros v t w Ht Hv Hw rest fuel Hf. rewrite !length_app in Hf. simpl in Hf. destruct fuel; [lia|].
    rewrite <- !app_assoc. cbn [app items]. edestruct item_step as [-> E]; [exact Hv|exact Hw|done|done|lia|].
    cbn [mbind result_bind]. by rewrite E.
  - intros v t w w' vs ts Ht Hv Hw Hw' Hts Hi rest fuel Hf. repeat (rewrite length_app in Hf; simpl in Hf).
    destruct fuel; [lia|]. rewrite <- !app_assoc. cbn [app]. rewrite <- !app_assoc. cbn [items].
    edestruct item_step as [-> E]; [exact Hv|exact Hw|done|done|lia|]. cbn [mbind result_bind].
    rewrite E. cbv iota. change (code comma_a =? 93) with false. change (code comma_a =? 44) with true. cbv iota.
    rewrite skip_ws_white, skip_ws_starts by (done || by eapply items_start). by rewrite Hi by lia.
  - intros k v t w1 w2 w H1 H2 Ht Hv Hw rest fuel Hf. repeat (rewrite length_app in Hf; simpl in Hf).
    destruct fuel; [lia|]. repeat (rewrite <- app_assoc; cbn [app]).
    rewrite key_step by (done || by eapply renders_starts).
    edestruct item_step as [-> E]; [exact Hv|exact Hw|done|done|lia|]. cbn [mbind result_bind]. by rewrite E.
  - intros k v t w1 w2 w w' kvs ts H1 H2 Ht Hv Hw Hw' Hts Hi rest fuel Hf.
    repeat (rewrite length_app in Hf; simpl in Hf). destruct fuel; [lia|]. repeat (rewrite <- app_assoc; cbn [app]).
    rewrite key_step by (done || by eapply renders_starts).
    edestruct item_step as [-> E]; [exact Hv|exact Hw|done|done|lia|]. cbn [mbind result_bind].
    rewrite E. cbv iota. change (code comma_a =? 125) with false. change (code comma_a =? 44) with true. cbv iota.
    specialize (Hi rest fuel ltac:(lia)). destruct (members_start _ _ Hts) as [l ->].
    rewrite skip_ws_white by done. cbn [app] in *.
    change (skip_ws (quote_a :: l ++ rest))%list with (quote_a :: l ++ rest)%list.
    by rewrite Hi.
Qed.

(** [json.loads] reads a text of the grammar, with white space around it, as its value. *)
Lemma renders_loads v t w w' : renders v t -> white w -> white w' ->
  loads_with dict_of_pairs constant_hook (of_chars (w ++ t ++ w')%list) = Ok v.
Proof.
  intros Ht Hw Hw'. unfold loads_with. rewrite chars_of_chars, skip_ws_white by done.
  rewrite skip_ws_starts by (by eapply renders_starts). rewrite (proj1 renders_scan _ _ Ht).
  - cbn [mbind result_bind]. pose proof (skip_ws_white w' [] Hw') as E. rewrite app_nil_r in E. by rewrite E.
  - destruct Hw'; [done|by apply ws_ends].
  - rewrite length_app. lia.
Qed.
End scanning.
