(* ===== verification/JsonRoundTrip.v ===== *)
(** * JsonRoundTrip: a canonical text determines the value it was written from

    [json.loads] reads what [canonical_json] writes and gives the normalised value back, for
    every value without floats; so two values with one canonical text are the same JSON value,
    and a SHA-256 fingerprint binds a value unless two different texts collide. *)

From stdpp Require Import sorting.
From S2P Require Import Prelude Text PyFloat Sha256 Json JsonParse JsonGrammar.
Local Open Scope string_scope.
Local Open Scope Z_scope.

(** ** Sorting items by key *)

Section sorting_map.
Context {A B : Type} (f : A -> B) (R : relation A) (R' : relation B).
Context `{!RelDecision R, !RelDecision R'} (Hf : forall x y, R x y <-> R' (f x) (f y)).

Lemma list_merge_fmap l k : list_merge R' (f <$> l) (f <$> k) = f <$> list_merge R l k.
Proof.
  revert k; induction l as [|x l IHl]; intros k; simpl; [by destruct k|].
  induction k as [|y k IHk]; simpl; [done|].
  destruct (decide (R x y)) as [H|H]; rewrite (Hf x y) in H.
  - rewrite !decide_True by (try done; by apply Hf). simpl. f_equal. apply (IHl (y :: k)).
  - rewrite !decide_False by (try done; by rewrite Hf). simpl. f_equal. apply IHk.
Qed.

Definition fmap_stack (st : list (option (list A))) : list (option (list B)) :=
  (fun o : option (list A) => (fun l : list A => f <$> l) <$> o) <$> st.

Lemma merge_list_to_stack_fmap st l :
  merge_list_to_stack R' (fmap_stack st) (f <$> l) = fmap_stack (merge_list_to_stack R st l).
Proof.
  revert l; induction st as [|[k|] st IH]; intros l; simpl; [done| |done].
  by rewrite list_merge_fmap, IH.
Qed.

Lemma merge_stack_fmap st : merge_stack R' (fmap_stack st) = f <$> merge_stack R st.
Proof.
  induction st as [|[k|] st IH]; simpl; [done| |done]. by rewrite IH, list_merge_fmap.
Qed.

Lemma merge_sort_fmap l : merge_sort R' (f <$> l) = f <$> merge_sort R l.
Proof.
  unfold merge_sort. change (@nil (option (list B))) with (fmap_stack []).
  generalize (@nil (option (list A))). induction l as [|x l IH]; intros st; simpl.
  - apply merge_stack_fmap.
  - rewrite <- IH. f_equal. apply (merge_list_to_stack_fmap st [x]).
Qed.
End sorting_map.

Lemma sort_items_fmap {A B} (g : A -> B) (l : list (string * A)) :
  sort_items ((fun kv => (kv.1, g kv.2)) <$> l) = (fun kv => (kv.1, g kv.2)) <$> sort_items l.
Proof. apply merge_sort_fmap. done. Qed.

#[global] Instance key_le_trans {A} : Transitive (@key_le A).
Proof. intros x y z. unfold key_le. apply str_leb_trans. Qed.

#[global] Instance key_le_total {A} : Total (@key_le A).
Proof.
  intros x y. unfold key_le. destruct (String.leb x.1 y.1) eqn:E; [by left|right].
  assert (String.ltb y.1 x.1 = true) as H by (rewrite str_ltb_leb, E; done).
  revert H. unfold String.ltb, String.leb. by destruct (String.compare y.1 x.1).
Qed.

Lemma str_leb_antisym s t : String.leb s t = true -> String.leb t s = true -> s = t.
Proof.
  intros H1%Is_true_true H2%Is_true_true. change (String.le s t) in H1. change (String.le t s) in H2.
  by apply (anti_symm String.le).
Qed.

(** Two sorted arrangements of the same dictionary are equal. *)
Lemma sorted_items_unique {A} (l k : list (string * A)) : NoDup (keys l) ->
  StronglySorted key_le l -> StronglySorted key_le k -> l ≡ₚ k -> l = k.
Proof.
  intros Hd Hl Hk Hp. apply (StronglySorted_unique_strong key_le); [|done..].
  intros [a x] [b y] H1 H2 Hab Hba. pose proof (str_leb_antisym _ _ Hab Hba) as E. simpl in E. subst b.
  f_equal. rewrite <- Hp in H2. clear -Hd H1 H2. induction l as [|[c z] l IH]; [by apply not_elem_of_nil in H1|].
  simpl in Hd. apply NoDup_cons in Hd as [Hc Hd].
  assert (forall w, (c, w) ∉ l) as Hno.
  { intros w Hw. apply Hc. unfold keys. apply (list_elem_of_fmap_2 fst) in Hw. done. }
  rewrite elem_of_cons in H1, H2. destruct H1 as [H1|H1], H2 as [H2|H2]; simplify_eq.
  - done.
  - by apply Hno in H2.
  - by apply Hno in H1.
  - auto.
Qed.

Lemma sort_items_sorted {A} (l : list (string * A)) : StronglySorted key_le (sort_items l).
Proof. apply (StronglySorted_merge_sort key_le). Qed.

Lemma sort_items_perm {A} (l : list (string * A)) : sort_items l ≡ₚ l.
Proof. apply (merge_sort_Permutation key_le). Qed.

Lemma sort_items_keys {A} (l : list (string * A)) : NoDup (keys l) -> NoDup (keys (sort_items l)).
Proof. unfold keys. by rewrite sort_items_perm. Qed.

Lemma sort_items_id {A} (l : list (string * A)) : NoDup (keys l) -> StronglySorted key_le l -> sort_items l = l.
Proof.
  intros Hd Hs. apply sorted_items_unique; [by apply sort_items_keys|apply sort_items_sorted|done|].
  apply sort_items_perm.
Qed.

(** ** Values and their canonical arrangement *)

(** A value without floats or opaque objects, whose dictionaries have distinct keys. *)
Fixpoint json_exact (v : json) : bool :=
  match v with
  | JNull | JBool _ | JInt _ | JStr _ => true
  | JFloat _ | JOther _ => false
  | JList l => forallb json_exact l
  | JObj kvs => bool_decide (NoDup (keys kvs)) && forallb (fun kv => json_exact kv.2) kvs
  end.

(** The value with the items of every dictionary in key order. *)
Fixpoint canon (v : json) : json :=
  match v with
  | JList l => JList (canon <$> l)
  | JObj kvs => JObj (sort_items ((fun kv => (kv.1, canon kv.2)) <$> kvs))
  | _ => v
  end.

Lemma sequence_Ok {A} (l : list A) : sequence (Ok <$> l) = Ok l.
Proof. induction l as [|x l IH]; [done|]. rewrite fmap_cons. cbn [sequence]. by rewrite IH. Qed.

Lemma normalize_canon v path : json_exact v = true -> normalize_json_at path v = Ok (canon v).
Proof.
  revert path; induction v as [| | | | |l IH|kvs IH|] using json_nested_ind; intros path He; try done.
  - cbn [normalize_json_at canon]. simpl in He. generalize 0.
    induction IH as [|x l Hx _ IHl]; intros i; simpl in *; [done|]. bool_props.
    rewrite Hx by done. simpl. specialize (IHl ltac:(done) (i + 1)).
    apply result_bind_Ok in IHl as (l' & E & [= ->]). by rewrite E.
  - cbn [normalize_json_at canon]. simpl in He. bool_props. clear H.
    assert (((fun kv => (kv.1, w ← normalize_json_at (path ++ "." ++ kv.1) kv.2; Ok (kv.1, w))) <$> kvs)
      = (fun kv => (kv.1, Ok (A := string * json) kv.2)) <$> ((fun kv => (kv.1, (kv.1, canon kv.2))) <$> kvs))
      as ->.
    { induction IH as [|[k x] l Hx _ IHl]; simpl in *; [done|]. bool_props.
      rewrite Hx by done. simpl. f_equal. by apply IHl. }
    rewrite (sort_items_fmap (A := string * json) Ok).
    assert (((fun kv : string * json => (kv.1, (kv.1, canon kv.2))) <$> kvs)
      = (fun kv => (kv.1, kv)) <$> ((fun kv : string * json => (kv.1, canon kv.2)) <$> kvs)) as ->.
    { rewrite <- list_fmap_compose. done. }
    unfold sort_items. rewrite (merge_sort_fmap (fun kv : string * json => (kv.1, kv)) key_le key_le) by done.
    rewrite <- !list_fmap_compose. fold (sort_items ((fun kv : string * json => (kv.1, canon kv.2)) <$> kvs)).
    unfold compose. simpl.
    by rewrite (sequence_Ok (sort_items ((fun kv => (kv.1, canon kv.2)) <$> kvs))).
Qed.

(** ** Values *)

(** A value whose canonical arrangement is itself. *)
Fixpoint json_canonical (v : json) : bool :=
  match v with
  | JNull | JBool _ | JInt _ | JStr _ => true
  | JFloat _ | JOther _ => false
  | JList l => forallb json_canonical l
  | JObj kvs => bool_decide (NoDup (keys kvs)) && bool_decide (sort_items kvs = kvs)
                && forallb (fun kv => json_canonical kv.2) kvs
  end.

Lemma forallb_Forall {A} (f : A -> bool) l : forallb f l = true <-> Forall (fun x => f x = true) l.
Proof. rewrite Forall_forall, forallb_forall. by setoid_rewrite list_elem_of_In. Qed.

Lemma canon_canonical v : json_exact v = true -> json_canonical (canon v) = true.
Proof.
  induction v as [| | | | |l IH|kvs IH|] using json_nested_ind; intros He; try done; simpl in *.
  - rewrite forallb_Forall in *. apply Forall_fmap. eapply Forall_impl; [exact (List.Forall_and IH He)|].
    intros x [H1 H2]. simpl. auto.
  - bool_props. rewrite forallb_Forall in H0. rewrite !andb_true_iff, !bool_decide_eq_true.
    assert (NoDup (keys ((fun kv => (kv.1, canon kv.2)) <$> kvs))) as Hd.
    { unfold keys in *. by rewrite <- list_fmap_compose. }
    split_and!; [by apply sort_items_keys|apply sort_items_id; [by apply sort_items_keys|apply sort_items_sorted]|].
    rewrite forallb_Forall, sort_items_perm. apply Forall_fmap. eapply Forall_impl; [exact (List.Forall_and IH H0)|].
    intros x [H1 H2]. simpl. auto.
Qed.

(** ** What [json.dumps] writes is a text of the value *)

(** The separators of the call, up to white space. *)
Definition spaced (o : dump_opts) : Prop := exists iw kw,
  white (chars iw) /\ white (chars kw) /\ item_sep o = "," ++ iw /\ key_sep o = ":" ++ kw.

(** The order in which the items of a dictionary are written. *)
Definition written {A} (o : dump_opts) (kvs : list (string * A)) : list (string * A) :=
  if sort_keys o then sort_items kvs else kvs.

(** The value as it is written. *)
Definition arrange (o : dump_opts) (v : json) : json := if sort_keys o then canon v else v.

Lemma written_keys {A} o (kvs : list (string * A)) : NoDup (keys kvs) -> NoDup (keys (written o kvs)).
Proof. unfold written. destruct (sort_keys o); [apply sort_items_keys|done]. Qed.

Lemma written_perm {A} o (kvs : list (string * A)) : written o kvs ≡ₚ kvs.
Proof. unfold written. destruct (sort_keys o); [apply sort_items_perm|done]. Qed.

Lemma arrange_list o l : arrange o (JList l) = JList (arrange o <$> l).
Proof. unfold arrange. destruct (sort_keys o); [done|]. by rewrite list_fmap_id. Qed.

Lemma arrange_obj o kvs : arrange o (JObj kvs) = JObj ((fun kv => (kv.1, arrange o kv.2)) <$> written o kvs).
Proof.
  unfold arrange, written. destruct (sort_keys o); cbn [canon].
  - by rewrite (sort_items_fmap canon).
  - f_equal. induction kvs as [|[k v] kvs IH]; [done|]. rewrite fmap_cons. by f_equal.
Qed.

Lemma written_keys_fmap o (kvs : list (string * json)) : NoDup (keys kvs) ->
  NoDup (keys ((fun kv => (kv.1, arrange o kv.2)) <$> written o kvs)).
Proof. intros H. unfold keys. rewrite <- list_fmap_compose. by apply written_keys. Qed.

(** The text of one item of a dictionary. *)
Definition member_text (o : dump_opts) (kv : string * json) : result string :=
  t ← dumps o kv.2; Ok (json_string kv.1 ++ key_sep o ++ t).

Lemma dumps_obj o kvs : dumps o (JObj kvs)
  = parts ← sequence (member_text o <$> written o kvs); Ok ("{" ++ str_join (item_sep o) parts ++ "}").
Proof.
  cbn [dumps]. unfold written, sort_items. destruct (sort_keys o).
  - rewrite (merge_sort_fmap (fun kv : string * json => (kv.1, member_text o kv)) key_le key_le) by done.
    by rewrite <- list_fmap_compose.
  - by rewrite <- list_fmap_compose.
Qed.

Lemma sequence_fmap_Ok {A B} (f : A -> result B) l ys :
  sequence (f <$> l) = Ok ys <-> Forall2 (fun x y => f x = Ok y) l ys.
Proof.
  rewrite <- result_map_Ok. revert ys; induction l as [|x l IH]; intros ys; [done|].
  rewrite fmap_cons. cbn [sequence result_map]. rewrite !result_bind_Ok. setoid_rewrite result_bind_Ok.
  by setoid_rewrite IH.
Qed.

Lemma Forall2_ex {A B} (P : A -> B -> Prop) l : Forall (fun x => exists y, P x y) l -> exists ys, Forall2 P l ys.
Proof.
  induction 1 as [|x l [y Hy] _ [ys IH]]; [by exists []|]. exists (y :: ys). by constructor.
Qed.

Section texts.
Context (o : dump_opts) (iw kw : string).
Context (Hiw : white (chars iw)) (Hkw : white (chars kw)).
Context (Hitem : item_sep o = "," ++ iw) (Hkey : key_sep o = ":" ++ kw).

(** [p] is the text [json.dumps] writes for [v]. *)
Definition text_of (v : json) (p : string) : Prop := dumps o v = Ok p /\ renders (arrange o v) (chars p).

Lemma items_text l x p ps : renders x (chars p) -> Forall2 (fun v q => renders v (chars q)) l ps ->
  renders_items (x :: l) (chars (str_join (item_sep o) (p :: ps)) ++ [bracket_a])%list.
Proof.
  intros Hx Hl. revert x p Hx. induction Hl as [|y q l ps Hy _ IH]; intros x p Hx.
  - apply (RI_last x (chars p) []); auto with pa.
  - specialize (IH y q Hy). change (str_join ?s (?p :: ?q :: ?l)) with (p ++ s ++ str_join s (q :: l)).
    rewrite Hitem in *. rewrite !chars_app, <- !app_assoc.
    apply (RI_cons x (chars p) [] (chars iw)); auto with pa.
Qed.

Definition member_part (k t : string) : string := json_string k ++ key_sep o ++ t.

Lemma members_text l kv t ts : renders kv.2 (chars t) -> Forall2 (fun kv q => renders kv.2 (chars q)) l ts ->
  renders_members (kv :: l)
    (chars (str_join (item_sep o) (zip_with member_part (kv :: l).*1 (t :: ts)))
     ++ [brace_a])%list.
Proof.
  intros Hx Hl. revert kv t Hx. induction Hl as [|kv' q l ts Hy _ IH]; intros [k x] t Hx; simpl in Hx.
  - cbn [fmap list_fmap zip_with str_join fst]. unfold member_part. rewrite Hkey, !chars_app, <- !app_assoc.
    apply (RM_last k x (chars t) [] (chars kw) []); auto with pa.
  - specialize (IH kv' q Hy). cbn [fmap list_fmap zip_with fst] in IH |- *.
    change (str_join ?s (?p :: ?q :: ?l)) with (p ++ s ++ str_join s (q :: l)).
    unfold member_part at 1. rewrite Hitem in *. rewrite Hkey, !chars_app, <- !app_assoc.
    apply (RM_cons k x (chars t) [] (chars kw) [] (chars iw)); auto with pa.
Qed.

Lemma list_text l ps : Forall2 text_of l ps -> text_of (JList l) ("[" ++ str_join (item_sep o) ps ++ "]").
Proof.
  intros Hl. split.
  - cbn [dumps]. by rewrite (proj2 (sequence_fmap_Ok (dumps o) l ps)) by (eapply Forall2_impl; [exact Hl|by intros ?? []]).
  - rewrite arrange_list, chars_app, chars_app. destruct Hl as [|x p l ps Hx Hl]; [exact (R_nil [] white_nil)|].
    apply (R_list _ []); [auto with pa|]. rewrite fmap_cons. apply items_text; [apply Hx|].
    apply Forall2_fmap_l. eapply Forall2_impl; [exact Hl|by intros ?? []].
Qed.

Lemma obj_text kvs ts : NoDup (keys kvs) -> Forall2 (fun kv t => text_of kv.2 t) (written o kvs) ts ->
  exists t, text_of (JObj kvs) t.
Proof.
  intros Hd Hl.
  exists ("{" ++ str_join (item_sep o) (zip_with member_part (written o kvs).*1 ts) ++ "}"). split.
  - rewrite dumps_obj. rewrite (proj2 (sequence_fmap_Ok (member_text o) (written o kvs) (zip_with member_part (written o kvs).*1 ts))); [done|].
    induction Hl as [|kv t l ts [Ht _] _ IH]; [done|]. rewrite fmap_cons. constructor; [|done].
    unfold member_text. by rewrite Ht.
  - pose proof (written_keys_fmap o kvs Hd) as Hk. rewrite arrange_obj, chars_app, chars_app.
    destruct Hl as [|kv t l ts Ht Hl]; [exact (R_empty [] white_nil)|]. apply (R_obj _ []); [auto with pa|done|].
    rewrite fmap_cons. pose proof (members_text ((fun kv => (kv.1, arrange o kv.2)) <$> l) (kv.1, arrange o kv.2) t ts) as H.
    cbn [fmap list_fmap] in H. rewrite <- list_fmap_compose in H. apply H; [apply Ht|].
    apply Forall2_fmap_l. eapply Forall2_impl; [exact Hl|by intros ?? []].
Qed.

Lemma value_text v : json_exact v = true -> exists t, text_of v t.
Proof.
  unfold text_of. induction v as [|[]|n| |s|l IH|kvs IH|] using json_nested_ind; intros He; try discriminate He.
  1-5: eexists; split; [done|]; unfold arrange; destruct (sort_keys o); constructor.
  - simpl in He. rewrite forallb_Forall in He. destruct (Forall2_ex text_of l) as [ts Hts].
    { eapply Forall_impl; [exact (List.Forall_and IH He)|]. intros x [H1 H2]. auto. }
    eexists. by apply list_text.
  - simpl in He. bool_props. rewrite forallb_Forall in H0.
    destruct (Forall2_ex (fun kv t => text_of kv.2 t) (written o kvs)) as [ts Hts]; [|by eapply obj_text].
    rewrite written_perm. eapply Forall_impl; [exact (List.Forall_and IH H0)|]. intros x [H1 H2]. auto.
Qed.
End texts.

(** [json.loads] gives back what [json.dumps] wrote, with the dictionaries in the order written. *)
Lemma dumps_loads o v w w' : spaced o -> json_exact v = true -> white w -> white w' ->
  exists t, dumps o v = Ok t /\ forall hook, loads_with dict_of_pairs hook (of_chars (w ++ chars t ++ w')) = Ok (arrange o v).
Proof.
  intros (iw & kw & Hi & Hk & Hi' & Hk') He Hw Hw'. destruct (value_text o iw kw Hi Hk Hi' Hk' v He) as (t & Ht & Hr).
  exists t. split; [done|]. intros hook. by apply renders_loads.
Qed.

Lemma canonical_spaced : spaced canonical_opts.
Proof. exists "", "". split_and!; auto with pa. Qed.

Lemma canonical_exact v : json_canonical v = true -> json_exact v = true /\ canon v = v.
Proof.
  induction v as [| | | | |l IH|kvs IH|] using json_nested_ind; intros Hc; try done.
  - simpl in *. rewrite forallb_Forall in Hc |- *. pose proof (List.Forall_and IH Hc) as H. clear IH Hc. split.
    + eapply Forall_impl; [exact H|]. intros x [H1 H2]. by apply H1.
    + f_equal. induction H as [|x l [H1 H2] _ IHl]; [done|]. rewrite fmap_cons. f_equal; [by apply H1|done].
  - cbn [json_canonical] in Hc. bool_props. simpl. rewrite forallb_Forall in H0. rename H into Hd, H1 into Hs.
    pose proof (List.Forall_and IH H0) as H. clear IH H0.
    assert (((fun kv : string * json => (kv.1, canon kv.2)) <$> kvs) = kvs) as E.
    { clear Hd Hs. induction H as [|[k x] l [H1 H2] _ IHl]; [done|]. rewrite fmap_cons. f_equal; [|done].
      simpl in *. f_equal. by apply H1. }
    split; [|by rewrite E, Hs]. rewrite andb_true_iff, bool_decide_eq_true. split; [done|].
    rewrite forallb_Forall. eapply Forall_impl; [exact H|]. intros x [H1 H2]. by apply H1.
Qed.

(** A canonical value reads back from its canonical text. *)
Lemma canonical_loads v : json_canonical v = true -> exists t, dumps canonical_opts v = Ok t /\ loads t = Ok v.
Proof.
  intros Hc. destruct (canonical_exact v Hc) as [He Hv].
  destruct (dumps_loads canonical_opts v [] [] canonical_spaced He white_nil white_nil) as (t & Ht & Hl).
  exists t. split; [done|]. specialize (Hl float_constant). cbn [app] in Hl. rewrite app_nil_r, of_chars_chars in Hl.
  unfold loads. rewrite Hl. unfold arrange. simpl. by rewrite Hv.
Qed.

(** ** The theorems *)

(** [json.loads] is a left inverse of [canonical_json]. *)
Lemma loads_canonical v : json_exact v = true ->
  exists t, canonical_json v = Ok t /\ loads t = normalize_json v.
Proof.
  intros He. destruct (canonical_loads _ (canon_canonical v He)) as (t & Ht & Hl). exists t.
  unfold canonical_json, normalize_json. by rewrite normalize_canon by done.
Qed.

(** Equality of JSON values: dictionaries are equal when they have the same keys with equal values,
    in whatever order. *)
Fixpoint json_same (v w : json) {struct v} : bool :=
  match v, w with
  | JList l, JList m =>
      (fix go l m := match l, m with
       | [], [] => true
       | x :: l, y :: m => json_same x y && go l m
       | _, _ => false
       end) l m
  | JObj l, JObj m =>
      bool_decide (length l = length m)
      && forallb (fun kv => match assoc kv.1 m with Some y => json_same kv.2 y | None => false end) l
  | _, _ => json_beq v w
  end.

Lemma assoc_In {A} k (x : A) l : NoDup (keys l) -> assoc k l = Some x <-> (k, x) ∈ l.
Proof.
  induction l as [|[k1 x1] l IH]; simpl; intros Hd; [split; [done|by intros ?%not_elem_of_nil]|].
  apply NoDup_cons in Hd as [H1 Hd]. rewrite elem_of_cons. case_bool_decide as E.
  - subst k1. split; [intros [= ->]; by left|]. intros [[= ->]|H]; [done|]. destruct H1.
    unfold keys. by apply (list_elem_of_fmap_2 fst) in H.
  - rewrite IH by done. naive_solver.
Qed.

Lemma canon_items (l m : list (string * json)) :
  NoDup (keys l) -> NoDup (keys m) ->
  canon (JObj l) = canon (JObj m) <->
  length l = length m /\ Forall (fun kv => exists y, assoc kv.1 m = Some y /\ canon kv.2 = canon y) l.
Proof.
  intros Hl Hm. simpl. set (f := fun kv : string * json => (kv.1, canon kv.2)).
  assert (NoDup (keys (f <$> l)) /\ NoDup (keys (f <$> m))) as [Hfl Hfm].
  { unfold keys in *. by rewrite <- !list_fmap_compose. }
  assert (sort_items (f <$> l) = sort_items (f <$> m) <-> f <$> l ≡ₚ f <$> m) as E.
  { split; [intros E; by rewrite <- (sort_items_perm (f <$> l)), E, sort_items_perm|]. intros Hp.
    apply sorted_items_unique; [by apply sort_items_keys|apply sort_items_sorted..|].
    by rewrite !sort_items_perm. }
  trans (f <$> l ≡ₚ f <$> m); [rewrite <- E; split; congruence|]. split.
  - intros Hp. split; [by apply Permutation_length in Hp; rewrite !length_fmap in Hp|].
    apply Forall_forall. intros [k x] Hx.
    assert ((k, canon x) ∈ f <$> m) as Hin.
    { rewrite <- Hp. change (k, canon x) with (f (k, x)). by apply list_elem_of_fmap_2. }
    apply list_elem_of_fmap in Hin as ([k' y] & Hk & Hin). injection Hk as <- Hxy.
    exists y. split; [by apply assoc_In|done].
  - intros [Hlen Hall]. apply submseteq_length_Permutation; [|rewrite !length_fmap; lia].
    apply NoDup_submseteq; [by apply (NoDup_fmap_1 fst)|]. intros [k c] Hin.
    apply list_elem_of_fmap in Hin as ([k' x] & [= -> ->] & Hin). rewrite Forall_forall in Hall.
    destruct (Hall _ Hin) as (y & Hy%assoc_In & Hxy); [|done]. simpl in Hy, Hxy. rewrite Hxy.
    change (k', canon y) with (f (k', y)). by apply list_elem_of_fmap_2.
Qed.

Lemma json_same_canon v w : json_exact v = true -> json_exact w = true ->
  json_same v w = true <-> canon v = canon w.
Proof.
  revert w; induction v as [| | | | |l IH|l IH|] using json_nested_ind; intros [| | | | |m|m|] Hv Hw;
    try discriminate Hv; try discriminate Hw; try (apply json_beq_eq); try (split; discriminate).
  - cbn [json_same canon]. trans (map canon l = map canon m); [|split; [exact (@f_equal _ _ JList _ _)|by intros [= H]]].
    simpl in Hv, Hw.
    revert m Hw. induction IH as [|x l Hx _ IHl]; intros [|y m] Hw; simpl in *; try (split; discriminate); [done|].
    bool_props. rewrite andb_true_iff, Hx, IHl by done. split; [intros [-> ->]; done|]. intros [= H4 H5]. auto.
  - pose proof Hv as Hv'. pose proof Hw as Hw'. simpl in Hv', Hw'. bool_props. rewrite canon_items by done.
    cbn [json_same]. rewrite andb_true_iff, bool_decide_eq_true, forallb_Forall. f_equiv.
    rewrite forallb_Forall in *. rewrite !Forall_forall in *.
    assert (forall kv, kv ∈ l -> match assoc kv.1 m with Some y => json_same kv.2 y | None => false end = true
      <-> exists y, assoc kv.1 m = Some y /\ canon kv.2 = canon y) as E.
    { intros kv Hkv. destruct (assoc kv.1 m) as [y|] eqn:E; [|split; [done|naive_solver]].
      rewrite (IH kv Hkv); [naive_solver|auto|]. apply assoc_In in E; [|done]. by apply (H0 (kv.1, y)). }
    split; intros HH kv Hkv; apply E; auto.
Qed.

(** Equal fingerprints mean equal values, or a collision between the two canonical texts. *)
Definition sha256_collision (v w : json) : Prop :=
  exists s t, canonical_json v = Ok s /\ canonical_json w = Ok t /\ s <> t /\ sha256 s = sha256 t.

Lemma canonical_sha256_binds v w h : json_exact v = true -> json_exact w = true ->
  canonical_sha256 v = Ok h -> canonical_sha256 w = Ok h ->
  json_same v w = true \/ sha256_collision v w.
Proof.
  intros Hv Hw Hh1 Hh2. destruct (loads_canonical v Hv) as (s & Hs & Ls), (loads_canonical w Hw) as (t & Ht & Lt).
  unfold canonical_sha256 in *. rewrite Hs in Hh1. rewrite Ht in Hh2. simplify_eq/=.
  destruct (decide (s = t)) as [->|Hne]; [left|right; by exists s, t].
  rewrite Ls in Lt. unfold normalize_json in Lt. rewrite !normalize_canon in Lt by done.
  apply json_same_canon; [done..|congruence].
Qed.

(** C33. Canonical JSON is a faithful, order-insensitive encoding.  On values without floats,
    [canonical_json] always answers, [json.loads] reads its text back as the normalised value, and two
    values have the same canonical text exactly when they are equal as JSON values, whatever the
    insertion order of their dictionaries.  (The limit of CPython on the digits of an integer is not
    modelled.) *)
Theorem canonical_json_is_faithful v w : json_exact v = true -> json_exact w = true ->
  (exists t, canonical_json v = Ok t /\ loads t = normalize_json v) /\
  (canonical_json v = canonical_json w <-> json_same v w = true).
Proof.
  intros Hv Hw. split; [by apply loads_canonical|]. rewrite json_same_canon by done. split.
  - intros E. destruct (loads_canonical v Hv) as (s & Hs & Ls), (loads_canonical w Hw) as (t & Ht & Lt).
    rewrite Hs, Ht in E. injection E as ->. rewrite Ls in Lt. unfold normalize_json in Lt.
    rewrite !normalize_canon in Lt by done. congruence.
  - intros E. unfold canonical_json, normalize_json. by rewrite !normalize_canon, E by done.
Qed.

Module JsonScenario.
Definition v : json := JObj [("b", JList [JInt (-12); JStr "x"; JBool true]); ("a", JObj [])].
Definition w : json := JObj [("a", JObj []); ("b", JList [JInt (-12); JStr "x"; JBool true])].
End JsonScenario.

Lemma canonical_json_is_faithful_witness :
  canonical_json JsonScenario.v = canonical_json JsonScenario.w /\
  loads (quoted ["{"; "a"; ":{},"; "b"; ":[-12,"; "x"; ",true]}"]) = Ok JsonScenario.w /\
  (exists t, canonical_json JsonScenario.v = Ok t /\ loads t = normalize_json JsonScenario.v).
Proof.
  destruct (canonical_json_is_faithful JsonScenario.v JsonScenario.w eq_refl eq_refl) as [H1 H2].
  split; [apply H2; reflexivity|]. split; [vm_compute; reflexivity|exact H1].
Defined.
