(* ===== verification/Schemas.v ===== *)
(** * Schemas: the fail-closed JSON Schema validator

    Models [core/tools/schemas.py].  Every recursive call of the validator descends to a strict
    sub-term of the schema, so the schema's depth is enough fuel ([validate_total]).  The
    regular-expression engine behind ["pattern"] is the argument [re_search]. *)

From S2P Require Import Prelude Text PyFloat Json.
From Stdlib Require Import Floats.SpecFloat.
Local Open Scope string_scope.
Local Open Scope Z_scope.

(** ** Python comparisons on JSON values *)

(** Numbers, with [True] and [False] as 1 and 0. *)
Inductive pynum := NInt (n : Z) | NFloat (f : spec_float).

Definition as_num (v : json) : option pynum :=
  match v with
  | JBool b => Some (NInt (if (b : bool) then 1 else 0))
  | JInt n => Some (NInt n)
  | JFloat f => Some (NFloat f)
  | _ => None
  end.

Definition num_compare (a b : pynum) : option comparison :=
  match a, b with
  | NInt x, NInt y => Some (x ?= y)
  | NFloat f, NInt y => float_compare_Z f y
  | NInt x, NFloat g => CompOpp <$> float_compare_Z g x
  | NFloat f, NFloat g => SFcompare f g
  end.

(** [a < b]: a [TypeError] when either side is not a number. *)
Definition py_lt (a b : json) : result bool :=
  match as_num a, as_num b with
  | Some x, Some y => Ok (match num_compare x y with Some Lt => true | _ => false end)
  | _, _ => fail PyTypeError "'<' not supported between these operands"
  end.

Definition py_le (a b : json) : result bool :=
  match as_num a, as_num b with
  | Some x, Some y => Ok (match num_compare x y with Some Lt | Some Eq => true | _ => false end)
  | _, _ => fail PyTypeError "'<=' not supported between these operands"
  end.

(** [a == b]: numeric equality across [bool], [int] and [float]; dictionaries compare without
    regard to order. *)
Fixpoint py_eq (a b : json) {struct a} : bool :=
  match a, b with
  | JNull, JNull => true
  | JStr s, JStr t => bool_decide (s = t)
  | JList l, JList m =>
      (fix go l m := match l, m with
       | [], [] => true
       | x :: l, y :: m => py_eq x y && go l m
       | _, _ => false
       end) l m
  | JObj l, JObj m =>
      (Z.of_nat (length l) =? Z.of_nat (length m)) &&
      (fix go l := match l with
       | [] => true
       | (k, x) :: l => match assoc k m with Some y => py_eq x y | None => false end && go l
       end) l
  | JOther s, JOther t => bool_decide (s = t)
  | _, _ =>
      match as_num a, as_num b with
      | Some x, Some y => match num_compare x y with Some Eq => true | _ => false end
      | _, _ => false
      end
  end.

Definition hashable (v : json) : bool := match v with JList _ | JObj _ => false | _ => true end.

Fixpoint str_contains_l (p l : list Ascii.ascii) : bool :=
  is_prefix_l p l || match l with [] => false | _ :: l => str_contains_l p l end.

(** [value in container] *)
Definition py_in (value container : json) : result bool :=
  match container with
  | JList l => Ok (existsb (py_eq value) l)
  | JObj kvs =>
      if hashable value then Ok (match value with JStr s => mem_b s (keys kvs) | _ => false end)
      else fail PyTypeError "unhashable type"
  | JStr s =>
      match value with
      | JStr p => Ok (str_contains_l (chars p) (chars s))
      | _ => fail PyTypeError "'in <string>' requires string as left operand"
      end
  | _ => fail PyTypeError "argument is not iterable"
  end.

(** Truth value of an object. *)
Definition py_truth (v : json) : bool :=
  match v with
  | JNull => false
  | JBool b => b
  | JInt n => negb (n =? 0)
  | JFloat (S754_zero _) => false
  | JFloat _ => true
  | JStr s => negb (bool_decide (s = ""))
  | JList l => negb (bool_decide (l = []))
  | JObj l => negb (bool_decide (l = []))
  | JOther _ => true
  end.

Definition type_name (v : json) : string :=
  match v with
  | JNull => "NoneType" | JBool _ => "bool" | JInt _ => "int" | JFloat _ => "float"
  | JStr _ => "str" | JList _ => "list" | JObj _ => "dict" | JOther ty => ty
  end.

(** [list(v)] / iteration over [v]. *)
Definition py_iter (v : json) : result (list json) :=
  match v with
  | JList l => Ok l
  | JObj kvs => Ok (JStr <$> keys kvs)
  | JStr s => Ok ((fun a => JStr (of_chars [a])) <$> chars s)
  | _ => fail PyTypeError "object is not iterable"
  end.

(** ** The validator *)

Definition _SUPPORTED_KEYWORDS : list string :=
  ["$schema"; "$id"; "title"; "description"; "type"; "properties"; "required";
   "additionalProperties"; "items"; "enum"; "const"; "minLength"; "maxLength"; "pattern";
   "minimum"; "maximum"; "exclusiveMinimum"; "exclusiveMaximum"; "minItems"; "maxItems";
   "uniqueItems"; "minProperties"; "maxProperties"; "anyOf"; "oneOf"; "allOf"].

Definition schema_error {A} (path msg : string) : result A :=
  fail SchemaValidationError (path ++ ": " ++ msg).

Definition type_check (value : json) (expected : string) : option bool :=
  match expected with
  | "null" => Some (match value with JNull => true | _ => false end)
  | "boolean" => Some (match value with JBool _ => true | _ => false end)
  | "integer" => Some (match value with JInt _ => true | _ => false end)
  | "number" => Some (match value with JInt _ | JFloat _ => true | _ => false end)
  | "string" => Some (match value with JStr _ => true | _ => false end)
  | "array" => Some (match value with JList _ => true | _ => false end)
  | "object" => Some (match value with JObj _ => true | _ => false end)
  | _ => None
  end.

(** [checks[expected]()]: an unknown key is an unsupported type, an unhashable one a
    [TypeError]. *)
Definition _is_type (value expected : json) : result bool :=
  match expected with
  | JStr e =>
      match type_check value e with
      | Some b => Ok b
      | None => fail SchemaValidationError ("unsupported JSON Schema type: " ++ e)
      end
  | _ => if hashable expected then fail SchemaValidationError "unsupported JSON Schema type"
         else fail PyTypeError "unhashable type"
  end.

Fixpoint any_type (value : json) (candidates : list json) : result bool :=
  match candidates with
  | [] => Ok false
  | c :: candidates => b ← _is_type value c; if (b : bool) then Ok true else any_type value candidates
  end.

Definition join_strs (sep : string) (l : list json) : result string :=
  ss ← result_map (fun v => match v with
                            | JStr s => Ok s
                            | _ => fail PyTypeError "sequence item: expected str instance"
                            end) l;
  Ok (str_join sep ss).

Definition _schema_list (value : json) (path keyword : string) : result (list json) :=
  match value with
  | JList l =>
      if bool_decide (l = []) || negb (forallb is_obj l)
      then schema_error path (keyword ++ " must be a non-empty schema list") else Ok l
  | _ => schema_error path (keyword ++ " must be a non-empty schema list")
  end.

(** [if keyword in schema and test: raise]; the bound is only read when the keyword is there. *)
Definition bound_check (schema : list (string * json)) (keyword : string)
    (test : json -> result bool) (path msg : string) : result unit :=
  match assoc keyword schema with
  | None => Ok tt
  | Some bound => b ← test bound; if (b : bool) then schema_error path msg else Ok tt
  end.

Definition len_json {A} (l : list A) : json := JInt (Z.of_nat (length l)).

Section validator.
Context (re_search : string -> string -> result bool).

Definition _validate_string (value : string) (schema : list (string * json)) (path : string)
  : result unit :=
  _ ← bound_check schema "minLength" (py_lt (JInt (str_len value))) path "string is too short";
  _ ← bound_check schema "maxLength" (fun b => py_lt b (JInt (str_len value))) path
        "string is too long";
  bound_check schema "pattern"
    (fun p => match p with
              | JStr p => b ← re_search p value; Ok (negb b)
              | _ => fail PyTypeError "first argument must be string or compiled pattern"
              end) path "string does not match pattern".

Definition _validate_number (value : json) (schema : list (string * json)) (path : string)
  : result unit :=
  _ ← bound_check schema "minimum" (py_lt value) path "number is below minimum";
  _ ← bound_check schema "maximum" (fun b => py_lt b value) path "number exceeds maximum";
  _ ← bound_check schema "exclusiveMinimum" (py_le value) path
        "number is below exclusiveMinimum";
  bound_check schema "exclusiveMaximum" (fun b => py_le b value) path
    "number exceeds exclusiveMaximum".

(** The class raised when the fuel runs out, which no branch of the code raises. *)
Definition out_of_fuel {A} : result A := fail PyException "fuel".

Fixpoint validate (fuel : nat) (value schema : json) (path : string) {struct fuel} : result unit :=
  match fuel with
  | O => out_of_fuel
  | S fuel =>
    match schema with
    | JObj sc =>
        let unsupported := List.filter (fun k => negb (mem_b k _SUPPORTED_KEYWORDS)) (keys sc) in
        _ ← raise_if (negb (bool_decide (unsupported = []))) SchemaValidationError
              (path ++ ": unsupported schema keyword(s): "
               ++ str_join ", " ((sort_items ((fun k => (k, tt)) <$> unsupported)).*1));
        _ ← match assoc "allOf" sc with
            | None => Ok tt
            | Some subs => l ← _schema_list subs path "allOf";
                           result_iter (fun s => validate fuel value s path) l
            end;
        _ ← match assoc "anyOf" sc with
            | None => Ok tt
            | Some subs => n ← matching_count fuel value subs path;
                           raise_if (n <? 1) SchemaValidationError
                             (path ++ ": value does not match anyOf")
            end;
        _ ← match assoc "oneOf" sc with
            | None => Ok tt
            | Some subs => n ← matching_count fuel value subs path;
                           raise_if (negb (n =? 1)) SchemaValidationError
                             (path ++ ": value must match exactly one oneOf branch")
            end;
        _ ← match assoc "const" sc with
            | None => Ok tt
            | Some c => raise_if (negb (py_eq value c)) SchemaValidationError
                          (path ++ ": value does not match const")
            end;
        _ ← match assoc "enum" sc with
            | None => Ok tt
            | Some e => b ← py_in value e;
                        raise_if (negb b) SchemaValidationError (path ++ ": value is not in enum")
            end;
        _ ← match assoc "type" sc with
            | None | Some JNull => Ok tt
            | Some expected =>
                candidates ← match expected with JStr _ => Ok [expected] | _ => py_iter expected end;
                b ← any_type value candidates;
                if (b : bool) then Ok tt else
                names ← join_strs " or " candidates;
                schema_error path ("expected " ++ names ++ ", got " ++ type_name value)
            end;
        match value with
        | JObj kvs => _validate_object fuel kvs sc path
        | JList l => _validate_array fuel l sc path
        | JStr s => _validate_string s sc path
        | JInt _ | JFloat _ => _validate_number value sc path
        | _ => Ok tt
        end
    | _ => schema_error path "schema must be an object"
    end
  end
with matching_count (fuel : nat) (value schemas : json) (path : string) {struct fuel}
  : result Z :=
  match fuel with
  | O => out_of_fuel
  | S fuel =>
      l ← _schema_list schemas path "branch";
      foldr (fun s rest =>
        match validate fuel value s path with
        | Ok _ => n ← rest; Ok (n + 1)
        | Err e => if exn_is e SchemaValidationError then rest else Err e
        end) (Ok 0) l
  end
with _validate_object (fuel : nat) (value schema : list (string * json)) (path : string)
    {struct fuel} : result unit :=
  match fuel with
  | O => out_of_fuel
  | S fuel =>
      if negb (existsb (fun k => mem_b k (keys schema))
                 ["properties"; "required"; "additionalProperties"; "minProperties";
                  "maxProperties"])
      then Ok tt
      else
        match default (JObj []) (assoc "properties" schema) with
        | JObj properties =>
            required ← py_iter (default (JList []) (assoc "required" schema));
            let missing := List.filter (fun v => match v with
                             | JStr s => negb (mem_b s (keys value))
                             | _ => true
                             end) required in
            _ ← raise_if (negb (forallb hashable required)) PyTypeError "unhashable type";
            _ ← (if bool_decide (missing = []) then Ok tt
                 else names ← join_strs ", " missing;
                      schema_error path ("missing required field(s): " ++ names));
            _ ← bound_check schema "minProperties" (py_lt (len_json value)) path
                  "too few properties";
            _ ← bound_check schema "maxProperties" (fun b => py_lt b (len_json value)) path
                  "too many properties";
            let additional := default (JBool false) (assoc "additionalProperties" schema) in
            result_iter (fun kv =>
              let child_path := path ++ "." ++ kv.1 in
              match assoc kv.1 properties with
              | Some sub => validate fuel kv.2 sub child_path
              | None =>
                  match additional with
                  | JBool true => Ok tt
                  | JObj _ => validate fuel kv.2 additional child_path
                  | _ => schema_error child_path "unknown field"
                  end
              end) value
        | _ => schema_error path "properties must be an object"
        end
  end
with _validate_array (fuel : nat) (value : list json) (schema : list (string * json))
    (path : string) {struct fuel} : result unit :=
  match fuel with
  | O => out_of_fuel
  | S fuel =>
      _ ← bound_check schema "minItems" (py_lt (len_json value)) path "too few items";
      _ ← bound_check schema "maxItems" (fun b => py_lt b (len_json value)) path "too many items";
      _ ← match assoc "uniqueItems" schema with
          | Some u =>
              if py_truth u && negb (bool_decide (NoDup value))
              then schema_error path "items must be unique" else Ok tt
          | None => Ok tt
          end;
      match assoc "items" schema with
      | None | Some JNull => Ok tt
      | Some item_schema =>
          result_iter (fun iv => validate fuel iv.2 item_schema
                                   (path ++ "[" ++ str_of_Z iv.1 ++ "]"))
            (zip (seqZ 0 (Z.of_nat (length value))) value)
      end
  end.

Fixpoint json_depth (v : json) : nat :=
  match v with
  | JList l => S (max_list (json_depth <$> l))
  | JObj kvs => S (max_list ((fun kv => json_depth kv.2) <$> kvs))
  | _ => 1
  end.

Definition validate_json_schema (value schema : json) : result unit :=
  validate (2 * json_depth schema + 2) value schema "$".

End validator.
