(* ===== verification/Domain.v ===== *)
(** * Domain: the value objects of [src/personal_assistant/domain]

    Enumerations with their persisted values, and the immutable records; each record whose
    class has a [__post_init__] comes with a checked constructor [make_...]. *)

From S2P Require Import Prelude Text Json.
Local Open Scope string_scope.
Local Open Scope Z_scope.

(** ** Enumerations ([domain/enums.py]) *)

Inductive RiskLevel := READ | INTERNAL_WRITE | EXTERNAL_WRITE | PROHIBITED.

Definition risk_value (r : RiskLevel) : string :=
  match r with
  | READ => "READ"
  | INTERNAL_WRITE => "INTERNAL_WRITE"
  | EXTERNAL_WRITE => "EXTERNAL_WRITE"
  | PROHIBITED => "PROHIBITED"
  end.

Definition risk_code (r : RiskLevel) : string :=
  match r with READ => "R0" | INTERNAL_WRITE => "R1" | EXTERNAL_WRITE => "R2" | PROHIBITED => "R3" end.

Inductive RetryPolicy := RETRY_NONE | IDEMPOTENT_ONLY.

Module TaskState.
Inductive t :=
| CREATED | QUEUED | RUNNING | WAITING_USER | WAITING_APPROVAL | WAITING_RECONCILIATION
| PAUSED_SAFETY | PAUSED_EXTENSION | SUCCEEDED | FAILED | CANCELLED.

#[global] Instance task_state_eq_dec : EqDecision t.
Proof. solve_decision. Defined.

Definition terminal (s : t) : bool :=
  match s with SUCCEEDED | FAILED | CANCELLED => true | _ => false end.

Definition value (s : t) : string :=
  match s with
  | CREATED => "CREATED" | QUEUED => "QUEUED" | RUNNING => "RUNNING"
  | WAITING_USER => "WAITING_USER" | WAITING_APPROVAL => "WAITING_APPROVAL"
  | WAITING_RECONCILIATION => "WAITING_RECONCILIATION"
  | PAUSED_SAFETY => "PAUSED_SAFETY" | PAUSED_EXTENSION => "PAUSED_EXTENSION"
  | SUCCEEDED => "SUCCEEDED" | FAILED => "FAILED" | CANCELLED => "CANCELLED"
  end.
End TaskState.

Module ToolOutcomeKind.
Inductive t :=
| SUCCESS | APPROVAL_REQUIRED | USER_ACTION_REQUIRED | EXTENSION_UNAVAILABLE
| OUTCOME_UNKNOWN | SAFETY_PAUSE | FAILED.

#[global] Instance outcome_kind_eq_dec : EqDecision t.
Proof. solve_decision. Defined.

Definition value (k : t) : string :=
  match k with
  | SUCCESS => "SUCCESS" | APPROVAL_REQUIRED => "APPROVAL_REQUIRED"
  | USER_ACTION_REQUIRED => "USER_ACTION_REQUIRED"
  | EXTENSION_UNAVAILABLE => "EXTENSION_UNAVAILABLE"
  | OUTCOME_UNKNOWN => "OUTCOME_UNKNOWN" | SAFETY_PAUSE => "SAFETY_PAUSE" | FAILED => "FAILED"
  end.
End ToolOutcomeKind.

Module ApprovalState.
Inductive t :=
| DRAFT | PREPARED | WAITING_APPROVAL | APPROVED | EXECUTING
| SUCCEEDED | FAILED | UNKNOWN | EXPIRED | CANCELLED.

#[global] Instance approval_state_eq_dec : EqDecision t.
Proof. solve_decision. Defined.

Definition terminal (s : t) : bool :=
  match s with SUCCEEDED | FAILED | UNKNOWN | EXPIRED | CANCELLED => true | _ => false end.

Definition value (s : t) : string :=
  match s with
  | DRAFT => "DRAFT" | PREPARED => "PREPARED" | WAITING_APPROVAL => "WAITING_APPROVAL"
  | APPROVED => "APPROVED" | EXECUTING => "EXECUTING" | SUCCEEDED => "SUCCEEDED"
  | FAILED => "FAILED" | UNKNOWN => "UNKNOWN" | EXPIRED => "EXPIRED" | CANCELLED => "CANCELLED"
  end.
End ApprovalState.

Inductive ContextLayer :=
| POLICY | WORKFLOW | APPROVED_RULE | TASK_WORKING_SET | RETRIEVED_EVIDENCE
| EPISODIC_SUMMARY | TOOL_OBSERVATION.

Inductive Sensitivity := PUBLIC | PERSONAL | SENSITIVE | SECRET.

Definition sensitivity_value (s : Sensitivity) : string :=
  match s with
  | PUBLIC => "PUBLIC" | PERSONAL => "PERSONAL" | SENSITIVE => "SENSITIVE" | SECRET => "SECRET"
  end.

Inductive TrustLevel :=
| USER_SOURCE | OFFICIAL_SOURCE | EXTERNAL_MESSAGE | MODEL_GENERATED | INFERRED | TOOL_OUTPUT.

Definition trust_value (t : TrustLevel) : string :=
  match t with
  | USER_SOURCE => "USER_SOURCE" | OFFICIAL_SOURCE => "OFFICIAL_SOURCE"
  | EXTERNAL_MESSAGE => "EXTERNAL_MESSAGE" | MODEL_GENERATED => "MODEL_GENERATED"
  | INFERRED => "INFERRED" | TOOL_OUTPUT => "TOOL_OUTPUT"
  end.

#[global] Instance risk_eq_dec : EqDecision RiskLevel.
Proof. solve_decision. Defined.
#[global] Instance layer_eq_dec : EqDecision ContextLayer.
Proof. solve_decision. Defined.
#[global] Instance sensitivity_eq_dec : EqDecision Sensitivity.
Proof. solve_decision. Defined.

(** ** Value objects ([domain/models.py]) *)

Record AttachmentDigest := {
  att_name : string;
  att_sha256 : string;
  att_size_bytes : Z
}.
#[export] Instance AttachmentDigest_eta : Eta AttachmentDigest := fun r =>
  Build_AttachmentDigest (att_name r) (att_sha256 r) (att_size_bytes r).

Definition make_attachment (name sha : string) (size : Z) : result AttachmentDigest :=
  let digest := lower sha in
  if bool_decide (name = "") then fail ValidationError "attachment name is required"
  else if negb (str_len digest =? 64) || negb (forallb is_hex_lower (chars digest)) then
    fail ValidationError "attachment sha256 must be 64 hexadecimal characters"
  else if size <? 0 then fail ValidationError "attachment size_bytes cannot be negative"
  else Ok {| att_name := name; att_sha256 := digest; att_size_bytes := size |}.

Record ToolDescriptor := {
  td_id : string;
  td_version : string;
  td_extension_id : string;
  td_input_schema : json;
  td_output_schema : json;
  td_risk : RiskLevel;
  td_extension_version : option string;
  td_required_capabilities : list string;
  td_timeout_seconds : Z;       (* microseconds *)
  td_retry_policy : RetryPolicy;
  td_data_classes_in : list string;
  td_data_classes_out : list string
}.
#[export] Instance ToolDescriptor_eta : Eta ToolDescriptor := fun r =>
  Build_ToolDescriptor (td_id r) (td_version r) (td_extension_id r) (td_input_schema r)
    (td_output_schema r) (td_risk r) (td_extension_version r) (td_required_capabilities r)
    (td_timeout_seconds r) (td_retry_policy r) (td_data_classes_in r) (td_data_classes_out r).

(** [__post_init__]: identity fields are non-blank, the timeout lies in (0, 15 min], and a
    missing extension version is bound to the tool version. *)
Definition check_descriptor (d : ToolDescriptor) : result ToolDescriptor :=
  _ ← raise_if (blank (td_id d)) ValidationError "tool id is required";
  _ ← raise_if (blank (td_version d)) ValidationError "tool version is required";
  _ ← raise_if (blank (td_extension_id d)) ValidationError "tool extension_id is required";
  _ ← raise_if (td_timeout_seconds d <=? 0) ValidationError
        "tool timeout_seconds must be positive";
  _ ← raise_if (minutes 15 <? td_timeout_seconds d) ValidationError
        "tool timeout_seconds cannot exceed 15 minutes";
  match td_extension_version d with
  | None => Ok (d {{ td_extension_version := Some (td_version d) }})
  | Some v => _ ← raise_if (blank v) ValidationError "extension_version cannot be blank"; Ok d
  end.

Record ToolCall := {
  tc_tool_id : string;
  tc_tool_version : string;
  tc_arguments : json;
  tc_task_id : string;
  tc_target : json;
  tc_attachments : list AttachmentDigest;
  tc_granted_capabilities : list string;
  tc_workflow_allowed_tools : list string;
  tc_approval_id : option string;
  tc_idempotency_key : option string;
  tc_form_version : option string
}.
#[export] Instance ToolCall_eta : Eta ToolCall := fun r =>
  Build_ToolCall (tc_tool_id r) (tc_tool_version r) (tc_arguments r) (tc_task_id r)
    (tc_target r) (tc_attachments r) (tc_granted_capabilities r) (tc_workflow_allowed_tools r)
    (tc_approval_id r) (tc_idempotency_key r) (tc_form_version r).

Definition check_call (c : ToolCall) : result ToolCall :=
  _ ← raise_if (bool_decide (tc_tool_id c = "") || bool_decide (tc_tool_version c = "")
                || bool_decide (tc_task_id c = ""))
        ValidationError "tool_id, tool_version and task_id are required";
  Ok c.

Record ToolOutcome := {
  to_kind : ToolOutcomeKind.t;
  to_result : option json;
  to_message : option string;
  to_reference_id : option string;
  to_approval_id : option string;
  to_extension_id : option string;
  to_retryable : bool
}.
#[export] Instance ToolOutcome_eta : Eta ToolOutcome := fun r =>
  Build_ToolOutcome (to_kind r) (to_result r) (to_message r) (to_reference_id r)
    (to_approval_id r) (to_extension_id r) (to_retryable r).

Definition outcome_failed (message : string) (retryable : bool) : ToolOutcome :=
  {| to_kind := ToolOutcomeKind.FAILED; to_result := None; to_message := Some message;
     to_reference_id := None; to_approval_id := None; to_extension_id := None;
     to_retryable := retryable |}.

Definition outcome_unknown (reference_id : string) (message : option string) : ToolOutcome :=
  {| to_kind := ToolOutcomeKind.OUTCOME_UNKNOWN; to_result := None; to_message := message;
     to_reference_id := Some reference_id; to_approval_id := None; to_extension_id := None;
     to_retryable := false |}.

Record Task := {
  task_id : string;
  task_objective : string;
  task_state : TaskState.t;
  task_version : Z;
  task_created_at : time
}.
#[export] Instance Task_eta : Eta Task := fun r =>
  Build_Task (task_id r) (task_objective r) (task_state r) (task_version r) (task_created_at r).

Definition make_task (id objective : string) (state : TaskState.t) (version : Z) (created_at : time)
  : result Task :=
  _ ← raise_if (bool_decide (id = "") || blank objective) ValidationError
        "task id and objective are required";
  _ ← raise_if (version <? 0) ValidationError "task version cannot be negative";
  Ok {| task_id := id; task_objective := objective; task_state := state;
        task_version := version; task_created_at := created_at |}.

Record TaskRun := {
  run_id : string;
  run_task_id : string;
  run_objective : string;
  run_state : TaskState.t;
  run_version : Z;
  segment_number : Z;
  active_started_at : time;
  updated_at : time;
  consecutive_errors : Z;
  no_progress_rounds : Z;
  same_call_without_progress : Z;
  last_call_fingerprint : option string;
  last_observation_fingerprint : option string;
  waiting_reference : option string;
  pause_reason : option string
}.
#[export] Instance TaskRun_eta : Eta TaskRun := fun r =>
  Build_TaskRun (run_id r) (run_task_id r) (run_objective r) (run_state r) (run_version r)
    (segment_number r) (active_started_at r) (updated_at r) (consecutive_errors r)
    (no_progress_rounds r) (same_call_without_progress r) (last_call_fingerprint r)
    (last_observation_fingerprint r) (waiting_reference r) (pause_reason r).

(** [TaskRun.__post_init__], which [dataclasses.replace] runs again on every copy. *)
Definition check_run (r : TaskRun) : result TaskRun :=
  _ ← raise_if (bool_decide (run_id r = "") || bool_decide (run_task_id r = "")
                || blank (run_objective r))
        ValidationError "run id, task_id and objective are required";
  _ ← raise_if ((run_version r <? 0) || (segment_number r <? 1))
        ValidationError "invalid run version or segment number";
  _ ← raise_if (consecutive_errors r <? 0) ValidationError "consecutive_errors cannot be negative";
  _ ← raise_if (no_progress_rounds r <? 0) ValidationError "no_progress_rounds cannot be negative";
  _ ← raise_if (same_call_without_progress r <? 0) ValidationError
        "same_call_without_progress cannot be negative";
  Ok r.

(** The invariant [__post_init__] establishes. *)
Definition run_ok (r : TaskRun) : bool := is_ok (check_run r).

Lemma run_ok_iff r :
  run_ok r = true <->
  run_id r <> "" /\ run_task_id r <> "" /\ blank (run_objective r) = false /\
  0 <= run_version r /\ 1 <= segment_number r /\ 0 <= consecutive_errors r /\
  0 <= no_progress_rounds r /\ 0 <= same_call_without_progress r.
Proof.
  unfold run_ok, check_run, raise_if. split.
  - intros H. run_guards H. bool_props. split_and!; done || lia.
  - intros (?&?&Hb&?&?&?&?&?).
    rewrite !bool_decide_eq_false_2, Hb by done. simpl.
    repeat match goal with |- context [?a <? ?b] => rewrite (proj2 (Z.ltb_ge a b)) by lia end.
    done.
Qed.

Lemma check_run_ok r : run_ok r = true -> check_run r = Ok r.
Proof.
  unfold run_ok. destruct (check_run r) as [r'|] eqn:E; [|done]. intros _.
  unfold check_run, raise_if in E. run_guards E. done.
Qed.
