(* ===== verification/Tools.v ===== *)
(** * Tools: registry snapshots and the risk policy

    Models [core/tools/registry.py] and [core/tools/policy.py]. *)

From S2P Require Import Prelude Text Json Domain.
Local Open Scope string_scope.
Local Open Scope Z_scope.

(** ** Registry *)

(** [_freeze]: dictionaries become read-only views and lists become tuples; on JSON values the
    content is unchanged. *)
Fixpoint _freeze (v : json) : json :=
  match v with
  | JObj kvs => JObj ((fun kv => (kv.1, _freeze kv.2)) <$> kvs)
  | JList l => JList (_freeze <$> l)
  | _ => v
  end.

Record RegistrySnapshot := {
  generation : Z;
  snap_tools : list ((string * string) * ToolDescriptor)   (* a dict, in insertion order *)
}.
#[export] Instance RegistrySnapshot_eta : Eta RegistrySnapshot := fun r =>
  Build_RegistrySnapshot (generation r) (snap_tools r).

Definition tool_key (d : ToolDescriptor) : string * string := (td_id d, td_version d).

Fixpoint find_tool (k : string * string) (l : list ((string * string) * ToolDescriptor))
  : option ToolDescriptor :=
  match l with
  | [] => None
  | (k', d) :: l => if bool_decide (k = k') then Some d else find_tool k l
  end.

Definition resolve (s : RegistrySnapshot) (tool_id version : string) : result ToolDescriptor :=
  match find_tool (tool_id, version) (snap_tools s) with
  | Some d => Ok d
  | None => fail NotFoundError ("tool not registered: " ++ tool_id ++ "@" ++ version)
  end.

Definition descriptors (s : RegistrySnapshot) : list ToolDescriptor := (snap_tools s).*2.

Definition empty_snapshot : RegistrySnapshot := {| generation := 0; snap_tools := [] |}.

Definition freeze_descriptor (d : ToolDescriptor) : ToolDescriptor :=
  d {{ td_input_schema := _freeze (td_input_schema d);
       td_output_schema := _freeze (td_output_schema d) }}.

(** The staging loop of [publish]. *)
Fixpoint stage (ds : list ToolDescriptor) (staged : list ((string * string) * ToolDescriptor))
  : result (list ((string * string) * ToolDescriptor)) :=
  match ds with
  | [] => Ok staged
  | d :: ds =>
      match find_tool (tool_key d) staged with
      | Some _ => fail AlreadyExistsError
                    ("duplicate tool descriptor: " ++ td_id d ++ "@" ++ td_version d)
      | None =>
          frozen ← check_descriptor (freeze_descriptor d);
          stage ds (staged ++ [(tool_key d, frozen)])%list
      end
  end.

Definition publish (ds : list ToolDescriptor) : M RegistrySnapshot RegistrySnapshot :=
  staged ← lift (stage ds []);
  current ← get_state;
  let s := {| generation := generation current + 1; snap_tools := staged |} in
  _ ← put_state s;
  mret s.

(** ** Policy *)

Record ToolPolicy := {
  external_writes_enabled : bool;
  frozen_probe : option bool      (* the probe's current answer, when there is one *)
}.
#[export] Instance ToolPolicy_eta : Eta ToolPolicy := fun r =>
  Build_ToolPolicy (external_writes_enabled r) (frozen_probe r).

Definition missing_capabilities (d : ToolDescriptor) (c : ToolCall) : list string :=
  List.filter (fun x => negb (mem_b x (tc_granted_capabilities c))) (td_required_capabilities d).

Definition policy_check (p : ToolPolicy) (d : ToolDescriptor) (c : ToolCall) : result unit :=
  _ ← raise_if (negb (mem_b (td_id d) (tc_workflow_allowed_tools c))) ToolPolicyError
        ("workflow does not allow tool " ++ td_id d);
  let missing := missing_capabilities d c in
  _ ← raise_if (negb (bool_decide (missing = []))) ToolPolicyError
        ("missing capability grant(s): "
         ++ str_join ", " ((sort_items ((fun k => (k, tt)) <$> missing)).*1));
  match td_risk d with
  | PROHIBITED => fail ProhibitedToolError ("R3 tool is permanently prohibited: " ++ td_id d)
  | EXTERNAL_WRITE =>
      raise_if (negb (external_writes_enabled p) || default false (frozen_probe p))
        ToolPolicyError "external side effects are disabled by the kill switch"
  | _ => Ok tt
  end.

(** ** Lemmas *)

Lemma _freeze_id v : _freeze v = v.
Proof.
  induction v as [| | | | |l IH|l IH|] using json_nested_ind; simpl; try done.
  - f_equal. induction IH as [|x l Hx _ IHl]; csimpl; [done|]. by rewrite Hx, IHl.
  - f_equal. induction IH as [|[k x] l Hx _ IHl]; csimpl in *; [done|]. by rewrite Hx, IHl.
Qed.

Lemma policy_check_Ok p d c u :
  policy_check p d c = Ok u <->
  td_id d ∈ tc_workflow_allowed_tools c /\
  (forall x, x ∈ td_required_capabilities d -> x ∈ tc_granted_capabilities c) /\
  td_risk d <> PROHIBITED /\
  (td_risk d = EXTERNAL_WRITE ->
     external_writes_enabled p = true /\ default false (frozen_probe p) = false).
Proof.
  assert (missing_capabilities d c = [] <->
    forall x, x ∈ td_required_capabilities d -> x ∈ tc_granted_capabilities c) as Hm.
  { unfold missing_capabilities. induction (td_required_capabilities d) as [|x l IH]; simpl.
    - set_solver.
    - destruct (mem_b x (tc_granted_capabilities c)) eqn:E; autorewrite with pa in E; simpl.
      + rewrite IH. set_solver.
      + split; [discriminate|]. intros Hall. exfalso. apply E, Hall. set_solver. }
  unfold policy_check. rewrite <- Hm, <- mem_b_true. split.
  - intros H. unfold raise_if in H. run_guards H; bool_props; split_and!; try done;
      intros; bool_props; naive_solver.
  - intros (-> & -> & Hp & Hx). destruct u. simpl.
    destruct (td_risk d); try done. destruct Hx as [-> ->]; done.
Qed.
