(* ===== verification/Approvals.v ===== *)
(** * Approvals: exact, expiring, one-use approvals

    Models [core/approvals/state_machine.py] and [core/approvals/service.py]: the transition
    table, the binding and its canonical envelope, the compare-and-swap repository, and the
    prepare / approve / reject / consume / finish service.  A service method is a [prog] over
    the repository signature [apprE] and the clock: each repository call is one atomic step, so
    the interleavings of concurrent callers are those of the code. *)

From S2P Require Import Prelude Text Sha256 Json JsonParse Domain.
Local Open Scope string_scope.
Local Open Scope Z_scope.

(** ** Transition policy ([state_machine.py]) *)

Definition approval_allowed (s : ApprovalState.t) : list ApprovalState.t :=
  match s with
  | ApprovalState.DRAFT => [ApprovalState.PREPARED; ApprovalState.CANCELLED]
  | ApprovalState.PREPARED => [ApprovalState.WAITING_APPROVAL; ApprovalState.CANCELLED]
  | ApprovalState.WAITING_APPROVAL =>
      [ApprovalState.APPROVED; ApprovalState.EXPIRED; ApprovalState.CANCELLED]
  | ApprovalState.APPROVED =>
      [ApprovalState.EXECUTING; ApprovalState.EXPIRED; ApprovalState.CANCELLED]
  | ApprovalState.EXECUTING =>
      [ApprovalState.SUCCEEDED; ApprovalState.FAILED; ApprovalState.UNKNOWN]
  | ApprovalState.SUCCEEDED | ApprovalState.FAILED | ApprovalState.UNKNOWN
  | ApprovalState.EXPIRED | ApprovalState.CANCELLED => []
  end.

Definition ensure_approval_transition (current target : ApprovalState.t) : result unit :=
  raise_if (negb (mem_b target (approval_allowed current))) InvalidStateTransitionError
    ("state transition is not allowed: " ++ ApprovalState.value current ++ " -> "
     ++ ApprovalState.value target).

Definition MAX_APPROVAL_TTL : Z := minutes 5.

(** ** Bindings and records *)

Record ApprovalBinding := {
  b_action_type : string;
  b_task_id : string;
  b_tool_id : string;
  b_tool_version : string;
  b_extension_id : string;
  b_extension_version : string;
  b_target : json;
  b_payload : json;
  b_attachments : list AttachmentDigest;
  b_form_version : option string
}.
#[export] Instance ApprovalBinding_eta : Eta ApprovalBinding := fun r =>
  Build_ApprovalBinding (b_action_type r) (b_task_id r) (b_tool_id r) (b_tool_version r)
    (b_extension_id r) (b_extension_version r) (b_target r) (b_payload r) (b_attachments r)
    (b_form_version r).

Definition check_binding (b : ApprovalBinding) : result ApprovalBinding :=
  _ ← raise_if (blank (b_action_type b) || blank (b_task_id b) || blank (b_tool_id b)
                || blank (b_tool_version b) || blank (b_extension_id b)
                || blank (b_extension_version b))
        ValidationError "approval binding identity fields are required";
  Ok b.

Definition opt_str (o : option string) : json := match o with Some s => JStr s | None => JNull end.

Definition attachment_json (a : AttachmentDigest) : json :=
  JObj [("name", JStr (att_name a)); ("sha256", JStr (att_sha256 a));
        ("size_bytes", JInt (att_size_bytes a))].

Definition envelope (b : ApprovalBinding) : json :=
  JObj [("action_type", JStr (b_action_type b));
        ("task_id", JStr (b_task_id b));
        ("tool_id", JStr (b_tool_id b));
        ("tool_version", JStr (b_tool_version b));
        ("extension_id", JStr (b_extension_id b));
        ("extension_version", JStr (b_extension_version b));
        ("target", b_target b);
        ("payload", b_payload b);
        ("attachments", JList (attachment_json <$> b_attachments b));
        ("form_version", opt_str (b_form_version b))].

Record ApprovalRecord := {
  ap_id : string;
  ap_state : ApprovalState.t;
  action_fingerprint : string;
  canonical_action : string;
  ap_nonce : string;
  ap_created_at : time;
  expires_at : time;
  ap_version : Z;
  approved_at : option time;
  approved_by : option string;
  consumed_at : option time;
  completed_at : option time;
  result_reference : option string;
  failure_reason : option string
}.
#[export] Instance ApprovalRecord_eta : Eta ApprovalRecord := fun r =>
  Build_ApprovalRecord (ap_id r) (ap_state r) (action_fingerprint r) (canonical_action r)
    (ap_nonce r) (ap_created_at r) (expires_at r) (ap_version r) (approved_at r)
    (approved_by r) (consumed_at r) (completed_at r) (result_reference r) (failure_reason r).

(** [ApprovalRecord.action] *)
Definition action (r : ApprovalRecord) : result json := loads (canonical_action r).

(** ** [InMemoryApprovalRepository]: each method runs under the repository lock. *)

Notation approvals := (gmap string ApprovalRecord) (only parsing).

Definition repo_create (record : ApprovalRecord) : M (gmap string ApprovalRecord) unit :=
  m ← get_state;
  match m !! ap_id record with
  | Some _ => raise AlreadyExistsError ("approval already exists: " ++ ap_id record)
  | None => put_state (<[ap_id record := record]> m)
  end.

Definition repo_get (approval_id : string) : M (gmap string ApprovalRecord) ApprovalRecord :=
  m ← get_state;
  match m !! approval_id with
  | Some r => mret r
  | None => raise NotFoundError ("approval not found: " ++ approval_id)
  end.

Definition repo_save (record : ApprovalRecord) (expected_version : Z)
  : M (gmap string ApprovalRecord) ApprovalRecord :=
  m ← get_state;
  match m !! ap_id record with
  | None => raise NotFoundError ("approval not found: " ++ ap_id record)
  | Some current =>
      if negb (ap_version current =? expected_version) then
        raise ConcurrentModificationError
          ("approval " ++ ap_id record ++ " expected version " ++ str_of_Z expected_version
           ++ ", found " ++ str_of_Z (ap_version current))
      else
        let saved := record {{ ap_version := expected_version + 1 }} in
        _ ← put_state (<[ap_id record := saved]> m);
        mret saved
  end.

(** ** The repository signature *)

Inductive apprE : Type -> Type :=
| ACreate (record : ApprovalRecord) : apprE unit
| AGet (approval_id : string) : apprE ApprovalRecord
| ASave (record : ApprovalRecord) (expected_version : Z) : apprE ApprovalRecord.

Definition apprE_handle {X} (op : apprE X) : M (gmap string ApprovalRecord) X :=
  match op with
  | ACreate r => repo_create r
  | AGet i => repo_get i
  | ASave r v => repo_save r v
  end.

(** ** [ApprovalService] *)

Section service.
Context {F : Type -> Type} `{SubE apprE F} `{SubE envE F}.

Definition is_expirable (r : ApprovalRecord) : bool :=
  match ap_state r with
  | ApprovalState.WAITING_APPROVAL | ApprovalState.APPROVED => true
  | _ => false
  end.

Definition expire (record : ApprovalRecord) : prog F ApprovalRecord :=
  if negb (is_expirable record) then Ret record else
  _ ← of_result (ensure_approval_transition (ap_state record) ApprovalState.EXPIRED);
  call (ASave (record {{ ap_state := ApprovalState.EXPIRED;
                         completed_at := Some (expires_at record);
                         failure_reason := Some "approval expired" }}) (ap_version record)).

Definition prepare (binding : ApprovalBinding) (now : option time) (ttl : Z)
  : prog F ApprovalRecord :=
  current_time ← now_or now;
  if (ttl <=? 0) || (MAX_APPROVAL_TTL <? ttl) then
    raise_prog ValidationError "approval ttl must be positive and at most 5 minutes"
  else
    normalized ← of_result (normalize_json (envelope binding));
    encoded ← of_result (canonical_json normalized);
    id ← call NewUuid;
    fp ← of_result (canonical_sha256 normalized);
    nonce ← call NewToken;
    let record := {| ap_id := id; ap_state := ApprovalState.WAITING_APPROVAL;
      action_fingerprint := fp; canonical_action := encoded; ap_nonce := nonce;
      ap_created_at := current_time; expires_at := current_time + ttl; ap_version := 0;
      approved_at := None; approved_by := None; consumed_at := None; completed_at := None;
      result_reference := None; failure_reason := None |} in
    _ ← call (ACreate record);
    Ret record.

Definition get (approval_id : string) (now : option time) (refresh_expiry : bool)
  : prog F ApprovalRecord :=
  record ← call (AGet approval_id);
  current_time ← now_or now;
  if refresh_expiry && is_expirable record && (expires_at record <=? current_time)
  then expire record else Ret record.

Definition approve (approval_id nonce actor_id : string) (now : option time)
  : prog F ApprovalRecord :=
  current_time ← now_or now;
  record ← call (AGet approval_id);
  if is_expirable record && (expires_at record <=? current_time) then
    _ ← expire record; raise_prog ApprovalExpiredError ("approval expired: " ++ approval_id)
  else if negb (bool_decide (ap_state record = ApprovalState.WAITING_APPROVAL)) then
    raise_prog ApprovalStateError
      ("approval " ++ approval_id ++ " is " ++ ApprovalState.value (ap_state record)
       ++ ", not waiting")
  else if blank actor_id then raise_prog ValidationError "actor_id is required"
  else if negb (bool_decide (ap_nonce record = nonce)) then
    raise_prog InvalidApprovalNonceError "approval nonce does not match"
  else
    _ ← of_result (ensure_approval_transition (ap_state record) ApprovalState.APPROVED);
    call (ASave (record {{ ap_state := ApprovalState.APPROVED;
                           approved_at := Some current_time;
                           approved_by := Some actor_id }}) (ap_version record)).

Definition reject (approval_id : string) (now : option time) (reason : option string)
  : prog F ApprovalRecord :=
  record ← call (AGet approval_id);
  if negb (is_expirable record) then
    raise_prog ApprovalStateError
      ("approval cannot be rejected from " ++ ApprovalState.value (ap_state record))
  else
    _ ← of_result (ensure_approval_transition (ap_state record) ApprovalState.CANCELLED);
    t ← now_or now;
    call (ASave (record {{ ap_state := ApprovalState.CANCELLED;
                           completed_at := Some t;
                           failure_reason := Some (str_or reason "rejected by user") }})
                (ap_version record)).

Definition consume_for_execution (approval_id : string) (binding : ApprovalBinding)
    (now : option time) : prog F ApprovalRecord :=
  current_time ← now_or now;
  record ← call (AGet approval_id);
  if is_expirable record && (expires_at record <=? current_time) then
    _ ← expire record; raise_prog ApprovalExpiredError ("approval expired: " ++ approval_id)
  else if negb (bool_decide (ap_state record = ApprovalState.APPROVED)) then
    raise_prog ApprovalStateError
      ("approval " ++ approval_id ++ " is " ++ ApprovalState.value (ap_state record)
       ++ ", not approved")
  else
    presented ← of_result (canonical_sha256 (envelope binding));
    if negb (bool_decide (action_fingerprint record = presented)) then
      _ ← of_result (ensure_approval_transition (ap_state record) ApprovalState.CANCELLED);
      _ ← call (ASave (record {{ ap_state := ApprovalState.CANCELLED;
                                 completed_at := Some current_time;
                                 failure_reason := Some "approved action changed after preview" }})
                      (ap_version record));
      raise_prog ApprovalBindingMismatchError
        "target, payload, attachment or extension version changed"
    else
      _ ← of_result (ensure_approval_transition (ap_state record) ApprovalState.EXECUTING);
      call (ASave (record {{ ap_state := ApprovalState.EXECUTING;
                             consumed_at := Some current_time }}) (ap_version record)).

Definition finish (approval_id : string) (target : ApprovalState.t) (now : option time)
    (reference reason : option string) : prog F ApprovalRecord :=
  record ← call (AGet approval_id);
  if negb (bool_decide (ap_state record = ApprovalState.EXECUTING)) then
    raise_prog ApprovalStateError
      ("approval action cannot finish from " ++ ApprovalState.value (ap_state record))
  else
    _ ← of_result (ensure_approval_transition (ap_state record) target);
    t ← now_or now;
    call (ASave (record {{ ap_state := target;
                           completed_at := Some t;
                           result_reference := reference;
                           failure_reason := reason }}) (ap_version record)).

Definition mark_succeeded (approval_id reference : string) (now : option time)
  : prog F ApprovalRecord := finish approval_id ApprovalState.SUCCEEDED now (Some reference) None.

Definition mark_failed (approval_id reason : string) (now : option time)
  : prog F ApprovalRecord := finish approval_id ApprovalState.FAILED now None (Some reason).

Definition mark_unknown (approval_id reference_id : string) (now : option time)
  : prog F ApprovalRecord := finish approval_id ApprovalState.UNKNOWN now (Some reference_id) None.

End service.
