(* ===== verification/ApprovalBinding.v ===== *)
(** * ApprovalBinding: the action that is executed is the action that was previewed

    The preview a user approves is read back from the record's canonical text, and a consumption
    compares fingerprints; by the faithfulness of the canonical form ([JsonRoundTrip]) a matching
    fingerprint means the same action, unless two different texts have one SHA-256 digest. *)

From S2P Require Import Prelude Text Sha256 Json JsonParse JsonRoundTrip Domain Approvals.
Local Open Scope string_scope.
Local Open Scope Z_scope.

(** Two bindings describe one action: equal identities, attachments and form version, and targets
    and payloads that are equal JSON values. *)
Definition same_action (a b : ApprovalBinding) : Prop :=
  b_action_type a = b_action_type b /\ b_task_id a = b_task_id b /\
  b_tool_id a = b_tool_id b /\ b_tool_version a = b_tool_version b /\
  b_extension_id a = b_extension_id b /\ b_extension_version a = b_extension_version b /\
  json_same (b_target a) (b_target b) = true /\ json_same (b_payload a) (b_payload b) = true /\
  b_attachments a = b_attachments b /\ b_form_version a = b_form_version b.

Definition exact_binding (b : ApprovalBinding) : bool :=
  json_exact (b_target b) && json_exact (b_payload b).

Lemma attachment_exact a : json_exact (attachment_json a) = true.
Proof. by vm_compute. Qed.

Lemma envelope_exact b : exact_binding b = true -> json_exact (envelope b) = true.
Proof.
  intros H. unfold exact_binding in H. bool_props. cbn [json_exact envelope].
  rewrite andb_true_iff, bool_decide_eq_true. split; [by apply (bool_decide_unpack _)|].
  cbn [forallb snd json_exact]. rewrite H, H0. cbn [andb]. rewrite !andb_true_iff. split_and!; [|by destruct (b_form_version b)|done].
  apply forallb_Forall, Forall_fmap, Forall_forall. intros a _. apply attachment_exact.
Qed.

Lemma attachments_same l m :
  json_same (JList (attachment_json <$> l)) (JList (attachment_json <$> m)) = true -> l = m.
Proof.
  revert m; induction l as [|a l IH]; intros [|b m]; try discriminate; [done|].
  rewrite !fmap_cons. cbn [json_same]. intros [H1 H2]%andb_true_iff.
  f_equal; [|by apply IH]. destruct a, b. cbn in H1. bool_props. simpl in *. bool_props. congruence.
Qed.

Lemma opt_str_same o p : json_same (opt_str o) (opt_str p) = true -> o = p.
Proof. destruct o, p; simpl; intros H; try discriminate; bool_props; congruence. Qed.

Lemma envelope_same a b : json_same (envelope a) (envelope b) = true -> same_action a b.
Proof.
  unfold envelope. cbn [json_same]. intros [_ H]%andb_true_iff. cbn [forallb fst snd] in H.
  repeat match type of H with
  | _ && _ = true => let H' := fresh "H" in apply andb_true_iff in H as [H' H]
  end.
  simpl in H0, H1, H2, H3, H4, H5, H6, H7. bool_props.
  unfold same_action. split_and!; try done; [by apply attachments_same|by apply opt_str_same].
Qed.

(** ** Normalisation is idempotent *)

Lemma canonical_of_normalized v w : json_exact v = true -> normalize_json v = Ok w ->
  canonical_json w = canonical_json v.
Proof.
  intros He Hn. unfold normalize_json in Hn. rewrite normalize_canon in Hn by done. injection Hn as <-.
  destruct (canonical_exact (canon v) (canon_canonical v He)) as [He' Hc].
  unfold canonical_json, normalize_json. by rewrite !normalize_canon, Hc by done.
Qed.

(** ** Preparing and consuming *)

Section service.
Context {F : Type -> Type} `{!SubE apprE F} `{!SubE envE F}.

(** Run a program that succeeded through its first statement. *)
Ltac step H a := apply execs_bind in H as (? & ? & [a|] & -> & ? & H); [|by destruct H].

Lemma prepare_record b now ttl tr record : exact_binding b = true ->
  execs (prepare (F := F) b now ttl) tr (Ok record) ->
  canonical_json (envelope b) = Ok (canonical_action record) /\
  canonical_sha256 (envelope b) = Ok (action_fingerprint record).
Proof.
  intros He%envelope_exact H. unfold prepare in H. step H t0. destruct (_ || _); [by destruct H|].
  step H normalized. apply execs_of_result in H1 as [-> Hn]. symmetry in Hn.
  step H encoded. apply execs_of_result in H1 as [-> Hj]. symmetry in Hj.
  step H i. step H fp. apply execs_of_result in H2 as [-> Hfp]. symmetry in Hfp.
  step H nonce. step H u. destruct H as [-> [= ->]]. cbn [canonical_action action_fingerprint].
  rewrite (canonical_of_normalized (envelope b)) in Hj by done. split; [done|].
  unfold canonical_sha256 in *. by rewrite (canonical_of_normalized (envelope b)) in Hfp.
Qed.

(** A successful consumption compared the fingerprint it presented with the record it read. *)
Lemma consume_reads approval_id b now tr record :
  execs (consume_for_execution (F := F) approval_id b now) tr (Ok record) ->
  exists read, Event (inject _ (AGet approval_id)) (Ok read) ∈ tr /\
    canonical_sha256 (envelope b) = Ok (action_fingerprint read).
Proof.
  intros H. unfold consume_for_execution in H. step H t0. step H read. apply execs_call in H1 as ->.
  exists read. split; [set_solver|].
  destruct (_ && _); [step H r1; by destruct H|]. destruct (negb _); [by destruct H|].
  step H fp. apply execs_of_result in H1 as [-> Hfp]. rewrite <- Hfp. f_equal.
  destruct (negb (bool_decide _)) eqn:E; [step H u1; step H u2; by destruct H|]. by bool_props.
Qed.

(** C34. What is executed is what the user saw, for actions whose target and payload hold no floating-point
    number, no value outside JSON and no repeated key.  The preview of a prepared approval, read back from
    the record, is then the normalised action; and a consumption that succeeds has read the approval, and
    if that approval carries the prepared fingerprint, the binding presented for execution describes
    the same action as the prepared one (tool, versions, target, payload, attachments, form version),
    unless the two canonical texts are a SHA-256 collision. *)
Theorem consumed_action_is_the_previewed_one b b' now now' ttl approval_id tr tr' prepared consumed :
  exact_binding b = true -> exact_binding b' = true ->
  execs (prepare (F := F) b now ttl) tr (Ok prepared) ->
  execs (consume_for_execution (F := F) approval_id b' now') tr' (Ok consumed) ->
  action prepared = normalize_json (envelope b) /\
  exists read, Event (inject _ (AGet approval_id)) (Ok read) ∈ tr' /\
    (action_fingerprint read = action_fingerprint prepared ->
     same_action b b' \/ sha256_collision (envelope b) (envelope b')).
Proof.
  intros He He' Hp Hc. destruct (prepare_record b now ttl tr prepared He Hp) as [Hj Hs].
  apply envelope_exact in He, He'. split.
  - unfold action. destruct (loads_canonical (envelope b) He) as (t & Ht & Hl). congruence.
  - destruct (consume_reads _ _ _ _ _ Hc) as (read & Hin & Hf). exists read. split; [done|]. intros E.
    rewrite E in Hf. destruct (canonical_sha256_binds _ _ _ He He' Hs Hf); [left; by apply envelope_same|by right].
Qed.
End service.

(** ** A run: the payload is presented with its keys in another order *)

Module BindingScenario.

Inductive E : Type -> Type :=
| Appr {X} (op : apprE X) : E X
| Env {X} (op : envE X) : E X.
#[export] Instance SubE_appr : SubE apprE E := fun X op => Appr op.
#[export] Instance SubE_env : SubE envE E := fun X op => Env op.

Definition answer (X : Type) (op : E X) : M (gmap string ApprovalRecord) X := fun s =>
  match op in E X return gmap string ApprovalRecord * result X with
  | Appr op => apprE_handle op s
  | Env op => (s, match op in envE X return result X with Now => Ok 0 | NewUuid => Ok "a1" | NewToken => Ok "n1" end)
  end.

Definition binding (payload : json) : ApprovalBinding :=
  {| b_action_type := "tool"; b_task_id := "t"; b_tool_id := "mail.send"; b_tool_version := "1";
     b_extension_id := "smail"; b_extension_version := "1"; b_target := JStr "x@y"; b_payload := payload;
     b_attachments := [{| att_name := "f"; att_sha256 := "00"; att_size_bytes := 3 |}]; b_form_version := None |}.

Definition shown : ApprovalBinding := binding (JObj [("to", JStr "x@y"); ("body", JStr "hi")]).
Definition presented : ApprovalBinding := binding (JObj [("body", JStr "hi"); ("to", JStr "x@y")]).

Definition preparing : prog E ApprovalRecord := prepare shown (Some 5) (minutes 5).
Definition prepared : gmap string ApprovalRecord := (run answer preparing ∅).1.
Definition approved : gmap string ApprovalRecord :=
  (run answer (approve "a1" "n1" "user" (Some 6) : prog E ApprovalRecord) prepared).1.
Definition consuming : prog E ApprovalRecord := consume_for_execution "a1" presented (Some 7).

Definition outcome (r : result ApprovalRecord) : ApprovalRecord :=
  match r with
  | Ok a => a
  | Err e => {| ap_id := exn_msg e; ap_state := ApprovalState.DRAFT; action_fingerprint := "";
      canonical_action := ""; ap_nonce := ""; ap_created_at := 0; expires_at := 0; ap_version := 0;
      approved_at := None; approved_by := None; consumed_at := None; completed_at := None;
      result_reference := None; failure_reason := None |}
  end.

Definition p : ApprovalRecord := outcome (trace_run answer preparing ∅).2.
Definition c : ApprovalRecord := outcome (trace_run answer consuming approved).2.

End BindingScenario.

Lemma consumed_action_is_the_previewed_one_witness :
  ap_state BindingScenario.c = ApprovalState.EXECUTING /\
  action_fingerprint BindingScenario.c = action_fingerprint BindingScenario.p /\
  action BindingScenario.p = normalize_json (envelope BindingScenario.shown) /\
  exists read, Event (BindingScenario.Appr (AGet "a1")) (Ok read)
      ∈ (trace_run BindingScenario.answer BindingScenario.consuming BindingScenario.approved).1 /\
    (action_fingerprint read = action_fingerprint BindingScenario.p ->
     same_action BindingScenario.shown BindingScenario.presented
     \/ sha256_collision (envelope BindingScenario.shown) (envelope BindingScenario.presented)).
Proof.
  split; [vm_compute; reflexivity|]. split; [vm_compute; reflexivity|].
  refine (consumed_action_is_the_previewed_one BindingScenario.shown BindingScenario.presented
            (Some 5) (Some 7) (minutes 5) "a1"
            (trace_run BindingScenario.answer BindingScenario.preparing ∅).1
            (trace_run BindingScenario.answer BindingScenario.consuming BindingScenario.approved).1
            BindingScenario.p BindingScenario.c eq_refl eq_refl _ _).
  - assert (Ok BindingScenario.p = (trace_run BindingScenario.answer BindingScenario.preparing ∅).2) as ->
      by (vm_compute; reflexivity). apply trace_run_execs.
  - assert (Ok BindingScenario.c
      = (trace_run BindingScenario.answer BindingScenario.consuming BindingScenario.approved).2) as ->
      by (vm_compute; reflexivity). apply trace_run_execs.
Defined.
