(* ===== verification/Outbox.v ===== *)
(** * Outbox: durable intents for external actions

    Models [core/jobs/outbox.py] and [infrastructure/memory/outbox.py].  The outbox lock is an
    explicit operation, because the body of [create_with_approval_consumption] awaits the
    approval service while holding it. *)

From S2P Require Import Prelude Text Json Domain Approvals.
Local Open Scope string_scope.
Local Open Scope Z_scope.

Module SideEffectState.
Inductive t := PREPARED | EXECUTING | SUCCEEDED | FAILED | UNKNOWN.

#[global] Instance side_effect_state_eq_dec : EqDecision t.
Proof. solve_decision. Defined.

Definition terminal (s : t) : bool :=
  match s with SUCCEEDED | FAILED | UNKNOWN => true | _ => false end.
End SideEffectState.

Record SideEffectIntent := {
  in_id : string;
  in_task_id : string;
  in_tool_id : string;
  in_idempotency_key : string;
  in_approval_id : string;
  in_payload_sha256 : string;
  in_state : SideEffectState.t;
  in_created_at : time;
  in_action_fingerprint : string;
  in_receipt : json
}.
#[export] Instance SideEffectIntent_eta : Eta SideEffectIntent := fun r =>
  Build_SideEffectIntent (in_id r) (in_task_id r) (in_tool_id r) (in_idempotency_key r)
    (in_approval_id r) (in_payload_sha256 r) (in_state r) (in_created_at r)
    (in_action_fingerprint r) (in_receipt r).

(** ** The in-memory store *)

Record OutboxStore := {
  ob_intents : gmap string SideEffectIntent;
  ob_keys : gset (string * string);
  ob_locked : bool
}.
#[export] Instance OutboxStore_eta : Eta OutboxStore := fun r =>
  Build_OutboxStore (ob_intents r) (ob_keys r) (ob_locked r).

Definition empty_outbox : OutboxStore := {| ob_intents := ∅; ob_keys := ∅; ob_locked := false |}.

(** [_finish], whose whole body runs under the lock without awaiting. *)
Definition outbox_finish (intent_id : string) (state : SideEffectState.t) (receipt : option json)
  : M OutboxStore unit :=
  s ← get_state;
  match ob_intents s !! intent_id with
  | None => raise NotFoundError ("side-effect intent not found: " ++ intent_id)
  | Some intent =>
      put_state (s {{ ob_intents := <[intent_id :=
        intent {{ in_state := state; in_receipt := default (in_receipt intent) receipt }}]>
          (ob_intents s) }})
  end.

Definition outbox_record (key : string * string) (intent : SideEffectIntent) : M OutboxStore unit :=
  s ← get_state;
  put_state (s {{ ob_keys := {[key]} ∪ ob_keys s;
                  ob_intents := <[in_id intent := intent]> (ob_intents s) }}).

Inductive outE : Type -> Type :=
| OAcquire : outE unit
| ORelease : outE unit
| OHasKey (key : string * string) : outE bool
| ORecord (key : string * string) (intent : SideEffectIntent) : outE unit
| OFinish (intent_id : string) (state : SideEffectState.t) (receipt : option json) : outE unit.

(** The answer of an operation, [None] when the caller has to wait for the lock. *)
Definition outE_handle {X} (op : outE X) (s : OutboxStore) : option (OutboxStore * result X) :=
  match op with
  | OAcquire => if ob_locked s then None else Some (s {{ ob_locked := true }}, Ok tt)
  | ORelease => Some (s {{ ob_locked := false }}, Ok tt)
  | OHasKey k => Some (s, Ok (bool_decide (k ∈ ob_keys s)))
  | ORecord k i => Some (outbox_record k i s)
  | OFinish i st r => if ob_locked s then None else Some (outbox_finish i st r s)
  end.

(** ** Rebuilding the binding from the stored preview *)

Definition item (d : list (string * json)) (k : string) : result json :=
  match assoc k d with Some v => Ok v | None => fail PyKeyError k end.

Definition item_str (d : list (string * json)) (k : string) : result string :=
  v ← item d k;
  match v with JStr s => Ok s | _ => fail PyTypeError "expected str" end.

Definition attachment_of_json (v : json) : result AttachmentDigest :=
  match v with
  | JObj d =>
      name ← item_str d "name";
      sha ← item_str d "sha256";
      size ← item d "size_bytes";
      match size with
      | JInt n => make_attachment name sha n
      | _ => fail PyTypeError "expected int"
      end
  | _ => fail PyTypeError "string indices must be integers"
  end.

Definition _binding_from_record (record : ApprovalRecord) : result ApprovalBinding :=
  v ← action record;
  match v with
  | JObj d =>
      attachments ← match default JNull (assoc "attachments" d) with
                    | JList l => result_map attachment_of_json l
                    | _ => Ok []
                    end;
      action_type ← item_str d "action_type";
      task_id ← item_str d "task_id";
      tool_id ← item_str d "tool_id";
      tool_version ← item_str d "tool_version";
      extension_id ← item_str d "extension_id";
      extension_version ← item_str d "extension_version";
      check_binding {| b_action_type := action_type; b_task_id := task_id; b_tool_id := tool_id;
        b_tool_version := tool_version; b_extension_id := extension_id;
        b_extension_version := extension_version;
        b_target := default JNull (assoc "target" d);
        b_payload := default JNull (assoc "payload" d);
        b_attachments := attachments;
        b_form_version := match assoc "form_version" d with Some (JStr s) => Some s | _ => None end |}
  | _ => fail PyTypeError "approval action is not an object"
  end.

(** ** [InMemorySideEffectOutbox] *)

Section outbox.
Context {F : Type -> Type} `{SubE apprE F} `{SubE envE F} `{SubE outE F}.

(** [async with self._lock: body] *)
Definition with_lock {A} (body : prog F A) : prog F A :=
  _ ← call OAcquire;
  prog_match body (fun a => _ ← call ORelease; Ret a) (fun e => _ ← call ORelease; Raise e).

Definition create_with_approval_consumption (intent : SideEffectIntent) : prog F unit :=
  if bool_decide (in_action_fingerprint intent = "") then
    raise_prog ValidationError "side-effect intent requires the complete action fingerprint"
  else with_lock (
    let key := (in_tool_id intent, in_idempotency_key intent) in
    used ← call (OHasKey key);
    if (used : bool) then
      raise_prog ValidationError "side-effect intent idempotency key was reused"
    else
      record ← get (in_approval_id intent) None true;
      if bool_decide (ap_state record = ApprovalState.EXPIRED) then
        raise_prog ApprovalExpiredError ("approval expired: " ++ in_approval_id intent)
      else if negb (bool_decide (ap_state record = ApprovalState.APPROVED)) then
        raise_prog ApprovalStateError
          ("approval " ++ in_approval_id intent ++ " is " ++ ApprovalState.value (ap_state record)
           ++ ", not approved")
      else
        act ← of_result (action record);
        let task_ok := match act with
                       | JObj d => bool_decide (assoc "task_id" d = Some (JStr (in_task_id intent)))
                       | _ => false
                       end in
        if negb (bool_decide (action_fingerprint record = in_action_fingerprint intent))
           || negb task_ok then
          _ ← reject (in_approval_id intent) None (Some "approved action changed after preview");
          raise_prog ApprovalBindingMismatchError
            "target, payload, attachment or extension version changed"
        else
          binding ← of_result (_binding_from_record record);
          _ ← consume_for_execution (in_approval_id intent) binding None;
          call (ORecord key intent)).

Definition outbox_finalize (intent_id approval_id : string) (state : SideEffectState.t)
    (reference reason diagnostic : option string) (receipt : option json) : prog F unit :=
  _ ← call (OFinish intent_id state receipt);
  _ ← match state with
      | SideEffectState.SUCCEEDED => mark_succeeded approval_id (str_or reference "") None
      | SideEffectState.FAILED => mark_failed approval_id (str_or reason "failed") None
      | _ => mark_unknown approval_id (str_or reference "unknown") None
      end;
  Ret tt.

End outbox.
