(* ===== verification/Gateway.v ===== *)
(** * Gateway: the only path from a plan to a tool side effect

    Models [core/tools/gateway.py].  [invoke] is a [prog] over the approval repository, the
    outbox, the clock and the operations below; the executor is external code, so [GExecute] may
    answer with any value or exception. *)

From S2P Require Import Prelude Text PyFloat Sha256 Json Schemas Domain Tools Approvals Outbox.
Local Open Scope string_scope.
Local Open Scope Z_scope.

Record ToolExecutionContext := {
  x_attempt_id : string;
  x_task_id : string;
  x_idempotency_key : string;
  x_approval_id : option string
}.
#[export] Instance ToolExecutionContext_eta : Eta ToolExecutionContext := fun r =>
  Build_ToolExecutionContext (x_attempt_id r) (x_task_id r) (x_idempotency_key r)
    (x_approval_id r).

Record InvocationAuditEvent := {
  ev_type : string;
  ev_attempt_id : string;
  ev_task_id : string;
  ev_tool_id : string;
  ev_tool_version : string;
  ev_extension_id : string;
  ev_risk : string;
  ev_occurred_at : time;
  ev_detail : json
}.
#[export] Instance InvocationAuditEvent_eta : Eta InvocationAuditEvent := fun r =>
  Build_InvocationAuditEvent (ev_type r) (ev_attempt_id r) (ev_task_id r) (ev_tool_id r)
    (ev_tool_version r) (ev_extension_id r) (ev_risk r) (ev_occurred_at r) (ev_detail r).

Inductive gwE : Type -> Type :=
| GSnapshot : gwE RegistrySnapshot
| GPolicy : gwE ToolPolicy
| GAudit (ev : InvocationAuditEvent) : gwE unit
| GNotify (task_id : string) (risk : string) : gwE unit
| GExecute (descriptor : ToolDescriptor) (arguments : json) (context : ToolExecutionContext)
  : gwE json.

(** [type(exc).__name__] *)
Definition exn_name (c : exn_class) : string :=
  match c with
  | PyException => "Exception" | PyRuntimeError => "RuntimeError" | PyValueError => "ValueError"
  | PyKeyError => "KeyError" | PyIndexError => "IndexError" | PyTypeError => "TypeError" | PyTimeoutError => "TimeoutError"
  | PyCancelledError => "CancelledError" | DomainError => "DomainError"
  | ValidationError => "ValidationError" | NotFoundError => "NotFoundError"
  | AlreadyExistsError => "AlreadyExistsError"
  | ConcurrentModificationError => "ConcurrentModificationError"
  | InvalidStateTransitionError => "InvalidStateTransitionError"
  | CanonicalizationError => "CanonicalizationError"
  | SchemaValidationError => "SchemaValidationError" | ApprovalError => "ApprovalError"
  | ApprovalExpiredError => "ApprovalExpiredError" | ApprovalStateError => "ApprovalStateError"
  | ApprovalBindingMismatchError => "ApprovalBindingMismatchError"
  | InvalidApprovalNonceError => "InvalidApprovalNonceError"
  | ToolPolicyError => "ToolPolicyError" | ProhibitedToolError => "ProhibitedToolError"
  | ToolRuntimeError => "ToolRuntimeError" | DefinitiveToolFailure => "DefinitiveToolFailure"
  | OutcomeUnknownError => "OutcomeUnknownError"
  | UserActionRequiredError => "UserActionRequiredError"
  | ExtensionUnavailableError => "ExtensionUnavailableError"
  | LeaseConflict => "LeaseConflict" | LeaseLost => "LeaseLost"
  | DisclosureDenied => "DisclosureDenied" | WorkflowBindingConflict => "WorkflowBindingConflict"
  | DisclosureError => "DisclosureError"
  | DisclosureDeniedError => "DisclosureDeniedError"
  | DisclosureStateError => "DisclosureStateError"
  | DisclosurePreviewMismatchError => "DisclosurePreviewMismatchError"
  | DisclosureIdempotencyConflictError => "DisclosureIdempotencyConflictError"
  | DisclosureRecipientUnknownError => "DisclosureRecipientUnknownError"
  | DisclosureConsentNotFoundError => "DisclosureConsentNotFoundError"
  | BrowserError => "BrowserError"
  | BrowserPolicyError => "BrowserPolicyError"
  | BrowserLimitError => "BrowserLimitError"
  | NavigationDeniedError => "NavigationDeniedError"
  | ProhibitedTransactionError => "ProhibitedTransactionError"
  | BrowserSessionStateError => "BrowserSessionStateError"
  | PageDriftError => "PageDriftError"
  | PreviewExpiredError => "PreviewExpiredError"
  | UnknownBrowserOutcomeError => "UnknownBrowserOutcomeError"
  | ExtensionError => "ExtensionError"
  | ManifestValidationError => "ManifestValidationError"
  | DuplicateCapabilityError => "DuplicateCapabilityError"
  | InvalidLifecycleTransition => "InvalidLifecycleTransition"
  | ConfirmationRequiredError => "ConfirmationRequiredError"
  | ExtensionOperationError => "ExtensionOperationError"
  | RpcCallError => "RpcCallError"
  | RpcTimeoutError => "RpcTimeoutError"
  | DataAccessError => "DataAccessError"
  | ArtifactAccessError => "ArtifactAccessError"
  | ExtensionConfigError => "ExtensionConfigError"
  | MailError => "MailError"
  | MailAccountNotFoundError => "MailAccountNotFoundError"
  | MailLedgerConflictError => "MailLedgerConflictError"
  | MailLedgerStateError => "MailLedgerStateError"
  | RpcProtocolError => "RpcProtocolError"
  | SendAborted => "_SendAborted"
  | SMTPException => "SMTPException"
  | SMTPServerDisconnected => "SMTPServerDisconnected"
  | SMTPAuthenticationError => "SMTPAuthenticationError"
  | SMTPNotSupportedError => "SMTPNotSupportedError"
  | SSLError => "SSLError"
  | SSLCertVerificationError => "SSLCertVerificationError"
  | PyOSError => "OSError" | PyOverflowError => "OverflowError"
  end.

(** [f"{seconds:g}"] for a positive duration in microseconds. *)
Definition format_g (us : Z) : string :=
  let k := decimal_exponent us 1000000 in
  let '(sn, sd) := scale us 1000000 (6 - k) in
  let '(d, ex) := drop_trailing_zeros 18 (round_half_even sn sd) (k - 6) in
  let t := format_digits d ex in
  let n := str_len t in
  if bool_decide (drop (Z.to_nat (n - 2)) (chars t) = chars ".0") then str_take (n - 2) t else t.

Example format_g_60 : format_g (seconds 60) = "60". Proof. vm_compute. reflexivity. Qed.
Example format_g_half : format_g 2500000 = "2.5". Proof. vm_compute. reflexivity. Qed.

Record gateway_config := { has_outbox : bool; has_notifier : bool }.

Section gateway.
Context (re_search : string -> string -> result bool) (cfg : gateway_config).
Context {F : Type -> Type} `{SubE apprE F} `{SubE envE F} `{SubE outE F} `{SubE gwE F}.
Context `{ShieldE F}.

(** A started terminal write is finished before a cancellation of the caller propagates; the
    cancellation then replaces its result and its exception. *)
Fixpoint _finish_terminal_recording {A} (awaitable : prog F A) (was_cancelled : bool)
  : prog F A :=
  match awaitable with
  | Ret a => if was_cancelled then Raise cancelled else Ret a
  | Raise e => Raise (if was_cancelled then cancelled else e)
  | Vis op k => Vis (shielded _ op) (fun r =>
      match r with
      | Ok (r', now_cancelled) => _finish_terminal_recording (k r') (was_cancelled || now_cancelled)
      | Err e => Raise e
      end)
  end.

Definition _approval_binding (descriptor : ToolDescriptor) (call : ToolCall)
  : result (option ApprovalBinding) :=
  match td_risk descriptor with
  | EXTERNAL_WRITE =>
      match tc_target call with
      | JNull => fail ValidationError "R2 external writes require an explicit target"
      | _ =>
          b ← check_binding {|
            b_action_type := td_id descriptor; b_task_id := tc_task_id call;
            b_tool_id := td_id descriptor; b_tool_version := td_version descriptor;
            b_extension_id := td_extension_id descriptor;
            b_extension_version := str_or (td_extension_version descriptor) (td_version descriptor);
            b_target := tc_target call; b_payload := tc_arguments call;
            b_attachments := tc_attachments call; b_form_version := tc_form_version call |};
          Ok (Some b)
      end
  | _ => Ok None
  end.

Definition _side_effect_intent (descriptor : ToolDescriptor) (tcall : ToolCall)
    (binding : ApprovalBinding) : prog F SideEffectIntent :=
  id ← call NewUuid;
  key ← match truthy (tc_idempotency_key tcall), truthy (tc_approval_id tcall) with
        | true, _ => Ret (default "" (tc_idempotency_key tcall))
        | false, true => Ret (default "" (tc_approval_id tcall))
        | false, false => call NewUuid
        end;
  payload ← of_result (canonical_sha256 (tc_arguments tcall));
  t ← call Now;
  fp ← of_result (canonical_sha256 (envelope binding));
  Ret {| in_id := id; in_task_id := tc_task_id tcall; in_tool_id := td_id descriptor;
         in_idempotency_key := key; in_approval_id := str_or (tc_approval_id tcall) "";
         in_payload_sha256 := payload; in_state := SideEffectState.PREPARED;
         in_created_at := t; in_action_fingerprint := fp; in_receipt := JObj [] |}.

Definition audit_event (event_type : string) (descriptor : ToolDescriptor) (tcall : ToolCall)
    (context : ToolExecutionContext) (t : time) (detail : json) : InvocationAuditEvent :=
  {| ev_type := event_type; ev_attempt_id := x_attempt_id context; ev_task_id := tc_task_id tcall;
     ev_tool_id := td_id descriptor; ev_tool_version := td_version descriptor;
     ev_extension_id := td_extension_id descriptor; ev_risk := risk_value (td_risk descriptor);
     ev_occurred_at := t; ev_detail := detail |}.

Definition _audit_outcome (descriptor : ToolDescriptor) (tcall : ToolCall)
    (context : ToolExecutionContext) (event_type message : string) : prog F unit :=
  t ← call Now;
  call (GAudit (audit_event event_type descriptor tcall context t
                  (JObj [("message", JStr (str_take 500 message))]))).

Definition _finalize_external_impl (approval_id : string) (intent : option SideEffectIntent)
    (state : SideEffectState.t) (reference reason diagnostic : option string)
    (receipt : option json) : prog F unit :=
  match intent, has_outbox cfg with
  | Some i, true => outbox_finalize (in_id i) approval_id state reference reason diagnostic receipt
  | _, _ =>
      _ ← match state with
          | SideEffectState.SUCCEEDED => mark_succeeded approval_id (str_or reference "") None
          | SideEffectState.FAILED => mark_failed approval_id (str_or reason "failed") None
          | _ => mark_unknown approval_id (str_or reference "unknown") None
          end;
      Ret tt
  end.

Definition _finalize_external (approval_id : string) (intent : option SideEffectIntent)
    (state : SideEffectState.t) (reference reason diagnostic : option string)
    (receipt : option json) : prog F unit :=
  _finish_terminal_recording
    (_finalize_external_impl approval_id intent state reference reason diagnostic receipt) false.

Definition _mark_unknown_external (tcall : ToolCall) (reference_id : string)
    (intent : option SideEffectIntent) : prog F unit :=
  match tc_approval_id tcall with
  | None => Ret tt
  | Some i => _finalize_external i intent SideEffectState.UNKNOWN (Some reference_id) None
                (Some reference_id) None
  end.

Definition _mark_definitive_external_failure (tcall : ToolCall) (reason : string)
    (intent : option SideEffectIntent) : prog F unit :=
  match tc_approval_id tcall with
  | None => Ret tt
  | Some i => _finalize_external i intent SideEffectState.FAILED None (Some reason)
                (Some (str_take 200 reason)) None
  end.

Definition _unknown (descriptor : ToolDescriptor) (tcall : ToolCall)
    (context : ToolExecutionContext) (reference_id message : string)
    (intent : option SideEffectIntent) : prog F ToolOutcome :=
  _ ← (if bool_decide (td_risk descriptor = EXTERNAL_WRITE)
       then _mark_unknown_external tcall reference_id intent else Ret tt);
  _ ← _audit_outcome descriptor tcall context "OUTCOME_UNKNOWN" message;
  Ret (outcome_unknown reference_id (Some message)).

Definition _failed (descriptor : ToolDescriptor) (tcall : ToolCall)
    (context : ToolExecutionContext) (message : string) (retryable : bool) : prog F ToolOutcome :=
  _ ← _audit_outcome descriptor tcall context "FAILED" message;
  Ret (outcome_failed message retryable).

Definition domain_failure {A} (e : exn) (k : ToolOutcome -> prog F A) : prog F A :=
  if exn_is e DomainError
  then k (outcome_failed (exn_code (exn_cls e) ++ ": " ++ exn_msg e) false) else Raise e.

(** The [try] body around the executor: policy again, execution, sanitizing, output schema. *)
Definition execute_body (descriptor : ToolDescriptor) (tcall : ToolCall)
    (context : ToolExecutionContext) : prog F json :=
  pol ← call GPolicy;
  _ ← match policy_check pol descriptor tcall with
      | Ok _ => Ret tt
      | Err e => if exn_is e DomainError
                 then raise_prog DefinitiveToolFailure "host policy changed before execution"
                 else Raise e
      end;
  raw ← call (GExecute descriptor (tc_arguments tcall) context);
  res ← of_result (sanitize_result raw DEFAULT_MAX_RESULT_BYTES);
  _ ← of_result (validate_json_schema re_search res (td_output_schema descriptor));
  Ret res.

(** The [except] clauses, in their order. *)
Definition handle_failure (descriptor : ToolDescriptor) (tcall : ToolCall)
    (context : ToolExecutionContext) (intent : option SideEffectIntent) (e : exn)
  : prog F ToolOutcome :=
  let is_external := bool_decide (td_risk descriptor = EXTERNAL_WRITE) in
  let unknown_ref := "unknown:" ++ x_attempt_id context in
  if exn_is e OutcomeUnknownError then
    _unknown descriptor tcall context (default "" (exn_ref e)) (exn_msg e) intent
  else if exn_is e PyTimeoutError then
    if is_external then
      _unknown descriptor tcall context unknown_ref
        "external action timed out after execution began" intent
    else _failed descriptor tcall context
           ("tool timed out after " ++ format_g (td_timeout_seconds descriptor) ++ " seconds") true
  else if exn_is e UserActionRequiredError then
    _ ← _mark_definitive_external_failure tcall (exn_msg e) intent;
    _ ← _audit_outcome descriptor tcall context "USER_ACTION_REQUIRED" (exn_msg e);
    Ret {| to_kind := ToolOutcomeKind.USER_ACTION_REQUIRED; to_result := None;
           to_message := Some (exn_msg e); to_reference_id := Some (x_attempt_id context);
           to_approval_id := None; to_extension_id := None; to_retryable := false |}
  else if exn_is e ExtensionUnavailableError then
    _ ← _mark_definitive_external_failure tcall (exn_msg e) intent;
    _ ← _audit_outcome descriptor tcall context "EXTENSION_UNAVAILABLE" (exn_msg e);
    Ret {| to_kind := ToolOutcomeKind.EXTENSION_UNAVAILABLE; to_result := None;
           to_message := Some (exn_msg e); to_reference_id := Some (x_attempt_id context);
           to_approval_id := None; to_extension_id := exn_ref e; to_retryable := false |}
  else if exn_is e DefinitiveToolFailure then
    _ ← _mark_definitive_external_failure tcall (exn_msg e) intent;
    _failed descriptor tcall context (exn_msg e) (exn_retryable e && negb is_external)
  else if exn_is e PyCancelledError then
    _ ← (if is_external then _mark_unknown_external tcall unknown_ref intent else Ret tt);
    Raise e
  else
    if is_external then
      _unknown descriptor tcall context unknown_ref
        "executor failed after external execution began; outcome is unknown" intent
    else _failed descriptor tcall context
           ("executor error: " ++ exn_name (exn_cls e)) true.

Definition finish_success (descriptor : ToolDescriptor) (tcall : ToolCall)
    (context : ToolExecutionContext) (intent : option SideEffectIntent) (res : json)
  : prog F ToolOutcome :=
  text ← of_result (dumps stable_opts res);
  let reference := "result:" ++ sha256 text in
  _ ← match bool_decide (td_risk descriptor = EXTERNAL_WRITE), tc_approval_id tcall with
      | true, Some i =>
          _finalize_external i intent SideEffectState.SUCCEEDED (Some reference) None None
            (Some (JObj [("reference", JStr reference)]))
      | _, _ => Ret tt
      end;
  _ ← _audit_outcome descriptor tcall context "SUCCEEDED" reference;
  Ret {| to_kind := ToolOutcomeKind.SUCCESS; to_result := Some res; to_message := None;
         to_reference_id := Some reference; to_approval_id := None; to_extension_id := None;
         to_retryable := false |}.

(** After the approval has been consumed: record the attempt, execute once, classify. *)
Definition attempt (descriptor : ToolDescriptor) (tcall : ToolCall)
    (intent : option SideEffectIntent) : prog F ToolOutcome :=
  attempt_id ← call NewUuid;
  let context := {| x_attempt_id := attempt_id; x_task_id := tc_task_id tcall;
                    x_idempotency_key := if truthy (tc_idempotency_key tcall)
                                         then default "" (tc_idempotency_key tcall)
                                         else str_or (tc_approval_id tcall) attempt_id;
                    x_approval_id := tc_approval_id tcall |} in
  t ← call Now;
  _ ← call (GAudit (audit_event "INTENT_RECORDED" descriptor tcall context t
                      (JObj [("approval_id", opt_str (tc_approval_id tcall))])));
  prog_match (execute_body descriptor tcall context)
    (finish_success descriptor tcall context intent)
    (handle_failure descriptor tcall context intent).

(** No approval yet: prepare one, notify, and report that it is required. *)
Definition request_approval (tcall : ToolCall) (binding : ApprovalBinding)
  : prog F ToolOutcome :=
  approval ← prepare binding None MAX_APPROVAL_TTL;
  notice ← (if has_notifier cfg then
              prog_match (call (GNotify (tc_task_id tcall) "R2"))
                (fun _ => Ret "exact approval is required before this action")
                (fun e => if exn_is e PyException
                          then Ret ("exact approval is required before this action"
                                    ++ "; notification delivery is unconfirmed")
                          else Raise e)
            else Ret "exact approval is required before this action");
  Ret {| to_kind := ToolOutcomeKind.APPROVAL_REQUIRED; to_result := None;
         to_message := Some notice; to_reference_id := Some (ap_id approval);
         to_approval_id := Some (ap_id approval); to_extension_id := None;
         to_retryable := false |}.

(** Consume the approval, through the outbox when there is one. *)
Definition consume_approval (descriptor : ToolDescriptor) (tcall : ToolCall) (approval_id : string)
    (binding : ApprovalBinding) : prog F (option SideEffectIntent) :=
  if has_outbox cfg then
    intent ← _side_effect_intent descriptor tcall binding;
    _ ← create_with_approval_consumption intent;
    Ret (Some intent)
  else
    _ ← consume_for_execution approval_id binding None;
    Ret None.

(** The checks that precede every attempt. *)
Definition prechecks (tcall : ToolCall) : prog F (ToolDescriptor * option ApprovalBinding) :=
  snap ← call GSnapshot;
  descriptor ← of_result (resolve snap (tc_tool_id tcall) (tc_tool_version tcall));
  _ ← of_result (validate_json_schema re_search (tc_arguments tcall) (td_input_schema descriptor));
  pol ← call GPolicy;
  _ ← of_result (policy_check pol descriptor tcall);
  binding ← of_result (_approval_binding descriptor tcall);
  Ret (descriptor, binding).

Definition invoke (tcall : ToolCall) : prog F ToolOutcome :=
  prog_match (prechecks tcall)
    (fun '(descriptor, binding) =>
       match td_risk descriptor, binding, tc_approval_id tcall with
       | EXTERNAL_WRITE, Some b, None => request_approval tcall b
       | EXTERNAL_WRITE, Some b, Some i =>
           prog_match (consume_approval descriptor tcall i b)
             (fun intent => attempt descriptor tcall intent)
             (fun e => domain_failure e Ret)
       | EXTERNAL_WRITE, None, _ => raise_prog PyException "AssertionError"
       | _, _, _ => attempt descriptor tcall None
       end)
    (fun e => domain_failure e Ret).

End gateway.
