(* ===== verification/System.v ===== *)
(** * System: concurrent requests over one shared approval store

    The event loop as a step relation: a pool of coroutines (gateway invocations and approval
    commands), each step of which performs one operation of one coroutine on the shared state;
    requests arrive, are cancelled and die at any time, the clock and the identifiers are
    arbitrary, the executor answers anything, and the administrator changes the registry and the
    policy.  [wp] is a rely/guarantee precondition whose ghost state is the set of approval
    records a coroutine has seen and the one-use execution token it may hold. *)

From S2P Require Import Prelude Text Json Schemas Domain Tools Approvals Outbox Gateway.
Local Open Scope string_scope.
Local Open Scope Z_scope.

Inductive sysE : Type -> Type :=
| SAppr {X} (op : apprE X) : sysE X
| SEnv {X} (op : envE X) : sysE X
| SOut {X} (op : outE X) : sysE X
| SGw {X} (op : gwE X) : sysE X
| SShield {X} (op : sysE X) : sysE (result X * bool)%type.

#[global] Instance SubE_appr : SubE apprE sysE := @SAppr.
#[global] Instance SubE_env : SubE envE sysE := @SEnv.
#[global] Instance SubE_out : SubE outE sysE := @SOut.
#[global] Instance SubE_gw : SubE gwE sysE := @SGw.
#[global] Instance ShieldE_sys : ShieldE sysE := @SShield.

(** One execution of a tool: what was handed to the executor. *)
Record execution := {
  ex_descriptor : ToolDescriptor;
  ex_arguments : json;
  ex_context : ToolExecutionContext
}.
#[export] Instance execution_eta : Eta execution := fun r =>
  Build_execution (ex_descriptor r) (ex_arguments r) (ex_context r).

Record sys := {
  sy_approvals : gmap string ApprovalRecord;
  sy_outbox : OutboxStore;
  sy_registry : RegistrySnapshot;
  sy_policy : ToolPolicy;
  sy_audit : list InvocationAuditEvent;
  sy_executions : list execution
}.
#[export] Instance sys_eta : Eta sys := fun r =>
  Build_sys (sy_approvals r) (sy_outbox r) (sy_registry r) (sy_policy r) (sy_audit r)
    (sy_executions r).

Definition initial_sys (reg : RegistrySnapshot) (pol : ToolPolicy) : sys :=
  {| sy_approvals := ∅; sy_outbox := empty_outbox; sy_registry := reg; sy_policy := pol;
     sy_audit := []; sy_executions := [] |}.

Definition gw_step {X} (op : gwE X) (s s' : sys) : result X -> Prop :=
  match op in gwE Y return result Y -> Prop with
  | GSnapshot => fun r => s' = s /\ r = Ok (sy_registry s)
  | GPolicy => fun r => s' = s /\ r = Ok (sy_policy s)
  | GAudit ev => fun r => s' = s {{ sy_audit := (sy_audit s ++ [ev])%list }} /\ r = Ok tt
  | GNotify _ _ => fun r => s' = s
  | GExecute d args ctx => fun r =>
      s' = s {{ sy_executions := (sy_executions s ++
        [{| ex_descriptor := d; ex_arguments := args; ex_context := ctx |}])%list }}
  end.

(** What one operation may do: the relation is a function for the stores, and leaves the clock,
    the identifiers, the notifier and the executor free. *)
Fixpoint op_step {X} (op : sysE X) (s s' : sys) : result X -> Prop :=
  match op in sysE Y return result Y -> Prop with
  | SAppr o => fun r =>
      s' = s {{ sy_approvals := (apprE_handle o (sy_approvals s)).1 }} /\
      r = (apprE_handle o (sy_approvals s)).2
  | SEnv o => fun r => s' = s /\ is_ok r = true
  | SOut o => fun r =>
      exists st, outE_handle o (sy_outbox s) = Some (st, r) /\ s' = s {{ sy_outbox := st }}
  | SGw o => fun r => gw_step o s s' r
  | SShield o => fun r => exists r' c, r = Ok (r', c) /\ op_step o s s' r'
  end.

(** The operations that can suspend the coroutine, where a cancellation can reach it. *)
Definition suspends {X} (op : sysE X) : bool :=
  match op with
  | SAppr _ => true
  | SEnv _ => false
  | SOut o => match o with OAcquire | OFinish _ _ _ => true | _ => false end
  | SGw o => match o with GSnapshot | GPolicy => false | _ => true end
  | SShield _ => false
  end.

(** The requests a client can make. *)
Inductive request :=
| RInvoke (c : ToolCall)
| RPrepare (b : ApprovalBinding) (now : option time) (ttl : Z)
| RGet (i : string) (now : option time) (refresh : bool)
| RApprove (i nonce actor : string) (now : option time)
| RReject (i : string) (now : option time) (reason : option string)
| RConsume (i : string) (b : ApprovalBinding) (now : option time)
| RFinish (i : string) (target : ApprovalState.t) (now : option time)
    (reference reason : option string).

Section pool.
Context (re_search : string -> string -> result bool) (cfg : gateway_config).

Definition program (q : request) : prog sysE unit :=
  match q with
  | RInvoke c => _ ← invoke re_search cfg c; Ret tt
  | RPrepare b now ttl => _ ← prepare b now ttl; Ret tt
  | RGet i now refresh => _ ← get i now refresh; Ret tt
  | RApprove i nonce actor now => _ ← approve i nonce actor now; Ret tt
  | RReject i now reason => _ ← reject i now reason; Ret tt
  | RConsume i b now => _ ← consume_for_execution i b now; Ret tt
  | RFinish i target now reference reason => _ ← finish i target now reference reason; Ret tt
  end.

Definition config : Type := sys * list (prog sysE unit).

Inductive pool_step : config -> config -> Prop :=
| pool_run s s' ts j X (op : sysE X) k r :
    ts !! j = Some (Vis op k) -> op_step op s s' r ->
    pool_step (s, ts) (s', <[j := k r]> ts)
| pool_cancel s ts j X (op : sysE X) k :
    ts !! j = Some (Vis op k) -> suspends op = true ->
    pool_step (s, ts) (s, <[j := k (Err cancelled)]> ts)
| pool_die s ts j p :
    ts !! j = Some p ->
    pool_step (s, ts) (s, <[j := Raise cancelled]> ts)
| pool_arrive s ts q :
    pool_step (s, ts) (s, (ts ++ [program q])%list)
| pool_admin s ts reg pol :
    pool_step (s, ts) (s {{ sy_registry := reg; sy_policy := pol }}, ts).

End pool.

(** ** Approval records over time *)

(** What never changes after [prepare]. *)
Definition same_preview (r0 r : ApprovalRecord) : Prop :=
  ap_id r0 = ap_id r /\ action_fingerprint r0 = action_fingerprint r /\
  canonical_action r0 = canonical_action r /\ ap_nonce r0 = ap_nonce r /\
  ap_created_at r0 = ap_created_at r /\ expires_at r0 = expires_at r.

(** The lifecycle order: waiting, approved, executing, settled. *)
Definition rank (s : ApprovalState.t) : Z :=
  match s with
  | ApprovalState.DRAFT => -2
  | ApprovalState.PREPARED => -1
  | ApprovalState.WAITING_APPROVAL => 0
  | ApprovalState.APPROVED => 1
  | ApprovalState.EXECUTING => 2
  | _ => 3
  end.

Definition was_approved (r : ApprovalRecord) : Prop :=
  exists t a, approved_at r = Some t /\ approved_by r = Some a /\ blank a = false /\
              t < expires_at r.

Definition was_consumed (r : ApprovalRecord) : Prop :=
  exists t, consumed_at r = Some t /\ t < expires_at r.

Definition executed_state (s : ApprovalState.t) : bool :=
  match s with
  | ApprovalState.EXECUTING | ApprovalState.SUCCEEDED | ApprovalState.FAILED
  | ApprovalState.UNKNOWN => true
  | _ => false
  end.

(** The evidence a record in a given state carries. *)
Definition record_ok (r : ApprovalRecord) : Prop :=
  (ap_state r = ApprovalState.APPROVED \/ executed_state (ap_state r) = true -> was_approved r) /\
  (executed_state (ap_state r) = true -> was_consumed r).

Definition legal (r0 r : ApprovalRecord) : Prop :=
  same_preview r0 r /\ ap_state r ∈ approval_allowed (ap_state r0) /\
  (record_ok r0 -> record_ok r).

Definition fresh_record (r : ApprovalRecord) : Prop :=
  ap_state r = ApprovalState.WAITING_APPROVAL /\ ap_version r = 0.

(** The binding a consumed approval was checked against is the one being executed. *)
Definition authorises (r : ApprovalRecord) (ex : execution) : Prop :=
  x_approval_id (ex_context ex) = Some (ap_id r) /\
  exists b, canonical_sha256 (envelope b) = Ok (action_fingerprint r) /\
    b_payload b = ex_arguments ex /\ b_task_id b = x_task_id (ex_context ex) /\
    b_tool_id b = td_id (ex_descriptor ex) /\ b_tool_version b = td_version (ex_descriptor ex) /\
    b_extension_id b = td_extension_id (ex_descriptor ex) /\ b_target b <> JNull.

(** ** The rely/guarantee precondition *)

Notation known := (list ApprovalRecord).
Notation token := (option string).

Fixpoint wp_op {X} (op : sysE X) (kn : known) (tk : token)
  : (known -> token -> result X -> Prop) -> Prop :=
  match op in sysE Y return (known -> token -> result Y -> Prop) -> Prop with
  | SAppr o =>
      match o in apprE Y return (known -> token -> result Y -> Prop) -> Prop with
      | AGet i => fun Q =>
          (forall e, Q kn tk (Err e)) /\
          (forall r, ap_id r = i -> (forall r0, r0 ∈ kn -> ap_id r0 = i -> same_preview r0 r) ->
             Q (r :: kn) tk (Ok r))
      | ACreate r => fun Q =>
          fresh_record r /\ (forall e, Q kn tk (Err e)) /\ Q (r :: kn) tk (Ok tt)
      | ASave r v => fun Q =>
          (exists r0, r0 ∈ kn /\ ap_version r0 = v /\ legal r0 r) /\
          (forall e, Q kn tk (Err e)) /\
          let saved := r {{ ap_version := v + 1 }} in
          Q (saved :: kn)
            (if bool_decide (ap_state r = ApprovalState.EXECUTING) then Some (ap_id r) else tk)
            (Ok saved)
      end
  | SGw o =>
      match o in gwE Y return (known -> token -> result Y -> Prop) -> Prop with
      | GExecute d args ctx => fun Q =>
          td_risk d <> PROHIBITED /\
          (td_risk d = EXTERNAL_WRITE ->
             exists r, r ∈ kn /\ tk = Some (ap_id r) /\ executed_state (ap_state r) = true /\
               authorises r {| ex_descriptor := d; ex_arguments := args; ex_context := ctx |}) /\
          forall r, Q kn None r
      | _ => fun Q => forall r, Q kn tk r
      end
  | SShield o => fun Q => wp_op o kn tk (fun kn tk r => forall c, Q kn tk (Ok (r, c)))
  | _ => fun Q => forall r, Q kn tk r
  end.

Fixpoint wp {A} (p : prog sysE A) (kn : known) (tk : token)
    (Q : known -> token -> result A -> Prop) : Prop :=
  match p with
  | Ret a => Q kn tk (Ok a)
  | Raise e => Q kn tk (Err e)
  | Vis op k => wp_op op kn tk (fun kn tk r => wp (k r) kn tk Q)
  end.
