(* ===== verification/GatewaySafety.v ===== *)
(** * GatewaySafety: what concurrency cannot break

    The coroutines of the approval service, the outbox and the gateway satisfy their
    rely/guarantee preconditions, and the pool preserves the global invariant; so every external
    action is executed at most once per approval, and only under a matching, unexpired approval. *)

From S2P Require Import Prelude Text Json Schemas Domain Tools Approvals Outbox Gateway System.
Local Open Scope string_scope.
Local Open Scope Z_scope.

(** ** Rules for [wp] *)

Lemma wp_op_mono {X} (op : sysE X) kn tk (Q Q' : known -> token -> result X -> Prop) :
  (forall kn' tk' r, Q kn' tk' r -> Q' kn' tk' r) -> wp_op op kn tk Q -> wp_op op kn tk Q'.
Proof.
  revert Q Q'; induction op as [? []|? []|? []|? []|? op IH]; intros Q Q' HQ; simpl;
    [naive_solver..|]. apply IH. eauto.
Qed.

Lemma wp_mono {A} (p : prog sysE A) kn tk (Q Q' : known -> token -> result A -> Prop) :
  (forall kn' tk' r, Q kn' tk' r -> Q' kn' tk' r) -> wp p kn tk Q -> wp p kn tk Q'.
Proof.
  intros HQ. revert kn tk. induction p as [a|e|X op k IH]; intros kn tk; simpl; [apply HQ..|].
  apply wp_op_mono. intros. by apply IH.
Qed.

Lemma wp_match {A B} (p : prog sysE A) (f : A -> prog sysE B) (h : exn -> prog sysE B) kn tk Q :
  wp p kn tk (fun kn' tk' r =>
    match r with Ok a => wp (f a) kn' tk' Q | Err e => wp (h e) kn' tk' Q end) ->
  wp (prog_match p f h) kn tk Q.
Proof.
  revert kn tk. induction p as [a|e|X op k IH]; intros kn tk; simpl; [done..|].
  apply wp_op_mono. intros. by apply IH.
Qed.

Lemma wp_bind {A B} (p : prog sysE A) (f : A -> prog sysE B) kn tk Q :
  wp p kn tk (fun kn' tk' r =>
    match r with Ok a => wp (f a) kn' tk' Q | Err e => Q kn' tk' (Err e) end) ->
  wp (p ≫= f) kn tk Q.
Proof.
  revert kn tk. induction p as [a|e|X op k IH]; intros kn tk; simpl; [done..|].
  apply wp_op_mono. intros. by apply IH.
Qed.

Lemma wp_of_result {A} (r : result A) kn tk (Q : known -> token -> result A -> Prop) :
  Q kn tk r -> wp (of_result r) kn tk Q.
Proof. by destruct r. Qed.

(** Operations that touch neither the approvals nor the executor. *)
Lemma wp_env {X} (op : envE X) kn tk (Q : known -> token -> result X -> Prop) :
  (forall r, Q kn tk r) -> wp (call op) kn tk Q.
Proof. intros HQ. simpl. intros [a|e]; simpl; apply HQ. Qed.

Lemma wp_out {X} (op : outE X) kn tk (Q : known -> token -> result X -> Prop) :
  (forall r, Q kn tk r) -> wp (call op) kn tk Q.
Proof. intros HQ. simpl. intros [a|e]; simpl; apply HQ. Qed.

Lemma wp_now_or now kn tk (Q : known -> token -> result Z -> Prop) :
  (forall r, Q kn tk r) -> wp (now_or now) kn tk Q.
Proof. intros HQ. destruct now; [apply HQ|by apply wp_env]. Qed.

Lemma wp_AGet i kn tk (Q : known -> token -> result ApprovalRecord -> Prop) :
  (forall e, Q kn tk (Err e)) ->
  (forall r, ap_id r = i -> (forall r0, r0 ∈ kn -> ap_id r0 = i -> same_preview r0 r) ->
     Q (r :: kn) tk (Ok r)) ->
  wp (call (AGet i)) kn tk Q.
Proof. intros He Hr. simpl. split; [done|]. intros r Hi Hs. by apply Hr. Qed.

Lemma wp_ASave r v r0 kn tk (Q : known -> token -> result ApprovalRecord -> Prop) :
  r0 ∈ kn -> ap_version r0 = v -> legal r0 r ->
  (forall e, Q kn tk (Err e)) ->
  Q (r {{ ap_version := v + 1 }} :: kn)
    (if bool_decide (ap_state r = ApprovalState.EXECUTING) then Some (ap_id r) else tk)
    (Ok (r {{ ap_version := v + 1 }})) ->
  wp (call (ASave r v)) kn tk Q.
Proof. intros ???? HQ. simpl. split_and!; eauto. Qed.

Lemma wp_ACreate r kn tk (Q : known -> token -> result unit -> Prop) :
  fresh_record r -> (forall e, Q kn tk (Err e)) -> Q (r :: kn) tk (Ok tt) ->
  wp (call (ACreate r)) kn tk Q.
Proof. intros. simpl. split_and!; eauto. Qed.

Lemma wp_gw_free {X} (op : gwE X) kn tk (Q : known -> token -> result X -> Prop) :
  match op with GExecute _ _ _ => False | _ => True end ->
  (forall r, Q kn tk r) -> wp (call op) kn tk Q.
Proof.
  intros Hop HQ. destruct op; try done; simpl; intros [a|e]; simpl; apply HQ.
Qed.

Lemma wp_GExecute d args ctx kn tk (Q : known -> token -> result json -> Prop) :
  td_risk d <> PROHIBITED ->
  (td_risk d = EXTERNAL_WRITE ->
     exists r, r ∈ kn /\ tk = Some (ap_id r) /\ executed_state (ap_state r) = true /\
       authorises r {| ex_descriptor := d; ex_arguments := args; ex_context := ctx |}) ->
  (forall r, Q kn None r) -> wp (call (GExecute d args ctx)) kn tk Q.
Proof. intros ?? HQ. simpl. split_and!; [done..|]. intros [a|e]; simpl; apply HQ. Qed.

Lemma wp_shield {A} (p : prog sysE A) c kn tk (Q : known -> token -> result A -> Prop) :
  wp p kn tk (fun kn' tk' r => Q kn' tk' r /\ Q kn' tk' (Err cancelled)) ->
  wp (_finish_terminal_recording p c) kn tk Q.
Proof.
  revert c kn tk. induction p as [a|e|X op k IH]; intros c kn tk; simpl.
  - intros [??]. by destruct c.
  - intros [??]. by destruct c.
  - apply wp_op_mono. intros kn' tk' r Hr c'. by apply IH.
Qed.

#[local] Arguments prog_bind : simpl never.
#[local] Arguments prog_match : simpl never.
#[local] Arguments perform : simpl never.
#[local] Arguments wp : simpl never.

Lemma ensure_transition_Ok s t u : ensure_approval_transition s t = Ok u ->
  t ∈ approval_allowed s.
Proof.
  unfold ensure_approval_transition. rewrite raise_if_Ok, negb_false_iff. apply mem_b_true.
Qed.

#[export] Hint Resolve wp_env wp_out wp_now_or : pa.

(** ** Legal transitions *)

Lemma same_preview_refl r : same_preview r r.
Proof. by unfold same_preview. Qed.

Lemma same_preview_trans r1 r2 r3 : same_preview r1 r2 -> same_preview r2 r3 -> same_preview r1 r3.
Proof. unfold same_preview. intros; destruct_and?; split_and!; congruence. Qed.

Lemma same_preview_sym r1 r2 : same_preview r1 r2 -> same_preview r2 r1.
Proof. unfold same_preview. intros; destruct_and?; split_and!; congruence. Qed.

Lemma allowed_rank s t : t ∈ approval_allowed s -> rank s < rank t.
Proof.
  destruct s; simpl; intros Ht; repeat (apply elem_of_cons in Ht as [->|Ht]; [simpl; lia|]);
    by apply elem_of_nil in Ht.
Qed.

Lemma executed_rank s : executed_state s = true -> 2 <= rank s.
Proof. by destruct s. Qed.

(** A transition that keeps the approval and consumption evidence is legal when it stays on the
    same side of execution. *)
Lemma legal_keep r0 r :
  same_preview r0 r -> ap_state r ∈ approval_allowed (ap_state r0) ->
  approved_at r = approved_at r0 -> approved_by r = approved_by r0 ->
  consumed_at r = consumed_at r0 ->
  ap_state r <> ApprovalState.APPROVED -> ap_state r <> ApprovalState.EXECUTING ->
  legal r0 r.
Proof.
  intros Hs Ha H1 H2 H3 Hn1 Hn2. split_and!; [done..|].
  unfold record_ok, was_approved, was_consumed.
  destruct Hs as (_&_&_&_&_&<-). rewrite H1, H2, H3.
  assert (executed_state (ap_state r) = true -> executed_state (ap_state r0) = true) as Hx.
  { destruct (ap_state r0), (ap_state r); simpl in *; set_solver. }
  naive_solver.
Qed.

(** ** The approval service *)

(** [wp] of a command that hands out no token. *)
Definition neutral {A} (p : prog sysE A) : Prop :=
  forall kn tk Q, (forall kn' res, kn ⊆ kn' -> Q kn' tk res) -> wp p kn tk Q.

Ltac wp_result :=
  apply wp_bind, wp_of_result;
  match goal with |- match ?r with _ => _ end => let E := fresh "E" in destruct r eqn:E end.

Ltac known_solver := set_solver.

Lemma wp_expire record kn tk (Q : known -> token -> result ApprovalRecord -> Prop) :
  record ∈ kn ->
  (forall kn' res, kn ⊆ kn' ->
     (forall r, res = Ok r -> r ∈ kn' /\ same_preview record r) -> Q kn' tk res) ->
  wp (expire record) kn tk Q.
Proof.
  intros Hin HQ. unfold expire. destruct (is_expirable record) eqn:Hx; simpl.
  - wp_result; [|by apply HQ].
    apply ensure_transition_Ok in E. eapply wp_ASave; [done..| | |].
    + by apply legal_keep.
    + intros e. apply HQ; [known_solver|done].
    + apply HQ; [known_solver|]. intros r [= <-]. split; [left|]. by unfold same_preview; simpl.
  - apply HQ; [done|]. intros r [= <-]. split; [done|]. apply same_preview_refl.
Qed.

Lemma prepare_neutral b now ttl : neutral (prepare b now ttl).
Proof.
  intros kn tk Q HQ. unfold prepare. apply wp_bind, wp_now_or. intros [t|e]; [|by apply HQ].
  destruct ((ttl <=? 0) || (MAX_APPROVAL_TTL <? ttl)); [by apply HQ|].
  wp_result; [|by apply HQ]. wp_result; [|by apply HQ].
  apply wp_bind, wp_env. intros [id|e]; [|by apply HQ].
  wp_result; [|by apply HQ]. apply wp_bind, wp_env. intros [nonce|e]; [|by apply HQ].
  apply wp_bind, wp_ACreate; [done| |]; intros; apply HQ; known_solver.
Qed.

Lemma wp_get i now refresh kn tk (Q : known -> token -> result ApprovalRecord -> Prop) :
  (forall kn' res, kn ⊆ kn' ->
     (forall r, res = Ok r -> r ∈ kn' /\ ap_id r = i /\
        (forall r0, r0 ∈ kn -> ap_id r0 = i -> same_preview r0 r)) -> Q kn' tk res) ->
  wp (get i now refresh) kn tk Q.
Proof.
  intros HQ. unfold get. apply wp_bind, wp_AGet; [intros e; by apply HQ|]. intros r Hi Hs.
  apply wp_bind, wp_now_or. intros [t|e]; [|apply HQ; [known_solver|done]].
  destruct (refresh && is_expirable r && (expires_at r <=? t)).
  - apply wp_expire; [left|]. intros kn' res Hkn Hres. apply HQ; [known_solver|].
    intros r' ->. destruct (Hres r' eq_refl) as [? Hp]. split_and!; [done| |].
    + destruct Hp as [<- _]. done.
    + intros r0 H0 Hr0. eapply same_preview_trans; [by apply Hs|done].
  - apply HQ; [known_solver|]. intros r' [= <-]. split_and!; [left|done..].
Qed.

Lemma get_neutral i now refresh : neutral (get i now refresh).
Proof. intros kn tk Q HQ. apply wp_get. intros. by apply HQ. Qed.

Lemma approve_neutral i nonce actor now : neutral (approve i nonce actor now).
Proof.
  intros kn tk Q HQ. unfold approve. apply wp_bind, wp_now_or. intros [t|e]; [|by apply HQ].
  apply wp_bind, wp_AGet; [intros e; by apply HQ|]. intros r Hi Hs.
  destruct (is_expirable r && (expires_at r <=? t)) eqn:Hexp.
  { apply wp_bind, wp_expire; [left|]. intros kn' [?|?] ??; apply HQ; known_solver. }
  destruct (bool_decide (ap_state r = ApprovalState.WAITING_APPROVAL)) eqn:Hst; simpl;
    [|apply HQ; known_solver]. bool_props.
  destruct (blank actor) eqn:Hb; [apply HQ; known_solver|].
  destruct (bool_decide (ap_nonce r = nonce)); simpl; [|apply HQ; known_solver].
  wp_result; [|apply HQ; known_solver]. apply ensure_transition_Ok in E.
  eapply wp_ASave; [left|done| | |].
  - split_and!; [by unfold same_preview; simpl|done|]. intros _.
    unfold is_expirable in Hexp. rewrite Hst in Hexp. simpl in Hexp. bool_props.
    split; simpl; [|done]. intros _. exists t, actor. done.
  - intros e. apply HQ; known_solver.
  - apply HQ; known_solver.
Qed.

Lemma reject_neutral i now reason : neutral (reject i now reason).
Proof.
  intros kn tk Q HQ. unfold reject.
  apply wp_bind, wp_AGet; [intros e; by apply HQ|]. intros r Hi Hs.
  destruct (is_expirable r); simpl; [|apply HQ; known_solver].
  wp_result; [|apply HQ; known_solver]. apply ensure_transition_Ok in E.
  apply wp_bind, wp_now_or. intros [t|e]; [|apply HQ; known_solver].
  eapply wp_ASave; [left|done| | |].
  - by apply legal_keep.
  - intros e. apply HQ; known_solver.
  - apply HQ; known_solver.
Qed.

Lemma finish_neutral i target now reference reason : neutral (finish i target now reference reason).
Proof.
  intros kn tk Q HQ. unfold finish.
  apply wp_bind, wp_AGet; [intros e; by apply HQ|]. intros r Hi Hs.
  destruct (bool_decide (ap_state r = ApprovalState.EXECUTING)) eqn:Hst; simpl;
    [|apply HQ; known_solver]. bool_props.
  wp_result; [|apply HQ; known_solver]. apply ensure_transition_Ok in E.
  assert (target <> ApprovalState.APPROVED /\ target <> ApprovalState.EXECUTING) as [??].
  { rewrite Hst in E. simpl in E. set_solver. }
  apply wp_bind, wp_now_or. intros [t|e]; [|apply HQ; known_solver].
  eapply wp_ASave; [left|done| | |].
  - by apply legal_keep.
  - intros e. apply HQ; known_solver.
  - simpl. rewrite bool_decide_eq_false_2 by done. apply HQ; known_solver.
Qed.

(** Consumption hands out the execution token of the approval it moved to [EXECUTING]. *)
Lemma wp_consume i b now kn tk (Q : known -> token -> result ApprovalRecord -> Prop) :
  (forall kn' e, kn ⊆ kn' -> Q kn' tk (Err e)) ->
  (forall kn' r, kn ⊆ kn' -> r ∈ kn' -> ap_id r = i -> ap_state r = ApprovalState.EXECUTING ->
     canonical_sha256 (envelope b) = Ok (action_fingerprint r) ->
     (forall r0, r0 ∈ kn -> ap_id r0 = i -> same_preview r0 r) -> Q kn' (Some i) (Ok r)) ->
  wp (consume_for_execution i b now) kn tk Q.
Proof.
  intros HE HO. unfold consume_for_execution.
  apply wp_bind, wp_now_or. intros [t|e]; [|by apply HE].
  apply wp_bind, wp_AGet; [intros e; by apply HE|]. intros r Hi Hs.
  destruct (is_expirable r && (expires_at r <=? t)) eqn:Hexp.
  { apply wp_bind, wp_expire; [left|]. intros kn' [?|?] ??; apply HE; known_solver. }
  destruct (bool_decide (ap_state r = ApprovalState.APPROVED)) eqn:Hst; simpl;
    [|apply HE; known_solver]. bool_props.
  wp_result; [|apply HE; known_solver]. rename E into Hfp.
  destruct (bool_decide (action_fingerprint r = a)) eqn:Hf; simpl; bool_props.
  - wp_result; [|apply HE; known_solver]. apply ensure_transition_Ok in E.
    eapply wp_ASave; [left|done| | |].
    + split_and!; [by unfold same_preview; simpl|done|]. intros [Hap _].
      unfold is_expirable in Hexp. rewrite Hst in Hexp. simpl in Hexp. bool_props.
      split; simpl; intros _; [apply Hap; by left|]. exists t. done.
    + intros e. apply HE; known_solver.
    + simpl. subst i. apply HO; simpl; [known_solver|left|done..|by subst|].
      intros r0 H0 Hr0. destruct (Hs r0 H0 Hr0) as (?&?&?&?&?&?). by unfold same_preview; simpl.
  - wp_result; [|apply HE; known_solver]. apply ensure_transition_Ok in E.
    apply wp_bind. eapply wp_ASave; [left|done| | |].
    + by apply legal_keep.
    + intros e. apply HE; known_solver.
    + simpl. apply HE; known_solver.
Qed.

(** ** Programs without approval consumption or execution *)

Lemma neutral_ret {A} (a : A) : neutral (Ret a).
Proof. intros kn tk Q HQ. by apply HQ. Qed.

Lemma neutral_raise {A} e : neutral (A := A) (Raise e).
Proof. intros kn tk Q HQ. by apply HQ. Qed.

Lemma neutral_of_result {A} (r : result A) : neutral (of_result r).
Proof. intros kn tk Q HQ. apply wp_of_result. by apply HQ. Qed.

Lemma neutral_match {A B} (p : prog sysE A) (f : A -> prog sysE B) h :
  neutral p -> (forall a, neutral (f a)) -> (forall e, neutral (h e)) ->
  neutral (prog_match p f h).
Proof.
  intros Hp Hf Hh kn tk Q HQ. apply wp_match, Hp. intros kn' [a|e] Hkn.
  - apply Hf. intros kn'' res Hkn'. apply HQ. by etrans.
  - apply Hh. intros kn'' res Hkn'. apply HQ. by etrans.
Qed.

Lemma neutral_bind {A B} (p : prog sysE A) (f : A -> prog sysE B) :
  neutral p -> (forall a, neutral (f a)) -> neutral (p ≫= f).
Proof.
  intros Hp Hf kn tk Q HQ. apply wp_bind, Hp. intros kn' [a|e] Hkn; [|by apply HQ].
  apply Hf. intros kn'' res Hkn'. apply HQ. by etrans.
Qed.

Lemma neutral_env {X} (op : envE X) : neutral (call op).
Proof. intros kn tk Q HQ. apply wp_env. intros. by apply HQ. Qed.

Lemma neutral_out {X} (op : outE X) : neutral (call op).
Proof. intros kn tk Q HQ. apply wp_out. intros. by apply HQ. Qed.

Lemma neutral_gw {X} (op : gwE X) :
  match op with GExecute _ _ _ => False | _ => True end -> neutral (call op).
Proof. intros Hop kn tk Q HQ. apply wp_gw_free; [done|]. intros. by apply HQ. Qed.

Lemma neutral_shield {A} (p : prog sysE A) c : neutral p -> neutral (_finish_terminal_recording p c).
Proof.
  intros Hp kn tk Q HQ. apply wp_shield, Hp. intros. split; by apply HQ.
Qed.

Lemma neutral_now_or now : neutral (now_or now).
Proof. intros kn tk Q HQ. apply wp_now_or. intros. by apply HQ. Qed.

Create HintDb neutral.
#[export] Hint Resolve neutral_ret neutral_raise neutral_of_result neutral_match neutral_bind
  neutral_env neutral_out neutral_now_or prepare_neutral get_neutral approve_neutral reject_neutral
  finish_neutral : neutral.
#[export] Hint Extern 1 (neutral (call (_ : gwE _))) => apply neutral_gw; exact I : neutral.
#[export] Hint Extern 2 (neutral (match ?x with _ => _ end)) => destruct x : neutral.
#[export] Hint Extern 2 (neutral (if ?x then _ else _)) => destruct x : neutral.

Ltac neutral_tac := repeat (intros; first
  [ solve [auto with neutral nocore]
  | apply neutral_match | apply neutral_bind
  | match goal with |- neutral (match ?x with _ => _ end) => destruct x end ]).

Section specs.
Context (re_search : string -> string -> result bool) (cfg : gateway_config).

Lemma mark_succeeded_neutral i ref now : neutral (mark_succeeded i ref now).
Proof. apply finish_neutral. Qed.
Lemma mark_failed_neutral i reason now : neutral (mark_failed i reason now).
Proof. apply finish_neutral. Qed.
Lemma mark_unknown_neutral i ref now : neutral (mark_unknown i ref now).
Proof. apply finish_neutral. Qed.

#[local] Hint Resolve mark_succeeded_neutral mark_failed_neutral mark_unknown_neutral : neutral.

Lemma finalize_neutral i intent st ref reason diag receipt :
  neutral (_finalize_external cfg i intent st ref reason diag receipt).
Proof.
  apply neutral_shield. unfold _finalize_external_impl, outbox_finalize. neutral_tac.
Qed.

Lemma audit_outcome_neutral d c ctx ty msg : neutral (_audit_outcome (F := sysE) d c ctx ty msg).
Proof. unfold _audit_outcome. neutral_tac. Qed.

#[local] Hint Resolve finalize_neutral audit_outcome_neutral : neutral.

Lemma handle_failure_neutral d c ctx intent e : neutral (handle_failure cfg d c ctx intent e).
Proof.
  unfold handle_failure, _unknown, _failed, _mark_unknown_external,
    _mark_definitive_external_failure. neutral_tac.
Qed.

Lemma finish_success_neutral d c ctx intent res :
  neutral (finish_success cfg d c ctx intent res).
Proof. unfold finish_success. neutral_tac. Qed.

Lemma request_approval_neutral c b : neutral (request_approval cfg c b).
Proof. unfold request_approval. neutral_tac. Qed.

Lemma prechecks_neutral c : neutral (prechecks (F := sysE) re_search c).
Proof. unfold prechecks. neutral_tac. Qed.

(** ** Consumption through the outbox *)

Lemma wp_with_lock {A} (body : prog sysE A) kn tk (Q : known -> token -> result A -> Prop) :
  (forall e, Q kn tk (Err e)) ->
  wp body kn tk (fun kn' tk' res => Q kn' tk' res /\ forall e, Q kn' tk' (Err e)) ->
  wp (with_lock body) kn tk Q.
Proof.
  intros HE Hb. unfold with_lock. apply wp_bind, wp_out. intros [u|e]; [|apply HE].
  apply wp_match. eapply wp_mono; [|exact Hb]. intros kn' tk' [a|e] [HQ HQe];
    apply wp_bind, wp_out; intros [?|?]; try apply HQe; done.
Qed.

Lemma wp_create intent kn tk (Q : known -> token -> result unit -> Prop) :
  (forall kn' tk' e, kn ⊆ kn' -> Q kn' tk' (Err e)) ->
  (forall kn' r, kn ⊆ kn' -> r ∈ kn' -> ap_id r = in_approval_id intent ->
     ap_state r = ApprovalState.EXECUTING ->
     action_fingerprint r = in_action_fingerprint intent ->
     Q kn' (Some (in_approval_id intent)) (Ok tt)) ->
  wp (create_with_approval_consumption intent) kn tk Q.
Proof.
  intros HE HO. unfold create_with_approval_consumption.
  destruct (bool_decide (in_action_fingerprint intent = "")); [by apply HE|].
  apply wp_with_lock; [intros; by apply HE|].
  assert (forall kn' tk' e, kn ⊆ kn' ->
    Q kn' tk' (Err e) /\ forall e', Q kn' tk' (Err e')) as HE' by (intros; split; eauto).
  apply wp_bind, wp_out. intros [[]|e]; [by apply HE'| |by apply HE'].
  apply wp_bind, wp_get. intros kn1 [r|e] Hkn Hr; [|by apply HE'].
  destruct (Hr r eq_refl) as (Hin & Hid & _).
  destruct (bool_decide (ap_state r = ApprovalState.EXPIRED)); [by apply HE'|].
  destruct (negb (bool_decide (ap_state r = ApprovalState.APPROVED))); [by apply HE'|].
  wp_result; [|by apply HE'].
  match goal with |- context [if ?b then _ else _] => destruct b eqn:Hdrift end.
  { apply wp_bind, reject_neutral. intros kn2 [?|?] ?; apply HE'; known_solver. }
  bool_props. wp_result; [|by apply HE'].
  apply wp_bind, wp_consume; [intros; apply HE'; known_solver|].
  intros kn2 r2 Hkn2 Hin2 Hid2 Hst2 Hfp2 Hsame.
  apply wp_out. intros [[]|e]; [|apply HE'; known_solver].
  split; [|intros; apply HE; known_solver].
  apply (HO kn2 r2); [known_solver|done..|].
  destruct (Hsame r Hin Hid) as (_ & Hf & _). congruence.
Qed.

(** What the gateway knows once an approval has been consumed. *)
Definition licence (d : ToolDescriptor) (c : ToolCall) (kn : known) (tk : token) : Prop :=
  td_risk d = EXTERNAL_WRITE ->
  exists r b, r ∈ kn /\ tk = Some (ap_id r) /\ tc_approval_id c = Some (ap_id r) /\
    ap_state r = ApprovalState.EXECUTING /\ _approval_binding d c = Ok (Some b) /\
    canonical_sha256 (envelope b) = Ok (action_fingerprint r).

Lemma side_effect_intent_wp d c b kn tk (Q : known -> token -> result SideEffectIntent -> Prop) :
  (forall e, Q kn tk (Err e)) ->
  (forall i, in_approval_id i = str_or (tc_approval_id c) "" ->
     canonical_sha256 (envelope b) = Ok (in_action_fingerprint i) -> Q kn tk (Ok i)) ->
  wp (_side_effect_intent d c b) kn tk Q.
Proof.
  intros HE HO. unfold _side_effect_intent. apply wp_bind, wp_env. intros [id|e]; [|apply HE].
  apply wp_bind. assert (forall Q' : known -> token -> result string -> Prop,
    (forall r, Q' kn tk r) -> wp (match truthy (tc_idempotency_key c), truthy (tc_approval_id c) with
        | true, _ => Ret (default "" (tc_idempotency_key c))
        | false, true => Ret (default "" (tc_approval_id c))
        | false, false => call NewUuid end) kn tk Q') as Hkey.
  { intros Q' HQ'. destruct (truthy (tc_idempotency_key c)), (truthy (tc_approval_id c)); try apply HQ'.
    by apply wp_env. }
  apply Hkey. intros [k|e]; [|apply HE]. wp_result; [|apply HE].
  apply wp_bind, wp_env. intros [t|e]; [|apply HE]. wp_result; [|apply HE]. by apply HO.
Qed.

Lemma consume_approval_wp d c i b kn tk (Q : known -> token -> result (option SideEffectIntent) -> Prop) :
  tc_approval_id c = Some i -> _approval_binding d c = Ok (Some b) ->
  (forall kn' tk' e, Q kn' tk' (Err e)) ->
  (forall kn' tk' intent, licence d c kn' tk' -> Q kn' tk' (Ok intent)) ->
  wp (consume_approval cfg d c i b) kn tk Q.
Proof.
  intros Hi Hb HE HO. unfold consume_approval. destruct (has_outbox cfg).
  - apply wp_bind, side_effect_intent_wp; [done|]. intros intent Hid Hfp.
    apply wp_bind, wp_create; [done|]. intros kn' r Hkn Hin Hrid Hst Hf. apply HO.
    intros _. exists r, b. rewrite Hi in Hid. simpl in Hid.
    assert (in_approval_id intent = i) by (case_bool_decide; congruence).
    split_and!; try done; congruence.
  - apply wp_bind, wp_consume; [done|]. intros kn' r Hkn Hin Hrid Hst Hf _. apply HO.
    intros _. exists r, b. split_and!; try done; congruence.
Qed.

Lemma approval_binding_inv d c b : _approval_binding d c = Ok (Some b) ->
  td_risk d = EXTERNAL_WRITE /\ b_payload b = tc_arguments c /\ b_task_id b = tc_task_id c /\
  b_tool_id b = td_id d /\ b_tool_version b = td_version d /\
  b_extension_id b = td_extension_id d /\ b_target b = tc_target c /\ b_target b <> JNull /\
  b_attachments b = tc_attachments c /\ b_form_version b = tc_form_version c /\
  b_extension_version b = str_or (td_extension_version d) (td_version d).
Proof.
  unfold _approval_binding, check_binding, raise_if. intros H.
  destruct (td_risk d); try discriminate H.
  destruct (tc_target c) eqn:Ht; try discriminate H;
    (destruct (_ || _) in H; [discriminate H|]; simpl in H; injection H as <-; simpl;
     rewrite ?Ht; split_and!; done).
Qed.

(** Executing consumes the token: the body runs the executor at most once. *)
Lemma execute_body_wp d c ctx kn tk (Q : known -> token -> result json -> Prop) :
  licence d c kn tk -> x_approval_id ctx = tc_approval_id c -> x_task_id ctx = tc_task_id c ->
  (forall kn' tk' r, Q kn' tk' r) -> wp (execute_body re_search d c ctx) kn tk Q.
Proof.
  intros Hl Hxa Hxt HQ. unfold execute_body.
  apply wp_bind, wp_gw_free; [done|]. intros [pol|e]; [|apply HQ].
  apply wp_bind. destruct (policy_check pol d c) as [u|e] eqn:Hpol;
    [|destruct (exn_is e DomainError); apply HQ].
  apply policy_check_Ok in Hpol as (_ & _ & Hr3 & _).
  apply wp_bind, wp_GExecute; [done| |].
  - intros Hx. destruct (Hl Hx) as (r & b & Hin & Htk & Hcid & Hst & Hb & Hfp).
    exists r. rewrite Hst. split_and!; [done..|]. split; [simpl; congruence|]. exists b.
    apply approval_binding_inv in Hb. simpl. rewrite Hxt. naive_solver.
  - intros [raw|e]; [|apply HQ]. wp_result; [|apply HQ]. wp_result; apply HQ.
Qed.

Lemma attempt_wp d c intent kn tk :
  licence d c kn tk -> wp (attempt re_search cfg d c intent) kn tk (fun _ _ _ => True).
Proof.
  intros Hl. unfold attempt. apply wp_bind, wp_env. intros [aid|e]; [|done].
  apply wp_bind, wp_env. intros [t|e]; [|done].
  apply wp_bind, wp_gw_free; [done|]. intros [[]|e]; [|done].
  apply wp_match, execute_body_wp; [done..|]. intros kn' tk' [a|e];
    [by apply finish_success_neutral|by apply handle_failure_neutral].
Qed.

Lemma prechecks_wp c kn tk (Q : known -> token -> result (ToolDescriptor * option ApprovalBinding) -> Prop) :
  (forall e, Q kn tk (Err e)) ->
  (forall d b, _approval_binding d c = Ok b -> Q kn tk (Ok (d, b))) ->
  wp (prechecks re_search c) kn tk Q.
Proof.
  intros HE HO. unfold prechecks. apply wp_bind, wp_gw_free; [done|]. intros [s|e]; [|apply HE].
  wp_result; [|apply HE]. wp_result; [|apply HE].
  apply wp_bind, wp_gw_free; [done|]. intros [pol|e]; [|apply HE].
  wp_result; [|apply HE]. wp_result; [|apply HE]. by apply HO.
Qed.

Lemma domain_failure_wp (e : exn) kn tk :
  wp (domain_failure (F := sysE) e Ret) kn tk (fun _ _ _ => True).
Proof. unfold domain_failure. by destruct (exn_is e DomainError). Qed.

(** Every invocation respects the protocol, whatever the other coroutines do. *)
Lemma invoke_wp c kn tk :
  wp (invoke re_search cfg c) kn tk (fun _ _ _ => True).
Proof.
  unfold invoke. apply wp_match, prechecks_wp; [intros; apply domain_failure_wp|].
  intros d b Hb. assert (td_risk d <> EXTERNAL_WRITE -> licence d c kn tk) as Hno
    by (intros Hn Hx; contradiction).
  destruct (td_risk d) eqn:Hrisk; try (apply attempt_wp, Hno; discriminate).
  destruct b as [b|]; [|done].
  destruct (tc_approval_id c) as [i|] eqn:Hi; [|by apply request_approval_neutral].
  apply wp_match, consume_approval_wp; [done|done|intros; apply domain_failure_wp|].
  intros. by apply attempt_wp.
Qed.
End specs.
