(* ===== verification/Agent.v ===== *)
(** * Agent: the run state machine, the emergency fuse and the progress detector

    Models [core/agent/state_machine.py], [core/agent/safety_fuse.py],
    [core/agent/progress_detector.py] and the stores of [core/agent/checkpoint.py]. *)

From S2P Require Import Prelude Text Sha256 Json Domain.
From stdpp Require Import sorting.
Local Open Scope string_scope.
Local Open Scope Z_scope.

(** ** State machine *)

Definition run_allowed (s : TaskState.t) : list TaskState.t :=
  match s with
  | TaskState.CREATED => [TaskState.QUEUED; TaskState.CANCELLED]
  | TaskState.QUEUED => [TaskState.RUNNING; TaskState.CANCELLED]
  | TaskState.RUNNING =>
      [TaskState.WAITING_USER; TaskState.WAITING_APPROVAL; TaskState.WAITING_RECONCILIATION;
       TaskState.PAUSED_SAFETY; TaskState.PAUSED_EXTENSION; TaskState.SUCCEEDED;
       TaskState.FAILED; TaskState.CANCELLED]
  | TaskState.WAITING_USER => [TaskState.QUEUED; TaskState.CANCELLED]
  | TaskState.WAITING_APPROVAL =>
      [TaskState.QUEUED; TaskState.WAITING_USER; TaskState.CANCELLED]
  | TaskState.WAITING_RECONCILIATION =>
      [TaskState.QUEUED; TaskState.WAITING_USER; TaskState.CANCELLED]
  | TaskState.PAUSED_SAFETY => [TaskState.QUEUED; TaskState.CANCELLED]
  | TaskState.PAUSED_EXTENSION => [TaskState.QUEUED; TaskState.CANCELLED]
  | TaskState.SUCCEEDED | TaskState.FAILED | TaskState.CANCELLED => []
  end.

(** [InvalidStateTransitionError(current, target)] *)
Definition invalid_transition {A} (current target : TaskState.t) : result A :=
  fail InvalidStateTransitionError
    ("state transition is not allowed: " ++ TaskState.value current ++ " -> "
     ++ TaskState.value target).

Definition transition_run (r : TaskRun) (target : TaskState.t) (reference reason : option string)
    (now : time) : result TaskRun :=
  if negb (mem_b target (run_allowed (run_state r))) then invalid_transition (run_state r) target
  else check_run (r {{ run_state := target; waiting_reference := reference;
                       pause_reason := reason; updated_at := now;
                       run_version := run_version r + 1 }}).

Definition resumable (s : TaskState.t) : bool :=
  match s with
  | TaskState.PAUSED_SAFETY | TaskState.WAITING_USER | TaskState.WAITING_APPROVAL
  | TaskState.WAITING_RECONCILIATION | TaskState.PAUSED_EXTENSION => true
  | _ => false
  end.

Definition resume_as_new_segment (r : TaskRun) (now : time) : result TaskRun :=
  if negb (resumable (run_state r)) then invalid_transition (run_state r) TaskState.QUEUED
  else check_run (r {{ run_state := TaskState.QUEUED; run_version := run_version r + 1;
                       segment_number := segment_number r + 1;
                       active_started_at := now; updated_at := now;
                       consecutive_errors := 0; no_progress_rounds := 0;
                       same_call_without_progress := 0; last_call_fingerprint := None;
                       last_observation_fingerprint := None; waiting_reference := None;
                       pause_reason := None }}).

(** ** Emergency fuse *)

Record FuseThresholds := {
  th_same_call : Z;
  th_errors : Z;
  th_no_progress : Z;
  th_duration : Z
}.

Definition check_thresholds (t : FuseThresholds) : result FuseThresholds :=
  _ ← raise_if (Z.min (Z.min (th_same_call t) (th_errors t)) (th_no_progress t) <? 1)
        PyValueError "emergency fuse thresholds may not be disabled";
  _ ← raise_if (th_duration t <=? 0) PyValueError "active duration fuse may not be disabled";
  Ok t.

Definition default_thresholds : FuseThresholds :=
  {| th_same_call := 3; th_errors := 5; th_no_progress := 8; th_duration := hours 24 |}.

Definition fuse_reason (t : FuseThresholds) (r : TaskRun) (now : time) : option string :=
  if th_same_call t <=? same_call_without_progress r then Some "SAME_CALL_WITHOUT_PROGRESS"
  else if th_errors t <=? consecutive_errors r then Some "CONSECUTIVE_ERRORS"
  else if th_no_progress t <=? no_progress_rounds r then Some "NO_PROGRESS_ROUNDS"
  else if th_duration t <=? now - active_started_at r then Some "ACTIVE_RUN_DURATION"
  else None.

(** [pause_reason]: the clock is only read when the counters are below their thresholds. *)
Definition fuse_check {F} `{SubE envE F} (t : FuseThresholds) (r : TaskRun)
  : prog F (option string) :=
  if th_same_call t <=? same_call_without_progress r then
    Ret (Some "SAME_CALL_WITHOUT_PROGRESS")
  else if th_errors t <=? consecutive_errors r then Ret (Some "CONSECUTIVE_ERRORS")
  else if th_no_progress t <=? no_progress_rounds r then Ret (Some "NO_PROGRESS_ROUNDS")
  else
    now ← call Now;
    Ret (if th_duration t <=? now - active_started_at r
         then Some "ACTIVE_RUN_DURATION" else None).

(** ** Progress detector *)

Definition call_value (c : ToolCall) : json :=
  JObj [("tool", JStr (tc_tool_id c)); ("version", JStr (tc_tool_version c));
        ("arguments", tc_arguments c)].

Definition progressed (r : TaskRun) (o : ToolOutcome) (observation : option string) : bool :=
  bool_decide (to_kind o = ToolOutcomeKind.SUCCESS)
  && match observation with
     | Some _ => negb (bool_decide (observation = last_observation_fingerprint r))
     | None => false
     end.

Definition observe (o : ToolOutcome) : result (option string) :=
  match to_result o with
  | Some v => match v with JNull => Ok None | _ => fp ← stable_fingerprint v; Ok (Some fp) end
  | None => Ok None
  end.

Definition record_progress (r : TaskRun) (c : ToolCall) (o : ToolOutcome) (now : time)
  : result TaskRun :=
  call_fingerprint ← stable_fingerprint (call_value c);
  observation ← observe o;
  let progressed := progressed r o observation in
  let same_without_progress :=
    if progressed then 0
    else if bool_decide (Some call_fingerprint = last_call_fingerprint r)
         then same_call_without_progress r + 1 else 1 in
  check_run (r {{ run_version := run_version r + 1; updated_at := now;
    last_call_fingerprint := Some call_fingerprint;
    last_observation_fingerprint :=
      if progressed then observation else last_observation_fingerprint r;
    same_call_without_progress := same_without_progress;
    no_progress_rounds := if progressed then 0 else no_progress_rounds r + 1;
    consecutive_errors := if bool_decide (to_kind o = ToolOutcomeKind.FAILED)
                          then consecutive_errors r + 1 else 0 }}).

(** ** Stores ([checkpoint.py]); every method is one atomic step. *)

Definition runs_add (r : TaskRun) : M (gmap string TaskRun) unit :=
  m ← get_state;
  match m !! run_id r with
  | Some _ => raise PyValueError ("run already exists: " ++ run_id r)
  | None => put_state (<[run_id r := r]> m)
  end.

Definition runs_get (id : string) : M (gmap string TaskRun) TaskRun :=
  m ← get_state;
  match m !! id with
  | Some r => mret r
  | None => raise PyKeyError ("unknown run: " ++ id)
  end.

Definition runs_save (r : TaskRun) (expected_version : Z) : M (gmap string TaskRun) unit :=
  m ← get_state;
  match m !! run_id r with
  | None => raise PyKeyError (run_id r)
  | Some current =>
      if negb (run_version current =? expected_version) || (run_version r <=? expected_version)
      then raise ConcurrentModificationError
             ("run version changed: expected " ++ str_of_Z expected_version ++ ", got "
              ++ str_of_Z (run_version current))
      else put_state (<[run_id r := r]> m)
  end.

Notation snapshot := (list (string * json)) (only parsing).

Definition checkpoint_load (id : string) : M (gmap string (list (string * json)))
    (list (string * json)) :=
  m ← get_state; mret (default [] (m !! id)).

Definition checkpoint_save (r : TaskRun) (snap : list (string * json))
  : M (gmap string (list (string * json))) unit :=
  m ← get_state;
  put_state (<[run_id r := assoc_set "run_version" (JInt (run_version r)) snap]> m).

(** ** Lemmas *)

(** [stable_fingerprint] is total: what [json] cannot print is stringified first. *)
Lemma dumps_stable_total v : exists t, dumps stable_opts (stringify_other v) = Ok t.
Proof.
  induction v as [|b|n|f|s|l IH|l IH|ty] using json_nested_ind; simpl; eauto.
  - destruct b; eauto.
  - unfold float_text. destruct f; simpl; eauto.
  - enough (exists ts, sequence (dumps stable_opts <$> (stringify_other <$> l)) = Ok ts) as [ts Hts]
      by (setoid_rewrite Hts; simpl; eauto).
    induction IH as [|x l [t Ht] _ [ts Hts]]; csimpl; [by exists []|].
    rewrite Ht. simpl. rewrite Hts. simpl. eauto.
  - match goal with |- context [sort_items ?its] => set (items := its) end.
    enough (forall its : list (string * result string), Forall (fun kv => exists t, kv.2 = Ok t) its ->
      exists ts, sequence its.*2 = Ok ts) as Hseq.
    { destruct (Hseq (sort_items items)) as [ts Hts].
      - unfold sort_items. rewrite merge_sort_Permutation. unfold items. clear -IH.
        induction IH as [|[k x] l [t Ht] _ IHl]; csimpl in *; constructor; [|done].
        simpl. rewrite Ht. simpl. eauto.
      - rewrite Hts. simpl. eauto. }
    clear. induction 1 as [|[k x] l [t Ht] _ [ts Hts]]; csimpl in *; [by exists []|].
    rewrite Ht. simpl. rewrite Hts. simpl. eauto.
Qed.

Lemma stable_fingerprint_total v : exists fp, stable_fingerprint v = Ok fp.
Proof.
  unfold stable_fingerprint. destruct (dumps_stable_total v) as [t ->]. simpl. eauto.
Qed.

Lemma observe_total o : exists ob, observe o = Ok ob.
Proof.
  unfold observe. destruct (to_result o) as [v|]; [|eauto].
  destruct (stable_fingerprint_total v) as [fp Hfp]. destruct v; rewrite ?Hfp; simpl; eauto.
Qed.

(** A record update that keeps the invariant of [__post_init__]. *)
Lemma check_run_intro r :
  run_id r <> "" -> run_task_id r <> "" -> blank (run_objective r) = false ->
  0 <= run_version r -> 1 <= segment_number r -> 0 <= consecutive_errors r ->
  0 <= no_progress_rounds r -> 0 <= same_call_without_progress r -> check_run r = Ok r.
Proof. intros. apply check_run_ok, run_ok_iff. done. Qed.

Lemma check_run_Ok_inv r r' : check_run r = Ok r' -> r' = r /\ run_ok r = true.
Proof.
  intros H. split; [|by unfold run_ok; rewrite H].
  assert (run_ok r = true) as Hok by (by unfold run_ok; rewrite H).
  apply check_run_ok in Hok. congruence.
Qed.

Lemma transition_run_Ok r target reference reason now r' :
  transition_run r target reference reason now = Ok r' ->
  target ∈ run_allowed (run_state r) /\ run_state r' = target /\
  waiting_reference r' = reference /\ pause_reason r' = reason /\
  run_version r' = run_version r + 1 /\ segment_number r' = segment_number r /\
  run_id r' = run_id r /\ run_task_id r' = run_task_id r /\ run_objective r' = run_objective r /\
  run_ok r' = true.
Proof.
  unfold transition_run. destruct (mem_b _ _) eqn:Hm; simpl; [|done]. apply mem_b_true in Hm.
  intros [-> Hok]%check_run_Ok_inv. by split_and!.
Qed.

(** A legal transition of a well-formed run never fails. *)
Lemma transition_run_succeeds r target reference reason now :
  run_ok r = true -> target ∈ run_allowed (run_state r) ->
  exists r', transition_run r target reference reason now = Ok r'.
Proof.
  intros (?&?&?&?&?&?&?&?)%run_ok_iff Ha. unfold transition_run.
  rewrite (proj2 (mem_b_true _ _) Ha). simpl. eexists. apply check_run_intro; simpl; done || lia.
Qed.

Lemma resume_Ok r now r' : resume_as_new_segment r now = Ok r' ->
  resumable (run_state r) = true /\ run_state r' = TaskState.QUEUED /\
  run_version r' = run_version r + 1 /\ segment_number r' = segment_number r + 1 /\
  active_started_at r' = now /\ consecutive_errors r' = 0 /\ no_progress_rounds r' = 0 /\
  same_call_without_progress r' = 0 /\ run_id r' = run_id r /\ run_task_id r' = run_task_id r /\
  run_objective r' = run_objective r /\ run_ok r' = true.
Proof.
  unfold resume_as_new_segment. destruct (resumable _) eqn:Hm; simpl; [|done].
  intros [-> Hok]%check_run_Ok_inv. by split_and!.
Qed.

(** One round of the progress detector, in closed form. *)
Lemma record_progress_spec r c o now : run_ok r = true ->
  exists r' cfp ob, stable_fingerprint (call_value c) = Ok cfp /\ observe o = Ok ob /\
    record_progress r c o now = Ok r' /\ run_ok r' = true /\
    run_state r' = run_state r /\ run_version r' = run_version r + 1 /\
    run_id r' = run_id r /\ run_task_id r' = run_task_id r /\ run_objective r' = run_objective r /\
    segment_number r' = segment_number r /\ active_started_at r' = active_started_at r /\
    last_call_fingerprint r' = Some cfp /\
    no_progress_rounds r' = (if progressed r o ob then 0 else no_progress_rounds r + 1) /\
    consecutive_errors r' = (if bool_decide (to_kind o = ToolOutcomeKind.FAILED)
                             then consecutive_errors r + 1 else 0) /\
    same_call_without_progress r' =
      (if progressed r o ob then 0
       else if bool_decide (Some cfp = last_call_fingerprint r)
            then same_call_without_progress r + 1 else 1) /\
    last_observation_fingerprint r' =
      (if progressed r o ob then ob else last_observation_fingerprint r).
Proof.
  intros (?&?&?&?&?&?&?&?)%run_ok_iff. unfold record_progress.
  destruct (stable_fingerprint_total (call_value c)) as [cfp ->].
  destruct (observe_total o) as [ob ->]. simpl.
  eexists _, cfp, ob. split; [done|]. split; [done|]. rewrite check_run_intro; simpl; try done; try lia.
  - split; [reflexivity|]. split_and!; try done. apply run_ok_iff. simpl.
    split_and!; try done; try lia; repeat case_match; lia.
  - case_match; lia.
  - case_match; lia.
  - repeat case_match; lia.
Qed.

(** ** Runs over time *)

Inductive run_step : TaskRun -> TaskRun -> Prop :=
| rs_transition r target reference reason now r' :
    transition_run r target reference reason now = Ok r' -> run_step r r'
| rs_resume r now r' : resume_as_new_segment r now = Ok r' -> run_step r r'
| rs_record r c o now r' : run_state r = TaskState.RUNNING ->
    record_progress r c o now = Ok r' -> run_step r r'.

Definition same_run (r r' : TaskRun) : Prop :=
  run_id r' = run_id r /\ run_task_id r' = run_task_id r /\ run_objective r' = run_objective r.

Lemma run_step_spec r r' : run_step r r' -> run_ok r = true ->
  run_ok r' = true /\ same_run r r' /\ run_version r' = run_version r + 1 /\
  segment_number r <= segment_number r' /\ TaskState.terminal (run_state r) = false.
Proof.
  intros Hs Hok. destruct Hs as [r target reference reason now r' H|r now r' H|r c o now r' Hst H].
  - apply transition_run_Ok in H as (Ha & _ & _ & _ & ? & ? & ? & ? & ? & ?).
    unfold same_run. split_and!; try done; [lia|].
    destruct (run_state r); simpl in *; try done; set_solver.
  - apply resume_Ok in H as (Ha & ? & ? & ? & _ & _ & _ & _ & ? & ? & ? & ?).
    unfold same_run. split_and!; try done; [lia|]. by destruct (run_state r).
  - destruct (record_progress_spec r c o now Hok)
      as (r1 & cfp & ob & _ & _ & H1 & ? & ? & ? & ? & ? & ? & ? & _).
    rewrite H in H1. injection H1 as <-.
    unfold same_run. split_and!; try done; [lia|]. by rewrite Hst.
Qed.

(** A run only moves along the state machine: its identity and invariant are kept, every
    persisted change has the next version, segments never go back, and a run that has
    succeeded, failed or been cancelled never changes again. *)
Theorem run_lifecycle r r' :
  run_ok r = true -> star run_step r r' ->
  run_ok r' = true /\ same_run r r' /\ run_version r <= run_version r' /\
  segment_number r <= segment_number r' /\
  (run_version r' = run_version r -> r' = r) /\
  (TaskState.terminal (run_state r) = true -> r' = r).
Proof.
  intros Hok Hs. revert Hok. induction Hs as [r|r1 r2 r3 Hstep Hs IH]; intros Hok.
  - unfold same_run. split_and!; done || lia.
  - destruct (run_step_spec r1 r2 Hstep Hok) as (Hok2 & (? & ? & ?) & ? & ? & Ht).
    destruct (IH Hok2) as (? & (? & ? & ?) & ? & ? & _ & _). unfold same_run.
    split_and!; try done; intros; first [congruence | lia].
Qed.

(** ** The fuse bounds unproductive rounds *)

(** Consecutive rounds of the engine: the fuse lets the round start, the outcome is recorded. *)
Inductive rounds (t : FuseThresholds) : TaskRun -> list (ToolCall * ToolOutcome) -> TaskRun -> Prop :=
| rounds_nil r : rounds t r [] r
| rounds_cons r c o now now' r1 l r' :
    fuse_reason t r now = None -> record_progress r c o now' = Ok r1 ->
    rounds t r1 l r' -> rounds t r ((c, o) :: l) r'.

(** The number of rounds that showed something new. *)
Fixpoint progress_count (r : TaskRun) (l : list (ToolCall * ToolOutcome)) : Z :=
  match l with
  | [] => 0
  | (c, o) :: l =>
      match observe o, record_progress r c o 0 with
      | Ok ob, Ok r' => (if progressed r o ob then 1 else 0) + progress_count r' l
      | _, _ => 0
      end
  end.

Lemma fuse_reason_None t r now : fuse_reason t r now = None <->
  same_call_without_progress r < th_same_call t /\ consecutive_errors r < th_errors t /\
  no_progress_rounds r < th_no_progress t /\ now - active_started_at r < th_duration t.
Proof.
  unfold fuse_reason. repeat case_match; bool_props; split; try done; try lia.
Qed.

(** The clock reading does not influence what counts as progress. *)
Lemma progress_count_now r r0 l : last_observation_fingerprint r = last_observation_fingerprint r0 ->
  run_ok r = true -> run_ok r0 = true -> progress_count r l = progress_count r0 l.
Proof.
  revert r r0; induction l as [|[c o] l IH]; intros r r0 Hl Hok Hok0; simpl; [done|].
  assert (forall x y ob, last_observation_fingerprint x = last_observation_fingerprint y ->
    progressed x o ob = progressed y o ob) as Hp.
  { intros x y ob Hxy. unfold progressed. by rewrite Hxy. }
  destruct (observe o) as [ob|] eqn:Hob; [|done]. rewrite (Hp r r0) by done.
  destruct (record_progress_spec r c o 0 Hok)
    as (r1 & ? & ob1 & _ & Hob1 & -> & Hok1 & _ & _ & _ & _ & _ & _ & _ & _ & _ & _ & _ & H1).
  destruct (record_progress_spec r0 c o 0 Hok0)
    as (r2 & ? & ob2 & _ & Hob2 & -> & Hok2 & _ & _ & _ & _ & _ & _ & _ & _ & _ & _ & _ & H2).
  f_equal. apply IH; [|done|done]. rewrite Hob in Hob1, Hob2.
  injection Hob1 as <-. injection Hob2 as <-. by rewrite H1, H2, (Hp r r0), Hl.
Qed.

Lemma record_progress_now r c o now r1 : run_ok r = true -> record_progress r c o now = Ok r1 ->
  run_ok r1 = true /\
  exists ob, observe o = Ok ob /\
    no_progress_rounds r1 = (if progressed r o ob then 0 else no_progress_rounds r + 1) /\
    forall l, progress_count r ((c, o) :: l) =
      (if progressed r o ob then 1 else 0) + progress_count r1 l.
Proof.
  intros Hok H. destruct (record_progress_spec r c o now Hok)
    as (r' & ? & ob & _ & Hob & H' & Hok1 & _ & _ & _ & _ & _ & _ & _ & _ & Hnp & _ & _ & Hlo).
  rewrite H in H'. injection H' as <-. split; [done|]. exists ob. split_and!; [done..|].
  intros l. simpl. rewrite Hob.
  destruct (record_progress_spec r c o 0 Hok)
    as (r2 & ? & ob2 & _ & Hob2 & -> & Hok2 & _ & _ & _ & _ & _ & _ & _ & _ & _ & _ & _ & Hlo2).
  rewrite Hob in Hob2. injection Hob2 as <-. f_equal. apply progress_count_now; [congruence|done..].
Qed.

Lemma check_thresholds_Ok t t' : check_thresholds t = Ok t' ->
  1 <= th_same_call t /\ 1 <= th_errors t /\ 1 <= th_no_progress t /\ 0 < th_duration t.
Proof.
  unfold check_thresholds, raise_if. intros H. run_guards H. bool_props. lia.
Qed.

(** The fuse bounds unproductive work: between two rounds that showed something new there
    are fewer than [th_no_progress] others, so the number of rounds a run can make is at most
    [th_no_progress] times one more than the number of productive ones. *)
Theorem fuse_bounds_rounds t r l r' :
  check_thresholds t = Ok t -> run_ok r = true -> rounds t r l r' ->
  Z.of_nat (length l) <= th_no_progress t * (progress_count r l + 1).
Proof.
  intros (_ & _ & Ht & _)%check_thresholds_Ok Hok Hr.
  enough (Z.of_nat (length l) <= Z.max 0 (th_no_progress t - no_progress_rounds r)
            + th_no_progress t * progress_count r l /\ 0 <= progress_count r l) as [H Hp].
  { apply run_ok_iff in Hok as (_&_&_&_&_&_&?&_). nia. }
  revert Hok; induction Hr as [r|r c o now now' r1 l r' Hf Hrec Hr IH]; intros Hok; [simpl; lia|].
  destruct (record_progress_now r c o now' r1 Hok Hrec) as (Hok1 & ob & _ & Hnp & Hpc).
  destruct (IH Hok1) as [IH1 IH2]. rewrite Hpc. cbn [length]. rewrite Hnp in IH1.
  apply fuse_reason_None in Hf as (_ & _ & Hlt & _).
  apply run_ok_iff in Hok as (_&_&_&_&_&_&?&_). destruct (progressed r o ob); lia.
Qed.

Lemma progress_count_nonneg r l : 0 <= progress_count r l.
Proof.
  revert r; induction l as [|[c o] l IH]; intros r; simpl; [lia|].
  destruct (observe o) as [ob|]; [|lia]. destruct (record_progress r c o 0) as [r'|]; [|lia].
  specialize (IH r'). destruct (progressed r o ob); lia.
Qed.

(** Repetition is cut off: a run that keeps making the same call without anything new, or
    whose calls keep failing, is paused within the configured number of rounds. *)
Theorem fuse_stops_repetition t r l r' :
  check_thresholds t = Ok t -> run_ok r = true -> rounds t r l r' ->
  (Forall (fun co => to_kind co.2 = ToolOutcomeKind.FAILED) l ->
     Z.of_nat (length l) <= th_errors t) /\
  (forall c, Forall (fun co => co.1 = c) l -> progress_count r l = 0 ->
     Z.of_nat (length l) <= th_same_call t).
Proof.
  intros (Hs & He & _ & _)%check_thresholds_Ok Hok Hr. split.
  - intros Hall.
    enough (Z.of_nat (length l) <= Z.max 0 (th_errors t - consecutive_errors r)) as H.
    { apply run_ok_iff in Hok. lia. }
    revert Hok Hall; induction Hr as [r|r c o now now' r1 l r' Hf Hrec Hr IH];
      intros Hok Hall; [simpl; lia|].
    apply Forall_cons in Hall as [Hk Hall]. simpl in Hk.
    destruct (record_progress_spec r c o now' Hok)
      as (r2 & cfp & ob & _ & _ & H' & Hok1 & _ & _ & _ & _ & _ & _ & _ & _ & _ & Hce & _).
    rewrite Hrec in H'. injection H' as <-. specialize (IH Hok1 Hall).
    rewrite Hce, bool_decide_eq_true_2 in IH by done. cbn [length].
    apply fuse_reason_None in Hf. lia.
  - intros c0 Hall Hpc. destruct (stable_fingerprint_total (call_value c0)) as [fp Hfp].
    enough (Z.of_nat (length l) <= Z.max 0 (th_same_call t -
              if bool_decide (Some fp = last_call_fingerprint r)
              then same_call_without_progress r else 0)) as H.
    { apply run_ok_iff in Hok. case_bool_decide; lia. }
    revert Hok Hall Hpc; induction Hr as [r|r c o now now' r1 l r' Hf Hrec Hr IH];
      intros Hok Hall Hpc; [simpl; lia|].
    apply Forall_cons in Hall as [Hc Hall]. simpl in Hc. subst c0.
    destruct (record_progress_now r c o now' r1 Hok Hrec) as (Hok1 & ob & Hob & _ & Hp).
    rewrite Hp in Hpc. pose proof (progress_count_nonneg r1 l).
    assert (progressed r o ob = false) as Hno by (destruct (progressed r o ob); [lia|done]).
    specialize (IH Hok1 Hall ltac:(destruct (progressed r o ob); lia)).
    destruct (record_progress_spec r c o now' Hok)
      as (r2 & cfp & ob2 & Hcfp & Hob2 & H' & _ & _ & _ & _ & _ & _ & _ & _ & Hlc & _ & _ & Hsc & _).
    rewrite Hrec in H'. injection H' as <-. simplify_eq.
    rewrite Hob in Hob2. rewrite Hfp in Hcfp. simplify_eq.
    rewrite Hlc, Hsc, Hno, bool_decide_eq_true_2 in IH by done. cbn [length].
    apply fuse_reason_None in Hf. apply run_ok_iff in Hok.
    case_bool_decide; lia.
Qed.

(** ** Concrete runs *)

Module RunScenario.
Definition running : TaskRun := {|
  run_id := "run-1"; run_task_id := "task-1"; run_objective := "sort the mailbox";
  run_state := TaskState.RUNNING; run_version := 1; segment_number := 1;
  active_started_at := 0; updated_at := 0; consecutive_errors := 0; no_progress_rounds := 0;
  same_call_without_progress := 0; last_call_fingerprint := None;
  last_observation_fingerprint := None; waiting_reference := None; pause_reason := None |}.

Definition search : ToolCall := {|
  tc_tool_id := "mail.search"; tc_tool_version := "1"; tc_arguments := JObj [("q", JStr "x")];
  tc_task_id := "task-1"; tc_target := JNull; tc_attachments := [];
  tc_granted_capabilities := []; tc_workflow_allowed_tools := ["mail.search"];
  tc_approval_id := None; tc_idempotency_key := None; tc_form_version := None |}.

Definition broken : ToolOutcome := outcome_failed "executor error: OSError" true.

(** The run after [n] failed searches. *)
Fixpoint after (n : nat) (r : TaskRun) : TaskRun :=
  match n with
  | O => r
  | S n => match record_progress r search broken 0 with Ok r' => after n r' | Err _ => r end
  end.
End RunScenario.

Lemma run_lifecycle_witness :
  exists r', transition_run RunScenario.running TaskState.PAUSED_SAFETY None (Some "CONSECUTIVE_ERRORS") 7
    = Ok r' /\ run_ok r' = true /\ run_version RunScenario.running <= run_version r'.
Proof.
  eexists. split; [vm_compute; reflexivity|].
  destruct (run_lifecycle RunScenario.running (RunScenario.running
    {{ run_state := TaskState.PAUSED_SAFETY; pause_reason := Some "CONSECUTIVE_ERRORS";
       updated_at := 7; run_version := 2 }})) as (H1 & _ & H2 & _).
  - vm_compute. reflexivity.
  - apply star_one. apply (rs_transition _ TaskState.PAUSED_SAFETY None (Some "CONSECUTIVE_ERRORS") 7).
    vm_compute. reflexivity.
  - exact (conj H1 H2).
Defined.

(** Three failed searches in a row are three rounds; the fourth does not start. *)
Lemma three_failed_rounds :
  rounds default_thresholds RunScenario.running
    (replicate 3 (RunScenario.search, RunScenario.broken)) (RunScenario.after 3 RunScenario.running).
Proof.
  simpl. do 3 (eapply (rounds_cons _ _ _ _ 0 0); [vm_compute; reflexivity..|]). constructor.
Qed.

Lemma fuse_bounds_rounds_witness :
  Z.of_nat (length (replicate 3 (RunScenario.search, RunScenario.broken))) <=
  th_no_progress default_thresholds *
    (progress_count RunScenario.running (replicate 3 (RunScenario.search, RunScenario.broken)) + 1).
Proof.
  apply (fuse_bounds_rounds default_thresholds RunScenario.running _
           (RunScenario.after 3 RunScenario.running)); [vm_compute; reflexivity..|].
  apply three_failed_rounds.
Defined.

Lemma fuse_stops_repetition_witness :
  Z.of_nat (length (replicate 3 (RunScenario.search, RunScenario.broken)))
    <= th_same_call default_thresholds /\
  fuse_reason default_thresholds (RunScenario.after 3 RunScenario.running) 0
    = Some "SAME_CALL_WITHOUT_PROGRESS".
Proof.
  split; [|vm_compute; reflexivity].
  destruct (fuse_stops_repetition default_thresholds RunScenario.running
    (replicate 3 (RunScenario.search, RunScenario.broken)) (RunScenario.after 3 RunScenario.running))
    as [_ H].
  - vm_compute. reflexivity.
  - vm_compute. reflexivity.
  - apply three_failed_rounds.
  - apply (H RunScenario.search); [repeat constructor|vm_compute; reflexivity].
Defined.
