(* ===== verification/Engine.v ===== *)
(** * Engine: the recoverable plan / act / observe loop

    Models [core/agent/engine.py].  The planner, the decision validator, the context manager, the
    tool gateway and the stores are ports of the engine: operations of [engE] that may answer
    with any value or exception.  The [while] loop takes fuel, one unit per round, and returns
    [None] when it runs out; [fuse_bounds_rounds] and [engine_returns] say how much is enough. *)

From S2P Require Import Prelude Text Json Domain Agent.
Local Open Scope string_scope.
Local Open Scope Z_scope.

Inductive DecisionKind := CALL_TOOL | NEEDS_USER | COMPLETE.

#[global] Instance decision_kind_eq_dec : EqDecision DecisionKind.
Proof. solve_decision. Defined.

Record ValidatedDecision := {
  vd_kind : DecisionKind;
  vd_tool_call : option ToolCall;
  vd_message : option string;
  vd_result : json
}.

(** [__post_init__] *)
Definition check_decision (d : ValidatedDecision) : result ValidatedDecision :=
  match vd_kind d, vd_tool_call d with
  | CALL_TOOL, None => fail PyValueError "CALL_TOOL requires tool_call"
  | NEEDS_USER, Some _ | COMPLETE, Some _ =>
      fail PyValueError "only CALL_TOOL may carry tool_call"
  | _, _ => Ok d
  end.

Section signature.
Context (Ctx : Type).

Inductive engE : Type -> Type :=
| ERunsGet (id : string) : engE TaskRun
| ERunsSave (r : TaskRun) (expected_version : Z) : engE unit
| ELoad (id : string) : engE (list (string * json))
| ECheckpoint (r : TaskRun) (snap : list (string * json)) : engE unit
| EObserve (id : string) (value : json) : engE unit
| ECompose (task_id purpose query objective : string) (snap : list (string * json)) : engE Ctx
| EDescriptors : engE (list ToolDescriptor)
| EPropose (objective : string) (context : Ctx) (tools : list ToolDescriptor) : engE json
| EValidate (proposal : json) (r : TaskRun) : engE ValidatedDecision
| EInvoke (c : ToolCall) : engE ToolOutcome
| EBegin : engE unit
| ECommit : engE unit
| ERollback : engE unit
| EEnv {X} (op : envE X) : engE X.

#[global] Instance SubE_eng_env : SubE envE engE := fun X op => EEnv op.
End signature.

Arguments ERunsGet {Ctx} id.
Arguments ERunsSave {Ctx} r expected_version.
Arguments ELoad {Ctx} id.
Arguments ECheckpoint {Ctx} r snap.
Arguments EObserve {Ctx} id value.
Arguments ECompose {Ctx} task_id purpose query objective snap.
Arguments EDescriptors {Ctx}.
Arguments EPropose {Ctx} objective context tools.
Arguments EValidate {Ctx} proposal r.
Arguments EInvoke {Ctx} c.
Arguments EBegin {Ctx}.
Arguments ECommit {Ctx}.
Arguments ERollback {Ctx}.
Arguments EEnv {Ctx X} op.

(** The outcomes that suspend the run, and where they leave it. *)
Definition waiting_state (k : ToolOutcomeKind.t) : option TaskState.t :=
  match k with
  | ToolOutcomeKind.APPROVAL_REQUIRED => Some TaskState.WAITING_APPROVAL
  | ToolOutcomeKind.USER_ACTION_REQUIRED => Some TaskState.WAITING_USER
  | ToolOutcomeKind.EXTENSION_UNAVAILABLE => Some TaskState.PAUSED_EXTENSION
  | ToolOutcomeKind.OUTCOME_UNKNOWN => Some TaskState.WAITING_RECONCILIATION
  | ToolOutcomeKind.SAFETY_PAUSE => Some TaskState.PAUSED_SAFETY
  | ToolOutcomeKind.SUCCESS | ToolOutcomeKind.FAILED => None
  end.

(** [a or b or c] on optional strings. *)
Definition first_truthy (a b c : option string) : option string :=
  if truthy a then a else if truthy b then b else c.

Section engine.
Context {Ctx : Type} (has_unit_of_work : bool) (thresholds : FuseThresholds).

(** [async with self._scope(): body] *)
Definition _scope {A} (body : prog (engE Ctx) A) : prog (engE Ctx) A :=
  if has_unit_of_work then
    _ ← call EBegin;
    prog_match body (fun a => _ ← call ECommit; Ret a) (fun e => _ ← call ERollback; Raise e)
  else body.

Definition opt_json (o : option string) : json := match o with Some s => JStr s | None => JNull end.

Definition _transition (r : TaskRun) (state : TaskState.t) (reference reason : option string)
  : prog (engE Ctx) TaskRun :=
  now ← call Now;
  updated ← of_result (transition_run r state reference reason now);
  _ ← _scope (
    _ ← call (ERunsSave updated (run_version r));
    call (ECheckpoint updated
      [("state", JStr (TaskState.value (run_state updated))); ("reference", opt_json reference);
       ("reason", opt_json reason)]));
  Ret updated.

(** One round up to the validated decision. *)
Definition plan (r : TaskRun) : prog (engE Ctx) ValidatedDecision :=
  snap ← call (ELoad (run_id r));
  composed ← call (ECompose (run_task_id r) "agent.run" (run_objective r) (run_objective r) snap);
  tools ← call EDescriptors;
  proposal ← call (EPropose (run_objective r) composed tools);
  call (EValidate proposal r).

(** Recording the outcome of a tool call that does not suspend the run. *)
Definition record_round (r : TaskRun) (c : ToolCall) (outcome : ToolOutcome)
  : prog (engE Ctx) TaskRun :=
  _scope (
    _ ← call (EObserve (run_id r) (default JNull (to_result outcome)));
    now ← call Now;
    r' ← of_result (record_progress r c outcome now);
    _ ← call (ERunsSave r' (run_version r));
    _ ← call (ECheckpoint r'
      [("last_outcome", JStr (ToolOutcomeKind.value (to_kind outcome)));
       ("last_reference", opt_json (to_reference_id outcome))]);
    Ret r').

Fixpoint engine_loop (fuel : nat) (r : TaskRun) : prog (engE Ctx) (option TaskRun) :=
  match fuel with
  | O => Ret None
  | S fuel =>
      if negb (bool_decide (run_state r = TaskState.RUNNING)) then Ret (Some r) else
      reason ← fuse_check thresholds r;
      match reason with
      | Some why =>
          r' ← _transition r TaskState.PAUSED_SAFETY None (Some why); Ret (Some r')
      | None =>
          decision ← plan r;
          match vd_kind decision, vd_tool_call decision with
          | NEEDS_USER, _ =>
              r' ← _transition r TaskState.WAITING_USER None
                     (Some (str_or (vd_message decision) "USER_INPUT_REQUIRED"));
              Ret (Some r')
          | COMPLETE, _ =>
              r' ← _scope (_ ← call (EObserve (run_id r) (vd_result decision));
                           _transition r TaskState.SUCCEEDED None None);
              Ret (Some r')
          | CALL_TOOL, None => raise_prog PyException "AssertionError"
          | CALL_TOOL, Some c =>
              outcome ← call (EInvoke c);
              match waiting_state (to_kind outcome) with
              | Some waiting =>
                  r' ← _transition r waiting
                         (first_truthy (to_approval_id outcome) (to_reference_id outcome)
                            (to_extension_id outcome)) (to_message outcome);
                  Ret (Some r')
              | None => r' ← record_round r c outcome; engine_loop fuel r'
              end
          end
      end
  end.

(** [AgentEngine.run] *)
Definition engine_run (fuel : nat) (id : string) : prog (engE Ctx) (option TaskRun) :=
  r ← call (ERunsGet id);
  if negb (bool_decide (run_state r = TaskState.RUNNING)) then Ret (Some r)
  else engine_loop fuel r.

End engine.

(** ** What the engine asks of the gateway *)

Section traces.
Context {Ctx : Type} (has_unit_of_work : bool) (thresholds : FuseThresholds).

(** The tool calls of a trace with their outcomes. *)
Definition invocation (ev : event (engE Ctx)) : list (ToolCall * result ToolOutcome) :=
  match ev with
  | Event op ans =>
      match op in engE _ Y return result Y -> list (ToolCall * result ToolOutcome) with
      | EInvoke c => fun r => [(c, r)]
      | _ => fun _ => []
      end ans
  end.

Definition invocations (tr : list (event (engE Ctx))) : list (ToolCall * result ToolOutcome) :=
  List.flat_map invocation tr.

Lemma invocations_app tr1 tr2 :
  invocations (tr1 ++ tr2) = (invocations tr1 ++ invocations tr2)%list.
Proof. apply List.flat_map_app. Qed.

(** A program that calls no tool and whose results satisfy [P]. *)
Definition quiet {A} (p : prog (engE Ctx) A) (P : A -> Prop) : Prop :=
  forall tr res, execs p tr res -> invocations tr = [] /\ forall a, res = Ok a -> P a.

Lemma quiet_mono {A} (p : prog (engE Ctx) A) (P Q : A -> Prop) :
  quiet p P -> (forall a, P a -> Q a) -> quiet p Q.
Proof. intros Hp HPQ tr res H. destruct (Hp tr res H). eauto. Qed.

Lemma quiet_ret {A} (a : A) (P : A -> Prop) : P a -> quiet (Ret a) P.
Proof. intros HP tr res [-> ->]. split; [done|]. by intros ? [= <-]. Qed.

Lemma quiet_bind {A B} (p : prog (engE Ctx) A) (f : A -> prog (engE Ctx) B) P Q :
  quiet p P -> (forall a, P a -> quiet (f a) Q) -> quiet (p ≫= f) Q.
Proof.
  intros Hp Hf tr res (tr1 & tr2 & r1 & -> & H1 & H2)%execs_bind.
  destruct (Hp tr1 r1 H1) as [E1 HP]. rewrite invocations_app, E1. destruct r1 as [a|e].
  - apply (Hf a (HP a eq_refl) tr2 res H2).
  - destruct H2 as [-> ->]. by split.
Qed.

Lemma quiet_of_result {A} (x : result A) : quiet (of_result x) (fun a => x = Ok a).
Proof. intros tr res [-> ->]%execs_of_result. by split. Qed.

Lemma quiet_call {X} (op : engE Ctx X) : match op with EInvoke _ => False | _ => True end ->
  quiet (call op) (fun _ => True).
Proof. intros Hop tr res ->%execs_call. split; [by destruct op|done]. Qed.

Lemma quiet_now : quiet (call Now) (fun _ => True).
Proof. intros tr res ->%execs_call. by split. Qed.

Lemma quiet_scope {A} (p : prog (engE Ctx) A) P : quiet p P -> quiet (_scope has_unit_of_work p) P.
Proof.
  intros Hp. unfold _scope. destruct has_unit_of_work; [|done].
  eapply quiet_bind; [by apply quiet_call|]. intros _ _ tr res (tr1 & tr2 & r1 & -> & H1 & H2)%execs_match.
  destruct (Hp tr1 r1 H1) as [E1 HP]. rewrite invocations_app, E1. destruct r1 as [a|e].
  - revert H2. eapply quiet_bind; [by apply quiet_call|]. intros _ _. apply quiet_ret. by apply HP.
  - revert H2. eapply quiet_bind; [by apply quiet_call|]. intros _ _ tr3 res3 [-> ->]. by split.
Qed.

Lemma quiet_transition r state reference reason :
  quiet (_transition has_unit_of_work r state reference reason)
    (fun r' => exists now, transition_run r state reference reason now = Ok r').
Proof.
  unfold _transition. eapply quiet_bind; [apply quiet_now|]. intros now _.
  eapply quiet_bind; [apply quiet_of_result|]. intros r' Hr'. simpl in Hr'.
  eapply quiet_bind; [apply quiet_scope|].
  - eapply quiet_bind; [by apply quiet_call|]. intros _ _. by apply quiet_call.
  - intros _ _. apply quiet_ret. eauto.
Qed.

Lemma quiet_fuse r : quiet (fuse_check (F := engE Ctx) thresholds r)
  (fun reason => reason = None -> exists now, fuse_reason thresholds r now = None).
Proof.
  unfold fuse_check, fuse_reason.
  destruct (th_same_call thresholds <=? _); [by apply quiet_ret|].
  destruct (th_errors thresholds <=? _); [by apply quiet_ret|].
  destruct (th_no_progress thresholds <=? _); [by apply quiet_ret|].
  eapply quiet_bind; [apply quiet_now|]. intros now _. apply quiet_ret. eauto.
Qed.

Lemma quiet_plan r : quiet (plan (Ctx := Ctx) r) (fun _ => True).
Proof.
  unfold plan. repeat (eapply quiet_bind; [by apply quiet_call|]; intros ? _).
  by apply quiet_call.
Qed.

Lemma quiet_record r c o :
  quiet (record_round has_unit_of_work r c o) (fun r' => exists now, record_progress r c o now = Ok r').
Proof.
  unfold record_round. apply quiet_scope. eapply quiet_bind; [by apply quiet_call|]. intros _ _.
  eapply quiet_bind; [apply quiet_now|]. intros now _.
  eapply quiet_bind; [apply quiet_of_result|]. intros r' Hr'. simpl in Hr'.
  do 2 (eapply quiet_bind; [by apply quiet_call|]; intros _ _). apply quiet_ret. eauto.
Qed.

(** Everything the loop does, round by round: all invocations but the last are recorded rounds
    that the fuse let start and whose outcome lets the run go on. *)
Record engine_spec (fuel : nat) (r : TaskRun) (calls : list (ToolCall * result ToolOutcome))
    (res : result (option TaskRun)) (l : list (ToolCall * ToolOutcome))
    (last : list (ToolCall * result ToolOutcome)) : Prop := {
  es_calls : calls = (((fun co => (co.1, Ok co.2)) <$> l) ++ last)%list;
  es_last : (length last <= 1)%nat;
  es_rounds : exists r1, rounds thresholds r l r1;
  es_go_on : Forall (fun co => waiting_state (to_kind co.2) = None) l;
  es_fuel : res = Ok None -> last = [] /\ length l = fuel;
  es_final : forall r', res = Ok (Some r') ->
    run_ok r' = true /\ run_state r' <> TaskState.RUNNING /\ star run_step r r'
}.

(** The run was moved out of [RUNNING] by a legal transition. *)
Definition stopped (r r' : TaskRun) : Prop :=
  exists state reference reason now, state <> TaskState.RUNNING /\
    transition_run r state reference reason now = Ok r'.

Lemma quiet_stop r state reference reason : state <> TaskState.RUNNING ->
  quiet (_transition has_unit_of_work r state reference reason) (stopped r).
Proof.
  intros Hs. eapply quiet_mono; [apply quiet_transition|]. intros r' [now ?].
  by exists state, reference, reason, now.
Qed.

(** A round that ends the loop with a transition of the run. *)
Lemma engine_spec_stop fuel r (p : prog (engE Ctx) TaskRun) last tr res :
  quiet p (stopped r) -> (length last <= 1)%nat ->
  execs (r' ← p; Ret (Some r')) tr res ->
  exists l last', engine_spec fuel r (last ++ invocations tr) res l last'.
Proof.
  intros Hp Hlast H. exists [], last.
  assert (quiet (r' ← p; Ret (Some r')) (fun o => exists r', o = Some r' /\ stopped r r')) as Hq.
  { eapply quiet_bind; [exact Hp|]. intros r' ?. apply quiet_ret. eauto. }
  destruct (Hq tr res H) as [-> HP]. split; simpl; try done.
  - by rewrite app_nil_r.
  - exists r. constructor.
  - intros ->. destruct (HP _ eq_refl) as (? & ? & _). done.
  - intros r' ->. destruct (HP _ eq_refl) as (r2 & [= <-] & (st & rf & rs & now & Hst & Ht)).
    pose proof (transition_run_Ok _ _ _ _ _ _ Ht) as (_ & Hs & _ & _ & _ & _ & _ & _ & _ & ?).
    split_and!; [done|congruence|]. apply star_one. by eapply rs_transition.
Qed.

(** A round that ends the loop with an exception of a port. *)
Lemma engine_spec_error fuel r last e : (length last <= 1)%nat ->
  exists l last', engine_spec fuel r last (Err e) l last'.
Proof.
  intros Hl. exists [], last. split; simpl; try done. exists r. constructor.
Qed.

Lemma waiting_not_running k s : waiting_state k = Some s -> s <> TaskState.RUNNING.
Proof. destruct k; simpl; congruence. Qed.

#[local] Arguments prog_bind : simpl never.
#[local] Arguments prog_match : simpl never.
#[local] Arguments perform : simpl never.
#[local] Arguments execs : simpl never.

Lemma engine_loop_spec fuel r tr res :
  run_ok r = true -> execs (engine_loop has_unit_of_work thresholds fuel r) tr res ->
  exists l last, engine_spec fuel r (invocations tr) res l last.
Proof.
  revert r tr; induction fuel as [|fuel IH]; intros r tr Hok H; cbn [engine_loop] in H.
  { destruct H as [-> ->]. exists [], []. split; simpl; try done; [lia|]. exists r. constructor. }
  destruct (bool_decide (run_state r = TaskState.RUNNING)) eqn:Hrun; cbn [negb] in H; bool_props.
  2:{ destruct H as [-> ->]. exists [], []. split; simpl; try done; [lia|exists r; constructor|].
      intros r' [= <-]. split_and!; try done. constructor. }
  apply execs_bind in H as (tr1 & tr2 & reason & -> & H1 & H2).
  destruct (quiet_fuse r tr1 reason H1) as [E1 Hf]. rewrite invocations_app, E1. simpl.
  destruct reason as [[why|]|e]; [| |destruct H2 as [-> ->]; apply engine_spec_error; simpl; lia].
  { eapply (engine_spec_stop _ _ _ []); [|simpl; lia|exact H2]. by apply quiet_stop. }
  destruct (Hf None eq_refl eq_refl) as [now Hnow]. clear Hf H1.
  apply execs_bind in H2 as (tr3 & tr4 & decision & -> & H3 & H4).
  destruct (quiet_plan r tr3 decision H3) as [E3 _]. rewrite invocations_app, E3. simpl.
  destruct decision as [d|e]; [|destruct H4 as [-> ->]; apply engine_spec_error; simpl; lia].
  destruct (vd_kind d).
  - destruct (vd_tool_call d) as [c|]; [|destruct H4 as [-> ->]; apply engine_spec_error; simpl; lia].
    apply execs_bind in H4 as (tr5 & tr6 & outcome & -> & ->%execs_call & H6). simpl.
    destruct outcome as [o|e]; [|destruct H6 as [-> ->]; apply engine_spec_error; simpl; lia].
    destruct (waiting_state (to_kind o)) as [st|] eqn:Hw.
    { eapply (engine_spec_stop _ _ _ [(c, Ok o)]); [|simpl; lia|exact H6].
      by eapply quiet_stop, waiting_not_running. }
    apply execs_bind in H6 as (tr7 & tr8 & rec & -> & H7 & H8).
    destruct (quiet_record r c o tr7 rec H7) as [E7 Hrec]. rewrite invocations_app, E7. simpl.
    destruct rec as [r1|e]; [|destruct H8 as [-> ->]; apply engine_spec_error; simpl; lia].
    destruct (Hrec r1 eq_refl) as [now' Hr1].
    destruct (record_progress_now r c o now' r1 Hok Hr1) as [Hok1 _].
    destruct (IH r1 tr8 Hok1 H8) as (l & last & [-> Hl [r2 Hr] Hg Hfu Hfi]).
    exists ((c, o) :: l), last. split; simpl; try done.
    + exists r2. by eapply rounds_cons.
    + by constructor.
    + intros Hres. destruct (Hfu Hres). split; [done|lia].
    + intros r' Hres. destruct (Hfi r' Hres) as (? & ? & ?). split_and!; try done.
      eapply star_step; [|done]. by eapply rs_record.
  - eapply (engine_spec_stop _ _ _ []); [|simpl; lia|exact H4]. by apply quiet_stop.
  - eapply (engine_spec_stop _ _ _ []); [|simpl; lia|exact H4].
    apply quiet_scope. eapply quiet_bind; [by apply quiet_call|]. intros _ _. by apply quiet_stop.
Qed.

(** Nothing runs after an outcome that needs somebody else: when a tool call answers that an
    approval, the user, an extension or a reconciliation is needed, or that its outcome is
    unknown, it is the last call of the segment, so it is never retried by the loop. *)
Theorem waiting_outcome_ends_the_segment fuel r tr res calls c o rest :
  run_ok r = true -> execs (engine_loop has_unit_of_work thresholds fuel r) tr res ->
  invocations tr = (calls ++ (c, Ok o) :: rest)%list -> waiting_state (to_kind o) <> None ->
  rest = [].
Proof.
  intros Hok H Htr Hw. destruct (engine_loop_spec fuel r tr res Hok H) as (l & last & Hs).
  destruct Hs as [Hc Hl _ Hg _ _]. rewrite Htr in Hc. clear -Hc Hl Hg Hw. revert l Hc Hg.
  induction calls as [|x calls IH]; intros [|y l] Hc Hg; simpl in Hc.
  - destruct last as [|? [|]]; simplify_eq/=; [done|lia].
  - apply Forall_cons in Hg as [Hg _]. simplify_eq/=.
  - destruct last as [|? [|]]; simplify_eq/=; [by destruct calls|lia].
  - apply Forall_cons in Hg as [_ Hg]. simplify_eq/=. by eapply IH.
Qed.

(** ** What the loop hands back *)

(** A port answers when it does not raise; the decisions the validator answers with are objects
    whose [__post_init__] has run. *)
Definition answered (ev : event (engE Ctx)) : Prop :=
  match ev with
  | Event op ans =>
      match op in engE _ Y return result Y -> Prop with
      | EValidate _ _ => fun r => exists d, r = Ok d /\ check_decision d = Ok d
      | _ => fun r => is_ok r = true
      end ans
  end.

(** The decisions and the outcomes of a trace, in order. *)
Inductive verdict := Decided (d : ValidatedDecision) | Came (o : ToolOutcome).

Definition verdict_of (ev : event (engE Ctx)) : list verdict :=
  match ev with
  | Event op ans =>
      match op in engE _ Y return result Y -> list verdict with
      | EValidate _ _ => fun r => match r with Ok d => [Decided d] | Err _ => [] end
      | EInvoke _ => fun r => match r with Ok o => [Came o] | Err _ => [] end
      | _ => fun _ => []
      end ans
  end.

Definition verdicts (tr : list (event (engE Ctx))) : list verdict := List.flat_map verdict_of tr.

(** The state the last verdict calls for; without one, or after an outcome the run could have
    gone on from, only the fuse stops the loop. *)
Inductive called_for : option verdict -> TaskState.t -> Prop :=
| cf_user d : vd_kind d = NEEDS_USER -> called_for (Some (Decided d)) TaskState.WAITING_USER
| cf_complete d : vd_kind d = COMPLETE -> called_for (Some (Decided d)) TaskState.SUCCEEDED
| cf_approval o : to_kind o = ToolOutcomeKind.APPROVAL_REQUIRED ->
    called_for (Some (Came o)) TaskState.WAITING_APPROVAL
| cf_action o : to_kind o = ToolOutcomeKind.USER_ACTION_REQUIRED ->
    called_for (Some (Came o)) TaskState.WAITING_USER
| cf_extension o : to_kind o = ToolOutcomeKind.EXTENSION_UNAVAILABLE ->
    called_for (Some (Came o)) TaskState.PAUSED_EXTENSION
| cf_unknown o : to_kind o = ToolOutcomeKind.OUTCOME_UNKNOWN ->
    called_for (Some (Came o)) TaskState.WAITING_RECONCILIATION
| cf_safety o : to_kind o = ToolOutcomeKind.SAFETY_PAUSE ->
    called_for (Some (Came o)) TaskState.PAUSED_SAFETY
| cf_fuse o : to_kind o = ToolOutcomeKind.SUCCESS \/ to_kind o = ToolOutcomeKind.FAILED ->
    called_for (Some (Came o)) TaskState.PAUSED_SAFETY
| cf_at_once : called_for None TaskState.PAUSED_SAFETY.

(** With answering ports the program returns, and its result and verdicts satisfy [Q]. *)
Definition sure {A} (p : prog (engE Ctx) A) (Q : A -> list verdict -> Prop) : Prop :=
  forall tr res, execs p tr res -> Forall answered tr -> exists a, res = Ok a /\ Q a (verdicts tr).

Lemma sure_ret {A} (a : A) (Q : A -> list verdict -> Prop) : Q a [] -> sure (Ret a) Q.
Proof. intros HQ tr res [-> ->] _. by exists a. Qed.

Lemma sure_bind {A B} (p : prog (engE Ctx) A) (f : A -> prog (engE Ctx) B) P Q :
  sure p P -> (forall a v, P a v -> sure (f a) (fun b w => Q b (v ++ w)%list)) -> sure (p ≫= f) Q.
Proof.
  intros Hp Hf tr res (tr1 & tr2 & r1 & -> & H1 & H2)%execs_bind [Ha1 Ha2]%Forall_app.
  destruct (Hp tr1 r1 H1 Ha1) as (a & -> & HP). unfold verdicts. rewrite List.flat_map_app.
  by apply (Hf a _ HP tr2 res H2 Ha2).
Qed.

Lemma sure_of_result {A} (x : A) r : r = Ok x -> sure (of_result r) (fun a v => a = x /\ v = []).
Proof. intros -> tr res [-> ->] _. eauto. Qed.

(** A call of a port whose answer is not a verdict. *)
Lemma sure_call {X} (op : engE Ctx X) :
  match op with EInvoke _ | EValidate _ _ => False | _ => True end ->
  sure (call op) (fun _ v => v = []).
Proof.
  intros Hop tr res ->%execs_call Ha. apply Forall_cons in Ha as [Ha _].
  destruct op; try done; (destruct res as [x|]; [by exists x|discriminate (Ha : false = true)]).
Qed.

Lemma sure_now : sure (call Now) (fun _ v => v = []).
Proof.
  intros tr res ->%execs_call Ha. apply Forall_cons in Ha as [Ha _]. destruct res as [x|]; [by exists x|discriminate (Ha : false = true)].
Qed.

Lemma sure_validate proposal r :
  sure (call (EValidate proposal r)) (fun d v => v = [Decided d] /\ check_decision d = Ok d).
Proof.
  intros tr res ->%execs_call Ha. apply Forall_cons in Ha as [(d & -> & Hd) _]. by exists d.
Qed.

Lemma sure_invoke c : sure (call (EInvoke c)) (fun o v => v = [Came o]).
Proof.
  intros tr res ->%execs_call Ha. apply Forall_cons in Ha as [Ha _]. destruct res as [x|]; [by exists x|discriminate (Ha : false = true)].
Qed.

(** A step that shows no verdict, then the rest. *)
Lemma sure_then {A B} (p : prog (engE Ctx) A) (f : A -> prog (engE Ctx) B) (P : A -> Prop) Q :
  sure p (fun a v => P a /\ v = []) -> (forall a, P a -> sure (f a) Q) -> sure (p ≫= f) Q.
Proof. intros Hp Hf. eapply sure_bind; [exact Hp|]. intros a v [HP ->]. by apply Hf. Qed.

Lemma sure_skip {A B} (p : prog (engE Ctx) A) (f : A -> prog (engE Ctx) B) Q :
  sure p (fun _ v => v = []) -> (forall a, sure (f a) Q) -> sure (p ≫= f) Q.
Proof. intros Hp Hf. eapply sure_bind; [exact Hp|]. intros a v ->. apply Hf. Qed.

Lemma sure_scope {A} (p : prog (engE Ctx) A) Q : sure p Q -> sure (_scope has_unit_of_work p) Q.
Proof.
  intros Hp. unfold _scope. destruct has_unit_of_work; [|done].
  apply sure_skip; [by apply sure_call|].
  intros _ tr res (tr1 & tr2 & r1 & -> & H1 & H2)%execs_match [Ha1 Ha2]%Forall_app.
  destruct (Hp tr1 r1 H1 Ha1) as (a & -> & HP). unfold verdicts. rewrite List.flat_map_app.
  revert H2 Ha2. apply (sure_skip _ _ (fun b w => Q b (List.flat_map verdict_of tr1 ++ w)%list));
    [by apply sure_call|]. intros _. apply sure_ret. by rewrite app_nil_r.
Qed.

Lemma sure_transition r state reference reason :
  run_ok r = true -> state ∈ run_allowed (run_state r) ->
  sure (_transition has_unit_of_work r state reference reason)
    (fun r' v => (run_ok r' = true /\ run_state r' = state /\ run_step r r') /\ v = []).
Proof.
  intros Hok Ha. unfold _transition. apply sure_skip; [apply sure_now|]. intros now.
  destruct (transition_run_succeeds r state reference reason now Hok Ha) as [r' Hr'].
  eapply (sure_then _ _ (fun x => x = r')); [by apply sure_of_result|]. intros ? ->.
  apply sure_skip.
  - apply sure_scope, sure_skip; [by apply sure_call|]. intros _. by apply sure_call.
  - intros _. apply sure_ret. pose proof (transition_run_Ok _ _ _ _ _ _ Hr')
      as (_ & Hs & _ & _ & _ & _ & _ & _ & _ & ?). split_and!; try done. by eapply rs_transition.
Qed.

Lemma sure_fuse r : sure (fuse_check (F := engE Ctx) thresholds r) (fun _ v => v = []).
Proof.
  unfold fuse_check. repeat (case_match; [by apply sure_ret|]).
  apply sure_skip; [apply sure_now|]. intros now. by apply sure_ret.
Qed.

Lemma sure_plan r :
  sure (plan (Ctx := Ctx) r) (fun d v => v = [Decided d] /\ check_decision d = Ok d).
Proof.
  unfold plan. repeat (apply sure_skip; [by apply sure_call|]; intros ?). apply sure_validate.
Qed.

Lemma sure_record r c o : run_ok r = true -> run_state r = TaskState.RUNNING ->
  sure (record_round has_unit_of_work r c o)
    (fun r' v => (run_ok r' = true /\ run_state r' = TaskState.RUNNING /\ run_step r r') /\ v = []).
Proof.
  intros Hok Hrun. unfold record_round. apply sure_scope.
  apply sure_skip; [by apply sure_call|]. intros _. apply sure_skip; [apply sure_now|]. intros now.
  destruct (record_progress_spec r c o now Hok) as (r' & _ & _ & _ & _ & Hr' & Hok' & Hst & _).
  eapply (sure_then _ _ (fun x => x = r')); [by apply sure_of_result|]. intros ? ->.
  do 2 (apply sure_skip; [by apply sure_call|]; intros _). apply sure_ret.
  split_and!; [done|congruence| |done]. by eapply rs_record.
Qed.

(** The run that left [RUNNING], and the verdict that made it leave. *)
Definition handed_back (r : TaskRun) (o : option TaskRun) (v : list verdict) : Prop :=
  forall r', o = Some r' -> run_ok r' = true /\ star run_step r r' /\ called_for (last v) (run_state r').

Lemma sure_stop r (p : prog (engE Ctx) TaskRun) state v :
  sure p (fun r' w => (run_ok r' = true /\ run_state r' = state /\ run_step r r') /\ w = []) ->
  called_for (last v) state ->
  sure (r' ← p; Ret (Some r')) (fun o w => handed_back r o (v ++ w)%list).
Proof.
  intros Hp Hc. eapply sure_then; [exact Hp|]. intros r' (Hok & Hst & Hs). apply sure_ret.
  rewrite app_nil_r. intros ? [= <-]. split_and!; [done|by apply star_one|by rewrite Hst].
Qed.

Lemma waiting_called_for o st : waiting_state (to_kind o) = Some st ->
  called_for (Some (Came o)) st /\ st ∈ run_allowed TaskState.RUNNING.
Proof.
  destruct (to_kind o) eqn:E; simpl; intros [= <-]; (split; [by constructor|set_solver]).
Qed.

Lemma going_on o : waiting_state (to_kind o) = None ->
  to_kind o = ToolOutcomeKind.SUCCESS \/ to_kind o = ToolOutcomeKind.FAILED.
Proof. destruct (to_kind o); simpl; by auto. Qed.

Lemma last_verdict (v w : list verdict) (x : verdict) st : called_for (last w) st ->
  (called_for None st -> called_for (Some x) st) -> called_for (last (v ++ [x] ++ w)) st.
Proof.
  intros Hw Hx. rewrite app_assoc. destruct w as [|y w] using rev_ind.
  - rewrite app_nil_r, last_snoc. by apply Hx.
  - clear IHw. rewrite last_snoc in Hw. by rewrite app_assoc, last_snoc.
Qed.

Lemma engine_loop_sure fuel r : run_ok r = true -> run_state r = TaskState.RUNNING ->
  sure (engine_loop has_unit_of_work thresholds fuel r) (handed_back r).
Proof.
  revert r; induction fuel as [|fuel IH]; intros r Hok Hrun; cbn [engine_loop]; [by apply sure_ret|].
  rewrite Hrun, bool_decide_eq_true_2 by done. cbn [negb].
  assert (forall st, st ∈ run_allowed TaskState.RUNNING -> st ∈ run_allowed (run_state r)) as Hal
    by (intros st; by rewrite Hrun).
  apply sure_skip; [apply sure_fuse|]. intros [why|].
  { apply (sure_stop r _ TaskState.PAUSED_SAFETY []); [|constructor].
    apply sure_transition; [done|]. apply Hal. set_solver. }
  eapply sure_bind; [apply sure_plan|]. intros d v [-> Hd].
  unfold check_decision in Hd. destruct (vd_kind d) eqn:Hk.
  - destruct (vd_tool_call d) as [c|]; [|discriminate Hd].
    eapply sure_bind; [apply sure_invoke|]. intros o v ->.
    destruct (waiting_state (to_kind o)) as [st|] eqn:Hw.
    + destruct (waiting_called_for o st Hw) as [Hc Hin].
      eapply (sure_stop r _ st [Decided d; Came o]); [|exact Hc]. apply sure_transition; auto.
    + eapply sure_then; [by apply sure_record|]. intros r1 (Hok1 & Hrun1 & Hs1).
      intros tr res H Ha. destruct (IH r1 Hok1 Hrun1 tr res H Ha) as (x & -> & Hx).
      exists x. split; [done|]. intros r' ->. destruct (Hx r' eq_refl) as (? & ? & Hc).
      split_and!; [done|by eapply star_step|].
      apply (last_verdict [Decided d]); [exact Hc|]. intros Hn. inversion Hn.
      apply cf_fuse. by apply going_on.
  - apply (sure_stop r _ TaskState.WAITING_USER [Decided d]); [|by apply cf_user].
    apply sure_transition; [done|]. apply Hal. set_solver.
  - apply (sure_stop r _ TaskState.SUCCEEDED [Decided d]); [|by apply cf_complete].
    apply sure_scope, sure_skip; [by apply sure_call|]. intros _.
    apply sure_transition; [done|]. apply Hal. set_solver.
Qed.

(** C13. The loop returns: when the ports answer, it raises nothing and hands back a run that has
    left [RUNNING] by legal steps, in the state the last decision or outcome calls for (the fuse's
    [PAUSED_SAFETY] when there is none); it is cut off only when the fuel is at most
    [th_no_progress] times one more than the number of productive rounds. *)
Theorem engine_returns fuel r tr res :
  check_thresholds thresholds = Ok thresholds -> run_ok r = true ->
  run_state r = TaskState.RUNNING ->
  execs (engine_loop has_unit_of_work thresholds fuel r) tr res -> Forall answered tr ->
  (exists r', res = Ok (Some r') /\ run_ok r' = true /\ run_state r' <> TaskState.RUNNING /\
     star run_step r r' /\ called_for (last (verdicts tr)) (run_state r')) \/
  (exists l, res = Ok None /\ invocations tr = ((fun co => (co.1, Ok co.2)) <$> l) /\
     Z.of_nat fuel <= th_no_progress thresholds * (progress_count r l + 1)).
Proof.
  intros Ht Hok Hrun H Ha. destruct (engine_loop_sure fuel r Hok Hrun tr res H Ha) as (o & -> & Ho).
  destruct (engine_loop_spec fuel r tr _ Hok H) as (l & la & [Hc Hl [r1 Hr] Hg Hfu Hfi]).
  destruct o as [r'|].
  - left. exists r'. destruct (Ho r' eq_refl) as (? & ? & ?). split_and!; try done. by apply Hfi.
  - right. destruct (Hfu eq_refl) as [-> <-]. exists l. rewrite app_nil_r in Hc.
    split_and!; [done..|]. by eapply fuse_bounds_rounds.
Qed.
End traces.

(** ** A concrete segment: the third search ends with an unknown outcome *)

Module EngineScenario.
(** The ports: the state is the number of tool calls made. *)
Definition ports (X : Type) (op : engE unit X) : M nat X := fun n =>
  match op in engE _ Y return nat * result Y with
  | ERunsGet _ => (n, Ok RunScenario.running)
  | ERunsSave _ _ | ECheckpoint _ _ | EObserve _ _ | EBegin | ECommit | ERollback => (n, Ok tt)
  | ELoad _ => (n, Ok [])
  | ECompose _ _ _ _ _ => (n, Ok tt)
  | EDescriptors => (n, Ok [])
  | EPropose _ _ _ => (n, Ok JNull)
  | EValidate _ _ => (n, Ok {| vd_kind := CALL_TOOL; vd_tool_call := Some RunScenario.search;
                               vd_message := None; vd_result := JNull |})
  | EInvoke _ => (S n, Ok (if (n =? 2)%nat then outcome_unknown "unknown:1" None
                           else RunScenario.broken))
  | EEnv op => (n, match op in envE Z return result Z with
                   | Now => Ok 0 | NewUuid => Ok "id" | NewToken => Ok "token" end)
  end.

Definition segment : list (event (engE unit)) * result (option TaskRun) :=
  trace_run ports (engine_loop true default_thresholds 20 RunScenario.running) 0%nat.

Lemma segment_execs :
  execs (engine_loop true default_thresholds 20 RunScenario.running) segment.1 segment.2.
Proof. unfold segment. apply trace_run_execs. Qed.
End EngineScenario.

Lemma waiting_outcome_ends_the_segment_witness :
  invocations EngineScenario.segment.1 =
    [(RunScenario.search, Ok RunScenario.broken); (RunScenario.search, Ok RunScenario.broken);
     (RunScenario.search, Ok (outcome_unknown "unknown:1" None))] /\
  exists rest : list (ToolCall * result ToolOutcome), rest = [].
Proof.
  split; [vm_compute; reflexivity|]. eexists.
  apply (waiting_outcome_ends_the_segment true default_thresholds 20 RunScenario.running
    EngineScenario.segment.1 EngineScenario.segment.2
    [(RunScenario.search, Ok RunScenario.broken); (RunScenario.search, Ok RunScenario.broken)]
    RunScenario.search (outcome_unknown "unknown:1" None)).
  - vm_compute. reflexivity.
  - apply EngineScenario.segment_execs.
  - vm_compute. reflexivity.
  - discriminate.
Defined.

Lemma engine_returns_witness :
  exists r', EngineScenario.segment.2 = Ok (Some r') /\
    run_state r' = TaskState.WAITING_RECONCILIATION /\ star run_step RunScenario.running r'.
Proof.
  destruct (engine_returns true default_thresholds 20 RunScenario.running EngineScenario.segment.1
    EngineScenario.segment.2) as [(r' & Hr & _ & _ & Hs & Hc)|(l & Hn & _)].
  - vm_compute. reflexivity.
  - vm_compute. reflexivity.
  - vm_compute. reflexivity.
  - apply EngineScenario.segment_execs.
  - let l := eval vm_compute in EngineScenario.segment.1 in
      change EngineScenario.segment.1 with l.
    repeat (constructor; [first [reflexivity | by eexists]|]). constructor.
  - exists r'. split; [exact Hr|]. split; [|exact Hs]. revert Hr. vm_compute. by intros [= <-].
  - vm_compute in Hn. discriminate Hn.
Defined.
