(* ===== verification/Decisions.v ===== *)
(** * Decisions: what a model proposal may turn into

    Models [DecisionValidator] of [core/agent/decisions.py]: the proposal only chooses a tool and
    its arguments; the task, the grants and the allowed tools come from the host. *)

From S2P Require Import Prelude Text Json JsonParse Schemas Domain Tools Agent Engine.
Local Open Scope string_scope.
Local Open Scope Z_scope.

(** [frozenset | Mapping[str, frozenset]] *)
Inductive Grants :=
| GrantAll (capabilities : list string)
| GrantByTool (by_tool : list (string * list string)).

Record DecisionValidator := {
  dv_descriptors : list ToolDescriptor;
  dv_grants : Grants
}.

(** [{(d.id, d.version): d for d in descriptors}]: the last of several equal keys wins. *)
Definition dv_lookup (v : DecisionValidator) (tool_id version : string) : option ToolDescriptor :=
  find_tool (tool_id, version) (reverse ((fun d => (tool_key d, d)) <$> dv_descriptors v)).

Definition dv_allowed (v : DecisionValidator) : list string := td_id <$> dv_descriptors v.

Definition granted_for (v : DecisionValidator) (tool_id : string) : list string :=
  match dv_grants v with
  | GrantAll caps => caps
  | GrantByTool m => default [] (assoc tool_id m)
  end.

Section validator.
Context (re_search : string -> string -> result bool).

Definition host_call (v : DecisionValidator) (r : TaskRun) (tool_id version : string)
    (arguments : list (string * json)) : ToolCall :=
  {| tc_tool_id := tool_id; tc_tool_version := version; tc_arguments := JObj arguments;
     tc_task_id := run_task_id r; tc_target := JNull; tc_attachments := [];
     tc_granted_capabilities := granted_for v tool_id;
     tc_workflow_allowed_tools := dv_allowed v;
     tc_approval_id := None; tc_idempotency_key := None; tc_form_version := None |}.

Definition validate_tool_proposal (v : DecisionValidator) (p : list (string * json)) (r : TaskRun)
  : result ValidatedDecision :=
  if negb (keys_exactly p ["kind"; "tool_id"; "tool_version"; "arguments"]) then
    fail ValidationError "tool proposal cannot supply authority or extra fields"
  else
    match assoc "tool_id" p, assoc "tool_version" p with
    | Some (JStr tool_id), Some (JStr version) =>
        match dv_lookup v tool_id version with
        | None => fail ValidationError "tool/version is not in this run's allowed snapshot"
        | Some descriptor =>
            if bool_decide (td_risk descriptor = PROHIBITED) then
              fail ValidationError "tool/version is not in this run's allowed snapshot"
            else
              match assoc "arguments" p with
              | Some (JObj arguments) =>
                  _ ← validate_json_schema re_search (JObj arguments) (td_input_schema descriptor);
                  c ← check_call (host_call v r tool_id version arguments);
                  check_decision {| vd_kind := CALL_TOOL; vd_tool_call := Some c;
                                    vd_message := None; vd_result := JNull |}
              | _ => fail ValidationError "tool arguments must be an object"
              end
        end
    | _, _ => fail ValidationError "tool identity is invalid"
    end.

Definition validate_other_proposal (p : list (string * json)) : result ValidatedDecision :=
  let kind := default JNull (assoc "kind" p) in
  _ ← raise_if (negb (hashable kind)) PyTypeError "unhashable type";
  match kind with
  | JStr k =>
      if negb (mem_b k ["COMPLETE"; "NEEDS_USER"])
         || negb (keys_within p ["kind"; "message"; "result"])
      then fail ValidationError "unsupported model decision"
      else
        match assoc "message" p with
        | Some (JStr message) =>
            if blank message || (20000 <? str_len message)
            then fail ValidationError "a bounded decision message is required"
            else check_decision {|
                   vd_kind := if bool_decide (k = "COMPLETE") then COMPLETE else NEEDS_USER;
                   vd_tool_call := None; vd_message := Some message;
                   vd_result := default JNull (assoc "result" p) |}
        | _ => fail ValidationError "a bounded decision message is required"
        end
  | _ => fail ValidationError "unsupported model decision"
  end.

(** [DecisionValidator.validate] *)
Definition validate_decision (v : DecisionValidator) (proposal : json) (r : TaskRun)
  : result ValidatedDecision :=
  match proposal with
  | JObj p =>
      if bool_decide (assoc "kind" p = Some (JStr "CALL_TOOL"))
      then validate_tool_proposal v p r else validate_other_proposal p
  | _ => fail ValidationError "proposal must be an object"
  end.

Lemma find_tool_In k l d : find_tool k l = Some d -> (k, d) ∈ l.
Proof.
  induction l as [|[k' d'] l IH]; simpl; [done|]. case_bool_decide; [|by right; apply IH].
  intros [= <-]. subst. left.
Qed.

Lemma dv_lookup_In v i n d : dv_lookup v i n = Some d ->
  d ∈ dv_descriptors v /\ td_id d = i /\ td_version d = n.
Proof.
  unfold dv_lookup. intros H%find_tool_In. apply elem_of_reverse, list_elem_of_fmap in H.
  destruct H as (d' & [= -> -> ->] & ?). done.
Qed.

(** C14. Authority comes from the host: whatever a model proposes, a validated tool call names a
    registered, non-prohibited tool of the snapshot, its arguments satisfy the tool's schema, its
    task, grants and allowed tools are the host's, and it carries no approval, target,
    attachment or idempotency key of its own. *)
Theorem validated_call_has_host_authority v proposal r d c :
  validate_decision v proposal r = Ok d -> vd_tool_call d = Some c ->
  vd_kind d = CALL_TOOL /\
  (exists t, t ∈ dv_descriptors v /\ tc_tool_id c = td_id t /\ tc_tool_version c = td_version t /\
     td_risk t <> PROHIBITED /\
     validate_json_schema re_search (tc_arguments c) (td_input_schema t) = Ok tt) /\
  tc_task_id c = run_task_id r /\ tc_granted_capabilities c = granted_for v (tc_tool_id c) /\
  tc_workflow_allowed_tools c = dv_allowed v /\ tc_tool_id c ∈ tc_workflow_allowed_tools c /\
  tc_approval_id c = None /\ tc_target c = JNull /\ tc_attachments c = [] /\
  tc_idempotency_key c = None.
Proof.
  intros H Hc. unfold validate_decision in H. destruct proposal as [| | | | | |p|]; try discriminate H.
  case_bool_decide; [|].
  - unfold validate_tool_proposal in H. destruct (negb _); [discriminate H|].
    destruct (assoc "tool_id" p) as [[| | | |i| | |]|]; try discriminate H.
    destruct (assoc "tool_version" p) as [[| | | |n| | |]|]; try discriminate H.
    destruct (dv_lookup v i n) as [t|] eqn:Hl; [|discriminate H].
    apply dv_lookup_In in Hl as (Hin & <- & <-).
    case_bool_decide as Hr; [discriminate H|].
    destruct (assoc "arguments" p) as [[| | | | | |a|]|]; try discriminate H.
    destruct (validate_json_schema _ _ _) as [[]|] eqn:Hv; [|discriminate H].
    unfold check_call, raise_if in H. simpl in H. destruct (_ || _); [discriminate H|].
    simpl in H. injection H as <-. simpl in Hc. injection Hc as <-. simpl.
    split_and!; try done; [by exists t|]. unfold dv_allowed. apply list_elem_of_fmap. eauto.
  - unfold validate_other_proposal, check_decision, raise_if in H. exfalso.
    destruct (negb (hashable _)); [discriminate H|]. simpl in H.
    destruct (default JNull (assoc "kind" p)) as [| | | |k| | |]; try discriminate H.
    destruct (_ || _); [discriminate H|].
    destruct (assoc "message" p) as [[| | | |msg| | |]|]; try discriminate H.
    destruct (_ || _); [discriminate H|]. simpl in H.
    case_bool_decide; simpl in H; injection H as <-; discriminate Hc.
Qed.
End validator.

Module DecisionScenario.
Definition search_tool : ToolDescriptor := {|
  td_id := "mail.search"; td_version := "1"; td_extension_id := "smail";
  td_input_schema := JObj [("type", JStr "object");
    ("properties", JObj [("q", JObj [("type", JStr "string"); ("maxLength", JInt 20)])]);
    ("required", JList [JStr "q"])];
  td_output_schema := JObj [("type", JStr "object")]; td_risk := READ;
  td_extension_version := Some "1"; td_required_capabilities := ["mail.read"];
  td_timeout_seconds := seconds 30; td_retry_policy := IDEMPOTENT_ONLY;
  td_data_classes_in := []; td_data_classes_out := [] |}.

Definition host : DecisionValidator :=
  {| dv_descriptors := [search_tool]; dv_grants := GrantByTool [("mail.search", ["mail.read"])] |}.

Definition proposal : json :=
  JObj [("kind", JStr "CALL_TOOL"); ("tool_id", JStr "mail.search");
        ("tool_version", JStr "1"); ("arguments", JObj [("q", JStr "deadline")])].
End DecisionScenario.

Lemma validated_call_has_host_authority_witness :
  exists d c, validate_decision (fun _ _ => Ok true) DecisionScenario.host DecisionScenario.proposal
      RunScenario.running = Ok d /\ vd_tool_call d = Some c /\
    tc_task_id c = "task-1" /\ tc_granted_capabilities c = ["mail.read"].
Proof.
  do 2 eexists. split; [vm_compute; reflexivity|]. split; [reflexivity|].
  edestruct (validated_call_has_host_authority (fun _ _ => Ok true) DecisionScenario.host
    DecisionScenario.proposal RunScenario.running) as (_ & _ & Ht & Hg & _);
    [vm_compute; reflexivity|reflexivity|]. exact (conj Ht Hg).
Defined.
