(* ===== verification/Workflows.v ===== *)
(** * Workflows: the data-only workflow interpreter

    Models [core/workflows.py].  A run's snapshot is the [dict] the interpreter mutates in place,
    so [next_proposal] is a method over it: an exception leaves the mutations made so far.
    [copy.deepcopy] is the identity on values. *)

From S2P Require Import Prelude Text Json Schemas.
Local Open Scope string_scope.
Local Open Scope Z_scope.

(** ** Subscripts *)

(** [d[k]] *)
Definition dict_item (k : string) (d : list (string * json)) : result json :=
  match assoc k d with Some v => Ok v | None => fail PyKeyError k end.

(** [d[k]] for a key that is a value itself. *)
Definition dict_item_at (k : json) (d : list (string * json)) : result json :=
  match k with JStr s => dict_item s d | _ => fail PyKeyError (type_name k) end.

(** A value that is used as a [dict]. *)
Definition as_dict (v : json) : result (list (string * json)) :=
  match v with JObj d => Ok d | _ => fail PyTypeError "object is not subscriptable" end.

Definition as_list (v : json) : result (list json) :=
  match v with JList l => Ok l | _ => fail PyTypeError "object is not a list" end.

(** [isinstance(d.get(k), str) and p(d[k])] *)
Definition str_field (k : string) (p : string -> bool) (d : list (string * json)) : bool :=
  match assoc k d with Some (JStr s) => p s | _ => false end.

Definition obj_field (k : string) (d : list (string * json)) : bool :=
  match assoc k d with Some (JObj _) => true | _ => false end.

(** ** [validate_workflow] *)

Definition _WORKFLOW_FIELDS : list string :=
  ["id"; "version"; "steps"; "extension_id"; "extension_version"; "name"; "description";
   "input_schema"; "policy_snapshot"].

(** [kind == name] for [kind = step.get("type")] *)
Definition step_is (name : string) (step : list (string * json)) : bool :=
  bool_decide (assoc "type" step = Some (JStr name)).

Definition any_str (s : string) : bool := true.

Definition allowed_fields (step : list (string * json)) : result (list string) :=
  if step_is "ask" step then
    if negb (str_field "field" ident_fullmatch step)
       || negb (str_field "question" (fun q => negb (blank q)) step)
       || negb (obj_field "schema" step)
    then fail ValidationError "question step is incomplete"
    else Ok ["id"; "type"; "field"; "question"; "schema"]
  else if step_is "tool" step then
    if negb (str_field "tool_id" any_str step) || negb (str_field "tool_version" any_str step)
       || negb (obj_field "arguments" step)
    then fail ValidationError "tool step is incomplete"
    else Ok ["id"; "type"; "tool_id"; "tool_version"; "arguments"]
  else if step_is "archive" step then Ok ["id"; "type"]
  else fail ValidationError "unsupported workflow step type".

Fixpoint validate_steps (names : list string) (steps : list json) : result unit :=
  match steps with
  | [] => Ok tt
  | JObj step :: steps =>
      match assoc "id" step with
      | Some (JStr i) =>
          if negb (ident_fullmatch i) || mem_b i names
          then fail ValidationError "workflow step ids must be unique"
          else
            allowed ← allowed_fields step;
            if negb (keys_within step allowed)
            then fail ValidationError "workflow cannot supply grants, scripts or approval ids"
            else validate_steps (i :: names) steps
      | _ => fail ValidationError "workflow step identity is required"
      end
  | _ :: _ => fail ValidationError "workflow step identity is required"
  end.

Definition validate_workflow (value : json) : result (list (string * json)) :=
  match value with
  | JObj wf =>
      if negb (keys_within wf _WORKFLOW_FIELDS)
      then fail ValidationError "unsupported workflow fields; executable code is not accepted"
      else if negb (forallb (fun k => str_field k ident_fullmatch wf) ["id"; "version"])
      then fail ValidationError "workflow id/version is invalid"
      else
        match assoc "steps" wf with
        | Some (JList steps) =>
            if negb ((1 <=? Z.of_nat (length steps)) && (Z.of_nat (length steps) <=? 128))
            then fail ValidationError "workflow requires one to 128 declarative steps"
            else
              _ ← validate_steps [] steps;
              _ ← fingerprint value;
              Ok wf
        | _ => fail ValidationError "workflow requires one to 128 declarative steps"
        end
  | _ => fail ValidationError "unsupported workflow fields; executable code is not accepted"
  end.

(** ** [resolve]: references to this run's inputs and outputs *)

Definition missing_material {A} : result A :=
  fail ValidationError "required workflow material is not available".

(** The loop over [parts[1:]]. *)
Fixpoint walk (parts : list string) (current : json) : result json :=
  match parts with
  | [] => Ok current
  | part :: parts =>
      match current with
      | JObj d => match assoc part d with Some v => walk parts v | None => missing_material end
      | _ => missing_material
      end
  end.

Definition dereference (path : string) (inputs : list (string * json)) (outputs : json)
  : result json :=
  match str_split (Ascii.ascii_of_N 46) path with
  | root :: parts =>
      if bool_decide (root = "inputs") then walk parts (JObj inputs)
      else if bool_decide (root = "outputs") then walk parts outputs
      else fail ValidationError "reference must address this run's inputs or outputs"
  | [] => fail ValidationError "reference must address this run's inputs or outputs"
  end.

Fixpoint resolve_value (depth : Z) (value : json) (inputs : list (string * json)) (outputs : json)
    {struct value} : result json :=
  if 32 <? depth then fail ValidationError "workflow references are too deep"
  else
    match value with
    | JObj kvs =>
        match assoc "$value" kvs with
        | Some reference =>
            match reference with
            | JStr path =>
                if keys_exactly kvs ["$value"] then dereference path inputs outputs
                else fail ValidationError "invalid workflow reference"
            | _ => fail ValidationError "invalid workflow reference"
            end
        | None =>
            kvs' ← sequence ((fun kv =>
              w ← resolve_value (depth + 1) kv.2 inputs outputs; Ok (kv.1, w)) <$> kvs);
            Ok (JObj kvs')
        end
    | JList l =>
        l' ← sequence ((fun v => resolve_value (depth + 1) v inputs outputs) <$> l); Ok (JList l')
    | _ => Ok value
    end.

(** ** [next_proposal] *)

Notation snapshot := (list (string * json)) (only parsing).

Definition set_key (k : string) (v : json) : M snapshot unit := fun s => (assoc_set k v s, Ok tt).
Definition pop_key (k : string) : M snapshot unit := fun s => (assoc_del k s, Ok tt).

(** [snapshot.get(k, d)] *)
Definition get_key (k : string) (d : json) : M snapshot json :=
  fun s => (s, Ok (default d (assoc k s))).

Definition done_message : string := "工作流已完成。".
Definition archived_message : string := "工作流已完成；来源、步骤结果和审批引用已保留。".

Definition completion (message : string) (outputs : json) : json :=
  JObj [("kind", JStr "COMPLETE"); ("message", JStr message); ("result", outputs)].

Section interpreter.
Context (re_search : string -> string -> result bool).

(** The [while] loop, on the steps from the cursor on. *)
Fixpoint run_steps (inputs : list (string * json)) (cursor : Z) (steps : list json)
  : M snapshot json :=
  match steps with
  | [] => outputs ← get_key "outputs" (JObj []); mret (completion done_message outputs)
  | s :: steps =>
      step ← lift (as_dict s);
      id ← lift (dict_item "id" step);
      _ ← set_key "cursor" (JInt cursor);
      _ ← set_key "step_id" id;
      type ← lift (dict_item "type" step);
      if bool_decide (type = JStr "ask") then
        field ← lift (dict_item "field" step);
        present ← lift (py_in field (JObj inputs));
        if negb present then
          question ← lift (dict_item "question" step);
          schema ← lift (dict_item "schema" step);
          _ ← set_key "pending_input"
                (JObj [("field", field); ("question", question); ("schema", schema)]);
          mret (JObj [("kind", JStr "NEEDS_USER"); ("message", question)])
        else
          value ← lift (dict_item_at field inputs);
          schema ← lift (dict_item "schema" step);
          _ ← lift (validate_json_schema re_search value schema);
          _ ← pop_key "pending_input";
          _ ← set_key "cursor" (JInt (cursor + 1));
          run_steps inputs (cursor + 1) steps
      else if bool_decide (type = JStr "tool") then
        tool_id ← lift (dict_item "tool_id" step);
        tool_version ← lift (dict_item "tool_version" step);
        arguments ← lift (dict_item "arguments" step);
        outputs ← get_key "outputs" (JObj []);
        resolved ← lift (resolve_value 0 arguments inputs outputs);
        mret (JObj [("kind", JStr "CALL_TOOL"); ("tool_id", tool_id);
                    ("tool_version", tool_version); ("arguments", resolved)])
      else
        outputs ← get_key "outputs" (JObj []);
        mret (completion archived_message outputs)
  end.

Definition next_proposal (definition : json) (inputs : list (string * json)) : M snapshot json :=
  workflow ← lift (validate_workflow definition);
  digest ← lift (fingerprint (JObj workflow));
  s ← get_state;
  _ ← match assoc "workflow_digest" s with
      | Some pinned =>
          if negb (py_eq pinned (JStr digest))
          then raise WorkflowBindingConflict
                 "workflow is already bound; create a new task to change its definition or mode"
          else mret tt
      | None => mret tt
      end;
  _ ← set_key "workflow_digest" (JStr digest);
  _ ← set_key "workflow" (JObj workflow);
  _ ← match assoc "input_schema" workflow with
      | Some schema => lift (validate_json_schema re_search (JObj inputs) schema)
      | None => mret tt
      end;
  steps ← lift (x ← dict_item "steps" workflow; as_list x);
  cursor ← get_key "cursor" (JInt 0);
  match cursor with
  | JInt c =>
      if (0 <=? c) && (c <=? Z.of_nat (length steps))
      then run_steps inputs c (drop (Z.to_nat c) steps)
      else raise ValidationError "invalid workflow checkpoint"
  | _ => raise ValidationError "invalid workflow checkpoint"
  end.

End interpreter.

(** ** What the interpreter promises *)

Lemma dict_item_Ok k d v : dict_item k d = Ok v <-> assoc k d = Some v.
Proof. unfold dict_item. destruct (assoc k d); naive_solver. Qed.

(** A step that passed [allowed_fields]. *)
Definition step_ok (s : json) : Prop :=
  exists step, s = JObj step /\ is_ok (allowed_fields step) = true.

Lemma validate_steps_ok names steps u : validate_steps names steps = Ok u -> Forall step_ok steps.
Proof.
  revert names; induction steps as [|s steps IH]; intros names H; [constructor|].
  destruct s as [| | | | | |step|]; simpl in H; try discriminate H.
  destruct (assoc "id" step) as [[]|]; try discriminate H.
  destruct (_ || _); [discriminate H|].
  destruct (allowed_fields step) as [allowed|] eqn:Ea; [|discriminate H]. simpl in H.
  destruct (negb _); [discriminate H|].
  constructor; [exists step; by rewrite Ea|eauto].
Qed.

Lemma str_field_inv k p d : str_field k p d = true -> exists s, assoc k d = Some (JStr s).
Proof. unfold str_field. destruct (assoc k d) as [[]|]; naive_solver. Qed.

Lemma validate_workflow_inv v wf : validate_workflow v = Ok wf ->
  v = JObj wf /\ exists steps, assoc "steps" wf = Some (JList steps) /\ steps <> [] /\
    Forall step_ok steps.
Proof.
  unfold validate_workflow. intros H. destruct v as [| | | | | |d|]; try discriminate H.
  repeat (destruct (negb _); [discriminate H|]).
  destruct (assoc "steps" d) as [[| | | | |steps| |]|] eqn:Es; try discriminate H.
  destruct (negb (_ && _)) eqn:En; [discriminate H|].
  apply result_bind_Ok in H as (u & Hv & (_ & _ & [= <-])%result_bind_Ok).
  split; [done|]. exists steps. split_and!; [done| |by eapply validate_steps_ok].
  by intros ->.
Qed.

Lemma py_eq_str v s : py_eq v (JStr s) = true -> v = JStr s.
Proof. destruct v as [|[]| | |t| | |]; simpl; try discriminate. intros H. bool_props. congruence. Qed.

(** The keys that say which definition the run is bound to and what it has produced. *)
Definition bound_keys (s : list (string * json)) : option json * option json * option json :=
  (assoc "workflow_digest" s, assoc "workflow" s, assoc "outputs" s).

Lemma bound_set k v s : k <> "workflow_digest" -> k <> "workflow" -> k <> "outputs" ->
  bound_keys (assoc_set k v s) = bound_keys s.
Proof. intros. unfold bound_keys. by rewrite !assoc_set_other by done. Qed.

Lemma bound_del k s : k <> "workflow_digest" -> k <> "workflow" -> k <> "outputs" ->
  bound_keys (assoc_del k s) = bound_keys s.
Proof. intros. unfold bound_keys. by rewrite !assoc_del_other by done. Qed.

Section promises.
Context (re_search : string -> string -> result bool).

(** The question of this step has been answered, within its schema. *)
Definition answered (inputs : list (string * json)) (s : json) : Prop :=
  exists step field value schema, s = JObj step /\ step_is "ask" step = true /\
    assoc "field" step = Some (JStr field) /\ assoc field inputs = Some value /\
    assoc "schema" step = Some schema /\ validate_json_schema re_search value schema = Ok tt.

(** What is proposed at the step the cursor points to, if there is one. *)
Definition proposes (inputs : list (string * json)) (outputs : json) (s : option json) (p : json)
  : Prop :=
  match s with
  | None => p = completion done_message outputs
  | Some s => exists step, s = JObj step /\
      if step_is "ask" step then
        exists field question, assoc "field" step = Some (JStr field) /\
          assoc field inputs = None /\ assoc "question" step = Some question /\
          p = JObj [("kind", JStr "NEEDS_USER"); ("message", question)]
      else if step_is "tool" step then
        exists tool_id tool_version arguments resolved,
          assoc "tool_id" step = Some (JStr tool_id) /\
          assoc "tool_version" step = Some (JStr tool_version) /\
          assoc "arguments" step = Some arguments /\
          resolve_value 0 arguments inputs outputs = Ok resolved /\
          p = JObj [("kind", JStr "CALL_TOOL"); ("tool_id", JStr tool_id);
                    ("tool_version", JStr tool_version); ("arguments", resolved)]
      else p = completion archived_message outputs
  end.

Ltac invert_M H :=
  repeat first
    [ apply M_bind_Ok in H as (? & ? & ? & H)
    | match goal with
      | E : lift _ _ = (_, Ok _) |- _ => apply lift_Ok in E as [-> E]
      | E : set_key _ _ _ = _ |- _ => injection E as <- <-
      | E : pop_key _ _ = _ |- _ => injection E as <- <-
      | E : get_key _ _ _ = _ |- _ => injection E as <- <-
      | E : get_state _ = _ |- _ => injection E as <- <-
      | E : dict_item _ _ = Ok _ |- _ => apply dict_item_Ok in E
      end ].

Ltac keys_simpl := rewrite ?assoc_set_same, ?assoc_set_other, ?assoc_del_other, ?assoc_set_same,
  ?assoc_set_other by done.

Ltac bound_simpl := rewrite ?bound_set, ?bound_del, ?bound_set by done.

(** The interpreter stops at this step with the proposal [p]. *)
Definition stops_at inputs (step : list (string * json)) c s s' p : Prop :=
  proposes inputs (default (JObj []) (assoc "outputs" s)) (Some (JObj step)) p /\
  bound_keys s' = bound_keys s /\ assoc "cursor" s' = Some (JInt c).

Lemma run_ask inputs step steps c s s' p :
  assoc "type" step = Some (JStr "ask") -> is_ok (allowed_fields step) = true ->
  run_steps re_search inputs c (JObj step :: steps) s = (s', Ok p) ->
  stops_at inputs step c s s' p \/
  answered inputs (JObj step) /\ exists s1, bound_keys s1 = bound_keys s /\
    assoc "cursor" s1 = Some (JInt (c + 1)) /\ run_steps re_search inputs (c + 1) steps s1 = (s', Ok p).
Proof.
  intros Etype Hs H. unfold allowed_fields, step_is in Hs. rewrite Etype in Hs. simpl in Hs.
  destruct (negb (str_field "field" _ _)) eqn:Ef; [discriminate Hs|].
  apply negb_false_iff, str_field_inv in Ef as [field Ef].
  cbn [run_steps] in H. apply M_bind_Ok in H as (? & ? & [-> [= <-]]%lift_Ok & H). invert_M H.
  match goal with E : assoc "type" step = Some ?t |- _ => assert (t = JStr "ask") as -> by congruence end.
  rewrite bool_decide_eq_true_2 in H by done. invert_M H.
  match goal with E : assoc "field" step = Some ?t |- _ => assert (t = JStr field) as -> by congruence end.
  simpl in *. match goal with E : Ok (mem_b _ _) = Ok _ |- _ => injection E as <- end.
  destruct (mem_b field (keys inputs)) eqn:Em; cbn [negb] in H; invert_M H.
  - right. split.
    + exists step, field. do 2 eexists. unfold step_is. rewrite Etype.
      repeat split; try done. by match goal with u : unit |- _ => destruct u end.
    + eexists. split; [|split; [|exact H]]; [by bound_simpl|by keys_simpl].
  - left. apply mem_b_false in Em. injection H as <- <-. split; [|split; [by bound_simpl|by keys_simpl]].
    exists step. split; [done|]. unfold step_is. rewrite Etype. simpl.
    repeat eexists; try done. apply eq_None_not_Some. by rewrite assoc_keys.
Qed.

Lemma run_other inputs step steps c s s' p :
  assoc "type" step <> Some (JStr "ask") -> is_ok (allowed_fields step) = true ->
  run_steps re_search inputs c (JObj step :: steps) s = (s', Ok p) -> stops_at inputs step c s s' p.
Proof.
  intros Eask Hs H. unfold allowed_fields, step_is in Hs.
  rewrite (bool_decide_eq_false_2 _ Eask) in Hs. unfold stops_at, proposes, step_is.
  cbn [run_steps] in H. apply M_bind_Ok in H as (? & ? & [-> [= <-]]%lift_Ok & H). invert_M H.
  match goal with E : assoc "type" step = Some _ |- _ => rename E into Etype end.
  rewrite Etype in Hs. rewrite bool_decide_eq_false_2 in H by congruence.
  case_bool_decide as Etool; invert_M H; injection H as <- <-.
  - subst. simpl in Hs.
    destruct (negb (str_field "tool_id" _ _)) eqn:E1; [discriminate Hs|].
    destruct (negb (str_field "tool_version" _ _)) eqn:E2; [discriminate Hs|].
    apply negb_false_iff, str_field_inv in E1 as [tid E1].
    apply negb_false_iff, str_field_inv in E2 as [tv E2].
    split; [|split; [by bound_simpl|by keys_simpl]].
    exists step. split; [done|]. simpl. simplify_eq. rewrite Etype. simpl.
    repeat eexists; try done. match goal with E : resolve_value _ _ _ _ = _ |- _ => revert E end.
    by keys_simpl.
  - split; [|split; [by bound_simpl|by keys_simpl]].
    exists step. split; [done|]. rewrite Etype. rewrite !bool_decide_eq_false_2 by congruence.
    by keys_simpl.
Qed.

Lemma run_steps_spec inputs steps c s s' p :
  Forall step_ok steps -> run_steps re_search inputs c steps s = (s', Ok p) ->
  assoc "cursor" s = Some (JInt c) \/ steps <> [] ->
  exists n, Forall (answered inputs) (take n steps) /\ (n <= length steps)%nat /\
    proposes inputs (default (JObj []) (assoc "outputs" s)) (steps !! n) p /\
    bound_keys s' = bound_keys s /\ assoc "cursor" s' = Some (JInt (c + Z.of_nat n)).
Proof.
  intros Hok. revert c s; induction Hok as [|x steps (step & -> & Hs) Hok IH]; intros c s H Hc.
  { destruct Hc as [Hc|]; [|done]. exists 0%nat. simpl in *. invert_M H. injection H as <- <-.
    split_and!; [constructor|lia|done..|]. by rewrite Z.add_0_r. }
  destruct (decide (assoc "type" step = Some (JStr "ask"))) as [Ea|Ea].
  - destruct (run_ask _ _ _ _ _ _ _ Ea Hs H) as [(Hp & Hb & Hc')|(Ha & s1 & Hb1 & Hc1 & Hr)].
    + exists 0%nat. split_and!; [constructor|lia|done..|]. by rewrite Z.add_0_r.
    + destruct (IH _ _ Hr (or_introl Hc1)) as (n & Hans & Hn & Hp & Hb & Hc'). exists (S n).
      split_and!; [by constructor|simpl; lia| |congruence|rewrite Hc'; do 2 f_equal; lia].
      unfold bound_keys in Hb1. injection Hb1 as _ _ Ho. by rewrite <- Ho.
  - destruct (run_other _ _ _ _ _ _ _ Ea Hs H) as (Hp & Hb & Hc').
    exists 0%nat. split_and!; [constructor|lia|done..|]. by rewrite Z.add_0_r.
Qed.

Lemma run_steps_bound inputs steps c s s' p :
  Forall step_ok steps -> run_steps re_search inputs c steps s = (s', Ok p) ->
  bound_keys s' = bound_keys s.
Proof.
  intros Hok H. destruct steps as [|x steps].
  - simpl in H. invert_M H. by injection H as <- <-.
  - destruct (run_steps_spec _ _ _ _ _ _ Hok H) as (_ & _ & _ & _ & ? & _); [by right|done].
Qed.

Lemma next_proposal_inv definition inputs s s' p :
  next_proposal re_search definition inputs s = (s', Ok p) ->
  exists wf steps digest c, definition = JObj wf /\ fingerprint definition = Ok digest /\
    assoc "steps" wf = Some (JList steps) /\ steps <> [] /\ Forall step_ok steps /\
    (forall pinned, assoc "workflow_digest" s = Some pinned -> pinned = JStr digest) /\
    default (JInt 0) (assoc "cursor" s) = JInt c /\ 0 <= c <= Z.of_nat (length steps) /\
    run_steps re_search inputs c (drop (Z.to_nat c) steps)
      (assoc_set "workflow" definition (assoc_set "workflow_digest" (JStr digest) s)) = (s', Ok p).
Proof.
  unfold next_proposal. intros H.
  apply M_bind_Ok in H as (? & wf & [-> Hwf]%lift_Ok & H).
  apply validate_workflow_inv in Hwf as (-> & steps & Hsteps & Hne & Hok).
  apply M_bind_Ok in H as (? & digest & [-> Hd]%lift_Ok & H). invert_M H.
  match goal with E : match assoc "workflow_digest" _ with _ => _ end _ = (?s1, _) |- _ =>
    rename E into Ebind;
    assert (s1 = s /\ forall pinned, assoc "workflow_digest" s = Some pinned -> pinned = JStr digest)
      as [-> Hpin] end.
  { clear -Ebind. rename Ebind into E. destruct (assoc "workflow_digest" s) as [pinned|]; [|by injection E as <- <-].
    destruct (py_eq pinned (JStr digest)) eqn:Ep; cbn [negb] in E; [|discriminate E].
    injection E as <- <-. split; [done|]. intros ? [= <-]. by apply py_eq_str. }
  match goal with E : match assoc "input_schema" _ with _ => _ end _ = (?s1, _) |- _ =>
    assert (s1 = assoc_set "workflow" (JObj wf) (assoc_set "workflow_digest" (JStr digest) s)) as ->;
    [clear -E; destruct (assoc "input_schema" wf); [by apply lift_Ok in E as [-> _]|by injection E as <- <-]|]
  end.
  match goal with E : dict_item "steps" wf ≫= _ = Ok ?l |- _ => assert (l = steps) as ->;
    [unfold dict_item in E; rewrite Hsteps in E; by injection E as <-|] end.
  rewrite !assoc_set_other in H by done.
  destruct (default (JInt 0) (assoc "cursor" s)) as [| |c| | | | |]; try discriminate H.
  destruct ((0 <=? c) && (c <=? Z.of_nat (length steps))) eqn:Ec; [|discriminate H]. bool_props.
  exists wf, steps, digest, c. by split_and!.
Qed.

(** C22. A workflow runs as it is written: the interpreter only moves forward over questions whose
    answers satisfy their schemas, and what it proposes is the step it stops at, with the tool
    and version of the definition and arguments resolved from this run's own inputs and outputs;
    it never skips a tool step, and the checkpoint records where it stopped. *)
Theorem workflow_proposals_follow_the_definition definition inputs s s' p :
  next_proposal re_search definition inputs s = (s', Ok p) ->
  exists wf steps c n, definition = JObj wf /\ assoc "steps" wf = Some (JList steps) /\
    default (JInt 0) (assoc "cursor" s) = JInt c /\ 0 <= c /\
    c + Z.of_nat n <= Z.of_nat (length steps) /\
    Forall (answered inputs) (take n (drop (Z.to_nat c) steps)) /\
    proposes inputs (default (JObj []) (assoc "outputs" s)) (steps !! (Z.to_nat c + n)%nat) p /\
    assoc "cursor" s' = Some (JInt (c + Z.of_nat n)) /\
    assoc "outputs" s' = assoc "outputs" s /\ assoc "workflow" s' = Some definition.
Proof.
  intros (wf & steps & digest & c & -> & Hd & Hsteps & Hne & Hok & _ & Hc & H0 & H)%next_proposal_inv.
  destruct (run_steps_spec _ _ _ _ _ _ (Forall_drop _ _ _ Hok) H) as (n & Ha & Hn & Hp & Hb & Hcur).
  { rewrite !assoc_set_other by done. destruct (assoc "cursor" s) as [v|]; simpl in Hc.
    - left. congruence.
    - right. injection Hc as <-. by rewrite drop_0. }
  exists wf, steps, c, n. rewrite length_drop in Hn. rewrite lookup_drop in Hp.
  rewrite !assoc_set_other in Hp by done.
  unfold bound_keys in Hb. rewrite assoc_set_same, !assoc_set_other in Hb by done.
  injection Hb as _ Hw Ho. rewrite !assoc_set_other in Ho by done. split_and!; try done; lia.
Qed.

(** C23. A run stays bound to its definition: after any proposal, a valid definition with another
    fingerprint is refused with [WorkflowBindingConflict] and the checkpoint is left as it was,
    so no later segment can swap the steps under an existing run. *)
Theorem workflow_stays_bound definition inputs s s' p other inputs' wf digest :
  next_proposal re_search definition inputs s = (s', Ok p) ->
  validate_workflow other = Ok wf -> fingerprint other = Ok digest ->
  fingerprint definition <> Ok digest ->
  exists e, next_proposal re_search other inputs' s' = (s', Err e) /\
    exn_cls e = WorkflowBindingConflict.
Proof.
  intros (? & steps & d & c & -> & Hd & _ & _ & Hok & _ & Hc & _ & H)%next_proposal_inv Hwf Hf Hne.
  pose proof (run_steps_bound _ _ _ _ _ _ (Forall_drop _ _ _ Hok) H) as Hb.
  unfold bound_keys in Hb. injection Hb as Hb _ _.
  rewrite assoc_set_other, assoc_set_same in Hb by done.
  apply validate_workflow_inv in Hwf as Hv. destruct Hv as [-> _].
  unfold next_proposal. unfold mbind, M_bind, lift. rewrite Hwf. unfold get_state. rewrite Hf, Hb.
  simpl. rewrite bool_decide_eq_false_2 by congruence. simpl. eauto.
Qed.
End promises.

Module WorkflowScenario.

(** Ask for a title, then create an event with it. *)
Definition flow (tool : string) : json := JObj [
  ("id", JStr "plan"); ("version", JStr "1.0");
  ("steps", JList [
    JObj [("id", JStr "title"); ("type", JStr "ask"); ("field", JStr "title");
          ("question", JStr "Which title?"); ("schema", JObj [("type", JStr "string")])];
    JObj [("id", JStr "create"); ("type", JStr "tool"); ("tool_id", JStr tool);
          ("tool_version", JStr "1.0");
          ("arguments", JObj [("title", JObj [("$value", JStr "inputs.title")])])]])].

Definition inputs : list (string * json) := [("title", JStr "exam")].

Definition step : list (string * json) * result json :=
  Eval vm_compute in next_proposal (fun _ _ => Ok true) (flow "calendar.create") inputs [].

Definition proposed : json := JObj [("kind", JStr "CALL_TOOL"); ("tool_id", JStr "calendar.create");
  ("tool_version", JStr "1.0"); ("arguments", JObj [("title", JStr "exam")])].

Definition digest_of (v : json) : string := match fingerprint v with Ok d => d | Err _ => "" end.

End WorkflowScenario.

Lemma workflow_proposals_follow_the_definition_witness :
  exists s', next_proposal (fun _ _ => Ok true) (WorkflowScenario.flow "calendar.create")
      WorkflowScenario.inputs [] = (s', Ok WorkflowScenario.proposed) /\
    assoc "cursor" s' = Some (JInt 1) /\
    assoc "workflow" s' = Some (WorkflowScenario.flow "calendar.create").
Proof.
  exists WorkflowScenario.step.1.
  assert (next_proposal (fun _ _ => Ok true) (WorkflowScenario.flow "calendar.create")
    WorkflowScenario.inputs [] = (WorkflowScenario.step.1, Ok WorkflowScenario.proposed)) as H
    by (vm_compute; reflexivity).
  destruct (workflow_proposals_follow_the_definition (fun _ _ => Ok true) _ _ _ _ _ H)
    as (wf & steps & c & n & _ & _ & _ & _ & _ & _ & _ & _ & _ & Hw).
  split; [exact H|]. split; [vm_compute; reflexivity|exact Hw].
Defined.

Lemma workflow_stays_bound_witness :
  exists s' e, next_proposal (fun _ _ => Ok true) (WorkflowScenario.flow "calendar.delete")
      WorkflowScenario.inputs s' = (s', Err e) /\ exn_cls e = WorkflowBindingConflict.
Proof.
  exists WorkflowScenario.step.1.
  apply (workflow_stays_bound (fun _ _ => Ok true) (WorkflowScenario.flow "calendar.create")
    WorkflowScenario.inputs [] WorkflowScenario.step.1 WorkflowScenario.proposed
    (WorkflowScenario.flow "calendar.delete") WorkflowScenario.inputs
    (match WorkflowScenario.flow "calendar.delete" with JObj wf => wf | _ => [] end)
    (WorkflowScenario.digest_of (WorkflowScenario.flow "calendar.delete"))).
  - vm_compute. reflexivity.
  - vm_compute. reflexivity.
  - vm_compute. reflexivity.
  - vm_compute. discriminate.
Defined.
