(* ===== verification/Records.v ===== *)
(** * Records: versioned records and command receipts

    Models [infrastructure/memory/records.py] behind the [RecordStore] port of
    [core/records.py].  [get], [list] and [put] hold the store's lock across no [await], so each
    is one atomic operation; [command] is a coroutine that takes the command lock unless its own
    task already holds it, looks for a receipt, runs the action and keeps the receipt. *)

From S2P Require Import Prelude Text Json.
Local Open Scope string_scope.
Local Open Scope Z_scope.

(** [{"id": ..., "version": ..., "value": ...}] *)
Record StoredRecord := {
  rec_id : string;
  rec_version : Z;
  rec_value : json
}.

(** Tasks of the event loop are numbered; [_records] keeps its insertion order. *)
Record InMemoryRecordStore := {
  _records : list ((string * string) * StoredRecord);
  _commands : gmap string (string * json);
  _command_owner : option Z
}.

#[global] Instance eta_records : Eta InMemoryRecordStore := fun s =>
  {| _records := _records s; _commands := _commands s; _command_owner := _command_owner s |}.

Definition empty_records : InMemoryRecordStore :=
  {| _records := []; _commands := ∅; _command_owner := None |}.

(** ** Dictionaries keyed by bucket and key *)

Fixpoint find_record (k : string * string) (l : list ((string * string) * StoredRecord))
  : option StoredRecord :=
  match l with
  | [] => None
  | (k', r) :: l => if bool_decide (k = k') then Some r else find_record k l
  end.

Fixpoint store_record (k : string * string) (r : StoredRecord)
    (l : list ((string * string) * StoredRecord)) : list ((string * string) * StoredRecord) :=
  match l with
  | [] => [(k, r)]
  | (k', r') :: l => if bool_decide (k = k') then (k, r) :: l else (k', r') :: store_record k r l
  end.

(** ** The store's methods *)

Definition record_get (bucket key : string) : M InMemoryRecordStore (option StoredRecord) :=
  s ← get_state; mret (find_record (bucket, key) (_records s)).

Definition record_list (bucket : string) : M InMemoryRecordStore (list StoredRecord) :=
  s ← get_state; mret (List.filter (fun kr => bool_decide (kr.1.1 = bucket)) (_records s)).*2.

Definition record_put (bucket key : string) (value : json) (expected_version : Z)
  : M InMemoryRecordStore StoredRecord :=
  _ ← lift (fingerprint value);
  s ← get_state;
  let current := match find_record (bucket, key) (_records s) with
                 | Some old => rec_version old
                 | None => 0
                 end in
  if negb (current =? expected_version)
  then raise ConcurrentModificationError "record version changed"
  else
    let record := {| rec_id := key; rec_version := expected_version + 1; rec_value := value |} in
    _ ← put_state (s {{ _records := store_record (bucket, key) record (_records s) }});
    mret record.

(** ** Operations as seen by a coroutine *)

Inductive recE : Type -> Type :=
| RGet (bucket key : string) : recE (option StoredRecord)
| RList (bucket : string) : recE (list StoredRecord)
| RPut (bucket key : string) (value : json) (expected_version : Z) : recE StoredRecord.

(** The command lock and the receipts. *)
Inductive cmdE : Type -> Type :=
| COwner : cmdE (option Z)
| CAcquire (task : Z) : cmdE unit
| CRelease : cmdE unit
| CFind (key : string) : cmdE (option (string * json))
| CKeep (key digest : string) (value : json) : cmdE unit.

Definition answer_record (X : Type) (op : recE X) : M InMemoryRecordStore X :=
  match op with
  | RGet b k => record_get b k
  | RList b => record_list b
  | RPut b k v n => record_put b k v n
  end.

(** [acquire] on a lock that somebody holds does not return: the waiting coroutine has no step,
    which a handler that has to answer reports as [None]. *)
Definition answer_command (X : Type) (op : cmdE X) (s : InMemoryRecordStore)
  : option (InMemoryRecordStore * result X) :=
  match op with
  | COwner => Some (s, Ok (_command_owner s))
  | CAcquire task =>
      match _command_owner s with
      | None => Some (s {{ _command_owner := Some task }}, Ok tt)
      | Some _ => None
      end
  | CRelease => Some (s {{ _command_owner := None }}, Ok tt)
  | CFind key => Some (s, Ok (_commands s !! key))
  | CKeep key digest value =>
      Some (s {{ _commands := <[key := (digest, value)]> (_commands s) }}, Ok tt)
  end.

Section command.
Context {F : Type -> Type} `{SubE cmdE F}.

(** The inner [apply] of [command]. *)
Definition apply_command (key digest : string) (action : prog F json) : prog F json :=
  old ← call (CFind key);
  match old with
  | Some (kept, value) =>
      if negb (bool_decide (kept = digest))
      then raise_prog ConcurrentModificationError "command key belongs to another request"
      else Ret value
  | None =>
      value ← action;
      _ ← call (CKeep key digest value);
      Ret value
  end.

Definition command (task : Z) (key : string) (request : json) (action : prog F json)
  : prog F json :=
  if bool_decide (key = "") || (256 <? str_len key)
  then raise_prog ValidationError "a bounded command key is required"
  else
    digest ← of_result (fingerprint request);
    owner ← call COwner;
    if bool_decide (owner = Some task) then apply_command key digest action
    else
      _ ← call (CAcquire task);
      prog_match (apply_command key digest action)
        (fun value => _ ← call CRelease; Ret value)
        (fun e => _ ← call CRelease; Raise e).

End command.

(** ** Systems that contain a record store

    [h] answers the operations of a larger system with state [S]; its store is a lens onto [S]
    through which the command operations act. *)

Class RecordSystem {F : Type -> Type} {S : Type} `{SubE cmdE F} (h : forall X, F X -> M S X) := {
  rs_store : S -> InMemoryRecordStore;
  rs_set : InMemoryRecordStore -> S -> S;
  rs_get_set st s : rs_store (rs_set st s) = st;
  rs_set_get s : rs_set (rs_store s) s = s;
  rs_set_set st st' s : rs_set st (rs_set st' s) = rs_set st s;
  rs_answer X (op : cmdE X) s st r :
    answer_command X op (rs_store s) = Some (st, r) -> h X (inject X op) s = (rs_set st s, r)
}.

Section serving.
Context {F : Type -> Type} {S : Type} `{SubE cmdE F} (h : forall X, F X -> M S X).
Context `{!RecordSystem h}.

Lemma run_command_op {A X} (op : cmdE X) (f : X -> prog F A) s st x :
  answer_command X op (rs_store s) = Some (st, Ok x) ->
  run h (y ← call op; f y) s = run h (f x) (rs_set st s).
Proof. intros Ha. rewrite run_bind. simpl. rewrite (rs_answer _ op s st _ Ha). done. Qed.

Definition idle (s : S) : Prop := _command_owner (rs_store s) = None.
Definition receipt (key : string) (s : S) : option (string * json) := _commands (rs_store s) !! key.

Definition lock (task : Z) (s : S) : S :=
  rs_set ((rs_store s) {{ _command_owner := Some task }}) s.
Definition unlock (s : S) : S := rs_set ((rs_store s) {{ _command_owner := None }}) s.
Definition keep (key digest : string) (v : json) (s : S) : S :=
  rs_set ((rs_store s) {{ _commands := <[key := (digest, v)]> (_commands (rs_store s)) }}) s.

Definition bounded_key (key : string) : Prop := key <> "" /\ str_len key <= 256.

Lemma run_apply key digest action s :
  run h (apply_command key digest action) s =
  match receipt key s with
  | Some (kept, v) =>
      (s, if bool_decide (kept = digest) then Ok v
          else fail ConcurrentModificationError "command key belongs to another request")
  | None =>
      match run h action s with
      | (s', Ok v) => (keep key digest v s', Ok v)
      | (s', Err e) => (s', Err e)
      end
  end.
Proof.
  unfold apply_command, receipt.
  erewrite run_command_op by reflexivity. rewrite rs_set_get.
  destruct (_commands (rs_store s) !! key) as [[kept v]|].
  - case_bool_decide; done.
  - rewrite run_bind. destruct (run h action s) as [s' [v|e]]; [|done].
    by erewrite run_command_op by reflexivity.
Qed.

Lemma unlock_lock task s : idle s -> unlock (lock task s) = s.
Proof.
  unfold idle, unlock, lock. intros Hi. rewrite rs_get_set, rs_set_set.
  etrans; [|apply rs_set_get]. f_equal. simpl. rewrite <- Hi. by destruct (rs_store s).
Qed.

(** A command that its task does not already hold runs between taking and releasing the lock. *)
Lemma run_command task key request digest action s :
  bounded_key key -> fingerprint request = Ok digest -> idle s ->
  run h (command task key request action) s =
  match run h (apply_command key digest action) (lock task s) with (s', r) => (unlock s', r) end.
Proof.
  intros [Hk Hl] Hf Hi. unfold command.
  rewrite bool_decide_eq_false_2 by done. rewrite (proj2 (Z.ltb_ge 256 (str_len key))) by done.
  cbn [orb]. rewrite run_bind, Hf. cbn [of_result run]. erewrite run_command_op by reflexivity.
  rewrite rs_set_get, Hi. rewrite bool_decide_eq_false_2 by done.
  rewrite (run_command_op (CAcquire task) _ s ((rs_store s) {{ _command_owner := Some task }}) tt)
    by (simpl; by rewrite Hi). rewrite run_match. fold (lock task s).
  destruct (run h (apply_command key digest action) (lock task s)) as [s' [v|e]];
    by erewrite run_command_op by reflexivity.
Qed.

Lemma receipt_lock key task s : receipt key (lock task s) = receipt key s.
Proof. unfold receipt, lock. by rewrite rs_get_set. Qed.

Lemma command_with_receipt task key request digest action s kept v :
  bounded_key key -> fingerprint request = Ok digest -> idle s -> receipt key s = Some (kept, v) ->
  run h (command task key request action) s =
  (s, if bool_decide (kept = digest) then Ok v
      else fail ConcurrentModificationError "command key belongs to another request").
Proof.
  intros Hk Hf Hi Hr. erewrite run_command by done.
  rewrite run_apply, receipt_lock, Hr. by rewrite unlock_lock.
Qed.

(** An action that works on records only: it neither takes the lock nor keeps receipts. *)
Definition plain_action (action : prog F json) : Prop := forall s,
  _command_owner (rs_store (run h action s).1) = _command_owner (rs_store s) /\
  _commands (rs_store (run h action s).1) = _commands (rs_store s).

(** Commands that are served one after the other. *)
Inductive serves : S -> S -> Prop :=
| serves_command s task key request action : plain_action action ->
    serves s (run h (command task key request action) s).1.

Lemma command_cases task key request action s : idle s ->
  (exists e, run h (command task key request action) s = (s, Err e)) \/
  exists digest, bounded_key key /\ fingerprint request = Ok digest.
Proof.
  intros Hi. unfold command, bounded_key.
  destruct (bool_decide (key = "")) eqn:E1; [left; cbn [orb]; by eexists|].
  destruct (256 <? str_len key) eqn:E2; [left; cbn [orb]; by eexists|]. bool_props.
  destruct (fingerprint request) as [d|e] eqn:E; [right; eauto|]. left. cbn [orb]. by eexists.
Qed.

(** Serving a command leaves the lock free and every existing receipt in place. *)
Lemma serves_keeps s s' key kept v : serves s s' -> idle s -> receipt key s = Some (kept, v) ->
  idle s' /\ receipt key s' = Some (kept, v).
Proof.
  intros [s0 task k request action Hplain] Hi Hr.
  destruct (command_cases task k request action s0 Hi) as [[e ->]|(digest & Hk & Hf)]; [done|].
  erewrite run_command by done. rewrite run_apply, receipt_lock.
  destruct (receipt k s0) as [[kept' v']|] eqn:Ek.
  - simpl. by rewrite unlock_lock.
  - pose proof (Hplain (lock task s0)) as [_ Hc]. unfold idle, receipt, unlock, keep in *.
    assert (_commands (rs_store (lock task s0)) = _commands (rs_store s0)) as Hc0
      by (unfold lock; by rewrite rs_get_set).
    destruct (run h action (lock task s0)) as [s1 [w|e]]; simpl in *;
      rewrite !rs_get_set; simpl; (split; [done|]); rewrite Hc, Hc0; [|done].
    rewrite lookup_insert_ne; [done|]. intros ->. congruence.
Qed.

Lemma served_keeps s s' key kept v : star serves s s' -> idle s -> receipt key s = Some (kept, v) ->
  idle s' /\ receipt key s' = Some (kept, v).
Proof.
  intros Hs Hi Hr. revert Hi Hr. induction Hs as [s|s1 s2 s3 H1 _ IH]; intros Hi Hr; [done|].
  destruct (serves_keeps _ _ _ _ _ H1 Hi Hr). by apply IH.
Qed.

(** A command takes effect once: after a command has succeeded, at any later moment the same
    key with the same request answers with the recorded result and changes nothing, and the same
    key with another request is refused, whatever action comes with it. *)
Theorem record_commands_run_once task key request digest action s s1 v s2 task' request' digest' action' :
  bounded_key key -> fingerprint request = Ok digest -> fingerprint request' = Ok digest' ->
  idle s -> run h (command task key request action) s = (s1, Ok v) -> star serves s1 s2 ->
  run h (command task' key request' action') s2 =
  (s2, if bool_decide (digest = digest') then Ok v
       else fail ConcurrentModificationError "command key belongs to another request").
Proof.
  intros Hk Hf Hf' Hi Hrun Hs.
  assert (idle s1 /\ receipt key s1 = Some (digest, v)) as [Hi1 Hr1].
  { revert Hrun. erewrite run_command by done. rewrite run_apply, receipt_lock.
    destruct (receipt key s) as [[kept w]|] eqn:Er.
    - rewrite unlock_lock by done. case_bool_decide; [|done]. by intros [= <- <-]; subst.
    - destruct (run h action (lock task s)) as [s' [w|e]]; [|done]. intros [= <- <-].
      unfold idle, receipt, unlock, keep. rewrite !rs_get_set. simpl. by rewrite lookup_insert_eq. }
  destruct (served_keeps _ _ _ _ _ Hs Hi1 Hr1) as [Hi2 Hr2].
  by erewrite command_with_receipt.
Qed.

End serving.

(** ** The store on its own *)

Inductive storeE : Type -> Type :=
| SRecord {X} (op : recE X) : storeE X
| SCommand {X} (op : cmdE X) : storeE X.

#[global] Instance SubE_store_rec : SubE recE storeE := fun X op => SRecord op.
#[global] Instance SubE_store_cmd : SubE cmdE storeE := fun X op => SCommand op.

Definition answer_store (X : Type) (op : storeE X) : M InMemoryRecordStore X :=
  match op with
  | SRecord op => answer_record _ op
  | SCommand op => fun s => match answer_command _ op s with
                            | Some sr => sr
                            | None => (s, fail PyRuntimeError "the command lock is held")
                            end
  end.

#[global] Instance store_system : RecordSystem answer_store.
Proof.
  refine {| rs_store := fun s => s; rs_set := fun st _ => st |}; try done.
  intros X op s st r Ha. simpl. unfold inject, SubE_store_cmd. simpl. by rewrite Ha.
Defined.

Module RecordScenario.

Definition note (text : string) : prog storeE json :=
  r ← call (RPut "notes" "n1" (JObj [("text", JStr text)]) 0); Ret (JInt (rec_version r)).

Definition request (text : string) : json := JObj [("text", JStr text)].

Definition digest (text : string) : string :=
  match fingerprint (request text) with Ok d => d | Err _ => "" end.

Definition kept : InMemoryRecordStore :=
  (run answer_store (command 1 "k" (request "a") (note "a")) empty_records).1.

End RecordScenario.

Lemma record_commands_run_once_witness :
  run answer_store (command 2 "k" (RecordScenario.request "a") (RecordScenario.note "z"))
    RecordScenario.kept = (RecordScenario.kept, Ok (JInt 1)) /\
  run answer_store (command 2 "k" (RecordScenario.request "b") (RecordScenario.note "b"))
    RecordScenario.kept =
  (RecordScenario.kept, fail ConcurrentModificationError "command key belongs to another request").
Proof.
  assert (forall text, text = "a" \/ text = "b" ->
    fingerprint (RecordScenario.request text) = Ok (RecordScenario.digest text)) as Hd
    by (intros text [->| ->]; vm_compute; reflexivity).
  assert (run answer_store (command 1 "k" (RecordScenario.request "a") (RecordScenario.note "a"))
            empty_records = (RecordScenario.kept, Ok (JInt 1))) as Hrun
    by (vm_compute; reflexivity).
  split.
  - refine (record_commands_run_once answer_store 1 "k" (RecordScenario.request "a")
      (RecordScenario.digest "a") (RecordScenario.note "a") empty_records RecordScenario.kept (JInt 1)
      RecordScenario.kept 2 (RecordScenario.request "a") (RecordScenario.digest "a") _
      _ (Hd _ (or_introl eq_refl)) (Hd _ (or_introl eq_refl)) eq_refl
      Hrun (star_refl _ _)).
    split; vm_compute; discriminate.
  - refine (eq_trans (record_commands_run_once answer_store 1 "k" (RecordScenario.request "a")
      (RecordScenario.digest "a") (RecordScenario.note "a") empty_records RecordScenario.kept (JInt 1)
      RecordScenario.kept 2 (RecordScenario.request "b") (RecordScenario.digest "b") _
      _ (Hd _ (or_introl eq_refl)) (Hd _ (or_intror eq_refl)) eq_refl
      Hrun (star_refl _ _)) _).
    + split; vm_compute; discriminate.
    + f_equal; vm_compute; reflexivity.
Defined.
