(* ===== verification/Governance.v ===== *)
(** * Governance: candidate rules and their activation

    Models [core/governance.py]: [validate_rule] and [RuleService] over the record store.  The
    rule history is a port of the service ([HRecord], [HRead]) and answers anything. *)

From S2P Require Import Prelude Text Pool Json Schemas Workflows Records.
Local Open Scope string_scope.
Local Open Scope Z_scope.

Definition _SCOPE : list string := ["workflow_id"; "extension_id"; "category"].
Definition _PREFERENCES : list string := ["language"; "ask_for_missing_material"; "answer_style"].

(** [value in {...}] for a set of strings: an unhashable value is a [TypeError]. *)
Definition in_set (value : json) (l : list string) : result bool :=
  if hashable value then Ok (match value with JStr s => mem_b s l | _ => false end)
  else fail PyTypeError "unhashable type".

(** [if key in preferences and preferences[key] not in choices: raise] *)
Definition check_choice (key : string) (choices : list string) (message : string)
    (preferences : list (string * json)) : result unit :=
  match assoc key preferences with
  | Some v => b ← in_set v choices; raise_if (negb b) ValidationError message
  | None => Ok tt
  end.

Definition is_bool (v : json) : bool := match v with JBool _ => true | _ => false end.

Definition validate_rule (scope preferences : list (string * json)) : result unit :=
  _ ← raise_if (bool_decide (scope = []) || negb (keys_within scope _SCOPE)
                || bool_decide (preferences = []) || negb (keys_within preferences _PREFERENCES))
        ValidationError "rule requires a limited scope and supported preferences";
  _ ← raise_if (existsb (fun kv => match kv.2 with JStr v => negb (ident_fullmatch v) | _ => true end)
                  scope)
        ValidationError "rule scopes contain metadata identifiers only";
  _ ← check_choice "language" ["zh"; "en"] "unsupported language preference" preferences;
  _ ← check_choice "answer_style" ["brief"; "detailed"] "unsupported answer style" preferences;
  match assoc "ask_for_missing_material" preferences with
  | Some v => raise_if (negb (is_bool v)) ValidationError "clarification preference must be boolean"
  | None => Ok tt
  end.

(** [all(metadata.get(k) == v for k, v in scope.items())] *)
Definition scope_matches (metadata scope : list (string * json)) : bool :=
  forallb (fun kv => py_eq (default JNull (assoc kv.1 metadata)) kv.2) scope.

(** ** The tests of an activation *)

Definition bad_test {A} : result A :=
  fail ValidationError "rule tests contain metadata and an expected boolean only".

(** One test: whether the scope matches its metadata, as the test expects. *)
Definition check_test (scope : list (string * json)) (test : json) : result bool :=
  d ← as_dict test;
  if negb (keys_exactly d ["metadata"; "matches"]) then bad_test
  else
    match assoc "matches" d, assoc "metadata" d with
    | Some (JBool expected), Some (JObj metadata) =>
        if negb (keys_within metadata _SCOPE) then bad_test
        else
          let actual := scope_matches metadata scope in
          if negb (Bool.eqb actual expected)
          then fail ValidationError "a rule counterexample failed" else Ok actual
    | _, _ => bad_test
    end.

Definition check_tests (scope : list (string * json)) (tests : list json) : result unit :=
  _ ← raise_if (negb ((2 <=? Z.of_nat (length tests)) && (Z.of_nat (length tests) <=? 32)))
        ValidationError "positive and negative tests are required";
  results ← result_map (check_test scope) tests;
  raise_if (negb (mem_b true results && mem_b false results))
    ValidationError "both matching and nonmatching examples are required".

(** ** The service *)

Inductive govE : Type -> Type :=
| GRecord {X} (op : recE X) : govE X
| GCommand {X} (op : cmdE X) : govE X
| GEnv {X} (op : envE X) : govE X
| HRecord (rule : json) : govE string
| HRead (revision rule_id : string) : govE json.

#[global] Instance SubE_gov_rec : SubE recE govE := fun X op => GRecord op.
#[global] Instance SubE_gov_cmd : SubE cmdE govE := fun X op => GCommand op.
#[global] Instance SubE_gov_env : SubE envE govE := fun X op => GEnv op.

Definition record_json (r : StoredRecord) : json :=
  JObj [("id", JStr (rec_id r)); ("version", JInt (rec_version r)); ("value", rec_value r)].

(** [{**d, k: v}] *)
Definition merge_dict (d kvs : list (string * json)) : list (string * json) :=
  fold_left (fun acc kv => assoc_set kv.1 kv.2 acc) kvs d.

Definition put_rule (rule_id : string) (value : list (string * json)) (expected_version : Z)
  : prog govE json :=
  r ← call (RPut "rules" rule_id (JObj value) expected_version); Ret (record_json r).

Definition get_rule (rule_id : string) : prog govE StoredRecord :=
  old ← call (RGet "rules" rule_id);
  match old with
  | Some r => Ret r
  | None => raise_prog NotFoundError "rule is not available"
  end.

Section service.
Context (task : Z) (has_history : bool).

Definition propose (scope preferences : list (string * json)) (key : string) : prog govE json :=
  _ ← of_result (validate_rule scope preferences);
  command task key
    (JObj [("operation", JStr "propose"); ("scope", JObj scope); ("preferences", JObj preferences)])
    (u ← call NewUuid;
     put_rule ("rule_" ++ u)
       [("state", JStr "CANDIDATE"); ("scope", JObj scope); ("preferences", JObj preferences)] 0).

Definition same_version (r : StoredRecord) (version : Z) : prog govE unit :=
  if negb (rec_version r =? version)
  then raise_prog ConcurrentModificationError "rule changed; review the new version" else Ret tt.

Definition historical (rule_id : string) (version : Z) (value : list (string * json)) : json :=
  JObj [("id", JStr rule_id); ("version", JInt (version + 1)); ("value", JObj value)].

(** The inner [apply] of [activate]. *)
Definition apply_activation (rule_id : string) (version : Z) (tests : list json)
  : prog govE json :=
  old ← get_rule rule_id;
  _ ← same_version old version;
  value ← of_result (as_dict (rec_value old));
  scope ← of_result (x ← dict_item "scope" value; as_dict x);
  preferences ← of_result (x ← dict_item "preferences" value; as_dict x);
  _ ← of_result (validate_rule scope preferences);
  _ ← of_result (check_tests scope tests);
  digest ← of_result (fingerprint (JObj value));
  let updated := merge_dict value
    [("state", JStr "ACTIVE"); ("tests", JList tests); ("tested_digest", JStr digest)] in
  updated ← (if has_history then
               revision ← call (HRecord (historical rule_id version updated));
               Ret (assoc_set "revision" (JStr revision) updated)
             else Ret updated);
  put_rule rule_id updated version.

Definition activate (rule_id : string) (version : Z) (tests : list json) (key : string)
  : prog govE json :=
  command task key
    (JObj [("operation", JStr "activate"); ("id", JStr rule_id); ("version", JInt version);
           ("tests", JList tests)])
    (apply_activation rule_id version tests).

Definition disable (rule_id : string) (version : Z) (key : string) : prog govE json :=
  command task key
    (JObj [("operation", JStr "disable"); ("id", JStr rule_id); ("version", JInt version)])
    (old ← get_rule rule_id;
     value ← of_result (as_dict (rec_value old));
     put_rule rule_id (merge_dict value [("state", JStr "DISABLED")]) version).

Definition rollback (rule_id revision : string) (version : Z) (key : string) : prog govE json :=
  if negb has_history then raise_prog ValidationError "rule history is unavailable"
  else
    command task key
      (JObj [("operation", JStr "rollback"); ("id", JStr rule_id); ("revision", JStr revision);
             ("version", JInt version)])
      (old ← get_rule rule_id;
       _ ← same_version old version;
       past ← call (HRead revision rule_id);
       past_value ← of_result (d ← as_dict past; x ← dict_item "value" d; as_dict x);
       let value := merge_dict past_value
         [("state", JStr "CANDIDATE"); ("rollback_from", JStr revision)] in
       recorded ← call (HRecord (historical rule_id version value));
       put_rule rule_id (assoc_set "revision" (JStr recorded) value) version).

End service.

(** [r["value"]["state"] == "ACTIVE"] *)
Definition is_active (r : StoredRecord) : result bool :=
  value ← as_dict (rec_value r);
  state ← dict_item "state" value;
  Ok (py_eq state (JStr "ACTIVE")).

Fixpoint filter_result {A} (f : A -> result bool) (l : list A) : result (list A) :=
  match l with
  | [] => Ok []
  | x :: l => b ← f x; rest ← filter_result f l; Ok (if (b : bool) then x :: rest else rest)
  end.

Definition active {F} `{SubE recE F} : prog F (list StoredRecord) :=
  rs ← call (RList "rules"); of_result (filter_result is_active rs).

Definition matches (metadata : list (string * json)) (r : StoredRecord) : result bool :=
  value ← as_dict (rec_value r);
  scope ← (x ← dict_item "scope" value; as_dict x);
  Ok (scope_matches metadata scope).

Definition rules_snapshot {F} `{SubE recE F} (metadata : list (string * json))
  : prog F (list StoredRecord) :=
  rs ← active; of_result (filter_result (matches metadata) rs).

(** ** Only tested rules become active *)

(** The evidence an active rule carries: its scope and preferences are valid, every kept test
    agrees with the scope, and there is one of each outcome. *)
Definition tested (d : list (string * json)) : Prop :=
  exists scope preferences tests,
    assoc "scope" d = Some (JObj scope) /\ assoc "preferences" d = Some (JObj preferences) /\
    assoc "tests" d = Some (JList tests) /\ validate_rule scope preferences = Ok tt /\
    Forall (fun t => exists b, check_test scope t = Ok b) tests /\
    (exists t, t ∈ tests /\ check_test scope t = Ok true) /\
    (exists t, t ∈ tests /\ check_test scope t = Ok false).

Definition rule_ok (v : json) : Prop :=
  exists d, v = JObj d /\ (assoc "state" d = Some (JStr "ACTIVE") -> tested d).

(** Every operation of the service, and anything that writes to other buckets. *)
Inductive rule_client : prog govE unit -> Prop :=
| client_propose task scope preferences key :
    rule_client (_ ← propose task scope preferences key; Ret tt)
| client_activate task has_history rule_id version tests key :
    rule_client (_ ← activate task has_history rule_id version tests key; Ret tt)
| client_disable task rule_id version key : rule_client (_ ← disable task rule_id version key; Ret tt)
| client_rollback task has_history rule_id revision version key :
    rule_client (_ ← rollback task has_history rule_id revision version key; Ret tt)
| client_other bucket key value version : bucket <> "rules" ->
    rule_client (_ ← call (RPut bucket key value version); Ret tt).

(** The history, the clock and the identifiers answer anything; a held lock has no step. *)
Definition gov_step (X : Type) (op : govE X) (s s' : InMemoryRecordStore) (r : result X) : Prop :=
  match op in govE X return result X -> Prop with
  | GRecord op => fun r => answer_record _ op s = (s', r)
  | GCommand op => fun r => answer_command _ op s = Some (s', r)
  | GEnv _ | HRecord _ | HRead _ _ => fun _ => s' = s
  end r.

Definition gov_allowed (X : Type) (_ : list unit) (op : govE X) : Prop :=
  match op with
  | GRecord (RPut bucket _ v _) => bucket = "rules" -> rule_ok v
  | _ => True
  end.

Definition rules_ok (s : InMemoryRecordStore) : Prop :=
  forall k r, (("rules", k), r) ∈ _records s -> rule_ok (rec_value r).

Notation gdwp := (dwp gov_allowed (fun X _ _ _ => True) (fun X _ _ => [] : list unit)).

Lemma store_record_elem k r l x : x ∈ store_record k r l -> x = (k, r) \/ x ∈ l.
Proof.
  induction l as [|[k' r'] l IH]; simpl.
  - set_solver.
  - case_bool_decide; rewrite !elem_of_cons; [naive_solver|]. intros [->|?]; [by auto|]. naive_solver.
Qed.

Lemma gov_step_inv X (op : govE X) s s' r kn : rules_ok s -> gov_allowed X kn op ->
  gov_step X op s s' r -> rules_ok s'.
Proof.
  intros Hok Ha Hs. destruct op as [X op|X op|X op|rule|rev i]; simpl in *; try by subst.
  - destruct op as [b k|b|b k v n]; simpl in Hs.
    + unfold record_get in Hs. injection Hs as <- <-. done.
    + injection Hs as <- <-. done.
    + unfold record_put, mbind, M_bind, lift, get_state in Hs.
      destruct (fingerprint v); [|by injection Hs as <- <-].
      destruct (negb _); [by injection Hs as <- <-|]. injection Hs as <- <-.
      intros k' r' [[= <- <- ->]|Hin]%store_record_elem; [by apply Ha|by eapply Hok].
  - destruct op; simpl in Hs; try (injection Hs as <- <-; done).
    destruct (_command_owner s); [done|]. by injection Hs as <- <-.
Qed.

Lemma gdwp_call {X} (op : govE X) (Q : list unit -> result X -> Prop) :
  gov_allowed X [] op -> (forall r, Q [] r) -> gdwp (perform op) [] Q.
Proof. intros Ha HQ. apply dwp_perform; [done|]. intros ans _. apply HQ. Qed.

(** Programs all of whose writes are allowed. *)
Definition harmless {A} (p : prog govE A) (P : A -> Prop) : Prop :=
  gdwp p [] (fun kn r => kn = [] /\ forall a, r = Ok a -> P a).

Lemma harmless_bind {A B} (p : prog govE A) (f : A -> prog govE B) P Q :
  harmless p P -> (forall a, P a -> harmless (f a) Q) -> harmless (p ≫= f) Q.
Proof.
  intros Hp Hf. apply dwp_bind. eapply dwp_mono; [|exact Hp].
  intros kn [a|e] [-> Ha]; simpl; [by apply Hf, Ha|]. by split.
Qed.

Lemma harmless_match {A B} (p : prog govE A) (f : A -> prog govE B) h P Q :
  harmless p P -> (forall a, P a -> harmless (f a) Q) -> (forall e, harmless (h e) Q) ->
  harmless (prog_match p f h) Q.
Proof.
  intros Hp Hf Hh. apply dwp_match. eapply dwp_mono; [|exact Hp].
  intros kn [a|e] [-> Ha]; [by apply Hf, Ha|apply Hh].
Qed.

Lemma harmless_ret {A} (a : A) (P : A -> Prop) : P a -> harmless (Ret a) P.
Proof. intros. split; [done|]. naive_solver. Qed.

Lemma harmless_raise {A} e (P : A -> Prop) : harmless (Raise e) P.
Proof. by split. Qed.

Lemma harmless_of_result {A} (r : result A) : harmless (of_result r) (fun a => r = Ok a).
Proof. destruct r; simpl; unfold harmless; simpl; naive_solver. Qed.

Lemma harmless_call {E X} `{SubE E govE} (op : E X) : gov_allowed X [] (inject X op) ->
  harmless (call op) (fun _ => True).
Proof. intros Ha. by apply gdwp_call. Qed.

Ltac harmless :=
  repeat first
    [ apply harmless_raise | (apply harmless_ret; done)
    | (eapply harmless_bind; [first [apply harmless_of_result | (apply harmless_call; done)]|];
       intros ? ?) ].

Lemma harmless_command task key request action :
  harmless action (fun _ => True) -> harmless (command task key request action) (fun _ => True).
Proof.
  intros Ha. unfold command. destruct (_ || _); [apply harmless_raise|].
  assert (forall d, harmless (apply_command key d action) (fun _ => True)) as Happ.
  { intros d. unfold apply_command. harmless. destruct a as [[kept v]|].
    - destruct (negb _); harmless.
    - eapply harmless_bind; [exact Ha|]. intros v _. harmless. }
  harmless. destruct (bool_decide _); [apply Happ|]. harmless.
  eapply harmless_match; [apply Happ| |]; intros; harmless.
Qed.

Lemma harmless_put i d v : rule_ok (JObj d) -> harmless (put_rule i d v) (fun _ => True).
Proof. intros Hd. unfold put_rule. eapply harmless_bind; [apply harmless_call; by intros _|]. intros; harmless. Qed.

Lemma harmless_get i : harmless (get_rule i) (fun _ => True).
Proof. unfold get_rule. harmless. destruct a; harmless. Qed.

Lemma harmless_version r v : harmless (same_version r v) (fun _ => True).
Proof. unfold same_version. destruct (negb _); harmless. Qed.

(** A dictionary whose state was just set to something other than [ACTIVE]. *)
Lemma rule_ok_inactive d state : assoc "state" d = Some (JStr state) -> state <> "ACTIVE" ->
  rule_ok (JObj d).
Proof. intros Hs Hn. exists d. split; [done|]. rewrite Hs. intros [= ?]. done. Qed.

Lemma check_tests_inv scope tests u : check_tests scope tests = Ok u ->
  Forall (fun t => exists b, check_test scope t = Ok b) tests /\
  (exists t, t ∈ tests /\ check_test scope t = Ok true) /\
  (exists t, t ∈ tests /\ check_test scope t = Ok false).
Proof.
  unfold check_tests. intros (_ & _ & (rs & Hrs%result_map_Ok & Hm)%result_bind_Ok)%result_bind_Ok.
  apply raise_if_Ok, negb_false_iff, andb_true_iff in Hm as [Ht Hf].
  apply mem_b_true in Ht, Hf. split_and!.
  - apply Forall_forall. intros t Hin.
    apply list_elem_of_lookup in Hin as [i Hi].
    destruct (Forall2_lookup_l _ _ _ _ _ Hrs Hi) as (b & _ & Hb). by exists b.
  - apply list_elem_of_lookup in Ht as [i Hi].
    destruct (Forall2_lookup_r _ _ _ _ _ Hrs Hi) as (t & Hl & Hb). exists t. split; [|done].
    by eapply list_elem_of_lookup_2.
  - apply list_elem_of_lookup in Hf as [i Hi].
    destruct (Forall2_lookup_r _ _ _ _ _ Hrs Hi) as (t & Hl & Hb). exists t. split; [|done].
    by eapply list_elem_of_lookup_2.
Qed.

Lemma rule_ok_tested value scope preferences tests digest revision :
  assoc "scope" value = Some (JObj scope) -> assoc "preferences" value = Some (JObj preferences) ->
  validate_rule scope preferences = Ok tt -> check_tests scope tests = Ok tt ->
  let updated := merge_dict value
    [("state", JStr "ACTIVE"); ("tests", JList tests); ("tested_digest", digest)] in
  rule_ok (JObj updated) /\ rule_ok (JObj (assoc_set "revision" revision updated)).
Proof.
  intros Hs Hp Hv Ht updated.
  assert (tested updated /\ tested (assoc_set "revision" revision updated)) as [H1 H2].
  { destruct (check_tests_inv _ _ _ Ht) as (H1 & H2 & H3). unfold updated. simpl.
    split; exists scope, preferences, tests; by rewrite ?assoc_set_other, ?assoc_set_same,
      ?assoc_set_other, ?assoc_set_same by done. }
  split; by eexists.
Qed.

Lemma dict_item_dict k value d : dict_item k value ≫= (fun x => as_dict x) = Ok d ->
  assoc k value = Some (JObj d).
Proof.
  intros (x & Hx%dict_item_Ok & Hd)%result_bind_Ok.
  destruct x; simpl in Hd; try discriminate Hd. by injection Hd as <-.
Qed.

Lemma find_record_elem k l r : find_record k l = Some r -> (k, r) ∈ l.
Proof.
  induction l as [|[k' r'] l IH]; simpl; [done|]. case_bool_decide; [|set_solver].
  intros [= ->]. subst. set_solver.
Qed.

Lemma harmless_activation has_history i version tests :
  harmless (apply_activation has_history i version tests) (fun _ => True).
Proof.
  unfold apply_activation. eapply harmless_bind; [apply harmless_get|]. intros old _.
  eapply harmless_bind; [apply harmless_version|]. intros _ _. harmless.
  apply dict_item_dict in H0, H1. destruct a2, a3.
  pose proof (fun rev => rule_ok_tested a a0 a1 tests (JStr a4) rev H0 H1 H2 H3) as Hok.
  eapply (harmless_bind _ _ (fun d => rule_ok (JObj d))); [|intros d Hd; by apply harmless_put].
  destruct has_history; [harmless|]; apply harmless_ret; [by apply Hok|].
  by destruct (Hok JNull).
Qed.

Lemma rule_client_ok p : rule_client p -> gdwp p [] (fun _ _ => True).
Proof.
  intros Hp. eapply dwp_mono with (Q := fun kn r => kn = [] /\ forall a : unit, r = Ok a -> True);
    [done|]. change (harmless p (fun _ => True)).
  destruct Hp; (eapply harmless_bind; [|intros; harmless]).
  - unfold propose. harmless. apply harmless_command. harmless. apply harmless_put.
    by eapply rule_ok_inactive.
  - apply harmless_command, harmless_activation.
  - apply harmless_command. eapply harmless_bind; [apply harmless_get|]. intros old _. harmless.
    apply harmless_put. by eapply rule_ok_inactive; [apply assoc_set_same|].
  - unfold rollback. destruct (negb has_history); [harmless|]. apply harmless_command.
    eapply harmless_bind; [apply harmless_get|]. intros old _.
    eapply harmless_bind; [apply harmless_version|]. intros _ _. harmless.
    apply harmless_put. eapply rule_ok_inactive.
    + simpl. rewrite !assoc_set_other by done. apply assoc_set_same.
    + done.
  - apply harmless_call. simpl. by intros ->.
Qed.

Definition rule_pool : InMemoryRecordStore * list (prog govE unit) ->
  InMemoryRecordStore * list (prog govE unit) -> Prop := pstep gov_step rule_client.

(** No untested rule is ever active: however proposals, activations, rollbacks and other
    writers interleave or are cut off, a stored rule whose state is [ACTIVE] has a valid limited
    scope and supported preferences, and keeps the tests that were run against that very scope,
    with at least one match and one non-match. *)
Theorem active_rules_are_tested s ts i r d :
  star rule_pool (empty_records, []) (s, ts) ->
  find_record ("rules", i) (_records s) = Some r -> rec_value r = JObj d ->
  assoc "state" d = Some (JStr "ACTIVE") -> tested d.
Proof.
  intros Hs Hr Hd Hst.
  destruct (pool_reachable gov_step rule_client gov_allowed (fun X _ _ _ => True)
    (fun X _ _ => [] : list unit) (fun s _ => rules_ok s)) with (H := @nil unit) (s := empty_records)
    (c := (s, ts)) as (H' & _ & Hok & _); [|done|exact rule_client_ok|by intros ?? ?%not_elem_of_nil|done|].
  { intros X op s0 s1 r0 H kn Hi _ Ha Hstep. exists H. split_and!; [done| |set_solver|done].
    by eapply gov_step_inv. }
  apply find_record_elem in Hr. destruct (Hok _ _ Hr) as (d' & Hd' & Ht).
  rewrite Hd in Hd'. injection Hd' as <-. by apply Ht.
Qed.

(** ** Scenario *)

Module RuleScenario.

(** Answers of a system of its own: identifiers are constant and the history empty. *)
Definition answer (X : Type) (op : govE X) : M InMemoryRecordStore X :=
  match op with
  | GRecord op => answer_record _ op
  | GCommand op => fun s => match answer_command _ op s with
                            | Some sr => sr
                            | None => (s, fail PyRuntimeError "the command lock is held")
                            end
  | GEnv op => fun s => (s, match op in envE X return result X with Now => Ok 0 | NewUuid => Ok "u" | NewToken => Ok "t" end)
  | HRecord _ => fun s => (s, Ok "rev")
  | HRead _ _ => fun s => (s, fail NotFoundError "no revision")
  end.

Definition scope : list (string * json) := [("category", JStr "mail")].
Definition preferences : list (string * json) := [("language", JStr "en")].
Definition test (category : string) (expected : bool) : json :=
  JObj [("metadata", JObj [("category", JStr category)]); ("matches", JBool expected)].

Definition proposal : prog govE unit := _ ← propose 1 scope preferences "k1"; Ret tt.
Definition activation : prog govE unit :=
  _ ← activate 1 true "rule_u" 1 [test "mail" true; test "exam" false] "k2"; Ret tt.

Definition proposed : InMemoryRecordStore := Eval vm_compute in (run answer proposal empty_records).1.
Definition activated : InMemoryRecordStore := Eval vm_compute in (run answer activation proposed).1.

Definition rule : list (string * json) :=
  match find_record ("rules", "rule_u") (_records activated) with
  | Some r => match rec_value r with JObj d => d | _ => [] end
  | None => []
  end.

End RuleScenario.

Lemma active_rules_are_tested_witness : tested RuleScenario.rule.
Proof.
  assert (star rule_pool (empty_records, []) (RuleScenario.proposed, [Ret tt])) as H1.
  { refine (pool_run_follows gov_step rule_client RuleScenario.answer RuleScenario.proposal
      empty_records [] _ (client_propose _ _ _ _)).
    vm_compute. tauto. }
  assert (star rule_pool (RuleScenario.proposed, [Ret tt])
    (RuleScenario.activated, [Ret tt; Ret tt])) as H2.
  { refine (pool_run_follows gov_step rule_client RuleScenario.answer RuleScenario.activation
      RuleScenario.proposed [Ret tt] _ (client_activate _ _ _ _ _ _)).
    vm_compute. tauto. }
  eapply (active_rules_are_tested RuleScenario.activated [Ret tt; Ret tt] "rule_u").
  - exact (star_trans _ _ _ _ H1 H2).
  - vm_compute. reflexivity.
  - reflexivity.
  - vm_compute. reflexivity.
Defined.
