(* ===== verification/JobQueue.v ===== *)
(** * JobQueue: leased background jobs

    Models [core/jobs/queue.py] and [infrastructure/memory/job_queue.py].
    Every method holds the queue's lock and does not await inside, so
    it is one atomic step; the clock readings it takes and the random part of a new identifier
    are arguments ([now] is the first reading, [now'] a later one). *)

From S2P Require Import Prelude Text Json Schemas.
Local Open Scope string_scope.
Local Open Scope Z_scope.

Module JobState.
Inductive t := READY | LEASED | SUCCEEDED | FAILED | DEAD_LETTER | WAITING_RECONCILIATION.

#[global] Instance job_state_eq_dec : EqDecision t.
Proof. solve_decision. Defined.

(** No operation leaves these states. *)
Definition settled (s : t) : bool := match s with READY | LEASED => false | _ => true end.
End JobState.

Record Job := {
  job_id : string;
  job_kind : string;
  job_payload : list (string * json);
  job_key : string;
  job_created_at : time;
  available_at : time;
  job_state : JobState.t;
  attempts : Z;
  max_attempts : Z;
  lease_owner : option string;
  lease_until : option time;
  job_result : option json;
  error_code : option string;
  job_version : Z
}.
#[export] Instance Job_eta : Eta Job := fun r =>
  Build_Job (job_id r) (job_kind r) (job_payload r) (job_key r) (job_created_at r)
    (available_at r) (job_state r) (attempts r) (max_attempts r) (lease_owner r) (lease_until r)
    (job_result r) (error_code r) (job_version r).

Record InMemoryJobQueue := {
  _jobs : gmap string Job;
  _idempotency : gmap (string * string) string
}.
#[export] Instance InMemoryJobQueue_eta : Eta InMemoryJobQueue := fun r =>
  Build_InMemoryJobQueue (_jobs r) (_idempotency r).

Definition empty_queue : InMemoryJobQueue := {| _jobs := ∅; _idempotency := ∅ |}.

Definition store_job (j : Job) (q : InMemoryJobQueue) : InMemoryJobQueue :=
  q {{ _jobs := <[job_id j := j]> (_jobs q) }}.

(** ** Operations *)

Definition enqueue (kind : string) (payload : list (string * json)) (idempotency_key : string)
    (available : option time) (maximum : Z) (now : time) (hex : string)
  : M InMemoryJobQueue Job :=
  if blank idempotency_key then raise PyValueError "idempotency_key is required"
  else if maximum <? 1 then raise PyValueError "max_attempts must be positive"
  else
    q ← get_state;
    match _idempotency q !! (kind, idempotency_key) with
    | Some existing_id =>
        match _jobs q !! existing_id with
        | None => raise PyKeyError existing_id
        | Some existing =>
            if negb (py_eq (JObj (job_payload existing)) (JObj payload)) then
              raise PyValueError "idempotency key was reused with a different job payload"
            else mret existing
        end
    | None =>
        let job := {| job_id := "job_" ++ hex; job_kind := kind; job_payload := payload;
          job_key := idempotency_key; job_created_at := now; available_at := opt_or available now;
          job_state := JobState.READY; attempts := 0; max_attempts := maximum;
          lease_owner := None; lease_until := None; job_result := None; error_code := None;
          job_version := 0 |} in
        _ ← put_state (store_job job q {{ _idempotency := <[(kind, idempotency_key) := job_id job]>
                                                            (_idempotency q) }});
        mret job
    end.

(** The first pass of [claim]: a lease that has run out is taken back. *)
Definition lease_expired (now : time) (j : Job) : bool :=
  bool_decide (job_state j = JobState.LEASED)
  && match lease_until j with Some u => u <=? now | None => false end.

Definition refresh (now : time) (j : Job) : Job :=
  if lease_expired now j
  then j {{ job_state := JobState.READY; lease_owner := None; lease_until := None }} else j.

Definition candidate (now : time) (j : Job) : bool :=
  bool_decide (job_state j = JobState.READY) && (available_at j <=? now).

(** [(available_at, created_at, id)] in lexicographic order. *)
Definition claim_before (a b : Job) : bool :=
  match available_at a ?= available_at b with
  | Lt => true
  | Gt => false
  | Eq => match job_created_at a ?= job_created_at b with
          | Lt => true
          | Gt => false
          | Eq => String.ltb (job_id a) (job_id b)
          end
  end.

(** [min(candidates, key=...)]: the first of the least ones. *)
Definition min_job (l : list Job) : option Job :=
  match l with
  | [] => None
  | j :: l => Some (fold_left (fun best x => if claim_before x best then x else best) l j)
  end.

Definition candidates (now : time) (q : InMemoryJobQueue) : list Job :=
  List.filter (candidate now) ((map_to_list (_jobs q)).*2).

Definition claim (worker_id : string) (lease_seconds : Z) (now : time)
  : M InMemoryJobQueue (option Job) :=
  if lease_seconds <? 1 then raise PyValueError "lease_seconds must be positive"
  else
    q0 ← get_state;
    let q := q0 {{ _jobs := refresh now <$> _jobs q0 }} in
    match min_job (candidates now q) with
    | None => _ ← put_state q; mret None
    | Some j =>
        let job := j {{ job_state := JobState.LEASED; lease_owner := Some worker_id;
                        lease_until := Some (now + seconds lease_seconds);
                        attempts := attempts j + 1; job_version := job_version j + 1 }} in
        _ ← put_state (store_job job q); mret (Some job)
    end.

Definition owns (now : time) (worker_id : string) (j : Job) : bool :=
  bool_decide (job_state j = JobState.LEASED) && bool_decide (lease_owner j = Some worker_id)
  && match lease_until j with Some u => now <? u | None => false end.

Definition _require_lease (id worker_id : string) (now : time) : M InMemoryJobQueue Job :=
  q ← get_state;
  match _jobs q !! id with
  | None => raise PyKeyError id
  | Some j => if owns now worker_id j then mret j
              else raise LeaseConflict ("worker " ++ str_repr worker_id ++ " does not own job "
                                        ++ str_repr id)
  end.

Definition _release (j : Job) : Job :=
  j {{ lease_owner := None; lease_until := None; job_version := job_version j + 1 }}.

(** [job = self._require_lease(...); mutate; return deepcopy(job)] *)
Definition with_lease (id worker_id : string) (now : time) (f : Job -> Job)
  : M InMemoryJobQueue Job :=
  job ← _require_lease id worker_id now;
  q ← get_state;
  _ ← put_state (store_job (f job) q);
  mret (f job).

Definition heartbeat (id worker_id : string) (lease_seconds : Z) (now now' : time)
  : M InMemoryJobQueue Job :=
  with_lease id worker_id now (fun job =>
    job {{ lease_until := Some (now' + seconds lease_seconds);
           job_version := job_version job + 1 }}).

Definition complete (id worker_id : string) (res : json) (now : time) : M InMemoryJobQueue Job :=
  with_lease id worker_id now (fun job =>
    _release (job {{ job_state := JobState.SUCCEEDED; job_result := Some res }})).

Definition release (id worker_id : string) (now now' : time) : M InMemoryJobQueue Job :=
  with_lease id worker_id now (fun job =>
    _release (job {{ job_state := JobState.READY; available_at := now' }})).

Definition fail_update (code : string) (retryable : bool) (retry_at : option time) (now' : time)
    (job : Job) : Job :=
  _release (
    if retryable && (attempts job <? max_attempts job)
    then job {{ error_code := Some code; job_state := JobState.READY;
                available_at := opt_or retry_at now' }}
    else job {{ error_code := Some code;
                job_state := if retryable then JobState.DEAD_LETTER else JobState.FAILED }}).

Definition fail_job (id worker_id code : string) (retryable : bool) (retry_at : option time)
    (now now' : time) : M InMemoryJobQueue Job :=
  with_lease id worker_id now (fail_update code retryable retry_at now').

Definition mark_unknown_job (id worker_id diagnostic_code : string) (now : time)
  : M InMemoryJobQueue Job :=
  with_lease id worker_id now (fun job =>
    _release (job {{ job_state := JobState.WAITING_RECONCILIATION;
                     error_code := Some diagnostic_code }})).

Definition get_job (id : string) : M InMemoryJobQueue (option Job) :=
  q ← get_state; mret (_jobs q !! id).

(** ** The queue as a transition system *)

Inductive queue_op :=
| QEnqueue (kind : string) (payload : list (string * json)) (key : string)
    (available : option time) (maximum : Z) (hex : string)
| QClaim (worker : string) (lease_seconds : Z)
| QHeartbeat (id worker : string) (lease_seconds : Z)
| QComplete (id worker : string) (res : json)
| QRelease (id worker : string)
| QFail (id worker code : string) (retryable : bool) (retry_at : option time)
| QMarkUnknown (id worker code : string).

(** The state after an operation at time [now] (later readings return [now']). *)
Definition queue_run (op : queue_op) (now now' : time) (q : InMemoryJobQueue)
  : InMemoryJobQueue :=
  match op with
  | QEnqueue kind payload key available maximum hex =>
      (enqueue kind payload key available maximum now hex q).1
  | QClaim w n => (claim w n now q).1
  | QHeartbeat i w n => (heartbeat i w n now now' q).1
  | QComplete i w r => (complete i w r now q).1
  | QRelease i w => (release i w now now' q).1
  | QFail i w c b r => (fail_job i w c b r now now' q).1
  | QMarkUnknown i w c => (mark_unknown_job i w c now q).1
  end.

(** [uuid4] gives an identifier that is not in use. *)
Definition fresh_for (op : queue_op) (q : InMemoryJobQueue) : Prop :=
  match op with
  | QEnqueue _ _ _ _ _ hex => _jobs q !! ("job_" ++ hex) = None
  | _ => True
  end.

Inductive queue_step : InMemoryJobQueue -> InMemoryJobQueue -> Prop :=
| queue_step_intro q op now now' : now <= now' -> fresh_for op q ->
    queue_step q (queue_run op now now' q).

(** ** What one operation does to one job *)

(** The lease holder's operations: the job, the worker and the update. *)
Definition lease_op (op : queue_op) (now' : time) : option (string * string * (Job -> Job)) :=
  match op with
  | QEnqueue _ _ _ _ _ _ | QClaim _ _ => None
  | QHeartbeat i w n => Some (i, w, fun job =>
      job {{ lease_until := Some (now' + seconds n); job_version := job_version job + 1 }})
  | QComplete i w r => Some (i, w, fun job =>
      _release (job {{ job_state := JobState.SUCCEEDED; job_result := Some r }}))
  | QRelease i w => Some (i, w, fun job =>
      _release (job {{ job_state := JobState.READY; available_at := now' }}))
  | QFail i w c b r => Some (i, w, fail_update c b r now')
  | QMarkUnknown i w c => Some (i, w, fun job =>
      _release (job {{ job_state := JobState.WAITING_RECONCILIATION; error_code := Some c }}))
  end.

Definition leased (w : string) (n : Z) (now : time) (j : Job) : Job :=
  j {{ job_state := JobState.LEASED; lease_owner := Some w;
       lease_until := Some (now + seconds n);
       attempts := attempts j + 1; job_version := job_version j + 1 }}.

Inductive job_moves (op : queue_op) (now now' : time) (j : Job) : Job -> Prop :=
| mv_same : job_moves op now now' j j
| mv_expire w n : op = QClaim w n -> job_moves op now now' j (refresh now j)
| mv_claim w n : op = QClaim w n -> 1 <= n -> candidate now (refresh now j) = true ->
    job_moves op now now' j (leased w n now (refresh now j))
| mv_owner i w f : lease_op op now' = Some (i, w, f) -> job_id j = i -> owns now w j = true ->
    job_moves op now now' j (f j).

#[export] Hint Constructors job_moves : pa.

(** Jobs are stored under their own identifier. *)
Definition ids_ok (q : InMemoryJobQueue) : Prop :=
  forall i j, _jobs q !! i = Some j -> job_id j = i.

Lemma refresh_id now j : job_id (refresh now j) = job_id j.
Proof. unfold refresh. by destruct (lease_expired now j). Qed.

Lemma min_fold_in l j : fold_left (fun b x => if claim_before x b then x else b) l j ∈ j :: l.
Proof.
  revert j; induction l as [|x l IH]; intros j; simpl; [left|].
  destruct (claim_before x j).
  - specialize (IH x). set_solver.
  - specialize (IH j). set_solver.
Qed.

Lemma min_job_in l j : min_job l = Some j -> j ∈ l.
Proof. destruct l as [|x l]; simpl; [done|]. intros [= <-]. apply min_fold_in. Qed.

Lemma candidates_spec now q j : j ∈ candidates now q ->
  candidate now j = true /\ exists i, _jobs q !! i = Some j.
Proof.
  unfold candidates. intros H%list_elem_of_In. apply List.filter_In in H as [H ?].
  split; [done|]. apply list_elem_of_In, list_elem_of_fmap in H as ([i x] & -> & H).
  apply elem_of_map_to_list in H. by exists i.
Qed.

Lemma claim_cases w n now q : ids_ok q ->
  (n < 1 /\ (claim w n now q).1 = q) \/
  ((claim w n now q) = (q {{ _jobs := refresh now <$> _jobs q }}, Ok None)) \/
  (1 <= n /\ exists i j, _jobs q !! i = Some j /\ candidate now (refresh now j) = true /\
     claim w n now q = (store_job (leased w n now (refresh now j))
                          (q {{ _jobs := refresh now <$> _jobs q }}),
                        Ok (Some (leased w n now (refresh now j))))).
Proof.
  intros Hid. unfold claim. destruct (n <? 1) eqn:Hn; bool_props; [by left|].
  unfold mbind, M_bind, get_state, put_state, mret, M_ret. simpl.
  destruct (min_job _) as [m|] eqn:Hm; [|by right; left]. right; right. split; [done|].
  apply min_job_in, candidates_spec in Hm as [Hc [i Hi]]. simpl in Hi.
  rewrite lookup_fmap in Hi. destruct (_jobs q !! i) as [j|] eqn:Hj; simplify_eq/=.
  by exists i, j.
Qed.

Lemma lease_cases op now now' q i w f : lease_op op now' = Some (i, w, f) ->
  queue_run op now now' q = (with_lease i w now f q).1.
Proof. by destruct op; intros [= <- <- <-]. Qed.

Lemma with_lease_cases i w now f q :
  (with_lease i w now f q).1 = q \/
  exists j, _jobs q !! i = Some j /\ owns now w j = true /\
    (with_lease i w now f q).1 = store_job (f j) q.
Proof.
  unfold with_lease, _require_lease, mbind, M_bind, get_state, put_state, mret, M_ret, raise.
  destruct (_jobs q !! i) as [j|] eqn:Hj; [|by left].
  destruct (owns now w j) eqn:Ho; [|by left]. right. by exists j.
Qed.

Lemma lease_op_id op now' i w f j : lease_op op now' = Some (i, w, f) -> job_id (f j) = job_id j.
Proof.
  destruct op; intros [= <- <- <-]; try done. unfold fail_update.
  by destruct (_ && _), retryable.
Qed.

(** Every stored job makes one of the moves. *)
Lemma queue_run_moves op now now' q i j :
  ids_ok q -> fresh_for op q -> _jobs q !! i = Some j ->
  exists j', _jobs (queue_run op now now' q) !! i = Some j' /\ job_moves op now now' j j'.
Proof.
  intros Hid Hf Hj. destruct (lease_op op now') as [[[i' w] f]|] eqn:Hop.
  - rewrite (lease_cases _ _ _ _ _ _ _ Hop).
    destruct (with_lease_cases i' w now f q) as [->|(j0 & Hj0 & Ho & ->)]; [eauto with pa|].
    assert (job_id (f j0) = i') as Hfi by (erewrite lease_op_id by done; by apply Hid).
    unfold store_job; simpl. rewrite Hfi. destruct (decide (i' = i)) as [<-|Hne].
    + rewrite lookup_insert_eq. simplify_eq. eexists. split; [done|].
      eapply mv_owner; [done|by apply Hid|done].
    + rewrite lookup_insert_ne by done. eauto with pa.
  - destruct op as [kind payload key av mx hex|w n| | | | |]; try discriminate Hop; simpl.
    + unfold enqueue, mbind, M_bind, get_state, put_state, mret, M_ret, raise.
      repeat split_match; eauto with pa. simpl in Hf |- *.
      rewrite lookup_insert_ne by (intros <-; congruence). eauto with pa.
    + destruct (claim_cases w n now q Hid) as [[_ ->]|[->|(Hn & i0 & j0 & Hj0 & Hc & ->)]]; simpl.
      * eauto with pa.
      * rewrite lookup_fmap, Hj. eauto with pa.
      * rewrite refresh_id, (Hid _ _ Hj0).
        destruct (decide (i0 = i)) as [<-|Hne].
        -- rewrite lookup_insert_eq. simplify_eq. eauto with pa.
        -- rewrite lookup_insert_ne, lookup_fmap, Hj by done. eauto with pa.
Qed.

(** ** The queue invariant *)

Record job_ok (j : Job) : Prop := {
  ok_owner : job_state j = JobState.LEASED <-> is_Some (lease_owner j);
  ok_until : job_state j = JobState.LEASED <-> is_Some (lease_until j);
  ok_attempts : 0 <= attempts j;
  ok_leased : job_state j = JobState.LEASED -> 1 <= attempts j;
  ok_max : 1 <= max_attempts j
}.

(** What no operation changes. *)
Definition same_job (j j' : Job) : Prop :=
  job_id j' = job_id j /\ job_kind j' = job_kind j /\ job_key j' = job_key j /\
  job_payload j' = job_payload j /\ job_created_at j' = job_created_at j /\
  max_attempts j' = max_attempts j.

Record queue_ok (q : InMemoryJobQueue) : Prop := {
  ok_ids : ids_ok q;
  ok_jobs : forall i j, _jobs q !! i = Some j ->
    job_ok j /\ _idempotency q !! (job_kind j, job_key j) = Some i;
  ok_index : forall k i, _idempotency q !! k = Some i ->
    exists j, _jobs q !! i = Some j /\ (job_kind j, job_key j) = k
}.

Lemma refresh_same now j : same_job j (refresh now j).
Proof. unfold refresh, same_job. by destruct (lease_expired now j). Qed.

Lemma refresh_job_ok now j : job_ok j -> job_ok (refresh now j).
Proof.
  intros [H1 H2 H3 H4 H5]. unfold refresh. destruct (lease_expired now j); [|done].
  split; simpl; try done; (split; [done|]; by intros [? ?]).
Qed.

Lemma owns_leased now w j : owns now w j = true -> job_state j = JobState.LEASED.
Proof. unfold owns. intros H. by bool_props. Qed.

Lemma release_job_ok j : 0 <= attempts j -> 1 <= max_attempts j ->
  job_state j <> JobState.LEASED -> job_ok (_release j).
Proof.
  intros Ha Hm Hs. split; simpl; try done; split; try done; by intros [? ?].
Qed.

Lemma job_moves_ok op now now' j j' :
  job_moves op now now' j j' -> job_ok j -> job_ok j' /\ same_job j j'.
Proof.
  intros Hm Hok. destruct Hm as [|w n _|w n _ Hn _|i w f Hop Hi Ho].
  - by unfold same_job.
  - split; [by apply refresh_job_ok|apply refresh_same].
  - pose proof (refresh_same now j) as Hs. apply (refresh_job_ok now) in Hok.
    destruct Hok as [_ _ Ha _ Hm]. unfold leased. split; [|by unfold same_job in *; simpl].
    split; simpl; try lia; done.
  - pose proof (owns_leased _ _ _ Ho) as Hst. destruct Hok as [H1 H2 H3 H4 H5].
    destruct op; simplify_eq/=; try (split; [apply release_job_ok; simpl; done|by unfold same_job; simpl]).
    + split; [|by unfold same_job]. split; simpl; try done; split; done.
    + unfold fail_update. destruct (retryable && _);
        (split; [apply release_job_ok; simpl; try done; by destruct retryable|by unfold same_job]).
Qed.

Lemma enqueue_cases kind payload key av mx now hex q :
  (enqueue kind payload key av mx now hex q).1 = q \/
  exists job, enqueue kind payload key av mx now hex q =
    (store_job job q {{ _idempotency := <[(kind, key) := job_id job]> (_idempotency q) }}, Ok job) /\
    _idempotency q !! (kind, key) = None /\ job_ok job /\ job_id job = "job_" ++ hex /\
    job_kind job = kind /\ job_key job = key /\ job_payload job = payload.
Proof.
  unfold enqueue, mbind, M_bind, get_state, put_state, mret, M_ret, raise.
  destruct (blank key); [by left|]. destruct (mx <? 1) eqn:Hmx; [by left|]. bool_props.
  destruct (_idempotency q !! (kind, key)) as [i|] eqn:Hk.
  - left. destruct (_jobs q !! i) as [j|]; [|done]. by destruct (negb _).
  - right. eexists. split; [reflexivity|]. split_and!; try done.
    split; simpl; try done; try lia; (split; [done|]; by intros [? ?]).
Qed.

Lemma claim_dom w n now q i j' : ids_ok q ->
  _jobs (claim w n now q).1 !! i = Some j' -> is_Some (_jobs q !! i).
Proof.
  intros Hid. destruct (claim_cases w n now q Hid) as [[_ ->]|[->|(Hn & i0 & j0 & Hj0 & Hc & ->)]];
    simpl; [eauto| |].
  - rewrite lookup_fmap. by destruct (_jobs q !! i).
  - rewrite refresh_id, (Hid _ _ Hj0). intros [[<- _]|[_ H]]%lookup_insert_Some'; [by eauto|].
    rewrite lookup_fmap in H. by destruct (_jobs q !! i).
Qed.

(** No operation but [enqueue] adds a job, and only [enqueue] writes the index. *)
Lemma queue_run_frame op now now' q : ids_ok q ->
  match op with
  | QEnqueue _ _ _ _ _ _ => True
  | _ => _idempotency (queue_run op now now' q) = _idempotency q /\
         forall i j', _jobs (queue_run op now now' q) !! i = Some j' -> is_Some (_jobs q !! i)
  end.
Proof.
  intros Hid. assert (forall i w f, lease_op op now' = Some (i, w, f) ->
    _idempotency (queue_run op now now' q) = _idempotency q /\
    forall i0 j', _jobs (queue_run op now now' q) !! i0 = Some j' -> is_Some (_jobs q !! i0)) as Hl.
  { intros i w f Hop. rewrite (lease_cases _ _ _ _ _ _ _ Hop).
    destruct (with_lease_cases i w now f q) as [->|(j0 & Hj0 & _ & ->)]; [by eauto|].
    split; [done|]. simpl. rewrite (lease_op_id _ _ _ _ _ _ Hop), (Hid _ _ Hj0).
    by intros i0 j' [[<- _]|[_ H]]%lookup_insert_Some'; eauto. }
  destruct op as [| w n| | | | |]; try done; try by eapply Hl.
  split; [|intros i j'; by apply claim_dom]. simpl.
  destruct (claim_cases w n now q Hid) as [[_ ->]|[->|(? & ? & ? & ? & ? & ->)]]; done.
Qed.

Lemma queue_step_ok q q' : queue_step q q' -> queue_ok q -> queue_ok q'.
Proof.
  intros Hs; destruct Hs as [q op now now' _ Hf]; intros [Hid Hj Hx].
  assert (forall i j, _jobs q !! i = Some j -> exists j',
    _jobs (queue_run op now now' q) !! i = Some j' /\ job_ok j' /\ same_job j j') as Hmv.
  { intros i j Hij. destruct (queue_run_moves op now now' q i j Hid Hf Hij) as (j' & Hj' & Hm).
    exists j'. split; [done|]. apply (job_moves_ok _ _ _ _ _ Hm), (Hj i j Hij). }
  assert (forall i j j', _jobs q !! i = Some j -> _jobs (queue_run op now now' q) !! i = Some j' ->
    job_ok j' /\ same_job j j') as Hmv'.
  { intros i j j' H1 H2. destruct (Hmv i j H1) as (j2 & H3 & ?). by simplify_eq. }
  assert (_idempotency (queue_run op now now' q) = _idempotency q ->
    (forall i j', _jobs (queue_run op now now' q) !! i = Some j' -> is_Some (_jobs q !! i)) ->
    queue_ok (queue_run op now now' q)) as Hframe.
  { intros Hidx Hdom. split.
    - intros i j' H. destruct (Hdom i j' H) as [j H0].
      destruct (Hmv' i j j' H0 H) as (_ & -> & _). by apply Hid.
    - intros i j' H. destruct (Hdom i j' H) as [j H0].
      destruct (Hmv' i j j' H0 H) as (? & _ & -> & -> & _). rewrite Hidx. split; [done|].
      by apply (Hj i j H0).
    - intros k i. rewrite Hidx. intros Hk. destruct (Hx k i Hk) as (j & H0 & Hkk).
      destruct (Hmv i j H0) as (j' & H & _ & _ & E1 & E2 & _). exists j'.
      by rewrite E1, E2. }
  pose proof (queue_run_frame op now now' q Hid) as Hfr.
  destruct op as [kind payload key av mx hex| | | | | |]; try (destruct Hfr; by apply Hframe).
  simpl in *. destruct (enqueue_cases kind payload key av mx now hex q)
    as [->|(job & -> & Hnone & Hok & Hi & Hk & Hky & _)]; [by split|].
  rewrite <- Hi in Hf. simpl in *. split.
  - intros i j [[<- <-]|[_ H]]%lookup_insert_Some'; [done|by apply Hid].
  - intros i j [[<- <-]|[Hne H]]%lookup_insert_Some'; simpl.
    + split; [done|]. rewrite Hk, Hky, lookup_insert_eq. congruence.
    + destruct (Hj i j H) as [? Hix]. split; [done|]. rewrite lookup_insert_ne; [done|].
      intros Heq. congruence.
  - intros k i [[<- <-]|[Hne H]]%lookup_insert_Some'; simpl.
    + exists job. by rewrite lookup_insert_eq, Hk, Hky.
    + destruct (Hx k i H) as (j & Hij & ?). exists j. rewrite lookup_insert_ne; [done|].
      intros <-. congruence.
Qed.

Lemma queue_reachable_ok q : star queue_step empty_queue q -> queue_ok q.
Proof.
  intros Hs. eapply star_invariant; [apply queue_step_ok|exact Hs|].
  split; [intros i j|intros i j|intros k i]; simpl; by rewrite lookup_empty.
Qed.

(** ** Theorems *)

(** An operation at a time before [u] that is not a lease operation of [w] on job [i]. *)
Inductive foreign_step (i w : string) (u : time) : InMemoryJobQueue -> InMemoryJobQueue -> Prop :=
| foreign_step_intro q op now now' :
    now < u -> now <= now' -> fresh_for op q ->
    match lease_op op now' with Some (i', w', _) => ~ (i' = i /\ w' = w) | None => True end ->
    foreign_step i w u q (queue_run op now now' q).

Lemma foreign_is_step i w u q q' : foreign_step i w u q q' -> queue_step q q'.
Proof. intros H. destruct H. by constructor. Qed.

Lemma owner_unique now w w' j : owns now w j = true -> lease_owner j = Some w' -> w = w'.
Proof. unfold owns. intros H Ho. bool_props. congruence. Qed.

(** C4. Mutual exclusion of workers: while a lease lasts, nothing that anybody else does (claims
    that sweep expired leases, heartbeats, completions, failures, enqueues) changes the job. *)
Theorem lease_excludes_other_workers q q' i j w u :
  star queue_step empty_queue q ->
  _jobs q !! i = Some j -> job_state j = JobState.LEASED ->
  lease_owner j = Some w -> lease_until j = Some u ->
  star (foreign_step i w u) q q' -> _jobs q' !! i = Some j.
Proof.
  intros Hq Hj Hst How Hun Hs. apply queue_reachable_ok in Hq. revert Hq Hj.
  induction Hs as [q|q1 q2 q3 Hstep Hs IH]; intros Hok Hj; [done|]. apply IH.
  - eapply queue_step_ok; [by eapply foreign_is_step|done].
  - destruct Hstep as [q op now now' Hnow Hle Hf Hop].
    destruct (queue_run_moves op now now' q i j (ok_ids _ Hok) Hf Hj) as (j' & Hj' & Hm).
    assert (refresh now j = j) as Hr.
    { unfold refresh, lease_expired. rewrite Hun.
      replace (u <=? now) with false by (symmetry; apply Z.leb_gt; lia). by rewrite andb_false_r. }
    destruct Hm as [|w0 n _|w0 n _ Hn Hc|i' w' f Hl Hi Ho]; [done| | |].
    + by rewrite Hr in Hj'.
    + exfalso. rewrite Hr in Hc. unfold candidate in Hc. bool_props. congruence.
    + exfalso. rewrite Hl in Hop. apply Hop. split; [|by eapply owner_unique].
      rewrite <- Hi. by apply (ok_ids _ Hok).
Qed.

(** A settled job (succeeded, failed, dead-lettered or waiting for reconciliation) is never
    handed out or modified again, whatever operations follow. *)
Theorem settled_jobs_are_final q q' i j :
  star queue_step empty_queue q -> _jobs q !! i = Some j ->
  JobState.settled (job_state j) = true -> star queue_step q q' -> _jobs q' !! i = Some j.
Proof.
  intros Hq Hj Hst Hs. apply queue_reachable_ok in Hq. revert Hq Hj.
  induction Hs as [q|q1 q2 q3 Hstep Hs IH]; intros Hok Hj; [done|].
  apply IH; [by eapply queue_step_ok|]. destruct Hstep as [q op now now' Hle Hf].
  destruct (queue_run_moves op now now' q i j (ok_ids _ Hok) Hf Hj) as (j' & Hj' & Hm).
  assert (refresh now j = j) as Hr.
  { unfold refresh, lease_expired. by destruct (job_state j). }
  destruct Hm as [|w n _|w n _ Hn Hc|i' w f Hl Hi Ho]; [done| | |].
  - by rewrite Hr in Hj'.
  - exfalso. rewrite Hr in Hc. unfold candidate in Hc. bool_props. by rewrite H in Hst.
  - exfalso. apply owns_leased in Ho. by rewrite Ho in Hst.
Qed.

(** In every reachable queue a job is stored under its identifier, holds an owner and a
    deadline exactly when it is leased, and no two jobs share a kind and idempotency key. *)
Theorem queue_invariant q :
  star queue_step empty_queue q ->
  (forall i j, _jobs q !! i = Some j -> job_id j = i /\ job_ok j) /\
  (forall i1 i2 j1 j2, _jobs q !! i1 = Some j1 -> _jobs q !! i2 = Some j2 ->
     job_kind j1 = job_kind j2 -> job_key j1 = job_key j2 -> i1 = i2).
Proof.
  intros [Hid Hj Hx]%queue_reachable_ok. split.
  - intros i j H. split; [by apply Hid|]. by apply (Hj i j H).
  - intros i1 i2 j1 j2 H1 H2 Hk Hky. destruct (Hj _ _ H1) as [_ E1], (Hj _ _ H2) as [_ E2]. congruence.
Qed.

(** ** Which job a claim serves *)

Lemma claim_before_true a b : claim_before a b = true <->
  available_at a < available_at b \/
  (available_at a = available_at b /\
    (job_created_at a < job_created_at b \/
     (job_created_at a = job_created_at b /\ String.leb (job_id b) (job_id a) = false))).
Proof.
  unfold claim_before. rewrite str_ltb_leb.
  destruct (Z.compare_spec (available_at a) (available_at b));
    destruct (Z.compare_spec (job_created_at a) (job_created_at b));
    rewrite ?negb_true_iff; split; intros; naive_solver lia.
Qed.

Lemma claim_before_false a b : claim_before a b = false <->
  available_at b < available_at a \/
  (available_at a = available_at b /\
    (job_created_at b < job_created_at a \/
     (job_created_at a = job_created_at b /\ String.leb (job_id b) (job_id a) = true))).
Proof.
  rewrite <- not_true_iff_false, claim_before_true.
  destruct (String.leb (job_id b) (job_id a)); split; intros; destruct_or?; destruct_and?; try lia.
Qed.

(** What is not before [b] is not before anything that is before [b]. *)
Lemma claim_before_trans a b c :
  claim_before a b = false -> claim_before c b = true -> claim_before a c = false.
Proof.
  rewrite !claim_before_false, claim_before_true. intros H1 H2.
  assert (String.leb (job_id b) (job_id a) = true -> String.leb (job_id b) (job_id c) = false ->
    String.leb (job_id c) (job_id a) = true) as Hs.
  { intros Ha Hc. destruct (String.leb_total (job_id b) (job_id c)); [congruence|].
    by eapply str_leb_trans. }
  intuition lia.
Qed.

Lemma claim_before_irrefl a : claim_before a a = false.
Proof.
  apply claim_before_false. right. split; [done|]. right. split; [done|].
  by destruct (String.leb_total (job_id a) (job_id a)).
Qed.

Lemma min_job_least l m : min_job l = Some m -> forall x, x ∈ l -> claim_before x m = false.
Proof.
  destruct l as [|j l]; simpl; [done|]. intros [= <-].
  assert (forall l j y, claim_before y j = false -> claim_before y
    (fold_left (fun best x => if claim_before x best then x else best) l j) = false) as Hkeep.
  { clear. induction l as [|x l IH]; intros j y Hy; simpl; [done|]. apply IH.
    destruct (claim_before x j) eqn:Hx; [|done]. by eapply claim_before_trans. }
  revert j; induction l as [|y l IH]; intros j x Hx; simpl.
  - apply list_elem_of_singleton in Hx as ->. apply claim_before_irrefl.
  - apply elem_of_cons in Hx as [->|Hx]; [|apply elem_of_cons in Hx as [->|Hx]].
    + apply Hkeep. destruct (claim_before y j) eqn:Hy; [|apply claim_before_irrefl].
      apply (claim_before_trans j j y); [apply claim_before_irrefl|done].
    + apply Hkeep. destruct (claim_before y j) eqn:Hy; [apply claim_before_irrefl|done].
    + apply IH. by right.
Qed.

Lemma in_candidates now q i j : _jobs q !! i = Some j -> candidate now j = true ->
  j ∈ candidates now q.
Proof.
  intros Hi Hc. unfold candidates. apply list_elem_of_In, List.filter_In. split; [|done].
  apply list_elem_of_In, list_elem_of_fmap. exists (i, j). split; [done|].
  by apply elem_of_map_to_list.
Qed.

(** A claim serves the due job that became available first (ties by creation and by
    identifier), leases it to the caller and counts the attempt; it comes back empty only when
    no job is due, where a job with a lapsed lease is due. *)
Theorem claim_serves_the_oldest_due_job q w n now :
  queue_ok q -> 1 <= n ->
  match claim w n now q with
  | (q', Ok (Some job)) =>
      _jobs q' !! job_id job = Some job /\ owns now w job = true /\
      lease_until job = Some (now + seconds n) /\
      exists j, _jobs q !! job_id job = Some j /\ attempts job = attempts j + 1 /\
        candidate now (refresh now j) = true /\
        forall i' j', _jobs q !! i' = Some j' -> candidate now (refresh now j') = true ->
          claim_before (refresh now j') (refresh now j) = false
  | (q', Ok None) => forall i j, _jobs q !! i = Some j -> candidate now (refresh now j) = false
  | (_, Err _) => False
  end.
Proof.
  intros [Hid _ _] Hn. unfold claim. destruct (n <? 1) eqn:Hn'; bool_props; [lia|].
  unfold mbind, M_bind, get_state, put_state, mret, M_ret. cbn [negb].
  set (q1 := q {{ _jobs := refresh now <$> _jobs q }}).
  assert (forall i j, _jobs q !! i = Some j -> candidate now (refresh now j) = true ->
    refresh now j ∈ candidates now q1) as Hin.
  { intros i j Hj. apply (in_candidates now q1 i). unfold q1. simpl. by rewrite lookup_fmap, Hj. }
  destruct (min_job (candidates now q1)) as [m|] eqn:Hm.
  - destruct (candidates_spec now q1 m (min_job_in _ _ Hm)) as [Hc [i Hi]].
    unfold q1 in Hi. simpl in Hi. rewrite lookup_fmap in Hi.
    destruct (_jobs q !! i) as [j|] eqn:Hj; simplify_eq/=.
    rewrite refresh_id, (Hid _ _ Hj), lookup_insert_eq. split_and!; [done| |done|].
    + unfold owns. simpl. rewrite !bool_decide_eq_true_2 by done. simpl.
      apply Z.ltb_lt. unfold seconds. lia.
    + exists j. split_and!; [done| |done|].
      * unfold refresh. by destruct (lease_expired now j).
      * intros i' j' Hj' Hc'. eapply min_job_least; [done|]. by eapply Hin.
  - intros i j Hj. destruct (candidate now (refresh now j)) eqn:Hc; [|done].
    specialize (Hin i j Hj Hc). destruct (candidates now q1); [|done].
    by apply elem_of_nil in Hin.
Qed.

(** ** Retries are bounded *)

(** Whether job [i] is in state [st]. *)
Definition in_state (i : string) (st : JobState.t) (q : InMemoryJobQueue) : bool :=
  match _jobs q !! i with Some j => bool_decide (job_state j = st) | None => false end.

(** What an observer of the queue counts: a reported failure of job [i] before which the job was
    leased and after which it is ready again. *)
Definition requeues (i : string) (op : queue_op) (q q' : InMemoryJobQueue) : Z :=
  match op with
  | QFail i' _ _ _ _ =>
      if bool_decide (i' = i) && in_state i JobState.LEASED q && in_state i JobState.READY q'
      then 1 else 0
  | _ => 0
  end.

(** Runs of the queue with the number of times job [i] was put back after a failure. *)
Inductive requeued (i : string) : Z -> InMemoryJobQueue -> Prop :=
| requeued_start : requeued i 0 empty_queue
| requeued_step n q op now now' : requeued i n q -> now <= now' -> fresh_for op q ->
    requeued i (n + requeues i op q (queue_run op now now' q)) (queue_run op now now' q).

Lemma requeued_reachable i n q : requeued i n q -> star queue_step empty_queue q.
Proof.
  induction 1 as [|n q op now now' _ IH Hle Hf]; [constructor|].
  eapply star_trans; [exact IH|]. apply star_one. by constructor.
Qed.

(** Each requeue uses up one attempt, and an attempt only starts with a lease. *)
Definition retry_inv (n : Z) (j : Job) : Prop :=
  n <= attempts j /\ (job_state j = JobState.LEASED -> n < attempts j) /\
  n <= max_attempts j - 1.

Lemma refresh_retry_inv n now j : retry_inv n j -> retry_inv n (refresh now j).
Proof.
  unfold retry_inv, refresh. destruct (lease_expired now j); simpl; naive_solver lia.
Qed.

Lemma retry_inv_moves op now now' n j j' :
  job_moves op now now' j j' -> retry_inv n j -> retry_inv n j'.
Proof.
  intros Hm Hinv. destruct Hm as [|w m _|w m _ Hm Hc|i' w f Hop Hi Ho]; [done| | |].
  - by apply refresh_retry_inv.
  - apply (refresh_retry_inv n now) in Hinv. unfold retry_inv in *. simpl. intuition lia.
  - unfold retry_inv in *. destruct Hinv as (? & ? & ?).
    destruct op; simplify_eq/=; try (split_and!; done).
    unfold fail_update. destruct (retryable && _), retryable; simpl; split_and!; done.
Qed.

Lemma in_state_true i st q : in_state i st q = true ->
  exists j, _jobs q !! i = Some j /\ job_state j = st.
Proof. unfold in_state. destruct (_jobs q !! i) as [j|]; [|done]. intros H. bool_props. eauto. Qed.

(** What puts a leased job back on a failure: there was an attempt left. *)
Lemma requeues_cases i op now now' q : ids_ok q ->
  requeues i op q (queue_run op now now' q) = 0 \/
  (requeues i op q (queue_run op now now' q) = 1 /\ exists j j', _jobs q !! i = Some j /\
     job_state j = JobState.LEASED /\ attempts j < max_attempts j /\
     _jobs (queue_run op now now' q) !! i = Some j' /\ job_state j' = JobState.READY /\
     attempts j' = attempts j /\ max_attempts j' = max_attempts j).
Proof.
  intros Hid. unfold requeues. destruct op as [| | | | |i' w c b r|]; try by left.
  destruct (_ && _ && _) eqn:Hc; [|by left]. right. split; [done|]. bool_props. subst i'.
  apply in_state_true in H1 as (j & Hj & Hst). apply in_state_true in H0 as (j' & Hj' & Hst').
  exists j, j'. cbn [queue_run] in Hj' |- *. unfold fail_job in *.
  destruct (with_lease_cases i w now (fail_update c b r now') q) as [E|(j0 & Hj0 & _ & E)];
    rewrite E in Hj' |- *; [congruence|].
  simplify_eq. pose proof (Hid _ _ Hj) as Hi. unfold store_job, fail_update in *.
  destruct (b && (attempts j <? max_attempts j)) eqn:Hb; simpl in *;
    rewrite Hi, lookup_insert_eq in Hj' |- *; simplify_eq/=.
  - bool_props. split_and!; done.
  - by destruct b.
Qed.

Lemma requeued_inv i n q : requeued i n q ->
  match _jobs q !! i with Some j => retry_inv n j | None => n = 0 end.
Proof.
  intros Hr. induction Hr as [|n q op now now' Hr IH Hle Hf]; [by simpl; rewrite lookup_empty|].
  pose proof (queue_reachable_ok _ (requeued_reachable _ _ _ Hr)) as [Hid Hok Hx].
  destruct (requeues_cases i op now now' q Hid)
    as [->|(-> & j & j' & Hj & Hst & Hlt & -> & Hst' & Ha & Hm)].
  - rewrite Z.add_0_r. destruct (_jobs q !! i) as [j|] eqn:Hj.
    + destruct (queue_run_moves op now now' q i j Hid Hf Hj) as (j' & -> & Hmv).
      by eapply retry_inv_moves.
    + subst n. destruct (_jobs (queue_run op now now' q) !! i) as [j'|] eqn:Hj'; [|done].
      pose proof (queue_run_frame op now now' q Hid) as Hfr.
      destruct op as [kind payload key av mx hex| | | | | |];
        try (destruct Hfr as [_ Hdom]; apply Hdom in Hj' as [? ?]; congruence).
      simpl in Hj'. destruct (enqueue_cases kind payload key av mx now hex q)
        as [E|(job & E & _ & [_ _ ? ? ?] & _)]; rewrite E in Hj'; [congruence|].
      simpl in Hj'. apply lookup_insert_Some' in Hj' as [[_ <-]|[_ ?]]; [|congruence].
      split_and!; [done| |lia]. intros Hl. specialize (ok_leased0 Hl). lia.
  - rewrite Hj in IH. destruct IH as (? & Hl & ?). specialize (Hl Hst).
    unfold retry_inv. rewrite Ha, Hm, Hst'. split_and!; [lia|discriminate|lia].
Qed.

(** C8. Retries are bounded: however claims, crashes and failures interleave, the times a failure
    report finds a job leased and leaves it ready again are at most [max_attempts - 1]. *)
Theorem retries_are_bounded i n q j :
  requeued i n q -> _jobs q !! i = Some j -> n <= max_attempts j - 1.
Proof. intros Hr Hj. pose proof (requeued_inv i n q Hr) as H. rewrite Hj in H. apply H. Qed.

(** ** Concrete runs *)

Definition fresh_b (op : queue_op) (q : InMemoryJobQueue) : bool :=
  match op with
  | QEnqueue _ _ _ _ _ hex => bool_decide (_jobs q !! ("job_" ++ hex) = None)
  | _ => true
  end.

(** A schedule of operations, each with the time at which it runs. *)
Fixpoint queue_exec (l : list (queue_op * time)) (q : InMemoryJobQueue)
  : option InMemoryJobQueue :=
  match l with
  | [] => Some q
  | (op, now) :: l => if fresh_b op q then queue_exec l (queue_run op now now q) else None
  end.

Lemma fresh_b_true op q : fresh_b op q = true -> fresh_for op q.
Proof. destruct op; simpl; intros; by bool_props. Qed.

Lemma queue_exec_star l q q' : queue_exec l q = Some q' -> star queue_step q q'.
Proof.
  revert q; induction l as [|[op now] l IH]; intros q; simpl; [intros [= <-]; constructor|].
  destruct (fresh_b op q) eqn:Hf; [|done]. intros H. eapply star_step; [|by apply IH].
  constructor; [done|by apply fresh_b_true].
Qed.

Module QueueScenario.
Definition enqueue_mail : queue_op := QEnqueue "mail.sync" [("box", JStr "inbox")] "k1" None 2 "a".

(** One job, claimed by [w1] at second 0 for 30 seconds. *)
Definition claimed : InMemoryJobQueue :=
  queue_run (QClaim "w1" 30) 0 0 (queue_run enqueue_mail 0 0 empty_queue).

Definition the_job : Job :=
  leased "w1" 30 0 {| job_id := "job_a"; job_kind := "mail.sync";
    job_payload := [("box", JStr "inbox")]; job_key := "k1"; job_created_at := 0;
    available_at := 0; job_state := JobState.READY; attempts := 0; max_attempts := 2;
    lease_owner := None; lease_until := None; job_result := None; error_code := None;
    job_version := 0 |}.

(** [w1] fails twice with a retryable error. *)
Definition failing : list (queue_op * time) :=
  [(enqueue_mail, 0); (QClaim "w1" 30, 0); (QFail "job_a" "w1" "timeout" true None, seconds 1);
   (QClaim "w1" 30, seconds 2); (QFail "job_a" "w1" "timeout" true None, seconds 3)].
End QueueScenario.

Lemma lease_excludes_other_workers_witness :
  _jobs (queue_run (QComplete "job_a" "w2" JNull) (seconds 20) (seconds 20)
          (queue_run (QClaim "w2" 30) (seconds 10) (seconds 10) QueueScenario.claimed))
    !! "job_a" = Some QueueScenario.the_job.
Proof.
  apply (lease_excludes_other_workers QueueScenario.claimed _ "job_a" QueueScenario.the_job "w1"
           (seconds 30)); try (vm_compute; reflexivity).
  - apply (queue_exec_star [(QueueScenario.enqueue_mail, 0); (QClaim "w1" 30, 0)]). reflexivity.
  - eapply star_step; [|eapply star_step; [|apply star_refl]]; constructor; simpl;
      try done; unfold seconds; try lia. by intros [_ ?].
Defined.

Lemma settled_jobs_are_final_witness :
  exists q q' j, queue_exec QueueScenario.failing empty_queue = Some q /\
    queue_exec [(QClaim "w2" 30, seconds 100)] q = Some q' /\
    _jobs q !! "job_a" = Some j /\ job_state j = JobState.DEAD_LETTER /\
    _jobs q' !! "job_a" = Some j.
Proof.
  do 3 eexists. split; [vm_compute; reflexivity|]. split; [vm_compute; reflexivity|].
  split; [vm_compute; reflexivity|]. split; [vm_compute; reflexivity|].
  eapply settled_jobs_are_final.
  - apply (queue_exec_star QueueScenario.failing). vm_compute; reflexivity.
  - vm_compute; reflexivity.
  - vm_compute; reflexivity.
  - apply (queue_exec_star [(QClaim "w2" 30, seconds 100)]). vm_compute; reflexivity.
Defined.

Lemma queue_invariant_witness :
  job_id QueueScenario.the_job = "job_a" /\ job_ok QueueScenario.the_job.
Proof.
  destruct (queue_invariant QueueScenario.claimed) as [H _].
  - apply (queue_exec_star [(QueueScenario.enqueue_mail, 0); (QClaim "w1" 30, 0)]). reflexivity.
  - apply H. vm_compute. reflexivity.
Defined.

Lemma claim_serves_the_oldest_due_job_witness :
  exists q job, claim "w1" 30 0 (queue_run QueueScenario.enqueue_mail 0 0 empty_queue)
    = (q, Ok (Some job)) /\ _jobs q !! job_id job = Some job /\ owns 0 "w1" job = true.
Proof.
  set (q0 := queue_run QueueScenario.enqueue_mail 0 0 empty_queue).
  assert (queue_ok q0) as Hok.
  { apply queue_reachable_ok, (queue_exec_star [(QueueScenario.enqueue_mail, 0)]). reflexivity. }
  pose proof (claim_serves_the_oldest_due_job q0 "w1" 30 0 Hok ltac:(lia)) as H.
  destruct (claim "w1" 30 0 q0) as [q [[job|]|e]] eqn:E;
    [|vm_compute in E; discriminate E|destruct H].
  exists q, job. split; [reflexivity|]. split; apply H.
Defined.

(** The count along a schedule. *)
Fixpoint requeue_count (i : string) (l : list (queue_op * time)) (q : InMemoryJobQueue) : Z :=
  match l with
  | [] => 0
  | (op, now) :: l =>
      let q' := queue_run op now now q in requeues i op q q' + requeue_count i l q'
  end.

Lemma requeue_exec i l n q q' : requeued i n q -> queue_exec l q = Some q' ->
  requeued i (n + requeue_count i l q) q'.
Proof.
  revert n q; induction l as [|[op now] l IH]; intros n q Hr; cbn [queue_exec requeue_count].
  - intros [= <-]. by rewrite Z.add_0_r.
  - destruct (fresh_b op q) eqn:Hf; [|discriminate]. intros E. cbv zeta. rewrite Z.add_assoc.
    apply IH; [|exact E]. apply requeued_step; [exact Hr|apply Z.le_refl|by apply fresh_b_true].
Qed.

Lemma retries_are_bounded_witness :
  exists n q j, requeued "job_a" n q /\ _jobs q !! "job_a" = Some j /\
    job_state j = JobState.DEAD_LETTER /\ n = 1 /\ n <= max_attempts j - 1.
Proof.
  assert (exists q j, queue_exec QueueScenario.failing empty_queue = Some q /\
    _jobs q !! "job_a" = Some j /\ job_state j = JobState.DEAD_LETTER) as (q & j & E & Hj & Hs).
  { do 2 eexists. split_and!; vm_compute; reflexivity. }
  pose proof (requeue_exec "job_a" _ 0 _ _ (requeued_start _) E) as H.
  exists (0 + requeue_count "job_a" QueueScenario.failing empty_queue), q, j. split; [exact H|]. split; [exact Hj|]. split; [exact Hs|].
  split; [vm_compute; reflexivity|]. exact (retries_are_bounded "job_a" _ _ _ H Hj).
Defined.

(** A worker that keeps dying is not dead-lettered: [claim] takes a lapsed lease back and counts
    the attempt, but only [fail] compares the count with [max_attempts]. *)
Definition crashing : list (queue_op * time) :=
  [(QueueScenario.enqueue_mail, 0); (QClaim "w1" 30, 0); (QClaim "w1" 30, seconds 31);
   (QClaim "w1" 30, seconds 62)].

Lemma crashed_jobs_exceed_their_attempts :
  exists q j, queue_exec crashing empty_queue = Some q /\ _jobs q !! "job_a" = Some j /\
    job_state j = JobState.LEASED /\ max_attempts j < attempts j.
Proof. do 2 eexists. split_and!; vm_compute; reflexivity. Qed.
