(* ===== verification/Tasks.v ===== *)
(** * Tasks: the task repository, its event stream and the task service

    Models [infrastructure/memory/tasks.py], [infrastructure/memory/audit.py] and
    [core/tasks/service.py] with the in-memory adapters (no unit-of-work coordinator).  A
    repository or stream method holds its lock and does not await inside, so it is one step;
    a service method is a [prog] over those steps. *)

From S2P Require Import Prelude Text Json Schemas Domain JobQueue Pool.
From stdpp Require Import sorting.
Local Open Scope string_scope.
Local Open Scope Z_scope.

Record TaskMessage := {
  msg_id : string;
  msg_task_id : string;
  msg_actor : string;
  msg_content : string;
  msg_created_at : time
}.

Record TaskEvent := {
  te_sequence : Z;
  te_type : string;
  te_task_id : string;
  te_data : list (string * json);
  te_occurred_at : time
}.

Record AuditEvent := {
  ae_type : string;
  ae_actor : string;
  ae_resource_type : string;
  ae_resource_id : string;
  ae_data : json;
  ae_occurred_at : time
}.
#[export] Instance AuditEvent_eta : Eta AuditEvent := fun r =>
  Build_AuditEvent (ae_type r) (ae_actor r) (ae_resource_type r) (ae_resource_id r) (ae_data r)
    (ae_occurred_at r).

(** ** [InMemoryTaskRepository] *)

Record InMemoryTaskRepository := {
  _tasks : gmap string Task;
  _messages : gmap string (list TaskMessage);
  _task_keys : gmap string (string * string);               (* [_idempotency] *)
  _message_commands : gmap string (string * string * string);
  _cancel_commands : gmap string string
}.
#[export] Instance InMemoryTaskRepository_eta : Eta InMemoryTaskRepository := fun r =>
  Build_InMemoryTaskRepository (_tasks r) (_messages r) (_task_keys r) (_message_commands r)
    (_cancel_commands r).

Definition empty_tasks : InMemoryTaskRepository :=
  {| _tasks := ∅; _messages := ∅; _task_keys := ∅; _message_commands := ∅;
     _cancel_commands := ∅ |}.

(** [self._tasks[i]] *)
Definition task_item (s : InMemoryTaskRepository) (i : string) : M InMemoryTaskRepository Task :=
  match _tasks s !! i with Some t => mret t | None => raise PyKeyError i end.

Definition repo_create_task (task : Task) (idempotency_key : string)
  : M InMemoryTaskRepository Task :=
  s ← get_state;
  match _task_keys s !! idempotency_key with
  | Some (existing_id, original_objective) =>
      if negb (bool_decide (original_objective = task_objective task)) then
        raise ConcurrentModificationError
          "idempotency key was reused with a different task objective"
      else task_item s existing_id
  | None =>
      match _tasks s !! task_id task with
      | Some _ => raise AlreadyExistsError ("task already exists: " ++ task_id task)
      | None =>
          _ ← put_state (s {{ _tasks := <[task_id task := task]> (_tasks s);
                              _messages := <[task_id task := []]> (_messages s);
                              _task_keys := <[idempotency_key :=
                                (task_id task, task_objective task)]> (_task_keys s) }});
          mret task
      end
  end.

Definition not_found {A} (i : string) : M InMemoryTaskRepository A :=
  raise NotFoundError ("task not found: " ++ i).

Definition repo_get_task (i : string) : M InMemoryTaskRepository Task :=
  s ← get_state;
  match _tasks s !! i with Some t => mret t | None => not_found i end.

(** Newest first: [(created_at, id)], descending. *)
Definition task_before (a b : Task) : bool :=
  match task_created_at a ?= task_created_at b with
  | Lt => true
  | Gt => false
  | Eq => String.ltb (task_id a) (task_id b)
  end.

Definition newest_first (a b : Task) : Prop := task_before a b = false.
#[global] Instance newest_first_dec : RelDecision newest_first.
Proof. intros a b. unfold newest_first. apply _. Defined.

Definition repo_list_recent (limit : Z) (before : option string)
  : M InMemoryTaskRepository (list Task) :=
  s ← get_state;
  let tasks := merge_sort newest_first ((map_to_list (_tasks s)).*2) in
  match before with
  | None => mret (take (Z.to_nat limit) tasks)
  | Some b =>
      match _tasks s !! b with
      | None => not_found b
      | Some cursor =>
          mret (take (Z.to_nat limit) (List.filter (fun t => task_before t cursor) tasks))
      end
  end.

Definition repo_save_task (task : Task) (expected_version : Z) : M InMemoryTaskRepository Task :=
  s ← get_state;
  match _tasks s !! task_id task with
  | None => not_found (task_id task)
  | Some current =>
      if negb (task_version current =? expected_version) || (task_version task <=? expected_version)
      then raise ConcurrentModificationError
             ("task " ++ task_id task ++ " expected version " ++ str_of_Z expected_version
              ++ ", found " ++ str_of_Z (task_version current))
      else _ ← put_state (s {{ _tasks := <[task_id task := task]> (_tasks s) }}); mret task
  end.

Definition find_message (i : string) (l : list TaskMessage) : option TaskMessage :=
  List.find (fun m => bool_decide (msg_id m = i)) l.

(** [replace(current, ...)] runs [Task.__post_init__] on the copy. *)
Definition remake_task (t : Task) : result Task :=
  make_task (task_id t) (task_objective t) (task_state t) (task_version t) (task_created_at t).

Definition repo_add_message (message : TaskMessage) (expected_version : Z)
    (idempotency_key : string) : M InMemoryTaskRepository (Task * TaskMessage) :=
  s ← get_state;
  match _message_commands s !! idempotency_key with
  | Some (replay_task, replay_message, original_content) =>
      if negb (bool_decide (replay_task = msg_task_id message))
         || negb (bool_decide (original_content = msg_content message))
      then raise ConcurrentModificationError "idempotency key was reused with a different message"
      else
        match _messages s !! replay_task with
        | None => raise PyKeyError replay_task
        | Some l =>
            match find_message replay_message l with
            | None => raise PyRuntimeError "StopIteration"
            | Some existing => t ← task_item s replay_task; mret (t, existing)
            end
        end
  | None =>
      match _tasks s !! msg_task_id message with
      | None => not_found (msg_task_id message)
      | Some current =>
          if negb (task_version current =? expected_version)
          then raise ConcurrentModificationError "task version changed"
          else
            updated ← lift (remake_task (current {{ task_version := task_version current + 1 }}));
            match _messages s !! msg_task_id message with
            | None => raise PyKeyError (msg_task_id message)
            | Some l =>
                _ ← put_state (s {{
                      _messages := <[msg_task_id message := (l ++ [message])%list]> (_messages s);
                      _tasks := <[msg_task_id message := updated]> (_tasks s);
                      _message_commands := <[idempotency_key :=
                        (msg_task_id message, msg_id message, msg_content message)]>
                        (_message_commands s) }});
                mret (updated, message)
            end
      end
  end.

Definition repo_cancel_task (i : string) (expected_version : Z) (idempotency_key : string)
  : M InMemoryTaskRepository Task :=
  s ← get_state;
  match _cancel_commands s !! idempotency_key with
  | Some replay_id =>
      if negb (bool_decide (replay_id = i)) then
        raise ConcurrentModificationError
          "idempotency key was reused for a different task cancellation"
      else task_item s replay_id
  | None =>
      match _tasks s !! i with
      | None => not_found i
      | Some current =>
          if negb (task_version current =? expected_version)
          then raise ConcurrentModificationError "task version changed"
          else if TaskState.terminal (task_state current)
          then raise ValidationError "terminal task cannot be cancelled"
          else
            updated ← lift (remake_task (current {{ task_state := TaskState.CANCELLED;
                                                   task_version := task_version current + 1 }}));
            _ ← put_state (s {{ _tasks := <[i := updated]> (_tasks s);
                                _cancel_commands := <[idempotency_key := i]>
                                                      (_cancel_commands s) }});
            mret updated
      end
  end.

Definition repo_messages (i : string) : M InMemoryTaskRepository (list TaskMessage) :=
  s ← get_state;
  match _tasks s !! i with
  | None => not_found i
  | Some _ => match _messages s !! i with Some l => mret l | None => raise PyKeyError i end
  end.

(** ** [InMemoryEventStream] *)

Definition publish_event (event_type task_id : string) (data : list (string * json)) (now : time)
  : M (list TaskEvent) TaskEvent :=
  events ← get_state;
  let event := {| te_sequence := Z.of_nat (length events) + 1; te_type := event_type;
                  te_task_id := task_id; te_data := data; te_occurred_at := now |} in
  _ ← put_state (events ++ [event])%list;
  mret event.

Definition events_after (sequence : Z) : M (list TaskEvent) (list TaskEvent) :=
  events ← get_state;
  mret (List.filter (fun e => sequence <? te_sequence e) events).

(** ** [InMemoryAuditWriter] *)

Definition audit_append (event : AuditEvent) : M (list AuditEvent) unit :=
  events ← get_state;
  put_state (events ++ [event {{ ae_data := redact (ae_data event) }}])%list.

(** ** The service *)

Inductive taskE : Type -> Type :=
| TCreate (task : Task) (key : string) : taskE Task
| TGet (i : string) : taskE Task
| TListRecent (limit : Z) (before : option string) : taskE (list Task)
| TSave (task : Task) (expected_version : Z) : taskE Task
| TAddMessage (m : TaskMessage) (expected_version : Z) (key : string) : taskE (Task * TaskMessage)
| TCancel (i : string) (expected_version : Z) (key : string) : taskE Task
| TMessages (i : string) : taskE (list TaskMessage)
| TEnqueue (kind : string) (payload : list (string * json)) (key : string) : taskE Job
| TPublish (event_type i : string) (data : list (string * json)) : taskE TaskEvent
| TAudit (event : AuditEvent) : taskE unit
| TEnv {X} (op : envE X) : taskE X.

#[global] Instance SubE_task_env : SubE envE taskE := fun X op => TEnv op.

Definition audit_event_now (event_type actor resource_type resource_id : string) (data : json)
  : prog taskE unit :=
  now ← call Now;
  call (TAudit {| ae_type := event_type; ae_actor := actor; ae_resource_type := resource_type;
                  ae_resource_id := resource_id; ae_data := data; ae_occurred_at := now |}).

Definition state_data (s : TaskState.t) : list (string * json) :=
  [("state", JStr (TaskState.value s))].

Definition create_task (objective idempotency_key actor : string) : prog taskE Task :=
  if blank objective then raise_prog ValidationError "objective is required"
  else if blank idempotency_key then raise_prog ValidationError "Idempotency-Key is required"
  else
    hex ← call NewUuid;
    now ← call Now;
    candidate ← of_result (make_task ("task_" ++ hex) (strip objective) TaskState.CREATED 0 now);
    task ← call (TCreate candidate idempotency_key);
    if negb (bool_decide (task_state task = TaskState.CREATED)) then Ret task
    else
      _ ← call (TEnqueue "agent.start" [("task_id", JStr (task_id task))]
                  ("task-start:" ++ task_id task));
      queued ← of_result (make_task (task_id task) (task_objective task) TaskState.QUEUED
                            (task_version task + 1) (task_created_at task));
      saved ← call (TSave queued (task_version task));
      _ ← call (TPublish "task.queued" (task_id saved) (state_data (task_state saved)));
      _ ← audit_event_now "task.created" actor "task" (task_id saved)
            (JObj (state_data (task_state saved)));
      Ret saved.

Definition list_recent (limit : Z) (before : option string) : prog taskE (list Task) :=
  if negb ((1 <=? limit) && (limit <=? 101))
  then raise_prog ValidationError "task page size must be between 1 and 101"
  else call (TListRecent limit before).

Definition add_message (i content : string) (expected_version : Z) (actor idempotency_key : string)
  : prog taskE (Task * TaskMessage) :=
  if blank content then raise_prog ValidationError "message content is required"
  else
    hex ← call NewUuid;
    now ← call Now;
    res ← call (TAddMessage {| msg_id := "msg_" ++ hex; msg_task_id := i; msg_actor := actor;
                  msg_content := strip content; msg_created_at := now |}
                  expected_version idempotency_key);
    _ ← call (TPublish "task.message_added" (task_id res.1)
                [("message_id", JStr (msg_id res.2))]);
    Ret res.

Definition project (i : string) (state : TaskState.t) : prog taskE Task :=
  task ← call (TGet i);
  if TaskState.terminal (task_state task) then Ret task
  else if bool_decide (task_state task = state) then Ret task
  else
    next ← of_result (make_task (task_id task) (task_objective task) state
                        (task_version task + 1) (task_created_at task));
    saved ← call (TSave next (task_version task));
    _ ← call (TPublish "task.state_changed" i (state_data state));
    Ret saved.

Definition assistant_message (i content key : string) : prog taskE unit :=
  task ← call (TGet i);
  _ ← add_message i content (task_version task) "assistant" key;
  Ret tt.

Definition cancel_task (i : string) (expected_version : Z) (actor idempotency_key : string)
  : prog taskE Task :=
  saved ← call (TCancel i expected_version idempotency_key);
  _ ← call (TPublish "task.cancelled" (task_id saved) (state_data (task_state saved)));
  _ ← audit_event_now "task.cancelled" actor "task" (task_id saved) (JObj []);
  Ret saved.

(** ** The shared state and its operations *)

Record task_sys := {
  ts_repo : InMemoryTaskRepository;
  ts_queue : InMemoryJobQueue;
  ts_events : list TaskEvent;
  ts_audit : list AuditEvent
}.
#[export] Instance task_sys_eta : Eta task_sys := fun r =>
  Build_task_sys (ts_repo r) (ts_queue r) (ts_events r) (ts_audit r).

(** A repository method run on the shared state. *)
Definition on_repo {X} (m : M InMemoryTaskRepository X) (s s' : task_sys) (r : result X) : Prop :=
  s' = s {{ ts_repo := (m (ts_repo s)).1 }} /\ r = (m (ts_repo s)).2.

Definition task_op_step (X : Type) (op : taskE X) (s s' : task_sys) : result X -> Prop :=
  match op in taskE Y return result Y -> Prop with
  | TCreate t k => on_repo (repo_create_task t k) s s'
  | TGet i => on_repo (repo_get_task i) s s'
  | TListRecent n b => on_repo (repo_list_recent n b) s s'
  | TSave t v => on_repo (repo_save_task t v) s s'
  | TAddMessage m v k => on_repo (repo_add_message m v k) s s'
  | TCancel i v k => on_repo (repo_cancel_task i v k) s s'
  | TMessages i => on_repo (repo_messages i) s s'
  | TEnqueue kind payload key => fun r => exists now hex,
      s' = s {{ ts_queue := (enqueue kind payload key None 5 now hex (ts_queue s)).1 }} /\
      r = (enqueue kind payload key None 5 now hex (ts_queue s)).2
  | TPublish ty i d => fun r => exists now,
      s' = s {{ ts_events := (publish_event ty i d now (ts_events s)).1 }} /\
      r = (publish_event ty i d now (ts_events s)).2
  | TAudit e => fun r =>
      s' = s {{ ts_audit := (audit_append e (ts_audit s)).1 }} /\ r = Ok tt
  | TEnv _ => fun r => s' = s /\ is_ok r = true
  end.

(** The requests of the service's clients. *)
Inductive task_client : prog taskE unit -> Prop :=
| tc_create objective key actor : task_client (_ ← create_task objective key actor; Ret tt)
| tc_list limit before : task_client (_ ← list_recent limit before; Ret tt)
| tc_message i content v actor key : task_client (_ ← add_message i content v actor key; Ret tt)
| tc_project i state : task_client (_ ← project i state; Ret tt)
| tc_assistant i content key : task_client (assistant_message i content key)
| tc_cancel i v actor key : task_client (_ ← cancel_task i v actor key; Ret tt)
| tc_get i : task_client (_ ← call (TGet i); Ret tt)
| tc_messages i : task_client (_ ← call (TMessages i); Ret tt).

(** ** The discipline of the service *)

Definition same_task (t t' : Task) : Prop :=
  task_id t' = task_id t /\ task_objective t' = task_objective t /\
  task_created_at t' = task_created_at t.

(** [t'] is a later version of [t]: terminal states are kept. *)
Definition later_task (t t' : Task) : Prop :=
  same_task t t' /\ task_version t <= task_version t' /\
  (TaskState.terminal (task_state t) = true -> task_state t' = task_state t) /\
  (task_version t = task_version t' -> t' = t).

Definition task_ok (t : Task) : Prop := remake_task t = Ok t.

Definition task_allowed (X : Type) (kn : list Task) (op : taskE X) : Prop :=
  match op with
  | TCreate t _ => task_ok t
  | TSave t v => task_ok t /\ exists t0, t0 ∈ kn /\ same_task t0 t /\ task_version t0 = v /\
                   task_version t = v + 1 /\ TaskState.terminal (task_state t0) = false
  | _ => True
  end.

Definition task_sound (X : Type) (kn : list Task) (op : taskE X) : result X -> Prop :=
  match op in taskE Y return result Y -> Prop with
  | TGet i => fun r => forall t, r = Ok t -> task_id t = i
  | _ => fun _ => True
  end.

Definition task_learn (X : Type) (op : taskE X) : result X -> list Task :=
  match op in taskE Y return result Y -> list Task with
  | TCreate _ _ | TGet _ | TSave _ _ | TCancel _ _ _ =>
      fun r => match r with Ok t => [t] | Err _ => [] end
  | TAddMessage _ _ _ => fun r => match r with Ok tm => [tm.1] | Err _ => [] end
  | _ => fun _ => []
  end.

(** ** The invariant *)

Record repo_ok (s : InMemoryTaskRepository) (H : list Task) : Prop := {
  ro_history : forall t, t ∈ H -> exists cur, _tasks s !! task_id t = Some cur /\ later_task t cur;
  ro_current : forall i t, _tasks s !! i = Some t -> task_id t = i /\ task_ok t /\ t ∈ H;
  ro_keys : forall k i o, _task_keys s !! k = Some (i, o) ->
    exists t, _tasks s !! i = Some t /\ task_objective t = o;
  ro_messages : forall i t, _tasks s !! i = Some t -> is_Some (_messages s !! i);
  ro_commands : forall k i m c, _message_commands s !! k = Some (i, m, c) ->
    exists l msg, is_Some (_tasks s !! i) /\ _messages s !! i = Some l /\
      find_message m l = Some msg;
  ro_cancels : forall k i, _cancel_commands s !! k = Some i ->
    exists t, _tasks s !! i = Some t /\ task_state t = TaskState.CANCELLED
}.

Lemma later_task_refl t : later_task t t.
Proof. unfold later_task, same_task. split_and!; done || lia. Qed.

Lemma later_task_trans t1 t2 t3 : later_task t1 t2 -> later_task t2 t3 -> later_task t1 t3.
Proof.
  intros ((?&?&?)&?&Hs1&He1) ((?&?&?)&?&Hs2&He2). unfold later_task, same_task.
  split_and!; try congruence; try lia.
  - intros Ht. rewrite <- (Hs1 Ht) in *. apply Hs2. by rewrite (Hs1 Ht).
  - intros Hv. assert (task_version t2 = task_version t3) as E2 by lia.
    rewrite (He2 E2). apply He1. lia.
Qed.

Lemma task_ok_iff t : task_ok t <->
  task_id t <> "" /\ blank (task_objective t) = false /\ 0 <= task_version t.
Proof.
  unfold task_ok, remake_task, make_task, raise_if. split.
  - intros H. run_guards H. bool_props. done.
  - intros (Hi & Hb & Hv). rewrite bool_decide_eq_false_2, Hb by done. simpl.
    rewrite (proj2 (Z.ltb_ge _ _)) by lia. by destruct t.
Qed.

Lemma remake_ok t t' : remake_task t = Ok t' -> t' = t /\ task_ok t.
Proof.
  intros H. assert (t' = t) as ->; [|done].
  unfold remake_task, make_task, raise_if in H. run_guards H. by destruct t.
Qed.

Lemma find_message_app m l x : is_Some (find_message m l) -> is_Some (find_message m (l ++ [x])).
Proof.
  unfold find_message. induction l as [|y l IH]; simpl; [by intros [? ?]|].
  case_bool_decide; eauto.
Qed.

(** Replacing a task by a later version keeps everything but the bookkeeping of commands. *)
Lemma repo_ok_update s H t t' ms :
  repo_ok s H -> _tasks s !! task_id t = Some t -> later_task t t' -> task_ok t' ->
  (forall i l, _messages s !! i = Some l -> exists l', ms !! i = Some l' /\
     forall m, is_Some (find_message m l) -> is_Some (find_message m l')) ->
  repo_ok (s {{ _tasks := <[task_id t := t']> (_tasks s); _messages := ms }}) (t' :: H).
Proof.
  intros [Hh Hc Hk Hm Hcm Hcc] Ht Hl Hok Hms.
  assert (task_id t' = task_id t) as Hid by apply Hl.
  assert (forall i x, _tasks s !! i = Some x -> exists y,
    <[task_id t := t']> (_tasks s) !! i = Some y /\ later_task x y) as Hup.
  { intros i x Hx. destruct (decide (task_id t = i)) as [<-|Hne].
    - rewrite lookup_insert_eq. exists t'. split; [done|]. congruence.
    - rewrite lookup_insert_ne by done. exists x. split; [done|apply later_task_refl]. }
  split; simpl.
  - intros x [->|Hin]%elem_of_cons.
    + exists t'. rewrite Hid, lookup_insert_eq. split; [done|apply later_task_refl].
    + destruct (Hh x Hin) as (cur & Hcur & Hl1). destruct (Hup _ _ Hcur) as (y & Hy & Hl2).
      exists y. split; [done|]. by eapply later_task_trans.
  - intros i x [[<- <-]|[_ Hx]]%lookup_insert_Some'; [split_and!; [done|done|left]|].
    destruct (Hc i x Hx) as (?&?&?). split_and!; [done|done|by right].
  - intros k i o Hki. destruct (Hk k i o Hki) as (x & Hx & <-).
    destruct (Hup _ _ Hx) as (y & Hy & (_ & Ho & _) & _). exists y. by rewrite Ho.
  - intros i x Hx. assert (is_Some (_tasks s !! i)) as [y Hy].
    { apply lookup_insert_Some' in Hx as [[<- _]|[_ Hx]]; eauto. }
    destruct (Hm i y Hy) as [l Hl']. destruct (Hms i l Hl') as (l' & -> & _). eauto.
  - intros k i m c Hki. destruct (Hcm k i m c Hki) as (l & msg & [x Hx] & Hl' & Hf).
    destruct (Hup _ _ Hx) as (y & -> & _). destruct (Hms i l Hl') as (l' & -> & Hf').
    destruct (Hf' m) as [msg' Hmsg']; [eauto|]. exists l', msg'. eauto.
  - intros k i Hki. destruct (Hcc k i Hki) as (x & Hx & Hst).
    destruct (Hup _ _ Hx) as (y & -> & _ & _ & Hs & _). exists y. split; [done|].
    rewrite Hs; [done|]. by rewrite Hst.
Qed.

Lemma repo_ok_command s H k i m c l :
  repo_ok s H -> is_Some (_tasks s !! i) -> _messages s !! i = Some l ->
  is_Some (find_message m l) ->
  repo_ok (s {{ _message_commands := <[k := (i, m, c)]> (_message_commands s) }}) H.
Proof.
  intros [Hh Hc Hk Hm Hcm Hcc] Hi Hl [msg Hf]. split; simpl; try done.
  intros k' i' m' c' [[<- [= <- <- <-]]|[_ Hki]]%lookup_insert_Some'; [|by eapply Hcm].
  by exists l, msg.
Qed.

Lemma repo_ok_cancel s H k i t :
  repo_ok s H -> _tasks s !! i = Some t -> task_state t = TaskState.CANCELLED ->
  repo_ok (s {{ _cancel_commands := <[k := i]> (_cancel_commands s) }}) H.
Proof.
  intros [Hh Hc Hk Hm Hcm Hcc] Hi Hst. split; simpl; try done.
  intros k' i' [[<- <-]|[_ Hki]]%lookup_insert_Some'; [by exists t|by eapply Hcc].
Qed.

Lemma repo_ok_create s H t k :
  repo_ok s H -> task_ok t -> _tasks s !! task_id t = None ->
  repo_ok (s {{ _tasks := <[task_id t := t]> (_tasks s);
                _messages := <[task_id t := []]> (_messages s);
                _task_keys := <[k := (task_id t, task_objective t)]> (_task_keys s) }}) (t :: H).
Proof.
  intros [Hh Hc Hk Hm Hcm Hcc] Hok Hnone.
  assert (forall i x, _tasks s !! i = Some x -> <[task_id t := t]> (_tasks s) !! i = Some x) as Hold.
  { intros i x Hx. rewrite lookup_insert_ne; [done|]. intros <-. congruence. }
  split; simpl.
  - intros x [->|Hin]%elem_of_cons.
    + exists t. rewrite lookup_insert_eq. split; [done|apply later_task_refl].
    + destruct (Hh x Hin) as (cur & Hcur & ?). exists cur. eauto.
  - intros i x [[<- <-]|[_ Hx]]%lookup_insert_Some'; [split_and!; [done|done|left]|].
    destruct (Hc i x Hx) as (?&?&?). split_and!; [done|done|by right].
  - intros k' i o [[<- [= <- <-]]|[_ Hki]]%lookup_insert_Some'.
    + exists t. by rewrite lookup_insert_eq.
    + destruct (Hk k' i o Hki) as (x & Hx & <-). exists x. eauto.
  - intros i x [[<- _]|[Hne Hx]]%lookup_insert_Some'; [by rewrite lookup_insert_eq|].
    rewrite lookup_insert_ne by done. by eapply Hm.
  - intros k' i m c Hki. destruct (Hcm k' i m c Hki) as (l & msg & [x Hx] & Hl & Hf).
    exists l, msg. rewrite (Hold _ _ Hx). split_and!; [eauto| |done].
    rewrite lookup_insert_ne; [done|]. intros <-. congruence.
  - intros k' i Hki. destruct (Hcc k' i Hki) as (x & Hx & ?). exists x. eauto.
Qed.

Ltac unfold_repo :=
  unfold repo_create_task, repo_get_task, repo_list_recent, repo_save_task, repo_add_message,
    repo_cancel_task, repo_messages, task_item, not_found, on_repo, lift, mbind, M_bind, get_state,
    put_state, mret, M_ret, raise in *.

(** A failing or reading operation leaves the history as it is. *)
Ltac same_history H Hok := exists H; split_and!; [done|exact Hok|simpl; set_solver].

Lemma save_later t0 t v : same_task t0 t -> task_version t0 = v -> task_version t = v + 1 ->
  TaskState.terminal (task_state t0) = false -> later_task t0 t.
Proof.
  intros Hs Hv Hv' Ht. unfold later_task. split_and!; [done|lia| |lia].
  intros Ht'. congruence.
Qed.

Lemma task_current s H t0 cur : repo_ok s H -> t0 ∈ H -> _tasks s !! task_id t0 = Some cur ->
  task_version cur = task_version t0 -> cur = t0.
Proof.
  intros [Hh _ _ _ _ _] Hin Hcur Hv. destruct (Hh t0 Hin) as (cur' & Hcur' & _ & _ & _ & He).
  assert (cur' = cur) as -> by congruence. by apply He.
Qed.

Lemma repo_save_inv s H kn t v : repo_ok s H -> kn ⊆ H -> task_allowed Task kn (TSave t v) ->
  exists H', H ⊆ H' /\ repo_ok (repo_save_task t v s).1 H' /\
    task_learn Task (TSave t v) (repo_save_task t v s).2 ⊆ H'.
Proof.
  intros Hok Hkn (Hto & t0 & Hin & Hsame & Hv & Hv' & Hterm). unfold_repo.
  destruct (_tasks s !! task_id t) as [cur|] eqn:Hcur; [|same_history H Hok].
  destruct (negb (task_version cur =? v) || (task_version t <=? v)) eqn:Hc;
    [same_history H Hok|]. bool_props. simpl.
  assert (task_id t = task_id t0) as Hid by apply Hsame. rewrite Hid in Hcur |- *.
  assert (cur = t0) as -> by (eapply task_current; eauto; congruence).
  exists (t :: H). split_and!; [set_solver| |set_solver].
  apply (repo_ok_update s H t0 t (_messages s)); try done; [by eapply save_later|eauto].
Qed.

Lemma repo_add_message_inv s H m v k : repo_ok s H ->
  exists H', H ⊆ H' /\ repo_ok (repo_add_message m v k s).1 H' /\
    task_learn _ (TAddMessage m v k) (repo_add_message m v k s).2 ⊆ H'.
Proof.
  intros Hok. unfold_repo. destruct (_message_commands s !! k) as [[[i mi] c]|] eqn:Hk.
  - destruct (_ || _); [same_history H Hok|].
    destruct (ro_commands _ _ Hok k i mi c Hk) as (l & msg & [t Ht] & Hl & Hf).
    rewrite Hl, Hf, Ht. simpl. exists H. split_and!; try done.
    destruct (ro_current _ _ Hok i t Ht) as (_ & _ & ?). set_solver.
  - destruct (_tasks s !! msg_task_id m) as [cur|] eqn:Hcur; [|same_history H Hok].
    destruct (negb (task_version cur =? v)) eqn:Hv; [same_history H Hok|].
    destruct (remake_task _) as [t'|] eqn:Ht'; [|same_history H Hok].
    apply remake_ok in Ht' as [-> Hto].
    destruct (ro_messages _ _ Hok _ _ Hcur) as [l Hl]. rewrite Hl. simpl.
    set (t' := cur {{ task_version := task_version cur + 1 }}) in *.
    destruct (ro_current _ _ Hok _ _ Hcur) as (Hid & _ & _).
    exists (t' :: H). split_and!; [set_solver| |set_solver].
    assert (later_task cur t') as Hl'.
    { unfold later_task, same_task, t'. simpl. split_and!; try done; lia. }
    rewrite <- Hid in *.
    pose proof (repo_ok_update s H cur t' (<[task_id cur := (l ++ [m])%list]> (_messages s))
      Hok Hcur Hl' Hto) as Hup.
    apply (repo_ok_command _ (t' :: H) k (task_id cur) (msg_id m) (msg_content m) (l ++ [m])%list) in Hup.
    + exact Hup.
    + intros i l0 Hl0. destruct (decide (task_id cur = i)) as [<-|Hne].
      * rewrite lookup_insert_eq. eexists. split; [done|]. intros mi. rewrite Hl in Hl0.
        injection Hl0 as <-. apply find_message_app.
      * rewrite lookup_insert_ne by done. eauto.
    + simpl. rewrite lookup_insert_eq. eauto.
    + simpl. by rewrite lookup_insert_eq.
    + unfold find_message. clear. induction l as [|x l IH]; simpl; [by rewrite bool_decide_eq_true_2; eauto|].
      case_bool_decide; eauto.
Qed.

Lemma repo_cancel_inv s H i v k : repo_ok s H ->
  exists H', H ⊆ H' /\ repo_ok (repo_cancel_task i v k s).1 H' /\
    task_learn _ (TCancel i v k) (repo_cancel_task i v k s).2 ⊆ H'.
Proof.
  intros Hok. unfold_repo. destruct (_cancel_commands s !! k) as [i'|] eqn:Hk.
  - destruct (negb _); [same_history H Hok|].
    destruct (ro_cancels _ _ Hok k i' Hk) as (t & Ht & _). rewrite Ht. simpl.
    exists H. split_and!; try done. destruct (ro_current _ _ Hok i' t Ht) as (_ & _ & ?). set_solver.
  - destruct (_tasks s !! i) as [cur|] eqn:Hcur; [|same_history H Hok].
    destruct (negb _); [same_history H Hok|].
    destruct (TaskState.terminal (task_state cur)) eqn:Ht; [same_history H Hok|].
    destruct (remake_task _) as [t'|] eqn:Ht'; [|same_history H Hok].
    apply remake_ok in Ht' as [-> Hto]. simpl.
    set (t' := cur {{ task_state := TaskState.CANCELLED; task_version := task_version cur + 1 }}) in *.
    destruct (ro_current _ _ Hok _ _ Hcur) as (Hid & _ & _). subst i.
    exists (t' :: H). split_and!; [set_solver| |set_solver].
    assert (later_task cur t') as Hl.
    { unfold later_task, same_task, t'. simpl. split_and!; try done; try lia. by rewrite Ht. }
    pose proof (repo_ok_update s H cur t' (_messages s) Hok Hcur Hl Hto ltac:(eauto)) as Hup.
    apply (repo_ok_cancel _ (t' :: H) k (task_id cur) t') in Hup; [exact Hup| |done].
    simpl. by rewrite lookup_insert_eq.
Qed.

Lemma repo_create_inv s H t k : repo_ok s H -> task_ok t ->
  exists H', H ⊆ H' /\ repo_ok (repo_create_task t k s).1 H' /\
    task_learn _ (TCreate t k) (repo_create_task t k s).2 ⊆ H'.
Proof.
  intros Hok Hto. unfold_repo. destruct (_task_keys s !! k) as [[i o]|] eqn:Hk.
  - destruct (negb _); [same_history H Hok|].
    destruct (ro_keys _ _ Hok k i o Hk) as (x & Hx & _). rewrite Hx. simpl.
    exists H. split_and!; try done. destruct (ro_current _ _ Hok i x Hx) as (_ & _ & ?). set_solver.
  - destruct (_tasks s !! task_id t) as [cur|] eqn:Hcur; [same_history H Hok|]. simpl.
    exists (t :: H). split_and!; [set_solver| |set_solver]. by apply repo_ok_create.
Qed.

Lemma task_step_inv X (op : taskE X) s s' r H kn :
  repo_ok (ts_repo s) H -> kn ⊆ H -> task_allowed X kn op -> task_op_step X op s s' r ->
  exists H', H ⊆ H' /\ repo_ok (ts_repo s') H' /\ task_learn X op r ⊆ H' /\ task_sound X kn op r.
Proof.
  intros Hok Hkn Ha Hs.
  assert (forall H', (H ⊆ H' /\ repo_ok (ts_repo s') H' /\ task_learn X op r ⊆ H') ->
    task_sound X kn op r -> exists H', H ⊆ H' /\ repo_ok (ts_repo s') H' /\ task_learn X op r ⊆ H' /\
      task_sound X kn op r) as Hwrap by (intros H' (?&?&?) ?; exists H'; done).
  destruct op as [t k|i|n b|t v|m v k|i v k|i|kind payload key|ty i d|e|X op]; simpl in Hs.
  - destruct Hs as [-> ->]. destruct (repo_create_inv (ts_repo s) H t k Hok Ha) as (H' & Hw). by eapply Hwrap.
  - destruct Hs as [-> ->]. unfold_repo. destruct (_tasks (ts_repo s) !! i) as [t|] eqn:Ht; simpl.
    + destruct (ro_current _ _ Hok _ _ Ht) as (? & _ & ?). exists H. split_and!; [done|done|set_solver|].
      by intros ? [= <-].
    + exists H. split_and!; [done|done|set_solver|]. by intros ?.
  - destruct Hs as [-> ->]. exists H. unfold_repo. split_and!; [done| |set_solver|done].
    destruct b as [b|]; [|done]. by destruct (_tasks (ts_repo s) !! b).
  - destruct Hs as [-> ->]. destruct (repo_save_inv (ts_repo s) H kn t v Hok Hkn Ha) as (H' & Hw). by eapply Hwrap.
  - destruct Hs as [-> ->]. destruct (repo_add_message_inv (ts_repo s) H m v k Hok) as (H' & Hw). by eapply Hwrap.
  - destruct Hs as [-> ->]. destruct (repo_cancel_inv (ts_repo s) H i v k Hok) as (H' & Hw). by eapply Hwrap.
  - destruct Hs as [-> ->]. exists H. unfold_repo. split_and!; [done| |set_solver|done].
    destruct (_tasks (ts_repo s) !! i); [|done]. by destruct (_messages (ts_repo s) !! i).
  - destruct Hs as (now & hex & -> & ->). exists H. split_and!; [done|done|set_solver|done].
  - destruct Hs as (now & -> & ->). exists H. split_and!; [done|done|set_solver|done].
  - destruct Hs as [-> ->]. exists H. split_and!; [done|done|set_solver|done].
  - destruct Hs as [-> _]. exists H. split_and!; [done|done|set_solver|done].
Qed.

Lemma task_cancel_sound X (op : taskE X) kn :
  task_sound X kn op (Err cancelled) /\ task_learn X op (Err cancelled) = [].
Proof. by destruct op. Qed.

(** ** The clients are disciplined *)

Notation tdwp := (dwp task_allowed task_sound task_learn).

Lemma tdwp_free {X} (op : taskE X) kn (Q : list Task -> result X -> Prop) :
  match op with TCreate _ _ | TSave _ _ => False | _ => True end ->
  (forall ans kn', kn ⊆ kn' -> (forall a, ans = Ok a -> task_sound X kn op ans) ->
     task_learn X op ans ⊆ kn' -> Q kn' ans) ->
  tdwp (call op) kn Q.
Proof.
  intros Hop HQ. apply dwp_perform; [by destruct op|]. intros ans Hs. apply HQ; [set_solver|done|set_solver].
Qed.

Lemma tdwp_env {X} (op : envE X) kn (Q : list Task -> result X -> Prop) :
  (forall r, Q kn r) -> tdwp (call op) kn Q.
Proof. intros HQ. apply dwp_perform; [done|]. intros ans _. apply HQ. Qed.

Lemma tdwp_audit ty actor rt ri d kn (Q : list Task -> result unit -> Prop) :
  (forall kn' r, Q kn' r) -> tdwp (audit_event_now ty actor rt ri d) kn Q.
Proof.
  intros HQ. unfold audit_event_now. apply dwp_bind, tdwp_env. intros [now|e]; [|apply HQ].
  apply tdwp_free; [done|]. intros. apply HQ.
Qed.

Lemma tdwp_save t0 t v kn (Q : list Task -> result Task -> Prop) :
  task_ok t -> t0 ∈ kn -> same_task t0 t -> task_version t0 = v -> task_version t = v + 1 ->
  TaskState.terminal (task_state t0) = false -> (forall kn' r, Q kn' r) ->
  tdwp (call (TSave t v)) kn Q.
Proof.
  intros. apply dwp_perform; [|intros; done]. split; [done|]. by exists t0.
Qed.

Lemma make_task_ok i o st v c t : make_task i o st v c = Ok t ->
  task_ok t /\ task_id t = i /\ task_objective t = o /\ task_state t = st /\ task_version t = v /\
  task_created_at t = c.
Proof.
  intros H. assert (t = {| task_id := i; task_objective := o; task_state := st; task_version := v;
    task_created_at := c |}) as ->.
  { unfold make_task, raise_if in H. by run_guards H. }
  done.
Qed.

Lemma tdwp_add_message i content v actor key kn (Q : list Task -> result (Task * TaskMessage) -> Prop) :
  (forall kn' r, Q kn' r) -> tdwp (add_message i content v actor key) kn Q.
Proof.
  intros HQ. unfold add_message. destruct (blank content); [apply HQ|].
  apply dwp_bind, tdwp_env. intros [hex|e]; [|apply HQ].
  apply dwp_bind, tdwp_env. intros [now|e]; [|apply HQ].
  apply dwp_bind, tdwp_free; [done|]. intros [[t m]|e] kn' _ _ _; [|apply HQ].
  apply dwp_bind, tdwp_free; [done|]. intros [?|?] kn2 _ _ _; apply HQ.
Qed.

Lemma tdwp_project i state kn (Q : list Task -> result Task -> Prop) :
  (forall kn' r, Q kn' r) -> tdwp (project i state) kn Q.
Proof.
  intros HQ. unfold project. apply dwp_bind, tdwp_free; [done|].
  intros [t|e] kn' Hkn _ Hl; [|apply HQ]. simpl in Hl.
  destruct (TaskState.terminal (task_state t)) eqn:Ht; [apply HQ|].
  case_bool_decide; [apply HQ|]. apply dwp_bind, dwp_of_result.
  destruct (make_task _ _ _ _ _) as [t'|e] eqn:Hm; [|apply HQ].
  apply make_task_ok in Hm as (Hok & ? & ? & ? & ? & ?).
  apply dwp_bind, (tdwp_save t); try done; [set_solver|].
  intros kn2 [t2|e]; [|apply HQ]. apply dwp_bind, tdwp_free; [done|].
  intros [?|?] kn3 _ _ _; apply HQ.
Qed.

Lemma tdwp_create objective key actor kn (Q : list Task -> result Task -> Prop) :
  (forall kn' r, Q kn' r) -> tdwp (create_task objective key actor) kn Q.
Proof.
  intros HQ. unfold create_task. destruct (blank objective); [apply HQ|].
  destruct (blank key); [apply HQ|].
  apply dwp_bind, tdwp_env. intros [hex|e]; [|apply HQ].
  apply dwp_bind, tdwp_env. intros [now|e]; [|apply HQ].
  apply dwp_bind, dwp_of_result. destruct (make_task _ _ _ _ _) as [c|e] eqn:Hm; [|apply HQ].
  apply make_task_ok in Hm as (Hok & _). apply dwp_bind, dwp_perform; [done|].
  intros [t|e] _; [|apply HQ]. case_bool_decide as Hst; cbn [negb]; [|apply HQ].
  apply dwp_bind, tdwp_free; [done|]. intros [j|e] kn1 Hkn _ _; [|apply HQ].
  apply dwp_bind, dwp_of_result. destruct (make_task _ _ _ _ _) as [t'|e] eqn:Hm'; [|apply HQ].
  apply make_task_ok in Hm' as (Hok' & ? & ? & ? & ? & ?).
  apply dwp_bind, (tdwp_save t); try done; [set_solver|by rewrite Hst|].
  intros kn2 [t2|e]; [|apply HQ]. apply dwp_bind, tdwp_free; [done|].
  intros [?|?] kn3 _ _ _; [|apply HQ]. apply dwp_bind, tdwp_audit. intros kn4 [?|?]; apply HQ.
Qed.

Lemma tdwp_cancel i v actor key kn (Q : list Task -> result Task -> Prop) :
  (forall kn' r, Q kn' r) -> tdwp (cancel_task i v actor key) kn Q.
Proof.
  intros HQ. unfold cancel_task. apply dwp_bind, tdwp_free; [done|].
  intros [t|e] kn1 _ _ _; [|apply HQ]. apply dwp_bind, tdwp_free; [done|].
  intros [?|?] kn2 _ _ _; [|apply HQ]. apply dwp_bind, tdwp_audit. intros kn3 [?|?]; apply HQ.
Qed.

Lemma task_client_ok p : task_client p -> tdwp p [] (fun _ _ => True).
Proof.
  intros Hc. destruct Hc; try (apply dwp_bind).
  - apply tdwp_create. by intros ? [?|?].
  - unfold list_recent. destruct (negb _); [done|]. apply tdwp_free; [done|]. by intros [?|?].
  - apply tdwp_add_message. by intros ? [?|?].
  - apply tdwp_project. by intros ? [?|?].
  - apply tdwp_free; [done|]. intros [t|e] kn _ _ _; [|done].
    apply dwp_bind, tdwp_add_message. by intros ? [?|?].
  - apply tdwp_cancel. by intros ? [?|?].
  - apply tdwp_free; [done|]. by intros [?|?].
  - apply tdwp_free; [done|]. by intros [?|?].
Qed.

(** ** Theorems *)

Definition task_pool : task_sys * list (prog taskE unit) -> task_sys * list (prog taskE unit) -> Prop :=
  pstep task_op_step task_client.

Definition initial_tasks : task_sys :=
  {| ts_repo := empty_tasks; ts_queue := empty_queue; ts_events := []; ts_audit := [] |}.

Lemma empty_repo_ok : repo_ok empty_tasks [].
Proof.
  split; simpl; intros; rewrite ?lookup_empty in *; try discriminate. set_solver.
Qed.

Lemma task_pool_inv s ts : star task_pool (initial_tasks, []) (s, ts) ->
  exists H, threads_inv task_allowed task_sound task_learn (fun s H => repo_ok (ts_repo s) H) H (s, ts).
Proof.
  intros Hs.
  destruct (pool_reachable task_op_step task_client task_allowed task_sound task_learn
    (fun s H => repo_ok (ts_repo s) H) task_step_inv task_cancel_sound task_client_ok
    [] initial_tasks (s, ts) empty_repo_ok Hs) as (H & _ & Hinv). by exists H.
Qed.

Lemma task_pool_later s ts s' ts' : star task_pool (initial_tasks, []) (s, ts) ->
  star task_pool (s, ts) (s', ts') ->
  exists H H', repo_ok (ts_repo s) H /\ repo_ok (ts_repo s') H' /\ H ⊆ H'.
Proof.
  intros Hs Hs'. destruct (task_pool_inv s ts Hs) as (H & Hinv).
  destruct (pool_history task_op_step task_client task_allowed task_sound task_learn
    (fun s H => repo_ok (ts_repo s) H) task_step_inv task_cancel_sound task_client_ok
    H (s, ts) (s', ts') Hs' Hinv) as (H' & HH & Hinv').
  exists H, H'. destruct Hinv as [? _], Hinv' as [? _]. done.
Qed.

(** C15. However service calls interleave and wherever they are cancelled, a task keeps its
    identity, objective and creation time, its version never goes back, and a task that has
    succeeded, failed or been cancelled stays in that state. *)
Theorem terminal_tasks_are_final s ts s' ts' i t :
  star task_pool (initial_tasks, []) (s, ts) -> star task_pool (s, ts) (s', ts') ->
  _tasks (ts_repo s) !! i = Some t ->
  exists t', _tasks (ts_repo s') !! i = Some t' /\ same_task t t' /\
    task_version t <= task_version t' /\
    (TaskState.terminal (task_state t) = true -> task_state t' = task_state t).
Proof.
  intros Hs Hs' Ht. destruct (task_pool_later s ts s' ts' Hs Hs') as (H & H' & Hok & Hok' & HH).
  destruct (ro_current _ _ Hok i t Ht) as (Hid & _ & Hin).
  destruct (ro_history _ _ Hok' t (HH _ Hin)) as (t' & Ht' & Hsame & Hv & Hterm & _).
  exists t'. rewrite <- Hid. done.
Qed.

(** Command keys are never forgotten. *)
Definition keys_kept (s s' : InMemoryTaskRepository) : Prop :=
  _task_keys s ⊆ _task_keys s' /\ _message_commands s ⊆ _message_commands s' /\
  _cancel_commands s ⊆ _cancel_commands s'.

Lemma keys_kept_refl s : keys_kept s s.
Proof. done. Qed.

Lemma keys_kept_op X (op : taskE X) s s' r : task_op_step X op s s' r ->
  keys_kept (ts_repo s) (ts_repo s').
Proof.
  destruct op as [t k|i|n b|t v|m v k|i v k|i|kind payload key|ty i d|e|X op]; simpl; unfold_repo;
    try (intros [-> _]); try (intros (? & ? & -> & _)); try (intros (? & -> & _));
    simpl; repeat (split_match; simpl); simplify_eq/=; try apply keys_kept_refl;
    split_and!; simpl; try done; by apply insert_subseteq.
Qed.

Lemma keys_kept_pool c c' : star task_pool c c' -> keys_kept (ts_repo c.1) (ts_repo c'.1).
Proof.
  induction 1 as [c|c1 c2 c3 Hstep _ IH]; [apply keys_kept_refl|].
  assert (keys_kept (ts_repo c1.1) (ts_repo c2.1)) as H1.
  { destruct Hstep as [s s' ts j X op k r _ Hs| | |]; [|apply keys_kept_refl..].
    by eapply keys_kept_op. }
  destruct H1 as (?&?&?), IH as (?&?&?). split_and!; by etrans.
Qed.

(** What a command that succeeded leaves in the books. *)
Lemma create_books t k s0 s H x : repo_ok s H -> repo_create_task t k s0 = (s, Ok x) ->
  _task_keys s !! k = Some (task_id x, task_objective t).
Proof.
  intros Hok. unfold_repo. destruct (_task_keys s0 !! k) as [[i o]|] eqn:Hk.
  - destruct (negb _) eqn:Ho; [discriminate|]. bool_props.
    destruct (_tasks s0 !! i) as [y|] eqn:Hy; [|discriminate]. intros [= <- <-].
    destruct (ro_current _ _ Hok i y Hy) as (-> & _). by rewrite Hk, Ho.
  - destruct (_tasks s0 !! task_id t); [discriminate|]. intros [= <- <-]. simpl.
    by rewrite lookup_insert_eq.
Qed.

Lemma message_books m v k s0 s H x y : repo_ok s H -> repo_add_message m v k s0 = (s, Ok (x, y)) ->
  _message_commands s !! k = Some (msg_task_id m, msg_id y, msg_content m) /\
  task_id x = msg_task_id m.
Proof.
  intros Hok. unfold_repo. destruct (_message_commands s0 !! k) as [[[i mi] c]|] eqn:Hk.
  - destruct (_ || _) eqn:Hd; [discriminate|]. bool_props. subst i c.
    destruct (_messages s0 !! msg_task_id m) as [l|]; [|discriminate].
    destruct (find_message mi l) as [msg|] eqn:Hf; [|discriminate].
    destruct (_tasks s0 !! msg_task_id m) as [t|] eqn:Ht; [|discriminate]. intros [= <- <- <-].
    destruct (ro_current _ _ Hok _ t Ht) as (-> & _).
    apply List.find_some in Hf as [_ Hf]. bool_props. by rewrite Hk, Hf.
  - destruct (_tasks s0 !! msg_task_id m) as [cur|] eqn:Hc; [|discriminate].
    destruct (negb _); [discriminate|]. destruct (remake_task _) as [t'|] eqn:Ht; [|discriminate].
    destruct (_messages s0 !! msg_task_id m) as [l|]; [|discriminate]. intros [= Hs <- <-].
    assert (_tasks s !! msg_task_id m = Some t') as Ht' by (subst s; simpl; by rewrite lookup_insert_eq).
    destruct (ro_current _ _ Hok _ _ Ht') as (-> & _). subst s. simpl. by rewrite lookup_insert_eq.
Qed.

Lemma cancel_books i v k s0 s H x : repo_ok s H -> repo_cancel_task i v k s0 = (s, Ok x) ->
  _cancel_commands s !! k = Some i /\ task_id x = i.
Proof.
  intros Hok. unfold_repo. destruct (_cancel_commands s0 !! k) as [i'|] eqn:Hk.
  - destruct (negb _) eqn:Ho; [discriminate|]. bool_props. subst i'.
    destruct (_tasks s0 !! i) as [y|] eqn:Hy; [|discriminate]. intros [= <- <-].
    destruct (ro_current _ _ Hok i y Hy) as (-> & _). done.
  - destruct (_tasks s0 !! i) as [cur|]; [|discriminate]. destruct (negb _); [discriminate|].
    destruct (TaskState.terminal _); [discriminate|].
    destruct (remake_task _) as [t'|]; [|discriminate]. intros [= Hs <-].
    assert (_tasks s !! i = Some t') as Ht' by (subst s; simpl; by rewrite lookup_insert_eq).
    destruct (ro_current _ _ Hok _ _ Ht') as (-> & _). subst s. simpl. by rewrite lookup_insert_eq.
Qed.

(** A replay of a recorded key. *)
Lemma create_replay s H k i o t : repo_ok s H -> _task_keys s !! k = Some (i, o) ->
  exists res, repo_create_task t k s = (s, res) /\
    if bool_decide (task_objective t = o)
    then exists x, res = Ok x /\ task_id x = i /\ _tasks s !! i = Some x else is_ok res = false.
Proof.
  intros Hok Hk. destruct (ro_keys _ _ Hok k i o Hk) as (x & Hx & _).
  destruct (ro_current _ _ Hok i x Hx) as (Hid & _ & _). unfold_repo. rewrite Hk.
  rewrite (bool_decide_ext (o = task_objective t) (task_objective t = o)) by (split; congruence).
  case_bool_decide; simpl; [|by eexists]. rewrite Hx. eexists. split; [done|]. by exists x.
Qed.

Lemma message_replay s H k i m c msg v : repo_ok s H -> _message_commands s !! k = Some (i, m, c) ->
  exists res, repo_add_message msg v k s = (s, res) /\
    if bool_decide (msg_task_id msg = i /\ msg_content msg = c)
    then exists x y l, res = Ok (x, y) /\ task_id x = i /\ msg_id y = m /\
      _messages s !! i = Some l /\ y ∈ l
    else is_ok res = false.
Proof.
  intros Hok Hk. destruct (ro_commands _ _ Hok k i m c Hk) as (l & y & [x Hx] & Hl & Hf).
  destruct (ro_current _ _ Hok i x Hx) as (Hid & _ & _). unfold_repo. rewrite Hk.
  destruct (decide (msg_task_id msg = i /\ msg_content msg = c)) as [[-> ->]|Hsame].
  - rewrite !bool_decide_eq_true_2 by done. simpl.
    rewrite Hl, Hf, Hx. eexists. split; [done|]. exists x, y, l.
    apply List.find_some in Hf as [Hin Hf]. bool_props. apply list_elem_of_In in Hin. done.
  - rewrite (bool_decide_eq_false_2 (_ /\ _)) by done.
    destruct (_ || _) eqn:Hd; [by eexists|]. bool_props. exfalso. by apply Hsame.
Qed.

Lemma cancel_replay s H k i i' v : repo_ok s H -> _cancel_commands s !! k = Some i ->
  exists res, repo_cancel_task i' v k s = (s, res) /\
    if bool_decide (i' = i)
    then exists x, res = Ok x /\ task_id x = i /\ task_state x = TaskState.CANCELLED
    else is_ok res = false.
Proof.
  intros Hok Hk. destruct (ro_cancels _ _ Hok k i Hk) as (x & Hx & Hst).
  destruct (ro_current _ _ Hok i x Hx) as (Hid & _ & _). unfold_repo. rewrite Hk.
  rewrite (bool_decide_ext (i = i') (i' = i)) by (split; congruence).
  case_bool_decide; simpl; [|by eexists]. rewrite Hx. eexists. split; [done|]. by exists x.
Qed.

(** C16. Commands are idempotent: when a create, message or cancel command has been answered
    with success under an idempotency key, then whatever calls follow, running the command again
    with that key changes nothing in the repository; it answers with the task (and message) of
    the first answer when its parameters agree and is refused when they differ. *)
Theorem commands_take_effect_once s0 s ts s' ts' k :
  star task_pool (initial_tasks, []) (s, ts) -> star task_pool (s, ts) (s', ts') ->
  (forall t x t2, task_op_step _ (TCreate t k) s0 s (Ok x) ->
     exists res, repo_create_task t2 k (ts_repo s') = (ts_repo s', res) /\
       if bool_decide (task_objective t2 = task_objective t)
       then exists y, res = Ok y /\ task_id y = task_id x /\
              _tasks (ts_repo s') !! task_id x = Some y
       else is_ok res = false) /\
  (forall m v x y m2 v2, task_op_step _ (TAddMessage m v k) s0 s (Ok (x, y)) ->
     exists res, repo_add_message m2 v2 k (ts_repo s') = (ts_repo s', res) /\
       if bool_decide (msg_task_id m2 = msg_task_id m /\ msg_content m2 = msg_content m)
       then exists x' y' l, res = Ok (x', y') /\ task_id x' = task_id x /\ msg_id y' = msg_id y /\
              _messages (ts_repo s') !! task_id x = Some l /\ y' ∈ l
       else is_ok res = false) /\
  (forall i v x i2 v2, task_op_step _ (TCancel i v k) s0 s (Ok x) ->
     exists res, repo_cancel_task i2 v2 k (ts_repo s') = (ts_repo s', res) /\
       if bool_decide (i2 = i)
       then exists y, res = Ok y /\ task_id y = task_id x /\ task_state y = TaskState.CANCELLED
       else is_ok res = false).
Proof.
  intros Hs Hs'. destruct (task_pool_later s ts s' ts' Hs Hs') as (H & H' & Hok & Hok' & _).
  pose proof (keys_kept_pool _ _ Hs') as (Hk1 & Hk2 & Hk3). simpl in Hk1, Hk2, Hk3.
  split_and!.
  - intros t x t2 [E Er]. apply (create_replay _ H'); [exact Hok'|].
    apply (lookup_weaken _ _ _ _) with (2 := Hk1).
    apply (create_books t k (ts_repo s0) _ H); [exact Hok|]. subst s. simpl. rewrite Er.
    apply surjective_pairing.
  - intros m v x y m2 v2 [E Er].
    destruct (message_books m v k (ts_repo s0) (ts_repo s) H x y Hok) as [Hb ->].
    { subst s. simpl. rewrite Er. apply surjective_pairing. }
    apply (message_replay _ H'); [exact Hok'|]. exact (lookup_weaken _ _ _ _ Hb Hk2).
  - intros i v x i2 v2 [E Er].
    destruct (cancel_books i v k (ts_repo s0) (ts_repo s) H x Hok) as [Hb ->].
    { subst s. simpl. rewrite Er. apply surjective_pairing. }
    apply (cancel_replay _ H'); [exact Hok'|]. exact (lookup_weaken _ _ _ _ Hb Hk3).
Qed.

(** ** The event stream *)

Definition numbered (events : list TaskEvent) : Prop :=
  te_sequence <$> events = Z.of_nat <$> seq 1 (length events).

(** Subscribers that remember the last sequence number they have seen miss nothing. *)
Lemma numbered_publish ty i d now events : numbered events ->
  numbered (publish_event ty i d now events).1.
Proof.
  unfold numbered, publish_event, mbind, M_bind, get_state, put_state, mret, M_ret. simpl.
  intros H. rewrite fmap_app, length_app, seq_app, fmap_app, H. simpl. do 2 f_equal. lia.
Qed.

Lemma numbered_pool c c' : star task_pool c c' -> numbered (ts_events c.1) ->
  numbered (ts_events c'.1).
Proof.
  intros Hs. eapply (star_invariant _ (fun c => numbered (ts_events c.1))); [|exact Hs].
  intros a b [s s' ts j X op k r _ H| | |]; simpl; try done.
  destruct op; simpl in H; unfold on_repo in H; destruct_and?; subst; simpl; try done.
  - by destruct H as (? & ? & -> & _).
  - destruct H as (now & -> & _). apply numbered_publish.
Qed.

Lemma filter_numbered events k n : te_sequence <$> events = Z.of_nat <$> seq k (length events) ->
  (n < k)%nat ->
  List.filter (fun e => Z.of_nat n <? te_sequence e) events = events.
Proof.
  revert k; induction events as [|e l IH]; intros k H Hn; simpl in *; [done|].
  injection H as He Hl. rewrite (proj2 (Z.ltb_lt _ _)) by lia. f_equal. by apply (IH (S k)); [|lia].
Qed.

Lemma filter_after events k n : te_sequence <$> events = Z.of_nat <$> seq (S k) (length events) ->
  List.filter (fun e => Z.of_nat (k + n) <? te_sequence e) events = drop n events.
Proof.
  revert k n; induction events as [|e l IH]; intros k n H; simpl in *; [by rewrite drop_nil|].
  destruct n as [|n].
  - rewrite drop_0. apply (filter_numbered (e :: l) (S k) (k + 0)); [done|lia].
  - injection H as He Hl. rewrite (proj2 (Z.ltb_ge _ _)) by lia. simpl.
    replace (k + S n)%nat with (S k + n)%nat by lia. by apply IH.
Qed.

(** The event stream loses and repeats nothing: its events are numbered 1, 2, 3, ... in
    publication order, and [after n] returns exactly those published after the first [n]. *)
Theorem events_after_is_complete s ts n :
  star task_pool (initial_tasks, []) (s, ts) ->
  te_sequence <$> ts_events s = Z.of_nat <$> seq 1 (length (ts_events s)) /\
  events_after (Z.of_nat n) (ts_events s) = (ts_events s, Ok (drop n (ts_events s))).
Proof.
  intros Hs. pose proof (numbered_pool _ _ Hs eq_refl) as Hn. split; [exact Hn|].
  unfold events_after, mbind, M_bind, get_state, mret, M_ret. do 2 f_equal.
  by apply (filter_after _ 0 n).
Qed.

(** ** Concrete runs *)

Module TaskScenario.
Definition answer (X : Type) (op : taskE X) : M task_sys X := fun s =>
  match op in taskE Y return task_sys * result Y with
  | TCreate t k => let r := repo_create_task t k (ts_repo s) in (s {{ ts_repo := r.1 }}, r.2)
  | TGet i => let r := repo_get_task i (ts_repo s) in (s {{ ts_repo := r.1 }}, r.2)
  | TListRecent n b => let r := repo_list_recent n b (ts_repo s) in (s {{ ts_repo := r.1 }}, r.2)
  | TSave t v => let r := repo_save_task t v (ts_repo s) in (s {{ ts_repo := r.1 }}, r.2)
  | TAddMessage m v k =>
      let r := repo_add_message m v k (ts_repo s) in (s {{ ts_repo := r.1 }}, r.2)
  | TCancel i v k => let r := repo_cancel_task i v k (ts_repo s) in (s {{ ts_repo := r.1 }}, r.2)
  | TMessages i => let r := repo_messages i (ts_repo s) in (s {{ ts_repo := r.1 }}, r.2)
  | TEnqueue kind payload key =>
      let r := enqueue kind payload key None 5 0 (pretty (size (_jobs (ts_queue s)))) (ts_queue s) in
      (s {{ ts_queue := r.1 }}, r.2)
  | TPublish ty i d => let r := publish_event ty i d 0 (ts_events s) in (s {{ ts_events := r.1 }}, r.2)
  | TAudit e => (s {{ ts_audit := (audit_append e (ts_audit s)).1 }}, Ok tt)
  | TEnv op => (s, match op in envE Z return result Z with
                   | Now => Ok 0
                   | NewUuid => Ok (pretty (size (_tasks (ts_repo s))))
                   | NewToken => Ok "token" end)
  end.

Lemma answer_step X (op : taskE X) s : task_op_step X op s (answer X op s).1 (answer X op s).2.
Proof.
  destruct op; simpl; unfold on_repo; try done; eauto. by destruct op.
Qed.

Definition creation : prog taskE unit := _ ← create_task "sort the mailbox" "key-1" "owner"; Ret tt.
Definition cancellation : prog taskE unit := _ ← cancel_task "task_0" 1 "owner" "key-2"; Ret tt.
Definition projection : prog taskE unit := _ ← project "task_0" TaskState.RUNNING; Ret tt.

Definition created : task_sys := (run answer creation initial_tasks).1.
Definition gone : task_sys := (run answer cancellation created).1.
Definition projected : task_sys := (run answer projection gone).1.

(** The pool after the creation, after the cancellation and after a late projection. *)
Lemma created_reachable : exists ts, star task_pool (initial_tasks, []) (created, ts).
Proof.
  eexists. apply (pool_run_alone task_op_step task_client answer creation initial_tasks [] answer_step).
  constructor.
Qed.

Lemma gone_reachable ts : exists ts', star task_pool (created, ts) (gone, ts').
Proof.
  eexists. apply (pool_run_alone task_op_step task_client answer cancellation created ts answer_step).
  constructor.
Qed.

Lemma projected_reachable ts : exists ts', star task_pool (gone, ts) (projected, ts').
Proof.
  eexists. apply (pool_run_alone task_op_step task_client answer projection gone ts answer_step).
  constructor.
Qed.
End TaskScenario.

Lemma terminal_tasks_are_final_witness :
  exists t t', _tasks (ts_repo TaskScenario.gone) !! "task_0" = Some t /\
    task_state t = TaskState.CANCELLED /\
    _tasks (ts_repo TaskScenario.projected) !! "task_0" = Some t' /\ task_state t' = task_state t.
Proof.
  destruct TaskScenario.created_reachable as [ts1 H1].
  destruct (TaskScenario.gone_reachable ts1) as [ts2 H2].
  destruct (TaskScenario.projected_reachable ts2) as [ts3 H3].
  destruct (_tasks (ts_repo TaskScenario.gone) !! "task_0") as [t|] eqn:E;
    [|vm_compute in E; discriminate E].
  assert (task_state t = TaskState.CANCELLED) as Hst by (revert E; vm_compute; by intros [= <-]).
  destruct (terminal_tasks_are_final TaskScenario.gone ts2 TaskScenario.projected ts3 "task_0" t)
    as (t' & Ht' & _ & _ & Hf).
  - exact (star_trans _ _ _ _ H1 H2).
  - exact H3.
  - exact E.
  - exists t, t'. rewrite Hst in Hf |- *. exact (conj eq_refl (conj eq_refl (conj Ht' (Hf eq_refl)))).
Defined.

(** A message is posted; the task is cancelled; the message is posted again with its key. *)
Module ReplayScenario.
Import TaskScenario.
Definition message (id : string) : TaskMessage :=
  {| msg_id := id; msg_task_id := "task_0"; msg_actor := "owner"; msg_content := "more";
     msg_created_at := 0 |}.
Definition posting : prog taskE unit := _ ← add_message "task_0" "more" 1 "owner" "key-3"; Ret tt.
Definition posted : task_sys := (answer _ (TAddMessage (message "msg_1") 1 "key-3") created).1.
Definition late_cancel : prog taskE unit := _ ← cancel_task "task_0" 2 "owner" "key-2"; Ret tt.
Definition closed : task_sys := (run answer late_cancel posted).1.

Lemma posted_reachable : exists ts, star task_pool (initial_tasks, []) (posted, ts).
Proof.
  destruct created_reachable as [ts1 H1].
  eexists. eapply star_trans; [exact H1|]. eapply star_step; [apply pstep_arrive, (tc_message "task_0" "more" 1 "owner" "key-3")|].
  assert (forall p : prog taskE unit, (ts1 ++ [p])%list !! length ts1 = Some p) as Hl.
  { intros q. rewrite lookup_app_r by done. by rewrite Nat.sub_diag. }
  assert (forall p q : prog taskE unit, <[length ts1 := q]> (ts1 ++ [p])%list = (ts1 ++ [q])%list) as Hi.
  { intros q q'. rewrite insert_app_r_alt by done. by rewrite Nat.sub_diag. }
  eapply star_step; [eapply pstep_run with (s' := created) (r := Ok "1"); [apply Hl|done]|]. rewrite Hi.
  eapply star_step; [eapply pstep_run with (s' := created) (r := Ok 0); [apply Hl|done]|]. rewrite Hi.
  eapply star_step; [eapply pstep_run; [apply Hl|apply (answer_step _ (TAddMessage (message "msg_1") 1 "key-3") created)]|].
  constructor.
Qed.

Lemma closed_reachable ts : exists ts', star task_pool (posted, ts) (closed, ts').
Proof.
  eexists. apply (pool_run_alone task_op_step task_client answer late_cancel posted ts answer_step).
  constructor.
Qed.
End ReplayScenario.

Lemma commands_take_effect_once_witness :
  exists res, repo_add_message (ReplayScenario.message "msg_2") 7 "key-3" (ts_repo ReplayScenario.closed)
      = (ts_repo ReplayScenario.closed, res) /\
    exists x y l, res = Ok (x, y) /\ task_id x = "task_0" /\ msg_id y = "msg_1" /\
      _messages (ts_repo ReplayScenario.closed) !! "task_0" = Some l /\ y ∈ l.
Proof.
  destruct ReplayScenario.posted_reachable as [ts1 H1].
  destruct (ReplayScenario.closed_reachable ts1) as [ts2 H2].
  destruct (commands_take_effect_once TaskScenario.created ReplayScenario.posted ts1
    ReplayScenario.closed ts2 "key-3" H1 H2) as (_ & H & _).
  refine (H (ReplayScenario.message "msg_1") 1 {| task_id := "task_0";
    task_objective := "sort the mailbox"; task_state := TaskState.QUEUED; task_version := 2;
    task_created_at := 0 |} (ReplayScenario.message "msg_1") (ReplayScenario.message "msg_2") 7 _).
  split; [reflexivity|]. vm_compute. reflexivity.
Defined.

Lemma events_after_is_complete_witness :
  te_type <$> ts_events TaskScenario.gone = ["task.queued"; "task.cancelled"] /\
  events_after 1 (ts_events TaskScenario.gone) =
    (ts_events TaskScenario.gone, Ok (drop 1 (ts_events TaskScenario.gone))).
Proof.
  destruct TaskScenario.created_reachable as [ts1 H1].
  destruct (TaskScenario.gone_reachable ts1) as [ts2 H2].
  split; [vm_compute; reflexivity|].
  apply (events_after_is_complete TaskScenario.gone ts2 1). exact (star_trans _ _ _ _ H1 H2).
Defined.
