(* ===== verification/Runtime.v ===== *)
(** * Runtime: the durable task dispatcher

    Models [TaskRuntime] of [core/agent/runtime.py] and [LeaseKeepalive] of [core/jobs/lease.py]
    as seen by the worker.  The runtime composes the task service, the job queue, the run and
    checkpoint stores, the record store, the approvals, the tool gateway and the planner; each of
    them is reached through the operations below, so every interleaving with other workers is a
    choice of answers. *)

From stdpp Require Import sorting.
From S2P Require Import Prelude Text Json Schemas Domain Tools Approvals Agent Engine Decisions.
From S2P Require Import Workflows Records Governance JobQueue Tasks Monitor.
Local Open Scope string_scope.
Local Open Scope Z_scope.

Notation snapshot := (list (string * json)) (only parsing).

(** ** Operations *)

Inductive jobE : Type -> Type :=
| JClaim (worker_id : string) : jobE (option Job)
| JEnqueue (kind : string) (payload : list (string * json)) (key : string) : jobE Job
| JComplete (id worker_id : string) (value : json) : jobE unit
| JFail (id worker_id error_code : string) (retryable : bool) : jobE unit
| JRelease (id worker_id : string) : jobE unit.

(** What the worker needs from the planner, the registry, the gateway and the host.  A tool call
    runs in a task of its own: [IStart] creates it, [IWait] waits for it for a tenth of a second
    and says whether it is done, [IResult] awaits it and [ICancel] cancels and awaits it. *)
Inductive hostE : Type -> Type :=
| IStart (c : ToolCall) : hostE unit
| IDone : hostE bool
| IWait : hostE unit
| IResult : hostE ToolOutcome
| ICancel : hostE unit
| HRegistry : hostE RegistrySnapshot
| HPropose (objective : string) (messages : list string) (tools : list ToolDescriptor)
    (observations consent_id rules user_id : json) : hostE json
| HPolicyIdentity : hostE json
| HPendingDisclosure : hostE (option json)
| HPrepare (c : ToolCall) : hostE ToolCall
| HPaused : hostE bool
| HPollJob (payload : list (string * json)) (id : string) : hostE json
| HLeaseStart (job : string) : hostE unit
| HLeaseStop (job : string) : hostE unit
| HOwned (job : string) : hostE unit.

(** Runs and checkpoints, and the unit of work they are written in. *)
Inductive stateE : Type -> Type :=
| RunsGet (id : string) : stateE TaskRun
| RunsAdd (r : TaskRun) : stateE unit
| RunsSave (r : TaskRun) (expected_version : Z) : stateE unit
| CheckLoad (id : string) : stateE (list (string * json))
| CheckSave (r : TaskRun) (snap : list (string * json)) : stateE unit
| TxBegin : stateE unit
| TxCommit : stateE unit
| TxRollback : stateE unit.

Inductive rtE : Type -> Type :=
| RtTask {X} (op : taskE X) : rtE X
| RtJob {X} (op : jobE X) : rtE X
| RtState {X} (op : stateE X) : rtE X
| RtRecord {X} (op : recE X) : rtE X
| RtCommand {X} (op : cmdE X) : rtE X
| RtApproval {X} (op : apprE X) : rtE X
| RtHost {X} (op : hostE X) : rtE X.

#[global] Instance SubE_rt_task : SubE taskE rtE := fun X op => RtTask op.
#[global] Instance SubE_rt_job : SubE jobE rtE := fun X op => RtJob op.
#[global] Instance SubE_rt_state : SubE stateE rtE := fun X op => RtState op.
#[global] Instance SubE_rt_rec : SubE recE rtE := fun X op => RtRecord op.
#[global] Instance SubE_rt_cmd : SubE cmdE rtE := fun X op => RtCommand op.
#[global] Instance SubE_rt_appr : SubE apprE rtE := fun X op => RtApproval op.
#[global] Instance SubE_rt_host : SubE hostE rtE := fun X op => RtHost op.
#[global] Instance SubE_rt_env : SubE envE rtE := fun X op => RtTask (TEnv op).

(** ** The local variables of [advance]

    [run] and [snapshot] are assigned and mutated inside of a [try], and the handlers read them;
    a block of that method is a function of the locals that also says how they end up. *)

Record locals := { lv_run : TaskRun; lv_snapshot : list (string * json) }.

#[export] Instance locals_eta : Eta locals := fun l => Build_locals (lv_run l) (lv_snapshot l).

Definition L (A : Type) := locals -> prog rtE (locals * result A).

#[global] Instance L_ret : MRet L := fun A a l => Ret (l, Ok a).
#[global] Instance L_bind : MBind L := fun A B f m l =>
  prog_bind (fun lr => match lr with
                       | (l', Ok a) => f a l'
                       | (l', Err e) => Ret (l', Err e)
                       end) (m l).

(** An awaited call, whose exception is raised at this point of the block. *)
Definition await {A} (p : prog rtE A) : L A := fun l =>
  prog_match p (fun a => Ret (l, Ok a)) (fun e => Ret (l, Err e)).
Definition pure_L {A} (r : result A) : L A := fun l => Ret (l, r).
Definition the_run : L TaskRun := fun l => Ret (l, Ok (lv_run l)).
Definition the_snapshot : L (list (string * json)) := fun l => Ret (l, Ok (lv_snapshot l)).
Definition set_run (r : TaskRun) : L unit := fun l => Ret (l {{ lv_run := r }}, Ok tt).
(** A mutation of the snapshot. *)
Definition on_snapshot {A} (m : M (list (string * json)) A) : L A := fun l =>
  Ret (l {{ lv_snapshot := (m (lv_snapshot l)).1 }}, (m (lv_snapshot l)).2).

(** Outside of the [try], an exception leaves the method. *)
Definition leave {A} (m : L A) (l : locals) : prog rtE (locals * A) :=
  lr ← m l; match lr.2 with Ok a => Ret (lr.1, a) | Err e => Raise e end.

(** ** Calls in checkpoints *)

(** [sorted(frozenset)] *)
Definition str_le (a b : string) : Prop := String.leb a b = true.
#[global] Instance str_le_dec : RelDecision str_le.
Proof. intros a b. unfold str_le. apply _. Defined.

Definition sorted_set (l : list string) : list string := merge_sort str_le (remove_dups l).

Definition serialize_call (c : ToolCall) : json :=
  JObj [("tool_id", JStr (tc_tool_id c)); ("tool_version", JStr (tc_tool_version c));
        ("arguments", plain (tc_arguments c)); ("task_id", JStr (tc_task_id c));
        ("target", plain (tc_target c));
        ("attachments", JList (attachment_json <$> tc_attachments c));
        ("granted_capabilities", JList (JStr <$> sorted_set (tc_granted_capabilities c)));
        ("workflow_allowed_tools", JList (JStr <$> sorted_set (tc_workflow_allowed_tools c)));
        ("idempotency_key", opt_json (tc_idempotency_key c));
        ("form_version", opt_json (tc_form_version c));
        ("approval_id", opt_json (tc_approval_id c))].

Definition bad_field {A} (k : string) : result A := fail PyTypeError ("ill-typed checkpoint field " ++ k).

(** Fields of a checkpointed dataclass; a value of another type than the declared one is outside
    of the model of the dataclass and is reported as a [TypeError]. *)
Definition str_item (k : string) (d : list (string * json)) : result string :=
  v ← dict_item k d; match v with JStr s => Ok s | _ => bad_field k end.

Definition opt_str_item (k : string) (d : list (string * json)) : result (option string) :=
  match assoc k d with
  | None => Ok None
  | Some JNull => Ok None
  | Some (JStr s) => Ok (Some s)
  | Some _ => bad_field k
  end.

Definition strs_of (k : string) (v : json) : result (list string) :=
  l ← as_list v; result_map (fun x => match x with JStr s => Ok s | _ => bad_field k end) l.

Definition int_item (k : string) (d : list (string * json)) : result Z :=
  v ← dict_item k d; match v with JInt n => Ok n | _ => bad_field k end.

Definition _CALL_FIELDS : list string :=
  ["tool_id"; "tool_version"; "arguments"; "task_id"; "target"; "attachments";
   "granted_capabilities"; "workflow_allowed_tools"; "approval_id"; "idempotency_key";
   "form_version"].

(** [AttachmentDigest( **a)] *)
Definition restore_attachment (v : json) : result AttachmentDigest :=
  d ← as_dict v;
  _ ← raise_if (negb (keys_exactly d ["name"; "sha256"; "size_bytes"])) PyTypeError
        "unexpected keyword argument";
  name ← str_item "name" d;
  sha ← str_item "sha256" d;
  size ← int_item "size_bytes" d;
  make_attachment name sha size.

Definition restore_call (value : json) : result ToolCall :=
  d ← as_dict value;
  attachments ← (x ← dict_item "attachments" d; l ← as_list x; result_map restore_attachment l);
  granted ← (x ← dict_item "granted_capabilities" d; strs_of "granted_capabilities" x);
  tools ← (x ← dict_item "workflow_allowed_tools" d; strs_of "workflow_allowed_tools" x);
  _ ← raise_if (negb (keys_within d _CALL_FIELDS)
                || negb (forallb (fun k => mem_b k (keys d))
                           ["tool_id"; "tool_version"; "arguments"; "task_id"]))
        PyTypeError "unexpected or missing keyword argument";
  tool_id ← str_item "tool_id" d;
  tool_version ← str_item "tool_version" d;
  arguments ← dict_item "arguments" d;
  task_id ← str_item "task_id" d;
  approval_id ← opt_str_item "approval_id" d;
  idempotency_key ← opt_str_item "idempotency_key" d;
  form_version ← opt_str_item "form_version" d;
  check_call {| tc_tool_id := tool_id; tc_tool_version := tool_version; tc_arguments := arguments;
    tc_task_id := task_id; tc_target := default JNull (assoc "target" d);
    tc_attachments := attachments; tc_granted_capabilities := granted;
    tc_workflow_allowed_tools := tools; tc_approval_id := approval_id;
    tc_idempotency_key := idempotency_key; tc_form_version := form_version |}.

(** ** Guards *)

Definition get_or_null (k : string) (s : list (string * json)) : json := default JNull (assoc k s).

Definition ensure_workflow_binding (snap request : list (string * json)) : result unit :=
  match get_or_null "workflow_digest" snap with
  | JNull => Ok tt
  | pinned =>
      let conflict := fail WorkflowBindingConflict
        "workflow is already bound; create a new task to change its definition or mode" in
      if negb (py_eq (get_or_null "mode" request) (JStr "workflow")) then conflict
      else
        digest ← fingerprint (get_or_null "workflow" request);
        if negb (py_eq (JStr digest) pinned) then conflict else Ok tt
  end.

(** [a or b] *)
Definition json_or (a b : json) : json := if py_truth a then a else b.

(** [self.approvals.get(approval_id)] for whatever identifier the checkpoint has. *)
Definition approval_lookup (v : json) : prog rtE ApprovalRecord :=
  match v with
  | JStr i => Approvals.get i None true
  | _ => if hashable v then raise_prog NotFoundError "approval not found"
         else raise_prog PyTypeError "unhashable type"
  end.

Definition requires_reconciliation (snap : list (string * json)) (approval_reference : json)
  : prog rtE bool :=
  if py_truth (get_or_null "unresolved_external" snap) then Ret true
  else
    external ← of_result (in_set (get_or_null "risk" snap)
                            [risk_value EXTERNAL_WRITE; risk_code EXTERNAL_WRITE]);
    if negb external then Ret false
    else
      let pending := get_or_null "pending_call" snap in
      own ← of_result (if py_truth pending
                       then d ← as_dict pending; Ok (get_or_null "approval_id" d) else Ok JNull);
      let approval_id := json_or (json_or own (get_or_null "pending_approval_id" snap))
                           approval_reference in
      let rest (record : option ApprovalRecord) : prog rtE bool :=
        if py_eq (get_or_null "phase" snap) (JStr "dispatching") then Ret true
        else if negb (py_truth pending) then Ret false
        else
          match record with
          | None => Ret true
          | Some r => Ret (mem_b (ap_state r) [ApprovalState.EXECUTING; ApprovalState.UNKNOWN])
          end in
      if py_truth approval_id then
        prog_match (approval_lookup approval_id)
          (fun r => if bool_decide (ap_state r = ApprovalState.FAILED) then Ret false
                    else rest (Some r))
          (fun e => if exn_is e PyKeyError || exn_is e NotFoundError then Ret true else Raise e)
      else rest None.

(** ** The methods *)

Record runtime_config := {
  rt_has_uow : bool;
  rt_has_probe : bool;
  rt_has_prepare : bool;
  rt_has_poll : bool;
  rt_thresholds : FuseThresholds;
  rt_grants : Grants;
  rt_worker_id : string;
  rt_task : Z
}.

(** How a block of the loop ends. *)
Inductive flow := Continue | Return.

Definition review_message : string := "外部动作结果未决，禁止普通继续；请先核对原动作结果。".
Definition interrupted_message : string := "执行中断，需核对原操作；不会自动重复调用。".
Definition policy_message : string := "本次运行绑定的模型配置已改变；请建立新任务并重新核对披露。".
Definition pinned_message : string := "运行绑定的扩展或工具版本已改变，请核对后选择新的工作流运行。".
Definition frozen_message : string := "本机安全开关已冻结执行；解除后仍需明确继续。".
Definition denied_message : string :=
  "模型披露未获许可。材料已保留，请在披露预览中明确授权或选择本地模型。".
Definition rejected_message : string := "提案、材料或能力未通过校验；请补充输入或检查配置后继续。".
Definition binding_message : string := "工作流定义与原运行不兼容，原检查点已保留；请创建新任务。".
Definition failed_message : string :=
  "执行暂时失败，原检查点已保留；请检查配置后人工继续，外部动作不会自动重试。".

Section runtime.
Context (re_search : string -> string -> result bool) (cfg : runtime_config).

(** [async with self.scope(): body] *)
Definition scope {A} (body : prog rtE A) : prog rtE A :=
  if rt_has_uow cfg then
    _ ← call TxBegin;
    prog_match body (fun a => _ ← call TxCommit; Ret a) (fun e => _ ← call TxRollback; Raise e)
  else body.

Definition waiting_phase (state : TaskState.t) : json :=
  JStr (if bool_decide (state = TaskState.SUCCEEDED) then "complete" else "waiting").

(** What [finish] does to the snapshot before it writes. *)
Definition close_snapshot (state : TaskState.t) (s : list (string * json)) : list (string * json) :=
  assoc_set "phase" (waiting_phase state)
    (if bool_decide (state = TaskState.WAITING_RECONCILIATION)
     then assoc_set "unresolved_external" (JBool true) s else s).

Definition execution_value (r : TaskRun) (state : TaskState.t) (snap : list (string * json))
    (message : string) (reference : option string) : json :=
  JObj [("run_id", JStr (run_id r)); ("state", JStr (TaskState.value state));
        ("reference", opt_json reference); ("reason", JStr message);
        ("workflow", get_or_null "workflow" snap); ("cursor", get_or_null "cursor" snap);
        ("outputs", default (JObj []) (assoc "outputs" snap));
        ("result", get_or_null "result" snap)].

Definition version_of (old : option StoredRecord) : Z :=
  match old with Some r => rec_version r | None => 0 end.

(** The writes of [finish], in one scope. *)
Definition finish_writes (r updated : TaskRun) (state : TaskState.t) (snap : list (string * json))
    (message : string) (reference : option string) : prog rtE unit :=
  scope (
    _ ← call (RunsSave updated (run_version r));
    _ ← call (CheckSave updated snap);
    _ ← embed (project (run_task_id r) state);
    _ ← embed (assistant_message (run_task_id r) message
                 ("run-message:" ++ run_id r ++ ":" ++ str_of_Z (run_version updated)));
    old ← call (RGet "executions" (run_task_id r));
    _ ← call (RPut "executions" (run_task_id r) (execution_value r state snap message reference)
                (version_of old));
    Ret tt).

Definition finish (state : TaskState.t) (message : string) (reference : option string) : L unit :=
  r ← the_run;
  now ← await (call Now);
  updated ← pure_L (transition_run r state reference (Some message) now);
  _ ← on_snapshot (fun s => (close_snapshot state s, Ok tt));
  s ← the_snapshot;
  await (finish_writes r updated state s message reference).

(** *** [invoke_until_cancelled] *)

(** [operation.cancel(); with suppress(CancelledError): await operation] *)
Definition cancel_operation : prog rtE unit :=
  prog_try (call ICancel) (fun e => if exn_is e PyCancelledError then Ret tt else Raise e).

Definition interrupted_outcome (c : ToolCall) (risk : RiskLevel) : ToolOutcome :=
  if bool_decide (risk = EXTERNAL_WRITE) then
    outcome_unknown ("interrupted:" ++ str_or (tc_idempotency_key c) (tc_task_id c))
      (Some "外部调用已中止，结果需对账；不会自动重试。")
  else
    {| to_kind := ToolOutcomeKind.SAFETY_PAUSE; to_result := None;
       to_message := Some "任务取消或本机冻结已中止调用。"; to_reference_id := None;
       to_approval_id := None; to_extension_id := None; to_retryable := false |}.

Definition paused : prog rtE bool := if rt_has_probe cfg then call HPaused else Ret false.

Definition task_cancelled (task_id : string) : prog rtE bool :=
  t ← call (TGet task_id); Ret (bool_decide (task_state t = TaskState.CANCELLED)).

(** The polling loop; [None] when it is still waiting after [waits] turns. *)
Fixpoint await_operation (waits : nat) (c : ToolCall) (risk : RiskLevel) (owned : prog rtE unit)
  : prog rtE (option ToolOutcome) :=
  match waits with
  | O => Ret None
  | S waits =>
      finished ← call IDone;
      if (finished : bool) then o ← call IResult; Ret (Some o)
      else
        _ ← call IWait;
        finished ← call IDone;
        if (finished : bool) then o ← call IResult; Ret (Some o)
        else
          _ ← owned;
          gone ← task_cancelled (tc_task_id c);
          stop ← (if (gone : bool) then Ret true else paused);
          if (stop : bool) then
            _ ← cancel_operation; Ret (Some (interrupted_outcome c risk))
          else await_operation waits c risk owned
  end.

Definition invoke_until_cancelled (waits : nat) (c : ToolCall) (risk : RiskLevel)
    (owned : prog rtE unit) : prog rtE (option ToolOutcome) :=
  let cleanup := finished ← call IDone; if (finished : bool) then Ret tt else cancel_operation in
  _ ← call (IStart c);
  prog_match (await_operation waits c risk owned)
    (fun o => match o with Some _ => _ ← cleanup; Ret o | None => Ret None end)
    (fun e => _ ← cleanup; Raise e).

(** *** [advance]: one round *)

Definition workflow_proposal (request : list (string * json)) : L json :=
  definition ← pure_L (dict_item "workflow" request);
  inputs ← pure_L (as_dict (default (JObj []) (assoc "inputs" request)));
  on_snapshot (next_proposal re_search definition inputs).

Definition in_workflow (request : list (string * json)) : bool :=
  py_eq (get_or_null "mode" request) (JStr "workflow").

Definition agent_proposal (task_id : string) (tools : list ToolDescriptor)
    (request : list (string * json)) : L json :=
  r ← the_run;
  s ← the_snapshot;
  messages ← await (call (TMessages task_id));
  rules ← pure_L (dict_item "rules" s);
  await (call (HPropose (run_objective r)
    (msg_content <$> List.filter (fun m => negb (bool_decide (msg_actor m = "assistant"))) messages)
    tools (default (JList []) (assoc "observations" s)) (get_or_null "consent_id" request) rules
    (get_or_null "user_id" request))).

Definition resolve_call (c : ToolCall) : L ToolDescriptor :=
  reg ← await (call HRegistry);
  pure_L (resolve reg (tc_tool_id c) (tc_tool_version c)).

(** The call an approval was given for, now carrying that approval. *)
Definition approved_call : L ToolCall :=
  s ← the_snapshot;
  pending ← pure_L (dict_item "pending_call" s);
  c ← pure_L (restore_call pending);
  approval ← pure_L (str_item "approved_id" s);
  _ ← on_snapshot (pop_key "approved_id");
  pure_L (check_call (c {{ tc_approval_id := Some approval }})).

(** A fresh decision; [None] when it was not a tool call and the run has been finished. *)
Definition planned_call (task_id : string) (tools : list ToolDescriptor)
    (validator : DecisionValidator) (request : list (string * json)) : L (option ToolCall) :=
  proposal ← (if in_workflow request then workflow_proposal request
              else agent_proposal task_id tools request);
  _ ← on_snapshot (pop_key "model_disclosure");
  r ← the_run;
  decision ← pure_L (validate_decision re_search validator proposal r);
  match vd_kind decision, vd_tool_call decision with
  | CALL_TOOL, Some c =>
      c ← pure_L (check_call (c {{ tc_idempotency_key :=
            Some ("run:" ++ run_id r ++ ":round:" ++ str_of_Z (run_version r)) }}));
      descriptor ← resolve_call c;
      if bool_decide (td_risk descriptor = EXTERNAL_WRITE) then
        if negb (rt_has_prepare cfg)
        then pure_L (fail ValidationError "host authority preview is unavailable")
        else c ← await (call (HPrepare c)); mret (Some c)
      else mret (Some c)
  | CALL_TOOL, None => pure_L (fail PyException "AssertionError")
  | kind, _ =>
      let state := if bool_decide (kind = COMPLETE) then TaskState.SUCCEEDED
                   else TaskState.WAITING_USER in
      _ ← on_snapshot (set_key "result" (plain (vd_result decision)));
      _ ← finish state (str_or (vd_message decision) "等待输入") None;
      mret None
  end.

(** The marker that is made durable before a call. *)
Definition mark_dispatch (c : ToolCall) (risk : RiskLevel) (s : list (string * json))
  : list (string * json) :=
  assoc_set "pending_call" (serialize_call c)
    (assoc_set "risk" (JStr (risk_value risk)) (assoc_set "phase" (JStr "dispatching") s)).

Definition dispatch (c : ToolCall) (risk : RiskLevel) : L unit :=
  _ ← on_snapshot (fun s => (mark_dispatch c risk s, Ok tt));
  r ← the_run;
  s ← the_snapshot;
  r' ← pure_L (check_run (r {{ run_version := run_version r + 1 }}));
  _ ← await (scope (_ ← call (RunsSave r' (run_version r)); call (CheckSave r' s)));
  set_run r'.

(** [int(v)] for the numbers a checkpoint can hold. *)
Definition py_int (v : json) : result Z :=
  match v with
  | JInt n => Ok n
  | JBool b => Ok (if (b : bool) then 1 else 0)
  | _ => fail PyTypeError "int() argument"
  end.

(** The last [n] elements. *)
Definition last_n {A} (n : nat) (l : list A) : list A := drop (length l - n) l.

(** What an outcome that does not suspend the run leaves in the snapshot. *)
Definition observe_outcome (workflow : bool) (o : ToolOutcome) (s : list (string * json))
  : result (list (string * json)) :=
  let value := plain (default JNull (to_result o)) in
  let s := assoc_del "pending_call" s in
  seen ← as_list (default (JList []) (assoc "observations" s));
  let s := assoc_set "observations" (JList (last_n 16 (seen ++ [value])%list)) s in
  if workflow && bool_decide (to_kind o = ToolOutcomeKind.SUCCESS) then
    cursor ← py_int (default (JInt 0) (assoc "cursor" s));
    let s := assoc_set "cursor" (JInt (cursor + 1)) s in
    outputs ← as_dict (default (JObj []) (assoc "outputs" s));
    match default (JStr "result") (assoc "step_id" s) with
    | JStr step => Ok (assoc_del "step_id" (assoc_set "outputs" (JObj (assoc_set step value outputs)) s))
    | _ => fail PyTypeError "step id is not a string"
    end
  else Ok s.

Definition record_outcome (c : ToolCall) (o : ToolOutcome) (workflow : bool) : L flow :=
  s ← the_snapshot;
  s' ← pure_L (observe_outcome workflow o s);
  _ ← on_snapshot (fun _ => (s', Ok tt));
  r ← the_run;
  now ← await (call Now);
  r' ← pure_L (record_progress r c o now);
  _ ← await (scope (_ ← call (RunsSave r' (run_version r)); call (CheckSave r' s')));
  _ ← set_run r';
  mret Continue.

(** From the outcome on. *)
Definition after_outcome (c : ToolCall) (o : ToolOutcome) (request : list (string * json))
    (owned : prog rtE unit) : L (option flow) :=
  _ ← await owned;
  _ ← on_snapshot (set_key "phase" (JStr "observed"));
  _ ← (if bool_decide (to_kind o = ToolOutcomeKind.APPROVAL_REQUIRED)
       then on_snapshot (set_key "pending_approval_id" (opt_json (to_approval_id o)))
       else mret tt);
  match waiting_state (to_kind o) with
  | Some waiting =>
      _ ← finish waiting (str_or (to_message o) (TaskState.value waiting))
            (if truthy (to_approval_id o) then to_approval_id o else to_reference_id o);
      mret (Some Return)
  | None => f ← record_outcome c o (in_workflow request); mret (Some f)
  end.

(** The body of the [try]: a call is chosen, marked, made and its outcome recorded. *)
Definition round_body (waits : nat) (task_id : string) (tools : list ToolDescriptor)
    (validator : DecisionValidator) (request : list (string * json)) (owned : prog rtE unit)
  : L (option flow) :=
  s ← the_snapshot;
  chosen ← (if py_truth (get_or_null "approved_id" s) && py_truth (get_or_null "pending_call" s)
            then c ← approved_call; mret (Some c)
            else planned_call task_id tools validator request);
  match chosen with
  | None => mret (Some Return)
  | Some c =>
      _ ← await owned;
      descriptor ← resolve_call c;
      _ ← dispatch c (td_risk descriptor);
      gone ← await (task_cancelled task_id);
      if (gone : bool) then mret (Some Return)
      else
        outcome ← await (invoke_until_cancelled waits c (td_risk descriptor) owned);
        match outcome with
        | None => mret None
        | Some o => after_outcome c o request owned
        end
  end.

(** The [except] clauses of the round. *)
Definition round_handler (e : exn) : L (option flow) :=
  if exn_is e DisclosureDenied then
    pending ← await (call HPendingDisclosure);
    _ ← match pending with
        | Some v => on_snapshot (set_key "model_disclosure" v)
        | None => mret tt
        end;
    _ ← finish TaskState.WAITING_USER denied_message None;
    mret (Some Return)
  else if exn_is e ValidationError || exn_is e NotFoundError then
    _ ← finish TaskState.WAITING_USER rejected_message None;
    mret (Some Return)
  else pure_L (Err e).

Definition round (waits : nat) (task_id : string) (tools : list ToolDescriptor)
    (validator : DecisionValidator) (request : list (string * json)) (owned : prog rtE unit)
  : L (option flow) := fun l =>
  prog_bind (fun lr => match lr with
                       | (l', Ok f) => Ret (l', Ok f)
                       | (l', Err e) => round_handler e l'
                       end) (round_body waits task_id tools validator request owned l).

(** The checks of the loop before the [try]: [true] when the method returns. *)
Definition before_round (task_id : string) (owned : prog rtE unit) : L bool :=
  _ ← await owned;
  frozen ← await paused;
  if (frozen : bool) then _ ← finish TaskState.PAUSED_SAFETY frozen_message None; mret true
  else
    gone ← await (task_cancelled task_id);
    r ← the_run;
    if (gone : bool) then
      now ← await (call Now);
      r' ← pure_L (transition_run r TaskState.CANCELLED None None now);
      _ ← await (call (RunsSave r' (run_version r)));
      mret true
    else
      reason ← await (fuse_check (rt_thresholds cfg) r);
      match reason with
      | Some why => _ ← finish TaskState.PAUSED_SAFETY why None; mret true
      | None => mret false
      end.

(** The [while] loop; [false] when the fuel ran out first. *)
Fixpoint advance_loop (fuel waits : nat) (task_id : string) (tools : list ToolDescriptor)
    (validator : DecisionValidator) (request : list (string * json)) (owned : prog rtE unit)
    (l : locals) : prog rtE bool :=
  match fuel with
  | O => Ret false
  | S fuel =>
      if negb (bool_decide (run_state (lv_run l) = TaskState.RUNNING)) then Ret true
      else
        stopped ← leave (before_round task_id owned) l;
        if (stopped.2 : bool) then Ret true
        else
          next ← leave (round waits task_id tools validator request owned) stopped.1;
          match next.2 with
          | None => Ret false
          | Some Return => Ret true
          | Some Continue => advance_loop fuel waits task_id tools validator request owned next.1
          end
  end.

(** *** [advance]: from the job to the loop *)

Definition fresh_run (t : Task) (now : time) : TaskRun :=
  {| run_id := "run_" ++ task_id t; run_task_id := task_id t; run_objective := task_objective t;
     run_state := TaskState.RUNNING; run_version := 0; segment_number := 1;
     active_started_at := now; updated_at := now; consecutive_errors := 0;
     no_progress_rounds := 0; same_call_without_progress := 0; last_call_fingerprint := None;
     last_observation_fingerprint := None; waiting_reference := None; pause_reason := None |}.

Definition load_run (t : Task) : prog rtE TaskRun :=
  prog_try (call (RunsGet ("run_" ++ task_id t)))
    (fun e => if exn_is e PyKeyError || exn_is e NotFoundError then
                now ← call Now;
                r ← of_result (check_run (fresh_run t now));
                _ ← call (RunsAdd r);
                Ret r
              else Raise e).

(** Whether a waiting run may go on, and with which snapshot. *)
Definition may_resume (r : TaskRun) (resume : bool) (approval_id : json)
    (s : list (string * json)) : prog rtE (option (list (string * json))) :=
  if negb resume then Ret None
  else if bool_decide (run_state r = TaskState.WAITING_APPROVAL) then
    if negb (py_eq approval_id (opt_json (waiting_reference r))) then Ret None
    else
      record ← approval_lookup (json_or approval_id (JStr ""));
      if negb (bool_decide (ap_state record = ApprovalState.APPROVED)) then Ret None
      else Ret (Some (assoc_set "approved_id" approval_id s))
  else if mem_b (run_state r)
            [TaskState.WAITING_USER; TaskState.PAUSED_EXTENSION; TaskState.PAUSED_SAFETY]
  then Ret (Some s) else Ret None.

(** The new segment of a resumed run. *)
Definition reopen (r : TaskRun) : prog rtE TaskRun :=
  now ← call Now;
  queued ← of_result (resume_as_new_segment r now);
  _ ← call (RunsSave queued (run_version r));
  now ← call Now;
  r' ← of_result (transition_run queued TaskState.RUNNING None None now);
  _ ← call (RunsSave r' (run_version queued));
  Ret r'.

Definition identity (d : ToolDescriptor) : json :=
  JObj [("version", JStr (td_version d)); ("extension_version", opt_json (td_extension_version d));
        ("grants", JList (JStr <$> sorted_set (match rt_grants cfg with
                                               | GrantAll caps => caps
                                               | GrantByTool m => default [] (assoc (td_id d) m)
                                               end)))].

Definition identities (ds : list ToolDescriptor) : list (string * json) :=
  fold_left (fun acc d => assoc_set (td_id d) (identity d) acc) ds [].

(** [any(identities.get(key) != identity for key, identity in pinned.items())] *)
Definition tools_changed (ids pinned : list (string * json)) : bool :=
  existsb (fun kv => negb (py_eq (get_or_null kv.1 ids) kv.2)) pinned.

Definition pin_rules (request : list (string * json)) : L unit :=
  s ← the_snapshot;
  match assoc "rules" s with
  | Some _ => mret tt
  | None =>
      flow ← pure_L (let w := get_or_null "workflow" request in
                     if py_truth w then as_dict w else Ok []);
      rules ← await (rules_snapshot [("category", JStr "general");
                       ("workflow_id", get_or_null "id" flow);
                       ("extension_id", get_or_null "extension_id" flow)]);
      on_snapshot (set_key "rules" (JList (record_json <$> rules)))
  end.

(** The model policy and the tools the run is pinned to: [None] when the run was stopped. *)
Definition pin_tools : L (option (list ToolDescriptor)) :=
  policy ← await (call HPolicyIdentity);
  s ← the_snapshot;
  changed ← match assoc "model_policy" s with
            | None => _ ← on_snapshot (set_key "model_policy" policy); mret false
            | Some bound => mret (negb (py_eq bound policy))
            end;
  if (changed : bool) then _ ← finish TaskState.WAITING_USER policy_message None; mret None
  else
    reg ← await (call HRegistry);
    let current := descriptors reg in
    let ids := identities current in
    s ← the_snapshot;
    stale ← match get_or_null "tools" s with
            | JNull => _ ← on_snapshot (set_key "tools" (JObj ids)); mret false
            | pinned => d ← pure_L (as_dict pinned); mret (tools_changed ids d)
            end;
    if (stale : bool) then _ ← finish TaskState.PAUSED_EXTENSION pinned_message None; mret None
    else
      s ← the_snapshot;
      pinned ← pure_L (x ← dict_item "tools" s; as_dict x);
      mret (Some (List.filter (fun d => mem_b (td_id d) (keys pinned)) current)).

(** The rest of the method, on a run that is to be executed. *)
Definition execute_run (fuel waits : nat) (task_id : string) (owned : prog rtE unit) (l : locals)
  : prog rtE bool :=
  _ ← embed (project task_id TaskState.RUNNING);
  request_record ← call (RGet "requests" task_id);
  request ← of_result (match request_record with
                       | Some r => as_dict (rec_value r)
                       | None => Ok [("mode", JStr "agent")]
                       end);
  _ ← of_result (ensure_workflow_binding (lv_snapshot l) request);
  ready ← leave (_ ← pin_rules request; pin_tools) l;
  match ready.2 with
  | None => Ret true
  | Some tools =>
      let validator := {| dv_descriptors := tools; dv_grants := rt_grants cfg |} in
      advance_loop fuel waits task_id tools validator request owned ready.1
  end.

Definition advance (fuel waits : nat) (task_id : string) (resume : bool) (approval_id : json)
    (owned : prog rtE unit) : prog rtE bool :=
  task ← call (TGet task_id);
  if mem_b (task_state task) [TaskState.CANCELLED; TaskState.SUCCEEDED; TaskState.FAILED]
  then Ret true
  else
    r ← load_run task;
    s ← call (CheckLoad ("run_" ++ Domain.task_id task));
    unresolved ← requires_reconciliation s (opt_json (waiting_reference r));
    if (unresolved : bool) || py_eq (get_or_null "phase" s) (JStr "dispatching") then
      if bool_decide (run_state r = TaskState.RUNNING) then
        _ ← leave (finish (if (unresolved : bool) then TaskState.WAITING_RECONCILIATION
                           else TaskState.WAITING_USER) interrupted_message None)
              {| lv_run := r; lv_snapshot := s |};
        Ret true
      else Ret true
    else if bool_decide (run_state r = TaskState.RUNNING) then
      execute_run fuel waits task_id owned {| lv_run := r; lv_snapshot := s |}
    else
      resumed ← may_resume r resume approval_id s;
      match resumed with
      | None => Ret true
      | Some s => r' ← reopen r;
                  execute_run fuel waits task_id owned {| lv_run := r'; lv_snapshot := s |}
      end.

(** *** [work_once] *)

Definition ensure_owned (job : Job) : prog rtE unit := call (HOwned (job_id job)).

(** [LeaseKeepalive.__aexit__]: the heartbeat ends and the lease is given back. *)
Definition lease_exit (job : Job) : prog rtE unit :=
  _ ← call (HLeaseStop (job_id job));
  prog_try (call (JRelease (job_id job) (rt_worker_id cfg)))
    (fun e => if exn_is e LeaseConflict then Ret tt else Raise e).

(** [async with LeaseKeepalive(...) as lease: body] *)
Definition with_lease {A} (job : Job) (body : prog rtE A) : prog rtE A :=
  _ ← call (HLeaseStart (job_id job));
  prog_match body
    (fun a => _ ← lease_exit job; _ ← ensure_owned job; Ret a)
    (fun e => _ ← lease_exit job; Raise e).

Definition payload_task (job : Job) : option string :=
  match assoc "task_id" (job_payload job) with Some (JStr i) => Some i | _ => None end.

(** The body of the [try]; [false] when [advance] ran out of fuel. *)
Definition serve_job (fuel waits : nat) (job : Job) : prog rtE bool :=
  if bool_decide (job_kind job = "event.poll") then
    if negb (rt_has_poll cfg)
    then raise_prog ValidationError "this worker has no event source grant"
    else
      value ← call (HPollJob (job_payload job) (job_id job));
      _ ← ensure_owned job;
      _ ← call (JComplete (job_id job) (rt_worker_id cfg) value);
      Ret true
  else
    match payload_task job with
    | None => raise_prog ValidationError "job has no task identity"
    | Some task_id =>
        finished ← advance fuel waits task_id (negb (bool_decide (job_kind job = "agent.start")))
                     (get_or_null "approval_id" (job_payload job)) (ensure_owned job);
        if negb finished then Ret false
        else
          _ ← ensure_owned job;
          _ ← call (JComplete (job_id job) (rt_worker_id cfg) (JObj [("task_id", JStr task_id)]));
          Ret true
    end.

Definition finish_now (r : TaskRun) (s : list (string * json)) (state : TaskState.t)
    (message : string) : prog rtE unit :=
  _ ← leave (finish state message None) {| lv_run := r; lv_snapshot := s |}; Ret tt.

Definition fail_dispatch (job : Job) (code : string) : prog rtE unit :=
  call (JFail (job_id job) (rt_worker_id cfg) code false).

(** The [except] clauses. *)
Definition job_handler (job : Job) (e : exn) : prog rtE unit :=
  if exn_is e PyCancelledError || exn_is e LeaseConflict then Raise e
  else if exn_is e WorkflowBindingConflict then
    i ← of_result (str_item "task_id" (job_payload job));
    r ← call (RunsGet ("run_" ++ i));
    _ ← (if bool_decide (run_state r = TaskState.RUNNING) then
           s ← call (CheckLoad (run_id r));
           finish_now r s TaskState.WAITING_USER binding_message
         else Ret tt);
    fail_dispatch job "WORKFLOW_BINDING_CONFLICT"
  else if exn_is e ConcurrentModificationError then
    call (JComplete (job_id job) (rt_worker_id cfg) (JObj [("superseded", JBool true)]))
  else
    _ ← match payload_task job with
        | Some i =>
            r ← call (RunsGet ("run_" ++ i));
            if bool_decide (run_state r = TaskState.RUNNING) then
              s ← call (CheckLoad (run_id r));
              unresolved ← requires_reconciliation s JNull;
              finish_now r s (if (unresolved : bool) then TaskState.WAITING_RECONCILIATION
                              else TaskState.WAITING_USER) failed_message
            else Ret tt
        | None => Ret tt
        end;
    fail_dispatch job "TASK_DISPATCH_FAILED".

(** [None] when the fuel ran out, else whether there was a job. *)
Definition work_once (fuel waits : nat) : prog rtE (option bool) :=
  claimed ← call (JClaim (rt_worker_id cfg));
  match claimed with
  | None => Ret (Some false)
  | Some job =>
      with_lease job
        (if negb (mem_b (job_kind job) ["agent.start"; "agent.resume"; "agent.approval"; "event.poll"])
         then _ ← fail_dispatch job "UNSUPPORTED_JOB"; Ret (Some true)
         else
           prog_match (serve_job fuel waits job)
             (fun finished => Ret (if (finished : bool) then Some true else None))
             (fun e => _ ← job_handler job e; Ret (Some true)))
  end.

(** *** [request] *)

Definition request_value (task_id : string) (version : json) (mode : string)
    (workflow inputs consent_id user_id : json) : list (string * json) :=
  [("task_id", JStr task_id); ("version", version); ("mode", JStr mode); ("workflow", workflow);
   ("inputs", inputs); ("consent_id", consent_id); ("user_id", user_id)].

Definition resumable_states : list TaskState.t :=
  [TaskState.QUEUED; TaskState.WAITING_USER; TaskState.PAUSED_EXTENSION; TaskState.PAUSED_SAFETY].

(** The workflow and inputs as they are stored: answers to the same definition accumulate. *)
Definition bind_request (mode : string) (workflow : json) (inputs previous request : list (string * json))
  : result (list (string * json)) :=
  if bool_decide (mode = "workflow") then
    wf ← validate_workflow workflow;
    let request := assoc_set "workflow" (JObj wf) request in
    if py_eq (get_or_null "workflow" previous) (JObj wf) then
      before ← as_dict (default (JObj []) (assoc "inputs" previous));
      Ok (assoc_set "inputs" (JObj (merge_dict before inputs)) request)
    else Ok request
  else Ok request.

Definition enqueue_request (id : string) (task : Task) (key : string) : prog rtE Job :=
  let payload := [("task_id", JStr id)] in
  let resume := call (JEnqueue "agent.resume" payload ("resume:" ++ key)) in
  if bool_decide (task_state task = TaskState.QUEUED) then
    job ← call (JEnqueue "agent.start" payload ("task-start:" ++ id));
    if mem_b (job_state job) [JobState.READY; JobState.LEASED] then Ret job else resume
  else resume.

Definition apply_request (id : string) (version : json) (mode : string) (workflow : json)
    (inputs request : list (string * json)) (key : string) : prog rtE json :=
  task ← call (TGet id);
  if negb (bool_decide (version = JInt (task_version task)))
  then raise_prog ConcurrentModificationError "task version changed; keep local inputs"
  else if negb (mem_b (task_state task) resumable_states)
  then raise_prog ValidationError "task cannot be resumed before its pending action is resolved"
  else if negb (mem_b mode ["agent"; "workflow"])
          || (bool_decide (mode = "workflow") && negb (py_truth workflow))
  then raise_prog ValidationError "select a valid execution mode and workflow"
  else
    s ← call (CheckLoad ("run_" ++ id));
    unresolved ← requires_reconciliation s JNull;
    if (unresolved : bool) then raise_prog ValidationError review_message
    else
      old ← call (RGet "requests" id);
      previous ← of_result (match old with Some r => as_dict (rec_value r) | None => Ok [] end);
      bound ← of_result (bind_request mode workflow inputs previous request);
      _ ← of_result (ensure_workflow_binding s bound);
      _ ← call (RPut "requests" id (JObj bound) (version_of old));
      job ← scope (_ ← embed (project id TaskState.QUEUED); enqueue_request id task key);
      Ret (JObj [("task_id", JStr id); ("job_id", JStr (job_id job)); ("accepted", JBool true)]).

Definition request_run (id : string) (version : json) (mode key : string) (workflow : json)
    (inputs : list (string * json)) (consent_id user_id : json) : prog rtE json :=
  let request := request_value id version mode workflow (JObj inputs) consent_id user_id in
  command (rt_task cfg) key (JObj request) (apply_request id version mode workflow inputs request key).

End runtime.

(** ** Checkpointed calls come back as they were *)

Lemma plain_id v : plain v = v.
Proof.
  induction v as [|b|n|f|s|l IH|l IH|ty] using json_nested_ind; simpl; try done; f_equal.
  - induction IH as [|x l Hx _ IHl]; csimpl; [done|]. by rewrite Hx, IHl.
  - induction IH as [|[k x] l Hx _ IHl]; csimpl in *; [done|]. by rewrite Hx, IHl.
Qed.

Lemma restore_attachments l :
  Forall (fun a => make_attachment (att_name a) (att_sha256 a) (att_size_bytes a) = Ok a) l ->
  result_map restore_attachment (attachment_json <$> l) = Ok l.
Proof.
  induction 1 as [|a l Ha _ IH]; [done|].
  rewrite fmap_cons. cbn [result_map]. rewrite IH.
  unfold restore_attachment at 1. simpl. rewrite Ha. done.
Qed.

Lemma strs_of_list k l : strs_of k (JList (JStr <$> l)) = Ok l.
Proof.
  unfold strs_of. simpl. induction l as [|s l IH]; [done|].
  rewrite fmap_cons. cbn [result_map]. rewrite IH. done.
Qed.

Lemma opt_str_item_opt k d o : assoc k d = Some (opt_json o) -> opt_str_item k d = Ok o.
Proof. unfold opt_str_item. intros ->. by destruct o. Qed.

(** The sets of a call, in the order a checkpoint gives them. *)
Definition with_sorted_sets (c : ToolCall) : ToolCall :=
  c {{ tc_granted_capabilities := sorted_set (tc_granted_capabilities c);
       tc_workflow_allowed_tools := sorted_set (tc_workflow_allowed_tools c) }}.

Lemma sorted_set_elem l x : x ∈ sorted_set l <-> x ∈ l.
Proof. unfold sorted_set. rewrite merge_sort_Permutation. apply elem_of_remove_dups. Qed.

Lemma restore_serialized c :
  check_call c = Ok c ->
  Forall (fun a => make_attachment (att_name a) (att_sha256 a) (att_size_bytes a) = Ok a)
    (tc_attachments c) ->
  restore_call (serialize_call c) = Ok (with_sorted_sets c).
Proof.
  intros Hc Ha. unfold restore_call, serialize_call. cbn [as_dict mbind result_bind].
  rewrite !plain_id. simpl. rewrite restore_attachments by done. simpl.
  rewrite strs_of_list. simpl. rewrite strs_of_list. simpl.
  rewrite (opt_str_item_opt "approval_id" _ (tc_approval_id c)) by done. simpl.
  rewrite (opt_str_item_opt "idempotency_key" _ (tc_idempotency_key c)) by done. simpl.
  rewrite (opt_str_item_opt "form_version" _ (tc_form_version c)) by done. simpl.
  revert Hc. unfold check_call. simpl. by destruct (_ || _).
Qed.

(** A call that waits for its approval comes back from the checkpoint unchanged: restoring a
    serialised call gives the same tool, version, arguments, target, attachments, task and keys,
    and sets with the same elements, so the approval granted for it still matches. *)
Theorem checkpointed_calls_round_trip c :
  check_call c = Ok c ->
  Forall (fun a => make_attachment (att_name a) (att_sha256 a) (att_size_bytes a) = Ok a)
    (tc_attachments c) ->
  exists c', restore_call (serialize_call c) = Ok c' /\
    c' {{ tc_granted_capabilities := tc_granted_capabilities c;
          tc_workflow_allowed_tools := tc_workflow_allowed_tools c }} = c /\
    (forall x, x ∈ tc_granted_capabilities c' <-> x ∈ tc_granted_capabilities c) /\
    (forall x, x ∈ tc_workflow_allowed_tools c' <-> x ∈ tc_workflow_allowed_tools c).
Proof.
  intros Hc Ha. exists (with_sorted_sets c). split; [by apply restore_serialized|].
  split; [by destruct c|]. split; intros x; apply sorted_set_elem.
Qed.

Module CallScenario.
Definition attachment : AttachmentDigest := {| att_name := "report.pdf";
  att_sha256 := "e3b0c44298fc1c149afbf4c8996fb92427ae41e4649b934ca495991b7852b855";
  att_size_bytes := 0 |}.
Definition submit : ToolCall := {| tc_tool_id := "ehall.submit"; tc_tool_version := "2";
  tc_arguments := JObj [("form", JInt 7)]; tc_task_id := "t1"; tc_target := JStr "form-7";
  tc_attachments := [attachment]; tc_granted_capabilities := ["net"; "forms"; "net"];
  tc_workflow_allowed_tools := ["ehall.submit"]; tc_approval_id := Some "appr-1";
  tc_idempotency_key := Some "k"; tc_form_version := None |}.
End CallScenario.

Lemma checkpointed_calls_round_trip_witness :
  exists c', restore_call (serialize_call CallScenario.submit) = Ok c' /\
    tc_arguments c' = JObj [("form", JInt 7)] /\ "forms" ∈ tc_granted_capabilities c'.
Proof.
  destruct (checkpointed_calls_round_trip CallScenario.submit) as (c' & Hr & Hc & Hg & _).
  - vm_compute. reflexivity.
  - constructor; [vm_compute; reflexivity|constructor].
  - exists c'. split; [exact Hr|]. split; [exact (f_equal tc_arguments Hc)|].
    apply Hg. simpl. right. left.
Defined.
