(* ===== verification/RuntimeSafety.v ===== *)
(** * RuntimeSafety: the dispatch discipline of the task runtime

    A monitor follows what the durable stores hold along a trace of the runtime: the last
    checkpoint that survives a crash, and whether the last read of the task found it alive. *)

From S2P Require Import Prelude Text Json Schemas Domain Tools Approvals Agent Engine Decisions.
From S2P Require Import Workflows Records Governance JobQueue Tasks Monitor Runtime.
Local Open Scope string_scope.
Local Open Scope Z_scope.

Record watch := {
  w_disk : option (list (string * json));            (* the last durable checkpoint *)
  w_tx : option (option (list (string * json)));     (* an open transaction and its checkpoint *)
  w_registry : option RegistrySnapshot;              (* the registry as last seen *)
  w_alive : bool;                                    (* the last operation saw a live task *)
  w_blocked : bool                                   (* the loaded checkpoint forbids new calls *)
}.
#[export] Instance watch_eta : Eta watch := fun w =>
  Build_watch (w_disk w) (w_tx w) (w_registry w) (w_alive w) (w_blocked w).

Definition first_watch : watch :=
  {| w_disk := None; w_tx := None; w_registry := None; w_alive := false; w_blocked := true |}.

(** A checkpoint of an interrupted call or of an unresolved external action. *)
Definition interrupted (s : list (string * json)) : bool :=
  py_truth (get_or_null "unresolved_external" s)
  || py_eq (get_or_null "phase" s) (JStr "dispatching").

(** The marker of the call [c] of risk [risk]. *)
Definition marked (c : ToolCall) (risk : RiskLevel) (s : list (string * json)) : Prop :=
  assoc "phase" s = Some (JStr "dispatching") /\ assoc "risk" s = Some (JStr (risk_value risk)) /\
  assoc "pending_call" s = Some (serialize_call c).

(** A call may start when its marker is durable, the task was just seen alive, and the checkpoint
    this turn started from was not that of an interrupted call. *)
Definition may_start (w : watch) (c : ToolCall) : Prop :=
  w_blocked w = false /\ w_alive w = true /\ w_tx w = None /\
  exists s reg d, w_disk w = Some s /\ w_registry w = Some reg /\
    resolve reg (tc_tool_id c) (tc_tool_version c) = Ok d /\ marked c (td_risk d) s.

Definition rt_ok (X : Type) (w : watch) (op : rtE X) : Prop :=
  match op with
  | RtHost (IStart c) => may_start w c
  | RtHost (HPropose _ _ _ _ _ _ _) => w_blocked w = false
  | _ => True
  end.

Definition state_next {X} (w : watch) (op : stateE X) : result X -> watch :=
  match op in stateE X return result X -> watch with
  | CheckLoad _ => fun ans =>
      match ans with Ok s => w {{ w_blocked := interrupted s }} | Err _ => w end
  | CheckSave _ s => fun ans =>
      match ans, w_tx w with
      | Ok _, None => w {{ w_disk := Some s }}
      | Ok _, Some _ => w {{ w_tx := Some (Some s) }}
      | Err _, _ => w
      end
  | TxBegin => fun ans => match ans with Ok _ => w {{ w_tx := Some None }} | Err _ => w end
  | TxCommit => fun ans =>
      match ans, w_tx w with
      | Ok _, Some (Some s) => w {{ w_disk := Some s; w_tx := None }}
      | _, _ => w {{ w_tx := None }}
      end
  | TxRollback => fun _ => w {{ w_tx := None }}
  | _ => fun _ => w
  end.

Definition task_next {X} (w : watch) (op : taskE X) : result X -> watch :=
  match op in taskE X return result X -> watch with
  | TGet _ => fun ans =>
      match ans with
      | Ok t => w {{ w_alive := negb (bool_decide (task_state t = TaskState.CANCELLED)) }}
      | Err _ => w
      end
  | _ => fun _ => w
  end.

Definition host_next {X} (w : watch) (op : hostE X) : result X -> watch :=
  match op in hostE X return result X -> watch with
  | HRegistry => fun ans =>
      match ans with Ok reg => w {{ w_registry := Some reg }} | Err _ => w end
  | _ => fun _ => w
  end.

Definition rt_next (X : Type) (w : watch) (op : rtE X) : result X -> watch :=
  let w := w {{ w_alive := false }} in
  match op in rtE X return result X -> watch with
  | RtState op => state_next w op
  | RtTask op => task_next w op
  | RtHost op => host_next w op
  | _ => fun _ => w
  end.

Notation rwp := (mwp rt_ok rt_next).
Notation rkeeps := (keeps rt_ok rt_next).

(** ** Programs that start nothing *)

(** No transaction is open and the run is, or is not, blocked. *)
Definition calm (b : bool) (w : watch) : Prop := w_tx w = None /\ w_blocked w = b.

Definition in_tx (b : bool) (w : watch) : Prop := is_Some (w_tx w) /\ w_blocked w = b.

(** Operations that touch neither checkpoints nor calls. *)
Definition inert {X} (op : rtE X) : Prop :=
  match op with
  | RtHost (IStart _) | RtHost (HPropose _ _ _ _ _ _ _) => False
  | RtState op => match op with RunsGet _ | RunsAdd _ | RunsSave _ _ => True | _ => False end
  | _ => True
  end.

Lemma inert_next {X} (op : rtE X) w ans : inert op ->
  rt_ok X w op /\ w_tx (rt_next X w op ans) = w_tx w /\ w_blocked (rt_next X w op ans) = w_blocked w /\
  w_disk (rt_next X w op ans) = w_disk w.
Proof.
  destruct op as [X op|X op|X op|X op|X op|X op|X op]; simpl; try done.
  - destruct op; simpl; try done. by destruct ans.
  - by destruct op; simpl.
  - destruct op; simpl; try done. by destruct ans.
Qed.

(** Predicates that such operations keep. *)
Definition stable (I : watch -> Prop) : Prop := forall w w',
  w_tx w' = w_tx w -> w_blocked w' = w_blocked w -> w_disk w' = w_disk w -> I w -> I w'.

Lemma stable_calm b : stable (calm b).
Proof. intros w w' Ht Hb _ [??]. split; congruence. Qed.

Lemma stable_in_tx b : stable (in_tx b).
Proof. intros w w' Ht Hb _ [??]. split; [by rewrite Ht|congruence]. Qed.

#[local] Hint Resolve stable_calm stable_in_tx : pa.

Lemma stable_call {E X} `{SubE E rtE} (op : E X) I : stable I -> inert (inject X op) ->
  rkeeps I (call op).
Proof.
  intros HI Hi. apply keeps_perform. intros w Hw.
  split; [by apply (inert_next (inject X op) w (Err cancelled))|].
  intros ans. destruct (inert_next (inject X op) w ans Hi) as (_ & H1 & H2 & H3).
  by apply (HI w).
Qed.

Lemma stable_embed {A} (p : prog taskE A) I : stable I -> rkeeps I (embed p).
Proof.
  intros HI. induction p as [a|e|X op k IH]; simpl; [apply keeps_ret|apply keeps_raise|].
  intros w Hw. split; [done|]. intros ans. apply IH.
  destruct (inert_next (RtTask op) w ans) as (_ & H1 & H2 & H3); [done|]. by apply (HI w).
Qed.

(** Walks through a program whose operations are all inert. *)
Ltac steady :=
  repeat first
    [ assumption
    | apply keeps_ret | apply keeps_raise | apply keeps_of_result
    | (apply stable_embed; solve [eauto with pa])
    | (apply stable_call; [solve [eauto with pa]|exact I])
    | match goal with
      | |- rkeeps _ (call _) => fail 1
      | |- rkeeps _ (_ ≫= _) => apply keeps_bind; [|intros ?]
      | |- rkeeps _ (prog_match _ _ _) => apply keeps_match; [|intros ?|intros ?]
      | |- rkeeps _ (prog_try _ _) => apply keeps_try; [|intros ?]
      | |- rkeeps _ (match ?x with _ => _ end) => destruct x
      end ].

Lemma requires_stable s ref I : stable I -> rkeeps I (requires_reconciliation s ref).
Proof.
  intros HI. unfold requires_reconciliation, approval_lookup, Approvals.get, now_or, expire. steady.
Qed.

Lemma save_tx r s b : rkeeps (in_tx b) (call (CheckSave r s)).
Proof.
  apply keeps_perform. intros w [[t Ht] Hb]. split; [done|]. intros [u|e]; simpl; [|by split].
  rewrite Ht. by split.
Qed.

Lemma save_calm r s b : rkeeps (calm b) (call (CheckSave r s)).
Proof.
  apply keeps_perform. intros w [Ht Hb]. split; [done|]. intros [u|e]; simpl; [|by split].
  rewrite Ht. by split.
Qed.

Section discipline.
Context (re_search : string -> string -> result bool) (cfg : runtime_config).

(** A scope closes its transaction however its body ends. *)
Lemma scope_calm {A} (body : prog rtE A) b :
  rkeeps (in_tx b) body -> rkeeps (calm b) body -> rkeeps (calm b) (scope cfg body).
Proof.
  intros Htx Hcalm. unfold scope. destruct (rt_has_uow cfg); [|done].
  intros w [Ht Hb]. apply mwp_bind, mwp_perform; [done|]. intros [u|e]; [|by split].
  apply mwp_match. eapply mwp_mono; [|apply Htx; by split; [eexists|]].
  intros w' r [[t Ht'] Hb'].
  destruct r as [a|e]; apply mwp_bind, mwp_perform; try done; intros [[]|e']; simpl; rewrite ?Ht';
    try (by split); by destruct t.
Qed.

Definition Lkeeps {A} (I : watch -> Prop) (m : L A) : Prop := forall l, rkeeps I (m l).

Lemma Lkeeps_ret {A} I (a : A) : Lkeeps I (mret a).
Proof. intros l. apply keeps_ret. Qed.

Lemma Lkeeps_bind {A B} I (m : L A) (f : A -> L B) :
  Lkeeps I m -> (forall a, Lkeeps I (f a)) -> Lkeeps I (m ≫= f).
Proof.
  intros Hm Hf l. apply (keeps_bind _ _ I (m l)); [apply Hm|]. intros [l' [a|e]]; [apply Hf|].
  apply keeps_ret.
Qed.

Lemma Lkeeps_await {A} I (p : prog rtE A) : rkeeps I p -> Lkeeps I (await p).
Proof. intros Hp l. apply keeps_match; [done|intros; apply keeps_ret..]. Qed.

Lemma Lkeeps_pure {A} I (r : result A) : Lkeeps I (pure_L r).
Proof. intros l. apply keeps_ret. Qed.

Lemma Lkeeps_snapshot {A} I (m : M (list (string * json)) A) : Lkeeps I (on_snapshot m).
Proof. intros l. apply keeps_ret. Qed.

Lemma Lkeeps_leave {A} I (m : L A) l : Lkeeps I m -> rkeeps I (leave m l).
Proof.
  intros Hm. apply keeps_bind; [apply Hm|]. intros [l' [a|e]]; [apply keeps_ret|apply keeps_raise].
Qed.

Ltac Lsteady :=
  repeat first
    [ assumption
    | apply Lkeeps_ret | apply Lkeeps_pure | apply Lkeeps_snapshot
    | (intros ?; apply keeps_ret)
    | (apply Lkeeps_await; solve [steady])
    | match goal with
      | |- Lkeeps _ (_ ≫= _) => apply Lkeeps_bind; [|intros ?]
      | |- Lkeeps _ (match ?x with _ => _ end) => destruct x
      end ].

Lemma finish_calm state message reference b : Lkeeps (calm b) (finish cfg state message reference).
Proof.
  unfold finish. Lsteady. unfold finish_writes. apply Lkeeps_await, scope_calm.
  - steady. apply save_tx.
  - steady. apply save_calm.
Qed.
(** ** One round *)

Context (owned : prog rtE unit) (owned_calm : forall b, rkeeps (calm b) owned).

Lemma propose_calm objective messages tools observations consent rules user :
  rkeeps (calm false) (call (HPropose objective messages tools observations consent rules user)).
Proof. apply keeps_perform. intros w [Ht Hb]. by split. Qed.

Lemma planned_calm task_id tools validator request :
  Lkeeps (calm false) (planned_call re_search cfg task_id tools validator request).
Proof.
  unfold planned_call, workflow_proposal, agent_proposal, resolve_call.
  Lsteady; first [apply finish_calm | apply Lkeeps_await, propose_calm].
Qed.

Lemma approved_calm b : Lkeeps (calm b) approved_call.
Proof. unfold approved_call. Lsteady. Qed.

Lemma paused_stable I : stable I -> rkeeps I (paused cfg).
Proof. intros HI. unfold paused. steady. Qed.

Lemma await_operation_calm waits c risk b :
  rkeeps (calm b) (await_operation cfg waits c risk owned).
Proof.
  pose proof (owned_calm b) as Hown.
  induction waits as [|waits IH]; cbn [await_operation]; unfold task_cancelled, cancel_operation, paused; steady.
Qed.

Lemma invoke_ok waits c risk w : calm false w -> may_start w c ->
  rwp (invoke_until_cancelled cfg waits c risk owned) w (fun w' _ => calm false w').
Proof.
  intros Hc Hs. unfold invoke_until_cancelled. apply mwp_bind, mwp_perform; [exact Hs|].
  intros [u|e]; simpl; [|done]. 
  enough (rkeeps (calm false)
    (prog_match (await_operation cfg waits c risk owned)
      (fun o => match o with
                | Some _ => _ ← (finished ← call IDone; if (finished : bool) then Ret tt else cancel_operation);
                            Ret o
                | None => Ret None
                end)
      (fun e => _ ← (finished ← call IDone; if (finished : bool) then Ret tt else cancel_operation);
                Raise e))) as Hk by (by apply Hk).
  pose proof (await_operation_calm waits c risk false). unfold cancel_operation. steady.
Qed.

Lemma Lwp_bind {A B} (m : L A) (f : A -> L B) l w Q :
  rwp (m l) w (fun w' r => match r with
                           | Ok (l', Ok a) => rwp (f a l') w' Q
                           | Ok (l', Err e) => Q w' (Ok (l', Err e))
                           | Err e => Q w' (Err e)
                           end) ->
  rwp ((m ≫= f) l) w Q.
Proof.
  intros H. apply (mwp_bind _ _ (m l)). eapply mwp_mono; [|exact H].
  by intros w' [[l' [a|e]]|e] Hw.
Qed.

Lemma Lwp_keeps {A B} (m : L A) (f : A -> L B) l w I Q :
  Lkeeps I m -> I w -> (forall w' e, I w' -> Q w' e) ->
  (forall a l' w', I w' -> rwp (f a l') w' Q) -> rwp ((m ≫= f) l) w Q.
Proof.
  intros Hm Hw HQ Hf. apply Lwp_bind. eapply mwp_mono; [|by apply Hm].
  intros w' [[l' [a|e]]|e] Hw'; auto.
Qed.

Lemma resolve_seen c l w : calm false w ->
  rwp (resolve_call c l) w (fun w' r => calm false w' /\
    match r with
    | Ok (_, Ok d) => exists reg, w_registry w' = Some reg /\
        resolve reg (tc_tool_id c) (tc_tool_version c) = Ok d
    | _ => True
    end).
Proof.
  intros [Ht Hb]. unfold resolve_call. apply Lwp_bind, mwp_match, mwp_perform; [done|].
  intros [reg|e]; simpl; [|done]. split; [done|].
  destruct (resolve reg _ _) eqn:E; [|done]. by exists reg.
Qed.

Lemma task_seen task_id l w reg s : calm false w -> w_registry w = Some reg -> w_disk w = Some s ->
  rwp (await (task_cancelled task_id) l) w (fun w' r => calm false w' /\
    match r with
    | Ok (_, Ok false) => w_alive w' = true /\ w_registry w' = Some reg /\ w_disk w' = Some s
    | _ => True
    end).
Proof.
  intros [Ht Hb] Hreg Hs. unfold task_cancelled. apply mwp_match, mwp_bind, mwp_perform; [done|].
  intros [t|e]; simpl; [|done]. split; [done|]. by case_bool_decide.
Qed.

(** A run and a checkpoint saved in one scope. *)
Lemma save_durable r v s w reg : calm false w -> w_registry w = Some reg ->
  rwp (scope cfg (_ ← call (RunsSave r v); call (CheckSave r s))) w (fun w' res =>
    calm false w' /\ w_registry w' = Some reg /\
    match res with Ok _ => w_disk w' = Some s | Err _ => True end).
Proof.
  intros [Ht Hb] Hreg. unfold scope. destruct (rt_has_uow cfg).
  - apply mwp_bind, mwp_perform; [done|]. intros [u|e]; [|done].
    apply mwp_match, mwp_bind, mwp_perform; [done|].
    intros [u1|e]; [apply mwp_perform; [done|]; intros [u2|e]|];
      apply mwp_bind, mwp_perform; try done; by intros [[]|].
  - apply mwp_bind, mwp_perform; [done|]. intros [u|e]; [|done].
    apply mwp_perform; [done|]. intros [u1|e]; simpl; rewrite ?Ht; done.
Qed.

(** Making the marker durable. *)
Lemma dispatch_marks c risk l w reg : calm false w -> w_registry w = Some reg ->
  rwp (dispatch cfg c risk l) w (fun w' r => calm false w' /\ w_registry w' = Some reg /\
    match r with
    | Ok (_, Ok _) => exists s, w_disk w' = Some s /\ marked c risk s
    | _ => True
    end).
Proof.
  intros [Ht Hb] Hreg. unfold dispatch.
  apply Lwp_bind. simpl. apply Lwp_bind. simpl. apply Lwp_bind. simpl. apply Lwp_bind.
  apply mwp_of_result || cbn [pure_L mwp].
  destruct (check_run _) as [r'|e]; [|done].
  apply Lwp_bind. apply mwp_match.
  eapply mwp_mono; [|apply (save_durable r' (run_version (lv_run l)) (mark_dispatch c risk (lv_snapshot l)) w reg); by try split].
  intros w' [u|e] (Hc & Hr & Hd); simpl; [|done].
  split_and!; [done|done|]. eexists. split; [done|].
  unfold marked, mark_dispatch. split_and!; by rewrite ?assoc_set_other, ?assoc_set_same by done.
Qed.

(** ** The loop *)

Lemma after_outcome_calm c o request b : Lkeeps (calm b) (after_outcome cfg c o request owned).
Proof.
  pose proof (owned_calm b). unfold after_outcome, record_outcome.
  Lsteady; first [apply finish_calm | apply Lkeeps_await, scope_calm; steady; first [apply save_tx|apply save_calm]].
Qed.

Lemma round_body_calm waits task_id tools validator request :
  Lkeeps (calm false) (round_body re_search cfg waits task_id tools validator request owned).
Proof.
  intros l w Hw. unfold round_body.
  apply (Lwp_keeps _ _ _ _ (calm false)); [Lsteady|done|done|]. intros s l1 w1 Hw1.
  apply (Lwp_keeps _ _ _ _ (calm false)); [|done|done|].
  { destruct (_ && _); [|apply planned_calm]. apply Lkeeps_bind; [apply approved_calm|].
    intros; Lsteady. }
  clear l1 w1 Hw1. intros [c|] l1 w1 Hw1; [|done].
  apply (Lwp_keeps _ _ _ _ (calm false)); [apply Lkeeps_await, owned_calm|done|done|].
  clear l1 w1 Hw1. intros _ l1 w1 Hw1. apply Lwp_bind.
  eapply mwp_mono; [|by apply (resolve_seen c l1)].
  intros w2 [[l2 [d|e]]|e] (Hw2 & Hd); [|done|done]. destruct Hd as (reg & Hreg & Hd).
  apply Lwp_bind. eapply mwp_mono; [|by eapply (dispatch_marks c (td_risk d) l2 w2 reg)].
  intros w3 [[l3 [[]|e]]|e] (Hw3 & Hreg3 & Hm); [|done|done]. destruct Hm as (snap & Hsnap & Hm).
  apply Lwp_bind. eapply mwp_mono; [|by eapply (task_seen task_id l3 w3 reg snap)].
  intros w4 [[l4 [[]|e]]|e] (Hw4 & Hs4); [done| |done|done].
  destruct Hs4 as (Ha & Hreg4 & Hsnap4).
  apply Lwp_bind, mwp_match. eapply mwp_mono; [|apply (invoke_ok waits c (td_risk d) w4 Hw4)].
  2:{ split_and!; [apply Hw4|done|apply Hw4|]. by exists snap, reg, d. }
  intros w5 [o|e] Hw5; simpl; [|done]. revert l4 w5 Hw5. clear - owned_calm.
  intros l4 w5 Hw5. revert w5 Hw5. change (rkeeps (calm false) ((match o with
    | None => mret None
    | Some o => after_outcome cfg c o request owned
    end) l4)). destruct o as [o|]; [apply after_outcome_calm|apply keeps_ret].
Qed.

Lemma round_calm waits task_id tools validator request :
  Lkeeps (calm false) (round re_search cfg waits task_id tools validator request owned).
Proof.
  intros l. apply (keeps_bind _ _ _ (round_body _ _ _ _ _ _ _ _ l)); [apply round_body_calm|].
  intros [l' [f|e]]; [apply keeps_ret|]. revert l'. change (Lkeeps (calm false) (round_handler cfg e)).
  unfold round_handler. Lsteady; apply finish_calm.
Qed.

Lemma before_round_calm task_id b : Lkeeps (calm b) (before_round cfg task_id owned).
Proof.
  pose proof (owned_calm b). unfold before_round, task_cancelled, paused, fuse_check.
  Lsteady; apply finish_calm.
Qed.

Lemma advance_loop_calm fuel waits task_id tools validator request l :
  rkeeps (calm false) (advance_loop re_search cfg fuel waits task_id tools validator request owned l).
Proof.
  revert l; induction fuel as [|fuel IH]; intros l; cbn [advance_loop]; [apply keeps_ret|].
  destruct (negb _); [apply keeps_ret|].
  apply keeps_bind; [apply Lkeeps_leave, before_round_calm|]. intros [l1 [|]]; [apply keeps_ret|].
  apply keeps_bind; [apply Lkeeps_leave, round_calm|].
  intros [l2 [[|]|]]; [apply IH|apply keeps_ret..].
Qed.
(** ** A turn of the worker *)

Definition settled (w : watch) : Prop := w_tx w = None.

Lemma stable_settled : stable settled.
Proof. intros w w' Ht _ _ Hw. unfold settled in *. congruence. Qed.

#[local] Hint Resolve stable_settled : pa.

Lemma calm_settled {A} (p : prog rtE A) : (forall b, rkeeps (calm b) p) -> rkeeps settled p.
Proof.
  intros Hp w Hw. eapply mwp_mono; [|apply (Hp (w_blocked w)); by split]. by intros w' r [? _].
Qed.

Lemma requires_blocks s ref w I : stable I -> I w ->
  rwp (requires_reconciliation s ref) w (fun w' r => I w' /\
    (r = Ok false -> py_truth (get_or_null "unresolved_external" s) = false)).
Proof.
  intros HI Hw. destruct (py_truth (get_or_null "unresolved_external" s)) eqn:E.
  - unfold requires_reconciliation. rewrite E. simpl. split; [done|]. by intros [= ?].
  - eapply mwp_mono; [|by apply (requires_stable s ref I)]. done.
Qed.

Lemma execute_calm fuel waits task_id l :
  rkeeps (calm false) (execute_run re_search cfg fuel waits task_id owned l).
Proof.
  unfold execute_run. do 4 (apply keeps_bind; [steady|intros ?]).
  apply keeps_bind; [|intros [l' [tools|]]; [apply advance_loop_calm|apply keeps_ret]].
  apply Lkeeps_leave. unfold pin_rules, pin_tools, rules_snapshot, active.
  Lsteady; apply finish_calm.
Qed.

Lemma load_settled id w (Q : watch -> result (list (string * json)) -> Prop) : w_tx w = None ->
  (forall e w', w_tx w' = None -> Q w' (Err e)) ->
  (forall s w', calm (interrupted s) w' -> Q w' (Ok s)) -> rwp (call (CheckLoad id)) w Q.
Proof.
  intros Ht He Hs. apply mwp_perform; [done|]. intros [s|e]; [apply Hs|apply He]; done.
Qed.

Lemma advance_settled fuel waits task_id resume approval_id :
  rkeeps settled (advance re_search cfg fuel waits task_id resume approval_id owned).
Proof.
  unfold advance. apply keeps_bind; [steady|]. intros task. destruct (mem_b _ _); [steady|].
  apply keeps_bind; [unfold load_run; steady|]. intros r w Hw.
  apply mwp_bind, load_settled; [done|done|]. intros s w1 Hw1.
  apply mwp_bind. eapply mwp_mono; [|apply requires_blocks; [apply stable_calm|exact Hw1]].
  intros w2 [[|]|e] [Hw2 Hu]; [| |by destruct Hw2]; cbn [orb].
  { destruct (bool_decide _); [|by destruct Hw2].
    apply (calm_settled (_ ← leave _ _; Ret true)); [|by destruct Hw2].
    intros b. apply keeps_bind; [apply Lkeeps_leave, finish_calm|intros ?; steady]. }
  specialize (Hu eq_refl). unfold interrupted in Hw2. rewrite Hu in Hw2. cbn [orb] in Hw2.
  destruct (py_eq (get_or_null "phase" s) (JStr "dispatching")).
  { destruct (bool_decide _); [|by destruct Hw2].
    apply (calm_settled (_ ← leave _ _; Ret true)); [|by destruct Hw2].
    intros b. apply keeps_bind; [apply Lkeeps_leave, finish_calm|intros ?; steady]. }
  eapply mwp_mono with (Q := fun w' _ => calm false w'); [by intros w' r' [? _]|].
  destruct (bool_decide _); [by apply execute_calm|].
  revert w2 Hw2 Hu. intros w2 Hw2 _. revert w2 Hw2.
  change (rkeeps (calm false) (resumed ← may_resume r resume approval_id s;
    match resumed with
    | None => Ret true
    | Some s => r' ← reopen r;
                execute_run re_search cfg fuel waits task_id owned {| lv_run := r'; lv_snapshot := s |}
    end)).
  apply keeps_bind; [unfold may_resume, approval_lookup, Approvals.get, expire, now_or; steady|].
  intros [s'|]; [|apply keeps_ret]. apply keeps_bind; [unfold reopen; steady|].
  intros r'. apply execute_calm.
Qed.
End discipline.

#[local] Hint Resolve stable_settled : pa.

Section turns.
Context (re_search : string -> string -> result bool) (cfg : runtime_config).

Lemma load_keeps id : rkeeps settled (call (CheckLoad id)).
Proof. apply keeps_perform. intros w Hw. split; [done|]. by intros [s|e]. Qed.

Lemma finish_now_settled r s state message : rkeeps settled (finish_now cfg r s state message).
Proof.
  apply calm_settled. intros b. unfold finish_now.
  apply keeps_bind; [apply Lkeeps_leave, finish_calm|intros ?; steady].
Qed.

Lemma job_handler_settled job e : rkeeps settled (job_handler cfg job e).
Proof.
  unfold job_handler, fail_dispatch. steady; first
    [apply load_keeps | apply finish_now_settled | (apply requires_stable; apply stable_settled)].
Qed.

Lemma serve_job_settled fuel waits job : rkeeps settled (serve_job re_search cfg fuel waits job).
Proof.
  unfold serve_job, ensure_owned. steady. apply advance_settled. intros b. steady.
Qed.

Lemma work_once_settled fuel waits : rkeeps settled (work_once re_search cfg fuel waits).
Proof.
  unfold work_once, with_lease, lease_exit, ensure_owned, fail_dispatch. steady.
  - apply serve_job_settled.
  - apply job_handler_settled.
Qed.

End turns.

(** ** What a trace shows *)

Definition started (ev : event rtE) : list ToolCall :=
  match ev with Event op _ => match op with RtHost (IStart c) => [c] | _ => [] end end.

Definition proposal (ev : event rtE) : list unit :=
  match ev with
  | Event op _ => match op with RtHost (HPropose _ _ _ _ _ _ _) => [tt] | _ => [] end
  end.

Definition loaded (ev : event rtE) : list (list (string * json)) :=
  match ev with
  | Event op ans =>
      match op in rtE X return result X -> _ with
      | RtState op =>
          match op in stateE X return result X -> _ with
          | CheckLoad _ => fun ans => match ans with Ok s => [s] | Err _ => [] end
          | _ => fun _ => []
          end
      | _ => fun _ => []
      end ans
  end.

Definition saved (ev : event rtE) : list (list (string * json)) :=
  match ev with
  | Event op _ => match op with RtState (CheckSave _ s) => [s] | _ => [] end
  end.

Definition all {A} (f : event rtE -> list A) (tr : list (event rtE)) : list A := concat (f <$> tr).

Notation durable tr := (w_disk (after rt_next first_watch tr)).

Lemma turn_watched re_search cfg fuel waits tr res :
  execs (work_once re_search cfg fuel waits) tr res -> watched rt_ok rt_next first_watch tr.
Proof. intros Hx. by eapply (mwp_execs rt_ok rt_next _ _ _ _ _ (work_once_settled _ _ _ _ _ _)). Unshelve. done. Qed.

(** A turn that only ever loads checkpoints of interrupted calls starts and plans nothing. *)
Lemma blocked_turn w tr : watched rt_ok rt_next w tr -> w_blocked w = true ->
  Forall (fun s => interrupted s = true) (all loaded tr) -> all started tr = [] /\ all proposal tr = [].
Proof.
  revert w; induction tr as [|[X op ans] tr IH]; intros w Hw Hb Hl; [done|].
  destruct Hw as [Hok Hw]. unfold all in *. rewrite !fmap_cons in *. cbn [concat] in *.
  apply Forall_app in Hl as [Hl1 Hl2].
  assert (w_blocked (rt_next X w op ans) = true) as Hb'.
  { destruct op as [X op|X op|X op|X op|X op|X op|X op]; simpl in *; try done.
    - destruct op; simpl; try done. by destruct ans.
    - destruct op; simpl in *; try done; destruct ans; simpl; try done; repeat case_match; try done.
      by inversion Hl1.
    - destruct op; simpl in *; try done. by destruct ans. }
  destruct (IH _ Hw Hb' Hl2) as [-> ->].
  destruct op as [X op|X op|X op|X op|X op|X op|X op]; simpl; try done.
  destruct op; simpl in *; try done; [destruct Hok as [? _]|]; congruence.
Qed.

(** Without a new checkpoint, the disk keeps the old one. *)
Lemma durable_kept w tr : w_tx w = None \/ w_tx w = Some None -> all saved tr = [] ->
  w_disk (after rt_next w tr) = w_disk w.
Proof.
  revert w; induction tr as [|[X op ans] tr IH]; intros w Ht Hs; [done|].
  unfold all in *. rewrite fmap_cons in Hs. cbn [concat] in Hs. apply app_eq_nil in Hs as [Hs1 Hs2].
  simpl. rewrite IH; [| |done].
  - destruct op as [X op|X op|X op|X op|X op|X op|X op]; simpl in *; try done.
    + destruct op; simpl; try done. by destruct ans.
    + destruct op; simpl in *; try done; destruct ans; simpl; try done.
      destruct Ht as [-> | ->]; done.
    + destruct op; simpl in *; try done. by destruct ans.
  - destruct op as [X op|X op|X op|X op|X op|X op|X op]; simpl in *; try done.
    + destruct op; simpl; try done. by destruct ans.
    + destruct op; simpl in *; try done; destruct ans; simpl; try done; try (by auto);
        try (destruct Ht as [-> | ->]; by auto).
    + destruct op; simpl in *; try done. by destruct ans.
Qed.

Lemma turn_start re_search cfg fuel waits tr res n ev c :
  execs (work_once re_search cfg fuel waits) tr res -> tr !! n = Some ev -> started ev = [c] ->
  may_start (after rt_next first_watch (take n tr)) c.
Proof.
  intros Hx%turn_watched Hn Hc. rewrite <- (take_drop_middle _ _ _ Hn) in Hx.
  apply watched_app in Hx as [_ Hx]. destruct ev as [X op ans]. destruct Hx as [Hok _].
  simpl in Hc. destruct op as [| | | | | |X op]; try done. destruct op; try done.
  by injection Hc as <-.
Qed.

(** The checkpoint as the store hands it back, with the version of the run it was saved with. *)
Definition reloaded (s s' : list (string * json)) : Prop :=
  s' = s \/ exists v, s' = assoc_set "run_version" v s.

Lemma marked_interrupted c risk s s' : marked c risk s -> reloaded s s' -> interrupted s' = true.
Proof.
  intros (Hp & _ & _) [->|[v ->]]; unfold interrupted, get_or_null;
    rewrite ?(assoc_set_other "phase") by done; rewrite Hp; by rewrite orb_true_r.
Qed.

(** C26. No tool call is made before it can be accounted for: in every turn of a worker, whatever
    the stores, the planner, the host and other workers answer, a call starts only after the run
    and a checkpoint naming exactly that call, its risk and the phase [dispatching] have been
    written outside of any open transaction, the tool is the registered one, the very last
    operation saw the task not cancelled, and the checkpoint the turn began with was not that of
    an interrupted call. *)
Theorem calls_are_marked_before_they_start re_search cfg fuel waits tr res n ev c :
  execs (work_once re_search cfg fuel waits) tr res -> tr !! n = Some ev -> started ev = [c] ->
  let w := after rt_next first_watch (take n tr) in
  w_blocked w = false /\ w_alive w = true /\ w_tx w = None /\
  exists s reg d, w_disk w = Some s /\ w_registry w = Some reg /\
    resolve reg (tc_tool_id c) (tc_tool_version c) = Ok d /\ marked c (td_risk d) s.
Proof. apply turn_start. Qed.

(** C27. An interrupted call is never replayed: if the worker dies at any moment after a call has
    started and before another checkpoint is written, then every later turn, of any worker, that
    finds the checkpoint left on disk neither makes a call nor asks the planner for a new plan. *)
Theorem interrupted_calls_are_not_replayed re_search cfg fuel waits tr res n m ev c :
  execs (work_once re_search cfg fuel waits) tr res -> tr !! n = Some ev -> started ev = [c] ->
  (n < m)%nat -> all saved (drop n (take m tr)) = [] ->
  exists s, durable (take m tr) = Some s /\
    forall re_search' cfg' fuel' waits' tr' res',
      execs (work_once re_search' cfg' fuel' waits') tr' res' ->
      Forall (reloaded s) (all loaded tr') -> all started tr' = [] /\ all proposal tr' = [].
Proof.
  intros Hx Hn Hc Hm Hs.
  destruct (turn_start _ _ _ _ _ _ _ _ _ Hx Hn Hc) as (_ & _ & Htx & s & reg & d & Hdisk & _ & _ & Hmark).
  exists s. split.
  - rewrite <- (take_drop n (take m tr)), take_take, Nat.min_l, after_app by lia.
    rewrite durable_kept; [done|by left|done].
  - intros re' cfg' fuel' waits' tr' res' Hx'%turn_watched Hl.
    apply (blocked_turn first_watch); [done|done|].
    eapply Forall_impl; [exact Hl|]. intros s' Hs'. by eapply marked_interrupted.
Qed.

(** ** Scenario: one search, then completion *)

Module RuntimeScenario.

Definition cfg : runtime_config := {| rt_has_uow := true; rt_has_probe := false;
  rt_has_prepare := false; rt_has_poll := false; rt_thresholds := default_thresholds;
  rt_grants := GrantByTool [("mail.search", ["mail.read"])]; rt_worker_id := "agent-1";
  rt_task := 1 |}.

Definition task : Task := {| task_id := "t1"; task_objective := "find the deadline";
  task_state := TaskState.RUNNING; task_version := 1; task_created_at := 0 |}.

Definition job : Job := {| job_id := "job-1"; job_kind := "agent.start";
  job_payload := [("task_id", JStr "t1")]; job_key := "task-start:t1"; job_created_at := 0;
  available_at := 0; job_state := JobState.LEASED; attempts := 1; max_attempts := 5;
  lease_owner := Some "agent-1"; lease_until := Some (seconds 30); job_result := None;
  error_code := None; job_version := 1 |}.

Definition found : ToolOutcome := {| to_kind := ToolOutcomeKind.SUCCESS;
  to_result := Some (JObj [("date", JStr "Friday")]); to_message := None; to_reference_id := None;
  to_approval_id := None; to_extension_id := None; to_retryable := false |}.

Definition complete : json := JObj [("kind", JStr "COMPLETE"); ("message", JStr "It is Friday.")].

Definition answer_task {X} (op : taskE X) : result X :=
  match op in taskE X return result X with
  | TCreate t _ | TSave t _ => Ok t
  | TGet _ | TCancel _ _ _ => Ok task
  | TListRecent _ _ => Ok []
  | TAddMessage m _ _ => Ok (task, m)
  | TMessages _ => Ok []
  | TEnqueue _ _ _ => Ok job
  | TPublish ty i d => Ok {| te_sequence := 1; te_type := ty; te_task_id := i; te_data := d;
                             te_occurred_at := 0 |}
  | TAudit _ => Ok tt
  | TEnv op => match op in envE X return result X with Now => Ok 0 | NewUuid | NewToken => Ok "u" end
  end.

Definition answer_state {X} (op : stateE X) : result X :=
  match op in stateE X return result X with
  | RunsGet i => fail PyKeyError i
  | CheckLoad _ => Ok []
  | RunsAdd _ | RunsSave _ _ | CheckSave _ _ | TxBegin | TxCommit | TxRollback => Ok tt
  end.

Definition answer_host {X} (op : hostE X) (n : nat) : result X :=
  match op in hostE X return result X with
  | IStart _ | IWait | ICancel | HLeaseStart _ | HLeaseStop _ | HOwned _ => Ok tt
  | IDone => Ok true
  | IResult => Ok found
  | HRegistry => Ok {| generation := 1;
      snap_tools := [(("mail.search", "1"), DecisionScenario.search_tool)] |}
  | HPropose _ _ _ _ _ _ _ => Ok (match n with O => DecisionScenario.proposal | S _ => complete end)
  | HPolicyIdentity => Ok (JStr "local")
  | HPendingDisclosure => Ok None
  | HPrepare c => Ok c
  | HPaused => Ok false
  | HPollJob _ _ => Ok JNull
  end.

(** The state counts the operations on calls, so that the second plan completes the task. *)
Definition answer (X : Type) (op : rtE X) : M nat X := fun n =>
  match op in rtE X return nat * result X with
  | RtTask op => (n, answer_task op)
  | RtJob op => (n, match op in jobE X return result X with
                    | JClaim _ => Ok (Some job)
                    | JEnqueue _ _ _ => Ok job
                    | JComplete _ _ _ | JFail _ _ _ _ | JRelease _ _ => Ok tt
                    end)
  | RtState op => (n, answer_state op)
  | RtRecord op => (n, match op in recE X return result X with
                       | RGet _ _ => Ok None
                       | RList _ => Ok []
                       | RPut _ k v e => Ok {| rec_id := k; rec_version := e + 1; rec_value := v |}
                       end)
  | RtCommand op => (n, match op in cmdE X return result X with
                        | COwner => Ok None
                        | CAcquire _ | CRelease | CKeep _ _ _ => Ok tt
                        | CFind _ => Ok None
                        end)
  | RtApproval op => (n, match op in apprE X return result X with
                         | ACreate _ => Ok tt
                         | AGet i => fail NotFoundError i
                         | ASave r _ => Ok r
                         end)
  | RtHost op => (match op with IStart _ => S n | _ => n end, answer_host op n)
  end.

Definition turn : list (event rtE) * result (option bool) :=
  trace_run answer (work_once (fun _ _ => Ok true) cfg 5 5) 0%nat.

(** The call of the turn and its place in the trace. *)
Fixpoint first_start (n : nat) (tr : list (event rtE)) : option (nat * ToolCall) :=
  match tr with
  | [] => None
  | ev :: tr => match started ev with c :: _ => Some (n, c) | [] => first_start (S n) tr end
  end.

Definition search : ToolCall := {| tc_tool_id := "mail.search"; tc_tool_version := "1";
  tc_arguments := JObj [("q", JStr "deadline")]; tc_task_id := "t1"; tc_target := JNull;
  tc_attachments := []; tc_granted_capabilities := ["mail.read"];
  tc_workflow_allowed_tools := ["mail.search"]; tc_approval_id := None;
  tc_idempotency_key := Some "run:run_t1:round:0"; tc_form_version := None |}.

(** The event of the call. *)
Definition start_event : event rtE := Event (E := rtE) (RtHost (IStart search)) (Ok tt).

Lemma turn_execs : execs (work_once (fun _ _ => Ok true) cfg 5 5) turn.1 turn.2.
Proof. apply trace_run_execs. Qed.

End RuntimeScenario.

Lemma calls_are_marked_before_they_start_witness :
  exists tr, tr !! 25%nat = Some RuntimeScenario.start_event /\
    let w := after rt_next first_watch (take 25 tr) in
    w_alive w = true /\ exists s, w_disk w = Some s /\ marked RuntimeScenario.search READ s.
Proof.
  exists RuntimeScenario.turn.1. 
  assert (RuntimeScenario.turn.1 !! 25%nat = Some RuntimeScenario.start_event) as Hn
    by (vm_compute; reflexivity).
  split; [exact Hn|].
  destruct (calls_are_marked_before_they_start _ _ _ _ _ _ 25 RuntimeScenario.start_event
    RuntimeScenario.search RuntimeScenario.turn_execs Hn eq_refl)
    as (_ & Ha & _ & s & reg & d & Hs & Hreg & Hd & Hm).
  split; [exact Ha|]. exists s. split; [exact Hs|].
  assert (d = DecisionScenario.search_tool) as ->; [|exact Hm].
  vm_compute in Hreg. injection Hreg as <-. vm_compute in Hd. injection Hd as <-. reflexivity.
Defined.

Lemma interrupted_calls_are_not_replayed_witness :
  exists s, durable (take 28 RuntimeScenario.turn.1) = Some s /\
    forall re_search' cfg' fuel' waits' tr' res',
      execs (work_once re_search' cfg' fuel' waits') tr' res' ->
      Forall (reloaded s) (all loaded tr') -> all started tr' = [] /\ all proposal tr' = [].
Proof.
  apply (interrupted_calls_are_not_replayed _ _ _ _ _ _ 25 28 RuntimeScenario.start_event
    RuntimeScenario.search RuntimeScenario.turn_execs).
  - vm_compute. reflexivity.
  - reflexivity.
  - lia.
  - vm_compute. reflexivity.
Defined.

(** ** A worker that has lost its lease

    [ensure_owned] raises [LeaseLost], which is not a [LeaseConflict]: the clause that re-raises
    conflicts does not see it, and the general clause pauses the run all the same. *)

Module LostLease.

Definition answer (X : Type) (op : rtE X) : M nat X := fun n =>
  match op in rtE X return nat * result X with
  | RtHost op => (n, match op in hostE X return result X with
                     | HOwned j => fail LeaseLost ("lease renewal failed for " ++ j)
                     | op => RuntimeScenario.answer_host op n
                     end)
  | RtState op => (n, match op in stateE X return result X with
                      | RunsGet _ => Ok RunScenario.running
                      | op => RuntimeScenario.answer_state op
                      end)
  | op => RuntimeScenario.answer _ op n
  end.

Definition turn : list (event rtE) * result (option bool) :=
  trace_run answer (work_once (fun _ _ => Ok true) RuntimeScenario.cfg 5 5) 0%nat.

(** The operations on the lease and on the run. *)
Inductive mark := LeaseIsLost | RunWritten (state : TaskState.t).

Definition mark_of (ev : event rtE) : list mark :=
  match ev with
  | Event op _ =>
      match op with
      | RtHost (HOwned _) => [LeaseIsLost]
      | RtState (RunsSave r _) => [RunWritten (run_state r)]
      | _ => []
      end
  end.

End LostLease.

Lemma lost_lease_still_pauses_the_run :
  execs (work_once (fun _ _ => Ok true) RuntimeScenario.cfg 5 5) LostLease.turn.1 LostLease.turn.2 /\
  take 2 (all LostLease.mark_of LostLease.turn.1) =
    [LostLease.LeaseIsLost; LostLease.RunWritten TaskState.WAITING_USER].
Proof. split; [apply trace_run_execs|vm_compute; reflexivity]. Qed.
