(* ===== verification/Scheduling.v ===== *)
(** * Scheduling: cron expressions and missed occurrences

    Models [cron_fields], [cron_next] and the occurrence computation of [DurableScheduler.tick] of
    [core/scheduling.py], and [missed_fire_times] of [core/jobs/scheduler.py].  The time zone
    database is data of the host: a zone is the offset from UTC it gives at an instant. *)

From S2P Require Import Prelude Text.
Local Open Scope string_scope.
Local Open Scope Z_scope.

(** ** The calendar *)

Definition minute : Z := seconds 60.
Definition day_us : Z := hours 24.

(** Year, month and day of a day number, counted from 1970-01-01 in the proleptic Gregorian
    calendar: the year starts in March, so that the leap day is its last one. *)
Definition civil (days : Z) : Z * Z * Z :=
  let z := days + 719468 in
  let doe := z mod 146097 in
  let yoe := (doe - doe / 1460 + doe / 36524 - doe / 146096) / 365 in
  let doy := doe - (365 * yoe + yoe / 4 - yoe / 100) in
  let mp := (5 * doy + 2) / 153 in
  let month := if mp <? 10 then mp + 3 else mp - 9 in
  (yoe + 400 * (z / 146097) + (if month <=? 2 then 1 else 0), month, doy - (153 * mp + 2) / 5 + 1).

(** The day number of a date. *)
Definition days_of (y m d : Z) : Z :=
  let y := if m <=? 2 then y - 1 else y in
  let yoe := y mod 400 in
  let doy := (153 * (if 2 <? m then m - 3 else m + 9) + 2) / 5 + d - 1 in
  (y / 400) * 146097 + (yoe * 365 + yoe / 4 - yoe / 100 + doy) - 719468.

(** [datetime.weekday()]: Monday is 0, and 1970-01-01 was a Thursday. *)
Definition weekday (days : Z) : Z := (days + 3) mod 7.

Record wall := { w_minute : Z; w_hour : Z; w_day : Z; w_month : Z; w_weekday : Z }.

(** The fields of a local time in microseconds. *)
Definition wall_of (local : Z) : wall :=
  let days := local / day_us in
  {| w_minute := (local / minute) mod 60; w_hour := (local / hours 1) mod 24;
     w_day := (civil days).2; w_month := (civil days).1.2; w_weekday := weekday days |}.

Example epoch_wall : wall_of 0 =
  {| w_minute := 0; w_hour := 0; w_day := 1; w_month := 1; w_weekday := 3 |}.
Proof. reflexivity. Qed.

(** 2024-02-29 12:30, a leap day and a Thursday. *)
Example leap_wall : wall_of (seconds 1709209800) =
  {| w_minute := 30; w_hour := 12; w_day := 29; w_month := 2; w_weekday := 3 |}.
Proof. reflexivity. Qed.

(** ** [isoformat] and [fromisoformat] *)

(** [f"{n:0{width}}"] for a non-negative number. *)
Fixpoint zeros (n : nat) : string := match n with O => "" | S n => "0" ++ zeros n end.
Definition pad (width : nat) (n : Z) : string :=
  let s := str_of_Z n in zeros (width - String.length s) ++ s.

(** [datetime.isoformat()] of an instant in UTC. *)
Definition isoformat (t : Z) : string :=
  let days := t / day_us in
  let us := t mod 1000000 in
  pad 4 (civil days).1.1 ++ "-" ++ pad 2 (civil days).1.2 ++ "-" ++ pad 2 (civil days).2
  ++ "T" ++ pad 2 ((t / hours 1) mod 24) ++ ":" ++ pad 2 ((t / minute) mod 60) ++ ":"
  ++ pad 2 ((t / seconds 1) mod 60) ++ (if us =? 0 then "" else "." ++ pad 6 us) ++ "+00:00".

Example isoformat_leap : isoformat (seconds 1709209800 + 250) = "2024-02-29T12:30:00.000250+00:00".
Proof. vm_compute. reflexivity. Qed.

(** A number of exactly [n] digits. *)
Definition digits (n : nat) (l : list Ascii.ascii) : option (Z * list Ascii.ascii) :=
  let d := take n l in
  if Nat.eqb (length d) n && forallb is_digit d
  then Some (fold_left (fun acc a => acc * 10 + (code a - 48)) d 0, drop n l) else None.

Definition expect (s : string) (l : list Ascii.ascii) : option (list Ascii.ascii) :=
  if is_prefix_l (String.list_ascii_of_string s) l then Some (drop (String.length s) l) else None.

(** The text that [isoformat] writes. *)
Definition parse_utc (s : string) : option Z :=
  '(y, l) ← digits 4 (String.list_ascii_of_string s); l ← expect "-" l;
  '(mo, l) ← digits 2 l; l ← expect "-" l;
  '(d, l) ← digits 2 l; l ← expect "T" l;
  '(h, l) ← digits 2 l; l ← expect ":" l;
  '(mi, l) ← digits 2 l; l ← expect ":" l;
  '(sec, l) ← digits 2 l;
  '(us, l) ← match expect "." l with Some l => digits 6 l | None => Some (0, l) end;
  l ← expect "+00:00" l;
  let day := days_of y mo d in
  if bool_decide (l = []) && bool_decide (civil day = (y, mo, d)) && (h <? 24) && (mi <? 60) && (sec <? 60)
  then Some (day * day_us + h * hours 1 + mi * minute + seconds sec + us) else None.

Example parse_utc_leap : parse_utc "2024-02-29T12:30:00.000250+00:00" = Some (seconds 1709209800 + 250).
Proof. vm_compute. reflexivity. Qed.
Example parse_utc_no_day : parse_utc "2023-02-29T12:30:00+00:00" = None.
Proof. vm_compute. reflexivity. Qed.

(** ** [cron_fields] *)

(** [s.split()]: the maximal runs of other characters than white space. *)
Fixpoint words (l cur : list Ascii.ascii) : list string :=
  match l with
  | [] => match cur with [] => [] | _ => [String.string_of_list_ascii (reverse cur)] end
  | a :: l =>
      if is_space a
      then match cur with [] => words l [] | _ => String.string_of_list_ascii (reverse cur) :: words l [] end
      else words l (a :: cur)
  end.

Definition split_ws (s : string) : list string := words (String.list_ascii_of_string s) [].

(** [range(start, stop, step)] for a positive step. *)
Definition py_range (start stop step : Z) : list Z :=
  (fun i => start + step * i) <$> seqZ 0 ((stop - start + step - 1) / step).

Definition slash : Ascii.ascii := Ascii.ascii_of_N 47.
Definition dash : Ascii.ascii := Ascii.ascii_of_N 45.
Definition comma : Ascii.ascii := Ascii.ascii_of_N 44.

(** [item.partition("/")]: what comes before, and what comes after if there is a separator. *)
Fixpoint partition_l (sep : Ascii.ascii) (l cur : list Ascii.ascii)
  : list Ascii.ascii * option (list Ascii.ascii) :=
  match l with
  | [] => (reverse cur, None)
  | a :: l => if bool_decide (a = sep) then (reverse cur, Some l) else partition_l sep l (a :: cur)
  end.

Definition partition_str (sep : Ascii.ascii) (s : string) : string * option string :=
  let '(before, after) := partition_l sep (String.list_ascii_of_string s) [] in
  (String.string_of_list_ascii before, String.string_of_list_ascii <$> after).

(** The step of an item, and the bounds of its base. *)
Definition cron_step (high : Z) (raw : option string) : result Z :=
  match raw with
  | None => Ok 1
  | Some raw =>
      if negb (isdecimal raw) || negb ((1 <=? int_of_decimal raw) && (int_of_decimal raw <=? high + 1))
      then fail ValidationError "invalid cron step" else Ok (int_of_decimal raw)
  end.

Definition cron_base (low high : Z) (base : string) : result (Z * Z) :=
  if bool_decide (base = "*") then Ok (low, high)
  else
    match str_split dash base with
    | [a; b] =>
        if isdecimal a && isdecimal b then Ok (int_of_decimal a, int_of_decimal b)
        else fail ValidationError "unsupported cron syntax"
    | [a] => if isdecimal a then Ok (int_of_decimal a, int_of_decimal a)
             else fail ValidationError "unsupported cron syntax"
    | _ => fail ValidationError "unsupported cron syntax"
    end.

Definition cron_item (low high : Z) (item : string) : result (list Z) :=
  let '(base, raw_step) := partition_str slash item in
  step ← cron_step high raw_step;
  '(start, stop) ← cron_base low high base;
  if negb ((low <=? start) && (start <=? stop) && (stop <=? high))
  then fail ValidationError "cron range is invalid"
  else Ok (py_range start (stop + 1) step).

Definition cron_field (low high : Z) (field : string) : result (gset Z) :=
  items ← result_map (cron_item low high) (str_split comma field);
  let values : gset Z := list_to_set (concat items) in
  if bool_decide (values = ∅) then fail ValidationError "empty cron field" else Ok values.

Record cron := { c_minutes : gset Z; c_hours : gset Z; c_days : gset Z; c_months : gset Z;
                 c_weekdays : gset Z }.

Definition cron_fields (expression : string) : result cron :=
  match split_ws expression with
  | [f0; f1; f2; f3; f4] =>
      if 128 <? str_len expression then fail ValidationError "cron must have five numeric fields"
      else
        m ← cron_field 0 59 f0; h ← cron_field 0 23 f1; d ← cron_field 1 31 f2;
        mo ← cron_field 1 12 f3; w ← cron_field 0 6 f4;
        Ok {| c_minutes := m; c_hours := h; c_days := d; c_months := mo; c_weekdays := w |}
  | _ => fail ValidationError "cron must have five numeric fields"
  end.

(** ** [cron_next] *)

Definition in_b (x : Z) (s : gset Z) : bool := bool_decide (x ∈ s).

(** Sunday is 0 in a cron expression. *)
Definition cron_matches (c : cron) (w : wall) : bool :=
  let day := in_b (w_day w) (c_days c) in
  let weekday := in_b ((w_weekday w + 1) mod 7) (c_weekdays c) in
  let day := if negb (Nat.eqb (size (c_days c)) 31) && negb (Nat.eqb (size (c_weekdays c)) 7)
             then day || weekday else day && weekday in
  in_b (w_minute w) (c_minutes c) && in_b (w_hour w) (c_hours c) && in_b (w_month w) (c_months c)
  && day.

(** A search over consecutive minutes: found, or where to go on. *)
Inductive hunt := Found (t : Z) | Onward (cursor : Z).

Section zone.
Context (zone : string -> option (Z -> Z)).

Definition occurs (c : cron) (offset : Z -> Z) (t : Z) : bool :=
  cron_matches c (wall_of (t + offset t)).

(** The loop [for _ in range(n)]: [n] minutes from the cursor on, by halves. *)
Fixpoint scan (n : positive) (hit : Z -> bool) (cursor : Z) : hunt :=
  match n with
  | xH => if hit cursor then Found cursor else Onward (cursor + minute)
  | xO n => match scan n hit cursor with Found t => Found t | Onward c => scan n hit c end
  | xI n =>
      if hit cursor then Found cursor
      else match scan n hit (cursor + minute) with Found t => Found t | Onward c => scan n hit c end
  end.

Definition cron_next (expression : string) (after : Z) (timezone : string) : result Z :=
  c ← cron_fields expression;
  match zone timezone with
  | None => fail PyKeyError "ZoneInfoNotFoundError"
  | Some offset =>
      match scan 527040 (occurs c offset) (after - after mod minute + minute) with
      | Found t => Ok t
      | Onward _ =>
          fail ValidationError "cron has no occurrence within the supported one-year horizon"
      end
  end.

(** ** The occurrences of a tick *)

Inductive MisfirePolicy := SKIP | COALESCE | CATCH_UP.

Record schedule := {
  s_interval : option Z;      (* seconds *)
  s_cron : string;
  s_timezone : string;
  s_policy : MisfirePolicy;
  s_max_catch_up : Z
}.

(** All occurrences kept so far, the latest one, and the next. *)
Record due_times := { d_times : list Z; d_latest : Z; d_next : Z }.

(** [(current - due).total_seconds() // interval] is computed on a float, which is exact for
    spans below 2^32 seconds. *)
Definition interval_due (interval max_catch_up due current : Z) : due_times :=
  let missed := (current - due) / seconds interval in
  let latest := due + seconds (interval * missed) in
  let count := Z.min (missed + 1) max_catch_up in
  {| d_times := (fun i => latest - seconds (interval * i)) <$> reverse (seqZ 0 count);
     d_latest := latest; d_next := latest + seconds interval |}.

Definition keep_last (n : Z) (l : list Z) : list Z := drop (length l - Z.to_nat n) l.

(** The loop over missed cron periods. *)
Fixpoint cron_due (fuel : nat) (s : schedule) (current cursor : Z) (times : list Z) (latest : Z)
  : result due_times :=
  match fuel with
  | O => fail ValidationError "too many missed cron periods; explicit review required"
  | S fuel =>
      if current <? cursor then Ok {| d_times := times; d_latest := latest; d_next := cursor |}
      else
        next ← cron_next (s_cron s) cursor (s_timezone s);
        cron_due fuel s current next (keep_last (s_max_catch_up s) (times ++ [cursor])%list) cursor
  end.

(** The occurrences a schedule that is due fires now, and when it is due next. *)
Definition occurrences (s : schedule) (due current : Z) : result (list Z * Z) :=
  d ← match s_interval s with
      | Some interval => Ok (interval_due interval (s_max_catch_up s) due current)
      | None => cron_due 1440 s current due [] due
      end;
  Ok (match s_policy s with
      | SKIP => if minute <? current - due then [] else [d_latest d]
      | COALESCE => [d_latest d]
      | CATCH_UP => d_times d
      end, d_next d).

End zone.

(** ** [missed_fire_times] *)

Record IntervalSchedule := {
  is_id : string;
  is_extension_id : string;
  is_interval : Z;             (* microseconds *)
  is_timezone : string;
  is_policy : MisfirePolicy;
  is_max_catch_up : Z
}.

Definition check_schedule (s : IntervalSchedule) : result IntervalSchedule :=
  _ ← raise_if (is_interval s <=? 0) PyValueError "interval must be positive";
  _ ← raise_if (is_max_catch_up s <? 0) PyValueError "max_catch_up cannot be negative";
  Ok s.

Definition missed_fire_times (s : IntervalSchedule) (last_fire_at now : Z) : list Z :=
  if now <=? last_fire_at then []
  else
    let count := (now - last_fire_at) / is_interval s in
    if count <? 1 then []
    else
      let due := (fun index => last_fire_at + is_interval s * index) <$> seqZ 1 count in
      match is_policy s with
      | SKIP => []
      | COALESCE => match List.rev due with t :: _ => [t] | [] => [] end
      | CATCH_UP => if is_max_catch_up s =? 0 then [] else keep_last (is_max_catch_up s) due
      end.

(** ** The search finds the first occurrence *)

Ltac mlia := unfold minute, seconds in *; Z.to_euclidean_division_equations; lia.

(** [n] minutes from the cursor on have been tried, with this outcome. *)
Definition scanned (n : Z) (hit : Z -> bool) (cursor : Z) (h : hunt) : Prop :=
  match h with
  | Found t => exists k, 0 <= k < n /\ t = cursor + k * minute /\ hit t = true /\
                 forall j, 0 <= j < k -> hit (cursor + j * minute) = false
  | Onward c => c = cursor + n * minute /\
                forall j, 0 <= j < n -> hit (cursor + j * minute) = false
  end.

Lemma scanned_one hit cursor :
  scanned 1 hit cursor (if hit cursor then Found cursor else Onward (cursor + minute)).
Proof.
  destruct (hit cursor) eqn:E; simpl.
  - exists 0. split_and!; [mlia..|done|]. intros j Hj. lia.
  - split; [mlia|]. intros j Hj. by replace (cursor + j * minute) with cursor by mlia.
Qed.

Lemma scanned_then n m hit cursor h : 0 <= m -> scanned n hit cursor h -> 
  match h with
  | Found t => scanned (n + m) hit cursor (Found t)
  | Onward c => forall h', 0 <= n -> scanned m hit c h' -> scanned (n + m) hit cursor h'
  end.
Proof.
  intros Hm Hs. destruct h as [t|c]; simpl in Hs.
  - destruct Hs as (k & Hk & ? & ? & ?). exists k. split_and!; try done; lia.
  - destruct Hs as [-> Hno]. intros h' Hn Hs'.
    assert (forall j, n <= j -> cursor + j * minute = cursor + n * minute + (j - n) * minute) as Hsh
      by mlia.
    assert (forall b, (forall j, 0 <= j < b -> hit (cursor + n * minute + j * minute) = false) ->
      forall j, 0 <= j < n + b -> hit (cursor + j * minute) = false) as Hall.
    { intros b Hb j Hj. destruct (Z_lt_le_dec j n); [apply Hno; lia|]. rewrite Hsh by done.
      apply Hb; lia. }
    destruct h' as [t|c]; simpl in *.
    + destruct Hs' as (k & Hk & -> & Hh & Hno'). exists (n + k). split_and!; [mlia..|done|].
      by apply Hall.
    + destruct Hs' as [-> Hno']. split; [mlia|]. by apply Hall.
Qed.

Lemma scan_spec n hit cursor : scanned (Zpos n) hit cursor (scan n hit cursor).
Proof.
  revert cursor; induction n as [n IH|n IH|]; intros cursor; cbn [scan].
  - pose proof (scanned_then 1 (Zpos n + Zpos n) hit cursor _ ltac:(lia) (scanned_one hit cursor)) as H1.
    replace (Zpos n~1) with (1 + (Zpos n + Zpos n)) by lia.
    destruct (hit cursor); [done|]. apply H1; [lia|].
    pose proof (scanned_then (Zpos n) (Zpos n) hit _ _ ltac:(lia) (IH (cursor + minute))) as H2.
    destruct (scan n hit (cursor + minute)); [done|]. apply H2; [lia|apply IH].
  - replace (Zpos n~0) with (Zpos n + Zpos n) by lia.
    pose proof (scanned_then (Zpos n) (Zpos n) hit _ _ ltac:(lia) (IH cursor)) as H2.
    destruct (scan n hit cursor); [done|]. apply H2; [lia|apply IH].
  - apply scanned_one.
Qed.

(** ** What a cron expression means *)

(** The interval a base names: all values, one value, or a range. *)
Inductive base_spans (low high : Z) : string -> Z -> Z -> Prop :=
| bs_all : base_spans low high "*" low high
| bs_one a : isdecimal a = true -> base_spans low high a (int_of_decimal a) (int_of_decimal a)
| bs_range a b : isdecimal a = true -> isdecimal b = true ->
    base_spans low high (a ++ "-" ++ b) (int_of_decimal a) (int_of_decimal b).

(** An item lets a value through: it lies in the interval, at a multiple of the step from its start. *)
Inductive item_allows (low high n : Z) : string -> Prop :=
| ia_plain base start stop : base_spans low high base start stop -> start <= n <= stop ->
    item_allows low high n base
| ia_step base start stop step : base_spans low high base start stop -> start <= n <= stop ->
    isdecimal step = true -> (int_of_decimal step | n - start) ->
    item_allows low high n (base ++ "/" ++ step).

(** A field is a comma-separated list of items. *)
Definition field_allows (low high : Z) (field : string) (n : Z) : Prop :=
  exists item, item ∈ str_split comma field /\ item_allows low high n item.

(** A field that leaves a value of its range out. *)
Definition restricted (low high : Z) (field : string) : Prop :=
  exists n, low <= n <= high /\ ~ field_allows low high field n.

(** A local time is an occurrence: its minute, hour and month are allowed; its day of the month or its
    day of the week (Sunday is 0) when both fields are restricted, and both days otherwise. *)
Definition is_occurrence (expression : string) (w : wall) : Prop :=
  exists minutes hours days months weekdays,
    split_ws expression = [minutes; hours; days; months; weekdays] /\
    field_allows 0 59 minutes (w_minute w) /\ field_allows 0 23 hours (w_hour w) /\
    field_allows 1 12 months (w_month w) /\
    let day := field_allows 1 31 days (w_day w) in
    let weekday := field_allows 0 6 weekdays ((w_weekday w + 1) mod 7) in
    (restricted 1 31 days /\ restricted 0 6 weekdays /\ (day \/ weekday)) \/
    (~ (restricted 1 31 days /\ restricted 0 6 weekdays) /\ day /\ weekday).

(** *** Reading the text *)

Lemma of_chars_plus l1 l2 : of_chars (l1 ++ l2)%list = of_chars l1 ++ of_chars l2.
Proof. unfold of_chars. induction l1 as [|a l1 IH]; simpl; [done|]. by rewrite IH. Qed.

Lemma first_sep (sep : Ascii.ascii) l :
  sep ∉ l \/ exists l1 l2, l = (l1 ++ sep :: l2)%list /\ sep ∉ l1.
Proof.
  induction l as [|a l IH]; [left; set_solver|]. destruct (decide (a = sep)) as [->|Hne].
  - right. exists [], l. split; [done|set_solver].
  - destruct IH as [H|(l1 & l2 & -> & H)]; [left; set_solver|]. right. exists (a :: l1), l2. split; [done|set_solver].
Qed.

Lemma split_l_last sep l cur : sep ∉ l -> split_l sep l cur = [of_chars (reverse cur ++ l)%list].
Proof.
  revert cur; induction l as [|a l IH]; intros cur H; simpl; [by rewrite app_nil_r|].
  rewrite bool_decide_eq_false_2 by set_solver. rewrite IH by set_solver.
  by rewrite reverse_cons, <- app_assoc.
Qed.

Lemma split_l_first sep l1 l2 cur : sep ∉ l1 ->
  split_l sep (l1 ++ sep :: l2)%list cur = of_chars (reverse cur ++ l1)%list :: split_l sep l2 [].
Proof.
  revert cur; induction l1 as [|a l IH]; intros cur H; simpl.
  - by rewrite bool_decide_eq_true_2, app_nil_r.
  - rewrite bool_decide_eq_false_2 by set_solver. rewrite IH by set_solver.
    by rewrite reverse_cons, <- app_assoc.
Qed.

Lemma partition_l_none sep l cur : sep ∉ l -> partition_l sep l cur = ((reverse cur ++ l)%list, None).
Proof.
  revert cur; induction l as [|a l IH]; intros cur H; simpl; [by rewrite app_nil_r|].
  rewrite bool_decide_eq_false_2 by set_solver. rewrite IH by set_solver.
  by rewrite reverse_cons, <- app_assoc.
Qed.

Lemma partition_l_some sep l1 l2 cur : sep ∉ l1 ->
  partition_l sep (l1 ++ sep :: l2)%list cur = ((reverse cur ++ l1)%list, Some l2).
Proof.
  revert cur; induction l1 as [|a l IH]; intros cur H; simpl.
  - by rewrite bool_decide_eq_true_2, app_nil_r.
  - rewrite bool_decide_eq_false_2 by set_solver. rewrite IH by set_solver.
    by rewrite reverse_cons, <- app_assoc.
Qed.

(** A numeral has no separator in it. *)
Lemma decimal_chars a c : isdecimal a = true -> is_digit c = false -> c ∉ chars a.
Proof.
  unfold isdecimal. intros [_ Hd]%andb_true_iff Hc Hin. apply list_elem_of_In in Hin.
  rewrite forallb_forall in Hd. specialize (Hd c Hin). congruence.
Qed.

Lemma base_no_slash low high base start stop : base_spans low high base start stop -> slash ∉ chars base.
Proof.
  intros [|a Ha|a b Ha Hb].
  - change (slash ∉ [Ascii.ascii_of_N 42]). intros H%list_elem_of_singleton. discriminate H.
  - by apply decimal_chars.
  - rewrite !chars_app. pose proof (decimal_chars a slash Ha eq_refl). pose proof (decimal_chars b slash Hb eq_refl).
    intros [?|[Hd|?]%elem_of_app]%elem_of_app; try done. by apply list_elem_of_singleton in Hd.
Qed.

Lemma cron_base_Ok low high base start stop : cron_base low high base = Ok (start, stop) <->
  base_spans low high base start stop.
Proof.
  unfold cron_base. split.
  - case_bool_decide as Hs; [intros [= <- <-]; subst; constructor|]. unfold str_split.
    destruct (first_sep dash (chars base)) as [Hn|(l1 & l2 & E & Hl1)].
    + rewrite split_l_last by done. simpl. rewrite of_chars_chars.
      destruct (isdecimal base) eqn:Hd; [|done]. intros [= <- <-]. by constructor.
    + rewrite E, split_l_first by done.
      destruct (first_sep dash l2) as [Hn|(l3 & l4 & -> & Hl3)].
      * rewrite split_l_last by done. simpl.
        destruct (isdecimal (of_chars l1) && isdecimal (of_chars l2)) eqn:Hd; [|done]. intros [= <- <-].
        apply andb_true_iff in Hd as [? ?]. rewrite <- (of_chars_chars base), E, of_chars_plus.
        by apply (bs_range low high (of_chars l1) (of_chars l2)).
      * rewrite split_l_first by done. destruct (split_l dash l4 []) eqn:E4; [|done].
        destruct (first_sep dash l4) as [?|(? & ? & -> & ?)];
          [rewrite split_l_last in E4 by done|rewrite split_l_first in E4 by done]; done.
  - intros [|a Ha|a b Ha Hb]; [done| |].
    + rewrite bool_decide_eq_false_2 by (intros ->; discriminate Ha). unfold str_split.
      rewrite split_l_last by (by apply decimal_chars). simpl. by rewrite of_chars_chars, Ha.
    + pose proof (decimal_chars a dash Ha eq_refl). pose proof (decimal_chars b dash Hb eq_refl).
      unfold str_split. rewrite !chars_app. change (chars "-" ++ chars b)%list with (dash :: chars b).
      rewrite split_l_first, split_l_last by done. simpl. rewrite !of_chars_chars, Ha, Hb. simpl.
      rewrite bool_decide_eq_false_2; [done|]. intros E. apply (f_equal chars) in E.
      rewrite !chars_app in E. change (chars "-" ++ chars b)%list with (dash :: chars b) in E.
      apply (f_equal (fun l => dash ∈ l)) in E. assert (dash ∈ chars "*") as Hin by (rewrite <- E; set_solver).
      by apply list_elem_of_singleton in Hin.
Qed.

Lemma elem_of_py_range x start stop step : 0 < step ->
  x ∈ py_range start stop step <-> start <= x < stop /\ (step | x - start).
Proof.
  intros Hs. unfold py_range. rewrite list_elem_of_fmap. setoid_rewrite elem_of_seqZ. split.
  - intros (i & -> & Hi). split; [|exists i; lia].
    assert (i < (stop - start + step - 1) / step) as Hlt by lia.
    apply Z.lt_le_pred, (Z.mul_le_mono_nonneg_l _ _ step) in Hlt; [|lia].
    pose proof (Z.mul_div_le (stop - start + step - 1) step Hs). split; [nia|]. lia.
  - intros [Hx [i Hi]]. exists i. split; [lia|]. assert (0 <= i) by nia. split; [lia|].
    rewrite Z.add_0_l. enough (i + 1 <= (stop - start + step - 1) / step) by lia.
    apply Z.div_le_lower_bound; [lia|]. nia.
Qed.

Lemma cron_item_Ok low high item l n : cron_item low high item = Ok l ->
  n ∈ l <-> item_allows low high n item.
Proof.
  unfold cron_item, partition_str.
  change (String.list_ascii_of_string item) with (chars item).
  destruct (first_sep slash (chars item)) as [Hn|(l1 & l2 & E & Hl1)].
  - rewrite partition_l_none by done. simpl. change (String.string_of_list_ascii (chars item)) with (of_chars (chars item)).
    rewrite of_chars_chars. intros ([start stop] & Hb & H)%result_bind_Ok.
    destruct (negb _); [done|]. injection H as <-. apply cron_base_Ok in Hb.
    rewrite elem_of_py_range by lia. split.
    + intros [? _]. eapply ia_plain; [exact Hb|lia].
    + intros Hia. inversion Hia as [base a b Hb' ? Eb|base a b st Hb' ? ? ? Eb]; subst.
      * apply cron_base_Ok in Hb, Hb'. rewrite Hb in Hb'. injection Hb' as <- <-. split; [lia|apply Z.divide_1_l].
      * destruct Hn. rewrite !chars_app. apply elem_of_app. right. apply elem_of_app. left.
        by apply list_elem_of_singleton.
  - rewrite E, partition_l_some by done. cbn [reverse rev_append app fmap option_fmap option_map].
    change (String.string_of_list_ascii (reverse [] ++ l1)%list) with (of_chars l1).
    change (String.string_of_list_ascii l2) with (of_chars l2).
    assert (item = of_chars l1 ++ "/" ++ of_chars l2) as Ei
      by (rewrite <- (of_chars_chars item), E; apply (of_chars_plus l1 (slash :: l2))).
    intros (step & Hstep & ([start stop] & Hb & H)%result_bind_Ok)%result_bind_Ok.
    unfold cron_step in Hstep. destruct (_ || _) eqn:Hd in Hstep; [done|]. injection Hstep as <-. bool_props.
    destruct (negb _); [done|]. injection H as <-. apply cron_base_Ok in Hb.
    rewrite elem_of_py_range by lia. split.
    + intros [? ?]. rewrite Ei. eapply ia_step; [exact Hb|lia|done|done].
    + rewrite Ei. intros Hia. inversion Hia as [base a b Hb' ? Eb|base a b st Hb' ? ? ? Eb].
      * apply base_no_slash in Hb'. destruct Hb'. rewrite !chars_app. apply elem_of_app. right. apply elem_of_app. left.
        by apply list_elem_of_singleton.
      * assert (base = of_chars l1 /\ st = of_chars l2) as [-> ->].
        { apply (f_equal chars) in Eb. rewrite !chars_app, !chars_of_chars in Eb.
          pose proof (base_no_slash _ _ _ _ _ Hb') as Hns.
          pose proof (partition_l_some slash (chars base) (chars st) [] Hns) as P1.
          pose proof (partition_l_some slash l1 l2 [] Hl1) as P2.
          change (chars "/" ++ chars st)%list with (slash :: chars st) in Eb.
          change (chars "/" ++ l2)%list with (slash :: l2) in Eb.
          rewrite Eb in P1. rewrite P1 in P2. simpl in P2. injection P2 as P2 P3.
          split; [by rewrite <- P2, of_chars_chars|by rewrite <- P3, of_chars_chars]. }
        apply cron_base_Ok in Hb, Hb'. rewrite Hb in Hb'. injection Hb' as <- <-. split; [lia|done].
Qed.

Lemma cron_item_bounds low high item l : cron_item low high item = Ok l ->
  Forall (fun n => low <= n <= high) l.
Proof.
  unfold cron_item. destruct (partition_str slash item) as [base raw].
  intros (step & Hstep & ([start stop] & _ & H)%result_bind_Ok)%result_bind_Ok.
  destruct (negb _) eqn:Hd; [done|]. injection H as <-. bool_props.
  assert (0 < step) as Hs.
  { unfold cron_step in Hstep. destruct raw as [raw|]; [|by injection Hstep as <-].
    destruct (_ || _) eqn:Hr in Hstep; [done|]. injection Hstep as <-. bool_props. lia. }
  apply Forall_forall. intros n. rewrite elem_of_py_range by done. lia.
Qed.

Lemma Forall2_in_l {A B} (P : A -> B -> Prop) l k x : Forall2 P l k -> x ∈ l -> exists y, y ∈ k /\ P x y.
Proof.
  intros Hf [i Hi]%list_elem_of_lookup. destruct (Forall2_lookup_l _ _ _ _ _ Hf Hi) as (y & Hy & ?).
  exists y. split; [by eapply list_elem_of_lookup_2|done].
Qed.

Lemma Forall2_in_r {A B} (P : A -> B -> Prop) l k y : Forall2 P l k -> y ∈ k -> exists x, x ∈ l /\ P x y.
Proof. intros Hf Hy. apply (Forall2_in_l (flip P) k l y); [by apply Forall2_flip|done]. Qed.

(** The set the parser computes is the set of values the field allows. *)
Lemma cron_field_Ok low high field vs : cron_field low high field = Ok vs ->
  (forall n, n ∈ vs <-> field_allows low high field n) /\ (forall n, n ∈ vs -> low <= n <= high).
Proof.
  intros (items & Hi & H)%result_bind_Ok. cbv zeta in H. case_bool_decide; [done|]. injection H as <-.
  apply result_map_Ok in Hi.
  assert (forall n, n ∈ (list_to_set (concat items) : gset Z) <-> exists l, l ∈ items /\ n ∈ l) as Hin.
  { intros n. rewrite elem_of_list_to_set, list_elem_of_In, in_concat. by setoid_rewrite <- list_elem_of_In. }
  split.
  - intros n. rewrite Hin. split.
    + intros (l & Hl & Hn). destruct (Forall2_in_r _ _ _ _ Hi Hl) as (item & Hit & Hok).
      exists item. split; [done|]. by apply (cron_item_Ok _ _ _ _ _ Hok).
    + intros (item & Hit & Hn). destruct (Forall2_in_l _ _ _ _ Hi Hit) as (l & Hl & Hok).
      exists l. split; [done|]. by apply (cron_item_Ok _ _ _ _ _ Hok).
  - intros n (l & Hl & Hn)%Hin. destruct (Forall2_in_r _ _ _ _ Hi Hl) as (item & _ & Hok).
    apply cron_item_bounds in Hok. rewrite Forall_forall in Hok. by apply Hok.
Qed.

(** A set of values between the bounds that has all of them is counted in full. *)
Lemma full_size low high (vs : gset Z) : low <= high -> (forall n, n ∈ vs -> low <= n <= high) ->
  size vs = Z.to_nat (high - low + 1) <-> forall n, low <= n <= high -> n ∈ vs.
Proof.
  intros Hlh Hb. set (all := list_to_set (seqZ low (high - low + 1)) : gset Z).
  assert (forall n, n ∈ all <-> low <= n <= high) as Hall.
  { intros n. unfold all. rewrite elem_of_list_to_set, elem_of_seqZ. lia. }
  assert (size all = Z.to_nat (high - low + 1)) as Hsz.
  { unfold all. rewrite size_list_to_set by apply NoDup_seqZ. by rewrite length_seqZ. }
  rewrite <- Hsz. split.
  - intros E n Hn. assert (vs ⊆ all) as Hsub by (intros x Hx; apply Hall; auto).
    assert (vs ≡ all) as Heq by (apply set_subseteq_size_equiv; [done|lia]). apply Heq. by apply Hall.
  - intros H. assert (vs = all) as ->; [|done]. apply set_eq. intros n. rewrite Hall. split; [apply Hb|apply H].
Qed.

Lemma restricted_size low high field vs : low <= high -> cron_field low high field = Ok vs ->
  restricted low high field <-> size vs <> Z.to_nat (high - low + 1).
Proof.
  intros Hlh [Hv Hb]%cron_field_Ok. rewrite (full_size low high) by done. split.
  - intros (n & Hn & Hna) H. apply Hna, Hv. by apply H.
  - intros Hne. destruct (decide (Forall (fun n => n ∈ vs) (seqZ low (high - low + 1)))) as [Hf|Hf].
    + destruct Hne. intros n Hn. rewrite Forall_forall in Hf. apply Hf, elem_of_seqZ. lia.
    + apply not_Forall_Exists in Hf; [|apply _]. apply Exists_exists in Hf as (n & Hn & Hna).
      exists n. apply elem_of_seqZ in Hn. split; [lia|]. intros Ha. by apply Hna, Hv.
Qed.

(** The test of the loop decides the meaning of the expression. *)
Lemma cron_matches_iff expression c w : cron_fields expression = Ok c ->
  cron_matches c w = true <-> is_occurrence expression w.
Proof.
  unfold cron_fields. destruct (split_ws expression) as [|f0 [|f1 [|f2 [|f3 [|f4 []]]]]] eqn:Ew; try done.
  destruct (128 <? _); [done|].
  intros (m & Hm & (h & Hh & (d & Hd & (mo & Hmo & (wd & Hwd & [= <-])%result_bind_Ok)%result_bind_Ok)%result_bind_Ok)%result_bind_Ok)%result_bind_Ok.
  pose proof (restricted_size 1 31 f2 d ltac:(lia) Hd) as Rd. pose proof (restricted_size 0 6 f4 wd ltac:(lia) Hwd) as Rw.
  apply cron_field_Ok in Hm as [Hm _], Hh as [Hh _], Hd as [Hd _], Hmo as [Hmo _], Hwd as [Hwd _].
  unfold cron_matches, in_b. cbn [c_minutes c_hours c_days c_months c_weekdays].
  rewrite !andb_true_iff, !bool_decide_eq_true, Hm, Hh, Hmo.
  assert ((if negb (Nat.eqb (size d) 31) && negb (Nat.eqb (size wd) 7)
           then bool_decide (w_day w ∈ d) || bool_decide ((w_weekday w + 1) mod 7 ∈ wd)
           else bool_decide (w_day w ∈ d) && bool_decide ((w_weekday w + 1) mod 7 ∈ wd)) = true <->
    (restricted 1 31 f2 /\ restricted 0 6 f4 /\
       (field_allows 1 31 f2 (w_day w) \/ field_allows 0 6 f4 ((w_weekday w + 1) mod 7))) \/
    (~ (restricted 1 31 f2 /\ restricted 0 6 f4) /\
       field_allows 1 31 f2 (w_day w) /\ field_allows 0 6 f4 ((w_weekday w + 1) mod 7))) as Hday.
  { rewrite Rd, Rw. change (Z.to_nat (31 - 1 + 1)) with 31%nat. change (Z.to_nat (6 - 0 + 1)) with 7%nat.
    rewrite <- Hd, <- Hwd.
    destruct (Nat.eqb_spec (size d) 31), (Nat.eqb_spec (size wd) 7); cbn [negb andb];
      rewrite ?andb_true_iff, ?orb_true_iff, !bool_decide_eq_true; tauto. }
  rewrite Hday. unfold is_occurrence. rewrite Ew. split.
  - intros [[[? ?] ?] ?]. exists f0, f1, f2, f3, f4. done.
  - intros (g0 & g1 & g2 & g3 & g4 & [= <- <- <- <- <-] & ? & ? & ? & ?). done.
Qed.

Section promises.
Context (zone : string -> option (Z -> Z)).

Lemma aligned a u : a - a mod minute + minute <= u -> u mod minute = 0 ->
  exists j, 0 <= j /\ u = a - a mod minute + minute + j * minute.
Proof.
  intros Hu Hm. exists ((u - (a - a mod minute + minute)) / minute). mlia.
Qed.

Lemma cron_next_inv expression after timezone t : cron_next zone expression after timezone = Ok t ->
  exists c offset, cron_fields expression = Ok c /\ zone timezone = Some offset /\
    scan 527040 (occurs c offset) (after - after mod minute + minute) = Found t.
Proof.
  unfold cron_next. intros (c & Hc & H)%result_bind_Ok.
  destruct (zone timezone) as [offset|]; [|done].
  destruct (scan 527040 _ _) as [t'|] eqn:E; [|done]. injection H as <-. eauto.
Qed.

(** C29. [cron_next] answers with the first occurrence: for an accepted expression and a known
    zone, the answer is a whole minute strictly after the given instant whose local time is an
    occurrence of the expression (minute, hour and month allowed; day of month or day of week when
    both are restricted, both otherwise), and no whole minute in between is one; it raises only when
    none of the 527040 minutes of the horizon is an occurrence. *)
Theorem cron_next_is_the_first_occurrence expression after timezone c offset :
  cron_fields expression = Ok c -> zone timezone = Some offset ->
  match cron_next zone expression after timezone with
  | Ok t => after < t <= after + 527040 * minute /\ t mod minute = 0 /\
      is_occurrence expression (wall_of (t + offset t)) /\
      forall u, after < u < t -> u mod minute = 0 -> ~ is_occurrence expression (wall_of (u + offset u))
  | Err _ => forall u, after < u <= after - after mod minute + 527040 * minute -> u mod minute = 0 ->
      ~ is_occurrence expression (wall_of (u + offset u))
  end.
Proof.
  intros Hc Hz. unfold cron_next. rewrite Hc. cbn [mbind result_bind]. rewrite Hz.
  assert (forall u, occurs c offset u = false -> ~ is_occurrence expression (wall_of (u + offset u))) as Hnot.
  { intros u Hu Ho. apply (cron_matches_iff _ _ _ Hc) in Ho. unfold occurs in Hu. congruence. }
  assert (0 <= after mod minute < minute) as Hmod by (by apply Z.mod_pos_bound).
  pose proof (scan_spec 527040 (occurs c offset) (after - after mod minute + minute)) as H.
  destruct (scan 527040 _ _) as [t|cur]; simpl in H.
  - destruct H as (k & Hk & -> & Hh & Hno). split_and!; [mlia..| |].
    + by apply (cron_matches_iff _ _ _ Hc).
    + intros u Hu Hm. apply Hnot. destruct (aligned after u) as (j & Hj & ->); [mlia|done|]. apply Hno. mlia.
  - destruct H as [_ Hno]. intros u Hu Hm. apply Hnot. destruct (aligned after u) as (j & Hj & ->); [mlia|done|].
    apply Hno. mlia.
Qed.

Lemma cron_next_after expression after timezone t :
  cron_next zone expression after timezone = Ok t -> after < t.
Proof.
  intros (c & offset & _ & _ & Hs)%cron_next_inv.
  pose proof (scan_spec 527040 (occurs c offset) (after - after mod minute + minute)) as H.
  rewrite Hs in H. destruct H as (k & Hk & -> & _). mlia.
Qed.

(** What may be fired at [current] for a schedule that became due at [due]. *)
Definition fireable (due current max_catch_up : Z) (times : list Z) : Prop :=
  Forall (fun t => due <= t <= current) times /\ Z.of_nat (length times) <= max_catch_up /\ NoDup times.

Lemma fireable_one due current n t : due <= t <= current -> 1 <= n -> fireable due current n [t].
Proof. intros Ht Hn. split_and!; [by apply Forall_singleton|simpl; lia|]. apply NoDup_singleton. Qed.

Lemma fireable_nil due current n : 1 <= n -> fireable due current n [].
Proof. intros Hn. split_and!; [constructor|simpl; lia|constructor]. Qed.

Lemma interval_due_spec interval n due current : 0 < interval -> 1 <= n -> due <= current ->
  let d := interval_due interval n due current in
  fireable due current n (d_times d) /\ due <= d_latest d <= current /\
  current < d_next d /\ d_next d = d_latest d + seconds interval.
Proof.
  intros Hi Hn Hd. unfold interval_due. cbn [d_times d_latest d_next].
  set (q := (current - due) / seconds interval).
  assert (0 < seconds interval) as Hpos by (unfold seconds; lia).
  assert (0 <= q) as Hq by (apply Z.div_pos; lia).
  assert (seconds interval * q <= current - due < seconds interval * (q + 1)) as Hb
    by (unfold q; split; [by apply Z.mul_div_le|rewrite Z.mul_add_distr_l, Z.mul_1_r, Z.add_comm;
        pose proof (Z.mul_succ_div_gt (current - due) (seconds interval)); lia]).
  assert (forall k, seconds (interval * k) = seconds interval * k) as Hsec by (unfold seconds; lia).
  rewrite !Hsec. split_and!; try lia.
  split_and!.
  - apply Forall_fmap, Forall_forall. intros i Hi'. simpl.
    apply elem_of_reverse, elem_of_seqZ in Hi'. rewrite Hsec. nia.
  - rewrite length_fmap, length_reverse, length_seqZ. lia.
  - apply NoDup_fmap_2_strong; [|rewrite reverse_Permutation; apply NoDup_seqZ].
    intros x y _ _ Hxy. rewrite !Hsec in Hxy. nia.
Qed.

Lemma cron_due_spec fuel s due current cursor times latest d :
  cron_due zone fuel s current cursor times latest = Ok d ->
  1 <= s_max_catch_up s -> due <= cursor -> due <= latest <= current ->
  Forall (fun t => due <= t < cursor /\ t <= current) times -> NoDup times ->
  Z.of_nat (length times) <= s_max_catch_up s ->
  fireable due current (s_max_catch_up s) (d_times d) /\ due <= d_latest d <= current /\ current < d_next d.
Proof.
  revert cursor times latest; induction fuel as [|fuel IH];
    intros cursor times latest H Hn Hdc Hl Ht Hnd Hlen; simpl in H; [done|].
  destruct (current <? cursor) eqn:Ec; bool_props.
  - injection H as <-. simpl. split_and!; try done; try lia.
    split_and!; [|done|done]. eapply Forall_impl; [exact Ht|]. simpl. lia.
  - apply result_bind_Ok in H as (next & Hnext%cron_next_after & H).
    eapply IH; [exact H|done|lia|lia|..]; unfold keep_last.
    + apply Forall_drop, Forall_app_2; [eapply Forall_impl; [exact Ht|]; simpl; lia|].
      apply Forall_singleton. lia.
    + eapply sublist_NoDup; [|apply sublist_drop]. apply NoDup_app. split_and!; [done| |apply NoDup_singleton].
      intros x Hx ->%list_elem_of_singleton. rewrite Forall_forall in Ht. specialize (Ht _ Hx). lia.
    + rewrite length_drop, length_app. simpl. lia.
Qed.

(** A schedule that was asleep never floods: whatever the policy, the occurrences fired for a
    due schedule lie between the moment it became due and now, are pairwise distinct and at most
    [max_catch_up] many, and the schedule is next due strictly after now, so one tick catches up
    completely. *)
Theorem missed_occurrences_are_bounded s due current times next :
  match s_interval s with Some i => 0 < i | None => True end ->
  1 <= s_max_catch_up s -> due <= current ->
  occurrences zone s due current = Ok (times, next) ->
  Forall (fun t => due <= t <= current) times /\
  Z.of_nat (length times) <= s_max_catch_up s /\ NoDup times /\ current < next.
Proof.
  intros Hi Hn Hd (d & Hdue & [= <- <-])%result_bind_Ok.
  enough (fireable due current (s_max_catch_up s) (d_times d) /\ due <= d_latest d <= current /\
          current < d_next d) as (Hf & Hl & Hx).
  { pose proof (fireable_one due current (s_max_catch_up s) _ Hl Hn) as H1.
    pose proof (fireable_nil due current (s_max_catch_up s) Hn) as H0.
    assert (forall l, fireable due current (s_max_catch_up s) l -> Forall (fun t => due <= t <= current) l /\
      Z.of_nat (length l) <= s_max_catch_up s /\ NoDup l /\ current < d_next d) as Hall
      by (intros l (? & ? & ?); exact (conj H (conj H2 (conj H3 Hx)))).
    clear Hdue. destruct (s_policy s); [destruct (minute <? current - due)|..]; by apply Hall. }
  destruct (s_interval s) as [i|].
  - injection Hdue as <-.
    destruct (interval_due_spec i (s_max_catch_up s) due current Hi Hn Hd) as (H1 & H2 & H3 & _).
    exact (conj H1 (conj H2 H3)).
  - eapply cron_due_spec; [exact Hdue|done|lia|lia|constructor|constructor|simpl; lia].
Qed.

End promises.

Module ScheduleScenario.
Definition utc (name : string) : option (Z -> Z) :=
  if bool_decide (name = "UTC") then Some (fun _ => 0) else None.
Definition daily : schedule := {| s_interval := None; s_cron := "30 8 * * *"; s_timezone := "UTC";
  s_policy := CATCH_UP; s_max_catch_up := 2 |}.
End ScheduleScenario.

(** The 13th, or a Monday: from the first of January 1970, Monday the fifth comes first. *)
Lemma cron_next_is_the_first_occurrence_witness :
  exists t, cron_next ScheduleScenario.utc "30 8 13 * 1" 0 "UTC" = Ok t /\ t = 4 * day_us + 510 * minute /\
    is_occurrence "30 8 13 * 1" (wall_of t).
Proof.
  exists (4 * day_us + 510 * minute).
  assert (cron_next ScheduleScenario.utc "30 8 13 * 1" 0 "UTC" = Ok (4 * day_us + 510 * minute)) as E
    by (vm_compute; reflexivity).
  split; [exact E|]. split; [reflexivity|].
  assert (exists c, cron_fields "30 8 13 * 1" = Ok c) as [c Hc] by (eexists; vm_compute; reflexivity).
  pose proof (cron_next_is_the_first_occurrence ScheduleScenario.utc "30 8 13 * 1" 0 "UTC" c (fun _ => 0) Hc
    eq_refl) as H.
  rewrite E in H. destruct H as (_ & _ & H & _).
  rewrite Z.add_0_r in H. exact H.
Defined.

Lemma missed_occurrences_are_bounded_witness :
  exists times next, occurrences ScheduleScenario.utc ScheduleScenario.daily (510 * minute) (5 * day_us)
      = Ok (times, next) /\ length times = 2%nat /\ NoDup times /\ 5 * day_us < next.
Proof.
  exists [3 * day_us + 510 * minute; 4 * day_us + 510 * minute], (5 * day_us + 510 * minute).
  assert (occurrences ScheduleScenario.utc ScheduleScenario.daily (510 * minute) (5 * day_us) =
    Ok ([3 * day_us + 510 * minute; 4 * day_us + 510 * minute], 5 * day_us + 510 * minute)) as H
    by (vm_compute; reflexivity).
  destruct (missed_occurrences_are_bounded ScheduleScenario.utc ScheduleScenario.daily
    (510 * minute) (5 * day_us) _ _ I ltac:(vm_compute; discriminate) ltac:(vm_compute; discriminate) H)
    as (_ & _ & Hn & Hx).
  split_and!; [exact H|reflexivity|exact Hn|exact Hx].
Defined.
