(* ===== verification/Scheduler.v ===== *)
(** * Scheduler: durable schedules

    Models [DurableScheduler] of [core/scheduling.py] over the record store and the job queue.
    Instants are aware; [fromisoformat] reads what [isoformat] writes, and [iso_other] stands for
    the other spellings it accepts. *)

From S2P Require Import Prelude Text Json Schemas Workflows Records Governance JobQueue Tasks.
From S2P Require Import Monitor Runtime RuntimeSafety Scheduling.
Local Open Scope string_scope.
Local Open Scope Z_scope.

Inductive schE : Type -> Type :=
| SchRecord {X} (op : recE X) : schE X
| SchCommand {X} (op : cmdE X) : schE X
| SchJob {X} (op : jobE X) : schE X
| SchEnv {X} (op : envE X) : schE X.

#[global] Instance SubE_sch_rec : SubE recE schE := fun X op => SchRecord op.
#[global] Instance SubE_sch_cmd : SubE cmdE schE := fun X op => SchCommand op.
#[global] Instance SubE_sch_job : SubE jobE schE := fun X op => SchJob op.
#[global] Instance SubE_sch_env : SubE envE schE := fun X op => SchEnv op.

Section scheduler.
Context (zone : string -> option (Z -> Z)) (iso_other : string -> result Z) (task : Z).

Definition fromisoformat (s : string) : result Z :=
  match parse_utc s with Some t => Ok t | None => iso_other s end.

Definition _DEFINITION_FIELDS : list string :=
  ["id"; "source_id"; "extension_id"; "extension_version"; "interval_seconds"; "cron"; "timezone";
   "misfire_policy"; "max_catch_up"].

Definition check_definition (d : list (string * json)) : result unit :=
  _ ← raise_if (negb (keys_within d _DEFINITION_FIELDS)
                || negb (forallb (fun k => str_field k ident_fullmatch d)
                           ["id"; "source_id"; "extension_id"; "extension_version"]))
        ValidationError "schedule must target a declared read-only event source";
  known ← in_set (get_or_null "misfire_policy" d) ["skip"; "coalesce"; "catch_up"];
  _ ← raise_if (negb known) ValidationError "unsupported misfire policy";
  let interval := get_or_null "interval_seconds" d in
  let expression := get_or_null "cron" d in
  _ ← raise_if (Bool.eqb (bool_decide (interval = JNull)) (bool_decide (expression = JNull)))
        ValidationError "choose one interval or cron expression";
  _ ← match interval with
      | JNull => Ok tt
      | JInt n => raise_if (negb ((30 <=? n) && (n <=? 31536000))) ValidationError
                    "interval must be from 30 seconds to one year"
      | _ => fail ValidationError "interval must be from 30 seconds to one year"
      end;
  _ ← match default (JInt 1) (assoc "max_catch_up" d) with
      | JInt n => raise_if (negb ((1 <=? n) && (n <=? 10))) ValidationError
                    "catch-up must be bounded to one to ten polls"
      | _ => fail ValidationError "catch-up must be bounded to one to ten polls"
      end;
  _ ← match get_or_null "timezone" d with
      | JStr tz => raise_if (negb (bool_decide (is_Some (zone tz)))) ValidationError "unknown timezone"
      | _ => fail ValidationError "an IANA timezone is required"
      end;
  match expression with
  | JNull | JStr _ => Ok tt
  | _ => fail ValidationError "cron must be a string"
  end.

(** The first occurrence of a definition that passed the checks. *)
Definition first_due (d : list (string * json)) (current : Z) : result Z :=
  match get_or_null "interval_seconds" d with
  | JInt n => Ok (current + seconds n)
  | _ =>
      match get_or_null "cron" d, get_or_null "timezone" d with
      | JStr expression, JStr tz => cron_next zone expression current tz
      | _, _ => fail ValidationError "cron must be a string"
      end
  end.

Definition configure (d : list (string * json)) (key : string) (now : option Z) : prog schE json :=
  _ ← of_result (check_definition d);
  current ← now_or now;
  next_at ← of_result (first_due d current);
  command task key (JObj [("operation", JStr "schedule"); ("definition", JObj d)])
    (i ← of_result (str_item "id" d);
     old ← call (RGet "schedules" i);
     match old with
     | Some _ => raise_prog ValidationError "schedule already exists; disable it before replacement"
     | None =>
         r ← call (RPut "schedules" i (JObj [("definition", JObj d);
                     ("next_at", JStr (isoformat next_at)); ("enabled", JBool true)]) 0);
         Ret (record_json r)
     end).

(** ** [tick] *)

Definition schedule_of (d : list (string * json)) : result schedule :=
  n ← match default (JInt 1) (assoc "max_catch_up" d) with
      | JInt n => Ok n
      | _ => bad_field "max_catch_up"
      end;
  policy ← str_item "misfire_policy" d;
  interval ← match get_or_null "interval_seconds" d with
             | JNull => Ok None
             | JInt n => Ok (Some n)
             | _ => bad_field "interval_seconds"
             end;
  expression ← match interval with Some _ => Ok "" | None => str_item "cron" d end;
  tz ← match interval with Some _ => Ok "" | None => str_item "timezone" d end;
  Ok {| s_interval := interval; s_cron := expression; s_timezone := tz;
        s_policy := if bool_decide (policy = "skip") then SKIP
                    else if bool_decide (policy = "catch_up") then CATCH_UP else COALESCE;
        s_max_catch_up := n |}.

Definition poll_payload (d : list (string * json)) : result (list (string * json)) :=
  e ← dict_item "extension_id" d; v ← dict_item "extension_version" d; s ← dict_item "source_id" d;
  Ok [("extension_id", e); ("extension_version", v); ("source_id", s)].

Fixpoint enqueue_polls (i : string) (d : list (string * json)) (times : list Z) : prog schE unit :=
  match times with
  | [] => Ret tt
  | t :: times =>
      payload ← of_result (poll_payload d);
      _ ← call (JEnqueue "event.poll" payload ("schedule:" ++ i ++ ":" ++ isoformat t));
      enqueue_polls i d times
  end.

(** The inner [apply] of a tick. *)
Definition apply_tick (r : StoredRecord) (value d : list (string * json)) (times : list Z) (next_at : Z)
  : prog schE json :=
  _ ← enqueue_polls (rec_id r) d times;
  _ ← call (RPut "schedules" (rec_id r) (JObj (assoc_set "next_at" (JStr (isoformat next_at)) value))
              (rec_version r));
  Ret (JObj [("fired", JInt (Z.of_nat (length times)))]).

(** One record of the loop: how many polls were enqueued for it. *)
Definition tick_record (current : Z) (r : StoredRecord) : prog schE Z :=
  value ← of_result (as_dict (rec_value r));
  enabled ← of_result (dict_item "enabled" value);
  if negb (py_truth enabled) then Ret 0
  else
    text ← of_result (str_item "next_at" value);
    due ← of_result (fromisoformat text);
    if current <? due then Ret 0
    else
      d ← of_result (x ← dict_item "definition" value; as_dict x);
      s ← of_result (schedule_of d);
      fire ← of_result (occurrences zone s due current);
      let '(times, next_at) := fire in
      answer ← command task ("schedule-tick:" ++ rec_id r ++ ":" ++ str_of_Z (rec_version r))
        (JObj [("next_at", JStr (isoformat next_at)); ("times", JList ((fun t => JStr (isoformat t)) <$> times))])
        (apply_tick r value d times next_at);
      of_result (a ← as_dict answer; int_item "fired" a).

Fixpoint tick_records (current : Z) (rs : list StoredRecord) (fired : Z) : prog schE Z :=
  match rs with
  | [] => Ret fired
  | r :: rs => n ← tick_record current r; tick_records current rs (fired + n)
  end.

Definition tick (now : option Z) : prog schE Z :=
  current ← now_or now;
  rs ← call (RList "schedules");
  tick_records current rs 0.

(** ** Only polls are ever queued *)

(** The only job a schedule queues is a poll of its event source, and the only records it
    writes are schedules. *)
Definition sch_ok (X : Type) (_ : unit) (op : schE X) : Prop :=
  match op with
  | SchJob op =>
      match op with
      | JEnqueue kind payload _ =>
          kind = "event.poll" /\ keys payload = ["extension_id"; "extension_version"; "source_id"]
      | _ => False
      end
  | SchRecord (RPut bucket _ _ _) => bucket = "schedules"
  | _ => True
  end.

Notation skeeps := (keeps sch_ok (fun X _ _ _ => tt) (fun _ : unit => True)).

Lemma sch_call {E X} `{SubE E schE} (op : E X) : sch_ok X tt (inject X op) -> skeeps (call op).
Proof. intros Hop. apply keeps_perform. intros [] _. done. Qed.

Ltac walk :=
  repeat first
    [ assumption | apply keeps_ret | apply keeps_raise | apply keeps_of_result
    | (apply sch_call; solve [exact I | done])
    | match goal with
      | |- skeeps (_ ≫= _) => apply keeps_bind; [|intros ?]
      | |- skeeps (prog_match _ _ _) => apply keeps_match; [|intros ?|intros ?]
      | |- skeeps (match ?x with _ => _ end) => destruct x
      end ].

Lemma command_walks key request action : skeeps action -> skeeps (command task key request action).
Proof. intros Ha. unfold command, apply_command. walk. Qed.

Lemma poll_payload_keys d p : poll_payload d = Ok p ->
  keys p = ["extension_id"; "extension_version"; "source_id"].
Proof.
  unfold poll_payload.
  intros (? & _ & (? & _ & (? & _ & [= <-])%result_bind_Ok)%result_bind_Ok)%result_bind_Ok. done.
Qed.

Lemma enqueue_walks i d times : skeeps (enqueue_polls i d times).
Proof.
  induction times as [|t times IH]; cbn [enqueue_polls]; [walk|].
  apply keeps_of_result_bind. intros p Hp%poll_payload_keys. apply keeps_bind; [|by intros _].
  by apply sch_call.
Qed.

Lemma tick_walks now : skeeps (tick now).
Proof.
  unfold tick. apply keeps_bind; [unfold now_or; walk|]. intros current.
  apply keeps_bind; [walk|]. intros rs. generalize 0. induction rs as [|r rs IH]; intros fired;
    cbn [tick_records]; [walk|]. apply keeps_bind; [|intros n; apply IH]. unfold tick_record. walk.
  apply command_walks. unfold apply_tick. walk. apply enqueue_walks.
Qed.

(** Everything a tick asks for. *)
Definition sch_event_ok (ev : event schE) : Prop := match ev with Event op _ => sch_ok _ tt op end.

Lemma watched_all tr : watched sch_ok (fun X _ _ _ => tt) tt tr -> Forall sch_event_ok tr.
Proof. induction tr as [|[X op ans] tr IH]; [constructor|]. intros [Hop Htr]. constructor; auto. Qed.

(** Time spent offline never queues anything but reads: in every trace of a tick, whatever the
    stored schedules contain and however its operations are answered, the only jobs enqueued are
    [event.poll] jobs naming an extension, its version and a source, no other job operation is
    performed, and only schedule records are written. *)
Theorem ticks_only_queue_polls now tr res : execs (tick now) tr res -> Forall sch_event_ok tr.
Proof.
  intros Hx. apply watched_all.
  by destruct (mwp_execs _ _ (tick now) tt (fun _ _ => True) tr res (tick_walks now tt I) Hx).
Qed.

End scheduler.

Module SchedulerScenario.

Definition record : StoredRecord := {| rec_id := "s1"; rec_version := 3; rec_value := JObj [
  ("definition", JObj [("id", JStr "s1"); ("source_id", JStr "inbox"); ("extension_id", JStr "smail");
     ("extension_version", JStr "1.0"); ("interval_seconds", JInt 3600); ("timezone", JStr "UTC");
     ("misfire_policy", JStr "catch_up"); ("max_catch_up", JInt 2)]);
  ("next_at", JStr "2024-02-29T12:30:00+00:00"); ("enabled", JBool true)] |}.

Definition answer (X : Type) (op : schE X) : M (list string) X := fun queued =>
  match op in schE X return list string * result X with
  | SchRecord op => (queued, match op in recE X return result X with
                             | RGet _ _ => Ok None
                             | RList _ => Ok [record]
                             | RPut _ k v n => Ok {| rec_id := k; rec_version := n + 1; rec_value := v |}
                             end)
  | SchCommand op => (queued, match op in cmdE X return result X with
                              | COwner => Ok None
                              | CAcquire _ | CRelease | CKeep _ _ _ => Ok tt
                              | CFind _ => Ok None
                              end)
  | SchJob op => match op in jobE X return list string * result X with
                 | JEnqueue _ _ key => ((queued ++ [key])%list, Ok RuntimeScenario.job)
                 | JClaim _ => (queued, Ok None)
                 | JComplete _ _ _ | JFail _ _ _ _ | JRelease _ _ => (queued, Ok tt)
                 end
  | SchEnv op => (queued, match op in envE X return result X with
                          | Now => Ok 0
                          | NewUuid | NewToken => Ok "u"
                          end)
  end.

Definition ticking : prog schE Z :=
  tick ScheduleScenario.utc (fun s => fail PyValueError s) 1 (Some (seconds 1709216000)).

Definition queued : list string := (run answer ticking []).1.

End SchedulerScenario.

(** Two of the missed hours are caught up, under one idempotency key each. *)
Example queued_polls : SchedulerScenario.queued =
  ["schedule:s1:2024-02-29T12:30:00+00:00"; "schedule:s1:2024-02-29T13:30:00+00:00"].
Proof. vm_compute. reflexivity. Qed.

Lemma ticks_only_queue_polls_witness :
  exists tr res, execs SchedulerScenario.ticking tr res /\ res = Ok 2 /\ Forall sch_event_ok tr.
Proof.
  do 2 eexists. pose proof (trace_run_execs SchedulerScenario.answer SchedulerScenario.ticking []) as H.
  split; [exact H|]. split; [vm_compute; reflexivity|].
  exact (ticks_only_queue_polls _ _ _ _ _ _ H).
Defined.
