(* ===== verification/Events.v ===== *)
(** * Events: collecting and delivering domain events

    Models [EventCollector.collect] of [core/event_delivery.py]: a batch is polled, checked,
    stored event by event with delivery to the sink, and the source's cursor is committed last.
    Whether a text is an aware ISO timestamp is the argument [iso_aware]. *)

From S2P Require Import Prelude Text Json Schemas Workflows Records Governance Scheduling.
Local Open Scope string_scope.
Local Open Scope Z_scope.

Inductive evE : Type -> Type :=
| EvRecord {X} (op : recE X) : evE X
| EvCommand {X} (op : cmdE X) : evE X
| EvEnv {X} (op : envE X) : evE X
| EvPoll (extension_id extension_version : string) (query : json) : evE json
| EvSink (event : json) (identity : string) : evE unit.

#[global] Instance SubE_ev_rec : SubE recE evE := fun X op => EvRecord op.
#[global] Instance SubE_ev_cmd : SubE cmdE evE := fun X op => EvCommand op.
#[global] Instance SubE_ev_env : SubE envE evE := fun X op => EvEnv op.

Definition bounded (low high : Z) (s : string) : bool := (low <? str_len s) && (str_len s <=? high).

Section collector.
Context (iso_aware : string -> bool) (task : Z) (has_sink : bool).

(** The checks on a batch as a whole; the events and the cursor it carries. *)
Definition check_batch (batch : json) : result (list json * list string * json) :=
  b ← as_dict batch;
  match default JNull (assoc "events" b), default JNull (assoc "source_dedupe_keys" b) with
  | JList events, JList keys =>
      match result_map (fun k => match k with
                                 | JStr s => if bounded 0 256 s then Ok s
                                             else fail ValidationError "event batch is incomplete"
                                 | _ => fail ValidationError "event batch is incomplete"
                                 end) keys with
      | Err e => Err e
      | Ok names =>
          let next_cursor := default JNull (assoc "next_cursor" b) in
          let cursor_ok := match next_cursor with
                           | JNull => true
                           | JStr s => str_len s <=? 10000
                           | _ => false
                           end in
          if (100 <? Z.of_nat (length events)) || negb (bool_decide (NoDup names)) || negb cursor_ok
          then fail ValidationError "event batch is incomplete"
          else Ok (events, names, next_cursor)
      end
  | _, _ => fail ValidationError "event batch is incomplete"
  end.

(** One event; its deduplication key. *)
Definition check_event (event : json) : result string :=
  match event with
  | JObj e =>
      if negb (keys_exactly e ["type"; "source_dedupe_key"; "occurred_at"; "payload"])
         || negb (str_field "type" (bounded 0 128) e)
         || negb (str_field "source_dedupe_key" any_str e)
         || negb (str_field "occurred_at" any_str e)
         || negb (obj_field "payload" e)
      then fail ValidationError "domain event is incomplete"
      else if negb (str_field "occurred_at" iso_aware e)
      then fail ValidationError "event time must be an aware ISO timestamp"
      else
        _ ← fingerprint event;
        match assoc "source_dedupe_key" e with
        | Some (JStr k) => Ok k
        | _ => fail PyKeyError "source_dedupe_key"
        end
  | _ => fail ValidationError "domain event is incomplete"
  end.

Definition check_events (events : list json) (names : list string) : result unit :=
  event_keys ← result_map check_event events;
  raise_if (negb (bool_decide (NoDup event_keys))
            || negb (forallb (fun k => mem_b k names) event_keys
                     && forallb (fun k => mem_b k event_keys) names))
    ValidationError "event dedupe keys do not match the batch".

Definition event_identity (source : string) (event : list (string * json)) : result string :=
  k ← dict_item "source_dedupe_key" event;
  fingerprint (JObj [("source", JStr source); ("dedupe", k)]).

(** An event that is already stored has to be the same. *)
Definition known_event (event : json) (r : StoredRecord) : prog evE bool :=
  value ← of_result (d ← as_dict (rec_value r); dict_item "event" d);
  if negb (py_eq value event) then raise_prog ValidationError "immutable domain event changed"
  else Ret false.

(** A new event is stored and delivered. *)
Definition new_event (payload : list (string * json)) (source : string) (e : list (string * json))
    (identity : string) : prog evE bool :=
  version ← of_result (dict_item "extension_version" payload);
  _ ← call (RPut "domain-events" identity
              (JObj [("source", JStr source); ("extension_version", version); ("event", JObj e)]) 0);
  _ ← (if has_sink then call (EvSink (JObj (merge_dict e payload)) identity) else Ret tt);
  Ret true.

(** One event of the batch; whether it was new. *)
Definition deliver (payload : list (string * json)) (source : string) (event : json) : prog evE bool :=
  e ← of_result (as_dict event);
  identity ← of_result (event_identity source e);
  existing ← call (RGet "domain-events" identity);
  match existing with
  | Some r => known_event event r
  | None => new_event payload source e identity
  end.

Fixpoint deliver_all (payload : list (string * json)) (source : string) (events : list json)
    (added : Z) : prog evE Z :=
  match events with
  | [] => Ret added
  | event :: events =>
      fresh ← deliver payload source event;
      deliver_all payload source events (if (fresh : bool) then added + 1 else added)
  end.

(** The inner [apply] of [collect]. *)
Definition apply_collect (payload : list (string * json)) (extension_id version source_id : string)
  : prog evE json :=
  let source := extension_id ++ ":" ++ source_id in
  old ← call (RGet "event-cursors" source);
  cursor ← of_result (match old with
                      | Some r => d ← as_dict (rec_value r); dict_item "cursor" d
                      | None => Ok JNull
                      end);
  now ← call Now;
  batch ← call (EvPoll extension_id version (JObj [("source_id", JStr source_id); ("cursor", cursor);
                  ("deadline", JStr (isoformat (now + seconds 30))); ("limit", JInt 100)]));
  checked ← of_result (check_batch batch);
  let '(events, names, next_cursor) := checked in
  _ ← of_result (check_events events names);
  added ← deliver_all payload source events 0;
  _ ← call (RPut "event-cursors" source
              (JObj [("cursor", next_cursor); ("extension_version", JStr version)])
              (match old with Some r => rec_version r | None => 0 end));
  Ret (JObj [("added", JInt added); ("source", JStr source)]).

Definition collect (payload : list (string * json)) (job_id : string) : prog evE json :=
  match assoc "extension_id" payload, assoc "extension_version" payload, assoc "source_id" payload with
  | Some (JStr e), Some (JStr v), Some (JStr s) =>
      if keys_exactly payload ["extension_id"; "extension_version"; "source_id"]
         && bounded 0 128 e && bounded 0 128 v && bounded 0 128 s
      then command task ("poll-job:" ++ job_id) (JObj payload) (apply_collect payload e v s)
      else raise_prog ValidationError "invalid event source binding"
  | _, _, _ => raise_prog ValidationError "invalid event source binding"
  end.

End collector.

(** ** At-most-once delivery

    Collections hold the command lock, so they run one after the other; the extension and the
    sink answer anything. *)

Record ev_sys := {
  es_store : InMemoryRecordStore;
  es_delivered : list (json * string);      (* what the sink was called with *)
  es_turn : nat
}.

#[export] Instance ev_sys_eta : Eta ev_sys := fun s =>
  Build_ev_sys (es_store s) (es_delivered s) (es_turn s).

Section delivery.
Context (polls : nat -> result json) (sinks : nat -> result unit) (clock : nat -> Z).

Definition ev_answer (X : Type) (op : evE X) : M ev_sys X := fun s =>
  let s' := s {{ es_turn := S (es_turn s) }} in
  match op in evE X return ev_sys * result X with
  | EvRecord op => let '(st, r) := answer_record _ op (es_store s) in (s' {{ es_store := st }}, r)
  | EvCommand op =>
      match answer_command _ op (es_store s) with
      | Some (st, r) => (s' {{ es_store := st }}, r)
      | None => (s', fail PyRuntimeError "the command lock is held")
      end
  | EvEnv op => (s', match op in envE X return result X with
                     | Now => Ok (clock (es_turn s))
                     | NewUuid | NewToken => Ok ""
                     end)
  | EvPoll _ _ _ => (s', polls (es_turn s))
  | EvSink event identity =>
      (s' {{ es_delivered := (es_delivered s ++ [(event, identity)])%list }}, sinks (es_turn s))
  end.

(** Any number of collections, one after the other; a payload is a dictionary. *)
Inductive collects : ev_sys -> ev_sys -> Prop :=
| collects_one iso_aware task has_sink payload job_id s : NoDup (keys payload) ->
    collects s (run ev_answer (collect iso_aware task has_sink payload job_id) s).1.

(** What names an event for its receiver: the source it comes from and the source's own key. *)
Definition named_by (event : json) : option json * option json * option json :=
  match event with
  | JObj l => (assoc "extension_id" l, assoc "source_id" l, assoc "source_dedupe_key" l)
  | _ => (None, None, None)
  end.

Definition event_record (i : string) (s : ev_sys) : option StoredRecord :=
  find_record ("domain-events", i) (_records (es_store s)).

(** A stored record holds the event with this source and key. *)
Definition holds_event (source : string) (k : json) (r : StoredRecord) : Prop :=
  exists version e, assoc "source_dedupe_key" e = Some k /\
    rec_value r = JObj [("source", JStr source); ("extension_version", version); ("event", JObj e)].

(** A delivery: its event names a source and a key, its identity is that of the source and key, and
    the event is stored under the identity. *)
Definition delivered_ok (s : ev_sys) (d : json * string) : Prop :=
  exists x sid k r, named_by d.1 = (Some (JStr x), Some (JStr sid), Some k) /\
    fingerprint (JObj [("source", JStr (x ++ ":" ++ sid)); ("dedupe", k)]) = Ok d.2 /\
    event_record d.2 s = Some r /\ holds_event (x ++ ":" ++ sid) k r.

Definition delivery_ok (s : ev_sys) : Prop :=
  NoDup (es_delivered s).*2 /\ Forall (delivered_ok s) (es_delivered s).

(** Stored events stay as they are. *)
Definition events_kept (s s' : ev_sys) : Prop :=
  es_delivered s' = es_delivered s /\ forall i r, event_record i s = Some r -> event_record i s' = Some r.

Lemma delivered_ok_kept s s' d : events_kept s s' -> delivered_ok s d -> delivered_ok s' d.
Proof. intros [_ Hk] (x & sid & k & r & H1 & H2 & H3 & H4). exists x, sid, k, r. split_and!; eauto. Qed.

Lemma delivery_ok_kept s s' : events_kept s s' -> delivery_ok s -> delivery_ok s'.
Proof.
  intros Hk [Hn Hf]. pose proof Hk as [Hd _]. split; rewrite Hd; [exact Hn|].
  eapply Forall_impl; [exact Hf|]. intros d. by apply delivered_ok_kept.
Qed.

(** Programs that keep the invariant when run. *)
Definition holds {A} (p : prog evE A) : Prop := forall s, delivery_ok s -> delivery_ok (run ev_answer p s).1.

Lemma holds_ret {A} (a : A) : holds (Ret a).
Proof. by intros s Hs. Qed.

Lemma holds_raise {A} e : holds (Raise e : prog evE A).
Proof. by intros s Hs. Qed.

Lemma holds_of_result {A} (r : result A) : holds (of_result r).
Proof. destruct r; by intros s Hs. Qed.

Lemma holds_bind {A B} (p : prog evE A) (f : A -> prog evE B) :
  holds p -> (forall a, holds (f a)) -> holds (p ≫= f).
Proof.
  intros Hp Hf s Hs. rewrite run_bind. specialize (Hp s Hs).
  destruct (run ev_answer p s) as [s' [a|e]]; [by apply Hf|done].
Qed.

Lemma holds_match {A B} (p : prog evE A) (f : A -> prog evE B) k :
  holds p -> (forall a, holds (f a)) -> (forall e, holds (k e)) -> holds (prog_match p f k).
Proof.
  intros Hp Hf Hk s Hs. rewrite run_match. specialize (Hp s Hs).
  destruct (run ev_answer p s) as [s' [a|e]]; [by apply Hf|by apply Hk].
Qed.

(** Another turn of the loop. *)
Definition tick_turn (s : ev_sys) : ev_sys := s {{ es_turn := S (es_turn s) }}.

Lemma delivery_ok_turn s : delivery_ok s -> delivery_ok (tick_turn s).
Proof. done. Qed.

Lemma answer_get b k s : ev_answer _ (EvRecord (RGet b k)) s =
  (tick_turn s, Ok (find_record (b, k) (_records (es_store s)))).
Proof. by destruct s. Qed.

Lemma store_record_other k r l k' : k' <> k -> find_record k' (store_record k r l) = find_record k' l.
Proof.
  intros Hne. induction l as [|[k1 r1] l IH]; simpl; [by rewrite bool_decide_eq_false_2|].
  destruct (decide (k = k1)) as [->|Hk].
  - rewrite (bool_decide_eq_true_2 (k1 = k1)) by done. simpl. by rewrite bool_decide_eq_false_2.
  - rewrite (bool_decide_eq_false_2 (k = k1)) by done. simpl. by rewrite IH.
Qed.

Lemma store_record_same k r l : find_record k (store_record k r l) = Some r.
Proof.
  induction l as [|[k1 r1] l IH]; simpl; [by rewrite bool_decide_eq_true_2|].
  destruct (decide (k = k1)) as [->|Hk].
  - rewrite (bool_decide_eq_true_2 (k1 = k1)) by done. simpl. by rewrite bool_decide_eq_true_2.
  - rewrite (bool_decide_eq_false_2 (k = k1)) by done. simpl. by rewrite bool_decide_eq_false_2.
Qed.

(** A write leaves the other records alone. *)
Lemma answer_record_kept X (op : recE X) st k r : find_record k (_records st) = Some r ->
  match op with RPut b i _ _ => k <> (b, i) | _ => True end ->
  find_record k (_records (answer_record X op st).1) = Some r.
Proof.
  destruct op as [b i|b|b i v n]; simpl; [done..|]. intros Hr Hne. unfold record_put, mbind, M_bind, lift, get_state.
  destruct (fingerprint v); [|done]. destruct (negb _); [done|]. simpl. by rewrite store_record_other.
Qed.

Lemma answer_command_records X (op : cmdE X) st st' r : answer_command X op st = Some (st', r) ->
  _records st' = _records st.
Proof. destruct op; simpl; try (by intros [= <- <-]). destruct (_command_owner st); by intros [= <- <-]. Qed.

(** Every operation but a delivery and the storing of an event keeps the invariant. *)
Lemma holds_call {E X} `{SubE E evE} (op : E X) :
  match inject X op with
  | EvSink _ _ => False
  | EvRecord (RPut b _ _ _) => b <> "domain-events"
  | _ => True
  end -> holds (call op).
Proof.
  intros Hop s Hs. unfold call, perform. cbn [run].
  assert (events_kept s (ev_answer X (inject X op) s).1) as Hk.
  { destruct (inject X op) as [X op'|X op'|X op'|? ? ?|? ?]; simpl; try done.
    - pose proof (answer_record_kept _ op' (es_store s)) as Hm. unfold events_kept, event_record.
      destruct (answer_record X op' (es_store s)) as [st r]. simpl in *. split; [done|].
      intros i r0 Hr. apply Hm; [done|]. destruct op'; try done. congruence.
    - destruct (answer_command X op' (es_store s)) as [[st r]|] eqn:Ea; [|done].
      split; [done|]. intros i. unfold event_record. simpl. by rewrite (answer_command_records _ _ _ _ _ Ea). }
  apply (delivery_ok_kept _ _ Hk) in Hs. destruct (ev_answer X (inject X op) s) as [s1 [?|?]]; exact Hs.
Qed.

Ltac steadily :=
  repeat first
    [ assumption | apply holds_ret | apply holds_raise | apply holds_of_result
    | (apply holds_call; first [exact I | discriminate])
    | match goal with
      | |- holds (call _) => fail 1
      | |- holds (_ ≫= _) => apply holds_bind; [|intros ?]
      | |- holds (prog_match _ _ _) => apply holds_match; [|intros ?|intros ?]
      | |- holds (match ?x with _ => _ end) => destruct x
      end ].

(** What a successful creation changes. *)
Lemma answer_create i v s : event_record i s = None ->
  exists st r, ev_answer _ (EvRecord (RPut "domain-events" i v 0)) s =
  (tick_turn s {{ es_store := st }}, r) /\ events_kept s (tick_turn s {{ es_store := st }}) /\
  (is_ok r = true -> exists rec, event_record i (tick_turn s {{ es_store := st }}) = Some rec /\ rec_value rec = v).
Proof.
  intros Hnone. cbn [ev_answer].
  pose proof (answer_record_kept _ (RPut "domain-events" i v 0) (es_store s)) as Hm.
  destruct (answer_record _ (RPut "domain-events" i v 0) (es_store s)) as [st r] eqn:Ea.
  exists st, r. split; [done|]. split.
  { split; [done|]. intros j rec Hj. apply Hm; [exact Hj|]. unfold event_record in *. intros [= ->]. congruence. }
  intros Hr. unfold event_record. simpl.
  cbn [answer_record] in Ea. unfold record_put, mbind, M_bind, lift, get_state in Ea.
  destruct (fingerprint v); [|injection Ea as <- <-; discriminate Hr].
  destruct (negb _); [injection Ea as <- <-; discriminate Hr|]. injection Ea as <- <-. simpl.
  rewrite store_record_same. by eexists.
Qed.

Lemma assoc_merge k d kvs : NoDup (keys kvs) ->
  assoc k (merge_dict d kvs) = match assoc k kvs with Some v => Some v | None => assoc k d end.
Proof.
  unfold merge_dict. revert d; induction kvs as [|[k1 v1] kvs IH]; intros d Hnd; simpl; [done|].
  simpl in Hnd. apply NoDup_cons in Hnd as [Hk Hnd]. rewrite IH by done. simpl.
  destruct (decide (k = k1)) as [->|Hne].
  - rewrite bool_decide_eq_true_2 by done. destruct (assoc k1 kvs) eqn:E; [|apply assoc_set_same].
    destruct Hk. apply assoc_keys. by rewrite E.
  - rewrite bool_decide_eq_false_2 by done. destruct (assoc k kvs); [done|]. by apply assoc_set_other.
Qed.

(** The binding of a collection: which source it polls. *)
Record binding (payload : list (string * json)) (source : string) : Prop := {
  bd_dict : NoDup (keys payload);
  bd_source : exists x sid, assoc "extension_id" payload = Some (JStr x) /\
    assoc "source_id" payload = Some (JStr sid) /\ source = x ++ ":" ++ sid;
  bd_key : assoc "source_dedupe_key" payload = None
}.

(** Storing a new event and delivering it. *)
Lemma new_event_ok has_sink payload source e identity s :
  binding payload source -> event_identity source e = Ok identity ->
  delivery_ok s -> event_record identity s = None ->
  delivery_ok (run ev_answer (new_event has_sink payload source e identity) s).1.
Proof.
  intros [Hnd (x & sid & Hx & Hsid & ->) Hkey] Hid Hs Hi. unfold new_event. rewrite run_bind.
  destruct (dict_item _ payload) as [version|]; [|done]. cbn [run of_result]. rewrite run_bind, run_call.
  destruct (answer_create identity (JObj [("source", JStr (x ++ ":" ++ sid)); ("extension_version", version);
    ("event", JObj e)]) s Hi) as (st & r & Ha & Hkept & Hnew). unfold inject, SubE_ev_rec. rewrite Ha.
  pose proof (delivery_ok_kept _ _ Hkept Hs) as Hok.
  destruct r as [r|]; [|done]. destruct (Hnew eq_refl) as (rec & Hrec & Hval).
  destruct has_sink; [|done]. rewrite run_bind, run_call. unfold inject, SubE_refl. cbn [ev_answer].
  set (s2 := _ {{ es_delivered := _ }}). enough (delivery_ok s2) as Hs2 by (destruct (sinks _); exact Hs2).
  apply result_bind_Ok in Hid as (k & Hk & Hfp). unfold dict_item in Hk.
  destruct (assoc "source_dedupe_key" e) as [k'|] eqn:Ek; [|discriminate Hk]. injection Hk as ->.
  split; cbn.
  - rewrite fmap_app. apply NoDup_app. split_and!; [apply Hs| |apply NoDup_singleton].
    intros j Hj Hj'%list_elem_of_singleton. cbn in Hj'. subst j. apply list_elem_of_fmap in Hj as (d & Ed & Hd).
    destruct Hs as [_ Hf]. rewrite Forall_forall in Hf. destruct (Hf d Hd) as (? & ? & ? & ? & _ & _ & E & _).
    rewrite <- Ed in E. congruence.
  - apply Forall_app. split; [apply Hok|]. apply Forall_singleton. exists x, sid, k, rec. cbn.
    rewrite !assoc_merge, Hx, Hsid, Hkey by done. split_and!; [by rewrite Ek|exact Hfp|exact Hrec|].
    by exists version, e.
Qed.

Lemma holds_deliver has_sink payload source event : binding payload source ->
  holds (deliver has_sink payload source event).
Proof.
  intros Hb. unfold deliver. apply holds_bind; [steadily|]. intros e s Hs. rewrite run_bind.
  destruct (event_identity source e) as [identity|] eqn:Hid; [|exact Hs]. cbn [run of_result].
  rewrite run_bind, run_call. unfold inject, SubE_ev_rec. rewrite answer_get.
  destruct (find_record _ _) as [r|] eqn:Ef.
  - enough (holds (known_event event r)) as Hk by (by apply Hk, delivery_ok_turn).
    unfold known_event. steadily.
  - by apply new_event_ok.
Qed.

Lemma holds_collect iso_aware task has_sink payload job_id : NoDup (keys payload) ->
  holds (collect iso_aware task has_sink payload job_id).
Proof.
  intros Hnd. assert (forall source events added, binding payload source ->
    holds (deliver_all has_sink payload source events added)) as Hall.
  { intros source events. induction events as [|ev events IH]; intros added Hb; cbn [deliver_all]; [steadily|].
    apply holds_bind; [by apply holds_deliver|]. intros b. by apply IH. }
  unfold collect. destruct (assoc "extension_id" payload) as [[]|] eqn:Ex; try apply holds_raise.
  destruct (assoc "extension_version" payload) as [[]|]; try apply holds_raise.
  destruct (assoc "source_id" payload) as [[]|] eqn:Es; try apply holds_raise.
  destruct (_ && _) eqn:Hc; [|apply holds_raise].
  unfold command, apply_command, apply_collect. steadily; apply Hall.
  all: split; [exact Hnd|eauto|]; destruct (assoc "source_dedupe_key" payload) as [v|] eqn:Ek; [|done];
    exfalso; rewrite !andb_true_iff in Hc; destruct Hc as [[[Hk _] _] _]; unfold keys_exactly, keys_within in Hk;
    apply andb_true_iff in Hk as [Hk _]; rewrite forallb_forall in Hk;
    apply assoc_elem_of, list_elem_of_In, Hk in Ek; discriminate Ek.
Qed.

Lemma collects_inv s s' : star collects s s' -> delivery_ok s -> delivery_ok s'.
Proof. apply star_invariant. intros a b [iso task has payload job_id a' Hnd] Ha. by apply holds_collect. Qed.

(** The identity is a function of the source and the key, so events that are named alike share it. *)
Lemma same_name_same_identity s d1 d2 : delivered_ok s d1 -> delivered_ok s d2 ->
  named_by d1.1 = named_by d2.1 -> d1.2 = d2.2.
Proof.
  intros (x1 & sid1 & k1 & r1 & E1 & F1 & _) (x2 & sid2 & k2 & r2 & E2 & F2 & _) E.
  rewrite E1, E2 in E. injection E as <- <- <-. congruence.
Qed.

(** C32. A domain event is delivered at most once (with the in-memory record store): however often
    sources are polled, whatever they answer and whether or not the sink fails, the sink is never called
    with two events of the same extension, source and deduplication key; and every delivered event is
    stored, in a record that names its source and holds its key. *)
Theorem events_are_delivered_once s :
  star collects {| es_store := empty_records; es_delivered := []; es_turn := 0 |} s ->
  NoDup (named_by <$> (es_delivered s).*1) /\
  Forall (fun event => exists x sid k i r, named_by event = (Some (JStr x), Some (JStr sid), Some k) /\
    find_record ("domain-events", i) (_records (es_store s)) = Some r /\
    holds_event (x ++ ":" ++ sid) k r) (es_delivered s).*1.
Proof.
  intros Hs. assert (delivery_ok s) as [Hn Hf].
  { apply (collects_inv _ _ Hs). split; constructor. }
  clear Hs. split.
  - assert (forall l, NoDup l.*2 -> Forall (delivered_ok s) l -> NoDup (named_by <$> l.*1)) as H; [|by apply H].
    clear Hn Hf. induction l as [|d l IH]; intros Hn Hf; [constructor|]. csimpl in *.
    apply NoDup_cons in Hn as [Hd Hn]. apply Forall_cons in Hf as [Hfd Hf]. constructor; [|by apply IH].
    intros Hin. apply list_elem_of_fmap in Hin as (ev & E & Hev). apply list_elem_of_fmap in Hev as (d' & -> & Hd').
    apply Hd, list_elem_of_fmap. exists d'. split; [|done]. rewrite Forall_forall in Hf.
    by apply (same_name_same_identity s d d' Hfd (Hf d' Hd')).
  - apply Forall_fmap. eapply Forall_impl; [exact Hf|]. intros d (x & sid & k & r & E & _ & Hr & Hh). cbn.
    exists x, sid, k, d.2, r. done.
Qed.
End delivery.

Module EventScenario.

Definition batch : json := JObj [
  ("events", JList [JObj [("type", JStr "mail.received"); ("source_dedupe_key", JStr "m1");
     ("occurred_at", JStr "2024-02-29T12:30:00+00:00"); ("payload", JObj [("subject", JStr "exam")])]]);
  ("source_dedupe_keys", JList [JStr "m1"]); ("next_cursor", JStr "c1")].

Definition payload : list (string * json) :=
  [("extension_id", JStr "smail"); ("extension_version", JStr "1.0"); ("source_id", JStr "inbox")].

Definition aware (s : string) : bool := bool_decide (is_Some (parse_utc s)).

(** The same mail is reported by two polls. *)
Definition poll_job (job : string) : prog evE json := collect aware 1 true payload job.
Definition answers : forall X, evE X -> M ev_sys X :=
  ev_answer (fun _ => Ok batch) (fun _ => Ok tt) (fun _ => 0).
Definition start : ev_sys := {| es_store := empty_records; es_delivered := []; es_turn := 0 |}.
Definition once : ev_sys := (run answers (poll_job "job-1") start).1.
Definition twice : ev_sys := (run answers (poll_job "job-2") once).1.

End EventScenario.

Lemma events_are_delivered_once_witness :
  length (es_delivered EventScenario.twice) = 1%nat /\
  NoDup (named_by <$> (es_delivered EventScenario.twice).*1).
Proof.
  split; [vm_compute; reflexivity|].
  assert (NoDup (keys EventScenario.payload)) as Hnd by (apply (bool_decide_unpack _); vm_compute; exact I).
  refine (proj1 (events_are_delivered_once (fun _ => Ok EventScenario.batch) (fun _ => Ok tt) (fun _ => 0)
    EventScenario.twice _)).
  eapply star_step; [exact (collects_one _ _ _ EventScenario.aware 1 true EventScenario.payload "job-1" _ Hnd)|].
  eapply star_step; [exact (collects_one _ _ _ EventScenario.aware 1 true EventScenario.payload "job-2" _ Hnd)|].
  apply star_refl.
Defined.
