(* ===== verification/Disclosure.v ===== *)
(** * Disclosure: consent for showing personal data to a remote model

    Models [core/models/provider.py] (classifications, fields, requests, recipients),
    [core/models/disclosure.py] (digests, previews and the consent service) and
    [infrastructure/memory/disclosures.py] (the consent store; each method holds the store's lock
    and does not await inside).  Instants are aware. *)

From stdpp Require Import sorting.
From S2P Require Import Prelude Text Sha256 Json JsonParse JsonRoundTrip Domain.
Local Open Scope string_scope.
Local Open Scope Z_scope.

(** ** [provider.py] *)

Inductive DataClassification := PUBLIC | PERSONAL | SENSITIVE | SECRET.

#[global] Instance DataClassification_eq_dec : EqDecision DataClassification.
Proof. solve_decision. Defined.

Definition classification_value (c : DataClassification) : string :=
  match c with
  | PUBLIC => "PUBLIC" | PERSONAL => "PERSONAL" | SENSITIVE => "SENSITIVE" | SECRET => "SECRET"
  end.

(** A member of the enumeration is a [str] with its value. *)
Definition classification_of (value : json) : option DataClassification :=
  match value with
  | JStr s => List.find (fun c => bool_decide (classification_value c = s)) [PUBLIC; PERSONAL; SENSITIVE; SECRET]
  | _ => None
  end.

Definition is_secret_classification (value : json) : bool :=
  match classification_of value with
  | None => true
  | Some c => bool_decide (c = SECRET)
  end.

Record ContextField := {
  cf_name : string;
  cf_value : string;
  cf_classification : DataClassification;
  cf_source : string
}.

#[global] Instance ContextField_eq_dec : EqDecision ContextField.
Proof. solve_decision. Defined.

(** [ContextField(name=..., value=..., classification=..., source=...)] *)
Definition make_field (name value classification source : json) : result ContextField :=
  match name, value, source with
  | JStr n, JStr v, JStr s =>
      _ ← raise_if (blank n || blank s) ValidationError "context field name and source are required";
      match classification_of classification with
      | None => fail ValidationError "context field classification is invalid"
      | Some c => Ok {| cf_name := n; cf_value := v; cf_classification := c; cf_source := s |}
      end
  | JStr _, JStr _, _ => fail ValidationError "context field source must be a string"
  | JStr _, _, _ => fail ValidationError "context field value must be a string"
  | _, _, _ => fail ValidationError "context field name must be a string"
  end.

(** An object handed over as a field: a [ContextField], or anything else, whose attributes may
    raise when they are read. *)
Inductive field_object :=
| IsField (f : ContextField)
| Duck (name value source classification : result json).

Definition coerce_context_field (field : field_object) : result ContextField :=
  match field with
  | IsField f => Ok f
  | Duck (Ok (JStr name)) (Ok (JStr value)) (Ok (JStr source)) (Ok c) =>
      match classification_of c with
      | Some k => make_field (JStr name) (JStr value) (JStr (classification_value k)) (JStr source)
      | None => fail ValidationError "model request fields must be valid context fields"
      end
  | Duck _ _ _ _ => fail ValidationError "model request fields must be valid context fields"
  end.

Record RecipientIdentity := {
  ri_provider_id : string;
  ri_adapter : string;
  ri_endpoint : string;
  ri_model_id : string
}.

Definition check_recipient (r : RecipientIdentity) : result RecipientIdentity :=
  _ ← raise_if (blank (ri_provider_id r)) ValidationError "recipient provider_id is required";
  _ ← raise_if (blank (ri_adapter r)) ValidationError "recipient adapter is required";
  _ ← raise_if (blank (ri_endpoint r)) ValidationError "recipient endpoint is required";
  _ ← raise_if (blank (ri_model_id r)) ValidationError "recipient model_id is required";
  Ok r.

Record ModelRequest := {
  mr_purpose : string;
  mr_instruction : string;
  mr_fields : list ContextField;
  mr_metadata : json
}.

(** [ModelRequest(...)]; [fields] is [None] when the argument cannot be iterated. *)
Definition make_request (purpose instruction : json) (fields : option (list field_object))
    (metadata : json) : result ModelRequest :=
  match purpose, instruction with
  | JStr p, JStr i =>
      match fields with
      | None => fail ValidationError "model request fields must be valid context fields"
      | Some items =>
          match result_map coerce_context_field items with
          | Err _ => fail ValidationError "model request fields must be valid context fields"
          | Ok normalized => Ok {| mr_purpose := p; mr_instruction := i; mr_fields := normalized;
                                   mr_metadata := metadata |}
          end
      end
  | JStr _, _ => fail ValidationError "model request instruction must be a string"
  | _, _ => fail ValidationError "model request purpose must be a string"
  end.

Record ModelOutput := {
  mo_text : string;
  mo_provider_id : string;
  mo_model_id : string;
  mo_usage : json
}.

Definition AUDITABLE_USAGE_KEYS : list string :=
  ["prompt_tokens"; "completion_tokens"; "total_tokens"; "prompt_eval_count"; "eval_count"].

(** The loop visits a [frozenset], so the order of the answer carries no meaning. *)
Definition bounded_usage (payload : json) (allowed : list string) : list (string * json) :=
  match payload with
  | JObj kvs => omap (fun key => match assoc key kvs with
                                 | Some (JInt n) => if 0 <=? n then Some (key, JInt n) else None
                                 | _ => None
                                 end) allowed
  | _ => []
  end.

(** ** [disclosure.py]: digests and previews *)

Definition DISCLOSURE_POLICY_VERSION : string := "f04.1".
Definition MIN_DISCLOSURE_TTL : Z := minutes 1.
Definition MAX_DISCLOSURE_TTL : Z := hours (24 * 7).
Definition DEFAULT_DISCLOSURE_TTL : Z := hours 1.
Definition MAX_PREVIEW_CHARS : Z := 48.
Definition MAX_SCOPE_LENGTH : Z := 128.

Module DisclosureConsentState.
Inductive t := ACTIVE | REVOKED | EXPIRED.
#[global] Instance t_eq_dec : EqDecision t.
Proof. solve_decision. Defined.
Definition value (s : t) : string :=
  match s with ACTIVE => "ACTIVE" | REVOKED => "REVOKED" | EXPIRED => "EXPIRED" end.
End DisclosureConsentState.

(** The classification of a stored field, as the object the helpers receive. *)
Definition field_classification (f : ContextField) : json :=
  JStr (classification_value (cf_classification f)).

Definition _canonical_classification (value : json) : result DataClassification :=
  match classification_of value with
  | None => fail ValidationError "context field classification is invalid"
  | Some c => Ok c
  end.

(** What the digest covers of a field: its name, source, classification and value hash, in the
    order of the sort key. *)
Record field_item := { fi_name : string; fi_source : string; fi_class : string; fi_sha : string }.

Definition item_of (f : ContextField) : result field_item :=
  c ← _canonical_classification (field_classification f);
  Ok {| fi_name := cf_name f; fi_source := cf_source f; fi_class := classification_value c;
        fi_sha := sha256 (cf_value f) |}.

Definition item_json (i : field_item) : json :=
  JObj [("name", JStr (fi_name i)); ("value_sha256", JStr (fi_sha i));
        ("classification", JStr (fi_class i)); ("source", JStr (fi_source i))].

(** Tuples of strings compare lexicographically. *)
Fixpoint tuple_leb (a b : list string) : bool :=
  match a, b with
  | [], _ => true
  | _ :: _, [] => false
  | x :: a, y :: b =>
      match String.compare x y with Lt => true | Gt => false | Eq => tuple_leb a b end
  end.

Definition item_key (i : field_item) : list string := [fi_name i; fi_source i; fi_class i; fi_sha i].
Definition item_le (i j : field_item) : Prop := tuple_leb (item_key i) (item_key j) = true.
#[global] Instance item_le_dec : RelDecision item_le.
Proof. intros i j. unfold item_le. apply _. Defined.

Definition canonical_field_digest (fields : list ContextField) : result string :=
  items ← result_map item_of fields;
  canonical_sha256 (JList (item_json <$> merge_sort item_le items)).

Definition recipient_json (r : RecipientIdentity) : json :=
  JObj [("provider_id", JStr (ri_provider_id r)); ("adapter", JStr (ri_adapter r));
        ("endpoint", JStr (ri_endpoint r)); ("model_id", JStr (ri_model_id r))].

Definition recipient_fingerprint (r : RecipientIdentity) : result string :=
  canonical_sha256 (recipient_json r).

(** [hmac.compare_digest] of the UTF-8 bytes. *)
Definition _same_text (left right : string) : bool :=
  bool_decide (utf8_encode left = utf8_encode right).

Definition redacted_field_preview (value : string) : string :=
  let masked := of_chars ((fun a => if is_space a then a else Ascii.ascii_of_N 42) <$> chars value) in
  if MAX_PREVIEW_CHARS <? str_len masked then str_take MAX_PREVIEW_CHARS masked ++ "..." else masked.

Record DisclosureConsentRecord := {
  dc_id : string;
  dc_user_id : string;
  dc_provider_id : string;
  dc_purpose : string;
  dc_field_digest : string;
  dc_recipient_fingerprint : string;
  dc_field_count : Z;
  dc_policy_version : string;
  dc_state : DisclosureConsentState.t;
  dc_created_at : time;
  dc_expires_at : time;
  dc_version : Z;
  dc_revoked_at : option time
}.
#[export] Instance DisclosureConsentRecord_eta : Eta DisclosureConsentRecord := fun r =>
  Build_DisclosureConsentRecord (dc_id r) (dc_user_id r) (dc_provider_id r) (dc_purpose r)
    (dc_field_digest r) (dc_recipient_fingerprint r) (dc_field_count r) (dc_policy_version r)
    (dc_state r) (dc_created_at r) (dc_expires_at r) (dc_version r) (dc_revoked_at r).

Definition effective_consent_state (record : DisclosureConsentRecord) (now : time)
  : DisclosureConsentState.t :=
  if bool_decide (dc_state record = DisclosureConsentState.ACTIVE) && (dc_expires_at record <=? now)
  then DisclosureConsentState.EXPIRED else dc_state record.

Definition _require_text (value name : string) : result unit :=
  raise_if (blank value) ValidationError (name ++ " is required").

Definition _require_digest (value name : string) : result unit :=
  raise_if (negb (str_len value =? 64) || negb (forallb is_hex_lower (chars value))) ValidationError
    (name ++ " must be a lowercase 64 character sha256").

Definition _validate_scoped_text (value name : string) : result unit :=
  _ ← _require_text value name;
  raise_if (MAX_SCOPE_LENGTH <? str_len value) ValidationError
    (name ++ " must be at most " ++ str_of_Z MAX_SCOPE_LENGTH ++ " characters").

Definition _validate_idempotency_key (value : string) : result unit :=
  _ ← _require_text value "idempotency_key";
  raise_if (200 <? str_len value) ValidationError "idempotency_key must be at most 200 characters".

Definition _validate_ttl (ttl : Z) : result unit :=
  raise_if ((ttl <? MIN_DISCLOSURE_TTL) || (MAX_DISCLOSURE_TTL <? ttl)) ValidationError
    "disclosure ttl must be between 1 minute and 7 days".

(** [int(ttl.total_seconds())] of a validated duration. *)
Definition _ttl_seconds (ttl : Z) : Z := ttl / 1000000.

Definition check_consent (r : DisclosureConsentRecord) : result DisclosureConsentRecord :=
  _ ← _require_text (dc_id r) "id";
  _ ← _require_text (dc_user_id r) "user_id";
  _ ← _require_text (dc_provider_id r) "provider_id";
  _ ← _require_text (dc_purpose r) "purpose";
  _ ← _require_text (dc_policy_version r) "policy_version";
  _ ← _require_digest (dc_field_digest r) "field_digest";
  _ ← _require_digest (dc_recipient_fingerprint r) "recipient_fingerprint";
  _ ← raise_if (dc_field_count r <? 1) ValidationError "disclosure consent requires at least one field";
  _ ← raise_if (dc_version r <? 0) ValidationError "disclosure consent version cannot be negative";
  _ ← raise_if (dc_expires_at r <=? dc_created_at r) ValidationError
        "disclosure consent expiry must follow creation";
  let revoked := bool_decide (dc_state r = DisclosureConsentState.REVOKED) in
  _ ← raise_if (bool_decide (is_Some (dc_revoked_at r)) && negb revoked) ValidationError
        "only revoked consent may carry a revocation time";
  _ ← raise_if (revoked && negb (bool_decide (is_Some (dc_revoked_at r)))) ValidationError
        "revoked consent requires a revocation time";
  Ok r.

Record DisclosureFieldSummary := {
  fs_name : string;
  fs_classification : string;
  fs_source : string;
  fs_value_sha256 : string;
  fs_value_length : Z;
  fs_redacted_preview : string
}.

Record DisclosurePreview := {
  dp_provider_id : string;
  dp_purpose : string;
  dp_policy_version : string;
  dp_field_digest : string;
  dp_recipient_fingerprint : string;
  dp_fields : list DisclosureFieldSummary;
  dp_protected_field_count : Z;
  dp_ttl : Z;
  dp_suggested_expires_at : time;
  dp_preview_hash : string;
  dp_recipient_identity : option RecipientIdentity
}.

Definition summary_of (f : ContextField) : result DisclosureFieldSummary :=
  c ← _canonical_classification (field_classification f);
  Ok {| fs_name := cf_name f; fs_classification := classification_value c; fs_source := cf_source f;
        fs_value_sha256 := sha256 (cf_value f); fs_value_length := str_len (cf_value f);
        fs_redacted_preview := redacted_field_preview (cf_value f) |}.

(** The fields that need consent before a remote model may read them. *)
Definition is_protected (f : ContextField) : bool :=
  match classification_of (field_classification f) with
  | Some PERSONAL | Some SENSITIVE => true
  | _ => false
  end.

Definition protected_count (request : ModelRequest) : Z :=
  Z.of_nat (length (List.filter is_protected (mr_fields request))).

Definition has_secret (request : ModelRequest) : bool :=
  existsb (fun f => is_secret_classification (field_classification f)) (mr_fields request).

Definition _reject_secret (request : ModelRequest) : result unit :=
  raise_if (has_secret request) DisclosureDeniedError
    "secret material may never be previewed, confirmed or disclosed".

Definition preview_json (provider_id purpose field_digest recipient : string)
    (protected_field_count ttl : Z) : json :=
  JObj [("provider_id", JStr provider_id); ("purpose", JStr purpose);
        ("policy_version", JStr DISCLOSURE_POLICY_VERSION); ("field_digest", JStr field_digest);
        ("recipient_fingerprint", JStr recipient); ("protected_field_count", JInt protected_field_count);
        ("ttl_seconds", JInt (_ttl_seconds ttl))].

Definition _preview_hash (provider_id purpose field_digest recipient : string)
    (protected_field_count ttl : Z) : result string :=
  canonical_sha256 (preview_json provider_id purpose field_digest recipient protected_field_count ttl).

(** ** [InMemoryDisclosureConsentStore] *)

Record consent_store := {
  cs_records : gmap string DisclosureConsentRecord;
  cs_commands : gmap (string * string) (string * string)
}.
#[export] Instance consent_store_eta : Eta consent_store := fun s =>
  Build_consent_store (cs_records s) (cs_commands s).

Definition empty_consents : consent_store := {| cs_records := ∅; cs_commands := ∅ |}.

(** A command key that was used before: the kept answer, or a conflict. *)
Definition replay_consent (s : consent_store) (scope key fingerprint : string)
  : option (result DisclosureConsentRecord) :=
  match cs_commands s !! (scope, key) with
  | None => None
  | Some (kept, consent_id) => Some (
      if negb (bool_decide (kept = fingerprint)) then
        fail DisclosureIdempotencyConflictError
          "the idempotency key was already used with different content"
      else match cs_records s !! consent_id with
           | Some r => Ok r
           | None => fail PyKeyError consent_id
           end)
  end.

Definition consent_not_found {A} (consent_id : string) : M consent_store A :=
  raise DisclosureConsentNotFoundError ("disclosure consent not found: " ++ consent_id).

Definition store_create (record : DisclosureConsentRecord) (scope key fingerprint : string)
  : M consent_store DisclosureConsentRecord :=
  s ← get_state;
  match replay_consent s scope key fingerprint with
  | Some r => lift r
  | None =>
      match cs_records s !! dc_id record with
      | Some _ => raise AlreadyExistsError ("disclosure consent already exists: " ++ dc_id record)
      | None =>
          _ ← put_state {| cs_records := <[dc_id record := record]> (cs_records s);
                           cs_commands := <[(scope, key) := (fingerprint, dc_id record)]> (cs_commands s) |};
          mret record
      end
  end.

Definition store_get (consent_id : string) : M consent_store DisclosureConsentRecord :=
  s ← get_state;
  match cs_records s !! consent_id with
  | Some r => mret r
  | None => consent_not_found consent_id
  end.

Definition version_conflict {A} (consent_id : string) (expected found : Z) : M consent_store A :=
  raise ConcurrentModificationError
    ("disclosure consent " ++ consent_id ++ " expected version " ++ str_of_Z expected ++ ", found "
     ++ str_of_Z found).

Definition store_save (record : DisclosureConsentRecord) (expected_version : Z)
  : M consent_store DisclosureConsentRecord :=
  s ← get_state;
  match cs_records s !! dc_id record with
  | None => consent_not_found (dc_id record)
  | Some current =>
      if negb (dc_version current =? expected_version)
      then version_conflict (dc_id record) expected_version (dc_version current)
      else
        saved ← lift (check_consent (record {{ dc_version := expected_version + 1 }}));
        _ ← put_state (s {{ cs_records := <[dc_id record := saved]> (cs_records s) }});
        mret saved
  end.

Definition store_revoke (consent_id user_id : string) (expected_version : Z) (revoked_at : time)
    (scope key fingerprint : string) : M consent_store DisclosureConsentRecord :=
  s ← get_state;
  match replay_consent s scope key fingerprint with
  | Some r => lift r
  | None =>
      match cs_records s !! consent_id with
      | None => consent_not_found consent_id
      | Some record =>
          if negb (bool_decide (dc_user_id record = user_id)) then consent_not_found consent_id
          else if negb (dc_version record =? expected_version)
          then version_conflict consent_id expected_version (dc_version record)
          else if negb (bool_decide (dc_state record = DisclosureConsentState.ACTIVE)) then
            raise DisclosureStateError
              ("disclosure consent " ++ consent_id ++ " is "
               ++ DisclosureConsentState.value (dc_state record) ++ ", not active")
          else if dc_expires_at record <=? revoked_at then
            expired ← lift (check_consent (record {{ dc_state := DisclosureConsentState.EXPIRED;
                                                     dc_version := dc_version record + 1 }}));
            _ ← put_state (s {{ cs_records := <[consent_id := expired]> (cs_records s) }});
            raise DisclosureStateError ("disclosure consent " ++ consent_id ++ " is expired")
          else
            updated ← lift (check_consent (record {{ dc_state := DisclosureConsentState.REVOKED;
                                                     dc_revoked_at := Some revoked_at;
                                                     dc_version := dc_version record + 1 }}));
            _ ← put_state {| cs_records := <[consent_id := updated]> (cs_records s);
                             cs_commands := <[(scope, key) := (fingerprint, consent_id)]> (cs_commands s) |};
            mret updated
      end
  end.

Definition binding_matches (record : DisclosureConsentRecord)
    (user_id provider_id purpose field_digest recipient policy_version : string) (now : time) : bool :=
  bool_decide (dc_user_id record = user_id) && bool_decide (dc_provider_id record = provider_id)
  && bool_decide (dc_purpose record = purpose) && bool_decide (dc_field_digest record = field_digest)
  && bool_decide (dc_recipient_fingerprint record = recipient)
  && bool_decide (dc_policy_version record = policy_version)
  && bool_decide (dc_state record = DisclosureConsentState.ACTIVE) && (now <? dc_expires_at record).

Definition store_find_active (consent_id user_id provider_id purpose field_digest recipient
    policy_version : string) (now : time) : M consent_store (option DisclosureConsentRecord) :=
  s ← get_state;
  mret (match cs_records s !! consent_id with
        | None => None
        | Some record =>
            if binding_matches record user_id provider_id purpose field_digest recipient policy_version now
            then Some record else None
        end).

(** Ascending by [(created_at, id)]. *)
Definition listed_before (a b : DisclosureConsentRecord) : Prop :=
  dc_created_at a < dc_created_at b
  \/ (dc_created_at a = dc_created_at b /\ String.leb (dc_id a) (dc_id b) = true).
#[global] Instance listed_before_dec : RelDecision listed_before.
Proof. intros a b. unfold listed_before. apply _. Defined.

Definition store_list_for_user (user_id : string) (limit : Z)
  : M consent_store (list DisclosureConsentRecord) :=
  if limit <? 1 then raise ValidationError "limit must be positive" else
  s ← get_state;
  let mine := List.filter (fun r => bool_decide (dc_user_id r = user_id)) (map_to_list (cs_records s)).*2 in
  mret (take (Z.to_nat limit) (merge_sort listed_before mine)).

(** ** [DisclosureConsentService] *)

Inductive consE : Type -> Type :=
| CsCreate (record : DisclosureConsentRecord) (scope key fingerprint : string) : consE DisclosureConsentRecord
| CsGet (consent_id : string) : consE DisclosureConsentRecord
| CsSave (record : DisclosureConsentRecord) (expected_version : Z) : consE DisclosureConsentRecord
| CsRevoke (consent_id user_id : string) (expected_version : Z) (revoked_at : time)
    (scope key fingerprint : string) : consE DisclosureConsentRecord
| CsFindActive (consent_id user_id provider_id purpose field_digest recipient policy_version : string)
    (now : time) : consE (option DisclosureConsentRecord)
| CsListForUser (user_id : string) (limit : Z) : consE (list DisclosureConsentRecord).

Definition consE_handle {X} (op : consE X) : M consent_store X :=
  match op with
  | CsCreate r scope key fp => store_create r scope key fp
  | CsGet i => store_get i
  | CsSave r v => store_save r v
  | CsRevoke i u v t scope key fp => store_revoke i u v t scope key fp
  | CsFindActive i u p pu d rf pv now => store_find_active i u p pu d rf pv now
  | CsListForUser u n => store_list_for_user u n
  end.

Section service.
Context {F : Type -> Type} `{SubE consE F} `{SubE envE F}.

(** [self._recipients]: the registered remote providers. *)
Context (recipients : gmap string RecipientIdentity).

Definition _registered_recipient (provider_id : string) : result (RecipientIdentity * string) :=
  match recipients !! provider_id with
  | None => fail DisclosureRecipientUnknownError
      ("model recipient is not a registered remote provider: " ++ provider_id)
  | Some identity =>
      if negb (bool_decide (ri_provider_id identity = provider_id)) then
        fail DisclosureRecipientUnknownError
          ("model recipient registry entry is inconsistent: " ++ provider_id)
      else fp ← recipient_fingerprint identity; Ok (identity, fp)
  end.

(** [preview] reads only the clock; [now] is its reading. *)
Definition preview (request : ModelRequest) (provider_id : string) (ttl : Z) (now : time)
  : result DisclosurePreview :=
  _ ← _validate_scoped_text provider_id "provider_id";
  _ ← _validate_scoped_text (mr_purpose request) "purpose";
  _ ← _validate_ttl ttl;
  _ ← _reject_secret request;
  '(identity, fingerprint) ← _registered_recipient provider_id;
  digest ← canonical_field_digest (mr_fields request);
  summaries ← result_map summary_of (mr_fields request);
  preview_hash ← _preview_hash provider_id (mr_purpose request) digest fingerprint
                   (protected_count request) ttl;
  Ok {| dp_provider_id := provider_id; dp_purpose := mr_purpose request;
        dp_policy_version := DISCLOSURE_POLICY_VERSION; dp_field_digest := digest;
        dp_recipient_fingerprint := fingerprint; dp_fields := summaries;
        dp_protected_field_count := protected_count request; dp_ttl := ttl;
        dp_suggested_expires_at := now + ttl; dp_preview_hash := preview_hash;
        dp_recipient_identity := Some identity |}.

Definition confirm_guards (request : ModelRequest) (provider_id user_id idempotency_key : string) (ttl : Z)
  : result unit :=
  _ ← _validate_scoped_text provider_id "provider_id";
  _ ← _validate_scoped_text (mr_purpose request) "purpose";
  _ ← _validate_scoped_text user_id "user_id";
  _ ← _validate_idempotency_key idempotency_key;
  _validate_ttl ttl.

(** The digest and the recipient that a confirmation is bound to, checked against the preview. *)
Definition confirm_binding (request : ModelRequest) (provider_id preview_hash : string) (ttl : Z)
  : result (string * string) :=
  _ ← _reject_secret request;
  '(_, recipient) ← _registered_recipient provider_id;
  _ ← raise_if (protected_count request =? 0) ValidationError
        "request has no protected fields requiring disclosure";
  digest ← canonical_field_digest (mr_fields request);
  expected ← _preview_hash provider_id (mr_purpose request) digest recipient (protected_count request) ttl;
  _ ← raise_if (negb (_same_text expected preview_hash)) DisclosurePreviewMismatchError
        "the confirmed fields do not match the previewed disclosure";
  Ok (digest, recipient).

Definition command_json (user_id provider_id purpose digest recipient : string) (count : Z)
    (preview_hash : string) (ttl : Z) : json :=
  JObj [("user_id", JStr user_id); ("provider_id", JStr provider_id); ("purpose", JStr purpose);
        ("field_digest", JStr digest); ("recipient_fingerprint", JStr recipient);
        ("protected_field_count", JInt count); ("policy_version", JStr DISCLOSURE_POLICY_VERSION);
        ("preview_hash", JStr preview_hash); ("ttl_seconds", JInt (_ttl_seconds ttl))].

Definition confirm (request : ModelRequest) (provider_id user_id preview_hash idempotency_key : string)
    (ttl : Z) (now : option time) : prog F DisclosureConsentRecord :=
  _ ← of_result (confirm_guards request provider_id user_id idempotency_key ttl);
  current ← now_or now;
  binding ← of_result (confirm_binding request provider_id preview_hash ttl);
  let '(digest, recipient) := binding in
  fingerprint ← of_result (canonical_sha256 (command_json user_id provider_id (mr_purpose request) digest
                             recipient (protected_count request) preview_hash ttl));
  id ← call NewUuid;
  record ← of_result (check_consent
    {| dc_id := id; dc_user_id := user_id; dc_provider_id := provider_id;
       dc_purpose := mr_purpose request; dc_field_digest := digest;
       dc_recipient_fingerprint := recipient; dc_field_count := protected_count request;
       dc_policy_version := DISCLOSURE_POLICY_VERSION; dc_state := DisclosureConsentState.ACTIVE;
       dc_created_at := current; dc_expires_at := current + ttl; dc_version := 0;
       dc_revoked_at := None |});
  call (CsCreate record ("disclosure:confirm:" ++ user_id) idempotency_key fingerprint).

(** The service's own check of what the store answered. *)
Definition consent_holds (record : DisclosureConsentRecord) (consent_id user_id provider_id purpose digest
    recipient : string) (current : time) : bool :=
  _same_text (dc_id record) consent_id && _same_text (dc_user_id record) user_id
  && _same_text (dc_provider_id record) provider_id && _same_text (dc_purpose record) purpose
  && _same_text (dc_field_digest record) digest
  && _same_text (dc_recipient_fingerprint record) recipient
  && _same_text (dc_policy_version record) DISCLOSURE_POLICY_VERSION
  && bool_decide (dc_state record = DisclosureConsentState.ACTIVE) && (current <? dc_expires_at record).

Definition authorize (request : ModelRequest) (consent_id user_id provider_id recipient : string)
    (now : option time) : prog F (option DisclosureConsentRecord) :=
  _ ← of_result (
    _ ← _validate_scoped_text consent_id "consent_id";
    _ ← _validate_scoped_text user_id "user_id";
    _ ← _validate_scoped_text provider_id "provider_id";
    _ ← _validate_scoped_text (mr_purpose request) "purpose";
    _require_digest recipient "recipient_fingerprint");
  current ← now_or now;
  if has_secret request then Ret None else
  digest ← of_result (canonical_field_digest (mr_fields request));
  record ← call (CsFindActive consent_id user_id provider_id (mr_purpose request) digest recipient
                   DISCLOSURE_POLICY_VERSION current);
  match record with
  | None => Ret None
  | Some r =>
      if consent_holds r consent_id user_id provider_id (mr_purpose request) digest recipient current
      then Ret (Some r) else Ret None
  end.

Definition get (consent_id : string) (user_id : option string) : prog F DisclosureConsentRecord :=
  _ ← of_result (_validate_scoped_text consent_id "consent_id");
  record ← call (CsGet consent_id);
  match user_id with
  | Some u => if negb (_same_text (dc_user_id record) u)
              then raise_prog DisclosureConsentNotFoundError ("disclosure consent not found: " ++ consent_id)
              else Ret record
  | None => Ret record
  end.

Definition revoke (consent_id user_id : string) (expected_version : Z) (idempotency_key : string)
    (now : option time) : prog F DisclosureConsentRecord :=
  _ ← of_result (
    _ ← _validate_scoped_text consent_id "consent_id";
    _ ← _validate_scoped_text user_id "user_id";
    _ ← _validate_idempotency_key idempotency_key;
    raise_if (expected_version <? 0) ValidationError "expected_version cannot be negative");
  current ← now_or now;
  fingerprint ← of_result (canonical_sha256 (JObj [("user_id", JStr user_id); ("consent_id", JStr consent_id);
                             ("expected_version", JInt expected_version)]));
  call (CsRevoke consent_id user_id expected_version current ("disclosure:revoke:" ++ user_id)
          idempotency_key fingerprint).

Definition list_for_user (user_id : string) : prog F (list DisclosureConsentRecord) :=
  _ ← of_result (_validate_scoped_text user_id "user_id");
  call (CsListForUser user_id 100).

End service.

(** ** Texts and orders *)

Lemma classification_of_value c : classification_of (JStr (classification_value c)) = Some c.
Proof. by destruct c. Qed.

Lemma utf8_head a : exists b bs, (if code a <? 128 then [code a] else [192 + code a / 64; 128 + code a mod 64]) = b :: bs.
Proof. destruct (code a <? 128); by do 2 eexists. Qed.

Lemma utf8_encode_inj s t : utf8_encode s = utf8_encode t -> s = t.
Proof.
  intros H. apply chars_inj. revert H. unfold utf8_encode. generalize (chars s) (chars t). clear.
  induction l as [|a l IH]; intros [|b k]; rewrite ?fmap_cons; cbn [concat]; [done|..].
  - destruct (utf8_head b) as (x & xs & ->). discriminate.
  - destruct (utf8_head a) as (x & xs & ->). discriminate.
  - intros H. assert (code a = code b /\ concat ((fun a => let c := code a in
      if c <? 128 then [c] else [192 + c / 64; 128 + c mod 64]) <$> l)
      = concat ((fun a => let c := code a in if c <? 128 then [c] else [192 + c / 64; 128 + c mod 64]) <$> k))
      as [Hab Hl].
    { cbv zeta in *. pose proof (Z.div_mod (code a) 64 ltac:(done)). pose proof (Z.div_mod (code b) 64 ltac:(done)).
      destruct (code a <? 128) eqn:Ea, (code b <? 128) eqn:Eb; cbn [app] in H; bool_props.
      - by injection H.
      - injection H as He _. assert (0 <= code b / 64) by (apply Z.div_pos; lia). lia.
      - injection H as He _. assert (0 <= code a / 64) by (apply Z.div_pos; lia). lia.
      - injection H as He1 He2 He3. split; [lia|done]. }
    f_equal; [|by apply IH]. unfold code in Hab. apply N2Z.inj in Hab.
    by rewrite <- (Ascii.ascii_N_embedding a), <- (Ascii.ascii_N_embedding b), Hab.
Qed.

Lemma same_text_eq s t : _same_text s t = true <-> s = t.
Proof. unfold _same_text. rewrite bool_decide_eq_true. split; [apply utf8_encode_inj|by intros ->]. Qed.

Lemma compare_le_trans x y z : String.compare x y <> Gt -> String.compare y z <> Gt -> String.compare x z <> Gt.
Proof.
  pose proof (str_leb_trans x y z) as H. unfold String.leb in H.
  destruct (String.compare x y), (String.compare y z), (String.compare x z); naive_solver.
Qed.

Lemma compare_eq x y : String.compare x y = Eq <-> x = y.
Proof.
  split; [apply String.compare_eq_iff|]. intros ->.
  pose proof (String.compare_antisym y y) as H. by destruct (String.compare y y).
Qed.

Lemma tuple_leb_total a b : tuple_leb a b = true \/ tuple_leb b a = true.
Proof.
  revert b; induction a as [|x a IH]; intros [|y b]; simpl; auto.
  rewrite (String.compare_antisym x y). destruct (String.compare y x); simpl; auto.
Qed.

Lemma tuple_leb_antisym a b : tuple_leb a b = true -> tuple_leb b a = true -> a = b.
Proof.
  revert b; induction a as [|x a IH]; intros [|y b]; simpl; try discriminate; [done|].
  rewrite (String.compare_antisym x y). destruct (String.compare y x) eqn:E; simpl; try discriminate.
  intros H1 H2. apply compare_eq in E as ->. by rewrite (IH b).
Qed.

Lemma tuple_leb_trans a b c : tuple_leb a b = true -> tuple_leb b c = true -> tuple_leb a c = true.
Proof.
  revert b c; induction a as [|x a IH]; intros [|y b] [|z c]; simpl; try discriminate; try done.
  destruct (String.compare x y) eqn:E1; try discriminate; intros H1;
    destruct (String.compare y z) eqn:E2; try discriminate; intros H2.
  - apply compare_eq in E1 as ->. rewrite E2. by eapply IH.
  - apply compare_eq in E1 as ->. by rewrite E2.
  - apply compare_eq in E2 as ->. by rewrite E1.
  - pose proof (compare_le_trans x y z ltac:(congruence) ltac:(congruence)) as H.
    destruct (String.compare x z) eqn:E; [|done|done]. apply compare_eq in E as ->.
    rewrite String.compare_antisym, E1 in E2. discriminate.
Qed.

#[global] Instance item_le_total : Total item_le.
Proof. intros i j. apply tuple_leb_total. Qed.

#[global] Instance item_le_trans : Transitive item_le.
Proof. intros i j k. apply tuple_leb_trans. Qed.

Lemma item_key_inj i j : item_key i = item_key j -> i = j.
Proof. destruct i, j. unfold item_key. simpl. congruence. Qed.

#[global] Instance item_le_antisym : AntiSymm (=) item_le.
Proof. intros i j Hij Hji. apply item_key_inj. by apply tuple_leb_antisym. Qed.

(** ** What the digest binds *)

Definition mk_item (f : ContextField) : field_item :=
  {| fi_name := cf_name f; fi_source := cf_source f;
     fi_class := classification_value (cf_classification f); fi_sha := sha256 (cf_value f) |}.

Definition digest_material (fields : list ContextField) : json :=
  JList (item_json <$> merge_sort item_le (mk_item <$> fields)).

Lemma field_digest_eq fields : canonical_field_digest fields = canonical_sha256 (digest_material fields).
Proof.
  unfold canonical_field_digest.
  assert (result_map item_of fields = Ok (mk_item <$> fields)) as ->; [|done].
  apply result_map_Ok. induction fields as [|f fields IH]; [done|]. rewrite fmap_cons. constructor; [|done].
  unfold item_of, _canonical_classification, field_classification. by rewrite classification_of_value.
Qed.

Lemma material_exact fields : json_exact (digest_material fields) = true.
Proof. apply forallb_Forall, Forall_fmap, Forall_forall. intros i _. by vm_compute. Qed.

Lemma field_digest_total fields : exists h, canonical_field_digest fields = Ok h.
Proof.
  rewrite field_digest_eq. destruct (loads_canonical _ (material_exact fields)) as (t & Ht & _).
  unfold canonical_sha256. rewrite Ht. by eexists.
Qed.

(** The order of the fields does not matter. *)
Lemma field_digest_perm fields fields' : fields ≡ₚ fields' ->
  canonical_field_digest fields = canonical_field_digest fields'.
Proof.
  intros Hp. rewrite !field_digest_eq. unfold digest_material.
  assert (merge_sort item_le (mk_item <$> fields) = merge_sort item_le (mk_item <$> fields')) as ->; [|done].
  apply (StronglySorted_unique item_le); [apply (StronglySorted_merge_sort item_le)..|].
  by rewrite (merge_sort_Permutation item_le (mk_item <$> fields)),
    (merge_sort_Permutation item_le (mk_item <$> fields')), Hp.
Qed.

Lemma items_same l m : json_same (JList (item_json <$> l)) (JList (item_json <$> m)) = true -> l = m.
Proof.
  revert m; induction l as [|a l IH]; intros [|b m]; try discriminate; [done|].
  rewrite !fmap_cons. cbn [json_same]. intros [H1 H2]%andb_true_iff.
  f_equal; [|by apply IH]. destruct a, b. cbn in H1. bool_props. simpl in *. bool_props. congruence.
Qed.

(** Two different texts among those that were hashed have one SHA-256 digest. *)
Definition field_collision (fields fields' : list ContextField) : Prop :=
  sha256_collision (digest_material fields) (digest_material fields') \/
  exists f f', f ∈ fields /\ f' ∈ fields' /\ cf_value f <> cf_value f' /\
    sha256 (cf_value f) = sha256 (cf_value f').

Lemma classification_value_inj c d : classification_value c = classification_value d -> c = d.
Proof. by destruct c, d. Qed.

Lemma mk_item_pointwise (l m : list ContextField) : (mk_item <$> l) = (mk_item <$> m) ->
  l = m \/ exists f f', f ∈ l /\ f' ∈ m /\ cf_value f <> cf_value f' /\ sha256 (cf_value f) = sha256 (cf_value f').
Proof.
  revert m; induction l as [|f l IH]; intros [|g m]; rewrite ?fmap_cons; try discriminate; [by left|].
  intros [= Hn Hs Hc Hv Hl]. apply classification_value_inj in Hc.
  destruct (decide (cf_value f = cf_value g)) as [E|E].
  - destruct (IH m Hl) as [->|(x & y & Hx & Hy & Hne & Hsha)].
    + left. f_equal. destruct f, g. simpl in *. congruence.
    + right. exists x, y. split_and!; [set_solver..| |]; done.
  - right. exists f, g. split_and!; [set_solver..| |]; done.
Qed.

(** Equal digests mean the same fields in some order, or a collision. *)
Lemma field_digest_binds fields fields' h :
  canonical_field_digest fields = Ok h -> canonical_field_digest fields' = Ok h ->
  fields ≡ₚ fields' \/ field_collision fields fields'.
Proof.
  rewrite !field_digest_eq. intros H1 H2.
  destruct (canonical_sha256_binds _ _ h (material_exact fields) (material_exact fields') H1 H2) as [H|H];
    [|by right; left].
  apply items_same in H.
  assert (mk_item <$> fields ≡ₚ mk_item <$> fields') as Hp.
  { by rewrite <- (merge_sort_Permutation item_le (mk_item <$> fields)), H,
      (merge_sort_Permutation item_le). }
  apply Permutation_map_inv in Hp as (l & Hl & Hp).
  destruct (mk_item_pointwise fields l Hl) as [->|(f & f' & Hf & Hf' & Hne & Hs)]; [by left|].
  right. right. exists f, f'. rewrite Hp. done.
Qed.
