(* ===== verification/Consents.v ===== *)
(** * Consents: an authorisation follows a confirmed, unrevoked consent

    The consent service over its in-memory store, under any sequence of confirmations and
    revocations.  A command awaits only its one store call, so commands are atomic and a history is
    a list of commands with their answers. *)

From S2P Require Import Prelude Text Sha256 Json JsonRoundTrip Disclosure.
Local Open Scope string_scope.
Local Open Scope Z_scope.

Inductive discE : Type -> Type :=
| DCons {X} (op : consE X) : discE X
| DEnv {X} (op : envE X) : discE X.
#[global] Instance SubE_disc_cons : SubE consE discE := fun X op => DCons op.
#[global] Instance SubE_disc_env : SubE envE discE := fun X op => DEnv op.

(** The store answers, the clock reads [now] and the next identifier is [uuid]. *)
Definition disc_answer (uuid : string) (now : Z) (X : Type) (op : discE X) : M consent_store X :=
  match op in discE X return M consent_store X with
  | DCons op => consE_handle op
  | DEnv op => lift (match op in envE X return result X with
                     | Now => Ok now
                     | NewUuid => Ok uuid
                     | NewToken => Ok uuid
                     end)
  end.

Inductive command :=
| Confirm (request : ModelRequest) (provider_id user_id preview_hash key : string) (ttl : Z) (now : Z)
    (uuid : string)
| Revoke (consent_id user_id : string) (expected_version : Z) (key : string) (now : Z).

Section history.
Context (recipients : gmap string RecipientIdentity).

Definition exec (s : consent_store) (c : command) : consent_store * result DisclosureConsentRecord :=
  match c with
  | Confirm request provider_id user_id preview_hash key ttl now uuid =>
      run (disc_answer uuid now) (confirm recipients request provider_id user_id preview_hash key ttl None) s
  | Revoke consent_id user_id expected_version key now =>
      run (disc_answer "" now) (revoke consent_id user_id expected_version key None) s
  end.

Definition history := list (command * result DisclosureConsentRecord).

(** The stores that commands can lead to, with what was commanded and answered. *)
Inductive reached : consent_store -> history -> Prop :=
| reached_start : reached empty_consents []
| reached_step s hist c : reached s hist -> reached (exec s c).1 (hist ++ [(c, (exec s c).2)])%list.

(** What [authorize] answers now. *)
Definition authorised (s : consent_store) (request : ModelRequest)
    (consent_id user_id provider_id recipient : string) (now : Z)
  : result (option DisclosureConsentRecord) :=
  (run (disc_answer "" now) (authorize request consent_id user_id provider_id recipient None) s).2.

(** ** What the commands do to the store *)

Definition consent_record (request : ModelRequest) (provider_id user_id digest recipient : string) (ttl now : Z)
    (uuid : string) : DisclosureConsentRecord :=
  {| dc_id := uuid; dc_user_id := user_id; dc_provider_id := provider_id;
     dc_purpose := mr_purpose request; dc_field_digest := digest;
     dc_recipient_fingerprint := recipient; dc_field_count := protected_count request;
     dc_policy_version := DISCLOSURE_POLICY_VERSION; dc_state := DisclosureConsentState.ACTIVE;
     dc_created_at := now; dc_expires_at := now + ttl; dc_version := 0; dc_revoked_at := None |}.

Lemma check_consent_id r r' : check_consent r = Ok r' -> r' = r.
Proof. unfold check_consent. intros H. repeat (apply result_bind_Ok in H as (? & _ & H)). by injection H. Qed.

Definition confirm_scope (user_id : string) : string := "disclosure:confirm:" ++ user_id.
Definition revoke_scope (user_id : string) : string := "disclosure:revoke:" ++ user_id.

Lemma exec_confirm s request p u ph key ttl now uuid :
  (exists e, exec s (Confirm request p u ph key ttl now uuid) = (s, Err e)) \/
  exists digest recipient fp,
    confirm_guards request p u key ttl = Ok tt /\
    confirm_binding recipients request p ph ttl = Ok (digest, recipient) /\
    exec s (Confirm request p u ph key ttl now uuid)
    = store_create (consent_record request p u digest recipient ttl now uuid) (confirm_scope u) key fp s.
Proof.
  unfold exec, confirm. rewrite run_of_result.
  destruct (confirm_guards request p u key ttl) as [[]|e] eqn:Hg; [|left; by eexists]. unfold now_or.
  rewrite run_call_bind. cbn [inject SubE_disc_env disc_answer lift]. rewrite run_of_result.
  destruct (confirm_binding recipients request p ph ttl) as [[digest recipient]|e] eqn:Hb; [|left; by eexists].
  rewrite run_of_result. destruct (canonical_sha256 _) as [fp|e]; [|left; by eexists].
  rewrite run_call_bind. cbn [inject SubE_disc_env disc_answer lift]. rewrite run_of_result.
  match goal with |- context [check_consent ?r] => destruct (check_consent r) as [record|e] eqn:Hc end;
    [|left; by eexists].
  apply check_consent_id in Hc as ->. right. exists digest, recipient, fp. by rewrite run_call.
Qed.

Lemma exec_revoke s c u v key now :
  (exists e, exec s (Revoke c u v key now) = (s, Err e)) \/
  exists fp, exec s (Revoke c u v key now) = store_revoke c u v now (revoke_scope u) key fp s.
Proof.
  unfold exec, revoke. rewrite run_of_result. destruct (_ ≫= _) as [[]|e]; [|left; by eexists].
  unfold now_or. rewrite run_call_bind. cbn [inject SubE_disc_env disc_answer lift]. rewrite run_of_result.
  destruct (canonical_sha256 _) as [fp|e]; [|left; by eexists]. right. exists fp. by rewrite run_call.
Qed.

(** A replayed command changes nothing and answers with a stored record. *)
Definition replayed (s : consent_store) (scope key : string) (out : consent_store * result DisclosureConsentRecord)
  : Prop := exists fp i r, cs_commands s !! (scope, key) = Some (fp, i) /\ cs_records s !! i = Some r /\ out = (s, Ok r).

Lemma store_create_cases record scope key fp s :
  (exists e, store_create record scope key fp s = (s, Err e)) \/
  replayed s scope key (store_create record scope key fp s) \/
  (cs_records s !! dc_id record = None /\ store_create record scope key fp s
   = ({| cs_records := <[dc_id record := record]> (cs_records s);
         cs_commands := <[(scope, key) := (fp, dc_id record)]> (cs_commands s) |}, Ok record)).
Proof.
  unfold store_create, replay_consent. simpl. unfold mbind, M_bind, get_state, replayed. simpl.
  destruct (cs_commands s !! (scope, key)) as [[kept i]|] eqn:Hk.
  - case_bool_decide; simpl; [|left; by eexists].
    destruct (cs_records s !! i) as [r|] eqn:Hi; [|left; by eexists]. right. left. by exists kept, i, r.
  - destruct (cs_records s !! dc_id record) eqn:Hr; [left; by eexists|]. right. right. done.
Qed.

Lemma store_revoke_cases c u v now scope key fp s :
  (exists e, store_revoke c u v now scope key fp s = (s, Err e)) \/
  replayed s scope key (store_revoke c u v now scope key fp s) \/
  exists r, cs_records s !! c = Some r /\ dc_user_id r = u /\ dc_state r = DisclosureConsentState.ACTIVE /\
    ((exists e, store_revoke c u v now scope key fp s
       = (s {{ cs_records := <[c := r {{ dc_state := DisclosureConsentState.EXPIRED;
                                         dc_version := dc_version r + 1 }}]> (cs_records s) }}, Err e)) \/
     let updated := r {{ dc_state := DisclosureConsentState.REVOKED; dc_revoked_at := Some now;
                         dc_version := dc_version r + 1 }} in
     store_revoke c u v now scope key fp s
     = ({| cs_records := <[c := updated]> (cs_records s);
           cs_commands := <[(scope, key) := (fp, c)]> (cs_commands s) |}, Ok updated)).
Proof.
  unfold store_revoke, replay_consent. unfold mbind, M_bind, get_state, replayed. simpl.
  destruct (cs_commands s !! (scope, key)) as [[kept i]|] eqn:Hk.
  { case_bool_decide; simpl; [|left; by eexists].
    destruct (cs_records s !! i) as [r|] eqn:Hi; [|left; by eexists]. right. left. by exists kept, i, r. }
  destruct (cs_records s !! c) as [r|] eqn:Hr; [|left; by eexists].
  case_bool_decide as Hu; simpl; [|left; by eexists].
  destruct (dc_version r =? v); simpl; [|left; by eexists].
  case_bool_decide as Ha; simpl; [|left; by eexists].
  destruct (dc_expires_at r <=? now); unfold lift; simpl.
  - match goal with |- context [check_consent ?x] => destruct (check_consent x) as [y|e] eqn:Hc end;
      [|left; by eexists]. apply check_consent_id in Hc as ->. right. right. exists r.
    split_and!; [done..|]. left. by eexists.
  - match goal with |- context [check_consent ?x] => destruct (check_consent x) as [y|e] eqn:Hc end;
      [|left; by eexists]. apply check_consent_id in Hc as ->. right. right. exists r.
    split_and!; [done..|]. by right.
Qed.

(** ** The invariant of a history *)

Notation ACTIVE := DisclosureConsentState.ACTIVE.

(** [r] is what the confirmation of [i] in the history stored. *)
Definition created (hist : history) (i : string) (r : DisclosureConsentRecord) : Prop :=
  exists request p u ph key ttl now digest recipient,
    (Confirm request p u ph key ttl now i, Ok r) ∈ hist /\
    confirm_guards request p u key ttl = Ok tt /\
    confirm_binding recipients request p ph ttl = Ok (digest, recipient) /\
    r = consent_record request p u digest recipient ttl now i.

(** A revocation of [i] was requested, whatever came of it. *)
Definition revocation_requested (hist : history) (i : string) : Prop :=
  exists u v key now a, (Revoke i u v key now, a) ∈ hist.

Record consents_ok (s : consent_store) (hist : history) : Prop := {
  ok_created i r : cs_records s !! i = Some r -> dc_id r = i /\
    exists r0, created hist i r0 /\
      (r = r0 \/ (dc_state r <> ACTIVE /\ revocation_requested hist i));
  ok_keys scope key fp i : cs_commands s !! (scope, key) = Some (fp, i) ->
    exists r, cs_records s !! i = Some r /\ (forall u, scope = revoke_scope u -> dc_state r <> ACTIVE);
  ok_revoked c u v key now r' : (Revoke c u v key now, Ok r') ∈ hist ->
    exists r, cs_records s !! dc_id r' = Some r /\ dc_state r <> ACTIVE;
  ok_told c r' : (c, Ok r') ∈ hist ->
    exists r, cs_records s !! dc_id r' = Some r /\ (r = r' \/ revocation_requested hist (dc_id r'))
}.

Lemma created_mono hist hist' i r : hist ⊆ hist' -> created hist i r -> created hist' i r.
Proof. intros Hs (request & p & u & ph & key & ttl & now & d & rf & Hin & H). do 9 eexists. split; [by apply Hs|exact H]. Qed.

Lemma requested_mono hist hist' i : hist ⊆ hist' -> revocation_requested hist i -> revocation_requested hist' i.
Proof. intros Hs (u & v & key & now & a & Hin). do 5 eexists. by apply Hs. Qed.

Lemma grows {A} (l : list A) x : l ⊆ (l ++ [x])%list.
Proof. set_solver. Qed.

Lemma in_snoc {A} (x y : A) (l : list A) : x ∈ (l ++ [y])%list <-> x ∈ l \/ x = y.
Proof. set_solver. Qed.

(** A command that leaves the store alone, and answers with a stored record if at all. *)
Lemma quiet_command s hist c a : consents_ok s hist ->
  (forall r, a = Ok r -> cs_records s !! dc_id r = Some r /\
     match c with Revoke _ _ _ _ _ => dc_state r <> ACTIVE | _ => True end) ->
  consents_ok s (hist ++ [(c, a)])%list.
Proof.
  intros Hok Ha. split.
  - intros i r Hi. destruct (ok_created _ _ Hok i r Hi) as [Hid (r0 & Hc & Hr)]. split; [done|].
    exists r0. split; [by eapply created_mono; [apply grows|]|].
    destruct Hr as [Hr|[Hs Hr]]; [by left|right; split; [done|]]. by eapply requested_mono; [apply grows|].
  - apply (ok_keys _ _ Hok).
  - intros c' u v key now r' [H|[= <- <-]]%in_snoc; [by eapply (ok_revoked _ _ Hok)|].
    destruct (Ha r' eq_refl). by eexists.
  - intros c' r' [H|[= <- <-]]%in_snoc.
    + destruct (ok_told _ _ Hok c' r' H) as (r & Hr & [->|Hq]); eexists; (split; [done|]); [by left|right].
      by eapply requested_mono; [apply grows|].
    + destruct (Ha r' eq_refl). eexists. split; [done|]. by left.
Qed.

Lemma replay_command s hist c scope key out : consents_ok s hist -> replayed s scope key out ->
  match c with Revoke _ u _ _ _ => scope = revoke_scope u | _ => True end ->
  consents_ok out.1 (hist ++ [(c, out.2)])%list.
Proof.
  intros Hok (fp & i & r & Hk & Hr & ->) Hc. apply quiet_command; [done|]. intros r' [= <-].
  destruct (ok_created _ _ Hok i r Hr) as [Hid _]. rewrite Hid. split; [done|].
  destruct c; [done|]. destruct (ok_keys _ _ Hok _ _ _ _ Hk) as (r'' & Hr'' & Ha).
  assert (r'' = r) as -> by congruence. by eapply Ha.
Qed.

Lemma fresh_command s hist request p u ph key ttl now uuid digest recipient fp :
  let record := consent_record request p u digest recipient ttl now uuid in
  consents_ok s hist ->
  confirm_guards request p u key ttl = Ok tt ->
  confirm_binding recipients request p ph ttl = Ok (digest, recipient) ->
  cs_records s !! uuid = None ->
  consents_ok {| cs_records := <[uuid := record]> (cs_records s);
                 cs_commands := <[(confirm_scope u, key) := (fp, uuid)]> (cs_commands s) |}
    (hist ++ [(Confirm request p u ph key ttl now uuid, Ok record)])%list.
Proof.
  intros record Hok Hg Hb Hn.
  assert (forall i r, cs_records s !! i = Some r -> <[uuid := record]> (cs_records s) !! i = Some r) as Hkeep.
  { intros i r Hi. rewrite lookup_insert_ne; [done|]. intros ->. congruence. }
  split; cbn [cs_records cs_commands].
  - intros i r [[-> <-]|[_ Hi]]%lookup_insert_Some'.
    + split; [done|]. exists record. split; [|by left]. exists request, p, u, ph, key, ttl, now, digest, recipient.
      split; [set_solver|done].
    + destruct (ok_created _ _ Hok i r Hi) as [Hid (r0 & Hc & Hr)]. split; [done|].
      exists r0. split; [by eapply created_mono; [apply grows|]|].
      destruct Hr as [Hr|[Hs Hr]]; [by left|right; split; [done|]]. by eapply requested_mono; [apply grows|].
  - intros scope key' fp' i [[[= <- <-] [= <- <-]]|[_ Hk]]%lookup_insert_Some'.
    + exists record. rewrite lookup_insert_eq. split; [done|]. intros u' Hs. discriminate Hs.
    + destruct (ok_keys _ _ Hok _ _ _ _ Hk) as (r & Hr & Ha). exists r. auto.
  - intros c u' v key' now' r' [H|?]%in_snoc; [|done].
    destruct (ok_revoked _ _ Hok _ _ _ _ _ _ H) as (r & Hr & Ha). exists r. auto.
  - intros c r' [H|[= -> ->]]%in_snoc.
    + destruct (ok_told _ _ Hok c r' H) as (r & Hr & [->|Hq]); eexists; (split; [by apply Hkeep|]); [by left|right].
      by eapply requested_mono; [apply grows|].
    + exists record. cbn [dc_id record consent_record]. rewrite lookup_insert_eq. split; [done|by left].
Qed.

(** Closing a consent: the record is replaced by one that is not active. *)
Lemma close_command s hist c u v key now r r1 commands a :
  consents_ok s hist -> cs_records s !! c = Some r -> dc_id r1 = c -> dc_state r1 <> ACTIVE ->
  (commands = cs_commands s \/ exists fp, commands = <[(revoke_scope u, key) := (fp, c)]> (cs_commands s)) ->
  (a = Ok r1 \/ exists e, a = Err e) ->
  consents_ok {| cs_records := <[c := r1]> (cs_records s); cs_commands := commands |}
    (hist ++ [(Revoke c u v key now, a)])%list.
Proof.
  intros Hok Hr Hid Hs1 Hcmd Ha.
  assert (revocation_requested (hist ++ [(Revoke c u v key now, a)])%list c) as Hreq by (exists u, v, key, now, a; apply in_snoc; by right).
  assert (forall i r2, cs_records s !! i = Some r2 -> dc_state r2 <> ACTIVE ->
    exists r3, <[c := r1]> (cs_records s) !! i = Some r3 /\ dc_state r3 <> ACTIVE) as Hkeep.
  { intros i r2 Hi H2. destruct (decide (c = i)) as [->|Hne].
    - exists r1. by rewrite lookup_insert_eq.
    - exists r2. by rewrite lookup_insert_ne. }
  split; cbn [cs_records cs_commands].
  - intros i r2 [[-> <-]|[_ Hi]]%lookup_insert_Some'.
    + split; [done|]. destruct (ok_created _ _ Hok i r Hr) as [_ (r0 & Hc & _)]. exists r0.
      split; [by eapply created_mono; [apply grows|]|]. by right.
    + destruct (ok_created _ _ Hok i r2 Hi) as [Hid2 (r0 & Hc & Hr2)]. split; [done|].
      exists r0. split; [by eapply created_mono; [apply grows|]|].
      destruct Hr2 as [Hr2|[Hs Hr2]]; [by left|right; split; [done|]]. by eapply requested_mono; [apply grows|].
  - assert (forall scope key' fp i, cs_commands s !! (scope, key') = Some (fp, i) ->
      exists r2, <[c := r1]> (cs_records s) !! i = Some r2 /\ (forall u, scope = revoke_scope u -> dc_state r2 <> ACTIVE)) as Hold.
    { intros scope key' fp i Hk. destruct (ok_keys _ _ Hok _ _ _ _ Hk) as (r2 & Hr2 & H2).
      destruct (decide (c = i)) as [->|Hne]; [exists r1; by rewrite lookup_insert_eq|].
      exists r2. by rewrite lookup_insert_ne. }
    destruct Hcmd as [->|[fp ->]]; [exact Hold|].
    intros scope key' fp' i [[[= <- <-] [= <- <-]]|[_ Hk]]%lookup_insert_Some'; [|by eapply Hold].
    exists r1. rewrite lookup_insert_eq. done.
  - intros c' u' v' key' now' r' [H|[= -> -> -> -> -> Hr']]%in_snoc.
    + destruct (ok_revoked _ _ Hok _ _ _ _ _ _ H) as (r2 & Hr2 & H2). by eapply Hkeep.
    + destruct Ha as [->|[e ->]]; [|done]. injection Hr' as ->. exists r1. rewrite Hid, lookup_insert_eq. done.
  - intros c' r' [H|[= -> Hr']]%in_snoc.
    + destruct (ok_told _ _ Hok c' r' H) as (r2 & Hr2 & Hq). destruct (decide (c = dc_id r')) as [->|Hne].
      * exists r1. rewrite lookup_insert_eq. split; [done|by right].
      * exists r2. rewrite lookup_insert_ne by done. split; [done|]. destruct Hq as [->|Hq]; [by left|right].
        by eapply requested_mono; [apply grows|].
    + destruct Ha as [->|[e ->]]; [|done]. injection Hr' as ->. exists r1. rewrite Hid, lookup_insert_eq.
      split; [done|by left].
Qed.

Lemma reached_ok s hist : reached s hist -> consents_ok s hist.
Proof.
  induction 1 as [|s hist c _ Hok].
  { split; cbn; [intros i r Hi|intros ? ? ? ? Hi|intros ? ? ? ? ? ? Hi|intros ? ? Hi];
      by (rewrite lookup_empty in Hi || apply not_elem_of_nil in Hi). }
  destruct c as [request p u ph key ttl now uuid|c u v key now].
  - destruct (exec_confirm s request p u ph key ttl now uuid) as [[e ->]|(d & rf & fp & Hg & Hb & ->)];
      [by apply quiet_command|].
    destruct (store_create_cases (consent_record request p u d rf ttl now uuid) (confirm_scope u) key fp s)
      as [[e ->]|[Hr|[Hn ->]]]; [by apply quiet_command|by eapply replay_command|by apply fresh_command].
  - destruct (exec_revoke s c u v key now) as [[e ->]|(fp & ->)]; [by apply quiet_command|].
    destruct (store_revoke_cases c u v now (revoke_scope u) key fp s) as [[e ->]|[Hr|(r & Hr & _ & _ & H)]];
      [by apply quiet_command|by eapply replay_command|].
    destruct (ok_created _ _ Hok c r Hr) as [Hid _].
    destruct H as [[e ->]| ->]; (eapply close_command; [done|done|by simpl|done|eauto|eauto]).
Qed.

(** ** Authorisation *)

Lemma consent_holds_eq r i u p purpose d rf now :
  consent_holds r i u p purpose d rf now
  = bool_decide (dc_id r = i) && binding_matches r u p purpose d rf DISCLOSURE_POLICY_VERSION now.
Proof.
  assert (forall a b, _same_text a b = bool_decide (a = b)) as E.
  { intros a b. apply Bool.eq_iff_eq_true. by rewrite same_text_eq, bool_decide_eq_true. }
  unfold consent_holds, binding_matches. rewrite !E. by rewrite !andb_assoc.
Qed.

Lemma authorised_spec s request i u p rf now ans : authorised s request i u p rf now = Ok ans ->
  (has_secret request = true /\ ans = None) \/
  (has_secret request = false /\ exists digest, canonical_field_digest (mr_fields request) = Ok digest /\
   ans = match cs_records s !! i with
         | Some r => if bool_decide (dc_id r = i)
                        && binding_matches r u p (mr_purpose request) digest rf DISCLOSURE_POLICY_VERSION now
                     then Some r else None
         | None => None
         end).
Proof.
  unfold authorised, authorize. rewrite run_of_result. destruct (_ ≫= _) as [[]|e]; [|done].
  unfold now_or. rewrite run_call_bind. cbn [inject SubE_disc_env disc_answer lift].
  destruct (has_secret request); [intros [= <-]; by left|]. rewrite run_of_result.
  destruct (canonical_field_digest (mr_fields request)) as [digest|e]; [|done].
  rewrite run_call_bind. cbn. intros H. right. split; [done|]. exists digest. split; [done|].
  unfold store_find_active, mbind, M_bind, get_state in H. cbn in H.
  destruct (cs_records s !! i) as [r|]; [|by simplify_eq/=].
  rewrite andb_comm. destruct (binding_matches _ _ _ _ _ _ _ _) eqn:Eb; cbn in H; [|by simplify_eq/=].
  rewrite consent_holds_eq, Eb, andb_comm in H. simpl in *. by destruct (bool_decide _); simplify_eq/=.
Qed.

(** The consent that [r] records covers the request. *)
Definition covers (r : DisclosureConsentRecord) (request : ModelRequest) (i u p rf : string) (now : Z) : Prop :=
  dc_id r = i /\ dc_user_id r = u /\ dc_provider_id r = p /\ dc_purpose r = mr_purpose request /\
  canonical_field_digest (mr_fields request) = Ok (dc_field_digest r) /\ dc_recipient_fingerprint r = rf /\
  dc_policy_version r = DISCLOSURE_POLICY_VERSION /\ dc_state r = ACTIVE /\ now < dc_expires_at r.

Lemma authorised_covers s request i u p rf now r : authorised s request i u p rf now = Ok (Some r) ->
  has_secret request = false /\ cs_records s !! i = Some r /\ covers r request i u p rf now.
Proof.
  intros [[_ ?]|(Hs & d & Hd & H)]%authorised_spec; [done|]. split; [done|].
  destruct (cs_records s !! i) as [r'|]; [|done]. destruct (_ && _) eqn:E; [|done]. injection H as ->.
  unfold binding_matches in E. bool_props. split; [done|]. unfold covers. split_and!; try done. congruence.
Qed.

Lemma covers_authorised s request i u p rf now r ans : authorised s request i u p rf now = Ok ans ->
  has_secret request = false -> cs_records s !! i = Some r -> covers r request i u p rf now -> ans = Some r.
Proof.
  intros [[? _]|(_ & d & Hd & ->)]%authorised_spec; [congruence|]. intros _ ->
    (<- & <- & <- & Hp & Hd' & <- & Hv & Ha & Ht).
  rewrite Hd in Hd'. injection Hd' as ->. unfold binding_matches. rewrite Hp, Hv, Ha.
  rewrite !bool_decide_eq_true_2 by done. simpl. by rewrite (proj2 (Z.ltb_lt _ _) Ht).
Qed.

Lemma summaries_total fields : exists l, result_map summary_of fields = Ok l.
Proof.
  induction fields as [|f fields [l Hl]]; [by eexists|]. cbn [result_map].
  assert (exists y, summary_of f = Ok y) as [y ->].
  { unfold summary_of, _canonical_classification, field_classification. rewrite classification_of_value. by eexists. }
  cbn [mbind result_bind]. rewrite Hl. by eexists.
Qed.

(** The preview hash a confirmation was accepted with is that of the preview of its own request. *)
Lemma confirm_preview request p u ph key ttl now digest recipient :
  confirm_guards request p u key ttl = Ok tt ->
  confirm_binding recipients request p ph ttl = Ok (digest, recipient) ->
  MIN_DISCLOSURE_TTL <= ttl <= MAX_DISCLOSURE_TTL /\ has_secret request = false /\
  canonical_field_digest (mr_fields request) = Ok digest /\
  exists v, preview recipients request p ttl now = Ok v /\ dp_preview_hash v = ph /\
    dp_recipient_fingerprint v = recipient /\ dp_suggested_expires_at v = now + ttl.
Proof.
  unfold confirm_guards, confirm_binding, preview.
  intros ([] & H1 & ([] & H2 & ([] & _ & ([] & _ & H3)%result_bind_Ok)%result_bind_Ok)%result_bind_Ok)%result_bind_Ok.
  intros ([] & Hs & ([id rf] & Hrf & ([] & _ & (d & Hd & (e & He & ([] & Hph & [= -> ->])%result_bind_Ok)%result_bind_Ok)
    %result_bind_Ok)%result_bind_Ok)%result_bind_Ok)%result_bind_Ok.
  pose proof H3 as H3'. unfold _validate_ttl in H3'. apply raise_if_Ok in H3'.
  pose proof Hs as Hs'. unfold _reject_secret in Hs'. apply raise_if_Ok in Hs'.
  apply raise_if_Ok in Hph. bool_props. apply same_text_eq in Hph as ->.
  split_and!; [lia|lia|done|done|].
  destruct (summaries_total (mr_fields request)) as [l Hl].
  eexists. rewrite H1, H2, H3, Hs, Hrf. cbn [mbind result_bind]. rewrite Hd. cbn [mbind result_bind]. rewrite Hl.
  cbn [mbind result_bind]. rewrite He. by split_and!.
Qed.

(** C36. An authorisation follows a confirmed, unexpired and unrevoked consent.  After any history of
    confirmations and revocations, whenever [authorize] answers with a consent, that consent was
    confirmed in the history, by the same user, for the same provider and purpose, with the hash of the
    preview of exactly the fields that are about to be disclosed (up to their order, or up to a SHA-256
    collision), for a time of at most seven days that has not passed; none of the fields is secret, and
    no revocation in the history has ever answered with that consent.  Conversely, a consent that a
    command has answered with authorises every secret-free request it covers, while it is not expired, as
    long as nobody asked for its revocation. *)
Theorem authorisation_follows_consent s hist request i u p rf now ans :
  reached s hist -> authorised s request i u p rf now = Ok ans ->
  (forall r, ans = Some r ->
     has_secret request = false /\
     (forall c u' v k t r', (Revoke c u' v k t, Ok r') ∈ hist -> dc_id r' <> i) /\
     exists request' key ttl confirmed_at shown,
       (Confirm request' p u (dp_preview_hash shown) key ttl confirmed_at i, Ok r) ∈ hist /\
       preview recipients request' p ttl confirmed_at = Ok shown /\
       dp_recipient_fingerprint shown = rf /\ mr_purpose request' = mr_purpose request /\
       (mr_fields request ≡ₚ mr_fields request' \/ field_collision (mr_fields request) (mr_fields request')) /\
       ttl <= MAX_DISCLOSURE_TTL /\ now < confirmed_at + ttl) /\
  (forall c r, (c, Ok r) ∈ hist -> ~ revocation_requested hist i -> has_secret request = false ->
     covers r request i u p rf now -> ans = Some r).
Proof.
  intros Hok%reached_ok Ha. split.
  - intros r ->. destruct (authorised_covers _ _ _ _ _ _ _ _ Ha) as (Hs & Hr & Hid & Hu & Hp & Hpu & Hd & Hrf & _ & Hst & Hnow).
    split; [done|]. split.
    { intros c u' v k t r' Hin Heq. destruct (ok_revoked _ _ Hok _ _ _ _ _ _ Hin) as (r2 & Hr2 & Hne). congruence. }
    destruct (ok_created _ _ Hok i r Hr) as [_ (r0 & Hc & [<-|[? _]])]; [|done].
    destruct Hc as (request' & p' & u' & ph & key & ttl & t & d & rf' & Hin & Hg & Hb & ->).
    destruct (confirm_preview request' p' u' ph key ttl t d rf' Hg Hb) as (Httl & _ & Hd' & shown & Hv & <- & Hrf' & _).
    cbn in *. subst. exists request', key, ttl, t, shown. split_and!; try done; [|lia].
    by eapply field_digest_binds.
  - intros c r Hin Hnr Hs Hcov. destruct (ok_told _ _ Hok c r Hin) as (r' & Hr' & Hq).
    destruct Hcov as [Hid Hcov']. destruct Hq as [->|Hq]; [|congruence].
    eapply covers_authorised; [done|done|by rewrite <- Hid|done].
Qed.
End history.

(** ** A run *)

Module ConsentScenario.

Definition identity : RecipientIdentity :=
  {| ri_provider_id := "remote"; ri_adapter := "openai"; ri_endpoint := "https://m.example"; ri_model_id := "m1" |}.
Definition recipients : gmap string RecipientIdentity := {[ "remote" := identity ]}.

Definition name_field : ContextField :=
  {| cf_name := "name"; cf_value := "Lin"; cf_classification := PERSONAL; cf_source := "profile" |}.
Definition topic_field : ContextField :=
  {| cf_name := "topic"; cf_value := "exam"; cf_classification := PUBLIC; cf_source := "task" |}.

Definition request (fields : list ContextField) : ModelRequest :=
  {| mr_purpose := "plan"; mr_instruction := "help"; mr_fields := fields; mr_metadata := JObj [] |}.

Definition shown_hash : string :=
  match preview recipients (request [name_field; topic_field]) "remote" (hours 1) 0 with
  | Ok v => dp_preview_hash v
  | Err _ => ""
  end.
Definition receiver : string := match recipient_fingerprint identity with Ok h => h | Err _ => "" end.

Definition agree : command :=
  Confirm (request [name_field; topic_field]) "remote" "user" shown_hash "k1" (hours 1) 0 "c1".
Definition withdraw : command := Revoke "c1" "user" 0 "k2" (minutes 10).

Definition store : consent_store := (exec recipients empty_consents agree).1.
Definition closed : consent_store := (exec recipients store withdraw).1.

Definition ask (s : consent_store) (fields : list ContextField) (now : Z) : result (option DisclosureConsentRecord) :=
  authorised s (request fields) "c1" "user" "remote" receiver now.

Definition granted : DisclosureConsentRecord :=
  consent_record (request [name_field; topic_field]) "remote" "user"
    (match canonical_field_digest [name_field; topic_field] with Ok h => h | Err _ => "" end) receiver (hours 1) 0 "c1".

End ConsentScenario.

(** The order of the fields may change, but nothing else, and not after the hour or a revocation. *)
Example consent_reordered : ConsentScenario.ask ConsentScenario.store
  [ConsentScenario.topic_field; ConsentScenario.name_field] (minutes 59) = Ok (Some ConsentScenario.granted).
Proof. vm_compute. reflexivity. Qed.

Example consent_other_fields : ConsentScenario.ask ConsentScenario.store [ConsentScenario.name_field] 1 = Ok None.
Proof. vm_compute. reflexivity. Qed.

Example consent_lapsed : ConsentScenario.ask ConsentScenario.store
  [ConsentScenario.name_field; ConsentScenario.topic_field] (hours 1) = Ok None.
Proof. vm_compute. reflexivity. Qed.

Example consent_withdrawn : ConsentScenario.ask ConsentScenario.closed
  [ConsentScenario.name_field; ConsentScenario.topic_field] (minutes 11) = Ok None.
Proof. vm_compute. reflexivity. Qed.

Lemma authorisation_follows_consent_witness :
  exists request' key ttl confirmed_at shown,
    preview ConsentScenario.recipients request' "remote" ttl confirmed_at = Ok shown /\
    (Confirm request' "remote" "user" (dp_preview_hash shown) key ttl confirmed_at "c1", Ok ConsentScenario.granted)
      ∈ [(ConsentScenario.agree, (exec ConsentScenario.recipients empty_consents ConsentScenario.agree).2)] /\
    minutes 59 < confirmed_at + ttl.
Proof.
  destruct (authorisation_follows_consent ConsentScenario.recipients ConsentScenario.store _
    (ConsentScenario.request [ConsentScenario.topic_field; ConsentScenario.name_field]) "c1" "user" "remote"
    ConsentScenario.receiver (minutes 59) (Some ConsentScenario.granted)
    (reached_step ConsentScenario.recipients _ _ ConsentScenario.agree (reached_start _)) consent_reordered)
    as [H _].
  destruct (H _ eq_refl) as (_ & _ & request' & key & ttl & t & shown & Hin & Hv & _ & _ & _ & _ & Ht).
  exists request', key, ttl, t, shown. split_and!; [exact Hv|exact Hin|exact Ht].
Defined.
