(* ===== verification/Router.v ===== *)
(** * Router: choosing a model without widening what is disclosed

    Models [core/models/router.py] and the use it makes of [core/models/cleanup.py].  A provider
    object is external code: what it answers is arbitrary, and its [recipient] property may change
    between two reads; its identifier and whether it is remote are class attributes.  The authorizer
    is the consent service of [Disclosure.v], over a store that may answer anything. *)

From stdpp Require Import sorting.
From S2P Require Import Prelude Text Sha256 Json JsonRoundTrip Monitor Domain Approvals Tasks Scheduling.
From S2P Require Import Disclosure Consents.
Local Open Scope string_scope.
Local Open Scope Z_scope.

(** ** [DisclosureConsent]: the value used without a persistent authorizer *)

Record DisclosureConsent := {
  ec_provider_id : string;
  ec_purpose : string;
  ec_field_digest : string;
  ec_recipient_fingerprint : string;
  ec_expires_at : time;
  ec_user_id : string
}.

Definition is_digest (s : string) : bool := (str_len s =? 64) && forallb is_hex_lower (chars s).

Definition check_ephemeral (c : DisclosureConsent) : result DisclosureConsent :=
  _ ← raise_if (blank (ec_provider_id c)) ValidationError "disclosure consent provider_id is required";
  _ ← raise_if (blank (ec_purpose c)) ValidationError "disclosure consent purpose is required";
  _ ← raise_if (blank (ec_user_id c)) ValidationError "disclosure consent user_id is required";
  _ ← raise_if (negb (is_digest (ec_field_digest c))) ValidationError
        "disclosure consent field_digest must be a sha256";
  _ ← raise_if (negb (is_digest (ec_recipient_fingerprint c))) ValidationError
        "disclosure consent recipient_fingerprint must be a sha256";
  Ok c.

(** [_field_digest]: only the protected fields. *)
Definition _field_digest (request : ModelRequest) : result string :=
  canonical_field_digest (List.filter is_protected (mr_fields request)).

Definition for_request (provider_id recipient : string) (request : ModelRequest) (expires : time)
    (user_id : string) : result DisclosureConsent :=
  d ← _field_digest request;
  check_ephemeral {| ec_provider_id := provider_id; ec_purpose := mr_purpose request;
    ec_field_digest := d; ec_recipient_fingerprint := recipient; ec_expires_at := expires;
    ec_user_id := user_id |}.

(** The conjunction stops before the digest when the provider or the purpose differ. *)
Definition permits (c : DisclosureConsent) (provider_id recipient : string) (request : ModelRequest)
    (now : time) : result bool :=
  if negb (_same_text (ec_provider_id c) provider_id && _same_text (ec_purpose c) (mr_purpose request))
  then Ok false
  else
    d ← _field_digest request;
    Ok (_same_text (ec_field_digest c) d && _same_text (ec_recipient_fingerprint c) recipient
        && (now <? ec_expires_at c)).

(** ** The router *)

Record ModelProvider := { pv_id : string; pv_is_remote : bool; pv_closes : bool }.

Record ModelRouter := {
  rt_providers : list (string * ModelProvider);
  rt_identities : list (string * RecipientIdentity);
  rt_recipients : list (string * string);
  rt_disclosure : bool;
  rt_ephemeral : bool;
  rt_fallback : option string;
  rt_audit : bool
}.

(** [ModelRouter(...)]: each provider comes with the recipient it names at registration;
    [disclosure] says whether a consent service was given. *)
Definition make_router (providers : list (ModelProvider * RecipientIdentity)) (disclosure ephemeral : bool)
    (fallback : option string) (audit : bool) : result ModelRouter :=
  _ ← raise_if (disclosure && ephemeral) PyValueError
        "persistent disclosure and ephemeral consents are mutually exclusive";
  let ids := (fun p => pv_id p.1) <$> providers in
  _ ← raise_if (negb (bool_decide (NoDup ids))) PyValueError "model provider ids must be unique";
  recipients ← result_map (fun p => h ← recipient_fingerprint p.2; Ok (pv_id p.1, h)) providers;
  Ok {| rt_providers := (fun p => (pv_id p.1, p.1)) <$> providers;
        rt_identities := (fun p => (pv_id p.1, p.2)) <$> providers;
        rt_recipients := recipients; rt_disclosure := disclosure; rt_ephemeral := ephemeral;
        rt_fallback := fallback; rt_audit := audit |}.

(** [provider_ids] *)
Definition provider_ids (r : ModelRouter) : list string := keys (rt_providers r).

(** What the router asks of its environment: the current [recipient] of a provider, a completion, a
    close that runs to its end (its outcome, and whether the caller was cancelled meanwhile), the audit
    writer, the consent store and the clock. *)
Inductive rtrE : Type -> Type :=
| RtRecipient (provider_id : string) : rtrE RecipientIdentity
| RtComplete (provider_id : string) (request : ModelRequest) : rtrE ModelOutput
| RtClose (provider_id : string) : rtrE (result unit * bool)
| RtAudit (event : AuditEvent) : rtrE unit
| RtCons {X} (op : consE X) : rtrE X
| RtEnv {X} (op : envE X) : rtrE X.

#[global] Instance SubE_rtr_cons : SubE consE rtrE := fun X op => RtCons op.
#[global] Instance SubE_rtr_env : SubE envE rtrE := fun X op => RtEnv op.

(** ** What a routed call has seen *)

(** What a routed call has seen so far: the time it read, the recipient that a provider named with
    nothing awaited since, and the last consent the store answered with. *)
Record seen := {
  sn_time : option Z;
  sn_identity : option (string * RecipientIdentity);
  sn_consent : option DisclosureConsentRecord
}.
#[export] Instance seen_eta : Eta seen := fun m => Build_seen (sn_time m) (sn_identity m) (sn_consent m).

Definition see (X : Type) (m : seen) (op : rtrE X) : result X -> seen :=
  match op in rtrE X return result X -> seen with
  | RtRecipient i => fun ans => m {{ sn_identity := match ans with Ok x => Some (i, x) | Err _ => None end }}
  | RtCons op =>
      match op in consE X return result X -> seen with
      | CsFindActive _ _ _ _ _ _ _ _ => fun ans =>
          m {{ sn_identity := None; sn_consent := match ans with Ok c => c | Err _ => None end }}
      | _ => fun _ => m {{ sn_identity := None }}
      end
  | RtEnv op =>
      match op in envE X return result X -> seen with
      | Now => fun ans => m {{ sn_time := match ans with Ok t => Some t | Err _ => None end }}
      | _ => fun _ => m
      end
  | _ => fun _ => m {{ sn_identity := None }}
  end.

Section router.
Context (r : ModelRouter).

Definition dict_at {A} (l : list (string * A)) (k : string) : result A :=
  match assoc k l with Some x => Ok x | None => fail PyKeyError k end.

(** *** [aclose] *)

(** [run_cleanup(close())]: a cancellation wins over the outcome. *)
Definition run_cleanup (provider_id : string) : prog rtrE unit :=
  perform (RtClose provider_id) ≫= fun answer : result unit * bool =>
  let '(outcome, was_cancelled) := answer in
  match outcome with
  | Err e => if was_cancelled || exn_is e PyCancelledError then Raise cancelled else Raise e
  | Ok _ => if was_cancelled then Raise cancelled else Ret tt
  end.

Fixpoint close_all (providers : list (string * ModelProvider)) (first_error : option exn)
    (was_cancelled : bool) : prog rtrE unit :=
  match providers with
  | [] => if was_cancelled then Raise cancelled
          else match first_error with Some e => Raise e | None => Ret tt end
  | (_, p) :: providers =>
      if negb (pv_closes p) then close_all providers first_error was_cancelled
      else prog_match (run_cleanup (pv_id p))
             (fun _ => close_all providers first_error was_cancelled)
             (fun e => if exn_is e PyCancelledError then close_all providers first_error true
                       else close_all providers
                              (match first_error with None => Some e | Some _ => first_error end)
                              was_cancelled)
  end.

Definition aclose : prog rtrE unit := close_all (rt_providers r) None false.

(** *** [complete] *)

Record _DisclosureDecision := { dd_authorized : bool; dd_consent_id : option string }.

Definition deny : _DisclosureDecision := {| dd_authorized := false; dd_consent_id := None |}.

Definition _decide (request : ModelRequest) (provider_id : string) (consent : option DisclosureConsent)
    (consent_id user_id : option string) (now : time) : prog rtrE _DisclosureDecision :=
  if rt_disclosure r then
    if negb (truthy consent_id) || negb (truthy user_id) then Ret deny
    else
      recipient ← of_result (dict_at (rt_recipients r) provider_id);
      record ← authorize request (default "" consent_id) (default "" user_id) provider_id recipient (Some now);
      match record with
      | None => Ret deny
      | Some c => Ret {| dd_authorized := true; dd_consent_id := Some (dc_id c) |}
      end
  else
    match consent with
    | Some c =>
        if rt_ephemeral r then
          recipient ← of_result (dict_at (rt_recipients r) provider_id);
          ok ← of_result (permits c provider_id recipient request now);
          Ret {| dd_authorized := ok; dd_consent_id := None |}
        else Ret deny
    | None => Ret deny
    end.

Definition _reject_secret_model (request : ModelRequest) : result unit :=
  raise_if (has_secret request) DisclosureDenied "secret material may never be sent to a model".

(** The registered recipient is still the one the provider names. *)
Definition check_recipient_unchanged (p : ModelProvider) : prog rtrE unit :=
  if pv_is_remote p then
    identity ← perform (RtRecipient (pv_id p));
    current ← of_result (recipient_fingerprint identity);
    registered ← of_result (dict_at (rt_recipients r) (pv_id p));
    if negb (_same_text current registered)
    then raise_prog DisclosureDenied "the registered model recipient has changed; rebuild the provider"
    else Ret tt
  else Ret tt.

Definition sorted_classifications (request : ModelRequest) : list string :=
  (sort_items ((fun k => (k, tt)) <$> remove_dups
    (omap (fun f => classification_value <$> classification_of (field_classification f)) (mr_fields request)))).*1.

Definition _audit_data (request : ModelRequest) (output : ModelOutput) (provider_id model_id : string)
    (consent_id : option string) (now : time) : result json :=
  digest ← canonical_field_digest (mr_fields request);
  Ok (JObj [("provider_id", JStr provider_id); ("model_id", JStr model_id);
            ("purpose", JStr (mr_purpose request));
            ("field_count", JInt (Z.of_nat (length (mr_fields request))));
            ("field_digest", JStr digest);
            ("classifications", JList (JStr <$> sorted_classifications request));
            ("consent_id", opt_str consent_id); ("output_sha256", JStr (sha256 (mo_text output)));
            ("recorded_at", JStr (isoformat now));
            ("usage", JObj (bounded_usage (mo_usage output) AUDITABLE_USAGE_KEYS))]).

Definition _record_success (request : ModelRequest) (output : ModelOutput) (provider_id model_id : string)
    (user_id consent_id : option string) (now : time) : prog rtrE unit :=
  if negb (rt_audit r) then Ret tt
  else
    data ← of_result (_audit_data request output provider_id model_id consent_id now);
    occurred ← call Now;
    perform (RtAudit {| ae_type := "model.completed"; ae_actor := str_or user_id "system";
                     ae_resource_type := "model_call"; ae_resource_id := model_id; ae_data := data;
                     ae_occurred_at := occurred |}).

(** The provider a request with protected fields goes to without an authorisation: a local one. *)
Definition fallback_provider (local_fallback_id : option string) : result ModelProvider :=
  match (match local_fallback_id with Some i => Some i | None => rt_fallback r end) with
  | None => fail DisclosureDenied
      "remote disclosure requires consent bound to provider, purpose and exact fields"
  | Some i =>
      match assoc i (rt_providers r) with
      | None => fail DisclosureDenied "configured local fallback is unavailable"
      | Some p => if pv_is_remote p then fail DisclosureDenied "fallback provider must be local" else Ok p
      end
  end.

(** The provider that gets the request, and the consent that was used. *)
Definition select_provider (request : ModelRequest) (provider : ModelProvider) (provider_id : string)
    (consent : option DisclosureConsent) (consent_id user_id local_fallback_id : option string) (now : time)
  : prog rtrE (ModelProvider * option string) :=
  if pv_is_remote provider && existsb is_protected (mr_fields request) then
    decision ← _decide request provider_id consent consent_id user_id now;
    if negb (dd_authorized decision) then
      fallback ← of_result (fallback_provider local_fallback_id);
      _ ← of_result (_reject_secret_model request);
      Ret (fallback, None)
    else Ret (provider, dd_consent_id decision)
  else Ret (provider, None).

Definition complete (request : ModelRequest) (provider_id : string) (consent : option DisclosureConsent)
    (consent_id user_id local_fallback_id : option string) (now : option time) : prog rtrE ModelOutput :=
  provider ← of_result (match assoc provider_id (rt_providers r) with
                        | Some p => Ok p
                        | None => fail PyKeyError ("unknown model provider: " ++ provider_id)
                        end);
  _ ← of_result (_reject_secret_model request);
  current ← now_or now;
  _ ← check_recipient_unchanged provider;
  select_provider request provider provider_id consent consent_id user_id local_fallback_id current
    ≫= fun selected : ModelProvider * option string =>
  let '(chosen, used_consent_id) := selected in
  _ ← check_recipient_unchanged chosen;
  output ← perform (RtComplete (pv_id chosen) request);
  identity ← of_result (dict_at (rt_identities r) (pv_id chosen));
  _ ← _record_success request output (pv_id chosen) (ri_model_id identity) user_id used_consent_id current;
  Ret output.


(** ** What reaches a provider *)

Section call.
Context (request : ModelRequest) (consent : option DisclosureConsent).
Context (consent_id user_id : option string) (now : option Z).

(** The time a call is decided at. *)
Definition decided_at (m : seen) (t : Z) : Prop := match now with Some t' => t = t' | None => sn_time m = Some t end.

(** An active, unexpired record of a consent of this user, under this identifier, to disclose exactly
    these fields for this purpose to this recipient of this provider, under the policy in force. *)
Record exact_consent (c : DisclosureConsentRecord) (ci u p digest recipient : string) (t : Z) : Prop := {
  xc_id : dc_id c = ci;
  xc_user : dc_user_id c = u;
  xc_provider : dc_provider_id c = p;
  xc_purpose : dc_purpose c = mr_purpose request;
  xc_fields : dc_field_digest c = digest;
  xc_recipient : dc_recipient_fingerprint c = recipient;
  xc_policy : dc_policy_version c = DISCLOSURE_POLICY_VERSION;
  xc_active : dc_state c = DisclosureConsentState.ACTIVE;
  xc_unexpired : t < dc_expires_at c
}.

(** The same of a consent the caller hands over; it covers the protected fields. *)
Record exact_ephemeral (c : DisclosureConsent) (p digest recipient : string) (t : Z) : Prop := {
  xe_provider : ec_provider_id c = p;
  xe_purpose : ec_purpose c = mr_purpose request;
  xe_fields : ec_field_digest c = digest;
  xe_recipient : ec_recipient_fingerprint c = recipient;
  xe_unexpired : t < ec_expires_at c
}.

Definition protected_field (f : ContextField) : Prop :=
  cf_classification f = PERSONAL \/ cf_classification f = SENSITIVE.
#[local] Instance protected_field_dec f : Decision (protected_field f).
Proof. unfold protected_field. apply _. Defined.

(** With a consent service: a record the store answered with.  Otherwise, where ephemeral consents
    are enabled: the caller's own. *)
Definition consented (m : seen) (p : string) : Prop :=
  exists t recipient, decided_at m t /\ assoc p (rt_recipients r) = Some recipient /\
  if rt_disclosure r then
    exists ci u c digest, consent_id = Some ci /\ user_id = Some u /\ sn_consent m = Some c /\
      canonical_field_digest (mr_fields request) = Ok digest /\
      exact_consent c ci u p digest recipient t
  else rt_ephemeral r = true /\ exists c digest, consent = Some c /\
      canonical_field_digest (filter protected_field (mr_fields request)) = Ok digest /\
      exact_ephemeral c p digest recipient t.

(** The provider has just named the recipient it was registered with. *)
Definition unchanged (m : seen) (p : string) : Prop :=
  exists identity fp, sn_identity m = Some (p, identity) /\ recipient_fingerprint identity = Ok fp /\
    assoc p (rt_recipients r) = Some fp.

Definition rtr_ok (X : Type) (m : seen) (op : rtrE X) : Prop :=
  match op with
  | RtComplete p request' =>
      request' = request /\ Forall (fun f => cf_classification f <> SECRET) (mr_fields request) /\
      exists provider, assoc p (rt_providers r) = Some provider /\
        (pv_is_remote provider = true -> unchanged m p /\
           (Exists protected_field (mr_fields request) -> consented m p))
  | RtAudit ev =>
      exists kvs, ae_data ev = JObj kvs /\
        (assoc "consent_id" kvs = Some JNull
         \/ exists c, sn_consent m = Some c /\ assoc "consent_id" kvs = Some (JStr (dc_id c)))
  | _ => True
  end.

Notation rwp := (mwp rtr_ok see).

(** Providers are registered under their own identifiers. *)
Definition router_ok : Prop := forall i p, assoc i (rt_providers r) = Some p -> pv_id p = i.

Lemma check_recipient_wp p m :
  rwp (check_recipient_unchanged p) m (fun m' res =>
    sn_time m' = sn_time m /\ sn_consent m' = sn_consent m /\
    match res with Ok _ => pv_is_remote p = true -> unchanged m' (pv_id p) | Err _ => True end).
Proof.
  unfold check_recipient_unchanged. destruct (pv_is_remote p) eqn:Hr; [|by split_and!].
  apply mwp_bind, mwp_perform; [exact I|]. intros [identity|e]; [|by split_and!].
  apply mwp_bind, mwp_of_result. destruct (recipient_fingerprint identity) as [fp|e] eqn:Hfp; [|by split_and!].
  apply mwp_bind, mwp_of_result. unfold dict_at. destruct (assoc (pv_id p) (rt_recipients r)) as [h|] eqn:Hh; [|by split_and!].
  destruct (_same_text fp h) eqn:E; [|by split_and!]. apply same_text_eq in E as ->. cbn [negb].
  split_and!; [done..|]. intros _. by exists identity, h.
Qed.

(** The tests of the code decide the specification. *)
Lemma consent_holds_exact c ci u p digest recipient t :
  consent_holds c ci u p (mr_purpose request) digest recipient t = true ->
  exact_consent c ci u p digest recipient t.
Proof.
  unfold consent_holds. rewrite !andb_true_iff, !same_text_eq. intros H. destruct_and!. bool_props. by split.
Qed.

Lemma is_protected_iff f : is_protected f = true <-> protected_field f.
Proof.
  unfold is_protected, protected_field, field_classification. rewrite classification_of_value.
  destruct (cf_classification f); naive_solver.
Qed.

Lemma protected_filter l : List.filter is_protected l = filter protected_field l.
Proof.
  induction l as [|f l IH]; [done|]. cbn [List.filter]. rewrite filter_cons, IH.
  destruct (is_protected f) eqn:E; [by rewrite decide_True by (by apply is_protected_iff)|].
  rewrite decide_False; [done|]. intros H%is_protected_iff. congruence.
Qed.

Lemma permits_exact c p recipient t : permits c p recipient request t = Ok true ->
  exists digest, canonical_field_digest (filter protected_field (mr_fields request)) = Ok digest /\
    exact_ephemeral c p digest recipient t.
Proof.
  unfold permits, _field_digest. rewrite protected_filter. destruct (negb _) eqn:E; [done|].
  intros (d & Hd & [= H])%result_bind_Ok. exists d. split; [done|].
  apply negb_false_iff in E. rewrite !andb_true_iff, !same_text_eq in *. destruct_and!. bool_props. by split.
Qed.

Lemma secret_free : has_secret request = false -> Forall (fun f => cf_classification f <> SECRET) (mr_fields request).
Proof.
  unfold has_secret. intros H. apply Forall_forall. intros f Hf E. apply not_true_iff_false in H. apply H.
  apply existsb_exists. exists f. split; [by apply list_elem_of_In|].
  unfold is_secret_classification, field_classification. by rewrite classification_of_value, E.
Qed.

Lemma protected_exists : Exists protected_field (mr_fields request) ->
  existsb is_protected (mr_fields request) = true.
Proof.
  intros (f & Hf & Hp)%Exists_exists. apply existsb_exists. exists f.
  split; [by apply list_elem_of_In|by apply is_protected_iff].
Qed.

Lemma truthy_some o : truthy o = true -> o = Some (default "" o).
Proof. by destruct o. Qed.

Lemma authorize_wp ci u p recipient t m :
  rwp (authorize request ci u p recipient (Some t)) m (fun m' res =>
    sn_time m' = sn_time m /\
    match res with
    | Ok (Some c) => sn_consent m' = Some c /\ exists digest, canonical_field_digest (mr_fields request) = Ok digest /\
        exact_consent c ci u p digest recipient t
    | _ => True
    end).
Proof.
  unfold authorize. apply mwp_bind, mwp_of_result. destruct (_ ≫= _) as [_|e]; [|done].
  apply mwp_bind. cbn [now_or mwp]. destruct (has_secret request); [done|].
  apply mwp_bind, mwp_of_result. destruct (canonical_field_digest (mr_fields request)) as [digest|e]; [|done].
  apply mwp_bind, mwp_perform; [exact I|]. intros [[c|]|e]; [|done..].
  destruct (consent_holds c ci u p (mr_purpose request) digest recipient t) eqn:E; [|done].
  split_and!; [done..|]. exists digest. split; [done|]. by apply consent_holds_exact.
Qed.

Lemma decide_wp p t m : decided_at m t ->
  rwp (_decide request p consent consent_id user_id t) m (fun m' res =>
    sn_time m' = sn_time m /\
    match res with
    | Ok d => dd_authorized d = true -> consented m' p /\
        (dd_consent_id d = None \/ exists c, sn_consent m' = Some c /\ dd_consent_id d = Some (dc_id c))
    | Err _ => True
    end).
Proof.
  intros Ht. unfold _decide, dict_at. destruct (rt_disclosure r) eqn:Hd.
  - destruct (truthy consent_id) eqn:Hc; [|done]. destruct (truthy user_id) eqn:Hu; [|done]. cbn [negb orb].
    apply mwp_bind, mwp_of_result. destruct (assoc p (rt_recipients r)) as [h|] eqn:Hh; [|done].
    apply mwp_bind. eapply mwp_mono; [|apply authorize_wp]. cbn beta.
    intros m' [[c|]|e] [Htime H]; [|done..]. split; [done|]. intros _. destruct H as (Hs & digest & Hdg & Hold).
    split; [|right; by exists c]. exists t, h. split_and!; [|done|].
    + unfold decided_at in *. by rewrite Htime.
    + rewrite Hd. exists (default "" consent_id), (default "" user_id), c, digest.
      split_and!; [by apply truthy_some..|done|done|done].
  - destruct consent as [c|] eqn:Hcon; [|done]. destruct (rt_ephemeral r) eqn:He; [|done].
    apply mwp_bind, mwp_of_result. destruct (assoc p (rt_recipients r)) as [h|] eqn:Hh; [|done].
    apply mwp_bind, mwp_of_result. destruct (permits c p h request t) as [ok|e] eqn:Hp; [|done].
    split; [done|]. cbn [dd_authorized dd_consent_id]. intros ->. split; [|by left].
    exists t, h. split_and!; [done|done|]. rewrite Hd. split; [done|].
    destruct (permits_exact c p h t Hp) as (d & ? & ?). by exists c, d.
Qed.

Lemma select_wp provider p fallback t m : decided_at m t -> router_ok -> assoc p (rt_providers r) = Some provider ->
  rwp (select_provider request provider p consent consent_id user_id fallback t) m (fun m' res =>
    sn_time m' = sn_time m /\
    match res with
    | Ok (chosen, used) => assoc (pv_id chosen) (rt_providers r) = Some chosen /\
        (pv_is_remote chosen = true -> existsb is_protected (mr_fields request) = true -> consented m' (pv_id chosen)) /\
        (used = None \/ exists c, sn_consent m' = Some c /\ used = Some (dc_id c))
    | Err _ => True
    end).
Proof.
  intros Ht Hok Hp. pose proof (Hok _ _ Hp) as Hid. unfold select_provider.
  destruct (pv_is_remote provider && existsb is_protected (mr_fields request)) eqn:E.
  - apply mwp_bind. eapply mwp_mono; [|by apply decide_wp]. cbn beta. intros m' [d|e] [Htime H]; [|done].
    destruct (dd_authorized d) eqn:Ha; cbn [negb].
    + destruct (H eq_refl) as [Hc Hu]. cbn [mwp]. rewrite Hid. split_and!; auto.
    + apply mwp_bind, mwp_of_result. destruct (fallback_provider fallback) as [f|e] eqn:Hf; [|done].
      apply mwp_bind, mwp_of_result. destruct (_reject_secret_model request); [|done]. cbn [mwp].
      split; [done|]. unfold fallback_provider in Hf. destruct (match fallback with Some _ => _ | None => _ end); [|done].
      destruct (assoc s (rt_providers r)) as [q|] eqn:Hq; [|done]. destruct (pv_is_remote q) eqn:Hr; [done|].
      injection Hf as ->. rewrite (Hok _ _ Hq). split_and!; [done| |by left]. congruence.
  - cbn [mwp]. rewrite Hid. split_and!; [done..| |by left]. intros H1 H2. by rewrite H1, H2 in E.
Qed.

Lemma record_wp output p model used t m :
  (used = None \/ exists c, sn_consent m = Some c /\ used = Some (dc_id c)) ->
  rwp (_record_success request output p model user_id used t) m (fun _ _ => True).
Proof.
  intros Hu. unfold _record_success. destruct (rt_audit r); cbn [negb]; [|done].
  apply mwp_bind, mwp_of_result. unfold _audit_data. destruct (canonical_field_digest _) as [d|e]; [|done].
  cbn [mbind result_bind]. apply mwp_bind, mwp_perform; [exact I|]. intros [t'|e]; [|done].
  apply mwp_perform; [|done]. cbn [rtr_ok ae_data]. eexists. split; [reflexivity|]. cbn [assoc].
  destruct Hu as [->|(c & Hc & ->)]; [by left|right]. by exists c.
Qed.

Lemma complete_wp p fallback m : router_ok ->
  rwp (complete request p consent consent_id user_id fallback now) m (fun _ _ => True).
Proof.
  intros Hok. unfold complete. apply mwp_bind, mwp_of_result.
  destruct (assoc p (rt_providers r)) as [provider|] eqn:Hp; [|done].
  apply mwp_bind, mwp_of_result. unfold _reject_secret_model at 1. destruct (has_secret request) eqn:Hsec; [done|].
  cbn [raise_if]. apply mwp_bind.
  assert (rwp (now_or now) m (fun m' res => match res with Ok t => decided_at m' t | Err _ => True end)) as Hnow.
  { unfold now_or, decided_at. destruct now as [t|]; [done|]. apply mwp_perform; [exact I|]. by intros [t|e]. }
  eapply mwp_mono; [|exact Hnow]. cbn beta. intros m1 [t|e] Ht; [|done].
  apply mwp_bind. eapply mwp_mono; [|apply check_recipient_wp]. cbn beta. intros m2 [_|e] (Htime & _ & _); [|done].
  assert (decided_at m2 t) as Ht2. { unfold decided_at in *. by rewrite Htime. }
  apply mwp_bind. eapply mwp_mono; [|by apply select_wp]. cbn beta.
  intros m3 [[chosen used]|e] [Htime3 H]; [|done]. destruct H as (Hchosen & Hcons & Hused).
  apply mwp_bind. eapply mwp_mono; [|apply check_recipient_wp]. cbn beta. intros m4 [_|e] (Htime4 & Hsn & Hun); [|done].
  apply mwp_bind, mwp_perform.
  { cbn [rtr_ok]. split_and!; [done|by apply secret_free|]. exists chosen. split; [done|]. intros Hr. split; [by apply Hun|].
    intros Hprot%protected_exists. destruct (Hcons Hr Hprot) as (t' & h & Hdec & Hh & Hc). exists t', h. split_and!; [|done|].
    - unfold decided_at in *. by rewrite Htime4.
    - destruct (rt_disclosure r); [|done]. by rewrite Hsn. }
  intros [output|e]; [|done]. apply mwp_bind, mwp_of_result.
  destruct (dict_at (rt_identities r) (pv_id chosen)) as [identity|e]; [|done].
  apply mwp_bind. eapply mwp_mono; [|apply record_wp]. { by intros m' [_|e] _. }
  simpl. by rewrite Hsn.
Qed.

End call.
End router.

(** ** Registration *)

Lemma assoc_fmap {A B} (f : A -> string) (g : A -> B) l i x :
  assoc i ((fun a => (f a, g a)) <$> l) = Some x -> exists a, a ∈ l /\ f a = i /\ g a = x.
Proof.
  induction l as [|a l IH]; [done|]. rewrite fmap_cons. cbn [assoc]. case_bool_decide as E.
  - intros [= <-]. exists a. split_and!; [set_solver|done|done].
  - intros H. destruct (IH H) as (b & Hb & ? & ?). exists b. split_and!; [set_solver|done|done].
Qed.

(** A constructed router registers every provider under its own identifier. *)
Lemma make_router_ok providers d e fb a r : make_router providers d e fb a = Ok r -> router_ok r.
Proof.
  unfold make_router. intros ([] & _ & ([] & _ & (recs & _ & [= <-])%result_bind_Ok)%result_bind_Ok)%result_bind_Ok.
  intros i p (x & _ & <- & <-)%assoc_fmap. done.
Qed.

Module RouterScenario.
Import ConsentScenario.

Definition remote : ModelProvider := {| pv_id := "remote"; pv_is_remote := true; pv_closes := true |}.
Definition router : ModelRouter :=
  {| rt_providers := [("remote", remote)]; rt_identities := [("remote", identity)];
     rt_recipients := [("remote", receiver)]; rt_disclosure := true; rt_ephemeral := false;
     rt_fallback := None; rt_audit := true |}.

(** The environment: the registered recipient, and the consent store of [ConsentScenario]. *)
Definition answer (X : Type) (op : rtrE X) : M consent_store X :=
  match op in rtrE X return M consent_store X with
  | RtRecipient _ => lift (Ok identity)
  | RtComplete p _ => lift (Ok {| mo_text := "plan"; mo_provider_id := p; mo_model_id := "m1"; mo_usage := JNull |})
  | RtClose _ => lift (Ok (Ok tt, false))
  | RtAudit _ => lift (Ok tt)
  | RtCons op => consE_handle op
  | RtEnv op => lift (match op in envE X return result X with
                      | Now => Ok (minutes 5)
                      | NewUuid => Ok "u"
                      | NewToken => Ok "t"
                      end)
  end.

Definition calling (consent_id : string) : prog rtrE ModelOutput :=
  complete router (request [topic_field; name_field]) "remote" None (Some consent_id) (Some "user") None None.

End RouterScenario.

Example router_built : make_router [(RouterScenario.remote, ConsentScenario.identity)] true false None true
  = Ok RouterScenario.router.
Proof. vm_compute. reflexivity. Qed.

Example router_refuses : (run RouterScenario.answer (RouterScenario.calling "c2") ConsentScenario.store).2
  = fail DisclosureDenied "remote disclosure requires consent bound to provider, purpose and exact fields".
Proof. vm_compute. reflexivity. Qed.

