(* ===== verification/Manifest.v ===== *)
(** * Manifest: static validation of extension manifests

    Models [core/extensions/manifest.py].  The parsed TOML document is a [json] table, and the file
    system enters as two arguments: what each absolute path names ([fs]: nothing, a file, a directory, a
    symbolic link, anything else) and the text of a file.  The regular expressions of the module are
    written out as matchers and shown to accept only what the expressions match. *)

From S2P Require Import Prelude Text Sha256 Json Domain.
Local Open Scope string_scope.
Local Open Scope Z_scope.

(** ** Character classes *)

Definition is_lower (a : Ascii.ascii) : bool := (97 <=? code a) && (code a <=? 122).
Definition is_upper (a : Ascii.ascii) : bool := (65 <=? code a) && (code a <=? 90).
Definition is_letter (a : Ascii.ascii) : bool := is_lower a || is_upper a.
Definition is_alnum (a : Ascii.ascii) : bool := is_letter a || is_digit a.
Definition char_in (codes : list Z) (a : Ascii.ascii) : bool := existsb (Z.eqb (code a)) codes.

(** [\w] over the first 256 code points. *)
Definition is_word (a : Ascii.ascii) : bool :=
  let c := code a in
  is_alnum a || (c =? 95) || char_in [170; 178; 179; 181; 185; 186; 188; 189; 190] a
  || ((192 <=? c) && negb (c =? 215) && negb (c =? 247)).

(** The longest prefix of characters of a class, and the rest. *)
Fixpoint span (f : Ascii.ascii -> bool) (l : list Ascii.ascii) : list Ascii.ascii * list Ascii.ascii :=
  match l with
  | a :: l' => if f a then let '(p, r) := span f l' in (a :: p, r) else ([], l)
  | [] => ([], [])
  end.

(** Split at the characters of a class; always at least one part. *)
Fixpoint split_at (f : Ascii.ascii -> bool) (l : list Ascii.ascii) : list (list Ascii.ascii) :=
  match l with
  | [] => [[]]
  | a :: l' => if f a then [] :: split_at f l'
               else match split_at f l' with
                    | p :: ps => (a :: p) :: ps
                    | [] => [[a]]
                    end
  end.

Definition all_of (f : Ascii.ascii -> bool) (l : list Ascii.ascii) : bool :=
  negb (bool_decide (l = [])) && forallb f l.

(** ** The patterns *)

Definition is_id_char (a : Ascii.ascii) : bool := is_lower a || is_digit a.
Definition is_id_separator : Ascii.ascii -> bool := char_in [46; 95; 45].

(** [_ID_RE]: [[a-z][a-z0-9]*(?:[._-][a-z0-9]+)+] *)
Definition id_match (s : string) : bool :=
  let parts := split_at is_id_separator (chars s) in
  (2 <=? Z.of_nat (length parts)) && forallb (all_of is_id_char) parts
  && match chars s with a :: _ => is_lower a | [] => false end.

(** A number without superfluous zeros. *)
Definition numeric_match (l : list Ascii.ascii) : bool :=
  all_of is_digit l && match l with [_] => true | a :: _ => negb (code a =? 48) | [] => false end.

(** An optional suffix introduced by a character: what follows it must be non-empty. *)
Definition suffix_ok (l : list Ascii.ascii) : bool := all_of (fun a => is_alnum a || char_in [46; 45] a) l.

(** [_SEMVER_RE] *)
Definition semver_match (s : string) : bool :=
  let '(core, rest) := span (fun a => is_digit a || (code a =? 46)) (chars s) in
  let core_ok := match split_at (fun a => code a =? 46) core with
                 | [x; y; z] => numeric_match x && numeric_match y && numeric_match z
                 | _ => false
                 end in
  core_ok && match rest with
  | [] => true
  | a :: rest =>
      if code a =? 45 then
        let '(pre, build) := span (fun a => negb (code a =? 43)) rest in
        suffix_ok pre && match build with [] => true | _ :: build => suffix_ok build end
      else (code a =? 43) && suffix_ok rest
  end.

(** [[A-Za-z_]\w*] *)
Definition name_match (l : list Ascii.ascii) : bool :=
  match l with a :: l => (is_letter a || (code a =? 95)) && forallb is_word l | [] => false end.

(** [_ENTRYPOINT_RE] *)
Definition entrypoint_match (s : string) : bool :=
  match split_at (fun a => code a =? 58) (chars s) with
  | [module; callable] => forallb name_match (split_at (fun a => code a =? 46) module) && name_match callable
  | _ => false
  end.

(** [_EXACT_VERSION_RE] *)
Definition exact_version_match (l : list Ascii.ascii) : bool :=
  let '(numbers, rest) := span (fun a => is_digit a || (code a =? 46)) l in
  let numbers_ok := forallb (all_of is_digit) (split_at (fun a => code a =? 46) numbers) in
  let '(tag, local) := span (fun a => negb (code a =? 43)) rest in
  let tag_ok := match tag with
                | [] => true
                | a :: tag => is_letter a && forallb (fun a => is_alnum a || (code a =? 46)) tag
                end in
  numbers_ok && tag_ok
  && match local with [] => true | _ :: local => all_of (fun a => is_alnum a || (code a =? 46)) local end.

(** [_PINNED_REQUIREMENT_RE]: the pinned version. *)
Definition pinned_requirement (s : list Ascii.ascii) : option (list Ascii.ascii) :=
  let '(name, rest) := span (fun a => is_alnum a || char_in [46; 95; 45] a) s in
  if negb (match name with a :: _ => is_alnum a | [] => false end) then None else
  let rest := match rest with
    | a :: rest' =>
        if code a =? 91 then
          let '(extras, tail) := span (fun a => is_alnum a || char_in [46; 95; 44; 45] a) rest' in
          match extras, tail with
          | _ :: _, b :: tail' => if code b =? 93 then Some tail' else None
          | _, _ => None
          end
        else Some rest
    | [] => Some []
    end in
  match rest with
  | Some (e1 :: e2 :: version) =>
      if (code e1 =? 61) && (code e2 =? 61)
         && all_of (fun a => negb (is_space a || char_in [61; 59; 44; 60; 62; 33; 126; 42] a)) version
      then Some version else None
  | _ => None
  end.

(** [_SHA256_HASH_RE] *)
Definition hash_token_match (s : list Ascii.ascii) : bool :=
  is_prefix_l (chars "--hash=sha256:") s
  && (Z.of_nat (length s) =? 14 + 64) && forallb is_hex_lower (drop 14 s).

(** ** Manifests *)

Record ManifestTool := {
  mt_id : string;
  mt_risk : string;
  mt_input_schema : string;
  mt_output_schema : string;
  mt_capabilities : list string
}.

Record DeclaredCapabilities := { dcap_required : list string; dcap_optional : list string }.

Record ExtensionManifest := {
  em_root : string;
  em_manifest_version : string;
  em_id : string;
  em_name : string;
  em_version : string;
  em_core_api : string;
  em_python : string;
  em_entrypoint : string;
  em_dependency_lock : string;
  em_config_schema : option string;
  em_state_schema_version : Z;
  em_healthcheck : string;
  em_tools : list ManifestTool;
  em_event_sources : list string;
  em_context_providers : list string;
  em_workflows : list string;
  em_schedules : list string;
  em_notifications : list string;
  em_migrations : list string;
  em_forms : list string;
  em_capabilities : DeclaredCapabilities
}.
#[export] Instance ExtensionManifest_eta : Eta ExtensionManifest := fun m =>
  Build_ExtensionManifest (em_root m) (em_manifest_version m) (em_id m) (em_name m) (em_version m)
    (em_core_api m) (em_python m) (em_entrypoint m) (em_dependency_lock m) (em_config_schema m)
    (em_state_schema_version m) (em_healthcheck m) (em_tools m) (em_event_sources m)
    (em_context_providers m) (em_workflows m) (em_schedules m) (em_notifications m) (em_migrations m)
    (em_forms m) (em_capabilities m).

(** [_SLOT_KEYS] with the attribute each key names. *)
Definition _SLOT_KEYS : list (string * string * (ExtensionManifest -> list string)) :=
  [("event_sources", "EventSource", em_event_sources);
   ("context_providers", "ContextProvider", em_context_providers);
   ("workflows", "WorkflowProvider", em_workflows);
   ("schedules", "ScheduleProvider", em_schedules);
   ("notifications", "NotificationProvider", em_notifications);
   ("migrations", "MigrationProvider", em_migrations);
   ("forms", "FormSchemaProvider", em_forms)].

Definition _RISK_LEVELS : list string := ["READ"; "INTERNAL_WRITE"; "EXTERNAL_WRITE"; "PROHIBITED"].

(** [slots]: the tools always, the other slots when they declare something. *)
Definition slots (m : ExtensionManifest) : list (string * list string) :=
  ("ToolProvider", mt_id <$> em_tools m)
  :: List.filter (fun kv => negb (bool_decide (kv.2 = [])))
       ((fun e => (e.1.2, e.2 m)) <$> _SLOT_KEYS).

Definition capability_ids (m : ExtensionManifest) : list string := concat ((slots m).*2).

Definition module_name (m : ExtensionManifest) : string :=
  of_chars (span (fun a => negb (code a =? 58)) (chars (em_entrypoint m))).1.
Definition callable_name (m : ExtensionManifest) : string :=
  of_chars (drop 1 (span (fun a => negb (code a =? 58)) (chars (em_entrypoint m))).2).

(** ** Field checks *)

Definition invalid {A} (msg : string) : result A := fail ManifestValidationError msg.

Definition _required_string (raw : list (string * json)) (key prefix : string) : result string :=
  match assoc key raw with
  | Some (JStr v) => if blank v then invalid (prefix ++ key ++ " must be a non-empty string") else Ok (strip v)
  | _ => invalid (prefix ++ key ++ " must be a non-empty string")
  end.

Definition sorted_strings (l : list string) : list string := (sort_items ((fun k => (k, tt)) <$> l)).*1.

(** [_duplicates]: the values seen more than once, sorted. *)
Fixpoint repeated (seen : list string) (values : list string) : list string :=
  match values with
  | [] => []
  | v :: values => (if mem_b v seen then [v] else []) ++ repeated (v :: seen) values
  end%list.

Definition _duplicates (values : list string) : list string := sorted_strings (remove_dups (repeated [] values)).

(** [f"{list!r}"] *)
Definition list_repr (l : list string) : string := "[" ++ str_join ", " (str_repr <$> l) ++ "]".

Definition _identifier_list (value : json) (field_name : string) : result (list string) :=
  match value with
  | JList items =>
      match mapM as_str items with
      | None => invalid (field_name ++ " must be an array of strings")
      | Some l =>
          let normalized := strip <$> l in
          _ ← raise_if (existsb (fun i => negb (id_match i)) normalized) ManifestValidationError
                (field_name ++ " contains an invalid identifier");
          let duplicates := _duplicates normalized in
          _ ← raise_if (negb (bool_decide (duplicates = []))) ManifestValidationError
                (field_name ++ " contains duplicates: " ++ list_repr duplicates);
          Ok normalized
      end
  | _ => invalid (field_name ++ " must be an array of strings")
  end.

(** *** Version ranges *)

Definition pair_compare (a b : Z * Z) : comparison :=
  match a.1 ?= b.1 with Eq => a.2 ?= b.2 | c => c end.

(** [(>=|>|<=|<|==)(\d+)(?:\.(\d+))?]: the operator as a test of a comparison, and the target. *)
Definition constraint_match (s : string) : option ((comparison -> bool) * (Z * Z)) :=
  let number l := if all_of is_digit l then Some (int_of_decimal (of_chars l)) else None in
  let target l :=
    match split_at (fun a => code a =? 46) l with
    | [major] => n ← number major; Some (n, 0)
    | [major; minor] => n ← number major; m ← number minor; Some (n, m)
    | _ => None
    end in
  let with_op f l := t ← target l; Some (f, t) in
  match chars s with
  | a :: b :: l =>
      if code b =? 61 then
        if code a =? 62 then with_op (fun c => negb (bool_decide (c = Lt))) l
        else if code a =? 60 then with_op (fun c => negb (bool_decide (c = Gt))) l
        else if code a =? 61 then with_op (fun c => bool_decide (c = Eq)) l
        else None
      else if code a =? 62 then with_op (fun c => bool_decide (c = Gt)) (b :: l)
      else if code a =? 60 then with_op (fun c => bool_decide (c = Lt)) (b :: l)
      else None
  | _ => None
  end.

Definition check_constraint (spec field_name : string) (actual : Z * Z) (constraint : string) : result unit :=
  match constraint_match constraint with
  | None => invalid (field_name ++ " uses unsupported range syntax: " ++ str_repr constraint)
  | Some (accepts, target) =>
      raise_if (negb (accepts (pair_compare actual target))) ManifestValidationError
        (field_name ++ " " ++ str_of_Z actual.1 ++ "." ++ str_of_Z actual.2 ++ " does not satisfy "
         ++ str_repr spec)
  end.

Definition range_constraints (spec : string) : list string :=
  List.filter (fun s => negb (bool_decide (s = ""))) (strip <$> str_split (Ascii.ascii_of_N 44) spec).

Definition _validate_range (spec : string) (actual : Z * Z) (field_name : string) : result unit :=
  let constraints := range_constraints spec in
  _ ← raise_if (bool_decide (constraints = [])) ManifestValidationError (field_name ++ " range is empty");
  result_iter (check_constraint spec field_name actual) constraints.

(** *** The dependency lock *)

(** [str.splitlines] over the first 256 code points. *)
Definition is_line_break (a : Ascii.ascii) : bool := char_in [10; 11; 12; 13; 28; 29; 30; 133] a.

Fixpoint splitlines (l cur : list Ascii.ascii) (after_cr : bool) : list (list Ascii.ascii) :=
  match l with
  | [] => if bool_decide (cur = []) then [] else [reverse cur]
  | a :: l =>
      if after_cr && (code a =? 10) then splitlines l [] false
      else if is_line_break a then reverse cur :: splitlines l [] (code a =? 13)
      else splitlines l (a :: cur) false
  end.

(** [str.split()] at runs of white space. *)
Definition words (l : list Ascii.ascii) : list (list Ascii.ascii) :=
  List.filter (fun w => negb (bool_decide (w = []))) (split_at is_space l).

(** The logical lines, each with the number of its first physical line. *)
Fixpoint logical_lines (number : Z) (start : Z) (buffer : list Ascii.ascii) (lines : list (list Ascii.ascii))
  : list (Z * list Ascii.ascii) :=
  match lines with
  | [] => if bool_decide (buffer = []) then [] else [(start, buffer)]
  | raw :: lines =>
      let stripped := chars (strip (of_chars raw)) in
      let start := if bool_decide (buffer = []) then number else start in
      match reverse stripped with
      | a :: front =>
          if code a =? 92 then logical_lines (number + 1) start (buffer ++ reverse front ++ [Ascii.ascii_of_N 32])%list lines
          else (start, buffer ++ stripped)%list :: logical_lines (number + 1) start [] lines
      | [] => (start, buffer) :: logical_lines (number + 1) start [] lines
      end
  end.

Fixpoint contains_l (p l : list Ascii.ascii) : bool :=
  is_prefix_l p l || match l with [] => false | _ :: l => contains_l p l end.

Definition check_lock_line (entry : Z * list Ascii.ascii) : result unit :=
  let '(number, line) := entry in
  let at_line := "dependency_lock line " ++ str_of_Z number in
  if bool_decide (line = []) || is_prefix_l (chars "#") line then Ok tt else
  _ ← raise_if (contains_l (chars ";") line || contains_l (chars "://") line || is_prefix_l (chars "-") line)
        ManifestValidationError (at_line ++ " is not a plain pinned requirement");
  match words line with
  | [] => fail PyIndexError "list index out of range"
  | requirement :: hashes =>
      let pinned := match pinned_requirement requirement with
                    | Some v => exact_version_match v
                    | None => false
                    end in
      _ ← raise_if (negb pinned) ManifestValidationError (at_line ++ " must pin one exact version with '=='");
      _ ← raise_if (bool_decide (hashes = [])) ManifestValidationError
            (at_line ++ " must declare --hash=sha256:...");
      raise_if (existsb (fun t => negb (hash_token_match t)) hashes) ManifestValidationError
        (at_line ++ " has an unsupported hash token")
  end.

Definition _validate_lockfile (text : string) : result unit :=
  result_iter check_lock_line (logical_lines 1 0 [] (splitlines (chars text) [] false)).

(** ** [ManifestParser.parse] *)

(** What an absolute path, given by its components, names. *)
Inductive node := Missing | File | Directory | Link (target : string) | Special.

Definition absolute (path : string) : bool :=
  match chars path with a :: _ => code a =? 47 | [] => false end.

(** The components of a path; [pathlib] drops empty ones and single dots. *)
Definition path_parts (path : string) : list string :=
  List.filter (fun c => negb (bool_decide (c = "")) && negb (bool_decide (c = ".")))
    (str_split (Ascii.ascii_of_N 47) path).

(** [root / reference] *)
Definition join_path (root : list string) (reference : string) : list string :=
  if absolute reference then path_parts reference else (root ++ path_parts reference)%list.

Definition parts_prefix (root path : list string) : bool :=
  bool_decide (take (length root) path = root).

Section parser.
Context (fs : list string -> node) (read_text : list string -> result string) (resolve_steps : nat).
Context (supported_manifest_version : string) (core_api_version python_version : Z * Z).

(** [Path.resolve()]: component by component, two dots go up, a link is replaced by its target; a path
    that is not resolved within the given number of steps counts as a loop of links. *)
Fixpoint resolve (steps : nat) (here todo : list string) : result (list string) :=
  match todo with
  | [] => Ok here
  | name :: todo =>
      match steps with
      | O => fail PyRuntimeError "Symlink loop"
      | S steps =>
          if bool_decide (name = "..") then resolve steps (removelast here) todo
          else if existsb (fun a => code a =? 0) (chars name) then fail PyValueError "embedded null byte"
          else match fs (here ++ [name])%list with
               | Link target =>
                   resolve steps (if absolute target then [] else here) (path_parts target ++ todo)%list
               | _ => resolve steps (here ++ [name])%list todo
               end
      end
  end.

Definition _require_safe_file (root : list string) (reference field_name : string) : result (list string) :=
  candidate ← resolve resolve_steps [] (join_path root reference);
  if negb (parts_prefix root candidate) then invalid (field_name ++ " escapes the extension root")
  else match fs candidate with
       | File => Ok candidate
       | _ => invalid (field_name ++ " does not name a regular file")
       end.

Definition unknown_keys (kvs : list (string * json)) (allowed : list string) : list string :=
  sorted_strings (List.filter (fun k => negb (mem_b k allowed)) (keys kvs)).

Definition parse_tool (root : list string) (index : Z) (item : json) : result ManifestTool :=
  let label := "tools[" ++ str_of_Z index ++ "]" in
  match item with
  | JObj kvs =>
      let unknown := unknown_keys kvs ["id"; "risk"; "input_schema"; "output_schema"; "capabilities"] in
      _ ← raise_if (negb (bool_decide (unknown = []))) ManifestValidationError
            ("unknown " ++ label ++ " keys: " ++ list_repr unknown);
      tool_id ← _required_string kvs "id" (label ++ ".");
      _ ← raise_if (negb (id_match tool_id)) ManifestValidationError ("invalid tool id: " ++ str_repr tool_id);
      risk ← _required_string kvs "risk" (label ++ ".");
      _ ← raise_if (negb (mem_b risk _RISK_LEVELS)) ManifestValidationError
            ("unsupported risk level: " ++ str_repr risk);
      input_schema ← _required_string kvs "input_schema" (label ++ ".");
      output_schema ← _required_string kvs "output_schema" (label ++ ".");
      _ ← _require_safe_file root input_schema (label ++ ".input_schema");
      _ ← _require_safe_file root output_schema (label ++ ".output_schema");
      capabilities ← _identifier_list (default (JList []) (assoc "capabilities" kvs)) (label ++ ".capabilities");
      Ok {| mt_id := tool_id; mt_risk := risk; mt_input_schema := input_schema;
            mt_output_schema := output_schema; mt_capabilities := capabilities |}
  | _ => invalid (label ++ " must be a table")
  end.

Fixpoint parse_tools (root : list string) (index : Z) (items : list json) : result (list ManifestTool) :=
  match items with
  | [] => Ok []
  | item :: items => t ← parse_tool root index item; ts ← parse_tools root (index + 1) items; Ok (t :: ts)
  end.

Definition _parse_tools (root : list string) (raw_tools : json) : result (list ManifestTool) :=
  match raw_tools with
  | JList items => parse_tools root 0 items
  | _ => invalid "tools must be an array of tables"
  end.

Definition _MANIFEST_KEYS : list string :=
  ["manifest_version"; "id"; "name"; "version"; "core_api"; "python"; "entrypoint"; "dependency_lock";
   "config_schema"; "state_schema_version"; "healthcheck"; "tools"; "capabilities"]
  ++ ((fun e => e.1.1) <$> _SLOT_KEYS).

Definition parse_config_schema (root : list string) (raw : list (string * json)) : result (option string) :=
  match default JNull (assoc "config_schema" raw) with
  | JNull => Ok None
  | JStr s =>
      if bool_decide (s = "") then invalid "config_schema must be a non-empty path"
      else _ ← _require_safe_file root s "config_schema"; Ok (Some s)
  | _ => invalid "config_schema must be a non-empty path"
  end.

(** A TOML boolean is an [int] for [isinstance]. *)
Definition parse_state_schema_version (raw : list (string * json)) : result Z :=
  let checked n := if n <? 0 then invalid "state_schema_version must be a non-negative integer" else Ok n in
  match assoc "state_schema_version" raw with
  | Some (JInt n) => checked n
  | Some (JBool b) => checked (if b then 1 else 0)
  | _ => invalid "state_schema_version must be a non-negative integer"
  end.

Definition parse_capabilities (raw : list (string * json)) : result DeclaredCapabilities :=
  match default (JObj []) (assoc "capabilities" raw) with
  | JObj kvs =>
      let unknown := unknown_keys kvs ["required"; "optional"] in
      _ ← raise_if (negb (bool_decide (unknown = []))) ManifestValidationError
            ("unknown capabilities keys: " ++ list_repr unknown);
      required ← _identifier_list (default (JList []) (assoc "required" kvs)) "capabilities.required";
      optional ← _identifier_list (default (JList []) (assoc "optional" kvs)) "capabilities.optional";
      let overlap := sorted_strings (List.filter (fun c => mem_b c optional) required) in
      _ ← raise_if (negb (bool_decide (overlap = []))) ManifestValidationError
            ("capabilities cannot be both required and optional: " ++ list_repr overlap);
      Ok {| dcap_required := required; dcap_optional := optional |}
  | _ => invalid "capabilities must be a table"
  end.

Definition slot_list (raw : list (string * json)) (key : string) : result (list string) :=
  _identifier_list (default (JList []) (assoc key raw)) key.

(** [parse] of a document read from [root], a resolved path. *)
Definition parse (root_path : string) (raw : list (string * json)) : result ExtensionManifest :=
  let root := path_parts root_path in
  let unknown := unknown_keys raw _MANIFEST_KEYS in
  _ ← raise_if (negb (bool_decide (unknown = []))) ManifestValidationError
        ("unknown manifest keys: " ++ list_repr unknown);
  manifest_version ← _required_string raw "manifest_version" "";
  _ ← raise_if (negb (bool_decide (manifest_version = supported_manifest_version))) ManifestValidationError
        ("unsupported manifest_version " ++ str_repr manifest_version);
  extension_id ← _required_string raw "id" "";
  _ ← raise_if (negb (id_match extension_id)) ManifestValidationError
        "id must be a namespaced lowercase identifier";
  version ← _required_string raw "version" "";
  _ ← raise_if (negb (semver_match version)) ManifestValidationError "version must be semantic versioning";
  entrypoint ← _required_string raw "entrypoint" "";
  _ ← raise_if (negb (entrypoint_match entrypoint)) ManifestValidationError
        "entrypoint must have module.path:callable form";
  core_api ← _required_string raw "core_api" "";
  python_spec ← _required_string raw "python" "";
  _ ← _validate_range core_api core_api_version "core_api";
  _ ← _validate_range python_spec python_version "python";
  dependency_lock ← _required_string raw "dependency_lock" "";
  lock_path ← _require_safe_file root dependency_lock "dependency_lock";
  lock_text ← read_text lock_path;
  _ ← _validate_lockfile lock_text;
  config_schema ← parse_config_schema root raw;
  state_schema_version ← parse_state_schema_version raw;
  tools ← _parse_tools root (default (JList []) (assoc "tools" raw));
  event_sources ← slot_list raw "event_sources";
  context_providers ← slot_list raw "context_providers";
  workflows ← slot_list raw "workflows";
  schedules ← slot_list raw "schedules";
  notifications ← slot_list raw "notifications";
  migrations ← slot_list raw "migrations";
  forms ← slot_list raw "forms";
  let duplicates := _duplicates ((mt_id <$> tools) ++ event_sources ++ context_providers ++ workflows
                                 ++ schedules ++ notifications ++ migrations ++ forms) in
  _ ← raise_if (negb (bool_decide (duplicates = []))) ManifestValidationError
        ("capability ids must be globally unique in an extension: " ++ list_repr duplicates);
  capabilities ← parse_capabilities raw;
  name ← _required_string raw "name" "";
  healthcheck ← _required_string raw "healthcheck" "";
  Ok {| em_root := root_path; em_manifest_version := manifest_version; em_id := extension_id;
        em_name := name; em_version := version; em_core_api := core_api; em_python := python_spec;
        em_entrypoint := entrypoint; em_dependency_lock := dependency_lock;
        em_config_schema := config_schema; em_state_schema_version := state_schema_version;
        em_healthcheck := healthcheck; em_tools := tools; em_event_sources := event_sources;
        em_context_providers := context_providers; em_workflows := workflows; em_schedules := schedules;
        em_notifications := notifications; em_migrations := migrations; em_forms := forms;
        em_capabilities := capabilities |}.

End parser.

(** ** What a parsed manifest guarantees *)

Lemma sorted_strings_nil l : sorted_strings l = [] <-> l = [].
Proof.
  unfold sorted_strings. split; [|by intros ->]. intros H. apply fmap_nil_inv in H.
  destruct l as [|x l]; [done|]. exfalso.
  pose proof (sorting.merge_sort_Permutation key_le ((fun k : string => (k, tt)) <$> x :: l)) as Hp.
  unfold sort_items in H. rewrite H in Hp. by apply Permutation_nil in Hp.
Qed.

Lemma repeated_nil seen values : repeated seen values = [] <-> NoDup values /\ (forall v, v ∈ values -> v ∉ seen).
Proof.
  revert seen; induction values as [|v values IH]; intros seen; simpl.
  - split; [|done]. intros _. split; [constructor|]. by intros v ?%not_elem_of_nil.
  - unfold mem_b. case_bool_decide as E; simpl.
    + split; [done|]. intros [_ H]. by destruct (H v ltac:(set_solver)).
    + rewrite IH, NoDup_cons. set_solver.
Qed.

Lemma duplicates_nil values : _duplicates values = [] <-> NoDup values.
Proof.
  unfold _duplicates. rewrite sorted_strings_nil. trans (repeated [] values = []).
  - split; [|by intros ->]. intros H. destruct (repeated [] values) as [|x l] eqn:E; [done|].
    assert (x ∈ remove_dups (x :: l)) as Hx by (apply elem_of_remove_dups; set_solver).
    rewrite H in Hx. by apply not_elem_of_nil in Hx.
  - rewrite repeated_nil. set_solver.
Qed.

Lemma identifier_list_ok value field l : _identifier_list value field = Ok l ->
  NoDup l /\ Forall (fun i => id_match i = true) l.
Proof.
  unfold _identifier_list. destruct value as [| | | | |items| |]; try done.
  destruct (mapM as_str items) as [raw|]; [|done].
  intros ([] & H1%raise_if_Ok & ([] & H2%raise_if_Ok & [= <-])%result_bind_Ok)%result_bind_Ok. bool_props.
  split; [by apply duplicates_nil|]. apply Forall_forall. intros i Hi.
  destruct (id_match i) eqn:E; [done|]. exfalso. apply not_true_iff_false in H1. apply H1, existsb_exists.
  exists i. split; [by apply list_elem_of_In|by rewrite E].
Qed.

(** *** Patterns *)

(** Regular expressions over characters, and the texts they match. *)
Inductive re := Chr (f : Ascii.ascii -> bool) | Eps | Cat (r1 r2 : re) | Alt (r1 r2 : re) | Star (r : re).

Inductive matches : re -> list Ascii.ascii -> Prop :=
| m_chr f a : f a = true -> matches (Chr f) [a]
| m_eps : matches Eps []
| m_cat r1 r2 l1 l2 : matches r1 l1 -> matches r2 l2 -> matches (Cat r1 r2) (l1 ++ l2)%list
| m_left r1 r2 l : matches r1 l -> matches (Alt r1 r2) l
| m_right r1 r2 l : matches r2 l -> matches (Alt r1 r2) l
| m_stop r : matches (Star r) []
| m_more r l1 l2 : matches r l1 -> matches (Star r) l2 -> matches (Star r) (l1 ++ l2)%list.

Definition Plus (r : re) : re := Cat r (Star r).
Definition Opt (r : re) : re := Alt r Eps.
Definition Lit (c : Z) : re := Chr (fun a => code a =? c).

(** The source's [_ID_RE]: a lower-case letter, then lower-case letters and digits, then at least one
    group of a separator and more of them. *)
Definition ID_RE : re :=
  Cat (Chr is_lower) (Cat (Star (Chr is_id_char)) (Plus (Cat (Chr is_id_separator) (Plus (Chr is_id_char))))).

(** The source's [_SEMVER_RE]: three numbers without superfluous zeros, and two optional suffixes. *)
Definition NUMBER_RE : re := Alt (Lit 48) (Cat (Chr (fun a => is_digit a && negb (code a =? 48))) (Star (Chr is_digit))).
Definition SUFFIX_RE : re := Plus (Chr (fun a => is_alnum a || char_in [46; 45] a)).
Definition SEMVER_RE : re :=
  Cat NUMBER_RE (Cat (Cat (Lit 46) NUMBER_RE) (Cat (Cat (Lit 46) NUMBER_RE)
    (Cat (Opt (Cat (Lit 45) SUFFIX_RE)) (Opt (Cat (Lit 43) SUFFIX_RE))))).

(** The source's [_ENTRYPOINT_RE]: dotted names, a colon, a name. *)
Definition NAME_RE : re := Cat (Chr (fun a => is_letter a || (code a =? 95))) (Star (Chr is_word)).
Definition ENTRYPOINT_RE : re :=
  Cat (Cat NAME_RE (Star (Cat (Lit 46) NAME_RE))) (Cat (Lit 58) NAME_RE).

Lemma star_chr f l : forallb f l = true -> matches (Star (Chr f)) l.
Proof.
  induction l as [|a l IH]; cbn; [constructor|]. intros [Ha Hl]%andb_true_iff.
  apply (m_more _ [a] l); [by constructor|by apply IH].
Qed.

Lemma plus_chr f l : all_of f l = true -> matches (Plus (Chr f)) l.
Proof.
  unfold all_of. destruct l as [|a l]; [done|]. cbn. intros [Ha Hl]%andb_true_iff.
  apply (m_cat _ _ [a] l); [by constructor|by apply star_chr].
Qed.

(** What follows the first part: separators and parts. *)
Inductive tails (f : Ascii.ascii -> bool) : list Ascii.ascii -> list (list Ascii.ascii) -> Prop :=
| t_nil : tails f [] []
| t_cons a p l ps : f a = true -> tails f l ps -> tails f (a :: p ++ l)%list (p :: ps).

Lemma split_at_parts f l : exists p rest ps, split_at f l = p :: ps /\ l = (p ++ rest)%list /\ tails f rest ps.
Proof.
  induction l as [|a l (p & rest & ps & E & El & Ht)]; cbn; [exists [], [], []; split_and!; [done..|constructor]|].
  rewrite E. destruct (f a) eqn:Ha.
  - exists [], (a :: l), (p :: ps). rewrite El. split_and!; [done..|]. by constructor.
  - exists (a :: p), rest, ps. split_and!; [done|by rewrite El|done].
Qed.

Lemma tails_star f l ps R : tails f l ps -> (forall p, p ∈ ps -> matches R p) -> matches (Star (Cat (Chr f) R)) l.
Proof.
  induction 1 as [|a p l ps Ha Ht IH]; intros HR; [constructor|].
  apply (m_more _ (a :: p) l); [|apply IH; set_solver].
  apply (m_cat _ _ [a] p); [by constructor|]. apply HR. set_solver.
Qed.

Lemma id_match_sound s : id_match s = true -> matches ID_RE (chars s).
Proof.
  unfold id_match. intros [[Hlen Hall]%andb_true_iff Hhd]%andb_true_iff.
  destruct (split_at_parts is_id_separator (chars s)) as (p & rest & ps & E & El & Ht). rewrite E in Hlen, Hall.
  rewrite El in *. cbn [forallb] in Hall. apply andb_true_iff in Hall as [Hp Hps]. rewrite forallb_forall in Hps.
  assert (forall q, q ∈ ps -> matches (Plus (Chr is_id_char)) q) as HR.
  { intros q Hq. apply plus_chr, Hps. by apply list_elem_of_In. }
  destruct p as [|a p]; [discriminate Hp|]. cbn in Hhd. unfold all_of in Hp. cbn in Hp.
  apply andb_true_iff in Hp as [_ Hp]. apply (m_cat _ _ [a]); [by constructor|].
  apply m_cat; [by apply star_chr|]. inversion Ht as [|b q l qs Hb Ht']; subst; [discriminate Hlen|].
  apply (m_cat _ _ (b :: q) l); [|eapply tails_star; [done|]; set_solver].
  apply (m_cat _ _ [b] q); [by constructor|]. apply HR. set_solver.
Qed.

Lemma numeric_match_sound l : numeric_match l = true -> matches NUMBER_RE l.
Proof.
  unfold numeric_match, all_of. destruct l as [|a l]; [done|]. cbn [forallb].
  intros [[_ [Ha Hl]%andb_true_iff]%andb_true_iff Hz]%andb_true_iff.
  destruct (code a =? 48) eqn:E.
  - destruct l; [|done]. by apply m_left, m_chr.
  - apply m_right, (m_cat _ _ [a] l); [constructor; by rewrite Ha, E|by apply star_chr].
Qed.

Lemma span_join f l : l = ((span f l).1 ++ (span f l).2)%list.
Proof. induction l as [|a l IH]; [done|]. cbn. destruct (f a); [|done]. destruct (span f l). cbn in *. by rewrite IH at 1. Qed.

Lemma span_stops f l : match (span f l).2 with a :: _ => f a = false | [] => True end.
Proof. induction l as [|a l IH]; [done|]. cbn. destruct (f a) eqn:E; [|done]. by destruct (span f l). Qed.

Lemma semver_match_sound s : semver_match s = true -> matches SEMVER_RE (chars s).
Proof.
  unfold semver_match. rewrite (span_join (fun a => is_digit a || (code a =? 46)) (chars s)) at 2.
  destruct (span _ (chars s)) as [core rest]. cbn [fst snd]. intros [Hcore Hrest]%andb_true_iff.
  assert (matches (Cat (Opt (Cat (Lit 45) SUFFIX_RE)) (Opt (Cat (Lit 43) SUFFIX_RE))) rest) as Hr.
  { destruct rest as [|a rest]; [apply (m_cat _ _ [] []); apply m_right, m_eps|].
    destruct (code a =? 45) eqn:Ea.
    - rewrite (span_join (fun a => negb (code a =? 43)) rest).
      pose proof (span_stops (fun a => negb (code a =? 43)) rest) as Hstop.
      destruct (span _ rest) as [pre build]. cbn [fst snd] in *. apply andb_true_iff in Hrest as [Hpre Hbuild].
      apply (m_cat _ _ (a :: pre) build); [apply m_left, (m_cat _ _ [a] pre); [by constructor|by apply plus_chr]|].
      destruct build as [|b build]; [apply m_right, m_eps|].
      apply m_left, (m_cat _ _ [b] build); [constructor; by apply negb_false_iff in Hstop|by apply plus_chr].
    - apply andb_true_iff in Hrest as [Hb Hs]. apply (m_cat _ _ [] (a :: rest)); [apply m_right, m_eps|].
      apply m_left, (m_cat _ _ [a] rest); [by constructor|by apply plus_chr]. }
  destruct (split_at_parts (fun a => code a =? 46) core) as (p & l & ps & E & -> & Ht). rewrite E in Hcore.
  destruct ps as [|y [|z []]]; try discriminate Hcore. rewrite !andb_true_iff in Hcore. destruct Hcore as [[H1 H2] H3].
  inversion Ht as [|a q l1 qs Ha Ht1]; subst. inversion Ht1 as [|b q l2 qs Hb Ht2]; subst. inversion Ht2; subst.
  rewrite app_nil_r. unfold SEMVER_RE. rewrite <- app_assoc. apply m_cat; [by apply numeric_match_sound|].
  change ((a :: y ++ b :: z) ++ rest)%list with (a :: (y ++ b :: z) ++ rest)%list. rewrite <- app_assoc.
  apply (m_cat _ _ (a :: y) ((b :: z) ++ rest)%list).
  - apply (m_cat _ _ [a] y); [by constructor|by apply numeric_match_sound].
  - apply m_cat; [|exact Hr]. apply (m_cat _ _ [b] z); [by constructor|by apply numeric_match_sound].
Qed.

Lemma name_match_sound l : name_match l = true -> matches NAME_RE l.
Proof.
  destruct l as [|a l]; [done|]. cbn [name_match]. intros [Ha Hl]%andb_true_iff.
  apply (m_cat _ _ [a] l); [by constructor|by apply star_chr].
Qed.

Lemma entrypoint_match_sound s : entrypoint_match s = true -> matches ENTRYPOINT_RE (chars s).
Proof.
  unfold entrypoint_match. destruct (split_at_parts (fun a => code a =? 58) (chars s)) as (p & l & ps & -> & -> & Ht).
  destruct ps as [|c []]; try done. intros [Hm Hc]%andb_true_iff.
  inversion Ht as [|a q l1 qs Ha Ht1]; subst. inversion Ht1; subst. rewrite app_nil_r.
  apply m_cat; [|apply (m_cat _ _ [a] c); [by constructor|by apply name_match_sound]].
  destruct (split_at_parts (fun a => code a =? 46) p) as (n & r & ns & E & -> & Ht'). rewrite E in Hm.
  cbn [forallb] in Hm. apply andb_true_iff in Hm as [Hn Hns]. rewrite forallb_forall in Hns.
  apply m_cat; [by apply name_match_sound|]. eapply tails_star; [exact Ht'|].
  intros q Hq. apply name_match_sound, Hns. by apply list_elem_of_In.
Qed.

(** *** Files *)

Section files.
Context (fs : list string -> node).

(** Where a walk from a place leads: up, down, or to where a link points. *)
Inductive leads_to : list string -> list string -> list string -> Prop :=
| lt_end here : leads_to here [] here
| lt_up here todo dest : leads_to (removelast here) todo dest -> leads_to here (".." :: todo) dest
| lt_down here name todo dest : name <> ".." -> (forall t, fs (here ++ [name])%list <> Link t) ->
    leads_to (here ++ [name])%list todo dest -> leads_to here (name :: todo) dest
| lt_link here name todo dest target : name <> ".." -> fs (here ++ [name])%list = Link target ->
    leads_to (if absolute target then [] else here) (path_parts target ++ todo)%list dest ->
    leads_to here (name :: todo) dest.

(** A reference, followed from the root of the file system, leads to a regular file below the
    extension's root. *)
Definition names_file (root : list string) (reference : string) : Prop :=
  exists dest below, leads_to [] (join_path root reference) dest /\ dest = (root ++ below)%list /\ fs dest = File.

Lemma resolve_leads_to steps here todo dest : resolve fs steps here todo = Ok dest -> leads_to here todo dest.
Proof.
  revert here todo; induction steps as [|steps IH]; intros here [|name todo]; cbn [resolve];
    [intros [= <-]; constructor|done|intros [= <-]; constructor|].
  case_bool_decide as E; [subst; intros H; by apply lt_up, IH|]. destruct (existsb _ _); [done|].
  destruct (fs (here ++ [name])%list) eqn:Ef; intros H%IH;
    first [by eapply lt_link | by apply lt_down; [|congruence|]].
Qed.

Lemma safe_file_ok steps root reference field u : _require_safe_file fs steps root reference field = Ok u ->
  names_file root reference.
Proof.
  intros (dest & Hr%resolve_leads_to & H)%result_bind_Ok. destruct (parts_prefix root dest) eqn:Hp; [|done].
  destruct (fs dest) eqn:Ef; try done. unfold parts_prefix in Hp. apply bool_decide_eq_true in Hp.
  exists dest, (drop (length root) dest). split_and!; [done| |done]. rewrite <- Hp at 1. by rewrite take_drop.
Qed.
End files.

(** A tool with a valid identifier, a known risk and schemas inside of the extension. *)
Definition tool_ok (fs : list string -> node) (root : list string) (t : ManifestTool) : Prop :=
  matches ID_RE (chars (mt_id t)) /\ mt_risk t ∈ ["READ"; "INTERNAL_WRITE"; "EXTERNAL_WRITE"; "PROHIBITED"] /\
  names_file fs root (mt_input_schema t) /\ names_file fs root (mt_output_schema t) /\
  NoDup (mt_capabilities t) /\ Forall (fun i => matches ID_RE (chars i)) (mt_capabilities t).

Lemma identifiers_match l : Forall (fun i => id_match i = true) l -> Forall (fun i => matches ID_RE (chars i)) l.
Proof. intros H. eapply Forall_impl; [exact H|]. intros i. apply id_match_sound. Qed.

Ltac unbind H :=
  repeat match type of H with
  | _ ≫= _ = Ok _ => let a := fresh "a" in let E := fresh "E" in apply result_bind_Ok in H as (a & E & H)
  end.

Lemma parse_tool_ok fs steps root index item t : parse_tool fs steps root index item = Ok t -> tool_ok fs root t.
Proof.
  unfold parse_tool. destruct item; try done. intros H. unbind H. injection H as <-.
  apply raise_if_Ok in E1, E3. bool_props. unfold tool_ok. cbn [mt_id mt_risk mt_input_schema mt_output_schema mt_capabilities].
  apply mem_b_true in E3. apply identifier_list_ok in E8 as [? ?].
  split_and!; [by apply id_match_sound|exact E3|by eapply safe_file_ok|by eapply safe_file_ok|done|by apply identifiers_match].
Qed.

Lemma parse_tools_ok fs steps root raw ts : _parse_tools fs steps root raw = Ok ts -> Forall (tool_ok fs root) ts.
Proof.
  unfold _parse_tools. destruct raw as [| | | | |items| |]; try done. generalize 0. revert ts.
  induction items as [|item items IH]; intros ts i; cbn [parse_tools]; [by intros [= <-]|].
  intros (t & Ht & (ts' & Hts & [= <-])%result_bind_Ok)%result_bind_Ok. constructor; [by eapply parse_tool_ok|by eapply IH].
Qed.

Lemma capability_ids_eq m : capability_ids m =
  ((mt_id <$> em_tools m) ++ em_event_sources m ++ em_context_providers m ++ em_workflows m
   ++ em_schedules m ++ em_notifications m ++ em_migrations m ++ em_forms m)%list.
Proof.
  unfold capability_ids, slots. cbn [fmap list_fmap concat snd]. f_equal.
  assert (forall l : list (string * list string),
    concat (List.filter (fun kv => negb (bool_decide (kv.2 = []))) l).*2 = concat l.*2) as E.
  { induction l as [|[k v] l IH]; [done|]. cbn [List.filter]. case_bool_decide as Hv; cbn in *.
    - subst v. exact IH.
    - by rewrite <- IH. }
  rewrite E. cbn. by rewrite app_nil_r.
Qed.

(** *** Version ranges *)

(** The version a bound names: a number, or two with a dot; a missing minor version is 0. *)
Inductive bound : string -> Z * Z -> Prop :=
| bound_major ma : isdecimal ma = true -> bound ma (int_of_decimal ma, 0)
| bound_minor ma mi : isdecimal ma = true -> isdecimal mi = true ->
    bound (ma ++ "." ++ mi) (int_of_decimal ma, int_of_decimal mi).

Definition version_lt (a b : Z * Z) : Prop := a.1 < b.1 \/ (a.1 = b.1 /\ a.2 < b.2).

(** A constraint admits a version. *)
Inductive admits (v : Z * Z) : string -> Prop :=
| ad_ge t b : bound t b -> ~ version_lt v b -> admits v (">=" ++ t)
| ad_gt t b : bound t b -> version_lt b v -> admits v (">" ++ t)
| ad_le t b : bound t b -> ~ version_lt b v -> admits v ("<=" ++ t)
| ad_lt t b : bound t b -> version_lt v b -> admits v ("<" ++ t)
| ad_eq t b : bound t b -> v = b -> admits v ("==" ++ t).

(** A range is a comma-separated list of constraints, at least one; blanks do not count. *)
Definition in_range (spec : string) (v : Z * Z) : Prop :=
  let constraints := filter (.≠ "") (strip <$> str_split (Ascii.ascii_of_N 44) spec) in
  constraints <> [] /\ Forall (admits v) constraints.

Lemma pair_compare_lt a b : pair_compare a b = Lt <-> version_lt a b.
Proof.
  unfold pair_compare, version_lt. destruct (Z.compare_spec (a.1) (b.1)); rewrite ?Z.compare_lt_iff;
    split; intros; try done; try lia; naive_solver lia.
Qed.

Lemma pair_compare_gt a b : pair_compare a b = Gt <-> version_lt b a.
Proof.
  unfold pair_compare, version_lt. destruct (Z.compare_spec (a.1) (b.1)); rewrite ?Z.compare_gt_iff;
    split; intros; try done; try lia; naive_solver lia.
Qed.

Lemma pair_compare_eq a b : pair_compare a b = Eq <-> a = b.
Proof.
  unfold pair_compare. destruct a as [a1 a2], b as [b1 b2]; cbn.
  destruct (Z.compare_spec a1 b1); rewrite ?Z.compare_eq_iff; split; intros; simplify_eq; done || lia.
Qed.

Lemma number_decimal l n : (if all_of is_digit l then Some (int_of_decimal (of_chars l)) else None) = Some n ->
  isdecimal (of_chars l) = true /\ n = int_of_decimal (of_chars l).
Proof.
  unfold all_of, isdecimal. rewrite chars_of_chars. destruct l as [|a l]; [done|].
  destruct (forallb is_digit (a :: l)) eqn:E; cbn [negb andb]; [|by rewrite andb_false_r].
  rewrite bool_decide_eq_false_2 by done. cbn [negb andb]. intros [= <-]. done.
Qed.

Lemma code_inj a b : code a = code b -> a = b.
Proof.
  unfold code. intros H%N2Z.inj. by rewrite <- (Ascii.ascii_N_embedding a), <- (Ascii.ascii_N_embedding b), H.
Qed.

Lemma target_bound l t :
  match split_at (fun a => code a =? 46) l with
  | [major] => n ← (if all_of is_digit major then Some (int_of_decimal (of_chars major)) else None); Some (n, 0)
  | [major; minor] => n ← (if all_of is_digit major then Some (int_of_decimal (of_chars major)) else None);
                      m ← (if all_of is_digit minor then Some (int_of_decimal (of_chars minor)) else None); Some (n, m)
  | _ => None
  end = Some t -> bound (of_chars l) t.
Proof.
  destruct (split_at_parts (fun a => code a =? 46) l) as (p & rest & ps & -> & -> & Ht).
  destruct ps as [|q []]; try done.
  - intros (n & Hn & [= <-])%bind_Some. apply number_decimal in Hn as [Hd ->]. inversion Ht; subst.
    rewrite app_nil_r. by constructor.
  - intros (n & Hn & (m & Hm & [= <-])%bind_Some)%bind_Some. apply number_decimal in Hn as [Hd ->], Hm as [Hd' ->].
    inversion Ht as [|a p' l1 ps' Ha Ht1]; subst. inversion Ht1; subst. rewrite app_nil_r.
    assert (a = Ascii.ascii_of_N 46) as -> by (apply code_inj; by apply Z.eqb_eq).
    replace (of_chars (p ++ Ascii.ascii_of_N 46 :: q)%list) with (of_chars p ++ "." ++ of_chars q); [by constructor|].
    apply chars_inj. rewrite !chars_app, !chars_of_chars. done.
Qed.

Lemma code_literal a n : (code a =? Z.of_N n) = true -> (n < 256)%N -> a = Ascii.ascii_of_N n.
Proof.
  intros H%Z.eqb_eq Hn. apply code_inj. rewrite H. unfold code. by rewrite Ascii.N_ascii_embedding.
Qed.

(** An accepted constraint admits the version. *)
Lemma constraint_admits c accepts target v : constraint_match c = Some (accepts, target) ->
  accepts (pair_compare v target) = true -> admits v c.
Proof.
  unfold constraint_match. destruct (chars c) as [|a [|b l]] eqn:Ec; try done.
  assert (forall p r, chars c = (chars p ++ r)%list -> c = p ++ of_chars r) as Hc.
  { intros p r E. apply chars_inj. by rewrite chars_app, chars_of_chars. }
  destruct (code b =? 61) eqn:Eb; [apply (code_literal b 61) in Eb; [|done]; subst b|].
  - destruct (code a =? 62) eqn:Ea; [apply (code_literal a 62) in Ea; [|done]; subst a|
    destruct (code a =? 60) eqn:Ea'; [apply (code_literal a 60) in Ea'; [|done]; subst a|
    destruct (code a =? 61) eqn:Ea''; [apply (code_literal a 61) in Ea''; [|done]; subst a|done]]];
    intros (t & Ht%target_bound & [= <- <-])%bind_Some Hacc; bool_props.
    + rewrite (Hc ">=" l Ec). eapply ad_ge; [exact Ht|]. by rewrite <- pair_compare_lt.
    + rewrite (Hc "<=" l Ec). eapply ad_le; [exact Ht|]. by rewrite <- pair_compare_gt.
    + rewrite (Hc "==" l Ec). eapply ad_eq; [exact Ht|]. by apply pair_compare_eq.
  - destruct (code a =? 62) eqn:Ea; [apply (code_literal a 62) in Ea; [|done]; subst a|
    destruct (code a =? 60) eqn:Ea'; [apply (code_literal a 60) in Ea'; [|done]; subst a|done]];
    intros (t & Ht%target_bound & [= <- <-])%bind_Some Hacc; bool_props.
    + rewrite (Hc ">" (b :: l) Ec). eapply ad_gt; [exact Ht|]. by apply pair_compare_gt.
    + rewrite (Hc "<" (b :: l) Ec). eapply ad_lt; [exact Ht|]. by apply pair_compare_lt.
Qed.

Lemma range_constraints_eq spec :
  range_constraints spec = filter (.≠ "") (strip <$> str_split (Ascii.ascii_of_N 44) spec).
Proof.
  unfold range_constraints. induction (strip <$> _) as [|x l IH]; [done|]. cbn [List.filter]. rewrite filter_cons, IH.
  case_bool_decide; cbn [negb]; [by rewrite decide_False by tauto|by rewrite decide_True].
Qed.

Lemma validate_range_ok spec actual field u : _validate_range spec actual field = Ok u -> in_range spec actual.
Proof.
  unfold _validate_range, in_range. rewrite range_constraints_eq.
  intros ([] & H1%raise_if_Ok & H2%result_iter_Ok)%result_bind_Ok. apply bool_decide_eq_false in H1.
  split; [done|]. eapply Forall_impl; [exact H2|]. intros c Hc. unfold check_constraint in Hc.
  destruct (constraint_match c) as [[accepts target]|] eqn:E; [|done]. apply raise_if_Ok in Hc. apply negb_false_iff in Hc.
  by eapply constraint_admits.
Qed.

(** What [parse] promises about a manifest. *)
Record manifest_ok (fs : list string -> node) (root : list string) (core_api python : Z * Z) (m : ExtensionManifest)
  : Prop := {
  mo_id : matches ID_RE (chars (em_id m));
  mo_version : matches SEMVER_RE (chars (em_version m));
  mo_entrypoint : matches ENTRYPOINT_RE (chars (em_entrypoint m));
  mo_core_api : in_range (em_core_api m) core_api;
  mo_python : in_range (em_python m) python;
  mo_lock : names_file fs root (em_dependency_lock m);
  mo_config : forall s, em_config_schema m = Some s -> names_file fs root s;
  mo_schema_version : 0 <= em_state_schema_version m;
  mo_tools : Forall (tool_ok fs root) (em_tools m);
  mo_capability_ids : NoDup (capability_ids m) /\ Forall (fun i => matches ID_RE (chars i)) (capability_ids m);
  mo_disjoint : forall c, c ∈ dcap_required (em_capabilities m) -> c ∉ dcap_optional (em_capabilities m)
}.

Lemma parse_config_ok fs steps root raw s : parse_config_schema fs steps root raw = Ok (Some s) -> names_file fs root s.
Proof.
  unfold parse_config_schema. destruct (default JNull (assoc "config_schema" raw)); try done.
  case_bool_decide; [done|]. intros (u & Hu & [= <-])%result_bind_Ok. by eapply safe_file_ok.
Qed.

Lemma parse_state_version_ok raw n : parse_state_schema_version raw = Ok n -> 0 <= n.
Proof.
  unfold parse_state_schema_version. destruct (assoc "state_schema_version" raw) as [[| |k| | | | |]|]; try done.
  - by destruct b; intros [= <-].
  - destruct (k <? 0) eqn:E; [done|]. intros [= <-]. by bool_props.
Qed.

Lemma parse_capabilities_ok raw d c : parse_capabilities raw = Ok d -> c ∈ dcap_required d -> c ∉ dcap_optional d.
Proof.
  unfold parse_capabilities. destruct (default (JObj []) (assoc "capabilities" raw)); try done.
  intros H. unbind H. injection H as <-. cbn. apply raise_if_Ok in E2. bool_props. rewrite sorted_strings_nil in E2.
  intros Hr Ho. assert (In c (List.filter (fun c => mem_b c a1) a0)) as Hin.
  { apply filter_In. split; [by apply list_elem_of_In|by apply mem_b_true]. }
  by rewrite E2 in Hin.
Qed.

(** C37. A manifest that [parse] accepts is well formed.  Whatever the document contains and whatever
    the file system holds, links included: the identifier, version and entry point match the regular
    expressions of the module, every constraint of both version ranges admits the host, every referenced
    path leads, link by link, to a regular file below the extension's root, every tool has a valid
    identifier and a known risk level, the capability identifiers of all slots together are valid and
    distinct, and no capability is both required and optional. *)
Theorem parsed_manifest_is_well_formed fs read_text steps supported core_api python root raw m :
  parse fs read_text steps supported core_api python root raw = Ok m ->
  manifest_ok fs (path_parts root) core_api python m.
Proof.
  unfold parse, slot_list. intros H. unbind H. injection H as <-.
  repeat match goal with E : raise_if _ _ _ = Ok _ |- _ => apply raise_if_Ok in E end. bool_props.
  repeat match goal with E : _identifier_list _ _ = Ok _ |- _ => apply identifier_list_ok in E as [? ?%identifiers_match] end.
  repeat match goal with E : _validate_range _ _ _ = Ok _ |- _ => apply validate_range_ok in E end.
  repeat match goal with E : _duplicates _ = [] |- _ => rewrite duplicates_nil in E end.
  match goal with E : _parse_tools _ _ _ _ = Ok _ |- _ => apply parse_tools_ok in E as Htools end.
  split; cbn [em_id em_version em_entrypoint em_core_api em_python em_dependency_lock em_config_schema
    em_state_schema_version em_tools em_capabilities]; try done.
  - by apply id_match_sound.
  - by apply semver_match_sound.
  - by apply entrypoint_match_sound.
  - by eapply safe_file_ok.
  - intros s ->. by eapply parse_config_ok.
  - by eapply parse_state_version_ok.
  - rewrite capability_ids_eq. cbn [em_tools em_event_sources em_context_providers em_workflows em_schedules
      em_notifications em_migrations em_forms]. split; [done|]. rewrite !Forall_app. split_and!; try done.
    apply Forall_fmap. eapply Forall_impl; [exact Htools|]. by intros t (? & _).
  - intros c. by eapply parse_capabilities_ok.
Qed.

Module ManifestScenario.

Definition tool : json := JObj [("id", JStr "mail.send"); ("risk", JStr "EXTERNAL_WRITE");
  ("input_schema", JStr "in.json"); ("output_schema", JStr "out.json"); ("capabilities", JList [JStr "mail.smtp"])].

Definition document : list (string * json) :=
  [("manifest_version", JStr "1"); ("id", JStr "nju.smail"); ("name", JStr "Mail"); ("version", JStr "1.2.0-rc.1");
   ("core_api", JStr ">=1.0,<2"); ("python", JStr ">=3.12"); ("entrypoint", JStr "nju_smail.worker:main");
   ("dependency_lock", JStr "requirements.lock"); ("state_schema_version", JInt 3); ("healthcheck", JStr "ping");
   ("tools", JList [tool]); ("forms", JList [JStr "mail.compose"]);
   ("capabilities", JObj [("required", JList [JStr "mail.smtp"])])].

Definition lock : string :=
  "# pinned" ++ of_chars [Ascii.ascii_of_N 10] ++ "httpx[http2]==0.27.0 "
  ++ of_chars [Ascii.ascii_of_N 92; Ascii.ascii_of_N 10] ++ "  --hash=sha256:" ++ sha256 "" ++ of_chars [Ascii.ascii_of_N 10].

(** The lock is a link to a file of the extension; a link out of the extension is there too. *)
Definition files (path : list string) : node :=
  if bool_decide (path = ["staging"; "x"; "in.json"]) then File
  else if bool_decide (path = ["staging"; "x"; "out.json"]) then File
  else if bool_decide (path = ["staging"; "x"; "requirements.lock"]) then Link "locks/linux.txt"
  else if bool_decide (path = ["staging"; "x"; "locks"; "linux.txt"]) then File
  else if bool_decide (path = ["staging"; "x"; "secrets"]) then Link "../../etc/passwd"
  else if bool_decide (path = ["etc"; "passwd"]) then File
  else Missing.

Definition parsed : result ExtensionManifest :=
  parse files (fun _ => Ok lock) 64 "1" (1, 0) (3, 13) "/staging/x" document.

End ManifestScenario.

(** Neither dots nor links lead out of the extension. *)
Example manifest_escapes :
  (fun r => _require_safe_file ManifestScenario.files 64 ["staging"; "x"] r "dependency_lock")
    <$> ["../../etc/passwd"; "/etc/passwd"; "secrets"]
  = replicate 3 (invalid "dependency_lock escapes the extension root").
Proof. vm_compute. reflexivity. Qed.

Example manifest_unpinned : _validate_lockfile "httpx>=0.27"
  = invalid "dependency_lock line 1 must pin one exact version with '=='".
Proof. vm_compute. reflexivity. Qed.

Lemma parsed_manifest_is_well_formed_witness :
  exists m, ManifestScenario.parsed = Ok m /\ capability_ids m = ["mail.send"; "mail.compose"] /\
    manifest_ok ManifestScenario.files ["staging"; "x"] (1, 0) (3, 13) m.
Proof.
  destruct ManifestScenario.parsed as [m|e] eqn:E; [|vm_compute in E; discriminate E].
  exists m. split; [reflexivity|]. split.
  - vm_compute in E. injection E as <-. reflexivity.
  - exact (parsed_manifest_is_well_formed _ _ _ _ _ _ _ _ _ E).
Defined.
