(* ===== verification/Extensions.v ===== *)
(** * Extensions: records, data namespaces and the capability registry

    Models [core/extensions/models.py], [core/extensions/registry.py] and the store of
    [infrastructure/memory/extensions.py].  The registry's methods run under its lock without awaiting,
    so each is one step on the snapshot it publishes. *)

From S2P Require Import Prelude Text Sha256 Json JsonGrammar JsonRoundTrip Domain Manifest.
Local Open Scope string_scope.
Local Open Scope Z_scope.

(** ** [data_namespace] *)

Definition hex_digit (n : Z) : Ascii.ascii :=
  Ascii.ascii_of_N (Z.to_N (if n <? 10 then 48 + n else 87 + n)).

(** [f"{n:x}"] for a code below 256. *)
Definition hex_of (n : Z) : list Ascii.ascii :=
  if n <? 16 then [hex_digit n] else [hex_digit (n / 16); hex_digit (n mod 16)].

Definition underscore : Ascii.ascii := Ascii.ascii_of_N 95.

Definition encode_char (a : Ascii.ascii) : list Ascii.ascii :=
  if is_id_char a then [a] else (underscore :: hex_of (code a) ++ [underscore])%list.

Definition encoded (extension_id : string) : list Ascii.ascii := concat (encode_char <$> chars extension_id).

Definition data_namespace (extension_id : string) : string :=
  let namespace := "ext_" ++ of_chars (encoded extension_id) in
  if str_len namespace <=? 63 then namespace
  else "ext_" ++ of_chars (take 40 (encoded extension_id)) ++ "_"
       ++ str_take 16 (sha256 extension_id).

Lemma hex_digit_code n : 0 <= n < 16 -> code (hex_digit n) = if n <? 10 then 48 + n else 87 + n.
Proof.
  intros Hn. unfold code, hex_digit. rewrite Ascii.N_ascii_embedding.
  - rewrite Z2N.id; [done|]. destruct (n <? 10) eqn:E; bool_props; lia.
  - destruct (n <? 10) eqn:E; bool_props; lia.
Qed.

Lemma hex_digit_inj n m : 0 <= n < 16 -> 0 <= m < 16 -> hex_digit n = hex_digit m -> n = m.
Proof.
  intros Hn Hm H%(f_equal code). rewrite !hex_digit_code in H by done.
  destruct (n <? 10) eqn:E, (m <? 10) eqn:E'; bool_props; lia.
Qed.

Lemma hex_digit_underscore n : 0 <= n < 16 -> hex_digit n <> underscore.
Proof.
  intros Hn H%(f_equal code). rewrite hex_digit_code in H by done. change (code underscore) with 95 in H.
  destruct (n <? 10) eqn:E; bool_props; lia.
Qed.

Lemma code_range a : 0 <= code a < 256.
Proof. unfold code. pose proof (Ascii.N_ascii_bounded a). lia. Qed.

(** A code is read off up to the closing underscore. *)
Lemma hex_of_prefix n m l k : 0 <= n < 256 -> 0 <= m < 256 ->
  (hex_of n ++ underscore :: l = hex_of m ++ underscore :: k)%list -> n = m /\ l = k.
Proof.
  intros Hn Hm. pose proof (Z.div_mod n 16 ltac:(done)). pose proof (Z.div_mod m 16 ltac:(done)).
  assert (0 <= n / 16 < 16) by (split; [apply Z.div_pos|apply Z.div_lt_upper_bound]; lia).
  assert (0 <= m / 16 < 16) by (split; [apply Z.div_pos|apply Z.div_lt_upper_bound]; lia).
  pose proof (Z.mod_pos_bound n 16 ltac:(done)). pose proof (Z.mod_pos_bound m 16 ltac:(done)).
  unfold hex_of. destruct (n <? 16) eqn:En, (m <? 16) eqn:Em; bool_props; cbn [app].
  - intros [= E ->]. apply hex_digit_inj in E; [done|lia..].
  - intros [= _ E _]. symmetry in E. by apply hex_digit_underscore in E.
  - intros [= _ E _]. by apply hex_digit_underscore in E.
  - intros [= E1 E2 ->]. apply hex_digit_inj in E1, E2; [|lia..]. split; [lia|done].
Qed.

Lemma encode_char_prefix a b l k : (encode_char a ++ l = encode_char b ++ k)%list -> a = b /\ l = k.
Proof.
  unfold encode_char. destruct (is_id_char a) eqn:Ea, (is_id_char b) eqn:Eb; cbn [app].
  - by intros [= -> ->].
  - intros [= -> _]. discriminate Ea.
  - intros [= <- _]. discriminate Eb.
  - intros [= H]. rewrite <- !app_assoc in H. cbn [app] in H.
    apply hex_of_prefix in H as [H ->]; [|apply code_range..]. by apply code_inj in H as ->.
Qed.

Lemma encode_char_nonempty a : encode_char a <> [].
Proof. unfold encode_char. by destruct (is_id_char a). Qed.

Lemma encoded_inj s t : encoded s = encoded t -> s = t.
Proof.
  intros H. apply chars_inj. revert H. unfold encoded. generalize (chars s) (chars t). clear.
  induction l as [|a l IH]; intros [|b k]; rewrite ?fmap_cons; cbn [concat]; [done|..].
  - intros H. symmetry in H. apply app_nil in H as [H _]. by apply encode_char_nonempty in H.
  - intros H. apply app_nil in H as [H _]. by apply encode_char_nonempty in H.
  - intros [-> H]%encode_char_prefix. f_equal. by apply IH.
Qed.

(** The encoding fits into an identifier of the database. *)
Definition short_id (extension_id : string) : bool := str_len ("ext_" ++ of_chars (encoded extension_id)) <=? 63.

Module NamespaceCollision.
Definition prefix : string := "aaaaaaaaaaaaaaaaaaaaaaaaaaaaaaaaaaaaa.".
Definition long : string := prefix ++ "bbbbbbbbbbbbbbbbbbbb".
Definition crafted : string := prefix ++ str_take 16 (sha256 long).
End NamespaceCollision.

(** Which extensions share a data namespace.  Every namespace fits into the 63 bytes of a database
    identifier, and two extensions whose encoded identifiers fit as they are never share one.  Longer
    identifiers are cut and carry a digest, and there the encoding is not injective: a valid identifier
    can be written down that gets the namespace of another valid, longer identifier. *)
Theorem data_namespaces_of_short_ids_are_distinct :
  (forall a, str_len (data_namespace a) <= 63) /\
  (forall a b, short_id a = true -> short_id b = true -> data_namespace a = data_namespace b -> a = b) /\
  (exists a b, id_match a = true /\ id_match b = true /\ a <> b /\ data_namespace a = data_namespace b).
Proof.
  split_and!.
  - intros a. unfold data_namespace. destruct (_ <=? 63) eqn:E; bool_props; [done|].
    rewrite !str_len_app, !str_len_chars, chars_of_chars, length_take.
    unfold str_take. rewrite chars_of_chars, length_take. change (length (chars "ext_")) with 4%nat.
    change (length (chars "_")) with 1%nat. change (Z.to_nat 16) with 16%nat. lia.
  - intros a b Ha Hb. unfold data_namespace, short_id in *. rewrite Ha, Hb. intros H. apply encoded_inj.
    apply (f_equal (fun x => chars x)) in H. rewrite !chars_app, !chars_of_chars in H.
    by apply app_inv_head in H.
  - exists NamespaceCollision.crafted, NamespaceCollision.long. split_and!; [vm_compute; reflexivity..| |vm_compute; reflexivity].
    intros H%(f_equal String.length). vm_compute in H. discriminate H.
Qed.

(** ** Extension records *)

Module ExtensionState.
Inductive t :=
| DISCOVERED | STAGED | REJECTED | INSTALLED_DISABLED | STARTING | ENABLED | QUARANTINED
| DRAINING | DISABLED | UNINSTALLING | UNINSTALLED | UPGRADING | ROLLED_BACK.

#[global] Instance extension_state_eq_dec : EqDecision t.
Proof. solve_decision. Defined.

Definition value (s : t) : string :=
  match s with
  | DISCOVERED => "DISCOVERED" | STAGED => "STAGED" | REJECTED => "REJECTED"
  | INSTALLED_DISABLED => "INSTALLED_DISABLED" | STARTING => "STARTING" | ENABLED => "ENABLED"
  | QUARANTINED => "QUARANTINED" | DRAINING => "DRAINING" | DISABLED => "DISABLED"
  | UNINSTALLING => "UNINSTALLING" | UNINSTALLED => "UNINSTALLED" | UPGRADING => "UPGRADING"
  | ROLLED_BACK => "ROLLED_BACK"
  end.
End ExtensionState.

Record ExtensionRecord := {
  er_manifest : ExtensionManifest;
  er_artifact_hash : string;
  er_state : ExtensionState.t;
  er_install_path : option string;
  er_data_retained : bool;
  er_tombstone : bool
}.
#[export] Instance ExtensionRecord_eta : Eta ExtensionRecord := fun r =>
  Build_ExtensionRecord (er_manifest r) (er_artifact_hash r) (er_state r) (er_install_path r)
    (er_data_retained r) (er_tombstone r).

(** [record.manifest.id] and [record.manifest.version] *)
Definition er_id (r : ExtensionRecord) : string := em_id (er_manifest r).
Definition er_version (r : ExtensionRecord) : string := em_version (er_manifest r).

Definition in_state (r : ExtensionRecord) (s : ExtensionState.t) : bool := bool_decide (er_state r = s).

Record CapabilityOwner := { co_extension_id : string; co_extension_version : string; co_slot : string }.

Record RegistrySnapshot := {
  rs_generation : Z;
  rs_extensions : list (string * ExtensionRecord);
  rs_capabilities : list (string * CapabilityOwner)
}.

Definition owner_of (s : RegistrySnapshot) (capability_id : string) : option CapabilityOwner :=
  assoc capability_id (rs_capabilities s).

(** ** The registry *)

Definition empty_registry : RegistrySnapshot :=
  {| rs_generation := 0; rs_extensions := []; rs_capabilities := [] |}.

(** [discover], after [discover_manifests] has read the directory. *)
Definition discover (manifests : list ExtensionManifest) : result (list ExtensionManifest) :=
  let duplicates := _duplicates (em_id <$> manifests) in
  _ ← raise_if (negb (bool_decide (duplicates = []))) ExtensionError
        ("duplicate extension ids: " ++ list_repr duplicates);
  Ok manifests.

Definition owner (m : ExtensionManifest) (slot : string) : CapabilityOwner :=
  {| co_extension_id := em_id m; co_extension_version := em_version m; co_slot := slot |}.

Notation capabilities := (list (string * CapabilityOwner)).

Fixpoint claim_ids (m : ExtensionManifest) (slot : string) (identifiers : list string) (caps : capabilities)
  : result capabilities :=
  match identifiers with
  | [] => Ok caps
  | identifier :: identifiers =>
      match assoc identifier caps with
      | Some previous =>
          fail DuplicateCapabilityError
            ("capability " ++ str_repr identifier ++ " is declared by both "
             ++ str_repr (co_extension_id previous) ++ " and " ++ str_repr (em_id m))
      | None => claim_ids m slot identifiers (assoc_set identifier (owner m slot) caps)
      end
  end.

Fixpoint claim_slots (m : ExtensionManifest) (declared : list (string * list string)) (caps : capabilities)
  : result capabilities :=
  match declared with
  | [] => Ok caps
  | (slot, identifiers) :: declared =>
      caps ← claim_ids m slot identifiers caps;
      claim_slots m declared caps
  end.

Fixpoint build_records (records : list ExtensionRecord) (extensions : list (string * ExtensionRecord))
    (caps : capabilities) : result (list (string * ExtensionRecord) * capabilities) :=
  match records with
  | [] => Ok (extensions, caps)
  | record :: records =>
      _ ← raise_if (bool_decide (is_Some (assoc (er_id record) extensions))) DuplicateCapabilityError
            ("extension id already registered: " ++ er_id record);
      caps ← claim_slots (er_manifest record) (slots (er_manifest record)) caps;
      build_records records (assoc_set (er_id record) record extensions) caps
  end.

Definition _build (generation : Z) (records : list ExtensionRecord) : result RegistrySnapshot :=
  built ← build_records records [] [];
  Ok {| rs_generation := generation; rs_extensions := built.1; rs_capabilities := built.2 |}.

(** [self._snapshot = self._build(...)]: a failed build leaves the snapshot as it is. *)
Definition publish (built : RegistrySnapshot -> result RegistrySnapshot) : M RegistrySnapshot RegistrySnapshot :=
  fun s => match built s with Ok s' => (s', Ok s') | Err e => (s, Err e) end.

Definition registry_enable (record : ExtensionRecord) : M RegistrySnapshot RegistrySnapshot :=
  if negb (in_state record ExtensionState.ENABLED)
  then raise ExtensionError "only a healthy ENABLED record can enter the registry"
  else publish (fun s => _build (rs_generation s + 1) (assoc_set (er_id record) record (rs_extensions s)).*2).

Definition registry_disable (extension_id : string) : M RegistrySnapshot RegistrySnapshot :=
  publish (fun s => _build (rs_generation s + 1) (assoc_del extension_id (rs_extensions s)).*2).

Definition replace_all (records : list ExtensionRecord) : M RegistrySnapshot RegistrySnapshot :=
  let invalid_ids := er_id <$> List.filter (fun r => negb (in_state r ExtensionState.ENABLED)) records in
  if negb (bool_decide (invalid_ids = []))
  then raise ExtensionError ("registry records are not enabled: " ++ list_repr invalid_ids)
  else publish (fun s => _build (rs_generation s + 1) records).

(** ** The lifecycle store ([InMemoryLifecycleStore]) *)

Notation lifecycle_store := (gmap string ExtensionRecord).

Definition lifecycle_get (extension_id : string) : M lifecycle_store (option ExtensionRecord) :=
  fun s => (s, Ok (s !! extension_id)).

Definition lifecycle_all : M lifecycle_store (list ExtensionRecord) :=
  fun s => (s, Ok ((sort_items (map_to_list s)).*2)).

Definition lifecycle_save (record : ExtensionRecord) (expected : option (ExtensionState.t * string))
  : M lifecycle_store bool := fun s =>
  let current := s !! er_id record in
  let matches := match expected with
                 | None => true
                 | Some e => match current with
                             | None => false
                             | Some c => bool_decide ((er_state c, er_version c) = e)
                             end
                 end in
  if matches then (<[er_id record := record]> s, Ok true) else (s, Ok false).

(** ** What the registry publishes *)

(** The capabilities a manifest declares, with their owner. *)
Definition owned_by (m : ExtensionManifest) (declared : list (string * list string)) : capabilities :=
  concat (List.map (fun d : string * list string => List.map (fun i => (i, owner m d.1)) d.2) declared).
Definition owned (r : ExtensionRecord) : capabilities := owned_by (er_manifest r) (slots (er_manifest r)).

Lemma assoc_None {A} k (l : list (string * A)) : assoc k l = None <-> k ∉ keys l.
Proof. rewrite <- assoc_keys, eq_None_not_Some. done. Qed.

Lemma keys_app {A} (l k : list (string * A)) : keys (l ++ k) = (keys l ++ keys k)%list.
Proof. apply fmap_app. Qed.

(** A list of claims goes through exactly when no identifier is claimed twice. *)
Lemma claim_ids_ok m slot ids caps caps' : NoDup (keys caps) ->
  claim_ids m slot ids caps = Ok caps' <->
  caps' = (caps ++ List.map (fun i => (i, owner m slot)) ids)%list /\ NoDup (keys caps').
Proof.
  revert caps; induction ids as [|i ids IH]; intros caps Hc; cbn [claim_ids].
  - cbn. rewrite app_nil_r. naive_solver.
  - cbn [List.map]. destruct (assoc i caps) as [o|] eqn:E.
    + split; [done|]. intros [-> Hn]. rewrite keys_app, NoDup_app in Hn. destruct Hn as (_ & Hn & _).
      destruct (Hn i); [apply assoc_keys; by exists o|cbn; set_solver].
    + apply assoc_None in E. rewrite assoc_set_new by done. rewrite IH.
      * by rewrite <- app_assoc.
      * rewrite keys_app, NoDup_app. split_and!; [done|cbn; set_solver|apply NoDup_singleton].
Qed.

Lemma claim_slots_ok m declared caps caps' : NoDup (keys caps) ->
  claim_slots m declared caps = Ok caps' <-> caps' = (caps ++ owned_by m declared)%list /\ NoDup (keys caps').
Proof.
  revert caps; induction declared as [|[slot ids] declared IH]; intros caps Hc; cbn [claim_slots].
  - unfold owned_by. cbn. rewrite app_nil_r. naive_solver.
  - rewrite result_bind_Ok. unfold owned_by. cbn [List.map concat fst snd]. split.
    + intros (c & (-> & H1)%claim_ids_ok & (-> & H2)%IH); [|done..]. by rewrite <- app_assoc in *.
    + intros [-> H]. rewrite app_assoc in *.
      assert (NoDup (keys (caps ++ List.map (fun i => (i, owner m slot)) ids)%list)) as Hn
        by (rewrite keys_app, NoDup_app in H; by destruct H).
      eexists. split; [by apply claim_ids_ok|by apply IH].
Qed.

Definition keyed (records : list ExtensionRecord) : list (string * ExtensionRecord) :=
  (fun r => (er_id r, r)) <$> records.

Lemma build_records_ok records exts caps built : NoDup (keys exts) -> NoDup (keys caps) ->
  build_records records exts caps = Ok built <->
  built = (exts ++ keyed records, caps ++ concat (owned <$> records))%list /\
  NoDup (keys built.1) /\ NoDup (keys built.2).
Proof.
  revert exts caps; induction records as [|r records IH]; intros exts caps He Hc; cbn [build_records].
  - cbn. rewrite !app_nil_r. naive_solver.
  - unfold keyed. rewrite !fmap_cons. cbn [concat]. rewrite result_bind_Ok. split.
    + intros ([] & H1%raise_if_Ok & (c & (-> & H2)%claim_slots_ok & H3)%result_bind_Ok); [|done].
      apply bool_decide_eq_false in H1. rewrite assoc_keys in H1.
      rewrite assoc_set_new in H3 by done. apply IH in H3 as (-> & H4 & H5); [|rewrite keys_app, NoDup_app|done].
      * cbn [fst snd] in *. unfold owned, keyed in *. by rewrite <- !app_assoc in *.
      * split_and!; [done|cbn; set_solver|apply NoDup_singleton].
    + intros (-> & H1 & H2). cbn [fst snd] in *. assert (er_id r ∉ keys exts) as Hr.
      { rewrite keys_app, NoDup_app in H1. destruct H1 as (_ & H1 & _). intros Hr. apply (H1 _ Hr). cbn. set_solver. }
      exists tt. split; [apply raise_if_Ok, bool_decide_eq_false; by rewrite assoc_keys|].
      rewrite result_bind_Ok. rewrite app_assoc in H2. exists (caps ++ owned r)%list.
      assert (NoDup (keys (caps ++ owned r)%list)) as Hn by (rewrite keys_app, NoDup_app in H2; by destruct H2).
      split; [by apply claim_slots_ok|]. rewrite assoc_set_new by done.
      assert (NoDup (keys (exts ++ [(er_id r, r)])%list)) as Hn'.
      { rewrite keys_app, NoDup_app. split_and!; [done|cbn; set_solver|apply NoDup_singleton]. }
      apply IH; [done..|]. unfold keyed. rewrite <- !app_assoc in *. done.
Qed.

Lemma claim_ids_error m slot ids caps e : claim_ids m slot ids caps = Err e -> exn_is e PyException = true.
Proof.
  revert caps; induction ids as [|i ids IH]; intros caps; cbn [claim_ids]; [done|].
  destruct (assoc i caps); [by intros [= <-]|]. apply IH.
Qed.

Lemma claim_slots_error m declared caps e : claim_slots m declared caps = Err e -> exn_is e PyException = true.
Proof.
  revert caps; induction declared as [|[slot ids] declared IH]; intros caps; cbn [claim_slots]; [done|].
  destruct (claim_ids m slot ids caps) as [caps'|e'] eqn:E; cbn; [apply IH|]. intros [= ->]. by eapply claim_ids_error.
Qed.

Lemma build_error generation records e : _build generation records = Err e -> exn_is e PyException = true.
Proof.
  unfold _build. generalize (@nil (string * ExtensionRecord)) (@nil (string * CapabilityOwner)).
  induction records as [|r records IH]; intros exts caps; cbn [build_records]; [done|].
  destruct (bool_decide _); cbn [raise_if mbind result_bind]; [by intros [= <-]|].
  destruct (claim_slots (er_manifest r) (slots (er_manifest r)) caps) as [caps'|e'] eqn:E; cbn [mbind result_bind]; [apply IH|].
  intros [= ->]. by eapply claim_slots_error.
Qed.

(** A snapshot lists enabled extensions under their identifiers, and exactly their capabilities. *)
Record snapshot_ok (s : RegistrySnapshot) : Prop := {
  so_keyed : rs_extensions s = keyed (rs_extensions s).*2;
  so_enabled : Forall (fun r => er_state r = ExtensionState.ENABLED) (rs_extensions s).*2;
  so_distinct : NoDup (keys (rs_extensions s));
  so_owned : rs_capabilities s = concat (owned <$> (rs_extensions s).*2);
  so_unique : NoDup (keys (rs_capabilities s))
}.

Lemma keyed_snd records : (keyed records).*2 = records.
Proof. unfold keyed. rewrite <- list_fmap_compose. by rewrite list_fmap_id. Qed.

Lemma build_ok generation records s : _build generation records = Ok s <->
  s = {| rs_generation := generation; rs_extensions := keyed records;
         rs_capabilities := concat (owned <$> records) |} /\
  NoDup (keys (keyed records)) /\ NoDup (keys (concat (owned <$> records))).
Proof.
  unfold _build. rewrite result_bind_Ok. split.
  - intros (b & (-> & H1 & H2)%build_records_ok & [= <-]); [done|constructor..].
  - intros (-> & H1 & H2). eexists. split; [apply build_records_ok; [constructor..|done]|done].
Qed.

Lemma built_snapshot_ok generation records s :
  Forall (fun r => er_state r = ExtensionState.ENABLED) records -> _build generation records = Ok s -> snapshot_ok s.
Proof. intros He (-> & H1 & H2)%build_ok. split; cbn; by rewrite ?keyed_snd. Qed.

Lemma assoc_del_keyed x records :
  assoc_del x (keyed records) = keyed (List.filter (fun r => negb (bool_decide (er_id r = x))) records).
Proof.
  unfold assoc_del, keyed. induction records as [|r records IH]; [done|]. cbn. case_bool_decide; cbn; by rewrite IH.
Qed.

Lemma assoc_set_Forall {A} (P : A -> Prop) k v (l : list (string * A)) :
  P v -> Forall P l.*2 -> Forall P (assoc_set k v l).*2.
Proof.
  intros Hv. induction l as [|[k' v'] l IH]; cbn; [by repeat constructor|].
  intros [H1 H2]%Forall_cons. case_bool_decide; cbn; apply Forall_cons; auto.
Qed.

Lemma NoDup_filter_concat (f : ExtensionRecord -> bool) records :
  NoDup (keys (concat (owned <$> records))) -> NoDup (keys (concat (owned <$> List.filter f records))).
Proof.
  induction records as [|r records IH]; [done|]. rewrite fmap_cons. cbn [concat List.filter].
  rewrite keys_app, NoDup_app. intros (H1 & H2 & H3). destruct (f r); [|by apply IH].
  rewrite fmap_cons. cbn [concat]. rewrite keys_app, NoDup_app. split_and!; [done| |by apply IH].
  intros i Hi Hin. apply (H2 _ Hi). clear -Hin. unfold keys in *. apply list_elem_of_fmap in Hin as (kv & -> & Hin).
  apply list_elem_of_fmap. exists kv. split; [done|]. rewrite list_elem_of_In in *.
  apply in_concat in Hin as (l & Hl & Hkv). apply in_concat. exists l. split; [|done].
  rewrite <- list_elem_of_In in *. apply list_elem_of_fmap in Hl as (r' & -> & Hr'). apply list_elem_of_fmap.
  exists r'. split; [done|]. rewrite list_elem_of_In in *. by apply filter_In in Hr' as [].
Qed.

(** Revoking an extension always goes through. *)
Lemma registry_disable_ok x s : snapshot_ok s ->
  exists s', registry_disable x s = (s', Ok s') /\ snapshot_ok s' /\
    rs_generation s' = rs_generation s + 1 /\ rs_extensions s' = assoc_del x (rs_extensions s).
Proof.
  intros [Hk He Hd Ho Hu]. unfold registry_disable, publish.
  destruct (_build (rs_generation s + 1) (assoc_del x (rs_extensions s)).*2) as [s'|e] eqn:E.
  - exists s'. split; [done|]. split.
    + eapply built_snapshot_ok; [|exact E]. rewrite Hk, assoc_del_keyed, keyed_snd. apply Forall_forall.
      intros r Hr. rewrite list_elem_of_In in Hr. apply filter_In in Hr as [Hr _]. rewrite <- list_elem_of_In in Hr.
      rewrite Forall_forall in He. by apply He.
    + apply build_ok in E as (-> & _). cbn. split; [done|]. rewrite Hk, assoc_del_keyed. by rewrite keyed_snd.
  - exfalso. assert (exists s', _build (rs_generation s + 1) (assoc_del x (rs_extensions s)).*2 = Ok s') as [s' H];
      [|by rewrite H in E].
    eexists. apply build_ok. split; [reflexivity|]. rewrite Hk, assoc_del_keyed, keyed_snd. split.
    + rewrite Hk in Hd. clear -Hd. revert Hd. generalize (rs_extensions s).*2. unfold keys, keyed.
      intros l. rewrite <- !list_fmap_compose. cbn. induction l as [|r l IH]; [done|]. cbn [List.filter].
      rewrite fmap_cons, NoDup_cons. intros [H1 H2]. case_bool_decide; cbn [negb]; [by apply IH|].
      rewrite fmap_cons, NoDup_cons. split; [|by apply IH]. intros (r' & Hr & Hin)%list_elem_of_fmap.
      apply H1, list_elem_of_fmap. exists r'. split; [done|]. rewrite list_elem_of_In in *. by apply filter_In in Hin as [].
    + apply NoDup_filter_concat. by rewrite <- Ho.
Qed.

Lemma assoc_set_keyed r records :
  keyed (assoc_set (er_id r) r (keyed records)).*2 = assoc_set (er_id r) r (keyed records).
Proof.
  unfold keyed. induction records as [|r' records IH]; [done|]. rewrite fmap_cons. cbn [assoc_set].
  case_bool_decide as E; rewrite !fmap_cons; cbn [snd]; f_equal; [|exact IH].
  f_equal. fold (keyed records). by rewrite keyed_snd.
Qed.

(** An enabled record is published, or nothing changes. *)
Lemma registry_enable_ok r s : snapshot_ok s ->
  (exists s', registry_enable r s = (s', Ok s') /\ snapshot_ok s' /\ er_state r = ExtensionState.ENABLED /\
     rs_generation s' = rs_generation s + 1 /\ rs_extensions s' = assoc_set (er_id r) r (rs_extensions s))
  \/ exists e, registry_enable r s = (s, Err e).
Proof.
  intros [Hk He Hd Ho Hu]. unfold registry_enable, in_state, publish. case_bool_decide as Er; cbn [negb]; [|right; by eexists].
  destruct (_build _ _) as [s'|e] eqn:E; [left|right; by eexists]. exists s'. split_and!; [done| |done| |].
  - eapply built_snapshot_ok; [|exact E]. by apply assoc_set_Forall.
  - by apply build_ok in E as (-> & _).
  - apply build_ok in E as (-> & _). cbn. rewrite Hk. apply assoc_set_keyed.
Qed.

Lemma replace_all_ok records s : snapshot_ok s ->
  (exists s', replace_all records s = (s', Ok s') /\ snapshot_ok s' /\
     rs_generation s' = rs_generation s + 1 /\ rs_extensions s' = keyed records)
  \/ exists e, replace_all records s = (s, Err e).
Proof.
  intros Hs. unfold replace_all, publish. case_bool_decide as Er; cbn [negb]; [|right; by eexists].
  destruct (_build _ _) as [s'|e] eqn:E; [left|right; by eexists]. exists s'. split; [done|]. split.
  - eapply built_snapshot_ok; [|exact E]. apply Forall_forall. intros r Hr. apply fmap_nil_inv in Er.
    destruct (in_state r ExtensionState.ENABLED) eqn:Hi; [by apply bool_decide_eq_true in Hi|]. exfalso.
    assert (In r (List.filter (fun r => negb (in_state r ExtensionState.ENABLED)) records)) as Hin.
    { apply filter_In. split; [by apply list_elem_of_In|by rewrite Hi]. }
    by rewrite Er in Hin.
  - by apply build_ok in E as (-> & _).
Qed.

(** The commands of a registry. *)
Inductive registry_op := Enable (r : ExtensionRecord) | Disable (x : string) | ReplaceAll (records : list ExtensionRecord).

Definition registry_step (op : registry_op) : M RegistrySnapshot RegistrySnapshot :=
  match op with
  | Enable r => registry_enable r
  | Disable x => registry_disable x
  | ReplaceAll records => replace_all records
  end.

(** Each command publishes one new generation or changes nothing. *)
Lemma registry_step_ok op s : snapshot_ok s ->
  (exists s', registry_step op s = (s', Ok s') /\ snapshot_ok s' /\ rs_generation s' = rs_generation s + 1)
  \/ exists e, registry_step op s = (s, Err e).
Proof.
  intros Hs. destruct op as [r|x|records]; cbn [registry_step].
  - destruct (registry_enable_ok r s Hs) as [(s' & ? & ? & _ & ? & _)|]; [left; by exists s'|by right].
  - destruct (registry_disable_ok x s Hs) as (s' & ? & ? & ? & _). left. by exists s'.
  - destruct (replace_all_ok records s Hs) as [(s' & ? & ? & ? & _)|]; [left; by exists s'|by right].
Qed.

Lemma empty_registry_ok : snapshot_ok empty_registry.
Proof. split; cbn; [done|by constructor|constructor|done|constructor]. Qed.

Lemma registry_run_ok ops s : snapshot_ok s -> snapshot_ok (foldl (fun s op => (registry_step op s).1) s ops).
Proof.
  revert s; induction ops as [|op ops IH]; intros s Hs; cbn; [done|]. apply IH.
  by destruct (registry_step_ok op s Hs) as [(s' & -> & ? & _)|(e & ->)].
Qed.

(** Who owns what: exactly the slots of the published extensions. *)
Lemma owner_of_iff s c o : snapshot_ok s -> owner_of s c = Some o <->
  exists r slot ids, r ∈ (rs_extensions s).*2 /\ (slot, ids) ∈ slots (er_manifest r) /\ c ∈ ids /\
    o = owner (er_manifest r) slot.
Proof.
  intros [Hk He Hd Ho Hu]. unfold owner_of. rewrite assoc_In by done. rewrite Ho, list_elem_of_In, in_concat.
  unfold owned, owned_by. setoid_rewrite <- list_elem_of_In. split.
  - intros (l & (r & -> & Hr)%list_elem_of_fmap & Hl). rewrite list_elem_of_In, in_concat in Hl.
    destruct Hl as (l & (d & <- & Hd')%in_map_iff & (i & [= <- <-] & Hi)%in_map_iff). destruct d as [slot ids].
    exists r, slot, ids. split_and!; [done|by apply list_elem_of_In..|done].
  - intros (r & slot & ids & Hr & Hsl & Hc & ->). eexists. split; [apply list_elem_of_fmap; by exists r|].
    rewrite list_elem_of_In, in_concat. exists (List.map (fun i => (i, owner (er_manifest r) slot)) ids). split.
    + apply in_map_iff. exists (slot, ids). split; [done|by apply list_elem_of_In].
    + apply in_map_iff. exists c. split; [done|by apply list_elem_of_In].
Qed.

(** The registry publishes consistent snapshots and nothing in between.  After any sequence of
    enabling, disabling and replacing: every published extension is ENABLED and listed once, under its
    own identifier; a capability is owned by exactly the extension, version and slot that declare it;
    a command that fails leaves the published snapshot as it was and one that succeeds publishes the
    next generation; and disabling an extension never fails and revokes all of its capabilities. *)
Theorem registry_snapshots_are_consistent ops :
  let s := foldl (fun s op => (registry_step op s).1) empty_registry ops in
  snapshot_ok s /\
  (forall c o, owner_of s c = Some o <->
     exists r slot ids, r ∈ (rs_extensions s).*2 /\ (slot, ids) ∈ slots (er_manifest r) /\ c ∈ ids /\
       o = owner (er_manifest r) slot) /\
  (forall op, match registry_step op s with
              | (s', Ok answer) => answer = s' /\ rs_generation s' = rs_generation s + 1
              | (s', Err _) => s' = s
              end) /\
  (forall x, exists s', registry_disable x s = (s', Ok s') /\
     forall c o, owner_of s' c = Some o -> co_extension_id o <> x).
Proof.
  intros s. pose proof (registry_run_ok ops _ empty_registry_ok) as Hs. fold s in Hs. split_and!; [done| | |].
  - intros c o. by apply owner_of_iff.
  - intros op. by destruct (registry_step_ok op s Hs) as [(s' & -> & _ & ?)|(e & ->)].
  - intros x. destruct (registry_disable_ok x s Hs) as (s' & H1 & H2 & _ & H3). exists s'. split; [done|].
    intros c o (r & slot & ids & Hr & _ & _ & ->)%owner_of_iff; [|done]. rewrite H3, (so_keyed _ Hs), assoc_del_keyed, keyed_snd in Hr.
    rewrite list_elem_of_In in Hr. apply filter_In in Hr as [_ Hr]. by bool_props.
Qed.
