(* ===== verification/Rely.v ===== *)
(** * Rely: monitors under an assumption on the answers

    [Monitor.v] watches a coroutine whatever its operations answer.  Where the other side is modelled
    code too, [may] says which answers it can give in a monitor state; [rwp] is the weakest
    precondition over those answers and [rwp_execs] the fact about every trace with such answers. *)

From S2P Require Import Prelude Monitor.

Section rely.
Context {E : Type -> Type} {St : Type}.
Context (ok : forall X, St -> E X -> Prop).
Context (next : forall X, St -> E X -> result X -> St).
Context (may : forall X, St -> E X -> result X -> Prop).

Fixpoint rwp {A} (p : prog E A) (m : St) (Q : St -> result A -> Prop) : Prop :=
  match p with
  | Ret a => Q m (Ok a)
  | Raise e => Q m (Err e)
  | Vis op k => ok _ m op /\ forall ans, may _ m op ans -> rwp (k ans) (next _ m op ans) Q
  end.

(** The answers along a trace are possible ones. *)
Fixpoint answered (m : St) (tr : list (event E)) : Prop :=
  match tr with
  | [] => True
  | Event op ans :: tr => may _ m op ans /\ answered (next _ m op ans) tr
  end.

Lemma rwp_execs {A} (p : prog E A) m Q tr r :
  rwp p m Q -> execs p tr r -> answered m tr -> watched ok next m tr /\ Q (after next m tr) r.
Proof.
  revert m tr; induction p as [a|e|X op k IH]; intros m tr; simpl.
  - by intros HQ [-> ->].
  - by intros HQ [-> ->].
  - intros [Hok Hk] (ans & tr' & -> & Hx) [Hans Htr]. simpl.
    destruct (IH ans _ _ (Hk ans Hans) Hx Htr). done.
Qed.

Lemma rwp_mono {A} (p : prog E A) m (Q Q' : St -> result A -> Prop) :
  rwp p m Q -> (forall m' r, Q m' r -> Q' m' r) -> rwp p m Q'.
Proof.
  intros Hp HQ. revert m Hp; induction p as [a|e|X op k IH]; intros m; simpl; [apply HQ..|].
  intros [Hok Hk]. split; [done|]. intros ans Hans. apply IH. by apply Hk.
Qed.

Lemma rwp_match {A B} (p : prog E A) (f : A -> prog E B) h m Q :
  rwp p m (fun m' r => match r with Ok a => rwp (f a) m' Q | Err e => rwp (h e) m' Q end) ->
  rwp (prog_match p f h) m Q.
Proof.
  revert m; induction p as [a|e|X op k IH]; intros m; simpl; [done..|].
  intros [Hok Hk]. split; [done|]. intros ans Hans. apply IH. by apply Hk.
Qed.

Lemma rwp_bind {A B} (p : prog E A) (f : A -> prog E B) m Q :
  rwp p m (fun m' r => match r with Ok a => rwp (f a) m' Q | Err e => Q m' (Err e) end) ->
  rwp (p ≫= f) m Q.
Proof.
  revert m; induction p as [a|e|X op k IH]; intros m; simpl; [done..|].
  intros [Hok Hk]. split; [done|]. intros ans Hans. apply IH. by apply Hk.
Qed.

Lemma rwp_try {A} (p : prog E A) h m (Q : St -> result A -> Prop) :
  rwp p m (fun m' r => match r with Ok a => Q m' (Ok a) | Err e => rwp (h e) m' Q end) ->
  rwp (prog_try p h) m Q.
Proof.
  revert m; induction p as [a|e|X op k IH]; intros m; simpl; [done..|].
  intros [Hok Hk]. split; [done|]. intros ans Hans. apply IH. by apply Hk.
Qed.

Lemma rwp_of_result {A} (r : result A) m (Q : St -> result A -> Prop) : Q m r -> rwp (of_result r) m Q.
Proof. by destruct r. Qed.

Lemma rwp_perform {X} (op : E X) m (Q : St -> result X -> Prop) :
  ok X m op -> (forall ans, may X m op ans -> Q (next X m op ans) ans) -> rwp (perform op) m Q.
Proof. intros Hok HQ. simpl. split; [done|]. intros ans Hans. by apply rwp_of_result, HQ. Qed.

Lemma rwp_and {A} (p : prog E A) m (Q Q' : St -> result A -> Prop) :
  rwp p m Q -> rwp p m Q' -> rwp p m (fun m' r => Q m' r /\ Q' m' r).
Proof.
  revert m; induction p as [a|e|X op k IH]; intros m; simpl; [done..|].
  intros [Hok Hk] [_ Hk']. split; [done|]. intros ans Hans. apply IH; [by apply Hk|by apply Hk'].
Qed.

(** What no operation undoes. *)
Lemma rwp_stable {A} (I : St -> Prop) (p : prog E A) m (Q : St -> result A -> Prop) :
  (forall X m op ans, I m -> I (next X m op ans)) -> I m -> rwp p m Q -> rwp p m (fun m' r => Q m' r /\ I m').
Proof.
  intros HI. revert m; induction p as [a|e|X op k IH]; intros m Hm; simpl; [done..|].
  intros [Hok Hk]. split; [done|]. intros ans Hans. apply IH; [by apply HI|by apply Hk].
Qed.

(** The run with a handler that answers as it may. *)
Lemma trace_run_answered {A} (h : forall X, E X -> M St X) (p : prog E A) m :
  (forall X op m, exists ans, h X op m = (next X m op ans, ans) /\ may X m op ans) ->
  answered m (trace_run h p m).1 /\ after next m (trace_run h p m).1 = (run h p m).1.
Proof.
  intros Hh. revert m; induction p as [a|e|X op k IH]; intros m; simpl; [done..|].
  destruct (Hh X op m) as (ans & E1 & Hans). rewrite E1. specialize (IH ans (next X m op ans)).
  destruct (trace_run h (k ans) (next X m op ans)) as [tr res]. simpl in *. by destruct IH.
Qed.

End rely.
