(* ===== verification/Lifecycle.v ===== *)
(** * Lifecycle: installing, enabling, upgrading and removing extensions

    Models [core/extensions/lifecycle.py]: [InstallCoordinator] and [LifecycleManager] as coroutines
    over their ports, and [shield_cleanup] of [core/extensions/async_utils.py].  The ports are external
    code and answer anything; the registry and the coordinator's plans are reached through operations
    too, so that one trace shows in which order everything happens.  The two warning texts are
    parameters: they are not Latin-1. *)

From S2P Require Import Prelude Text Sha256 Json Domain Approvals Scheduling Manifest Extensions.
Local Open Scope string_scope.
Local Open Scope Z_scope.

(** ** Values *)

Record StagedArtifact := { sa_source : string; sa_root : string; sa_artifact_hash : string }.

Record InstalledArtifact := {
  ia_install_path : string;
  ia_runtime_key : string;
  ia_runtime_root : option string
}.

Record InstallationPreview := {
  ip_plan_id : string;
  ip_confirmation_nonce : string;
  ip_expires_at : time;
  ip_source : string;
  ip_artifact_hash : string;
  ip_extension_id : string;
  ip_extension_name : string;
  ip_extension_version : string;
  ip_entrypoint : string;
  ip_slots : list (string * list string);
  ip_tool_risks : list (string * string);
  ip_required_capabilities : list string;
  ip_optional_capabilities : list string;
  ip_warning : string;
  ip_preview_hash : string;
  ip_mode : string;
  ip_replaces_version : option string
}.

Record InstallationConfirmation := {
  ic_plan_id : string;
  ic_confirmation_nonce : string;
  ic_preview_hash : string;
  ic_actor : string;
  ic_confirmed_at : time;
  ic_accepted_warning : bool
}.

Record PurgePreview := {
  pp_extension_id : string;
  pp_confirmation_nonce : string;
  pp_preview_hash : string;
  pp_data_namespaces : list string;
  pp_warning : string
}.

Record PurgeConfirmation := {
  pc_extension_id : string;
  pc_confirmation_nonce : string;
  pc_preview_hash : string;
  pc_actor : string;
  pc_confirmed_at : time
}.

Record _PendingInstall := {
  pi_staged : StagedArtifact;
  pi_manifest : ExtensionManifest;
  pi_preview : InstallationPreview;
  pi_consumed : bool
}.

Definition _INSTALLABLE_STATES : list ExtensionState.t :=
  [ExtensionState.UNINSTALLED; ExtensionState.REJECTED; ExtensionState.STAGED].

(** ** Operations *)

Inductive lcOp : Type -> Type :=
(* ArtifactStager, [compute_artifact_hash], [ManifestParser.parse] of a directory, [Path.exists] *)
| Stage (source : string) : lcOp StagedArtifact
| Discard (staged : StagedArtifact) : lcOp unit
| ComputeHash (root : string) : lcOp string
| ParseManifest (root : string) : lcOp ExtensionManifest
| PathExists (path : string) : lcOp bool
(* ArtifactInstaller, ContractVerifier *)
| Install (staged : StagedArtifact) (manifest : ExtensionManifest) : lcOp InstalledArtifact
| UninstallCode (record : ExtensionRecord) : lcOp unit
| RemoveVersion (record : ExtensionRecord) : lcOp unit
| RemoveOrphan (extension_id version : string) : lcOp unit
| CleanFailed (staged : StagedArtifact) : lcOp unit
| Verify (installed : InstalledArtifact) (manifest : ExtensionManifest) : lcOp unit
(* LifecycleStore *)
| StoreGet (extension_id : string) : lcOp (option ExtensionRecord)
| StoreSave (record : ExtensionRecord) : lcOp bool
(* ExtensionRegistry *)
| RegEnable (record : ExtensionRecord) : lcOp RegistrySnapshot
| RegDisable (extension_id : string) : lcOp RegistrySnapshot
(* RuntimeSupervisor *)
| Start (record : ExtensionRecord) : lcOp unit
| Health (record : ExtensionRecord) : lcOp bool
| Drain (record : ExtensionRecord) (deadline : time) : lcOp (option (list (string * json)))
| Stop (record : ExtensionRecord) : lcOp unit
(* ExtensionDataStore, VersionOperator *)
| Namespaces (extension_id : string) : lcOp (list string)
| PurgeData (extension_id : string) : lcOp unit
| Activate (old candidate : ExtensionRecord) : lcOp unit
| RollbackVersion (current : ExtensionRecord) : lcOp ExtensionRecord
(* [self._pending] and the [consumed] flag of a plan, [self._purges], the clock, [secrets] *)
| PlanGet (plan_id : string) : lcOp (option _PendingInstall)
| PlanPop (plan_id : string) : lcOp (option _PendingInstall)
| PlanPut (plan_id : string) (plan : _PendingInstall) : lcOp unit
| PlansOf (extension_id : string) : lcOp (list string)
| PlanConsume (plan_id : string) : lcOp unit
| PurgesGet (extension_id : string) : lcOp (option PurgePreview)
| PurgesPut (extension_id : string) (preview : PurgePreview) : lcOp unit
| PurgesPop (extension_id : string) : lcOp unit
| Clock : lcOp time
| Token : lcOp string.

(** An operation, and whether it runs inside of a shielded cleanup task, where the caller's
    cancellation does not reach it. *)
Inductive lcE (X : Type) := Do (shield : bool) (op : lcOp X).
Arguments Do {X} shield op.

Definition await {X} (op : lcOp X) : prog lcE X := perform (Do false op).

(** [shield_cleanup(p)]: [p] runs to its end in a task of its own; its outcome is the caller's. *)
Fixpoint shield_cleanup {A} (p : prog lcE A) : prog lcE A :=
  match p with
  | Ret a => Ret a
  | Raise e => Raise e
  | Vis (Do _ op) k => Vis (Do true op) (fun r => shield_cleanup (k r))
  end.

(** [with contextlib.suppress(classes): p] *)
Definition suppress (classes : list exn_class) (p : prog lcE unit) : prog lcE unit :=
  prog_match p Ret (fun e => if existsb (exn_is e) classes then Ret tt else Raise e).

Definition op_error (diagnostic msg : string) : exn := Exn ExtensionOperationError msg (Some diagnostic) false.

Definition run_unit {X} (p : prog lcE X) : prog lcE unit := _ ← p; Ret tt.

(** ** Module functions *)

(** [^(\d+)\.(\d+)\.(\d+)] *)
Definition _semver_key (version : string) : Z * Z * Z :=
  let dot l := match l with a :: l => if code a =? 46 then Some l else None | [] => None end in
  let '(major, l1) := span is_digit (chars version) in
  match dot l1 with
  | None => (0, 0, 0)
  | Some l1 =>
      let '(minor, l2) := span is_digit l1 in
      match dot l2 with
      | None => (0, 0, 0)
      | Some l2 =>
          let '(patch, _) := span is_digit l2 in
          match major, minor, patch with
          | _ :: _, _ :: _, _ :: _ =>
              (int_of_decimal (of_chars major), int_of_decimal (of_chars minor), int_of_decimal (of_chars patch))
          | _, _, _ => (0, 0, 0)
          end
      end
  end.

(** [a <= b] on the keys. *)
Definition semver_le (a b : string) : bool :=
  let '(a1, a2, a3) := _semver_key a in
  let '(b1, b2, b3) := _semver_key b in
  (a1 <? b1) || ((a1 =? b1) && ((a2 <? b2) || ((a2 =? b2) && (a3 <=? b3)))).

Definition _hash_payload (payload : json) : result string :=
  encoded ← dumps stable_opts payload; Ok ("sha256:" ++ sha256 encoded).

Definition _require_state (record : ExtensionRecord) (allowed : list ExtensionState.t) (operation : string)
  : result unit :=
  raise_if (negb (mem_b (er_state record) allowed)) InvalidLifecycleTransition
    ("cannot " ++ operation ++ " " ++ er_id record ++ " from " ++ ExtensionState.value (er_state record)
     ++ "; expected " ++ str_join ", " (sorted_strings (ExtensionState.value <$> allowed))).

Section lifecycle.
Context (TRUST_WARNING PURGE_WARNING : string).

Definition preview_body (plan_id nonce : string) (staged : StagedArtifact) (m : ExtensionManifest)
    (expires_at : time) (mode : string) (replaces_version : option string) : json :=
  JObj [("plan_id", JStr plan_id); ("nonce", JStr nonce); ("expires_at", JStr (isoformat expires_at));
        ("source", JStr (sa_source staged)); ("artifact_hash", JStr (sa_artifact_hash staged));
        ("extension_id", JStr (em_id m)); ("extension_name", JStr (em_name m));
        ("extension_version", JStr (em_version m)); ("entrypoint", JStr (em_entrypoint m));
        ("slots", JObj ((fun kv => (kv.1, JList (JStr <$> kv.2))) <$> slots m));
        ("tool_risks", JObj ((fun t => (mt_id t, JStr (mt_risk t))) <$> em_tools m));
        ("required_capabilities", JList (JStr <$> dcap_required (em_capabilities m)));
        ("optional_capabilities", JList (JStr <$> dcap_optional (em_capabilities m)));
        ("warning", JStr TRUST_WARNING); ("mode", JStr mode); ("replaces_version", opt_str replaces_version)].

Definition _make_install_preview (staged : StagedArtifact) (m : ExtensionManifest) (expires_at : time)
    (mode : string) (replaces_version : option string) : prog lcE InstallationPreview :=
  token ← await Token;
  let plan_id := "install_" ++ token in
  nonce ← await Token;
  hash ← of_result (_hash_payload (preview_body plan_id nonce staged m expires_at mode replaces_version));
  Ret {| ip_plan_id := plan_id; ip_confirmation_nonce := nonce; ip_expires_at := expires_at;
         ip_source := sa_source staged; ip_artifact_hash := sa_artifact_hash staged;
         ip_extension_id := em_id m; ip_extension_name := em_name m; ip_extension_version := em_version m;
         ip_entrypoint := em_entrypoint m; ip_slots := slots m;
         ip_tool_risks := (fun t => (mt_id t, mt_risk t)) <$> em_tools m;
         ip_required_capabilities := dcap_required (em_capabilities m);
         ip_optional_capabilities := dcap_optional (em_capabilities m);
         ip_warning := TRUST_WARNING; ip_preview_hash := hash; ip_mode := mode;
         ip_replaces_version := replaces_version |}.

(** ** [InstallCoordinator] *)

Definition _discard_staged (staged : StagedArtifact) : prog lcE unit :=
  suppress [ExtensionError; PyOSError] (await (Discard staged)).

Definition _UPGRADABLE : list ExtensionState.t :=
  [ExtensionState.ENABLED; ExtensionState.DISABLED; ExtensionState.INSTALLED_DISABLED;
   ExtensionState.QUARANTINED; ExtensionState.ROLLED_BACK].

Definition _require_upgrade_target (existing : option ExtensionRecord) (m : ExtensionManifest) : result string :=
  match existing with
  | None => fail ExtensionError ("no installed extension to upgrade: " ++ em_id m)
  | Some r =>
      _ ← raise_if (in_state r ExtensionState.UNINSTALLED) ExtensionError
            ("no installed extension to upgrade: " ++ em_id m);
      _ ← raise_if (negb (mem_b (er_state r) _UPGRADABLE)) InvalidLifecycleTransition
            ("cannot stage an upgrade from " ++ ExtensionState.value (er_state r));
      _ ← raise_if (semver_le (em_version m) (er_version r)) ExtensionError
            ("upgrade candidate must declare a version newer than " ++ er_version r);
      _ ← raise_if (em_state_schema_version m <? em_state_schema_version (er_manifest r)) ExtensionError
            ("upgrade candidate would move the extension data schema backwards; "
             ++ "use rollback for retained older versions");
      Ok (er_version r)
  end.

(** The mode of a plan and the version it replaces. *)
Definition plan_mode (mode : option string) (existing : option ExtensionRecord) (m : ExtensionManifest)
  : result (string * option string) :=
  let installable r := mem_b (er_state r) _INSTALLABLE_STATES in
  let upgrade := replaces ← _require_upgrade_target existing m; Ok ("upgrade", Some replaces) in
  match mode with
  | Some "install" =>
      match existing with
      | Some r => if installable r then Ok ("install", None)
                  else fail ExtensionError ("extension is already installed: " ++ em_id m)
      | None => Ok ("install", None)
      end
  | Some "upgrade" => upgrade
  | _ =>
      match existing with
      | Some r => if installable r then Ok ("install", None) else upgrade
      | None => Ok ("install", None)
      end
  end.

Fixpoint drop_plans (plan_ids : list string) : prog lcE unit :=
  match plan_ids with
  | [] => Ret tt
  | plan_id :: plan_ids =>
      plan ← await (PlanPop plan_id);
      _ ← match plan with
          | Some p => if pi_consumed p then Ret tt
                      else _ ← await (PlanConsume plan_id); _discard_staged (pi_staged p)
          | None => Ret tt
          end;
      drop_plans plan_ids
  end.

Definition _drop_pending (extension_id : string) : prog lcE unit :=
  stale ← await (PlansOf extension_id); drop_plans stale.

Definition new_record (m : ExtensionManifest) (artifact_hash : string) (state : ExtensionState.t)
    (install_path : option string) : ExtensionRecord :=
  {| er_manifest := m; er_artifact_hash := artifact_hash; er_state := state; er_install_path := install_path;
     er_data_retained := true; er_tombstone := false |}.

(** The body of the [try] of [_prepare]. *)
Definition inspect_staged (staged : StagedArtifact) (mode : option string) (confirmation_ttl : Z)
  : prog lcE (ExtensionManifest * string * InstallationPreview) :=
  manifest ← await (ParseManifest (sa_root staged));
  existing ← await (StoreGet (em_id manifest));
  of_result (plan_mode mode existing manifest) ≫= fun planned : string * option string =>
  now ← await Clock;
  preview ← _make_install_preview staged manifest (now + confirmation_ttl) planned.1 planned.2;
  Ret (manifest, planned.1, preview).

Definition _prepare (source : string) (mode : option string) (confirmation_ttl : Z) : prog lcE InstallationPreview :=
  staged ← await (Stage source);
  computed_hash ← await (ComputeHash (sa_root staged));
  if negb (bool_decide (computed_hash = sa_artifact_hash staged)) then
    _ ← await (Discard staged);
    raise_prog ExtensionError "staged artifact hash does not match its content"
  else
    prog_match (inspect_staged staged mode confirmation_ttl)
      (fun inspected : ExtensionManifest * string * InstallationPreview =>
         let '(manifest, mode, preview) := inspected in
         _ ← _drop_pending (em_id manifest);
         _ ← await (PlanPut (ip_plan_id preview)
               {| pi_staged := staged; pi_manifest := manifest; pi_preview := preview; pi_consumed := false |});
         _ ← (if bool_decide (mode = "install")
              then run_unit (await (StoreSave (new_record manifest (sa_artifact_hash staged) ExtensionState.STAGED None)))
              else Ret tt);
         Ret preview)
      (fun e => if exn_is e PyException then _ ← await (Discard staged); Raise e else Raise e).

Definition prepare (source : string) : Z -> prog lcE InstallationPreview := _prepare source (Some "install").
Definition prepare_upgrade (source : string) : Z -> prog lcE InstallationPreview := _prepare source (Some "upgrade").
Definition prepare_auto (source : string) : Z -> prog lcE InstallationPreview := _prepare source None.

Definition plan_not_found : exn := op_error "PLAN_NOT_FOUND" "installation plan is missing or already consumed".

Definition preview_for (plan_id : string) : prog lcE InstallationPreview :=
  plan ← await (PlanGet plan_id);
  match plan with Some p => Ret (pi_preview p) | None => Raise plan_not_found end.

Definition refused {A} (msg : string) : prog lcE A := raise_prog ConfirmationRequiredError msg.

Definition _validate_confirmation (preview : InstallationPreview) (confirmation : option InstallationConfirmation)
  : prog lcE unit :=
  match confirmation with
  | None => refused "explicit installation confirmation is required"
  | Some c =>
      if negb (ic_accepted_warning c) then refused "the trusted-code warning was not accepted"
      else if blank (ic_actor c) then refused "confirmation actor is required"
      else if negb (bool_decide ((ic_plan_id c, ic_confirmation_nonce c, ic_preview_hash c)
                                 = (ip_plan_id preview, ip_confirmation_nonce preview, ip_preview_hash preview)))
      then refused "confirmation does not match the exact preview"
      else
        now ← await Clock;
        if now + minutes 1 <? ic_confirmed_at c then refused "confirmation timestamp is in the future"
        else if (ip_expires_at preview <? ic_confirmed_at c) || (ip_expires_at preview <? now)
        then refused "installation confirmation has expired"
        else Ret tt
  end.

Definition validate (plan_id : string) (confirmation : option InstallationConfirmation) : prog lcE unit :=
  plan ← await (PlanGet plan_id);
  match plan with
  | Some p => if pi_consumed p then Raise plan_not_found else _validate_confirmation (pi_preview p) confirmation
  | None => Raise plan_not_found
  end.

Definition reject (plan_id : string) : prog lcE ExtensionRecord :=
  plan ← await (PlanPop plan_id);
  match plan with
  | None => Raise plan_not_found
  | Some p =>
      if pi_consumed p then Raise plan_not_found
      else
        _ ← await (PlanConsume plan_id);
        _ ← await (Discard (pi_staged p));
        if bool_decide (ip_mode (pi_preview p) = "upgrade") then
          current ← await (StoreGet (em_id (pi_manifest p)));
          match current with
          | None => raise_prog ExtensionError ("extension is no longer installed: " ++ em_id (pi_manifest p))
          | Some r => Ret r
          end
        else
          let record := new_record (pi_manifest p) (sa_artifact_hash (pi_staged p)) ExtensionState.REJECTED None in
          _ ← await (StoreSave record);
          Ret record
  end.

Definition _verify_staged_unchanged (plan : _PendingInstall) : prog lcE unit :=
  current_hash ← await (ComputeHash (sa_root (pi_staged plan)));
  if negb (bool_decide (current_hash = ip_artifact_hash (pi_preview plan))) then
    _ ← await (PlanPop (ip_plan_id (pi_preview plan)));
    _ ← _discard_staged (pi_staged plan);
    refused "staged artifact changed after preview; confirm the new content explicitly"
  else Ret tt.

Definition baseline_changed {A} (msg : string) : prog lcE A := Raise (op_error "PLAN_BASELINE_CHANGED" msg).

Definition _verify_upgrade_baseline (plan : _PendingInstall) : prog lcE unit :=
  current ← await (StoreGet (em_id (pi_manifest plan)));
  match current with
  | None => baseline_changed "the extension is no longer installed; create a new plan"
  | Some r =>
      if in_state r ExtensionState.UNINSTALLED then
        baseline_changed "the extension is no longer installed; create a new plan"
      else if negb (bool_decide (ip_replaces_version (pi_preview plan) = Some (er_version r))) then
        baseline_changed ("active version changed to " ++ str_repr (er_version r) ++ " after the preview")
      else if semver_le (em_version (pi_manifest plan)) (er_version r) then
        baseline_changed "upgrade candidate is no longer newer than the active version"
      else if em_state_schema_version (pi_manifest plan) <? em_state_schema_version (er_manifest r) then
        baseline_changed "upgrade candidate would move the extension data schema backwards"
      else Ret tt
  end.

Definition installed_record (plan : _PendingInstall) (installed : InstalledArtifact) : ExtensionRecord :=
  new_record ((pi_manifest plan) {{ em_root := default (ia_install_path installed) (ia_runtime_root installed) }})
    (sa_artifact_hash (pi_staged plan)) ExtensionState.INSTALLED_DISABLED (Some (ia_install_path installed)).

Definition _abort_install (plan : _PendingInstall) (installed : option InstalledArtifact) (persist : bool)
  : prog lcE unit :=
  _ ← match installed with
      | Some i => suppress [PyException] (await (RemoveVersion (installed_record plan i)))
      | None => Ret tt
      end;
  _ ← suppress [PyException] (await (CleanFailed (pi_staged plan)));
  _ ← _discard_staged (pi_staged plan);
  if persist then
    suppress [PyException] (run_unit (await (StoreSave
      (new_record (pi_manifest plan) (sa_artifact_hash (pi_staged plan)) ExtensionState.REJECTED None))))
  else Ret tt.

(** [except BaseException: await shield_cleanup(self._abort_install(...)); raise] *)
Definition abort_and_raise (plan : _PendingInstall) (installed : option InstalledArtifact) (persist : bool)
    (e : exn) : prog lcE ExtensionRecord :=
  _ ← shield_cleanup (_abort_install plan installed persist); Raise e.

(** The rest of the [try] once the artifact is installed. *)
Definition finish_install (plan : _PendingInstall) (installed : InstalledArtifact) (persist : bool)
  : prog lcE ExtensionRecord :=
  _ ← await (Verify installed (pi_manifest plan));
  _ ← _discard_staged (pi_staged plan);
  let record := installed_record plan installed in
  _ ← (if persist then run_unit (await (StoreSave record)) else Ret tt);
  Ret record.

(** The [try] statement of [_execute_install]: the local [installed] is set between its two parts. *)
Definition run_install (plan : _PendingInstall) (expected_mode : string) (persist : bool)
  : prog lcE ExtensionRecord :=
  prog_match
    (_ ← (if bool_decide (expected_mode = "install")
          then await (RemoveOrphan (em_id (pi_manifest plan)) (em_version (pi_manifest plan)))
          else Ret tt);
     await (Install (pi_staged plan) (pi_manifest plan)))
    (fun installed => prog_try (finish_install plan installed persist)
                        (abort_and_raise plan (Some installed) persist))
    (abort_and_raise plan None persist).

Definition _execute_install (plan_id : string) (confirmation : option InstallationConfirmation)
    (expected_mode : string) (persist : bool) : prog lcE ExtensionRecord :=
  found ← await (PlanGet plan_id);
  match found with
  | None => refused "installation plan is missing or already consumed"
  | Some plan =>
      if pi_consumed plan then refused "installation plan is missing or already consumed"
      else if negb (bool_decide (ip_mode (pi_preview plan) = expected_mode)) then
        Raise (op_error "PLAN_MODE_MISMATCH"
          ("plan mode is " ++ str_repr (ip_mode (pi_preview plan)) ++ ", expected " ++ str_repr expected_mode))
      else
        _ ← _validate_confirmation (pi_preview plan) confirmation;
        _ ← _verify_staged_unchanged plan;
        _ ← (if bool_decide (expected_mode = "upgrade") then _verify_upgrade_baseline plan else Ret tt);
        _ ← await (PlanConsume plan_id);
        run_install plan expected_mode persist
  end.

Definition install (plan_id : string) (confirmation : option InstallationConfirmation) : prog lcE ExtensionRecord :=
  _execute_install plan_id confirmation "install" true.
Definition install_candidate (plan_id : string) (confirmation : option InstallationConfirmation)
  : prog lcE ExtensionRecord := _execute_install plan_id confirmation "upgrade" false.

Definition discard_candidate (record : ExtensionRecord) : prog lcE unit := await (RemoveVersion record).

Definition discard_staged_record (record : ExtensionRecord) : prog lcE unit :=
  match er_install_path record with
  | Some _ => Ret tt
  | None =>
      await (PathExists (em_root (er_manifest record))) ≫= fun there : bool =>
      if there then _discard_staged {| sa_source := er_id record; sa_root := em_root (er_manifest record);
                                       sa_artifact_hash := er_artifact_hash record |}
      else Ret tt
  end.

(** ** [LifecycleManager] *)

Definition _require (extension_id : string) : prog lcE ExtensionRecord :=
  record ← await (StoreGet extension_id);
  match record with
  | None => raise_prog ExtensionError ("unknown extension: " ++ extension_id)
  | Some r => Ret r
  end.

(** Stop the worker and persist the quarantine; [published] is the local flag of the body. *)
Definition unpublish_and_raise (starting : ExtensionRecord) (published : bool) (e : exn) : prog lcE ExtensionRecord :=
  _ ← (if published then run_unit (await (RegDisable (er_id starting))) else Ret tt);
  _ ← shield_cleanup (await (Stop starting));
  _ ← shield_cleanup (await (StoreSave (starting {{ er_state := ExtensionState.QUARANTINED }})));
  Raise e.

Definition _start_and_publish (record : ExtensionRecord) : prog lcE ExtensionRecord :=
  let starting := record {{ er_state := ExtensionState.STARTING }} in
  let enabled := starting {{ er_state := ExtensionState.ENABLED }} in
  _ ← await (StoreSave starting);
  prog_match
    (_ ← await (Start starting);
     await (Health starting) ≫= fun healthy : bool =>
     _ ← (if healthy then Ret tt else Raise (op_error "HEALTHCHECK_FAILED" "extension healthcheck failed"));
     run_unit (await (RegEnable enabled)))
    (fun _ => prog_try (_ ← await (StoreSave enabled); Ret enabled) (unpublish_and_raise starting true))
    (unpublish_and_raise starting false).

Definition enable (extension_id : string) : prog lcE ExtensionRecord :=
  record ← _require extension_id;
  _ ← of_result (_require_state record
        [ExtensionState.INSTALLED_DISABLED; ExtensionState.DISABLED; ExtensionState.ROLLED_BACK;
         ExtensionState.QUARANTINED] "enable");
  _start_and_publish record.

Definition recover (extension_id : string) : prog lcE ExtensionRecord :=
  record ← _require extension_id;
  _ ← of_result (_require_state record [ExtensionState.ENABLED] "recover");
  _start_and_publish record.

(** The drain with its two [except] clauses: the report, or the error to surface. *)
Definition drain_worker (draining : ExtensionRecord) (deadline : time)
  : prog lcE (option (list (string * json)) * option exn) :=
  prog_match (await (Drain draining deadline))
    (fun report => Ret (report, None))
    (fun e => if exn_is e RpcTimeoutError
              then Ret (None, Some (op_error "DRAIN_TIMEOUT"
                     ("extension did not drain before the deadline: " ++ exn_msg e)))
              else if exn_is e ExtensionError then Ret (None, Some e) else Raise e).

(** The report says that calls were still in flight; a boolean is an [int]. *)
Definition reports_in_flight (report : list (string * json)) : bool :=
  bool_decide (assoc "drained" report = Some (JBool false))
  || match assoc "active_calls" report with
     | Some (JInt n) => 0 <? n
     | Some (JBool b) => b
     | _ => false
     end.

Definition drain_outcome (report : option (list (string * json))) (error : option exn) : option exn :=
  match report with
  | Some r => if reports_in_flight r
              then Some (op_error "DRAIN_TIMEOUT"
                           "extension reported in-flight calls when the drain deadline expired")
              else error
  | None => error
  end.

Definition disable (extension_id : string) (deadline : time) : prog lcE ExtensionRecord :=
  record ← _require extension_id;
  _ ← of_result (_require_state record [ExtensionState.ENABLED] "disable");
  _ ← await (RegDisable extension_id);
  let draining := record {{ er_state := ExtensionState.DRAINING }} in
  _ ← await (StoreSave draining);
  prog_finally (drain_worker draining deadline) (shield_cleanup (await (Stop draining)))
    ≫= fun drained : option (list (string * json)) * option exn =>
  let disabled := draining {{ er_state := ExtensionState.DISABLED }} in
  _ ← shield_cleanup (await (StoreSave disabled));
  match drain_outcome drained.1 drained.2 with
  | Some e => Raise e
  | None => Ret disabled
  end.

(** [self.disable(extension_id, deadline_epoch=self._clock().timestamp() + 30)] *)
Definition disable_now (extension_id : string) : prog lcE ExtensionRecord :=
  now ← await Clock; disable extension_id (now + seconds 30).

Definition uninstall (extension_id : string) : prog lcE ExtensionRecord :=
  found ← _require extension_id;
  record ← (if in_state found ExtensionState.ENABLED then disable_now extension_id else Ret found);
  _ ← of_result (_require_state record
        [ExtensionState.INSTALLED_DISABLED; ExtensionState.DISABLED; ExtensionState.QUARANTINED;
         ExtensionState.ROLLED_BACK] "uninstall");
  _ ← await (RegDisable extension_id);
  let uninstalling := record {{ er_state := ExtensionState.UNINSTALLING }} in
  _ ← await (StoreSave uninstalling);
  _ ← await (Stop uninstalling);
  _ ← await (UninstallCode uninstalling);
  let removed := uninstalling {{ er_state := ExtensionState.UNINSTALLED; er_install_path := None;
                                 er_data_retained := true; er_tombstone := true }} in
  _ ← await (StoreSave removed);
  Ret removed.

Definition prepare_purge (extension_id : string) : prog lcE PurgePreview :=
  record ← _require extension_id;
  _ ← of_result (_require_state record [ExtensionState.UNINSTALLED] "purge");
  namespaces ← await (Namespaces extension_id);
  nonce ← await Token;
  hash ← of_result (_hash_payload (JObj [("extension_id", JStr extension_id);
           ("namespaces", JList (JStr <$> namespaces)); ("nonce", JStr nonce); ("warning", JStr PURGE_WARNING)]));
  let preview := {| pp_extension_id := extension_id; pp_confirmation_nonce := nonce; pp_preview_hash := hash;
                    pp_data_namespaces := namespaces; pp_warning := PURGE_WARNING |} in
  _ ← await (PurgesPut extension_id preview);
  Ret preview.

Definition purge (c : PurgeConfirmation) : prog lcE ExtensionRecord :=
  found ← await (PurgesGet (pc_extension_id c));
  match found with
  | None => refused "prepare a purge preview first"
  | Some preview =>
      if negb (bool_decide (pc_confirmation_nonce c = pp_confirmation_nonce preview))
         || negb (bool_decide (pc_preview_hash c = pp_preview_hash preview)) || blank (pc_actor c)
      then refused "purge confirmation does not match its preview"
      else
        record ← _require (pc_extension_id c);
        _ ← of_result (_require_state record [ExtensionState.UNINSTALLED] "purge");
        _ ← await (PurgesPop (pc_extension_id c));
        _ ← await (PurgeData (pc_extension_id c));
        let purged := record {{ er_data_retained := false }} in
        _ ← await (StoreSave purged);
        Ret purged
  end.

(** The common part of the two compensations: nothing of the new version stays published or running,
    and [restored], the old version, is persisted and served again if it was serving before. *)
Definition compensate (extension_id : string) (failed restored : ExtensionRecord) (was_enabled : bool)
  : prog lcE unit :=
  _ ← suppress [PyException] (run_unit (await (RegDisable extension_id)));
  _ ← suppress [PyException] (await (Stop failed));
  _ ← suppress [PyException] (run_unit (await (StoreSave restored)));
  if was_enabled then suppress [PyException] (run_unit (enable extension_id)) else Ret tt.

Definition _compensate_failed_upgrade (original candidate : ExtensionRecord) (was_enabled : bool) : prog lcE unit :=
  compensate (er_id original) candidate (original {{ er_state := ExtensionState.ROLLED_BACK }}) was_enabled.

Definition _compensate_failed_rollback (original restored : ExtensionRecord) (was_enabled : bool) : prog lcE unit :=
  compensate (er_id original) restored (original {{ er_state := ExtensionState.DISABLED }}) was_enabled.

(** The body of the [try] of [upgrade]. *)
Definition switch_version (extension_id : string) (original candidate : ExtensionRecord) (was_enabled : bool)
  : prog lcE ExtensionRecord :=
  current ← (if was_enabled then disable_now extension_id else Ret original);
  let upgrading := current {{ er_state := ExtensionState.UPGRADING }} in
  _ ← await (StoreSave upgrading);
  _ ← await (Activate upgrading candidate);
  let activated := candidate {{ er_state := ExtensionState.DISABLED }} in
  _ ← await (StoreSave activated);
  if was_enabled then enable extension_id else Ret activated.

Definition upgrade (extension_id : string) (candidate : ExtensionRecord) : prog lcE ExtensionRecord :=
  original ← _require extension_id;
  _ ← of_result (_require_state original _UPGRADABLE "upgrade");
  _ ← of_result (raise_if (negb (bool_decide (er_id candidate = extension_id))) ExtensionError
        "upgrade candidate has a different extension id");
  _ ← of_result (raise_if (negb (in_state candidate ExtensionState.INSTALLED_DISABLED)) ExtensionError
        "upgrade candidate must be installed and contract-tested");
  let was_enabled := in_state original ExtensionState.ENABLED in
  prog_try (switch_version extension_id original candidate was_enabled)
    (fun e => _ ← shield_cleanup (_compensate_failed_upgrade original candidate was_enabled); Raise e).

(** The body of the [try] of [rollback]. *)
Definition switch_back (extension_id : string) (restored : ExtensionRecord) (was_enabled : bool)
  : prog lcE ExtensionRecord :=
  _ ← (if was_enabled then run_unit (disable_now extension_id) else Ret tt);
  let rolled_back := restored {{ er_state := ExtensionState.ROLLED_BACK }} in
  _ ← await (StoreSave rolled_back);
  if was_enabled then _start_and_publish rolled_back else Ret rolled_back.

Definition rollback (extension_id : string) : prog lcE ExtensionRecord :=
  original ← _require extension_id;
  _ ← of_result (_require_state original
        [ExtensionState.ENABLED; ExtensionState.DISABLED; ExtensionState.QUARANTINED] "rollback");
  restored ← await (RollbackVersion original);
  _ ← of_result (raise_if (negb (bool_decide (er_id restored = extension_id))) ExtensionError
        "rollback restored a different extension id");
  let was_enabled := in_state original ExtensionState.ENABLED in
  prog_try (switch_back extension_id restored was_enabled)
    (fun e => _ ← shield_cleanup (_compensate_failed_rollback original restored was_enabled); Raise e).

End lifecycle.
