(* ===== verification/LifecycleSafety.v ===== *)
(** * LifecycleSafety: what is published is being served

    Safety of [LifecycleManager] over the registry of [Extensions.v].  Lifecycle operations of one
    extension run one after the other ([ExtensionSupervisorService] admits one at a time), so the traces
    of single operations, started in the state that the previous one left, are all there is. *)

From S2P Require Import Prelude Text Json JsonRoundTrip Domain Monitor Rely Manifest Extensions Lifecycle.
Local Open Scope string_scope.
Local Open Scope Z_scope.

(** The state a trace is followed in: the registry; the record the worker was started with, and then
    found healthy with; whether it was stopped for sure; the persisted record, when it is known; the
    records whose saving failed; and the purge preview that was looked up. *)
Record life := {
  lv_registry : RegistrySnapshot;
  lv_started : option ExtensionRecord;
  lv_serving : option ExtensionRecord;
  lv_stopped : bool;
  lv_stored : option ExtensionRecord;
  lv_unsaved : list ExtensionRecord;
  lv_purge : option PurgePreview
}.
#[export] Instance life_eta : Eta life := fun m =>
  Build_life (lv_registry m) (lv_started m) (lv_serving m) (lv_stopped m) (lv_stored m) (lv_unsaved m) (lv_purge m).

Definition as_starting (r : ExtensionRecord) : ExtensionRecord := r {{ er_state := ExtensionState.STARTING }}.

(** The operations of the manager on one extension. *)
Inductive life_op :=
| OpEnable | OpRecover | OpDisable (deadline : Z) | OpUninstall | OpPreparePurge
| OpPurge (c : PurgeConfirmation) | OpUpgrade (candidate : ExtensionRecord) | OpRollback.

Section safety.
Context (PURGE_WARNING x : string).

Definition manager_op (op : life_op) : prog lcE (option ExtensionRecord) :=
  let record p := r ← p; Ret (Some r) in
  match op with
  | OpEnable => record (enable x)
  | OpRecover => record (recover x)
  | OpDisable deadline => record (disable x deadline)
  | OpUninstall => record (uninstall x)
  | OpPreparePurge => _ ← prepare_purge PURGE_WARNING x; Ret None
  | OpPurge c => record (purge c)
  | OpUpgrade candidate => record (upgrade x candidate)
  | OpRollback => record (rollback x)
  end.

Definition published (m : life) : option ExtensionRecord := assoc x (rs_extensions (lv_registry m)).

Definition life_next (X : Type) (m : life) (e : lcE X) : result X -> life :=
  let '(Do _ op) := e in
  match op in lcOp X return result X -> life with
  | RegEnable r => fun _ => m {{ lv_registry := (registry_enable r (lv_registry m)).1 }}
  | RegDisable i => fun _ => m {{ lv_registry := (registry_disable i (lv_registry m)).1 }}
  | Start r => fun ans => m {{ lv_started := match ans with Ok _ => Some r | Err _ => None end;
                               lv_serving := None; lv_stopped := false }}
  | Health r => fun ans => match ans with Ok true => m {{ lv_serving := lv_started m }} | _ => m end
  | Stop r => fun ans => m {{ lv_started := None; lv_serving := None;
                              lv_stopped := match ans with Ok _ => true | Err _ => lv_stopped m end }}
  | StoreGet _ => fun ans => match ans with Ok found => m {{ lv_stored := found }} | Err _ => m end
  | StoreSave r => fun ans => match ans with
                              | Ok _ => m {{ lv_stored := Some r }}
                              | Err _ => m {{ lv_stored := None; lv_unsaved := r :: lv_unsaved m }}
                              end
  | PurgesGet _ => fun ans => match ans with Ok found => m {{ lv_purge := found }} | Err _ => m end
  | _ => fun _ => m
  end.

(** What the other side answers: the registry is the one of [Extensions.v]; the store is keyed by
    identifiers and gives back the record that was saved last; a shielded operation is not cancelled. *)
Definition life_may (X : Type) (m : life) (e : lcE X) (ans : result X) : Prop :=
  let '(Do shield op) := e in
  (shield = true -> forall exc, ans = Err exc -> exn_is exc PyException = true) /\
  match op in lcOp X return result X -> Prop with
  | RegEnable r => fun ans => ans = (registry_enable r (lv_registry m)).2
  | RegDisable i => fun ans => ans = (registry_disable i (lv_registry m)).2
  | StoreGet i => fun ans =>
      match ans with
      | Ok (Some r) => er_id r = i /\ (i = x -> lv_stored m = None \/ lv_stored m = Some r)
      | Ok None => i = x -> lv_stored m = None
      | Err _ => True
      end
  | _ => fun _ => True
  end ans.

(** What the manager may do in which state. *)
Definition life_ok (op : life_op) (X : Type) (m : life) (e : lcE X) : Prop :=
  let '(Do shield o) := e in
  match o with
  | RegEnable r => er_id r = x /\ er_state r = ExtensionState.ENABLED /\ published m = None /\
                   lv_serving m = Some (as_starting r)
  | RegDisable i => i = x
  | Start r => er_id r = x /\ published m = None
  | Health r => lv_started m = Some r
  | Stop r => er_id r = x /\ published m = None
  | Activate _ candidate => er_id candidate = x /\ published m = None
  | UninstallCode r => er_id r = x /\ published m = None /\ lv_stopped m = true
  | StoreSave r => er_id r = x /\ (er_state r = ExtensionState.ENABLED -> published m = Some r) /\
                   (er_state r = ExtensionState.QUARANTINED -> published m = None /\ shield = true)
  | PurgeData i =>
      exists c preview r, op = OpPurge c /\ lv_purge m = Some preview /\ lv_stored m = Some r /\ er_id r = i /\
        er_state r = ExtensionState.UNINSTALLED /\ pc_confirmation_nonce c = pp_confirmation_nonce preview /\
        pc_preview_hash c = pp_preview_hash preview /\ blank (pc_actor c) = false
  | Install _ _ | Verify _ _ | Stage _ | RemoveVersion _ | RemoveOrphan _ _ | CleanFailed _ => False
  | _ => True
  end.

(** Between two operations: what the registry publishes is a healthy, running worker, and persisted. *)
Definition serves (m : life) : Prop :=
  snapshot_ok (lv_registry m) /\
  forall r, published m = Some r -> er_id r = x /\ er_state r = ExtensionState.ENABLED /\
    lv_serving m = Some (as_starting r) /\ lv_stored m = Some r.

(** ** The registry *)

Lemma assoc_del_same {A} k (l : list (string * A)) : assoc k (assoc_del k l) = None.
Proof.
  unfold assoc_del. induction l as [|[k' v] l IH]; [done|]. cbn. case_bool_decide as E; cbn; [done|].
  by rewrite bool_decide_eq_false_2 by congruence.
Qed.

Lemma published_id m r : snapshot_ok (lv_registry m) -> published m = Some r ->
  er_id r = x /\ er_state r = ExtensionState.ENABLED.
Proof.
  intros [Hk He Hd _ _]. unfold published. rewrite assoc_In by done. intros Hr. split.
  - rewrite Hk in Hr. apply list_elem_of_fmap in Hr as (r' & [= -> ->] & _). done.
  - rewrite Forall_forall in He. apply He, list_elem_of_fmap. by exists (x, r).
Qed.

Lemma disabled_registry m : snapshot_ok (lv_registry m) ->
  exists s, registry_disable x (lv_registry m) = (s, Ok s) /\ snapshot_ok s /\ assoc x (rs_extensions s) = None.
Proof.
  intros Hs. destruct (registry_disable_ok x _ Hs) as (s & H1 & H2 & _ & H3). exists s. split_and!; [done..|].
  by rewrite H3, assoc_del_same.
Qed.

Lemma enabled_registry m r : snapshot_ok (lv_registry m) -> er_id r = x ->
  (exists s, registry_enable r (lv_registry m) = (s, Ok s) /\ snapshot_ok s /\ assoc x (rs_extensions s) = Some r)
  \/ exists e, registry_enable r (lv_registry m) = (lv_registry m, Err e).
Proof.
  intros Hs <-. destruct (registry_enable_ok r _ Hs) as [(s & H1 & H2 & _ & _ & H3)|He]; [left|by right].
  exists s. split_and!; [done..|]. by rewrite H3, assoc_set_same.
Qed.

Lemma unpublished_serves m : snapshot_ok (lv_registry m) -> published m = None -> serves m.
Proof. intros Hs Hp. split; [done|]. intros r. by rewrite Hp. Qed.

(** ** The operations *)

Section wp.
Context (op : life_op).
Notation lwp := (rwp (life_ok op) life_next life_may).

Lemma shield_lwp {A} (p : prog lcE A) m Q : lwp p m Q -> lwp (shield_cleanup p) m Q.
Proof.
  revert m; induction p as [a|e|X [b o] k IH]; intros m; [done..|].
  cbn [shield_cleanup rwp]. intros [Hok Hk]. split.
  - revert Hok. unfold life_ok. destruct o; try done. naive_solver.
  - intros ans Hans. apply IH.
    assert (life_next X m (Do true o) ans = life_next X m (Do b o) ans) as -> by done. apply Hk.
    destruct Hans as [Hc Hans]. split; [|exact Hans]. intros ->. by apply Hc.
Qed.

(** An operation that only asks. *)
Lemma lwp_await {X} (o : lcOp X) m (Q : life -> result X -> Prop) :
  life_ok op X m (Do false o) -> (forall ans, life_may X m (Do false o) ans -> Q (life_next X m (Do false o) ans) ans) ->
  lwp (await o) m Q.
Proof. apply rwp_perform. Qed.

Lemma lwp_cleanup {X} (o : lcOp X) m (Q : life -> result X -> Prop) :
  life_ok op X m (Do true o) -> (forall ans, life_may X m (Do true o) ans -> Q (life_next X m (Do true o) ans) ans) ->
  lwp (shield_cleanup (await o)) m Q.
Proof. intros Hok HQ. split; [done|]. intros [a|e] Hans; by apply (HQ _ Hans). Qed.

Lemma suppress_lwp classes p m (Q : life -> result unit -> Prop) :
  lwp p m (fun m' _ => forall r, Q m' r) -> lwp (suppress classes p) m Q.
Proof.
  intros H. apply rwp_match. eapply rwp_mono; [exact H|]. intros m' [[]|e] HQ; [apply HQ|].
  destruct (existsb _ _); apply HQ.
Qed.

Lemma run_unit_lwp {X} (p : prog lcE X) m (Q : life -> result unit -> Prop) :
  lwp p m (fun m' r => match r with Ok _ => Q m' (Ok tt) | Err e => Q m' (Err e) end) -> lwp (run_unit p) m Q.
Proof. intros H. apply rwp_bind. exact H. Qed.

(** Revoking: the registry never refuses. *)
Lemma reg_disable_lwp m (Q : life -> result RegistrySnapshot -> Prop) : snapshot_ok (lv_registry m) ->
  (forall m' s, snapshot_ok (lv_registry m') -> published m' = None -> lv_stored m' = lv_stored m ->
     lv_unsaved m' = lv_unsaved m -> Q m' (Ok s)) ->
  lwp (await (RegDisable x)) m Q.
Proof.
  intros Hs HQ. destruct (disabled_registry m Hs) as (s & E & Hs' & Hp). apply lwp_await; [done|].
  intros ans [_ Hans]. cbn in Hans. rewrite E in Hans. subst ans. apply HQ; cbn; [by rewrite E| |done..].
  unfold published. cbn. by rewrite E.
Qed.

Lemma unpublish_lwp starting (pub : bool) e m : er_id starting = x -> snapshot_ok (lv_registry m) ->
  (pub = false -> published m = None) ->
  lwp (unpublish_and_raise starting pub e) m (fun m' res =>
    snapshot_ok (lv_registry m') /\ published m' = None /\ exists e', res = Err e').
Proof.
  intros Hx Hs Hp. unfold unpublish_and_raise. apply rwp_bind.
  assert (lwp (if pub then run_unit (await (RegDisable (er_id starting))) else Ret tt) m
    (fun m' res => snapshot_ok (lv_registry m') /\ published m' = None)) as H1.
  { destruct pub; [|split; [done|by apply Hp]]. rewrite Hx. apply run_unit_lwp, reg_disable_lwp; [done|].
    by intros m' s Hs' Hp' _ _. }
  eapply rwp_mono; [exact H1|]. clear m Hs Hp H1. cbn beta. intros m [[]|e1] [Hs Hp]; [|by split_and!; eauto].
  apply rwp_bind, lwp_cleanup; [done|]. intros [[]|e1] _; [|by split_and!; eauto].
  apply rwp_bind, lwp_cleanup; [by split_and!|].
  intros [b|e1] _; by split_and!; eauto.
Qed.

Lemma start_lwp record m : er_id record = x -> snapshot_ok (lv_registry m) -> published m = None ->
  lwp (_start_and_publish record) m (fun m' res =>
    snapshot_ok (lv_registry m') /\
    match res with
    | Ok r => r = record {{ er_state := ExtensionState.ENABLED }} /\ published m' = Some r /\
        lv_serving m' = Some (as_starting r) /\ lv_stored m' = Some r
    | Err _ => published m' = None
    end).
Proof.
  intros Hx Hs Hp. unfold _start_and_publish. set (starting := record {{ er_state := ExtensionState.STARTING }}).
  set (enabled := starting {{ er_state := ExtensionState.ENABLED }}).
  assert (forall pub e m, snapshot_ok (lv_registry m) -> (pub = false -> published m = None) ->
    lwp (unpublish_and_raise starting pub e) m (fun m' res =>
      snapshot_ok (lv_registry m') /\
      match res with
      | Ok r => r = record {{ er_state := ExtensionState.ENABLED }} /\ published m' = Some r /\
          lv_serving m' = Some (as_starting r) /\ lv_stored m' = Some r
      | Err _ => published m' = None
      end)) as Hfail.
  { clear -Hx. intros pub e m Hs Hp. eapply rwp_mono; [by apply unpublish_lwp|]. cbn beta.
    intros m' res (? & ? & e' & ->). done. }
  apply rwp_bind, lwp_await; [by split_and!|]. intros [b|e] _; [|by split_and!]. apply rwp_match, rwp_bind, lwp_await; [done|].
  intros [[]|e] _; [|by apply Hfail]. apply rwp_bind, lwp_await; [done|].
  intros [healthy|e] _; [|by apply Hfail]. apply rwp_bind. destruct healthy; [|by apply Hfail]. cbn [rwp].
  apply run_unit_lwp, lwp_await; [by split_and!|]. intros ans [_ Hans].
  change (ans = (registry_enable enabled (lv_registry m)).2) in Hans. set (m3 := life_next _ _ _ ans).
  assert (lv_registry m3 = (registry_enable enabled (lv_registry m)).1) as Hm3 by done.
  destruct (enabled_registry m enabled Hs Hx) as [(s & E & Hs' & Hpub)|[e E]]; rewrite E in Hans, Hm3; subst ans; cbn [snd fst] in *.
  - assert (published m3 = Some enabled) as Hp3 by (unfold published; by rewrite Hm3).
    apply rwp_try, rwp_bind, lwp_await; [by split_and!|]. intros [b'|e] _.
    + split; [|by split_and!]. change (snapshot_ok (lv_registry m3)). by rewrite Hm3.
    + apply Hfail; [|done]. change (snapshot_ok (lv_registry m3)). by rewrite Hm3.
  - apply Hfail; [by rewrite Hm3|]. intros _. unfold published. by rewrite Hm3.
Qed.

Lemma require_lwp m : serves m ->
  lwp (_require x) m (fun m' res =>
    serves m' /\ published m' = published m /\
    match res with
    | Ok r => er_id r = x /\ lv_stored m' = Some r /\ (lv_stored m = None \/ lv_stored m = Some r) /\
              (published m = None \/ published m = Some r)
    | Err _ => True
    end).
Proof.
  intros [Hs Hm]. unfold _require. apply rwp_bind, lwp_await; [done|].
  intros [[r|]|e] [_ Hans]; cbn in Hans.
  - destruct Hans as [Hx Hst]. specialize (Hst eq_refl). cbn [rwp].
    assert (published m = None \/ published m = Some r) as Hp.
    { destruct (published m) as [r'|] eqn:E; [right|by left]. destruct (Hm r' eq_refl) as (_ & _ & _ & Hr). rewrite Hr in Hst.
      destruct Hst as [|[= ->]]; done. }
    split; [|by split_and!]. split; [done|]. intros r' Hr'. change (published m = Some r') in Hr'.
    destruct Hp as [Hp|Hp]; rewrite Hp in Hr'; [done|]. injection Hr' as ->. by destruct (Hm r' Hp) as (? & ? & ? & _).
  - specialize (Hans eq_refl). cbn [rwp]. split; [|by split_and!]. split; [done|]. intros r' Hr'. change (published m = Some r') in Hr'.
    destruct (Hm r' Hr') as (_ & _ & _ & Hr). congruence.
  - by split_and!.
Qed.

Lemma require_state_ok r allowed operation u : _require_state r allowed operation = Ok u -> er_state r ∈ allowed.
Proof. unfold _require_state. intros H%raise_if_Ok. bool_props. by apply mem_b_true in H. Qed.

(** A record that is not ENABLED is not published. *)
Lemma not_enabled_unpublished m r : serves m -> published m = None \/ published m = Some r ->
  er_state r <> ExtensionState.ENABLED -> published m = None.
Proof. intros [_ Hm] [Hp|Hp] Hr; [done|]. by destruct (Hm r Hp) as (_ & ? & _). Qed.

Definition started_from (m : life) (r : ExtensionRecord) : Prop :=
  forall r0, lv_stored m = Some r0 -> er_manifest r = er_manifest r0.

Lemma enable_lwp m : serves m ->
  lwp (enable x) m (fun m' res =>
    serves m' /\
    match res with
    | Ok r => published m' = Some r /\ started_from m r
    | Err _ => forall r, published m' = Some r -> published m = Some r
    end).
Proof.
  intros Hm. unfold enable. apply rwp_bind. eapply rwp_mono; [by apply require_lwp|]. cbn beta.
  intros m1 [r|e] (Hm1 & Hp1 & H); [|by rewrite Hp1]. destruct H as (Hx & Hst1 & Hst & Hpub).
  apply rwp_bind, rwp_of_result. destruct (_require_state r _ _) as [[]|e] eqn:E; [|by rewrite Hp1].
  apply require_state_ok in E. assert (published m1 = None) as Hn.
  { eapply not_enabled_unpublished; [done|by rewrite Hp1|]. intros Hr. rewrite Hr in E. set_solver. }
  eapply rwp_mono; [apply start_lwp; [done|by destruct Hm1|done]|]. cbn beta. intros m2 [r2|e] [Hs2 H2].
  - destruct H2 as (-> & Hp2 & Hsv & Hst2). split; [|split; [done|]].
    + split; [done|]. intros r' Hr'. rewrite Hp2 in Hr'. injection Hr' as <-. by split_and!.
    + intros r0 Hr0. destruct Hst as [Hst|Hst]; rewrite Hst in Hr0; [done|]. by injection Hr0 as <-.
  - split; [by apply unpublished_serves|]. intros r'. by rewrite H2.
Qed.

Lemma recover_lwp m : serves m -> published m = None ->
  lwp (recover x) m (fun m' res =>
    serves m' /\
    match res with
    | Ok r => published m' = Some r /\ started_from m r
    | Err _ => published m' = None
    end).
Proof.
  intros Hm Hp. unfold recover. apply rwp_bind. eapply rwp_mono; [by apply require_lwp|]. cbn beta.
  intros m1 [r|e] (Hm1 & Hp1 & H); [|by rewrite Hp1]. destruct H as (Hx & Hst1 & Hst & _).
  apply rwp_bind, rwp_of_result. destruct (_require_state r _ _) as [[]|e] eqn:E; [|by rewrite Hp1].
  eapply rwp_mono; [apply start_lwp; [done|by destruct Hm1|by rewrite Hp1]|]. cbn beta. intros m2 [r2|e] [Hs2 H2].
  - destruct H2 as (-> & Hp2 & Hsv & Hst2). split; [|split; [done|]].
    + split; [done|]. intros r' Hr'. rewrite Hp2 in Hr'. injection Hr' as <-. by split_and!.
    + intros r0 Hr0. destruct Hst as [Hst|Hst]; rewrite Hst in Hr0; [done|]. by injection Hr0 as <-.
  - split; [by apply unpublished_serves|done].
Qed.

(** Once unpublished, stopping and saving other states changes nothing that is published. *)
Definition quiet (m : life) : Prop := snapshot_ok (lv_registry m) /\ published m = None.

Lemma quiet_serves m : quiet m -> serves m.
Proof. intros []. by apply unpublished_serves. Qed.

Lemma drain_lwp r deadline m : er_id r = x -> quiet m ->
  lwp (prog_finally (drain_worker r deadline) (shield_cleanup (await (Stop r)))) m (fun m' _ => quiet m').
Proof.
  intros Hx Hq. assert (forall A (r' : result A) m, quiet m ->
    lwp (shield_cleanup (await (Stop r)) ≫= fun _ => of_result r') m (fun m' _ => quiet m')) as Hstop.
  { clear -Hx. intros A r' m [Hs Hp]. apply rwp_bind, lwp_cleanup; [done|]. intros [[]|e] _; [|done].
    by apply rwp_of_result. }
  apply rwp_match, rwp_match, lwp_await; [done|]. intros [rep|e] _.
  - by apply (Hstop _ (Ok (rep, None))).
  - destruct (exn_is e RpcTimeoutError); [by apply (Hstop _ (Ok (_, _)))|].
    destruct (exn_is e ExtensionError); [by apply (Hstop _ (Ok (_, _)))|by apply (Hstop _ (Err e))].
Qed.

Lemma disable_lwp deadline m : serves m ->
  lwp (disable x deadline) m (fun m' res =>
    serves m' /\
    match res with
    | Ok r => quiet m' /\ er_id r = x /\ er_state r = ExtensionState.DISABLED /\ lv_stored m' = Some r /\ started_from m r
    | Err _ => forall r, published m' = Some r -> published m = Some r
    end).
Proof.
  intros Hm. unfold disable. apply rwp_bind. eapply rwp_mono; [by apply require_lwp|]. cbn beta.
  intros m1 [r|e] (Hm1 & Hp1 & H); [|by rewrite Hp1]. destruct H as (Hx & Hst1 & Hst & Hpub).
  apply rwp_bind, rwp_of_result. destruct (_require_state r _ _) as [[]|e] eqn:E; [|by rewrite Hp1].
  apply rwp_bind, reg_disable_lwp; [by destruct Hm1|]. intros m2 s Hs2 Hp2 Hst2 _.
  assert (forall m', quiet m' ->
    serves m' /\ forall r', published m' = Some r' -> published m = Some r') as Hquiet.
  { intros m' Hq. split; [by apply quiet_serves|]. intros r'. destruct Hq as [_ Hq]. by rewrite Hq. }
  apply rwp_bind, lwp_await; [by split_and!|]. intros [b|e] _; [|by apply Hquiet].
  apply rwp_bind. eapply rwp_mono; [by apply drain_lwp|]. cbn beta. intros m4 [[rep err]|e] Hq; [|by apply Hquiet].
  apply rwp_bind, lwp_cleanup; [by split_and!|]. intros [b'|e] _; [|by apply Hquiet].
  cbn [fst snd]. destruct (drain_outcome rep err); [by apply Hquiet|]. cbn [rwp].
  split; [by apply quiet_serves|]. split_and!; try done.
  intros r0 Hr0. destruct Hst as [Hst|Hst]; rewrite Hst in Hr0; [done|]. by injection Hr0 as <-.
Qed.

Lemma disable_now_lwp m : serves m ->
  lwp (disable_now x) m (fun m' res =>
    serves m' /\
    match res with
    | Ok r => quiet m' /\ er_id r = x /\ er_state r = ExtensionState.DISABLED /\ lv_stored m' = Some r /\ started_from m r
    | Err _ => forall r, published m' = Some r -> published m = Some r
    end).
Proof.
  intros Hm. unfold disable_now. apply rwp_bind, lwp_await; [done|]. intros [now|e] _; [|by split].
  by apply disable_lwp.
Qed.

(** [disable] first where the record is ENABLED. *)
Lemma disable_first_lwp (found : ExtensionRecord) m : serves m -> er_id found = x -> lv_stored m = Some found ->
  lwp (if in_state found ExtensionState.ENABLED then disable_now x else Ret found) m (fun m' res =>
    serves m' /\
    match res with
    | Ok r => quiet m' /\ er_id r = x /\ lv_stored m' = Some r
    | Err _ => forall r, published m' = Some r -> published m = Some r
    end).
Proof.
  intros Hm Hx Hst. unfold in_state. case_bool_decide as E.
  - eapply rwp_mono; [by apply disable_now_lwp|]. cbn beta. intros m' [r|e] [H1 H2]; [|done]. by destruct H2 as (? & ? & _ & ? & _).
  - split; [done|]. split_and!; try done. destruct Hm as [Hs Hm]. split; [done|].
    destruct (published m) as [r|] eqn:Hp; [|done]. destruct (Hm r eq_refl) as (_ & Hen & _ & Hr). congruence.
Qed.

Lemma uninstall_lwp m : serves m ->
  lwp (uninstall x) m (fun m' res =>
    serves m' /\
    match res with
    | Ok r => published m' = None /\ er_state r = ExtensionState.UNINSTALLED /\ lv_stored m' = Some r /\ lv_stopped m' = true
    | Err _ => forall r, published m' = Some r -> published m = Some r
    end).
Proof.
  intros Hm. unfold uninstall. apply rwp_bind. eapply rwp_mono; [by apply require_lwp|]. cbn beta.
  intros m1 [found|e] (Hm1 & Hp1 & H); [|by rewrite Hp1]. destruct H as (Hx & Hst1 & _).
  apply rwp_bind. eapply rwp_mono; [by apply disable_first_lwp|]. cbn beta.
  intros m2 [r|e] [Hm2 H]; [|by rewrite Hp1 in H]. destruct H as (Hq & Hrx & Hst2).
  assert (forall m', quiet m' -> serves m' /\ forall r', published m' = Some r' -> published m = Some r') as Hquiet.
  { intros m' Hq'. split; [by apply quiet_serves|]. intros r'. destruct Hq' as [_ Hq']. by rewrite Hq'. }
  apply rwp_bind, rwp_of_result. destruct (_require_state r _ _) as [[]|e]; [|by apply Hquiet].
  apply rwp_bind, reg_disable_lwp; [by destruct Hq|]. intros m3 s Hs3 Hp3 _ _.
  apply rwp_bind, lwp_await; [by split_and!|]. intros [b|e] _; [|by apply Hquiet].
  apply rwp_bind, lwp_await; [by split_and!|]. intros [[]|e] _; [|by apply Hquiet].
  apply rwp_bind, lwp_await; [by split_and!|]. intros [[]|e] _; [|by apply Hquiet].
  apply rwp_bind, lwp_await; [by split_and!|]. intros [b'|e] _; [|by apply Hquiet].
  split; [by apply quiet_serves|]. by split_and!.
Qed.

Lemma prepare_purge_lwp m : serves m -> lwp (prepare_purge PURGE_WARNING x) m (fun m' _ => serves m').
Proof.
  intros Hm. unfold prepare_purge. apply rwp_bind. eapply rwp_mono; [by apply require_lwp|]. cbn beta.
  intros m1 [r|e] (Hm1 & _ & _); [|done]. apply rwp_bind, rwp_of_result. destruct (_require_state r _ _); [|done].
  apply rwp_bind, lwp_await; [done|]. intros [ns|e] _; [|done]. apply rwp_bind, lwp_await; [done|].
  intros [nonce|e] _; [|done]. apply rwp_bind, rwp_of_result. destruct (_hash_payload _); [|done].
  apply rwp_bind, lwp_await; [done|]. by intros [[]|e] _.
Qed.

Lemma require_keeps_preview m : lwp (_require x) m (fun m' _ => lv_purge m' = lv_purge m).
Proof. apply rwp_bind, lwp_await; [done|]. by intros [[r|]|e] _. Qed.

Lemma purge_lwp c m : op = OpPurge c -> pc_extension_id c = x -> serves m ->
  lwp (purge c) m (fun m' _ => serves m').
Proof.
  intros Hop Hc Hm. unfold purge. rewrite Hc. apply rwp_bind, lwp_await; [done|]. intros [[pv|]|e] _; [|done..].
  destruct (_ || _) eqn:E; [done|]. apply orb_false_iff in E as [[E1 E2]%orb_false_iff E3]. bool_props.
  apply rwp_bind. eapply rwp_mono; [apply rwp_and; [by apply require_lwp|apply require_keeps_preview]|]. cbn beta.
  intros m1 [r|e] [(Hm1 & Hp1 & H) Hpv]; [|done]. destruct H as (Hx & Hst1 & _ & Hpub).
  change (lv_purge m1 = Some pv) in Hpv.
  apply rwp_bind, rwp_of_result. destruct (_require_state r _ _) as [[]|e] eqn:E; [|done].
  apply require_state_ok in E. rewrite list_elem_of_singleton in E.
  assert (quiet m1) as Hq.
  { split; [by destruct Hm1|]. eapply not_enabled_unpublished; [done|by rewrite Hp1|]. by rewrite E. }
  apply rwp_bind, lwp_await; [done|]. intros [[]|e] _; [|done].
  apply rwp_bind, lwp_await; [by exists c, pv, r|]. intros [[]|e] _; [|done].
  apply rwp_bind, lwp_await.
  { split_and!; [done|..]; cbn; by rewrite E. }
  by intros [b|e] _; apply quiet_serves.
Qed.

(** ** Compensation *)

Lemma unsaved_stable r X m (e : lcE X) ans : r ∈ lv_unsaved m -> r ∈ lv_unsaved (life_next X m e ans).
Proof.
  intros Hr. destruct e as [b o]. destruct o; cbn; try done; destruct ans as [a|]; cbn; try done; try (by destruct a).
  by apply list_elem_of_further.
Qed.

Lemma compensate_lwp failed restored was m : snapshot_ok (lv_registry m) -> er_id failed = x -> er_id restored = x ->
  er_state restored = ExtensionState.ROLLED_BACK \/ er_state restored = ExtensionState.DISABLED ->
  lwp (compensate x failed restored was) m (fun m' _ =>
    serves m' /\ forall r, published m' = Some r -> er_manifest r = er_manifest restored \/ restored ∈ lv_unsaved m').
Proof.
  intros Hs Hf Hx Hst. unfold compensate. apply rwp_bind, suppress_lwp, run_unit_lwp, reg_disable_lwp; [done|].
  intros m1 s Hs1 Hp1 _ _. assert (quiet m1) as Hq1 by done. clear m Hs Hs1 Hp1 s.
  assert (forall m', quiet m' -> serves m' /\ forall r, published m' = Some r ->
    er_manifest r = er_manifest restored \/ restored ∈ lv_unsaved m') as Hquiet.
  { intros m' Hq. split; [by apply quiet_serves|]. intros r. destruct Hq as [_ Hq]. by rewrite Hq. }
  intros [[]|e]; [|by apply Hquiet].
  apply rwp_bind, suppress_lwp, lwp_await; [by destruct Hq1|]. intros ans _ [[]|e]; [|by apply Hquiet].
  apply rwp_bind, suppress_lwp, run_unit_lwp, lwp_await; [by split_and!; [|destruct Hst; congruence..]|].
  intros saved _. set (m3 := life_next _ _ _ saved). assert (quiet m3) as Hq3 by (by destruct saved).
  assert (lv_stored m3 = Some restored \/ restored ∈ lv_unsaved m3) as Hsaved.
  { destruct saved as [b|e]; [by left|right]. apply list_elem_of_here. }
  assert (lwp (if was then suppress [PyException] (run_unit (enable x)) else Ret tt) m3 (fun m' _ =>
    serves m' /\ forall r, published m' = Some r -> er_manifest r = er_manifest restored \/ restored ∈ lv_unsaved m')) as H.
  { destruct was; [|by apply Hquiet]. apply suppress_lwp, run_unit_lwp.
    pose proof (enable_lwp m3 (quiet_serves _ Hq3)) as Hen. destruct Hsaved as [Hsv|Hun].
    - eapply rwp_mono; [exact Hen|]. cbn beta. destruct Hq3 as [_ Hp3]. intros m' [r|e] [Hm' H] _; (split; [done|]); intros r' Hr'.
      + destruct H as [Hp H]. rewrite Hp in Hr'. injection Hr' as <-. left. by apply H.
      + apply H in Hr'. by rewrite Hp3 in Hr'.
    - eapply rwp_mono; [apply rwp_stable with (I := fun m => restored ∈ lv_unsaved m); [|done|exact Hen]|].
      { intros. by apply unsaved_stable. }
      cbn beta. intros m' [r|e] [[Hm' _] Hu] _; (split; [done|]); by right. }
  destruct saved as [b|e]; intros [[]|e1]; try exact H; by apply Hquiet.
Qed.

(** ** Switching versions *)

(** A version switch that went through. *)
Definition switched (original target : ExtensionRecord) (m' : life) (r : ExtensionRecord) : Prop :=
  serves m' /\ er_manifest r = er_manifest target /\
  published m' = if in_state original ExtensionState.ENABLED then Some r else None.

Lemma switch_version_lwp original candidate m : serves m -> lv_stored m = Some original -> er_id original = x ->
  er_id candidate = x ->
  lwp (switch_version x original candidate (in_state original ExtensionState.ENABLED)) m (fun m' res =>
    snapshot_ok (lv_registry m') /\ match res with Ok r => switched original candidate m' r | Err _ => True end).
Proof.
  intros Hm Hst Hx Hc. unfold switch_version. apply rwp_bind. eapply rwp_mono; [by apply disable_first_lwp|]. cbn beta.
  intros m1 [current|e] [Hm1 H]; [|by destruct Hm1]. destruct H as (Hq & Hcx & _). assert (Hq' := Hq). destruct Hq' as [Hs1 Hp1].
  apply rwp_bind, lwp_await; [by split_and!|]. intros [b|e] _; [|done].
  apply rwp_bind, lwp_await; [done|]. intros [[]|e] _; [|done].
  apply rwp_bind, lwp_await; [by split_and!|]. intros [b'|e] _; [|done]. unfold switched.
  destruct (in_state original ExtensionState.ENABLED).
  - eapply rwp_mono; [by apply enable_lwp, quiet_serves|]. cbn beta. intros m' [r|e] [Hm' H]; (split; [by destruct Hm'|]); [|done].
    destruct H as [Hp Hf]. split; [done|]. split; [|done]. exact (Hf _ eq_refl).
  - split; [done|]. split; [by apply quiet_serves|done].
Qed.

Lemma switch_back_lwp original restored m : serves m -> lv_stored m = Some original -> er_id original = x ->
  er_id restored = x ->
  lwp (switch_back x restored (in_state original ExtensionState.ENABLED)) m (fun m' res =>
    snapshot_ok (lv_registry m') /\ match res with Ok r => switched original restored m' r | Err _ => True end).
Proof.
  intros Hm Hst Hx Hr. unfold switch_back. apply rwp_bind.
  assert (lwp (if in_state original ExtensionState.ENABLED then run_unit (disable_now x) else Ret tt) m
    (fun m' res => snapshot_ok (lv_registry m') /\ match res with Ok _ => published m' = None | Err _ => True end)) as H1.
  { pose proof (disable_first_lwp original m Hm Hx Hst) as H. destruct (in_state original ExtensionState.ENABLED).
    - apply run_unit_lwp. eapply rwp_mono; [exact H|]. cbn beta. intros m' [r|e] [[? _] H']; [|done]. by destruct H' as ([_ ?] & _).
    - destruct H as [_ ([? ?] & _)]. done. }
  eapply rwp_mono; [exact H1|]. cbn beta. intros m1 [[]|e] [Hs1 Hp1]; [|done].
  apply rwp_bind, lwp_await; [by split_and!|]. intros [b|e] _; [|done]. unfold switched.
  destruct (in_state original ExtensionState.ENABLED).
  - eapply rwp_mono; [by apply start_lwp|]. cbn beta. intros m' [r|e] [Hs' H]; [|done]. destruct H as (-> & Hp & Hsv & Hst').
    split; [done|]. split; [|done]. split; [done|]. intros r' Hr'. rewrite Hp in Hr'. injection Hr' as <-. by split_and!.
  - split; [done|]. split; [by apply quiet_serves|done].
Qed.

(** A failed switch serves the old version or nothing, unless saving the old version's record failed during
    the switch. *)
Definition switch_failed (state : ExtensionState.t) (m m' : life) : Prop :=
  forall r r0, lv_stored m = Some r0 -> published m' = Some r ->
    er_manifest r = er_manifest r0 \/ r0 {{ er_state := state }} ∈ lv_unsaved m'.

Lemma unchanged_switch_failed state m m' : serves m -> published m' = published m -> switch_failed state m m'.
Proof.
  intros [_ Hm] Hp r r0 Hst Hr. rewrite Hp in Hr. destruct (Hm r Hr) as (_ & _ & _ & Hst'). left. congruence.
Qed.

(** [try: switch except BaseException: compensate; raise] *)
Lemma switch_lwp body failed original target state m1 m :
  (state = ExtensionState.ROLLED_BACK \/ state = ExtensionState.DISABLED) -> er_id original = x -> er_id failed = x ->
  (lv_stored m = None \/ lv_stored m = Some original) ->
  lwp body m1 (fun m' res =>
    snapshot_ok (lv_registry m') /\ match res with Ok r => switched original target m' r | Err _ => True end) ->
  lwp (prog_try body (fun e => _ ← shield_cleanup (compensate (er_id original) failed (original {{ er_state := state }})
                                   (in_state original ExtensionState.ENABLED)); Raise e)) m1
    (fun m' res => serves m' /\ match res with Ok r => switched original target m' r | Err _ => switch_failed state m m' end).
Proof.
  intros Hstate Hx Hf Hst Hbody. apply rwp_try. eapply rwp_mono; [exact Hbody|]. cbn beta.
  intros m2 [r|e] [Hs H]; [split; [by destruct H|done]|]. rewrite Hx. apply rwp_bind, shield_lwp.
  eapply rwp_mono; [by apply compensate_lwp|]. cbn beta. intros m3 res [Hm3 Hr].
  assert (switch_failed state m m3) as Hsf.
  { intros r r0 Hr0 Hp. destruct Hst as [Hst|Hst]; rewrite Hst in Hr0; [done|]. injection Hr0 as <-. by apply Hr. }
  destruct res as [[]|e']; by split.
Qed.

Lemma upgrade_lwp candidate m : serves m ->
  lwp (upgrade x candidate) m (fun m' res => serves m' /\
    match res with
    | Ok r => exists original, (lv_stored m = None \/ lv_stored m = Some original) /\ switched original candidate m' r
    | Err _ => switch_failed ExtensionState.ROLLED_BACK m m'
    end).
Proof.
  intros Hm. unfold upgrade. apply rwp_bind. eapply rwp_mono; [by apply require_lwp|]. cbn beta.
  intros m1 [original|e] (Hm1 & Hp1 & H); [|by split; [|apply unchanged_switch_failed]].
  destruct H as (Hx & Hst1 & Hst & _).
  do 3 (apply rwp_bind, rwp_of_result; match goal with |- match ?r with _ => _ end =>
    destruct r as [[]|?] eqn:?; [|by split; [|apply unchanged_switch_failed]] end).
  apply raise_if_Ok in Heqr0. bool_props. unfold _compensate_failed_upgrade. eapply rwp_mono.
  - apply (switch_lwp _ candidate original candidate ExtensionState.ROLLED_BACK m1 m); [by left|done..|by apply switch_version_lwp].
  - cbn beta. intros m' [r|e'] [? ?]; (split; [done|]); [|done]. by exists original.
Qed.

Lemma rollback_lwp m : serves m ->
  lwp (rollback x) m (fun m' res => serves m' /\
    match res with
    | Ok r => exists original target, (lv_stored m = None \/ lv_stored m = Some original) /\ switched original target m' r
    | Err _ => switch_failed ExtensionState.DISABLED m m'
    end).
Proof.
  intros Hm. unfold rollback. apply rwp_bind. eapply rwp_mono; [by apply require_lwp|]. cbn beta.
  intros m1 [original|e] (Hm1 & Hp1 & H); [|by split; [|apply unchanged_switch_failed]].
  destruct H as (Hx & Hst1 & Hst & _). apply rwp_bind, rwp_of_result.
  destruct (_require_state original _ _) as [[]|e]; [|by split; [|apply unchanged_switch_failed]].
  apply rwp_bind, lwp_await; [done|]. intros [restored|e] _; [|by split; [|apply unchanged_switch_failed]].
  apply rwp_bind, rwp_of_result. destruct (raise_if _ _ _) as [[]|e] eqn:E; [|by split; [|apply unchanged_switch_failed]].
  apply raise_if_Ok in E. bool_props. unfold _compensate_failed_rollback. eapply rwp_mono.
  - apply (switch_lwp _ restored original restored ExtensionState.DISABLED m1 m); [by right|done..|by apply switch_back_lwp].
  - cbn beta. intros m' [r|e'] [? ?]; (split; [done|]); [|done]. by exists original, restored.
Qed.
End wp.

(** ** Histories of operations *)

(** When an operation is called: [recover] after a restart, when the registry is empty. *)
Definition admissible (op : life_op) (m : life) : Prop :=
  match op with
  | OpRecover => published m = None
  | OpPurge c => pc_extension_id c = x
  | _ => True
  end.

(** Nothing is published that was not published before. *)
Definition nothing_new (m m' : life) : Prop := forall r, published m' = Some r -> published m = Some r.

Definition outcome (op : life_op) (m : life) (res : result (option ExtensionRecord)) (m' : life) : Prop :=
  match op, res with
  | OpEnable, Ok (Some r) | OpRecover, Ok (Some r) => published m' = Some r /\ started_from m r
  | OpDisable _, Ok (Some r) => published m' = None /\ er_state r = ExtensionState.DISABLED
  | OpUninstall, Ok (Some r) => published m' = None /\ lv_stopped m' = true /\ er_state r = ExtensionState.UNINSTALLED
  | OpUpgrade candidate, Ok (Some r) =>
      er_manifest r = er_manifest candidate /\ (published m <> None -> published m' = Some r)
  | OpRollback, Ok (Some r) => published m <> None -> published m' = Some r
  | OpEnable, Err _ | OpRecover, Err _ | OpDisable _, Err _ | OpUninstall, Err _ => nothing_new m m'
  | OpUpgrade _, Err _ => switch_failed ExtensionState.ROLLED_BACK m m'
  | OpRollback, Err _ => switch_failed ExtensionState.DISABLED m m'
  | _, _ => True
  end.

Lemma switched_served original target m m' r : serves m -> (lv_stored m = None \/ lv_stored m = Some original) ->
  switched original target m' r -> published m <> None -> published m' = Some r.
Proof.
  intros [_ Hm] Hst (_ & _ & ->) Hp. destruct (published m) as [r0|] eqn:E; [|done].
  destruct (Hm r0 eq_refl) as (_ & Hen & _ & Hr). rewrite Hr in Hst. destruct Hst as [|[= ->]]; [done|].
  unfold in_state. by rewrite bool_decide_eq_true_2.
Qed.

Lemma manager_op_lwp op m : serves m -> admissible op m ->
  rwp (life_ok op) life_next life_may (manager_op op) m (fun m' res => serves m' /\ outcome op m res m').
Proof.
  intros Hm Ha. destruct op as [| |deadline| | |c|candidate|]; cbn [manager_op].
  - apply rwp_bind. eapply rwp_mono; [by apply enable_lwp|]. by intros m' [r|e] [? ?].
  - apply rwp_bind. eapply rwp_mono; [by apply recover_lwp|]. cbn beta. intros m' [r|e] [? ?]; [done|].
    split; [done|]. intros r. cbn in *. congruence.
  - apply rwp_bind. eapply rwp_mono; [by apply disable_lwp|]. cbn beta. intros m' [r|e] [? H]; [|done].
    destruct H as ([_ ?] & _ & ? & _). by split.
  - apply rwp_bind. eapply rwp_mono; [by apply uninstall_lwp|]. cbn beta. intros m' [r|e] [? H]; [|done].
    destruct H as (? & ? & _ & ?). by split_and!.
  - apply rwp_bind. eapply rwp_mono; [by apply prepare_purge_lwp|]. by intros m' [r|e] ?.
  - apply rwp_bind. eapply rwp_mono; [by apply purge_lwp|]. by intros m' [r|e] ?.
  - apply rwp_bind. eapply rwp_mono; [by apply upgrade_lwp|]. cbn beta. intros m' [r|e] [? H]; [|done].
    destruct H as (original & Hst & Hsw). split; [done|]. split; [by destruct Hsw as (_ & ? & _)|]. exact (switched_served _ _ _ _ _ Hm Hst Hsw).
  - apply rwp_bind. eapply rwp_mono; [by apply rollback_lwp|]. cbn beta. intros m' [r|e] [? H]; [|done].
    destruct H as (original & target & Hst & Hsw). split; [done|]. exact (switched_served _ _ _ _ _ Hm Hst Hsw).
Qed.

(** One operation of the manager, with answers of the registry, the store and the ports.  [lv_unsaved] holds
    the failed saves of one operation. *)
Definition operation (m m' : life) : Prop :=
  exists op tr res, admissible op m /\ execs (manager_op op) tr res /\ answered life_next life_may m tr /\
    m' = (after life_next m tr) {{ lv_unsaved := [] }}.

Definition host_started (stored : option ExtensionRecord) : life :=
  {| lv_registry := empty_registry; lv_started := None; lv_serving := None; lv_stopped := true;
     lv_stored := stored; lv_unsaved := []; lv_purge := None |}.

Lemma operations_serve stored m : star operation (host_started stored) m -> serves m.
Proof.
  intros H. eapply star_invariant; [|exact H|].
  - intros m1 m2 (op & tr & res & Ha & Hx & Hans & ->) Hm1.
    by destruct (rwp_execs _ _ _ _ _ _ _ _ (manager_op_lwp op m1 Hm1 Ha) Hx Hans) as [_ []].
  - split; [apply empty_registry_ok|done].
Qed.

(** C40. An extension is published only while its worker serves.  After any history of enabling,
    recovering, disabling, uninstalling, purging, upgrading and rolling back one extension, with any
    failures and cancellations: what the registry publishes is the persisted, ENABLED record of a worker
    that was started, found healthy and not stopped since.  In every trace of the next operation the
    registry is handed exactly such a record; a worker is started or stopped, a version activated and
    code removed only while nothing is published, code only after a successful stop; a quarantine is
    recorded in a shielded cleanup; and data is purged only for an uninstalled extension under a
    confirmation that matches the preview.  A failed operation publishes nothing new, except a failed upgrade
    or rollback: it may bring back the version it started from, and, when the save of the old version's record
    failed during that operation, it may publish the other version instead.  Unless that save failed, the
    other version is not published after a failed upgrade or rollback. *)
Theorem published_extensions_are_served stored m op tr res :
  star operation (host_started stored) m -> admissible op m -> execs (manager_op op) tr res ->
  answered life_next life_may m tr ->
  watched (life_ok op) life_next m tr /\ serves (after life_next m tr) /\ outcome op m res (after life_next m tr).
Proof.
  intros Hm Ha Hx Hans. apply operations_serve in Hm.
  exact (rwp_execs _ _ _ _ _ _ _ _ (manager_op_lwp op m Hm Ha) Hx Hans).
Qed.

End safety.

(** ** A failed upgrade *)

Module LifecycleScenario.

Definition manifest (version : string) : ExtensionManifest :=
  {| em_root := "/ext"; em_manifest_version := "1"; em_id := "nju.smail"; em_name := "Mail"; em_version := version;
     em_core_api := ">=1"; em_python := ">=3.12"; em_entrypoint := "mail:main"; em_dependency_lock := "lock";
     em_config_schema := None; em_state_schema_version := 1; em_healthcheck := "ping";
     em_tools := [{| mt_id := "mail.send"; mt_risk := "EXTERNAL_WRITE"; mt_input_schema := "i"; mt_output_schema := "o";
                     mt_capabilities := [] |}];
     em_event_sources := []; em_context_providers := []; em_workflows := []; em_schedules := [];
     em_notifications := []; em_migrations := []; em_forms := [];
     em_capabilities := {| dcap_required := []; dcap_optional := [] |} |}.

Definition installed (version : string) : ExtensionRecord :=
  new_record (manifest version) "sha256:0" ExtensionState.INSTALLED_DISABLED (Some "/ext").

(** Ports that succeed, except that version 2.0.0 is never healthy. *)
Definition answer_of (X : Type) (m : life) (op : lcOp X) : result X :=
  match op in lcOp X return result X with
  | RegEnable r => (registry_enable r (lv_registry m)).2
  | RegDisable i => (registry_disable i (lv_registry m)).2
  | StoreGet i => match lv_stored m with
                  | Some r => if bool_decide (er_id r = i) then Ok (Some r) else fail PyRuntimeError "store"
                  | None => Ok None
                  end
  | StoreSave _ => Ok true
  | Start _ | Stop _ | UninstallCode _ | Activate _ _ | PurgeData _ => Ok tt
  | Health r => Ok (negb (bool_decide (er_version r = "2.0.0")))
  | Drain _ _ => Ok None
  | Clock => Ok (minutes 5)
  | _ => fail PyRuntimeError "not used"
  end.

Definition answer (X : Type) (e : lcE X) : M life X := fun m =>
  let '(Do _ op) := e in (life_next X m e (answer_of X m op), answer_of X m op).

Lemma answer_may X (e : lcE X) m :
  exists ans, answer X e m = (life_next X m e ans, ans) /\ life_may "nju.smail" X m e ans.
Proof.
  destruct e as [b o]. exists (answer_of X m o). split; [done|]. split.
  - intros _ exc H. destruct o; cbn in H; try discriminate H; try (by injection H as <-).
    + destruct (lv_stored m); [|discriminate]. case_bool_decide; [discriminate|]. by injection H as <-.
    + unfold registry_enable in H. destruct (negb _); [by injection H as <-|]. unfold publish in H.
      destruct (_build _ _) as [|e] eqn:E; [discriminate|]. injection H as <-. by eapply build_error.
    + unfold registry_disable, publish in H. destruct (_build _ _) as [|e] eqn:E; [discriminate|]. injection H as <-.
      by eapply build_error.
  - destruct o; cbn; try done. destruct (lv_stored m) as [r|]; [|done]. case_bool_decide; [|done]. split; [done|]. by right.
Qed.

Definition started : life := host_started (Some (installed "1.0.0")).
Definition enabled : life := (run answer (manager_op "" "nju.smail" OpEnable) started).1.
Definition upgrade_op : life_op := OpUpgrade (installed "2.0.0").
Definition upgraded : life := (run answer (manager_op "" "nju.smail" upgrade_op) enabled).1.

End LifecycleScenario.

Lemma published_extensions_are_served_witness :
  exists tr e, execs (manager_op "" "nju.smail" LifecycleScenario.upgrade_op) tr (Err e) /\
    exn_ref e = Some "HEALTHCHECK_FAILED" /\
    published "nju.smail" (after life_next LifecycleScenario.enabled tr)
    = Some ((LifecycleScenario.installed "1.0.0") {{ er_state := ExtensionState.ENABLED }}) /\
    watched (life_ok "nju.smail" LifecycleScenario.upgrade_op) life_next LifecycleScenario.enabled tr.
Proof.
  set (op := LifecycleScenario.upgrade_op).
  pose proof (trace_run_execs LifecycleScenario.answer (manager_op "" "nju.smail" op) LifecycleScenario.enabled) as Hx.
  destruct (trace_run_answered _ _ LifecycleScenario.answer (manager_op "" "nju.smail" op) LifecycleScenario.enabled
    LifecycleScenario.answer_may) as [Hans Hafter].
  destruct (trace_run_answered _ _ LifecycleScenario.answer (manager_op "" "nju.smail" OpEnable) LifecycleScenario.started
    LifecycleScenario.answer_may) as [Hans0 Hafter0].
  assert ((trace_run LifecycleScenario.answer (manager_op "" "nju.smail" op) LifecycleScenario.enabled).2
    = Err (op_error "HEALTHCHECK_FAILED" "extension healthcheck failed")) as Hres by (vm_compute; reflexivity).
  rewrite Hres in Hx. do 2 eexists. split; [exact Hx|]. split; [reflexivity|]. split.
  - rewrite Hafter. vm_compute. reflexivity.
  - assert (operation "" "nju.smail" LifecycleScenario.started LifecycleScenario.enabled) as Hop.
    { eexists OpEnable, _, _. split; [exact I|]. split; [|split; [exact Hans0|]].
      - apply trace_run_execs.
      - rewrite Hafter0. vm_compute. reflexivity. }
    exact (proj1 (published_extensions_are_served "" "nju.smail" (Some (LifecycleScenario.installed "1.0.0"))
      LifecycleScenario.enabled op _ _ (star_one _ _ _ Hop) I Hx Hans)).
Defined.
