(* ===== verification/InstallBarrier.v ===== *)
(** * InstallBarrier: no extension code runs before an exact confirmation

    Safety of [InstallCoordinator]: what its traces may contain, and that a failed installation is
    cleaned up.  Ports answer anything; a shielded cleanup is not cancelled, and discarding a staged
    tree fails only with an [ExtensionError] or an [OSError], the errors [_discard_staged] expects. *)

From S2P Require Import Prelude Text Json Domain Monitor Rely Manifest Extensions Lifecycle LifecycleSafety.
Local Open Scope string_scope.
Local Open Scope Z_scope.

(** What a trace has shown so far: the plan that was looked up, the clock, the last computed hash and
    the last parsed manifest with their directory, the stored record, whether the plan was consumed,
    the installed artifact and its verification, and the steps of the cleanup. *)
Record barrier := {
  br_plan : option _PendingInstall;
  br_now : option Z;
  br_hash : option (string * string);
  br_parsed : option (string * ExtensionManifest);
  br_current : option ExtensionRecord;
  br_consumed : bool;
  br_installed : option InstalledArtifact;
  br_verified : bool;
  br_removed : bool;
  br_cleaned : bool;
  br_discarded : bool;
  br_saved : option ExtensionRecord
}.
#[export] Instance barrier_eta : Eta barrier := fun m =>
  Build_barrier (br_plan m) (br_now m) (br_hash m) (br_parsed m) (br_current m) (br_consumed m) (br_installed m)
    (br_verified m) (br_removed m) (br_cleaned m) (br_discarded m) (br_saved m).

Definition nothing_seen : barrier :=
  {| br_plan := None; br_now := None; br_hash := None; br_parsed := None; br_current := None; br_consumed := false;
     br_installed := None; br_verified := false; br_removed := false; br_cleaned := false; br_discarded := false;
     br_saved := None |}.

Definition answered_with {A} (ans : result A) : option A := match ans with Ok a => Some a | Err _ => None end.

Definition bar_next (X : Type) (m : barrier) (e : lcE X) : result X -> barrier :=
  let '(Do _ op) := e in
  match op in lcOp X return result X -> barrier with
  | PlanGet _ => fun ans => m {{ br_plan := match ans with Ok p => p | Err _ => None end }}
  | Clock => fun ans => m {{ br_now := answered_with ans }}
  | ComputeHash root => fun ans => m {{ br_hash := match ans with Ok h => Some (root, h) | Err _ => None end }}
  | ParseManifest root => fun ans => m {{ br_parsed := match ans with Ok x => Some (root, x) | Err _ => None end }}
  | StoreGet _ => fun ans => m {{ br_current := match ans with Ok r => r | Err _ => None end }}
  | PlanConsume _ => fun _ => m {{ br_consumed := true }}
  | Install _ _ => fun ans => m {{ br_installed := answered_with ans }}
  | Verify _ _ => fun ans => m {{ br_verified := match ans with Ok _ => true | Err _ => false end }}
  | RemoveVersion _ => fun _ => m {{ br_removed := true }}
  | CleanFailed _ => fun _ => m {{ br_cleaned := true }}
  | Discard _ => fun _ => m {{ br_discarded := true }}
  | StoreSave r => fun _ => m {{ br_saved := Some r }}
  | _ => fun _ => m
  end.

Definition bar_may (X : Type) (m : barrier) (e : lcE X) (ans : result X) : Prop :=
  let '(Do shield op) := e in
  (shield = true -> forall exc, ans = Err exc -> exn_is exc PyException = true) /\
  match op with
  | Discard _ => forall exc, ans = Err exc ->
      existsb (exn_is exc) [ExtensionError; PyOSError] = true \/ exn_is exc PyException = false
  | PlanConsume _ => is_ok ans = true
  | _ => True
  end.

(** ** Previews *)

Section previews.
Context (TRUST_WARNING : string) (ttl : Z).

(** A plan shows exactly what was staged, hashed and parsed. *)
Definition previewed (m : barrier) (plan_id : string) (plan : _PendingInstall) : Prop :=
  let preview := pi_preview plan in
  let staged := pi_staged plan in
  plan_id = ip_plan_id preview /\ pi_consumed plan = false /\
  ip_artifact_hash preview = sa_artifact_hash staged /\
  br_hash m = Some (sa_root staged, sa_artifact_hash staged) /\
  br_parsed m = Some (sa_root staged, pi_manifest plan) /\
  exists now, br_now m = Some now /\ ip_expires_at preview = now + ttl /\
    _hash_payload (preview_body TRUST_WARNING plan_id (ip_confirmation_nonce preview) staged (pi_manifest plan)
      (ip_expires_at preview) (ip_mode preview) (ip_replaces_version preview)) = Ok (ip_preview_hash preview).

(** What staging may do: nothing that runs the extension's code. *)
Definition static_ok (X : Type) (m : barrier) (e : lcE X) : Prop :=
  let '(Do _ op) := e in
  match op with
  | PlanPut plan_id plan => previewed m plan_id plan
  | StoreSave r => er_state r = ExtensionState.STAGED
  | Stage _ | Discard _ | ComputeHash _ | ParseManifest _ | StoreGet _ | PlanPop _ | PlansOf _ | PlanConsume _
  | Clock | Token => True
  | _ => False
  end.

Notation swp := (rwp static_ok bar_next bar_may).

(** Operations that [previewed] does not depend on. *)
Definition same_view (m m' : barrier) : Prop :=
  br_hash m' = br_hash m /\ br_parsed m' = br_parsed m /\ br_now m' = br_now m.

Lemma swp_await {X} (o : lcOp X) m (Q : barrier -> result X -> Prop) :
  static_ok X m (Do false o) -> (forall ans, bar_may X m (Do false o) ans -> Q (bar_next X m (Do false o) ans) ans) ->
  swp (await o) m Q.
Proof. apply rwp_perform. Qed.

Lemma drop_plans_swp ids m : swp (drop_plans ids) m (fun m' _ => same_view m m').
Proof.
  revert m; induction ids as [|i ids IH]; intros m; cbn [drop_plans]; [done|].
  assert (forall m1 (res : result unit), same_view m m1 -> swp (_ ← of_result res; drop_plans ids) m1 (fun m' _ => same_view m m')) as Hrest.
  { intros m1 [[]|e] (H1 & H2 & H3); [|done]. apply rwp_bind. cbn [rwp of_result].
    eapply rwp_mono; [apply IH|]. cbn beta. intros m2 _ (? & ? & ?). unfold same_view. split_and!; congruence. }
  apply rwp_bind, swp_await; [done|]. intros [[p|]|e] _; [|by apply (Hrest _ (Ok tt))|done].
  destruct (pi_consumed p); [by apply (Hrest _ (Ok tt))|]. apply rwp_bind, rwp_bind, swp_await; [done|].
  intros [[]|e] _; [|done]. apply rwp_match, swp_await; [done|]. intros [[]|e] _.
  - by apply (Hrest _ (Ok tt)).
  - destruct (existsb _ _); [by apply (Hrest _ (Ok tt))|done].
Qed.

Lemma inspect_swp staged mode m :
  swp (inspect_staged TRUST_WARNING staged mode ttl) m (fun m' res =>
    br_hash m' = br_hash m /\
    match res with
    | Ok (manifest, mode, preview) =>
        br_hash m = Some (sa_root staged, sa_artifact_hash staged) ->
        previewed m' (ip_plan_id preview)
          {| pi_staged := staged; pi_manifest := manifest; pi_preview := preview; pi_consumed := false |}
    | Err _ => True
    end).
Proof.
  unfold inspect_staged, _make_install_preview. apply rwp_bind, swp_await; [done|]. intros [manifest|e] _; [|done].
  apply rwp_bind, swp_await; [done|]. intros [existing|e] _; [|done].
  apply rwp_bind, rwp_of_result. destruct (plan_mode mode existing manifest) as [[md replaces]|e]; [|done].
  apply rwp_bind, swp_await; [done|]. intros [now|e] _; [|done]. cbn [fst snd].
  apply rwp_bind, rwp_bind, swp_await; [done|]. intros [token|e] _; [|done].
  apply rwp_bind, swp_await; [done|]. intros [nonce|e] _; [|done].
  apply rwp_bind, rwp_of_result. destruct (_hash_payload _) as [h|e] eqn:E; [|done]. cbn [rwp].
  split; [done|]. intros Hh. split_and!; [done..|]. exists now. split_and!; [done..|]. exact E.
Qed.

Lemma prepare_swp source mode m : swp (_prepare TRUST_WARNING source mode ttl) m (fun _ _ => True).
Proof.
  unfold _prepare. apply rwp_bind, swp_await; [done|]. intros [staged|e] _; [|done].
  apply rwp_bind, swp_await; [done|]. intros [h|e] _; [|done]. case_bool_decide as Eh; cbn [negb].
  2:{ apply rwp_bind, swp_await; [done|]. by intros [[]|e] _. }
  subst h. apply rwp_match. eapply rwp_mono; [apply inspect_swp|]. cbn beta. intros m1 [[[manifest md] preview]|e] [Hh H].
  - specialize (H eq_refl). apply rwp_bind, rwp_bind, swp_await; [done|]. intros [stale|e] _; [|done].
    eapply rwp_mono; [apply drop_plans_swp|]. cbn beta. intros m2 [[]|e] Hv; [|done].
    apply rwp_bind, swp_await.
    { destruct Hv as (E1 & E2 & E3). destruct H as (? & ? & ? & ? & ? & ?).
      cbn [static_ok]. unfold previewed. rewrite E1, E2, E3. by split_and!. }
    intros [[]|e] _; [|done]. apply rwp_bind. case_bool_decide; [|done]. apply rwp_bind, swp_await; [done|]. by intros [b|e] _.
  - destruct (exn_is e PyException); [|done]. apply rwp_bind, swp_await; [done|]. by intros [[]|e'] _.
Qed.

End previews.

(** ** Shielded cleanups *)

(** Every operation as it is performed inside of a shielded task. *)
Definition in_shield {St R} (f : forall X, St -> lcE X -> R X) (X : Type) (m : St) (e : lcE X) : R X :=
  let '(Do _ op) := e in f X m (Do true op).

Lemma shield_rwp {St} ok (next : forall X, St -> lcE X -> result X -> St) may {A} (p : prog lcE A) m Q :
  rwp (in_shield ok) (in_shield next) (in_shield may) p m Q -> rwp ok next may (shield_cleanup p) m Q.
Proof.
  revert m; induction p as [a|e|X [b o] k IH]; intros m; [done..|]. cbn [shield_cleanup rwp in_shield].
  intros [Hok Hk]. split; [done|]. intros ans Hans. by apply IH, Hk.
Qed.

(** ** Execution *)

Definition confirmed (preview : InstallationPreview) (c : InstallationConfirmation) (now : Z) : Prop :=
  ic_accepted_warning c = true /\ blank (ic_actor c) = false /\
  ic_plan_id c = ip_plan_id preview /\ ic_confirmation_nonce c = ip_confirmation_nonce preview /\
  ic_preview_hash c = ip_preview_hash preview /\
  ic_confirmed_at c <= now + minutes 1 /\ ic_confirmed_at c <= ip_expires_at preview /\ now <= ip_expires_at preview.

(** The active version is the one the upgrade was planned against, and older. *)
Definition baseline_holds (plan : _PendingInstall) (r : ExtensionRecord) : Prop :=
  er_state r <> ExtensionState.UNINSTALLED /\ ip_replaces_version (pi_preview plan) = Some (er_version r) /\
  semver_le (em_version (pi_manifest plan)) (er_version r) = false /\
  em_state_schema_version (er_manifest r) <= em_state_schema_version (pi_manifest plan).

Section execution.
Context (plan_id : string) (confirmation : option InstallationConfirmation) (mode : string) (persist : bool).

(** The plan has passed the barrier. *)
Record cleared (m : barrier) (plan : _PendingInstall) : Prop := {
  cl_plan : br_plan m = Some plan;
  cl_fresh : pi_consumed plan = false;
  cl_mode : ip_mode (pi_preview plan) = mode;
  cl_confirmed : exists c now, confirmation = Some c /\ br_now m = Some now /\ confirmed (pi_preview plan) c now;
  cl_hash : br_hash m = Some (sa_root (pi_staged plan), ip_artifact_hash (pi_preview plan));
  cl_baseline : mode = "upgrade" -> exists r, br_current m = Some r /\ baseline_holds plan r;
  cl_consumed : br_consumed m = true
}.

Definition rejected_record (plan : _PendingInstall) : ExtensionRecord :=
  new_record (pi_manifest plan) (sa_artifact_hash (pi_staged plan)) ExtensionState.REJECTED None.

Definition exec_ok (X : Type) (m : barrier) (e : lcE X) : Prop :=
  let '(Do shield op) := e in
  match op with
  | RemoveOrphan i v => mode = "install" /\ exists plan, cleared m plan /\ i = em_id (pi_manifest plan) /\
                        v = em_version (pi_manifest plan)
  | Install staged manifest => exists plan, cleared m plan /\ staged = pi_staged plan /\ manifest = pi_manifest plan
  | Verify installed manifest => exists plan, cleared m plan /\ manifest = pi_manifest plan /\
                                 br_installed m = Some installed
  | StoreSave r => persist = true /\ exists plan, cleared m plan /\
      ((exists i, br_installed m = Some i /\ br_verified m = true /\ r = installed_record plan i)
       \/ (shield = true /\ r = rejected_record plan))
  | RemoveVersion r => shield = true /\ exists plan i, cleared m plan /\ br_installed m = Some i /\
                       r = installed_record plan i
  | CleanFailed staged => shield = true /\ exists plan, cleared m plan /\ staged = pi_staged plan
  | PlanGet i => i = plan_id
  | PlanPop _ | Discard _ | ComputeHash _ | StoreGet _ | PlanConsume _ | Clock => True
  | _ => False
  end.

Notation ewp := (rwp exec_ok bar_next bar_may).

(** Everything an installation could have left behind was removed. *)
Definition cleaned_up (m : barrier) (plan : _PendingInstall) : Prop :=
  br_cleaned m = true /\ br_discarded m = true /\ (br_installed m <> None -> br_removed m = true) /\
  (persist = true -> br_saved m = Some (rejected_record plan)).

Lemma ewp_await {X} (o : lcOp X) m (Q : barrier -> result X -> Prop) :
  exec_ok X m (Do false o) -> (forall ans, bar_may X m (Do false o) ans -> Q (bar_next X m (Do false o) ans) ans) ->
  ewp (await o) m Q.
Proof. apply rwp_perform. Qed.

(** A step of the cleanup whose errors are suppressed. *)
Lemma cleanup_step classes (o : lcOp unit) m (Q : barrier -> result unit -> Prop) :
  exec_ok unit m (Do true o) ->
  (forall ans e, bar_may unit m (Do true o) ans -> ans = Err e -> existsb (exn_is e) classes = true) ->
  (forall ans, Q (bar_next unit m (Do true o) ans) (Ok tt)) ->
  rwp (in_shield exec_ok) (in_shield bar_next) (in_shield bar_may) (suppress classes (await o)) m Q.
Proof.
  intros Hok Hsup HQ. apply rwp_match, rwp_perform; [done|]. intros [[]|e] Hans; [by apply HQ|].
  rewrite (Hsup _ e Hans eq_refl). by apply HQ.
Qed.

Lemma shielded_is_exception {X} m (o : lcOp X) ans e : bar_may X m (Do true o) ans -> ans = Err e ->
  existsb (exn_is e) [PyException] = true.
Proof. intros [H _] He. apply orb_true_iff. left. by apply H. Qed.

Lemma discard_expected m staged ans e : bar_may unit m (Do true (Discard staged)) ans -> ans = Err e ->
  existsb (exn_is e) [ExtensionError; PyOSError] = true.
Proof. intros [H1 H2] He. destruct (H2 e He) as [H|H]; [done|]. by rewrite (H1 eq_refl e He) in H. Qed.

(** Steps that touch nothing the barrier was passed with. *)
Definition same_barrier (m m' : barrier) : Prop :=
  br_plan m' = br_plan m /\ br_now m' = br_now m /\ br_hash m' = br_hash m /\ br_current m' = br_current m /\
  br_consumed m' = br_consumed m.

Lemma cleared_same m m' plan : same_barrier m m' -> cleared m plan -> cleared m' plan.
Proof.
  intros (E1 & E2 & E3 & E4 & E5) [H1 H2 H3 H4 H5 H6 H7]. split; try congruence.
  - by rewrite E2.
  - by rewrite E4.
Qed.

Lemma abort_ewp plan installed e m : cleared m plan -> br_installed m = installed ->
  ewp (abort_and_raise plan installed persist e) m (fun m' res => res = Err e /\ cleaned_up m' plan).
Proof.
  intros Hc Hi. unfold abort_and_raise. apply rwp_bind, shield_rwp. unfold _abort_install. apply rwp_bind.
  assert (rwp (in_shield exec_ok) (in_shield bar_next) (in_shield bar_may)
    (match installed with
     | Some i => suppress [PyException] (await (RemoveVersion (installed_record plan i)))
     | None => Ret tt
     end) m (fun m' res => res = Ok tt /\ cleared m' plan /\ br_installed m' = installed /\
               (installed <> None -> br_removed m' = true))) as H1.
  { destruct installed as [i|]; [|by split_and!]. apply cleanup_step.
    - split; [done|]. by exists plan, i.
    - intros ans e'. apply shielded_is_exception.
    - intros ans. split_and!; [done| |done..]. eapply cleared_same; [|exact Hc]. by split_and!. }
  eapply rwp_mono; [exact H1|]. cbn beta. clear Hc Hi H1 m. intros m res (-> & Hc & Hi & Hr).
  apply rwp_bind, cleanup_step; [split; [done|]; by exists plan|intros ans e'; apply shielded_is_exception|].
  intros ans. apply rwp_bind, cleanup_step; [done|intros ans' e'; apply discard_expected|]. intros ans'.
  set (m2 := bar_next _ _ _ ans'). assert (cleared m2 plan) as Hc2.
  { eapply cleared_same; [|exact Hc]. by split_and!. }
  destruct persist eqn:Hp.
  - apply rwp_match, rwp_bind, rwp_perform; [split; [done|]; exists plan; split; [done|by right]|].
    rewrite <- Hi in Hr. intros [b|e'] Hans; cbn beta iota.
    + cbn [rwp]. split; [done|]. unfold cleaned_up. by split_and!.
    + rewrite (shielded_is_exception m2 (StoreSave (rejected_record plan)) _ e' Hans eq_refl). cbn [rwp]. split; [done|]. unfold cleaned_up. by split_and!.
  - cbn [rwp]. split; [done|]. unfold cleaned_up. rewrite <- Hi in Hr. split_and!; [done..|congruence].
Qed.

Definition finished (m : barrier) (r : ExtensionRecord) : Prop :=
  exists plan i, cleared m plan /\ br_installed m = Some i /\ br_verified m = true /\ br_discarded m = true /\
    r = installed_record plan i /\ (persist = true -> br_saved m = Some r).

(** The outcome of a consumed plan. *)
Definition executed (m : barrier) (res : result ExtensionRecord) : Prop :=
  match res with
  | Ok r => finished m r
  | Err _ => exists plan, pi_consumed plan = false /\ cleaned_up m plan
  end.

Lemma aborted plan installed e m : cleared m plan -> br_installed m = installed ->
  ewp (abort_and_raise plan installed persist e) m executed.
Proof.
  intros Hc Hi. eapply rwp_mono; [by apply abort_ewp|]. cbn beta. intros m' res [-> H]. exists plan.
  split; [|done]. by destruct Hc.
Qed.

Lemma finish_ewp plan i m : cleared m plan -> br_installed m = Some i ->
  ewp (prog_try (finish_install plan i persist) (abort_and_raise plan (Some i) persist)) m executed.
Proof.
  intros Hc Hi. apply rwp_try. unfold finish_install.
  assert (forall m', same_barrier m m' -> cleared m' plan) as Hcl by (intros m' Hs; by eapply cleared_same).
  apply rwp_bind, ewp_await; [by exists plan|]. intros [[]|e] _; [|apply aborted; [apply Hcl; by split_and!|done]].
  apply rwp_bind, rwp_match, ewp_await; [done|].
  assert (forall ans, ewp (_ ← (if persist then run_unit (await (StoreSave (installed_record plan i))) else Ret tt);
      Ret (installed_record plan i))
    (bar_next unit (bar_next unit m (Do false (Verify i (pi_manifest plan))) (Ok tt)) (Do false (Discard (pi_staged plan))) ans)
    (fun m' r => match r with Ok a => executed m' (Ok a)
                 | Err e => ewp (abort_and_raise plan (Some i) persist e) m' executed end)) as Hrest.
  { intros ans. apply rwp_bind. set (m2 := bar_next _ _ _ ans). assert (cleared m2 plan) as Hc2 by (apply Hcl; by split_and!).
    destruct persist eqn:Hp.
    - apply rwp_bind, ewp_await; [split; [done|]; exists plan; split; [done|]; left; by exists i|].
      rewrite <- Hp. intros [b|e] _; [|apply aborted; [apply Hcl; by split_and!|done]].
      exists plan, i. split_and!; try done. apply Hcl. by split_and!.
    - exists plan, i. split_and!; [done..|congruence]. }
  intros [[]|e] _; [by apply (Hrest (Ok tt))|]. destruct (existsb _ _); [by apply (Hrest (Err e))|].
  apply aborted; [apply Hcl; by split_and!|done].
Qed.

Lemma run_install_ewp plan m : cleared m plan -> br_installed m = None ->
  ewp (run_install plan mode persist) m executed.
Proof.
  intros Hc Hi. unfold run_install.
  assert (forall m', same_barrier m m' -> cleared m' plan) as Hcl by (intros m' Hs; by eapply cleared_same).
  assert (forall m', same_barrier m m' -> br_installed m' = None ->
    ewp (await (Install (pi_staged plan) (pi_manifest plan))) m' (fun m' r => match r with
      | Ok i => ewp (prog_try (finish_install plan i persist) (abort_and_raise plan (Some i) persist)) m' executed
      | Err e => ewp (abort_and_raise plan None persist e) m' executed end)) as Hinst.
  { intros m' Hs Hi'. apply Hcl in Hs. apply ewp_await; [by exists plan|]. intros [i|e] _.
    - apply finish_ewp; [|done]. eapply cleared_same; [|exact Hs]. by split_and!.
    - apply aborted; [|done]. eapply cleared_same; [|exact Hs]. by split_and!. }
  apply rwp_match, rwp_bind. case_bool_decide as E; [|apply Hinst; [by split_and!|done]].
  apply ewp_await; [split; [done|by exists plan]|]. intros [[]|e] _; [apply Hinst; [by split_and!|done]|].
  apply aborted; [apply Hcl; by split_and!|done].
Qed.

(** Before the plan is consumed. *)
Definition idle (m : barrier) : Prop := br_consumed m = false /\ br_installed m = None /\ br_saved m = None.

Lemma validate_ewp preview m : idle m ->
  ewp (_validate_confirmation preview confirmation) m (fun m' res =>
    idle m' /\ br_plan m' = br_plan m /\
    match res with
    | Ok _ => exists c now, confirmation = Some c /\ br_now m' = Some now /\ confirmed preview c now
    | Err _ => True
    end).
Proof.
  intros Hm. unfold _validate_confirmation. destruct confirmation as [c|] eqn:Hc; [|done].
  destruct (ic_accepted_warning c) eqn:E1; [|done]. destruct (blank (ic_actor c)) eqn:E2; [done|]. cbn [negb].
  case_bool_decide as E3; [|done]. injection E3 as E3 E4 E5. cbn [negb].
  apply rwp_bind, ewp_await; [done|]. intros [now|e] _; [|done].
  destruct (now + minutes 1 <? ic_confirmed_at c) eqn:E6; [done|].
  destruct (_ || _) eqn:E7; [done|]. apply orb_false_iff in E7 as [E7 E8]. bool_props. cbn [rwp].
  split; [done|]. split; [done|]. exists c, now. split_and!; try done; lia.
Qed.

Lemma unchanged_ewp plan m : idle m ->
  ewp (_verify_staged_unchanged plan) m (fun m' res =>
    idle m' /\
    match res with
    | Ok _ => br_plan m' = br_plan m /\ br_now m' = br_now m /\
              br_hash m' = Some (sa_root (pi_staged plan), ip_artifact_hash (pi_preview plan))
    | Err _ => True
    end).
Proof.
  intros Hm. unfold _verify_staged_unchanged. apply rwp_bind, ewp_await; [done|]. intros [h|e] _; [|done].
  case_bool_decide as E; cbn [negb]; [by subst h|]. apply rwp_bind, ewp_await; [done|]. intros [p|e] _; [|done].
  apply rwp_bind, rwp_match, ewp_await; [done|]. intros [[]|e] _; [done|]. by destruct (existsb _ _).
Qed.

Lemma baseline_ewp plan m : idle m ->
  ewp (if bool_decide (mode = "upgrade") then _verify_upgrade_baseline plan else Ret tt) m (fun m' res =>
    idle m' /\
    match res with
    | Ok _ => br_plan m' = br_plan m /\ br_now m' = br_now m /\ br_hash m' = br_hash m /\
              (mode = "upgrade" -> exists r, br_current m' = Some r /\ baseline_holds plan r)
    | Err _ => True
    end).
Proof.
  intros Hm. case_bool_decide as E; [|by split_and!]. unfold _verify_upgrade_baseline.
  apply rwp_bind, ewp_await; [done|]. intros [[r|]|e] _; [|done..].
  destruct (in_state r ExtensionState.UNINSTALLED) eqn:E1; [done|]. case_bool_decide as E2; [|done]. cbn [negb].
  destruct (semver_le _ _) eqn:E3; [done|]. destruct (_ <? _) eqn:E4; [done|]. unfold in_state in E1. bool_props.
  cbn [rwp]. split_and!; try done. intros _. exists r. split; [done|]. by split_and!.
Qed.

Lemma execute_ewp :
  ewp (_execute_install plan_id confirmation mode persist) nothing_seen (fun m' res =>
    match res with Ok _ => executed m' res | Err _ => idle m' \/ executed m' res end).
Proof.
  unfold _execute_install. apply rwp_bind, ewp_await; [done|]. intros [[plan|]|e] _; [|by left..].
  destruct (pi_consumed plan) eqn:Hf; [by left|]. case_bool_decide as Hmode; [|by left]. cbn [negb].
  apply rwp_bind. eapply rwp_mono; [by apply validate_ewp|]. cbn beta. intros m1 [[]|e] (Hm1 & Hp1 & H1); [|by left].
  apply rwp_bind. eapply rwp_mono; [by apply unchanged_ewp|]. cbn beta. intros m2 [[]|e] (Hm2 & H2); [|by left].
  destruct H2 as (Hp2 & Hn2 & Hh2).
  apply rwp_bind. eapply rwp_mono; [by apply baseline_ewp|]. cbn beta. intros m3 [[]|e] (Hm3 & H3); [|by left].
  destruct H3 as (Hp3 & Hn3 & Hh3 & Hb).
  apply rwp_bind, ewp_await; [done|]. intros [[]|e] [_ Hok]; [|done].
  eapply rwp_mono; [apply run_install_ewp|].
  - split; try done; cbn.
    + by rewrite Hp3, Hp2, Hp1.
    + by rewrite Hn3, Hn2.
    + by rewrite Hh3, Hh2.
  - by destruct Hm3 as (_ & ? & _).
  - intros m' [r|e'] H; [done|by right].
Qed.
End execution.

(** C31. The installer runs only behind the confirmation barrier.  In every trace of staging a source,
    nothing of the extension runs, and a plan is stored only for the tree whose hash and manifest were
    just computed, under a preview hash over exactly what the preview shows.  In every trace of an
    installation, whatever the ports answer: the installer is called only after an unconsumed plan was
    found and consumed, the caller's confirmation repeats its identifier, nonce and preview hash, accepts
    the warning and is neither from the future nor expired, the staged tree still has the previewed hash
    and, for an upgrade, the active version is still the older one it was planned against; the verifier
    is called on what was installed, and only a verified installation is recorded.  If it fails after
    that, also by cancellation, the removal of the failed version, the discarding of the staged tree and,
    for an installation that is persisted, the recording of the rejection were attempted (errors of these
    steps are suppressed); if it fails before, nothing was installed or recorded. *)
Theorem install_needs_exact_confirmation :
  (forall warning ttl source mode tr res,
     execs (_prepare warning source mode ttl) tr res -> answered bar_next bar_may nothing_seen tr ->
     watched (static_ok warning ttl) bar_next nothing_seen tr) /\
  (forall plan_id confirmation mode persist tr res,
     execs (_execute_install plan_id confirmation mode persist) tr res -> answered bar_next bar_may nothing_seen tr ->
     watched (exec_ok plan_id confirmation mode persist) bar_next nothing_seen tr /\
     let m := after bar_next nothing_seen tr in
     match res with
     | Ok r => finished confirmation mode persist m r
     | Err _ => idle m \/ exists plan, pi_consumed plan = false /\ cleaned_up persist m plan
     end).
Proof.
  split.
  - intros warning ttl source mode tr res Hx Hans.
    by destruct (rwp_execs _ _ _ _ _ _ _ _ (prepare_swp warning ttl source mode nothing_seen) Hx Hans).
  - intros plan_id confirmation mode persist tr res Hx Hans.
    destruct (rwp_execs _ _ _ _ _ _ _ _ (execute_ewp plan_id confirmation mode persist) Hx Hans) as [Hw H].
    split; [exact Hw|]. by destruct res.
Qed.

Module InstallScenario.

Definition staged : StagedArtifact := {| sa_source := "mail.zip"; sa_root := "/staging/1"; sa_artifact_hash := "sha256:ab" |}.

(** Ports that succeed; the verifier accepts or times out. *)
Definition answer_of (plan : option _PendingInstall) (sound : bool) (X : Type) (op : lcOp X) : result X :=
  match op in lcOp X return result X with
  | Stage _ => Ok staged
  | ComputeHash _ => Ok "sha256:ab"
  | ParseManifest _ => Ok (LifecycleScenario.manifest "1.0.0")
  | StoreGet _ => Ok None
  | StoreSave _ => Ok true
  | PlansOf _ => Ok []
  | PlanGet _ => Ok plan
  | PlanPut _ _ | PlanConsume _ | Discard _ | RemoveOrphan _ _ | RemoveVersion _ | CleanFailed _ => Ok tt
  | Install _ _ => Ok {| ia_install_path := "/ext/1.0.0"; ia_runtime_key := "k"; ia_runtime_root := None |}
  | Verify _ _ => if sound then Ok tt else fail RpcTimeoutError "worker did not answer"
  | Clock => Ok (minutes 5)
  | Token => Ok "token"
  | _ => fail PyRuntimeError "not used"
  end.

Definition answer plan sound (X : Type) (e : lcE X) : M barrier X := fun m =>
  let '(Do _ op) := e in (bar_next X m e (answer_of plan sound X op), answer_of plan sound X op).

Lemma install_answer_may plan sound X (e : lcE X) m :
  exists ans, answer plan sound X e m = (bar_next X m e ans, ans) /\ bar_may X m e ans.
Proof.
  destruct e as [b o]. exists (answer_of plan sound X o). split; [done|]. split.
  - intros _ exc H. destruct o; cbn in H; try discriminate H; try (by injection H as <-).
    destruct sound; [discriminate|]. by injection H as <-.
  - by destruct o.
Qed.

Definition plan : option _PendingInstall :=
  match (run (answer None true) (prepare "trusted code" "mail.zip" (minutes 15)) nothing_seen).2 with
  | Ok preview => Some {| pi_staged := staged; pi_manifest := LifecycleScenario.manifest "1.0.0"; pi_preview := preview;
                          pi_consumed := false |}
  | Err _ => None
  end.

Definition confirmation : option InstallationConfirmation :=
  (fun p => {| ic_plan_id := ip_plan_id (pi_preview p); ic_confirmation_nonce := ip_confirmation_nonce (pi_preview p);
               ic_preview_hash := ip_preview_hash (pi_preview p); ic_actor := "owner"; ic_confirmed_at := minutes 5;
               ic_accepted_warning := true |}) <$> plan.

Definition installing : prog lcE ExtensionRecord := install "install_token" confirmation.

End InstallScenario.

(** An installation whose verification times out leaves nothing behind. *)
Example failed_install_is_cleaned_up :
  let '(m, res) := run (InstallScenario.answer InstallScenario.plan false) InstallScenario.installing nothing_seen in
  res = fail RpcTimeoutError "worker did not answer" /\ br_removed m = true /\ br_cleaned m = true /\
  (er_state <$> br_saved m) = Some ExtensionState.REJECTED.
Proof. vm_compute. by split_and!. Qed.

Lemma install_needs_exact_confirmation_witness :
  exists tr r, execs InstallScenario.installing tr (Ok r) /\ er_state r = ExtensionState.INSTALLED_DISABLED /\
    watched (exec_ok "install_token" InstallScenario.confirmation "install" true) bar_next nothing_seen tr.
Proof.
  set (h := InstallScenario.answer InstallScenario.plan true).
  pose proof (trace_run_execs h InstallScenario.installing nothing_seen) as Hx.
  destruct (trace_run_answered _ _ h InstallScenario.installing nothing_seen
    (InstallScenario.install_answer_may InstallScenario.plan true)) as [Hans _].
  destruct (trace_run h InstallScenario.installing nothing_seen).2 as [r|e] eqn:E; [|vm_compute in E; discriminate E].
  do 2 eexists. split; [exact Hx|]. split.
  - vm_compute in E. injection E as <-. reflexivity.
  - exact (proj1 (proj2 install_needs_exact_confirmation _ _ _ _ _ _ Hx Hans)).
Defined.
