(* ===== verification/Operations.v ===== *)
(** * Operations: durable records of extension commands

    Models [core/extensions/operations.py] and [infrastructure/memory/operations.py].  Each method of
    the store runs under its lock and is one step on the insertion-ordered dictionary. *)

From S2P Require Import Prelude Text Json Domain Lifecycle.
Local Open Scope string_scope.
Local Open Scope Z_scope.

Definition OPERATION_KINDS : list string :=
  ["install"; "upgrade"; "enable"; "disable"; "rollback"; "uninstall"; "recover"; "quarantine"].

Module OperationState.
Inductive t := PENDING | RUNNING | SUCCEEDED | FAILED.

#[global] Instance operation_state_eq_dec : EqDecision t.
Proof. solve_decision. Defined.
End OperationState.

Definition TERMINAL_OPERATION_STATES : list OperationState.t := [OperationState.SUCCEEDED; OperationState.FAILED].

Definition DIAGNOSTIC_CODES : list string :=
  ["CONFIRMATION_REQUIRED"; "PLAN_NOT_FOUND"; "PLAN_MODE_MISMATCH"; "PLAN_BASELINE_CHANGED"; "MANIFEST_INVALID";
   "STATE_CONFLICT"; "EXTENSION_NOT_FOUND"; "EXTENSION_NOT_ENABLED"; "CAPABILITY_NOT_PUBLISHED";
   "INSTALL_CONFLICT"; "INSTALL_PATH_MISSING"; "INSTALL_FAILED"; "UPGRADE_FAILED"; "ENABLE_FAILED";
   "DISABLE_FAILED"; "DRAIN_TIMEOUT"; "UNINSTALL_FAILED"; "UNINSTALL_PATH_UNSAFE"; "ROLLBACK_FAILED";
   "ROLLBACK_INCOMPATIBLE"; "ROLLBACK_NO_CANDIDATE"; "HEALTHCHECK_FAILED"; "REQUIRED_CAPABILITY_UNAVAILABLE";
   "HANDSHAKE_MISMATCH"; "WORKER_RPC_ERROR"; "WORKER_TIMEOUT"; "WORKER_CRASHED"; "PURGE_NOT_IMPLEMENTED";
   "OPERATION_NOT_FOUND"; "OPERATION_EXISTS"; "OPERATION_CANCELLED"; "OPERATION_FAILED"; "OPERATION_IN_PROGRESS";
   "IDEMPOTENCY_CONFLICT"; "RECOVERY_FAILED"; "SUPERVISOR_RESTART"].

Definition is_diagnostic (s : string) : bool := mem_b s DIAGNOSTIC_CODES.

Definition validate_diagnostic_code (diagnostic_code : option string) : result unit :=
  match diagnostic_code with
  | None => Ok tt
  | Some d => raise_if (negb (is_diagnostic d)) PyValueError
                ("diagnostic code is not on the safe allowlist: " ++ str_repr d)
  end.

Record ExtensionOperation := {
  eo_id : string;
  eo_extension_id : string;
  eo_operation : string;
  eo_status : OperationState.t;
  eo_diagnostic_code : option string;
  eo_idempotency_key : option string;
  eo_command_fingerprint : option string;
  eo_request_scope : option string;
  eo_created_at : time;
  eo_updated_at : time
}.
#[export] Instance ExtensionOperation_eta : Eta ExtensionOperation := fun o =>
  Build_ExtensionOperation (eo_id o) (eo_extension_id o) (eo_operation o) (eo_status o) (eo_diagnostic_code o)
    (eo_idempotency_key o) (eo_command_fingerprint o) (eo_request_scope o) (eo_created_at o) (eo_updated_at o).

(** [ExtensionOperation.__post_init__] *)
Definition make_operation (o : ExtensionOperation) : result ExtensionOperation :=
  _ ← raise_if (negb (mem_b (eo_operation o) OPERATION_KINDS)) PyValueError
        ("unsupported extension operation: " ++ str_repr (eo_operation o));
  _ ← validate_diagnostic_code (eo_diagnostic_code o);
  Ok o.

(** ** The in-memory store *)

Notation operation_store := (list (string * ExtensionOperation)).

(** The existing operation takes the idempotency key of the new one. *)
Definition key_taken (existing operation : ExtensionOperation) : bool :=
  (bool_decide (eo_request_scope existing = eo_request_scope operation)
   || (bool_decide (eo_extension_id existing = eo_extension_id operation)
       && bool_decide (eo_operation existing = eo_operation operation)))
  && bool_decide (eo_idempotency_key existing = eo_idempotency_key operation).

Definition ops_create (operation : ExtensionOperation) : M operation_store unit := fun s =>
  match validate_diagnostic_code (eo_diagnostic_code operation) with
  | Err e => (s, Err e)
  | Ok _ =>
      if bool_decide (is_Some (assoc (eo_id operation) s)) then
        (s, Err (op_error "OPERATION_EXISTS" ("operation already exists: " ++ eo_id operation)))
      else if bool_decide (is_Some (eo_idempotency_key operation)) && existsb (fun kv => key_taken kv.2 operation) s then
        (s, Err (op_error "IDEMPOTENCY_CONFLICT" "the idempotency key was already used for this command"))
      else (assoc_set (eo_id operation) operation s, Ok tt)
  end.

Definition ops_update (operation_id : string) (status : OperationState.t) (diagnostic_code : option string)
    (now : time) : M operation_store ExtensionOperation := fun s =>
  match validate_diagnostic_code diagnostic_code with
  | Err e => (s, Err e)
  | Ok _ =>
      match assoc operation_id s with
      | None => (s, Err (op_error "OPERATION_NOT_FOUND" ("unknown operation: " ++ operation_id)))
      | Some existing =>
          let updated := existing {{ eo_status := status; eo_diagnostic_code := diagnostic_code; eo_updated_at := now }} in
          (assoc_set operation_id updated s, Ok updated)
      end
  end.

Definition ops_get (operation_id : string) : M operation_store (option ExtensionOperation) := fun s =>
  (s, Ok (assoc operation_id s)).

Definition find_by_request_scope (request_scope idempotency_key : string)
  : M operation_store (option ExtensionOperation) := fun s =>
  (s, Ok (List.find (fun o => bool_decide (eo_request_scope o = Some request_scope)
                              && bool_decide (eo_idempotency_key o = Some idempotency_key)) s.*2)).

Definition is_open (o : ExtensionOperation) : bool := negb (mem_b (eo_status o) TERMINAL_OPERATION_STATES).

Definition interrupt_running (diagnostic_code : string) (now : time) : M operation_store Z := fun s =>
  match validate_diagnostic_code (Some diagnostic_code) with
  | Err e => (s, Err e)
  | Ok _ =>
      ((fun kv => if is_open kv.2
                  then (kv.1, kv.2 {{ eo_status := OperationState.FAILED;
                                      eo_diagnostic_code := Some diagnostic_code; eo_updated_at := now }})
                  else kv) <$> s,
       Ok (Z.of_nat (length (List.filter (fun kv => is_open kv.2) s))))
  end.
