(* ===== verification/Supervision.v ===== *)
(** * Supervision: durable extension commands, dispatch and recovery

    Models [ExtensionSupervisorService] of [core/extensions/supervision.py] over the coordinator and
    manager of [Lifecycle.v], the registry, the operation store and the worker runtime.  [_active] is a
    set of the event loop: testing and adding an identifier happens without awaiting and is one
    operation.  [wait_operation], a polling loop on the wall clock, is not modelled. *)

From S2P Require Import Prelude Text Sha256 Json Schemas Domain Governance Approvals Manifest Extensions Lifecycle Operations.
Local Open Scope string_scope.
Local Open Scope Z_scope.

(** The work of a background task. *)
Inductive work :=
| WInstall (plan_id : string) (c : InstallationConfirmation)
| WUpgrade (extension_id plan_id : string) (c : InstallationConfirmation)
| WEnable (extension_id : string)
| WDisable (extension_id : string) (deadline : time)
| WRollback (extension_id : string)
| WUninstall (extension_id : string).

(** [asyncio.create_task(self._execute(operation.id, extension_id, kind, work))] *)
Record task := { tk_operation : ExtensionOperation; tk_extension_id : string; tk_kind : string; tk_work : work }.

Notation mapping := (list (string * json)).

Inductive supE : Type -> Type :=
| SupLc {X} (op : lcE X) : supE X
(* LifecycleStore.all, and save with an expectation; a store without compare-and-swap answers None *)
| StoreAll : supE (list ExtensionRecord)
| StoreCas (record : ExtensionRecord) (expected : ExtensionState.t * string) : supE (option bool)
(* the registry *)
| RegReplaceAll (records : list ExtensionRecord) : supE RegistrySnapshot
| RegOwner (capability_id : string) : supE (option CapabilityOwner)
(* ExtensionRuntime *)
| InvokeTool (extension_id tool_id : string) (arguments : mapping) (task_id run_id idempotency_key : string)
    (deadline : time) : supE mapping
| ListForms (extension_id : string) : supE (list mapping)
| CallSlot (extension_id method : string) (parameters : mapping) : supE json
| StopAll : supE unit
(* the operation store *)
| OpsCreate (operation : ExtensionOperation) : supE unit
| OpsUpdate (operation_id : string) (status : OperationState.t) (diagnostic_code : option string)
    : supE ExtensionOperation
| OpsGet (operation_id : string) : supE (option ExtensionOperation)
| OpsFind (request_scope idempotency_key : string) : supE (option ExtensionOperation)
| OpsInterrupt (diagnostic_code : string) : supE Z
(* [_active], [_tasks], identifiers and [Path.is_dir] *)
| ActiveAcquire (extension_id : string) : supE bool
| ActiveDiscard (extension_id : string) : supE unit
| Spawn (t : task) : supE unit
| CancelTasks : supE unit
| Uuid : supE string
| IsDir (path : string) : supE bool.

#[global] Instance SubE_sup_lc : SubE lcE supE := fun X op => SupLc op.

(** One operation of the lifecycle's ports. *)
Definition port {X} (op : lcOp X) : prog supE X := perform (SupLc (Do false op)).
Definition now : prog supE time := port Clock.

Definition ignore {E X} (p : prog E X) : prog E unit := _ ← p; Ret tt.

(** [with contextlib.suppress(Exception): p] *)
Definition quietly {X} (p : prog supE X) : prog supE unit :=
  prog_match p (fun _ => Ret tt) (fun e => if exn_is e PyException then Ret tt else Raise e).

(** ** Fingerprints and diagnostics *)

Definition _STREAM_ERROR_CODES : list Z := [-32090; -32091; -32092; -32093; -32700].

Definition INSTALL_REQUEST_SCOPE : string := "admin:extensions:install".

Definition _extension_request_scope (extension_id operation : string) : string :=
  "admin:extensions:" ++ extension_id ++ ":" ++ operation.

Definition _command_material (fields : mapping) : result string := dumps stable_opts (JObj fields).

Definition _command_fingerprint (request_scope material : string) : result string :=
  encoded ← dumps stable_opts (JObj [("scope", JStr request_scope); ("material", JStr material)]);
  Ok (sha256 encoded).

Definition _TRANSIENT_MAPPING : list (ExtensionState.t * ExtensionState.t) :=
  [(ExtensionState.DISCOVERED, ExtensionState.REJECTED); (ExtensionState.STAGED, ExtensionState.REJECTED);
   (ExtensionState.STARTING, ExtensionState.QUARANTINED); (ExtensionState.DRAINING, ExtensionState.DISABLED);
   (ExtensionState.UPGRADING, ExtensionState.DISABLED)].

Definition transient (s : ExtensionState.t) : option ExtensionState.t :=
  snd <$> List.find (fun p => bool_decide (p.1 = s)) _TRANSIENT_MAPPING.

(** [str.upper] on ASCII letters. *)
Definition upper (s : string) : string :=
  of_chars ((fun a => if is_lower a then Ascii.ascii_of_N (Z.to_N (code a - 32)) else a) <$> chars s).

(** The integer [code] of an [RpcCallError], carried as its decimal text. *)
Definition rpc_code_in (codes : list Z) (e : exn) : bool :=
  match exn_ref e with Some c => mem_b c (str_of_Z <$> codes) | None => false end.

Definition _diagnostic (kind : string) (e : exn) : string :=
  let own := if exn_is e ExtensionOperationError then exn_ref e else None in
  match own with
  | Some c => if is_diagnostic c then c
              else let candidate := upper kind ++ "_FAILED" in
                   if is_diagnostic candidate then candidate else "OPERATION_FAILED"
  | None =>
      if exn_is e RpcTimeoutError then "WORKER_TIMEOUT"
      else if exn_is e RpcCallError then (if rpc_code_in [-32095] e then "HANDSHAKE_MISMATCH" else "WORKER_CRASHED")
      else if exn_is e ConfirmationRequiredError then "CONFIRMATION_REQUIRED"
      else if exn_is e ManifestValidationError then "MANIFEST_INVALID"
      else if exn_is e InvalidLifecycleTransition then "STATE_CONFLICT"
      else let candidate := upper kind ++ "_FAILED" in
           if is_diagnostic candidate then candidate else "OPERATION_FAILED"
  end.

(** ** Commands *)

Section supervision.
Context (TRUST_WARNING : string) (confirmation_ttl : Z).

Definition sup_inspect (source : string) : prog supE InstallationPreview :=
  embed (prepare_auto TRUST_WARNING source confirmation_ttl).

Definition reject_plan (plan_id : string) : prog supE ExtensionRecord := embed (reject plan_id).

Definition run_work (w : work) : prog supE unit :=
  match w with
  | WInstall plan_id c => ignore (embed (install plan_id (Some c)))
  | WUpgrade extension_id plan_id c =>
      embed (install_candidate plan_id (Some c)) ≫= fun candidate : ExtensionRecord =>
      prog_try (ignore (embed (upgrade extension_id candidate)))
        (fun e => _ ← quietly (embed (F := supE) (discard_candidate candidate)); Raise e)
  | WEnable extension_id => ignore (embed (enable extension_id))
  | WDisable extension_id deadline => ignore (embed (disable extension_id deadline))
  | WRollback extension_id =>
      port (StoreGet extension_id) ≫= fun current : option ExtensionRecord =>
      match current with
      | None => Raise (op_error "EXTENSION_NOT_FOUND" ("unknown extension: " ++ extension_id))
      | Some _ => ignore (embed (rollback extension_id))
      end
  | WUninstall extension_id => ignore (embed (uninstall extension_id))
  end.

Definition set_status (operation_id : string) (status : OperationState.t) (diagnostic_code : option string)
  : prog supE unit := ignore (perform (OpsUpdate operation_id status diagnostic_code)).

Definition execute_work (t : task) : prog supE unit :=
  let i := eo_id (tk_operation t) in
  prog_match (run_work (tk_work t))
    (fun _ => set_status i OperationState.SUCCEEDED None)
    (fun e => if exn_is e PyCancelledError then
                _ ← set_status i OperationState.FAILED (Some "OPERATION_CANCELLED"); Raise e
              else if exn_is e PyException then
                set_status i OperationState.FAILED (Some (_diagnostic (tk_kind t) e))
              else Raise e).

Definition _execute (t : task) : prog supE unit :=
  let i := eo_id (tk_operation t) in
  prog_finally
    (prog_match (set_status i OperationState.RUNNING None)
       (fun _ => execute_work t)
       (fun e => if exn_is e PyException
                 then quietly (set_status i OperationState.FAILED (Some "OPERATION_FAILED"))
                 else Raise e))
    (perform (ActiveDiscard (tk_extension_id t))).

Definition same_command (o : ExtensionOperation) (fingerprint : string) : bool :=
  bool_decide (eo_command_fingerprint o = Some fingerprint).

Definition _replay_or_none (request_scope : string) (idempotency_key : option string) (fingerprint : string)
  : prog supE (option ExtensionOperation) :=
  if negb (truthy idempotency_key) then Ret None
  else
    perform (OpsFind request_scope (default "" idempotency_key)) ≫= fun existing : option ExtensionOperation =>
    match existing with
    | None => Ret None
    | Some o => if same_command o fingerprint then Ret (Some o)
                else Raise (op_error "IDEMPOTENCY_CONFLICT" "the idempotency key was reused with different input")
    end.

(** The [except] clauses around the creation of the operation. *)
Definition create_failed (extension_id request_scope : string) (idempotency_key : option string)
    (fingerprint : string) (e : exn) : prog supE ExtensionOperation :=
  _ ← perform (ActiveDiscard extension_id);
  if exn_is e ExtensionOperationError then
    if negb (bool_decide (exn_ref e = Some "IDEMPOTENCY_CONFLICT")) || negb (truthy idempotency_key) then Raise e
    else
      perform (OpsFind request_scope (default "" idempotency_key)) ≫= fun existing : option ExtensionOperation =>
      match existing with
      | Some o => if same_command o fingerprint then Ret o else Raise e
      | None => Raise e
      end
  else Raise e.

Definition _begin (extension_id kind : string) (w : work) (request_scope : string)
    (idempotency_key : option string) (fingerprint : string) : prog supE ExtensionOperation :=
  replay ← _replay_or_none request_scope idempotency_key fingerprint;
  match replay with
  | Some o => Ret o
  | None =>
      perform (ActiveAcquire extension_id) ≫= fun acquired : bool =>
      if negb acquired then
        Raise (op_error "OPERATION_IN_PROGRESS" ("another lifecycle operation is running for " ++ extension_id))
      else
        t ← now;
        uuid ← perform Uuid;
        operation ← of_result (make_operation
          {| eo_id := "extop_" ++ uuid; eo_extension_id := extension_id; eo_operation := kind;
             eo_status := OperationState.PENDING; eo_diagnostic_code := None;
             eo_idempotency_key := idempotency_key; eo_command_fingerprint := Some fingerprint;
             eo_request_scope := Some request_scope; eo_created_at := t; eo_updated_at := t |});
        prog_match (perform (OpsCreate operation))
          (fun _ => _ ← perform (Spawn {| tk_operation := operation; tk_extension_id := extension_id;
                                          tk_kind := kind; tk_work := w |});
                    Ret operation)
          (create_failed extension_id request_scope idempotency_key fingerprint)
  end.

Definition confirmation_fields (plan_id : string) (c : InstallationConfirmation) : mapping :=
  [("plan_id", JStr plan_id); ("confirmation_nonce", JStr (ic_confirmation_nonce c));
   ("preview_hash", JStr (ic_preview_hash c)); ("accepted_warning", JBool (ic_accepted_warning c))].

Definition begin_install (plan_id : string) (c : InstallationConfirmation) (key : option string)
  : prog supE ExtensionOperation :=
  material ← of_result (_command_material (confirmation_fields plan_id c));
  fingerprint ← of_result (_command_fingerprint INSTALL_REQUEST_SCOPE material);
  replay ← _replay_or_none INSTALL_REQUEST_SCOPE key fingerprint;
  match replay with
  | Some o => Ret o
  | None =>
      embed (preview_for plan_id) ≫= fun preview : InstallationPreview =>
      if negb (bool_decide (ip_mode preview = "install"))
      then Raise (op_error "PLAN_MODE_MISMATCH" "plan is an upgrade candidate")
      else
        _ ← embed (F := supE) (validate plan_id (Some c));
        _begin (ip_extension_id preview) "install" (WInstall plan_id c) INSTALL_REQUEST_SCOPE key fingerprint
  end.

Definition begin_upgrade (extension_id plan_id : string) (c : InstallationConfirmation) (key : option string)
  : prog supE ExtensionOperation :=
  let scope := _extension_request_scope extension_id "upgrade" in
  material ← of_result (_command_material (("extension_id", JStr extension_id) :: confirmation_fields plan_id c));
  fingerprint ← of_result (_command_fingerprint scope material);
  replay ← _replay_or_none scope key fingerprint;
  match replay with
  | Some o => Ret o
  | None =>
      embed (preview_for plan_id) ≫= fun preview : InstallationPreview =>
      if negb (bool_decide (ip_mode preview = "upgrade")) || negb (bool_decide (ip_extension_id preview = extension_id))
      then Raise (op_error "PLAN_MODE_MISMATCH" "plan does not upgrade this extension")
      else
        _ ← embed (F := supE) (validate plan_id (Some c));
        _begin extension_id "upgrade" (WUpgrade extension_id plan_id c) scope key fingerprint
  end.

Definition begin_plain (extension_id kind : string) (w : work) (material : string) (key : option string)
  : prog supE ExtensionOperation :=
  let scope := _extension_request_scope extension_id kind in
  fingerprint ← of_result (_command_fingerprint scope material);
  _begin extension_id kind w scope key fingerprint.

Definition begin_enable (extension_id : string) (key : option string) : prog supE ExtensionOperation :=
  begin_plain extension_id "enable" (WEnable extension_id) "" key.

(** [drain] is the duration that [drain_seconds] says. *)
Definition begin_disable (extension_id : string) (drain_seconds : json) (drain : Z) (key : option string)
  : prog supE ExtensionOperation :=
  t ← now;
  let deadline := t + Z.max (seconds 1) drain in
  material ← of_result (_command_material [("drain_seconds", drain_seconds)]);
  begin_plain extension_id "disable" (WDisable extension_id deadline) material key.

Definition begin_rollback (extension_id : string) (key : option string) : prog supE ExtensionOperation :=
  begin_plain extension_id "rollback" (WRollback extension_id) "" key.
Definition begin_uninstall (extension_id : string) (key : option string) : prog supE ExtensionOperation :=
  begin_plain extension_id "uninstall" (WUninstall extension_id) "" key.

Definition operation_of (operation_id : string) : prog supE (option ExtensionOperation) := perform (OpsGet operation_id).
Definition records : prog supE (list ExtensionRecord) := perform StoreAll.
Definition record (extension_id : string) : prog supE (option ExtensionRecord) := port (StoreGet extension_id).

(** ** Declarations of enabled workers *)

Definition get_item (k : string) (d : mapping) : json := default JNull (assoc k d).

(** [{item.get("id") for item in items}] *)
Definition id_set (items : list mapping) : result (list json) :=
  result_map (fun d => let i := get_item "id" d in
                if hashable i then Ok i else fail PyTypeError "unhashable type") items.

(** ... [== set(declared)] *)
Definition same_ids (ids : list json) (declared : list string) : bool :=
  forallb (fun i => match i with JStr s => mem_b s declared | _ => false end) ids
  && forallb (fun s => mem_b (JStr s) ids) declared.

Definition form_of (r : ExtensionRecord) (item : mapping) : result mapping :=
  let ui := default (JObj []) (assoc "ui_schema" item) in
  if negb (is_obj (get_item "json_schema" item)) || negb (is_obj ui)
  then Err (op_error "FORM_SCHEMA_DRIFT" "form descriptor is incomplete")
  else Ok [("extension_id", JStr (er_id r)); ("extension_version", JStr (er_version r));
           ("id", get_item "id" item); ("json_schema", get_item "json_schema" item); ("ui_schema", ui)].

Definition forms_of (r : ExtensionRecord) : prog supE (list mapping) :=
  let declared := em_forms (er_manifest r) in
  if negb (in_state r ExtensionState.ENABLED) || bool_decide (declared = []) then Ret []
  else
    _ ← port (Start r);
    returned ← perform (ListForms (er_id r));
    ids ← of_result (id_set returned);
    if negb (same_ids ids declared)
    then Raise (op_error "FORM_SCHEMA_DRIFT" "form list differs from manifest")
    else of_result (result_map (form_of r) returned).

Fixpoint gather {A} (f : A -> prog supE (list mapping)) (l : list A) : prog supE (list mapping) :=
  match l with
  | [] => Ret []
  | x :: l => xs ← f x; ys ← gather f l; Ret (xs ++ ys)%list
  end.

Definition list_forms : prog supE (list mapping) := all ← perform StoreAll; gather forms_of all.

(** The attribute that an enumeration method reads. *)
Definition declared_slot (method : string) : option (ExtensionManifest -> list string) :=
  assoc method [("workflow.list", em_workflows); ("schedule.list", em_schedules); ("event_source.list", em_event_sources)].

Definition declarations_of (method : string) (slot : ExtensionManifest -> list string) (r : ExtensionRecord)
  : prog supE (list mapping) :=
  let declared := remove_dups (slot (er_manifest r)) in
  if negb (in_state r ExtensionState.ENABLED) || bool_decide (declared = []) then Ret []
  else
    _ ← port (Start r);
    returned ← perform (CallSlot (er_id r) method []);
    let differ := Raise (op_error "MANIFEST_INVALID" "declarations differ from manifest") in
    match returned with
    | JList values =>
        match mapM as_obj values with
        | None => differ
        | Some items =>
            if negb (Nat.eqb (length items) (length declared)) then differ
            else
              ids ← of_result (id_set items);
              if negb (same_ids ids declared) then differ
              else Ret ((fun item => assoc_set "extension_version" (JStr (er_version r))
                                       (assoc_set "extension_id" (JStr (er_id r)) item)) <$> items)
        end
    | _ => differ
    end.

Definition list_declarations (method : string) : prog supE (list mapping) :=
  match declared_slot method with
  | None => Raise (op_error "CAPABILITY_NOT_PUBLISHED" "unsupported enumeration")
  | Some slot => all ← perform StoreAll; gather (declarations_of method slot) all
  end.

(** [x in y] for the [event_types] of a declaration. *)
Definition py_in (x y : json) : result bool :=
  match y with
  | JList l => Ok (existsb (py_eq x) l)
  | JObj kvs => if hashable x then Ok (match x with JStr s => mem_b s (keys kvs) | _ => false end)
                else fail PyTypeError "unhashable type"
  | JStr s => match x with
              | JStr p => Ok (contains_l (chars p) (chars s))
              | _ => fail PyTypeError "'in <string>' requires string as left operand"
              end
  | _ => fail PyTypeError "argument is not iterable"
  end.

(** [any(not isinstance(e, dict) or e.get("type") not in event_types for e in events)] *)
Fixpoint undeclared_event (event_types : json) (events : list json) : result bool :=
  match events with
  | [] => Ok false
  | JObj e :: events =>
      declared ← py_in (get_item "type" e) event_types;
      if (declared : bool) then undeclared_event event_types events else Ok true
  | _ :: _ => Ok true
  end.

Definition find_source (declarations : json) (source_id : json) : option mapping :=
  match declarations with
  | JList l => List.find (fun s => py_eq (get_item "id" s) source_id) (omap as_obj l)
  | _ => None
  end.

Definition poll_source (extension_id extension_version : string) (request : mapping) : prog supE mapping :=
  let source_id := get_item "source_id" request in
  port (StoreGet extension_id) ≫= fun found : option ExtensionRecord =>
  let ready := match found with
               | Some r => in_state r ExtensionState.ENABLED && bool_decide (er_version r = extension_version)
                           && match source_id with JStr s => mem_b s (em_event_sources (er_manifest r)) | _ => false end
               | None => false
               end in
  match found with
  | Some r =>
      if negb ready then Raise (op_error "EXTENSION_NOT_ENABLED" "event source/version unavailable")
      else
        _ ← port (Start r);
        result ← perform (CallSlot extension_id "event_source.poll" [("request", JObj request)]);
        match result with
        | JObj d =>
            declarations ← perform (CallSlot extension_id "event_source.list" []);
            let differs := Raise (op_error "MANIFEST_INVALID" "event type differs from the declared source") in
            match find_source declarations source_id, get_item "events" d with
            | Some source, JList events =>
                undeclared ← of_result (undeclared_event (default (JList []) (assoc "event_types" source)) events);
                if (undeclared : bool) then differs else Ret d
            | _, _ => differs
            end
        | _ => Raise (op_error "MANIFEST_INVALID" "event poll result must be an object")
        end
  | None => Raise (op_error "EXTENSION_NOT_ENABLED" "event source/version unavailable")
  end.

(** ** Dispatch and quarantine *)

Definition _record_operation (extension_id kind : string) (status : OperationState.t)
    (diagnostic_code : option string) : prog supE unit :=
  t ← now;
  quietly (uuid ← perform Uuid;
           operation ← of_result (make_operation
             {| eo_id := "extop_" ++ uuid; eo_extension_id := extension_id; eo_operation := kind; eo_status := status;
                eo_diagnostic_code := diagnostic_code; eo_idempotency_key := None; eo_command_fingerprint := None;
                eo_request_scope := None; eo_created_at := t; eo_updated_at := t |});
           perform (OpsCreate operation)).

Definition serves_version (found : option ExtensionRecord) (version : string) : bool :=
  match found with
  | Some r => in_state r ExtensionState.ENABLED && bool_decide (er_version r = version)
  | None => false
  end.

(** [if x is not None and x.state is ENABLED: self._registry.enable(x)] *)
Definition republish (found : option ExtensionRecord) : prog supE unit :=
  match found with
  | Some r => if in_state r ExtensionState.ENABLED then ignore (port (RegEnable r)) else Ret tt
  | None => Ret tt
  end.

Definition _quarantine (r : ExtensionRecord) (e : exn) : prog supE unit :=
  let i := er_id r in
  current ← port (StoreGet i);
  if negb (serves_version current (er_version r)) then Ret tt
  else
    _ ← port (RegDisable i);
    after ← port (StoreGet i);
    match after with
    | Some a =>
        if negb (serves_version after (er_version r)) then republish after
        else
          applied ← perform (StoreCas (a {{ er_state := ExtensionState.QUARANTINED }})
                               (ExtensionState.ENABLED, er_version a));
          if bool_decide (applied = Some false) then fresh ← port (StoreGet i); republish fresh
          else _record_operation i "quarantine" OperationState.FAILED (Some (_diagnostic "quarantine" e))
    | None => Ret tt
    end.

Definition invoke_tool (extension_id tool_id : string) (arguments : mapping) (task_id run_id idempotency_key : string)
    (deadline : time) : prog supE mapping :=
  found ← port (StoreGet extension_id);
  match found with
  | Some r =>
      if negb (in_state r ExtensionState.ENABLED)
      then Raise (op_error "EXTENSION_NOT_ENABLED" ("extension is not enabled: " ++ extension_id))
      else
        owner ← perform (RegOwner tool_id);
        let published := match owner with
                         | Some o => bool_decide (co_extension_id o = extension_id)
                                     && bool_decide (co_extension_version o = er_version r)
                         | None => false
                         end in
        if negb published then Raise (op_error "CAPABILITY_NOT_PUBLISHED" ("capability is not published: " ++ tool_id))
        else
          prog_try (perform (InvokeTool extension_id tool_id arguments task_id run_id idempotency_key deadline))
            (fun e => if exn_is e RpcCallError || exn_is e RpcTimeoutError then
                        _ ← (if exn_is e RpcTimeoutError || rpc_code_in _STREAM_ERROR_CODES e
                             then _quarantine r e else Ret tt);
                        Raise e
                      else Raise e)
  | None => Raise (op_error "EXTENSION_NOT_ENABLED" ("extension is not enabled: " ++ extension_id))
  end.

(** ** Recovery *)

Definition _quarantine_recovered (r starting : ExtensionRecord) (e : exn) : prog supE ExtensionRecord :=
  _ ← quietly (port (Stop starting));
  let quarantined := starting {{ er_state := ExtensionState.QUARANTINED }} in
  _ ← quietly (port (StoreSave quarantined));
  _ ← _record_operation (er_id r) "recover" OperationState.FAILED (Some (_diagnostic "recover" e));
  Ret quarantined.

(** [except Exception as exc: return await self._quarantine_recovered(...)] *)
Definition or_quarantine {X} (r starting : ExtensionRecord) (p : prog supE X) (f : X -> prog supE ExtensionRecord)
  : prog supE ExtensionRecord :=
  prog_match p f (fun e => if exn_is e PyException then _quarantine_recovered r starting e else Raise e).

Definition restart (r : ExtensionRecord) : prog supE ExtensionRecord :=
  let starting := r {{ er_state := ExtensionState.STARTING }} in
  let enabled := starting {{ er_state := ExtensionState.ENABLED }} in
  _ ← port (StoreSave starting);
  or_quarantine r starting
    (_ ← port (Start starting);
     port (Health starting) ≫= fun healthy : bool =>
     if healthy then Ret tt
     else Raise (op_error "HEALTHCHECK_FAILED" "extension healthcheck failed after restart"))
    (fun _ => or_quarantine r starting (port (StoreSave enabled)) (fun _ => Ret enabled)).

Definition saved (r : ExtensionRecord) : prog supE ExtensionRecord := _ ← port (StoreSave r); Ret r.

Definition _recover_record (r : ExtensionRecord) : prog supE ExtensionRecord :=
  match er_state r with
  | ExtensionState.ENABLED =>
      if negb (truthy (er_install_path r)) then
        quarantined ← saved (r {{ er_state := ExtensionState.QUARANTINED }});
        _ ← _record_operation (er_id r) "recover" OperationState.FAILED (Some "INSTALL_PATH_MISSING");
        Ret quarantined
      else restart r
  | ExtensionState.UNINSTALLING =>
      installed ← match er_install_path r with Some p => perform (IsDir p) | None => Ret false end;
      if (installed : bool) then saved (r {{ er_state := ExtensionState.DISABLED }})
      else saved (r {{ er_state := ExtensionState.UNINSTALLED; er_install_path := None; er_tombstone := true;
                       er_data_retained := true }})
  | s =>
      match transient s with
      | Some s' =>
          _ ← (if bool_decide (s = ExtensionState.STAGED) then embed (discard_staged_record r) else Ret tt);
          saved (r {{ er_state := s' }})
      | None => Ret r
      end
  end.

(** The loop of [recover]: what came back enabled. *)
Fixpoint recover_all (all : list ExtensionRecord) : prog supE (list ExtensionRecord) :=
  match all with
  | [] => Ret []
  | r :: all =>
      recovered ← prog_try (_recover_record r)
        (fun e => if exn_is e PyException then
                    _ ← quietly (port (Stop r));
                    quarantined ← saved (r {{ er_state := ExtensionState.QUARANTINED }});
                    _ ← _record_operation (er_id r) "recover" OperationState.FAILED (Some "RECOVERY_FAILED");
                    Ret quarantined
                  else Raise e);
      rest ← recover_all all;
      Ret (if in_state recovered ExtensionState.ENABLED then recovered :: rest else rest)
  end.

Definition sup_recover : prog supE unit :=
  _ ← perform (OpsInterrupt "SUPERVISOR_RESTART");
  all ← perform StoreAll;
  enabled ← recover_all all;
  ignore (perform (RegReplaceAll enabled)).

Definition stop_all : prog supE unit := _ ← perform CancelTasks; perform StopAll.

End supervision.
