(* ===== verification/SupervisionSafety.v ===== *)
(** * SupervisionSafety: lifecycle commands run once and alone

    Any number of requests to the supervisor and of the tasks they start, interleaved at their awaits,
    over the set [_active] and the operation store of [Operations.v]; all other ports answer anything.
    Testing and changing [_active] and creating a task do not await, so they are not cancelled. *)

From S2P Require Import Prelude Text Json JsonRoundTrip Domain Monitor Rely Manifest Extensions Lifecycle Operations Supervision.
Local Open Scope string_scope.
Local Open Scope Z_scope.

(** ** The system *)

Record supervisor := { sv_ops : operation_store; sv_active : list string }.

(** A coroutine, with what it is: the task it executes, the extension it has marked active, and the
    operation it has created last. *)
Record role := { rl_task : option task; rl_held : option string; rl_created : option ExtensionOperation }.
#[export] Instance role_eta : Eta role := fun m => Build_role (rl_task m) (rl_held m) (rl_created m).

Definition request_role : role := {| rl_task := None; rl_held := None; rl_created := None |}.
Definition task_role (t : task) : role := {| rl_task := Some t; rl_held := Some (tk_extension_id t); rl_created := None |}.

Definition role_next (X : Type) (m : role) (op : supE X) : result X -> role :=
  match op in supE X return result X -> role with
  | ActiveAcquire x => fun ans => match ans with Ok true => m {{ rl_held := Some x }} | _ => m end
  | ActiveDiscard _ => fun _ => m {{ rl_held := None }}
  | OpsCreate o => fun ans => match ans with Ok _ => m {{ rl_created := Some o }} | Err _ => m end
  | Spawn _ => fun _ => m {{ rl_held := None; rl_created := None }}
  | _ => fun _ => m
  end.

(** One operation on the shared state. *)
Definition sup_step (X : Type) (op : supE X) (s s' : supervisor) (r : result X) : Prop :=
  match op in supE X return result X -> Prop with
  | ActiveAcquire x => fun r =>
      r = Ok (negb (mem_b x (sv_active s))) /\ sv_ops s' = sv_ops s /\
      sv_active s' = if mem_b x (sv_active s) then sv_active s else x :: sv_active s
  | ActiveDiscard x => fun r =>
      r = Ok tt /\ sv_ops s' = sv_ops s /\ sv_active s' = List.filter (fun y => negb (bool_decide (y = x))) (sv_active s)
  | OpsCreate o => fun r =>
      sv_active s' = sv_active s /\ ((sv_ops s', r) = ops_create o (sv_ops s) \/ (sv_ops s' = sv_ops s /\ is_ok r = false))
  | OpsUpdate i st d => fun r =>
      sv_active s' = sv_active s /\
      ((exists now, (sv_ops s', r) = ops_update i st d now (sv_ops s)) \/ (sv_ops s' = sv_ops s /\ is_ok r = false))
  | OpsInterrupt d => fun r =>
      sv_active s' = sv_active s /\
      ((exists now, (sv_ops s', r) = interrupt_running d now (sv_ops s)) \/ (sv_ops s' = sv_ops s /\ is_ok r = false))
  | OpsFind scope key => fun r => s' = s /\ (r = (find_by_request_scope scope key (sv_ops s)).2 \/ is_ok r = false)
  | OpsGet i => fun r => s' = s /\ (r = (ops_get i (sv_ops s)).2 \/ is_ok r = false)
  | Spawn _ => fun r => s' = s /\ r = Ok tt
  | _ => fun _ => s' = s
  end r.

(** A cancellation is delivered while awaiting. *)
Definition awaits {X} (op : supE X) : bool :=
  match op with ActiveAcquire _ | ActiveDiscard _ | Spawn _ => false | _ => true end.

Section system.
Context (TRUST_WARNING : string) (ttl : Z).

(** The requests. *)
Inductive request : prog supE unit -> Prop :=
| req_install plan_id c key : request (ignore (begin_install plan_id c key))
| req_upgrade x plan_id c key : request (ignore (begin_upgrade x plan_id c key))
| req_enable x key : request (ignore (begin_enable x key))
| req_disable x seconds drain key : request (ignore (begin_disable x seconds drain key))
| req_rollback x key : request (ignore (begin_rollback x key))
| req_uninstall x key : request (ignore (begin_uninstall x key))
| req_inspect source : request (ignore (sup_inspect TRUST_WARNING ttl source))
| req_reject plan_id : request (ignore (reject_plan plan_id))
| req_invoke x tool args task run key deadline : request (ignore (invoke_tool x tool args task run key deadline))
| req_poll x version r : request (ignore (poll_source x version r))
| req_forms : request (ignore list_forms)
| req_declarations method : request (ignore (list_declarations method))
| req_recover : request sup_recover.

Notation thread := (prog supE unit * role)%type.

(** The configuration: shared state, coroutines, and the tasks that were started. *)
Notation config := (supervisor * list thread * list task)%type.

(** The task that an operation starts. *)
Definition spawned {X} (op : supE X) : option task := match op with Spawn t => Some t | _ => None end.

Definition new_threads (o : option task) : list thread := match o with Some t => [(_execute t, task_role t)] | None => [] end.

Inductive sup_runs : config -> config -> Prop :=
| runs_op s s' ts log j X (op : supE X) k m r :
    ts !! j = Some (Vis op k, m) -> sup_step X op s s' r ->
    sup_runs (s, ts, log)
      (s', (<[j := (k r, role_next X m op r)]> ts ++ new_threads (spawned op))%list, (option_list (spawned op) ++ log)%list)
| runs_cancel s ts log j X (op : supE X) k m :
    ts !! j = Some (Vis op k, m) -> awaits op = true ->
    sup_runs (s, ts, log) (s, <[j := (k (Err cancelled), role_next X m op (Err cancelled))]> ts, log)
| runs_request s ts log p : request p ->
    sup_runs (s, ts, log) (s, (ts ++ [(p, request_role)])%list, log)
| runs_restart s ts log :
    sup_runs (s, ts, log) ({| sv_ops := sv_ops s; sv_active := [] |}, [], log).

(** ** What each coroutine does *)

Definition role_ok (X : Type) (m : role) (op : supE X) : Prop :=
  (forall t, rl_task m = Some t -> rl_held m = Some (tk_extension_id t)) /\
  match op with
  | ActiveAcquire _ => rl_task m = None /\ rl_held m = None
  | ActiveDiscard x => rl_held m = Some x
  | Spawn t => rl_task m = None /\ rl_held m = Some (tk_extension_id t) /\ rl_created m = Some (tk_operation t)
  | _ => True
  end.

Notation rlwp := (mwp role_ok role_next).

(** Programs that leave [_active] alone and start nothing. *)
Definition harmless {A} (p : prog supE A) : Prop :=
  keeps (fun X (_ : unit) (op : supE X) => awaits op = true) (fun _ _ _ _ => tt) (fun _ => True) p.

Definition steady (m : role) : Prop := forall t, rl_task m = Some t -> rl_held m = Some (tk_extension_id t).

Lemma harmless_wp {A} (p : prog supE A) m (Q : role -> result A -> Prop) : harmless p -> steady m ->
  (forall m' r, rl_task m' = rl_task m -> rl_held m' = rl_held m -> Q m' r) -> rlwp p m Q.
Proof.
  intros Hp Hm HQ. specialize (Hp tt I). revert m Hm HQ Hp; induction p as [a|e|X op k IH]; intros m Hm HQ.
  - intros _. by apply HQ.
  - intros _. by apply HQ.
  - intros [Hop Hk]. split; [split; [exact Hm|by destruct op]|]. intros ans.
    assert (rl_task (role_next X m op ans) = rl_task m /\ rl_held (role_next X m op ans) = rl_held m) as [E1 E2].
    { destruct op; try done. by destruct ans. }
    apply IH; [|intros m' r E3 E4; apply HQ; congruence|apply Hk]. unfold steady. by rewrite E1, E2.
Qed.

Lemma harmless_perform {X} (op : supE X) : awaits op = true -> harmless (perform op).
Proof. intros H. by apply keeps_perform. Qed.

Lemma harmless_embed {A} (p : prog lcE A) : harmless (embed p).
Proof. induction p as [a|e|X op k IH]; intros []; [done..|]. intros _. split; [done|]. intros ans. by apply IH. Qed.

Lemma harmless_ignore {A} (p : prog supE A) : harmless p -> harmless (ignore p).
Proof. intros Hp. apply keeps_bind; [done|]. intros a. apply keeps_ret. Qed.

Lemma harmless_quietly {A} (p : prog supE A) : harmless p -> harmless (quietly p).
Proof.
  intros Hp. apply keeps_match; [done|intros a; apply keeps_ret|]. intros e. destruct (exn_is e PyException);
  [apply keeps_ret|apply keeps_raise].
Qed.

(** Walks through a program that only awaits; [known] proves the parts that have lemmas. *)
Ltac walk known :=
  repeat first
    [ known
    | progress cbn zeta
    | apply keeps_ret | apply keeps_raise | apply keeps_of_result | apply harmless_embed
    | apply harmless_quietly | apply harmless_ignore
    | (apply harmless_perform; reflexivity)
    | (apply keeps_bind; [|intros ?]) | (apply keeps_match; [|intros ?|intros ?]) | (apply keeps_try; [|intros ?])
    | (progress unfold port, now, set_status, saved, republish, raise_prog)
    | match goal with |- context [if ?b then _ else _] => destruct b end
    | match goal with |- context [match ?o with _ => _ end] => destruct o end ].

Lemma harmless_record_operation i kind st d : harmless (_record_operation i kind st d).
Proof. unfold _record_operation. walk ltac:(fail). Qed.

Lemma harmless_work w : harmless (run_work w).
Proof. destruct w; cbn [run_work]; walk ltac:(fail). Qed.

Lemma harmless_quarantine r e : harmless (_quarantine r e).
Proof. unfold _quarantine. walk ltac:(apply harmless_record_operation). Qed.

Lemma harmless_invoke x tool args tid run key deadline : harmless (invoke_tool x tool args tid run key deadline).
Proof. unfold invoke_tool. walk ltac:(apply harmless_quarantine). Qed.

Lemma harmless_gather {A} (f : A -> prog supE (list mapping)) l : (forall a, harmless (f a)) -> harmless (gather f l).
Proof. intros Hf. induction l as [|a l IH]; cbn [gather]; walk ltac:(first [apply Hf|apply IH]). Qed.

Lemma harmless_forms : harmless list_forms.
Proof. unfold list_forms. walk ltac:(apply harmless_gather; intros r). unfold forms_of. walk ltac:(fail). Qed.

Lemma harmless_declarations method : harmless (list_declarations method).
Proof. unfold list_declarations. walk ltac:(apply harmless_gather; intros r). unfold declarations_of. walk ltac:(fail). Qed.

Lemma harmless_poll x v r : harmless (poll_source x v r).
Proof. unfold poll_source. walk ltac:(fail). Qed.

Lemma harmless_quarantine_recovered r st e : harmless (_quarantine_recovered r st e).
Proof. unfold _quarantine_recovered. walk ltac:(apply harmless_record_operation). Qed.

Lemma harmless_restart r : harmless (restart r).
Proof. unfold restart, or_quarantine. walk ltac:(apply harmless_quarantine_recovered). Qed.

Lemma harmless_recover_record r : harmless (_recover_record r).
Proof.
  unfold _recover_record. destruct (er_state r) eqn:?; cbn [transient];
    walk ltac:(first [apply harmless_record_operation|apply harmless_restart]).
Qed.

Lemma harmless_recover_all l : harmless (recover_all l).
Proof.
  induction l as [|r l IH]; cbn [recover_all];
    walk ltac:(first [apply harmless_recover_record|apply harmless_record_operation|apply IH]).
Qed.

Lemma harmless_recover : harmless sup_recover.
Proof. unfold sup_recover. walk ltac:(apply harmless_recover_all). Qed.

Lemma harmless_execute_work t : harmless (execute_work t).
Proof. unfold execute_work. walk ltac:(apply harmless_work). Qed.

Lemma execute_wp t : rlwp (_execute t) (task_role t) (fun _ _ => True).
Proof.
  assert (steady (task_role t)) as Hs by (by intros t' [= ->]).
  unfold _execute, prog_finally. apply mwp_match. apply harmless_wp; [|done|].
  - walk ltac:(apply harmless_execute_work).
  - intros m' r E1 E2. assert (role_ok unit m' (ActiveDiscard (tk_extension_id t))) as Hok.
    { split; [|by rewrite E2]. intros t'. rewrite E1, E2. apply Hs. }
    destruct r; (apply mwp_bind, mwp_perform; [done|]); by intros [[]|?].
Qed.

(** A request that holds nothing. *)
Definition idle_request (m : role) : Prop := rl_task m = None /\ rl_held m = None.

Lemma idle_steady m : idle_request m -> steady m.
Proof. intros [H _] t. by rewrite H. Qed.

Lemma harmless_replay scope key fp : harmless (_replay_or_none scope key fp).
Proof. unfold _replay_or_none. walk ltac:(fail). Qed.

Lemma begin_wp x kind w scope key fp m : idle_request m ->
  rlwp (_begin x kind w scope key fp) m (fun _ _ => True).
Proof.
  intros Hm. unfold _begin. apply mwp_bind, harmless_wp; [apply harmless_replay|by apply idle_steady|].
  intros m1 [[o|]|e] E1 E2; [done| |done]. destruct Hm as [Ht Hh]. rewrite <- E1 in Ht. rewrite <- E2 in Hh. clear m E1 E2.
  apply mwp_bind, mwp_perform; [split; [intros t; congruence|done]|]. intros [[]|e]; [|done..]. cbn [negb].
  set (m2 := role_next _ _ _ _). assert (steady m2) as Hs2 by (intros t; cbn; congruence).
  apply mwp_bind, harmless_wp; [walk ltac:(fail)|done|]. intros m3 [t|e] E1 E2; [|done].
  apply mwp_bind, harmless_wp; [walk ltac:(fail)|unfold steady; by rewrite E1, E2|]. intros m4 [uuid|e] E3 E4; [|done].
  apply mwp_bind, mwp_of_result. destruct (make_operation _) as [o|e]; [|done].
  assert (rl_task m4 = None /\ rl_held m4 = Some x) as [Ht4 Hh4] by (rewrite E3, E4, E1, E2; done).
  apply mwp_match, mwp_perform; [split; [intros t'; congruence|done]|]. intros [[]|e].
  - apply mwp_bind, mwp_perform; [split; [intros t'; cbn; congruence|done]|]. by intros [[]|e].
  - unfold create_failed. apply mwp_bind, mwp_perform; [split; [intros t'; cbn; congruence|done]|].
    intros [[]|e']; [|done]. apply harmless_wp; [walk ltac:(fail)|intros t'; cbn; congruence|done].
Qed.

Lemma plain_wp x kind w material key m : idle_request m -> rlwp (begin_plain x kind w material key) m (fun _ _ => True).
Proof.
  intros Hm. unfold begin_plain. apply mwp_bind, mwp_of_result. destruct (_command_fingerprint _ _); [|done].
  by apply begin_wp.
Qed.

(** A harmless prefix in front of a command. *)
Lemma prefix_wp {A B} (p : prog supE A) (f : A -> prog supE B) m : harmless p -> idle_request m ->
  (forall a m', idle_request m' -> rlwp (f a) m' (fun _ _ => True)) -> rlwp (p ≫= f) m (fun _ _ => True).
Proof.
  intros Hp Hm Hf. apply mwp_bind, harmless_wp; [done|by apply idle_steady|]. intros m' [a|e] E1 E2; [|done].
  apply Hf. unfold idle_request in *. by rewrite E1, E2.
Qed.

Lemma ignore_wp {A} (p : prog supE A) m : rlwp p m (fun _ _ => True) -> rlwp (ignore p) m (fun _ _ => True).
Proof. intros H. apply mwp_bind. eapply mwp_mono; [|exact H]. by intros m' [a|e] _. Qed.

Lemma fingerprint_wp {A} (fields : mapping) scope key (f : string -> option ExtensionOperation -> prog supE A) m :
  idle_request m ->
  (forall fp m', idle_request m' -> rlwp (f fp None) m' (fun _ _ => True)) ->
  (forall fp o m', rlwp (f fp (Some o)) m' (fun _ _ => True)) ->
  rlwp (material ← of_result (_command_material fields);
        fingerprint ← of_result (_command_fingerprint scope material);
        replay ← _replay_or_none scope key fingerprint;
        f fingerprint replay) m (fun _ _ => True).
Proof.
  intros Hm Hf Ho. apply prefix_wp; [apply keeps_of_result|done|]. intros mat m1 Hm1.
  apply prefix_wp; [apply keeps_of_result|done|]. intros fp m2 Hm2.
  apply prefix_wp; [apply harmless_replay|done|]. intros [o|] m3 Hm3; [apply Ho|by apply Hf].
Qed.

Lemma install_wp plan_id c key m : idle_request m -> rlwp (begin_install plan_id c key) m (fun _ _ => True).
Proof.
  intros Hm. apply fingerprint_wp; [done| |done]. intros fp m1 Hm1.
  apply prefix_wp; [apply harmless_embed|done|]. intros pv m2 Hm2. destruct (negb _); [done|].
  apply prefix_wp; [apply harmless_embed|done|]. intros [] m3 Hm3. by apply begin_wp.
Qed.

Lemma upgrade_wp x plan_id c key m : idle_request m -> rlwp (begin_upgrade x plan_id c key) m (fun _ _ => True).
Proof.
  intros Hm. apply fingerprint_wp; [done| |done]. intros fp m1 Hm1.
  apply prefix_wp; [apply harmless_embed|done|]. intros pv m2 Hm2. destruct (_ || _); [done|].
  apply prefix_wp; [apply harmless_embed|done|]. intros [] m3 Hm3. by apply begin_wp.
Qed.

Lemma request_wp p : request p -> rlwp p request_role (fun _ _ => True).
Proof.
  assert (idle_request request_role) as Hi by done.
  assert (forall A (p : prog supE A), harmless p -> rlwp (ignore p) request_role (fun _ _ => True)) as Hh.
  { intros A q Hq. by apply ignore_wp, harmless_wp. }
  destruct 1 as [plan_id c key|x plan_id c key|x key|x sec drain key|x key|x key|source|plan_id
    |x tool args tid run key deadline|x v r| |method|].
  - by apply ignore_wp, install_wp.
  - by apply ignore_wp, upgrade_wp.
  - by apply ignore_wp, plain_wp.
  - apply ignore_wp, prefix_wp; [apply harmless_perform; reflexivity|done|]. intros t m' Hm'.
    apply prefix_wp; [apply keeps_of_result|done|]. intros mat m'' Hm''. by apply plain_wp.
  - by apply ignore_wp, plain_wp.
  - by apply ignore_wp, plain_wp.
  - apply Hh, harmless_embed.
  - apply Hh, harmless_embed.
  - apply Hh, harmless_invoke.
  - apply Hh, harmless_poll.
  - apply Hh, harmless_forms.
  - apply Hh, harmless_declarations.
  - by apply harmless_wp; [apply harmless_recover|..].
Qed.

(** ** The operation store *)

Definition same_key (o o' : ExtensionOperation) : Prop :=
  eo_idempotency_key o' = eo_idempotency_key o /\ eo_request_scope o' = eo_request_scope o.

(** No two operations of a scope share an idempotency key. *)
Definition store_ok (ops : operation_store) : Prop := forall a b o1 o2 k,
  assoc a ops = Some o1 -> assoc b ops = Some o2 -> eo_idempotency_key o1 = Some k ->
  eo_idempotency_key o2 = Some k -> eo_request_scope o1 = eo_request_scope o2 -> a = b.

(** Operations are never removed and keep their key. *)
Definition grows (ops ops' : operation_store) : Prop :=
  forall a o, assoc a ops = Some o -> exists o', assoc a ops' = Some o' /\ same_key o o'.

Definition recorded (ops : operation_store) (o : ExtensionOperation) : Prop :=
  exists o', assoc (eo_id o) ops = Some o' /\ same_key o o'.

Lemma recorded_grows ops ops' o : grows ops ops' -> recorded ops o -> recorded ops' o.
Proof.
  intros Hg (o1 & H1 & H2 & H3). destruct (Hg _ _ H1) as (o2 & H4 & H5 & H6). exists o2. split; [done|].
  split; congruence.
Qed.

Lemma grows_refl ops : grows ops ops.
Proof. intros a o Ha. by exists o. Qed.

(** Changing operations without touching their keys. *)
Lemma assoc_fmap_keys {A} (f : string * A -> string * A) l k : (forall kv, (f kv).1 = kv.1) ->
  assoc k (f <$> l) = (fun v => (f (k, v)).2) <$> assoc k l.
Proof.
  intros Hf. induction l as [|[k' v] l IH]; [done|]. rewrite fmap_cons. pose proof (Hf (k', v)) as E.
  destruct (f (k', v)) as [k1 v1] eqn:Ef. cbn in E. subst k1. cbn [assoc]. case_bool_decide as Hk; [|done].
  subst k'. cbn. by rewrite Ef.
Qed.

Lemma keeps_keys_ok ops ops' : store_ok ops ->
  (forall a o', assoc a ops' = Some o' -> exists o, assoc a ops = Some o /\ same_key o o') -> store_ok ops'.
Proof.
  intros Hs Hb a b o1 o2 k H1 H2 K1 K2 Hsc. destruct (Hb _ _ H1) as (p1 & P1 & E1 & S1).
  destruct (Hb _ _ H2) as (p2 & P2 & E2 & S2). apply (Hs a b p1 p2 k); congruence.
Qed.

Lemma create_ok o ops ops' : store_ok ops -> ops_create o ops = (ops', Ok tt) ->
  store_ok ops' /\ grows ops ops' /\ recorded ops' o /\ assoc (eo_id o) ops = None.
Proof.
  intros Hs. unfold ops_create. destruct (validate_diagnostic_code _) as [[]|e0]; [|by intros [= _ H]].
  case_bool_decide as E1; [by intros [= _ H]|]. rewrite <- eq_None_not_Some in E1.
  destruct (bool_decide _ && _) eqn:E2; [by intros [= _ H]|]. intros [= <-].
  assert (forall a o1 k, assoc a ops = Some o1 -> eo_idempotency_key o1 = Some k -> eo_idempotency_key o = Some k ->
    eo_request_scope o1 = eo_request_scope o -> False) as Hnew.
  { intros a o1 k Ha K1 K2 Hsc. apply andb_false_iff in E2 as [E2|E2].
    - rewrite bool_decide_eq_false in E2. apply E2. by exists k.
    - apply not_true_iff_false in E2. apply E2, existsb_exists. exists (a, o1). split.
      + by apply list_elem_of_In, assoc_elem_of.
      + apply andb_true_iff. split; [apply orb_true_iff; left|]; apply bool_decide_eq_true_2; cbn; congruence. }
  split_and!.
  - intros a b o1 o2 k H1 H2 K1 K2 Hsc.
    destruct (decide (a = eo_id o)) as [->|Ha]; destruct (decide (b = eo_id o)) as [->|Hb]; [done|..];
      rewrite ?assoc_set_same, ?assoc_set_other in H1 by done; rewrite ?assoc_set_same, ?assoc_set_other in H2 by done.
    + injection H1 as <-. destruct (Hnew b o2 k); congruence.
    + injection H2 as <-. destruct (Hnew a o1 k); congruence.
    + by apply (Hs a b o1 o2 k).
  - intros a o1 Ha. exists o1. split; [|done]. rewrite assoc_set_other; [done|]. intros ->. congruence.
  - exists o. split; [apply assoc_set_same|done].
  - done.
Qed.

Lemma update_ok i st d now ops ops' r : store_ok ops -> ops_update i st d now ops = (ops', r) ->
  store_ok ops' /\ grows ops ops'.
Proof.
  intros Hs. unfold ops_update. destruct (validate_diagnostic_code _) as [[]|e0]; [|intros [= <- _]; split; [done|apply grows_refl]].
  destruct (assoc i ops) as [o|] eqn:E; intros [= <- _]; [|split; [done|apply grows_refl]]. split.
  - eapply keeps_keys_ok; [exact Hs|]. intros a o'. destruct (decide (a = i)) as [->|Ha].
    + rewrite assoc_set_same. intros [= <-]. by exists o.
    + rewrite assoc_set_other by done. intros H. by exists o'.
  - intros a o1 Ha. destruct (decide (a = i)) as [->|Hi].
    + rewrite assoc_set_same. eexists. split; [done|]. by rewrite E in Ha; injection Ha as <-.
    + exists o1. by rewrite assoc_set_other.
Qed.

Lemma interrupt_ok d now ops ops' r : store_ok ops -> interrupt_running d now ops = (ops', r) ->
  store_ok ops' /\ grows ops ops'.
Proof.
  intros Hs. unfold interrupt_running. destruct (validate_diagnostic_code _) as [[]|e0]; [|intros [= <- _]; split; [done|apply grows_refl]].
  intros [= <- _]. set (f := fun kv : string * ExtensionOperation => _).
  assert (forall kv, (f kv).1 = kv.1) as Hf by (intros [k o]; unfold f; cbn; by destruct (is_open o)).
  assert (forall a o, same_key o (f (a, o)).2) as Hk by (intros a o; unfold f; cbn; by destruct (is_open o)). split.
  - eapply keeps_keys_ok; [exact Hs|]. intros a o'. rewrite assoc_fmap_keys by done.
    destruct (assoc a ops) as [o|]; [|done]. intros [= <-]. by exists o.
  - intros a o Ha. rewrite assoc_fmap_keys, Ha by done. by eexists.
Qed.

(** ** The global invariant *)

Definition op_id (t : task) : string := eo_id (tk_operation t).

Record roles_ok (s : supervisor) (rs : list role) (log : list task) : Prop := {
  ro_alone : forall i j mi mj x, rs !! i = Some mi -> rs !! j = Some mj -> rl_held mi = Some x -> rl_held mj = Some x -> i = j;
  ro_active : forall i m x, rs !! i = Some m -> rl_held m = Some x -> x ∈ sv_active s;
  ro_store : store_ok (sv_ops s);
  ro_created : forall i m o, rs !! i = Some m -> rl_created m = Some o ->
    recorded (sv_ops s) o /\ eo_id o ∉ op_id <$> log;
  ro_distinct : forall i j mi mj oi oj, rs !! i = Some mi -> rs !! j = Some mj -> rl_created mi = Some oi ->
    rl_created mj = Some oj -> eo_id oi = eo_id oj -> i = j;
  ro_log : NoDup (op_id <$> log) /\ Forall (fun t => recorded (sv_ops s) (tk_operation t)) log
}.

(** The role at a position after an update. *)
Lemma role_cases (rs : list role) j m' i m1 : <[j := m']> rs !! i = Some m1 -> (i = j /\ m1 = m') \/ (i <> j /\ rs !! i = Some m1).
Proof. rewrite list_lookup_insert_Some. naive_solver. Qed.

(** A step that gives nothing to the caller. *)
Lemma roles_weaken s s' rs log j m m' : roles_ok s rs log -> rs !! j = Some m ->
  (forall x, rl_held m' = Some x -> rl_held m = Some x) -> (forall o, rl_created m' = Some o -> rl_created m = Some o) ->
  (forall x, x ∈ sv_active s -> x ∈ sv_active s' \/ rl_held m = Some x /\ rl_held m' = None) ->
  store_ok (sv_ops s') -> grows (sv_ops s) (sv_ops s') -> roles_ok s' (<[j := m']> rs) log.
Proof.
  intros [H1 H2 H3 H4 H5 H6] Hj Hh Hc Ha Hs Hg.
  assert (forall i m1, <[j := m']> rs !! i = Some m1 -> exists m2, rs !! i = Some m2 /\
    (forall x, rl_held m1 = Some x -> rl_held m2 = Some x) /\ (forall o, rl_created m1 = Some o -> rl_created m2 = Some o)) as Hold.
  { intros i m1 [[-> ->]|[_ Hi]]%role_cases; [by exists m|by exists m1]. }
  split.
  - intros i k mi mk x Hi Hk Xi Xk. destruct (Hold _ _ Hi) as (ni & Ni & Ai & _). destruct (Hold _ _ Hk) as (nk & Nk & Ak & _).
    apply (H1 i k ni nk x); auto.
  - intros i mi x Hi Xi. destruct (Hold _ _ Hi) as (ni & Ni & Ai & _).
    destruct (Ha x (H2 i ni x Ni (Ai _ Xi))) as [|[Hx Hn]]; [done|].
    assert (i = j) as -> by (apply (H1 i j ni m x); auto). apply role_cases in Hi as [[_ ->]|[]]; [congruence|done].
  - done.
  - intros i mi o Hi Xi. destruct (Hold _ _ Hi) as (ni & Ni & _ & Bi). destruct (H4 i ni o Ni (Bi _ Xi)) as [Hr Hl].
    split; [by eapply recorded_grows|done].
  - intros i k mi mk oi ok Hi Hk Xi Xk. destruct (Hold _ _ Hi) as (ni & Ni & _ & Bi). destruct (Hold _ _ Hk) as (nk & Nk & _ & Bk).
    apply (H5 i k ni nk oi ok); auto.
  - destruct H6 as [H6 H7]. split; [done|]. eapply Forall_impl; [exact H7|]. intros t. by apply recorded_grows.
Qed.

Lemma roles_acquire s s' rs log j m x : roles_ok s rs log -> rs !! j = Some m -> x ∉ sv_active s ->
  sv_active s' = x :: sv_active s -> sv_ops s' = sv_ops s -> roles_ok s' (<[j := m {{ rl_held := Some x }}]> rs) log.
Proof.
  intros [H1 H2 H3 H4 H5 H6] Hj Hx Ea Eo. split; rewrite ?Eo; try done.
  - intros i k mi mk y [[-> ->]|[Ni Hi]]%role_cases [[-> ->]|[Nk Hk]]%role_cases; cbn; [done|..|by apply H1].
    + intros [= <-] Hy. by destruct Hx; apply (H2 k mk).
    + intros Hy [= <-]. by destruct Hx; apply (H2 i mi).
  - intros i mi y [[-> ->]|[Ni Hi]]%role_cases; rewrite Ea; [intros [= <-]; apply list_elem_of_here|].
    intros Hy. by apply list_elem_of_further, (H2 i mi).
  - intros i mi o [[-> ->]|[Ni Hi]]%role_cases; [exact (H4 j m o Hj)|exact (H4 i mi o Hi)].
  - intros i k mi mk oi ok [[-> ->]|[Ni Hi]]%role_cases [[-> ->]|[Nk Hk]]%role_cases; [done|exact (H5 j k m mk oi ok Hj Hk)|exact (H5 i j mi m oi ok Hi Hj)|by apply H5].
Qed.

Lemma roles_create s s' rs log j m o : roles_ok s rs log -> rs !! j = Some m -> sv_active s' = sv_active s ->
  ops_create o (sv_ops s) = (sv_ops s', Ok tt) -> roles_ok s' (<[j := m {{ rl_created := Some o }}]> rs) log.
Proof.
  intros [H1 H2 H3 H4 H5 H6] Hj Ea Ec. destruct (create_ok _ _ _ H3 Ec) as (Hs & Hg & Hr & Hn).
  assert (forall o', recorded (sv_ops s) o' -> eo_id o' <> eo_id o) as Hfresh.
  { intros o' (o'' & Ho & _) E. rewrite E, Hn in Ho. done. }
  split; rewrite ?Ea.
  - intros i k mi mk y [[-> ->]|[Ni Hi]]%role_cases [[-> ->]|[Nk Hk]]%role_cases; [done|exact (H1 j k m mk y Hj Hk)|exact (H1 i j mi m y Hi Hj)|by apply H1].
  - intros i mi y [[-> ->]|[Ni Hi]]%role_cases; [exact (H2 j m y Hj)|exact (H2 i mi y Hi)].
  - done.
  - intros i mi o' [[-> ->]|[Ni Hi]]%role_cases.
    + intros [= <-]. split; [done|]. intros (t & Ht & Hin)%list_elem_of_fmap. destruct H6 as [_ H6].
      rewrite Forall_forall in H6. by apply (Hfresh (tk_operation t)); [apply H6|].
    + intros Ho. destruct (H4 i mi o' Hi Ho). split; [by eapply recorded_grows|done].
  - intros i k mi mk oi ok [[-> ->]|[Ni Hi]]%role_cases [[-> ->]|[Nk Hk]]%role_cases; cbn; [done|..|by apply H5].
    + intros [= <-] Ho E. destruct (H4 k mk ok Hk Ho) as [Hr' _]. by destruct (Hfresh _ Hr').
    + intros Ho [= <-] E. destruct (H4 i mi oi Hi Ho) as [Hr' _]. by destruct (Hfresh _ Hr').
  - destruct H6 as [H6 H7]. split; [done|]. eapply Forall_impl; [exact H7|]. intros t. by apply recorded_grows.
Qed.

Lemma roles_add s rs log m : roles_ok s rs log -> rl_created m = None ->
  (forall x, rl_held m = Some x -> x ∈ sv_active s /\ forall i mi, rs !! i = Some mi -> rl_held mi <> Some x) ->
  roles_ok s (rs ++ [m]) log.
Proof.
  intros [H1 H2 H3 H4 H5 H6] Hc Hh.
  assert (forall i mi, (rs ++ [m])%list !! i = Some mi -> rs !! i = Some mi \/ (i = length rs /\ mi = m)) as Hold.
  { intros i mi. rewrite lookup_app_Some, list_lookup_singleton_Some. intros [?|[? [? ->]]]; [by left|right]. split; [lia|done]. }
  split; try done.
  - intros i k mi mk x [Hi|[-> ->]]%Hold [Hk|[-> ->]]%Hold Xi Xk; [by apply (H1 i k mi mk x)|..|done].
    + by destruct (Hh x Xk) as [_ H]; destruct (H i mi Hi).
    + by destruct (Hh x Xi) as [_ H]; destruct (H k mk Hk).
  - intros i mi x [Hi|[-> ->]]%Hold Xi; [by apply (H2 i mi)|]. by apply Hh.
  - intros i mi o [Hi|[-> ->]]%Hold Xi; [by apply (H4 i mi)|congruence].
  - intros i k mi mk oi ok [Hi|[-> ->]]%Hold [Hk|[-> ->]]%Hold Xi Xk; [by apply (H5 i k mi mk)|congruence..].
Qed.

Lemma roles_spawn s rs log j m t : roles_ok s rs log -> rs !! j = Some m -> rl_held m = Some (tk_extension_id t) ->
  rl_created m = Some (tk_operation t) ->
  roles_ok s (<[j := m {{ rl_held := None; rl_created := None }}]> rs ++ [task_role t]) (t :: log).
Proof.
  intros Hok Hj Hh Hc. destruct (ro_created _ _ _ Hok j m _ Hj Hc) as [Hrec Hnew]. apply roles_add; [|done|].
  - assert (roles_ok s (<[j := m {{ rl_held := None; rl_created := None }}]> rs) log) as [H1 H2 H3 H4 H5 H6].
    { eapply roles_weaken; [exact Hok|exact Hj|done|done|by left|by destruct Hok|apply grows_refl]. }
    split; try done.
    + intros i mi o Hi Ho. destruct (H4 i mi o Hi Ho) as [Hr Hl]. split; [done|]. rewrite fmap_cons, not_elem_of_cons.
      split; [|done]. intros E. apply role_cases in Hi as [[-> ->]|[Ni Hi]]; [done|].
      apply Ni. by apply (ro_distinct _ _ _ Hok i j mi m o (tk_operation t)).
    + destruct H6 as [H6 H7]. rewrite fmap_cons, NoDup_cons, Forall_cons. by split_and!.
  - intros x [= <-]. split; [by eapply ro_active|]. intros i mi [[-> ->]|[Ni Hi]]%role_cases; [done|].
    intros Hx. apply Ni. by apply (ro_alone _ _ _ Hok i j mi m (tk_extension_id t)).
Qed.

Definition sup_inv (c : config) : Prop :=
  let '(s, ts, log) := c in roles_ok s ts.*2 log /\ Forall (fun th => rlwp th.1 th.2 (fun _ _ => True)) ts.

(** An operation that leaves the role as it is. *)
Lemma roles_keep s s' rs log j m : roles_ok s rs log -> rs !! j = Some m -> sv_active s' = sv_active s ->
  store_ok (sv_ops s') -> grows (sv_ops s) (sv_ops s') -> roles_ok s' (<[j := m]> rs) log.
Proof.
  intros Hok Hj Ea Hs Hg. eapply roles_weaken; [exact Hok|exact Hj|done|done| |done|done].
  intros x Hx. left. by rewrite Ea.
Qed.

Lemma roles_step s s' rs log j X (op : supE X) m r : roles_ok s rs log -> rs !! j = Some m -> role_ok X m op ->
  sup_step X op s s' r ->
  roles_ok s' (<[j := role_next X m op r]> rs ++ (new_threads (spawned op)).*2) (option_list (spawned op) ++ log).
Proof.
  intros Hok Hj [_ Hrole] Hstep. pose proof (ro_store _ _ _ Hok) as Hst.
  assert (forall s', sv_active s' = sv_active s -> sv_ops s' = sv_ops s -> roles_ok s' (<[j := m]> rs) log) as Hsame.
  { intros s1 E1 E2. apply (roles_keep s); rewrite ?E2; try done. apply grows_refl. }
  destruct op; cbn [sup_step role_next spawned new_threads option_list fmap list_fmap] in *;
    rewrite ?app_nil_r; cbn [app]; try (subst s'; by apply Hsame).
  - destruct Hstep as [Ea [Hc|[Eo Hr]]].
    + destruct r as [[]|e]; [by apply (roles_create s)|]. apply Hsame; [done|].
      clear -Hc. unfold ops_create in Hc. destruct (validate_diagnostic_code _); [|by injection Hc].
      case_bool_decide; [by injection Hc|]. destruct (_ && _); [by injection Hc|]. discriminate Hc.
    + destruct r; [done|]. by apply Hsame.
  - destruct Hstep as [Ea [[now Hc]|[Eo Hr]]]; [|by apply Hsame]. symmetry in Hc.
    destruct (update_ok _ _ _ _ _ _ _ Hst Hc). by apply (roles_keep s).
  - destruct Hstep as [-> _]. by apply Hsame.
  - destruct Hstep as [-> _]. by apply Hsame.
  - destruct Hstep as [Ea [[now Hc]|[Eo Hr]]]; [|by apply Hsame]. symmetry in Hc.
    destruct (interrupt_ok _ _ _ _ _ Hst Hc). by apply (roles_keep s).
  - destruct Hstep as (-> & Eo & Ea). destruct (mem_b extension_id (sv_active s)) eqn:E; cbn [negb]; [by apply Hsame|].
    apply mem_b_false in E. by apply (roles_acquire s).
  - destruct Hstep as (-> & Eo & Ea). eapply roles_weaken; [exact Hok|exact Hj|done|done| |by rewrite Eo|rewrite Eo; apply grows_refl].
    intros x Hx. destruct (decide (x = extension_id)) as [->|Hn]; [by right|left]. rewrite Ea, list_elem_of_In. apply filter_In.
    split; [by apply list_elem_of_In|]. by rewrite bool_decide_eq_false_2.
  - destruct Hstep as [-> _]. destruct Hrole as (_ & Hh & Hc). by apply roles_spawn.
Qed.

Lemma sup_runs_inv c c' : sup_runs c c' -> sup_inv c -> sup_inv c'.
Proof.
  destruct 1 as [s s' ts log j X op k m r Hj Hstep|s ts log j X op k m Hj Haw|s ts log p Hp|s ts log]; intros [Hr Hw]; cbn.
  - pose proof (Forall_lookup_1 _ _ _ _ Hw Hj) as [Hok Hk]. assert (ts.*2 !! j = Some m) as Hj2 by (by rewrite list_lookup_fmap, Hj).
    rewrite fmap_app, list_fmap_insert. split.
    + eapply roles_step; [exact Hr|exact Hj2|exact Hok|exact Hstep].
    + apply Forall_app. split; [apply Forall_insert; [done|apply Hk]|]. destruct (spawned op) as [t|]; [|done].
      apply Forall_singleton, execute_wp.
  - pose proof (Forall_lookup_1 _ _ _ _ Hw Hj) as [Hok Hk].
    assert (ts.*2 !! j = Some m) as Hj2 by (by rewrite list_lookup_fmap, Hj).
    rewrite list_fmap_insert. split; [|apply Forall_insert; [done|apply Hk]].
    cbn [snd]. assert (role_next X m op (Err cancelled) = m) as -> by (by destruct op).
    apply (roles_keep s); [done|exact Hj2|done|by destruct Hr|apply grows_refl].
  - rewrite fmap_app. split; [by apply roles_add|]. apply Forall_app. split; [done|]. by apply Forall_singleton, request_wp.
  - split; [|done]. destruct Hr as [_ _ H3 _ _ H6]. by split; intros; try done.
Qed.

(** C17. Lifecycle commands run once and alone.  However requests, their background tasks, cancellations
    and restarts of the supervisor interleave: no two running commands hold the same extension; a task
    touches nothing before it holds its extension or after it has released it; and of all the tasks ever
    started, restarts included, no two have the same request scope and idempotency key. *)
Theorem commands_run_once_and_alone s ts log :
  star sup_runs ({| sv_ops := []; sv_active := [] |}, [], []) (s, ts, log) ->
  (forall i j p q m n x, ts !! i = Some (p, m) -> ts !! j = Some (q, n) ->
     rl_held m = Some x -> rl_held n = Some x -> i = j) /\
  (forall j X (op : supE X) k m t, ts !! j = Some (Vis op k, m) -> rl_task m = Some t ->
     rl_held m = Some (tk_extension_id t)) /\
  (forall i j t u key, log !! i = Some t -> log !! j = Some u ->
     eo_idempotency_key (tk_operation t) = Some key -> eo_idempotency_key (tk_operation u) = Some key ->
     eo_request_scope (tk_operation t) = eo_request_scope (tk_operation u) -> i = j).
Proof.
  intros Hstar. assert (sup_inv (s, ts, log)) as [Hr Hw].
  { eapply star_invariant; [exact sup_runs_inv|exact Hstar|]. split; [|done]. split; try done. split; [constructor|done]. }
  split_and!.
  - intros i j p q m n x Hi Hj. apply (ro_alone _ _ _ Hr i j m n x); by rewrite list_lookup_fmap, ?Hi, ?Hj.
  - intros j X op k m t Hj Ht. destruct (Forall_lookup_1 _ _ _ _ Hw Hj) as [[H _] _]. by apply H.
  - intros i j t u key Hi Hj K1 K2 Hsc. destruct (ro_log _ _ _ Hr) as [Hnd Hrec].
    destruct (Forall_lookup_1 _ _ _ _ Hrec Hi) as (o1 & A1 & E1 & S1).
    destruct (Forall_lookup_1 _ _ _ _ Hrec Hj) as (o2 & A2 & E2 & S2).
    assert (op_id t = op_id u) as E by (apply (ro_store _ _ _ Hr _ _ o1 o2 key A1 A2); congruence).
    eapply NoDup_lookup; [exact Hnd| |]; rewrite list_lookup_fmap, ?Hi, ?Hj; cbn; by rewrite ?E.
Qed.
End system.

(** ** Running a supervisor *)

Module SupervisorScenario.

(** Answers of the shared state; the ports of the extension fail. *)
Definition answer (X : Type) (op : supE X) (s : supervisor) : supervisor * result X :=
  match op in supE X return supervisor * result X with
  | ActiveAcquire x =>
      ({| sv_ops := sv_ops s; sv_active := if mem_b x (sv_active s) then sv_active s else x :: sv_active s |},
       Ok (negb (mem_b x (sv_active s))))
  | ActiveDiscard x =>
      ({| sv_ops := sv_ops s; sv_active := List.filter (fun y => negb (bool_decide (y = x))) (sv_active s) |}, Ok tt)
  | OpsCreate o => let '(ops, r) := ops_create o (sv_ops s) in ({| sv_ops := ops; sv_active := sv_active s |}, r)
  | OpsUpdate i st d =>
      let '(ops, r) := ops_update i st d 0 (sv_ops s) in ({| sv_ops := ops; sv_active := sv_active s |}, r)
  | OpsFind scope key => (s, (find_by_request_scope scope key (sv_ops s)).2)
  | Spawn _ => (s, Ok tt)
  | Uuid => (s, Ok (str_of_Z (Z.of_nat (length (sv_ops s)))))
  | SupLc (Do _ op) => (s, match op in lcOp X return result X with Clock => Ok 0 | _ => fail PyRuntimeError "port" end)
  | OpsInterrupt _ => (s, fail PyRuntimeError "port")
  | OpsGet _ => (s, fail PyRuntimeError "port")
  | _ => (s, fail PyRuntimeError "port")
  end.

Lemma supervisor_answer_step X (op : supE X) s : sup_step X op s (answer X op s).1 (answer X op s).2.
Proof.
  destruct op as [X [b o]| | | | | | | | | | | | | | | | | | |]; cbn; try done.
  - split; [|left]; by destruct (ops_create _ _).
  - split; [|left; exists 0]; by destruct (ops_update _ _ _ _ _).
  - by split; [|right].
  - by split; [|left].
  - by split; [|right].
Qed.

(** Runs one coroutine for some steps. *)
Fixpoint advance (n : nat) (j : nat) (c : supervisor * list (prog supE unit * role) * list task) :=
  match n with
  | O => c
  | S n =>
      let '(s, ts, log) := c in
      match ts !! j with
      | Some (Vis op k, m) =>
          let r := answer _ op s in
          advance n j (r.1, (<[j := (k r.2, role_next _ m op r.2)]> ts ++ new_threads (spawned op))%list,
                       (option_list (spawned op) ++ log)%list)
      | _ => c
      end
  end.

Lemma advance_runs w ttl n j c : star (sup_runs w ttl) c (advance n j c).
Proof.
  revert c; induction n as [|n IH]; intros [[s ts] log]; cbn [advance]; [constructor|].
  destruct (ts !! j) as [[[a|e|X op k] m]|] eqn:E; [constructor..| |constructor].
  eapply star_step; [|apply IH]. by apply runs_op, supervisor_answer_step.
Qed.

Definition enabling : prog supE unit := ignore (begin_enable "nju.smail" (Some "key")).

(** A command, the same command again, and both to their end. *)
Definition first_request := advance 20 0 ({| sv_ops := []; sv_active := [] |}, [(enabling, request_role)], []).
Definition second_request :=
  let '(s, ts, log) := first_request in advance 20 2 (s, (ts ++ [(enabling, request_role)])%list, log).

End SupervisorScenario.

Lemma commands_run_once_and_alone_witness :
  exists s ts t, star (sup_runs "" 0) ({| sv_ops := []; sv_active := [] |}, [], []) (s, ts, [t]) /\
    length ts = 3%nat /\ eo_idempotency_key (tk_operation t) = Some "key" /\
    (forall j X (op : supE X) k m t, ts !! j = Some (Vis op k, m) -> rl_task m = Some t ->
       rl_held m = Some (tk_extension_id t)).
Proof.
  assert (star (sup_runs "" 0) ({| sv_ops := []; sv_active := [] |}, [], []) SupervisorScenario.second_request) as H.
  { eapply star_trans.
    - eapply star_step; [apply (runs_request "" 0 _ [] []), (req_enable "" 0 "nju.smail" (Some "key"))|].
      exact (SupervisorScenario.advance_runs "" 0 20 0 ({| sv_ops := []; sv_active := [] |},
        [(SupervisorScenario.enabling, request_role)], [])).
    - fold SupervisorScenario.first_request. unfold SupervisorScenario.second_request.
      destruct SupervisorScenario.first_request as [[s ts] log].
      eapply star_step; [apply (runs_request "" 0 s ts log), (req_enable "" 0 "nju.smail" (Some "key"))|].
      apply SupervisorScenario.advance_runs. }
  assert (length SupervisorScenario.second_request.1.2 = 3%nat) as Hl by (vm_compute; reflexivity).
  assert ((eo_idempotency_key ∘ tk_operation <$> SupervisorScenario.second_request.2) = [Some "key"]) as Hk
    by (vm_compute; reflexivity).
  destruct SupervisorScenario.second_request as [[s ts] log]. cbn [fst snd] in Hl, Hk.
  destruct log as [|t [|]]; [discriminate Hk| |discriminate Hk]. exists s, ts, t. split; [exact H|]. split; [exact Hl|].
  split; [by injection Hk|]. exact (proj1 (proj2 (commands_run_once_and_alone "" 0 s ts [t] H))).
Defined.
