(* ===== verification/Recovery.v ===== *)
(** * Recovery: what a restarted supervisor publishes

    Safety of [ExtensionSupervisorService.recover]: every trace, whatever the ports answer, except that
    the store lists each extension once. *)

From S2P Require Import Prelude Text Json Domain Monitor Rely Manifest Extensions Lifecycle Operations Supervision.
From S2P Require Import LifecycleSafety.
Local Open Scope string_scope.
Local Open Scope Z_scope.

(** What the trace has shown: whether interrupted operations were closed, the listed records, the record
    the last worker was started with, those whose worker was told to start and not to stop since, those
    found healthy among them, the records that were saved, those whose saving was attempted, and what was
    published. *)
Record recovery := {
  rc_interrupted : bool;
  rc_all : list ExtensionRecord;
  rc_started : option ExtensionRecord;
  rc_live : list ExtensionRecord;
  rc_healthy : list ExtensionRecord;
  rc_saved : list ExtensionRecord;
  rc_attempted : list ExtensionRecord;
  rc_published : list (list ExtensionRecord)
}.
#[export] Instance recovery_eta : Eta recovery := fun m =>
  Build_recovery (rc_interrupted m) (rc_all m) (rc_started m) (rc_live m) (rc_healthy m) (rc_saved m)
    (rc_attempted m) (rc_published m).

Definition restarted : recovery :=
  {| rc_interrupted := false; rc_all := []; rc_started := None; rc_live := []; rc_healthy := []; rc_saved := [];
     rc_attempted := []; rc_published := [] |}.

Definition other_workers (r : ExtensionRecord) (l : list ExtensionRecord) : list ExtensionRecord :=
  List.filter (fun r' => negb (bool_decide (er_id r' = er_id r))) l.

Definition rec_port (X : Type) (m : recovery) (op : lcOp X) : result X -> recovery :=
  match op in lcOp X return result X -> recovery with
  | Start r => fun ans => m {{ rc_started := match ans with Ok _ => Some r | Err _ => None end;
                               rc_live := r :: rc_live m; rc_healthy := other_workers r (rc_healthy m) }}
  | Health r => fun ans => match ans with
                           | Ok true => m {{ rc_healthy := (option_list (rc_started m) ++ rc_healthy m)%list }}
                           | _ => m
                           end
  | Stop r => fun _ => m {{ rc_started := None; rc_live := other_workers r (rc_live m);
                            rc_healthy := other_workers r (rc_healthy m) }}
  | StoreSave r => fun ans =>
      m {{ rc_saved := match ans with Ok _ => r :: rc_saved m | Err _ => rc_saved m end;
           rc_attempted := r :: rc_attempted m }}
  | _ => fun _ => m
  end.

Definition rec_next (X : Type) (m : recovery) (op : supE X) : result X -> recovery :=
  match op in supE X return result X -> recovery with
  | SupLc (Do _ op) => rec_port _ m op
  | StoreAll => fun ans => m {{ rc_all := match ans with Ok l => l | Err _ => [] end }}
  | OpsInterrupt _ => fun ans => m {{ rc_interrupted := is_ok ans }}
  | RegReplaceAll enabled => fun ans =>
      m {{ rc_published := match ans with Ok _ => enabled :: rc_published m | Err _ => rc_published m end }}
  | _ => fun _ => m
  end.

Definition rec_may (X : Type) (m : recovery) (op : supE X) : result X -> Prop :=
  match op in supE X return result X -> Prop with
  | StoreAll => fun ans => match ans with Ok l => NoDup (er_id <$> l) | Err _ => True end
  | _ => fun _ => True
  end.

(** The worker of an enabled record came back: started, healthy, not stopped since, and persisted. *)
Definition came_back (m : recovery) (r : ExtensionRecord) : Prop :=
  er_state r = ExtensionState.ENABLED /\ as_starting r ∈ rc_healthy m /\ r ∈ rc_saved m.

(** A state that is not the middle of an operation. *)
Definition resting (s : ExtensionState.t) : bool :=
  bool_decide (transient s = None) && negb (bool_decide (s = ExtensionState.UNINSTALLING)).

(** The record was at rest already, a resting state was saved for it, or the attempt to save it as
    quarantined came to nothing. *)
Definition settled (m : recovery) (r r' : ExtensionRecord) : Prop :=
  er_id r' = er_id r /\ resting (er_state r') = true /\
  (r' = r \/ r' ∈ rc_saved m \/ (er_state r' = ExtensionState.QUARANTINED /\ r' ∈ rc_attempted m)) /\
  (er_state r' = ExtensionState.ENABLED -> came_back m r').

Definition rec_ok (X : Type) (m : recovery) (op : supE X) : Prop :=
  match op with
  | StoreAll => rc_interrupted m = true
  | RegReplaceAll enabled =>
      rc_published m = [] /\ Forall (came_back m) enabled /\
      Forall (fun r => exists r', settled m r r' /\ (er_state r' = ExtensionState.ENABLED -> r' ∈ enabled)) (rc_all m) /\
      Forall (fun r => er_id r ∈ er_id <$> enabled) (rc_live m)
  | SupLc (Do _ op) =>
      match op with
      | Start r => er_state r = ExtensionState.STARTING /\ truthy (er_install_path r) = true /\ r ∈ rc_saved m
      | Health r => rc_started m = Some r
      | Stop _ | StoreSave _ | PathExists _ | Discard _ | Clock => True
      | _ => False
      end
  | OpsInterrupt _ | OpsCreate _ | Uuid | IsDir _ => True
  | _ => False
  end.

Notation vwp := (rwp rec_ok rec_next rec_may).

(** What the recovery of one extension leaves alone. *)
Definition others_kept (i : string) (m m' : recovery) : Prop :=
  rc_all m' = rc_all m /\ rc_attempted m ⊆ rc_attempted m' /\ rc_saved m ⊆ rc_saved m' /\
  rc_published m' = rc_published m /\
  (forall r, er_id r <> i -> r ∈ rc_healthy m -> r ∈ rc_healthy m') /\
  (forall r, er_id r <> i -> r ∈ rc_live m' -> r ∈ rc_live m).

(** No worker of extension [i] is left running. *)
Definition no_worker (i : string) (m : recovery) : Prop := forall r, r ∈ rc_live m -> er_id r <> i.

Lemma others_refl i m : others_kept i m m.
Proof. by split_and!. Qed.

Lemma others_trans i m1 m2 m3 : others_kept i m1 m2 -> others_kept i m2 m3 -> others_kept i m1 m3.
Proof.
  intros (?&?&?&?&H&L) (?&?&?&?&H'&L'). split_and!; [congruence|set_solver..|congruence| |].
  - intros r Hi Hr. by apply H', H.
  - intros r Hi Hr. by apply L, L'.
Qed.

Lemma other_workers_elem r r' l : r' ∈ other_workers r l <-> r' ∈ l /\ er_id r' <> er_id r.
Proof.
  unfold other_workers. rewrite !list_elem_of_In, filter_In. case_bool_decide; naive_solver.
Qed.

Lemma rec_await {X} (o : lcOp X) m (Q : recovery -> result X -> Prop) :
  rec_ok X m (SupLc (Do false o)) -> (forall ans, Q (rec_port X m o ans) ans) -> vwp (port o) m Q.
Proof. intros Hok HQ. apply rwp_perform; [done|]. intros ans _. apply HQ. Qed.

(** Quiet steps: bookkeeping that no worker notices. *)
Lemma record_operation_vwp i kind st d m (Q : recovery -> result unit -> Prop) :
  (forall r, Q m r) -> vwp (_record_operation i kind st d) m Q.
Proof.
  intros HQ. unfold _record_operation, now. apply rwp_bind, rec_await; [done|]. intros [t|e]; [|apply HQ]. cbn [rec_port].
  apply rwp_match, rwp_bind, rwp_perform; [done|]. intros [u|e] _; [|destruct (exn_is e PyException); apply HQ].
  apply rwp_bind, rwp_of_result. destruct (make_operation _) as [o|e]; [|destruct (exn_is e PyException); apply HQ].
  apply rwp_perform; [done|]. intros [[]|e] _; [apply HQ|destruct (exn_is e PyException); apply HQ].
Qed.

Lemma quietly_vwp {X} (p : prog supE X) m (Q : recovery -> result unit -> Prop) :
  vwp p m (fun m' _ => forall r, Q m' r) -> vwp (quietly p) m Q.
Proof.
  intros H. apply rwp_match. eapply rwp_mono; [exact H|]. intros m' [a|e] HQ; [apply HQ|].
  destruct (exn_is e PyException); apply HQ.
Qed.

(** One operation on the ports for extension [i]. *)
Lemma port_others i X (o : lcOp X) m ans :
  match o with
  | Start r | Stop r => er_id r = i
  | _ => True
  end -> others_kept i m (rec_port X m o ans).
Proof.
  destruct o; intros Hi; try apply others_refl.
  - destruct ans; split_and!; cbn; set_solver.
  - split_and!; cbn; try done; intros r Hr Hin.
    + apply other_workers_elem. split; [done|]. congruence.
    + apply elem_of_cons in Hin as [->|Hin]; [congruence|done].
  - destruct ans as [[]|]; try apply others_refl. split_and!; cbn; set_solver.
  - split_and!; cbn; try done; intros r Hr Hin.
    + apply other_workers_elem. split; [done|]. congruence.
    + by apply other_workers_elem in Hin as [? _].
Qed.

Lemma stop_no_worker r m ans : no_worker (er_id r) (rec_port unit m (Stop r) ans).
Proof. intros r' Hr'. cbn in Hr'. by apply other_workers_elem in Hr' as [_ ?]. Qed.

Lemma save_no_worker i r m ans : no_worker i m -> no_worker i (rec_port bool m (StoreSave r) ans).
Proof. done. Qed.

Definition outcome_of (r : ExtensionRecord) (m m' : recovery) (res : result ExtensionRecord) : Prop :=
  others_kept (er_id r) m m' /\
  match res with
  | Ok r' => settled m' r r' /\ (er_state r' <> ExtensionState.ENABLED -> no_worker (er_id r) m')
  | Err _ => True
  end.

Lemma outcome_after r m m1 m' res : others_kept (er_id r) m m1 -> outcome_of r m1 m' res -> outcome_of r m m' res.
Proof. intros H1 [H2 H3]. split; [by eapply others_trans|done]. Qed.

Lemma saved_vwp r r' m : er_id r' = er_id r -> resting (er_state r') = true -> er_state r' <> ExtensionState.ENABLED ->
  no_worker (er_id r) m -> vwp (saved r') m (outcome_of r m).
Proof.
  intros Hi Hr He Hw. unfold saved. apply rwp_bind, rec_await; [done|]. intros ans. pose proof (port_others (er_id r) _ (StoreSave r') m ans I).
  destruct ans as [b|e]; [|done]. split; [done|]. split; [|done]. split_and!; [done|done| |done].
  right; left. cbn. apply list_elem_of_here.
Qed.

Lemma quarantine_vwp r starting e m : er_id starting = er_id r ->
  vwp (_quarantine_recovered r starting e) m (outcome_of r m).
Proof.
  intros Hi. unfold _quarantine_recovered. apply rwp_bind, quietly_vwp, rec_await; [done|]. intros ans res.
  pose proof (port_others (er_id r) _ (Stop starting) m ans Hi) as H1. set (m1 := rec_port _ _ _ ans) in *.
  destruct res as [[]|e1]; [|done]. set (q := starting {{ er_state := ExtensionState.QUARANTINED }}).
  apply rwp_bind, quietly_vwp, rec_await; [done|]. intros ans2 res.
  pose proof (port_others (er_id r) _ (StoreSave q) m1 ans2 I) as H2. set (m2 := rec_port _ _ _ ans2) in *.
  pose proof (others_trans _ _ _ _ H1 H2) as H3. destruct res as [[]|e1]; [|done].
  apply rwp_bind, record_operation_vwp. intros [[]|e1]; [|done]. split; [done|]. split; [split_and!; [done|done| |done]|].
  - right; right. split; [done|]. unfold m2. destruct ans2; cbn; apply list_elem_of_here.
  - intros _. apply save_no_worker. rewrite <- Hi. apply stop_no_worker.
Qed.

Lemma restart_vwp r m : truthy (er_install_path r) = true -> vwp (restart r) m (outcome_of r m).
Proof.
  intros Hpath. unfold restart, or_quarantine. set (starting := r {{ er_state := ExtensionState.STARTING }}).
  set (enabled := starting {{ er_state := ExtensionState.ENABLED }}).
  assert (forall e m1, others_kept (er_id r) m m1 ->
    vwp (if exn_is e PyException then _quarantine_recovered r starting e else Raise e) m1 (outcome_of r m)) as Hfail.
  { intros e m1 H1. destruct (exn_is e PyException); [|done]. eapply rwp_mono; [by apply quarantine_vwp|].
    intros m' res. by apply outcome_after. }
  apply rwp_bind, rec_await; [done|]. intros ans. pose proof (port_others (er_id r) _ (StoreSave starting) m ans I) as H1.
  destruct ans as [b|e]; [|done]. set (m1 := rec_port bool m (StoreSave starting) (Ok b)) in *.
  apply rwp_match, rwp_bind, rec_await; [split_and!; [done|done|apply list_elem_of_here]|]. intros ans.
  pose proof (others_trans _ _ _ _ H1 (port_others (er_id r) _ (Start starting) m1 ans eq_refl)) as H2.
  destruct ans as [[]|e]; [|by apply Hfail]. set (m2 := rec_port unit m1 (Start starting) (Ok tt)) in *.
  apply rwp_bind, rec_await; [done|]. intros ans.
  pose proof (others_trans _ _ _ _ H2 (port_others (er_id r) _ (Health starting) m2 ans I)) as H3.
  destruct ans as [[]|e]; [|by apply Hfail..]. set (m3 := rec_port bool m2 (Health starting) (Ok true)) in *. cbn [rwp].
  apply rwp_match, rec_await; [done|]. intros ans.
  pose proof (others_trans _ _ _ _ H3 (port_others (er_id r) _ (StoreSave enabled) m3 ans I)) as H4.
  destruct ans as [b'|e]; [|by apply Hfail]. split; [done|]. split; [|done].
  split_and!; [done|done|right; left; apply list_elem_of_here|]. intros _. split_and!; [done|apply list_elem_of_here|apply list_elem_of_here].
Qed.

Lemma embed_discard_vwp r m : vwp (embed (discard_staged_record r)) m (fun m' _ => m' = m).
Proof.
  unfold discard_staged_record. destruct (er_install_path r); [done|]. split; [done|]. intros [[]|e] _; [|done..].
  split; [done|]. intros [[]|e] _; [done|].
  change (vwp (embed (if existsb (exn_is e) [ExtensionError; PyOSError] then Ret tt else Raise e)) m (fun m' _ => m' = m)).
  by destruct (existsb _ _).
Qed.

Lemma discard_vwp r r' m : er_id r' = er_id r -> resting (er_state r') = true -> er_state r' <> ExtensionState.ENABLED ->
  no_worker (er_id r) m -> vwp (_ ← embed (discard_staged_record r); saved r') m (outcome_of r m).
Proof.
  intros H1 H2 H3 Hw. apply rwp_bind. eapply rwp_mono; [apply embed_discard_vwp|]. cbn beta. intros m' [[]|e] ->; [by apply saved_vwp|].
  split; [apply others_refl|done].
Qed.

(** The last two branches: a transient state is resolved, any other is left. *)
Lemma settle_vwp r m : er_state r <> ExtensionState.ENABLED -> er_state r <> ExtensionState.UNINSTALLING ->
  no_worker (er_id r) m ->
  vwp (match transient (er_state r) with
       | Some s' => _ ← (if bool_decide (er_state r = ExtensionState.STAGED)
                         then embed (discard_staged_record r) else Ret tt);
                    saved (r {{ er_state := s' }})
       | None => Ret r
       end) m (outcome_of r m).
Proof.
  intros H1 H2 Hw. destruct (transient (er_state r)) as [s'|] eqn:E.
  - assert (resting s' = true /\ s' <> ExtensionState.ENABLED) as [H3 H4].
    { destruct (er_state r); try discriminate E; injection E as <-; done. }
    case_bool_decide; [by apply discard_vwp|]. apply rwp_bind. by apply saved_vwp.
  - split; [apply others_refl|]. split; [|done]. split_and!; [done| |by left|done]. unfold resting. rewrite E.
    by rewrite (bool_decide_eq_false_2 (_ = ExtensionState.UNINSTALLING)).
Qed.

Lemma recover_record_vwp r m : no_worker (er_id r) m -> vwp (_recover_record r) m (outcome_of r m).
Proof.
  intros Hw. pose proof (settle_vwp r m) as Hset. unfold _recover_record.
  destruct (er_state r) eqn:Es; try (by apply Hset); clear Hset.
  - destruct (truthy (er_install_path r)) eqn:Hp; cbn [negb]; [by apply restart_vwp|].
    apply rwp_bind. eapply rwp_mono; [by apply (saved_vwp r)|]. intros m' [q|e] H; [|done].
    apply rwp_bind, record_operation_vwp. destruct H. by intros [[]|e].
  - apply rwp_bind. assert (forall b : bool, vwp (if b then saved (r {{ er_state := ExtensionState.DISABLED }})
      else saved (r {{ er_state := ExtensionState.UNINSTALLED; er_install_path := None; er_tombstone := true;
                       er_data_retained := true }})) m (outcome_of r m)) as Hb.
    { intros []; by apply saved_vwp. }
    destruct (er_install_path r); [|apply (Hb false)]. apply rwp_perform; [done|]. intros [b|e] _; [apply Hb|].
    split; [apply others_refl|done].
Qed.

(** Recovering one record and going on if that fails. *)
Lemma recover_one_vwp r m : no_worker (er_id r) m ->
  vwp (prog_try (_recover_record r)
        (fun e => if exn_is e PyException then
                    _ ← quietly (port (Stop r));
                    quarantined ← saved (r {{ er_state := ExtensionState.QUARANTINED }});
                    _ ← _record_operation (er_id r) "recover" OperationState.FAILED (Some "RECOVERY_FAILED");
                    Ret quarantined
                  else Raise e)) m (outcome_of r m).
Proof.
  intros Hw. apply rwp_try. eapply rwp_mono; [by apply recover_record_vwp|]. intros m1 [r'|e] [H1 H2]; [done|].
  destruct (exn_is e PyException); [|done]. apply rwp_bind, quietly_vwp, rec_await; [done|]. intros ans res.
  pose proof (others_trans _ _ _ _ H1 (port_others (er_id r) _ (Stop r) m1 ans eq_refl)) as H3.
  destruct res as [[]|e1]; [|done]. apply rwp_bind.
  eapply rwp_mono; [apply (saved_vwp r); [done..|apply stop_no_worker]|]. intros m2 [q|e1] H4; apply (outcome_after _ _ _ _ _ H3) in H4; [|done].
  apply rwp_bind, record_operation_vwp. destruct H4. by intros [[]|e1].
Qed.

Lemma recover_all_vwp l m : NoDup (er_id <$> l) -> (forall r, r ∈ l -> no_worker (er_id r) m) ->
  vwp (recover_all l) m (fun m' res =>
    rc_all m' = rc_all m /\ rc_attempted m ⊆ rc_attempted m' /\ rc_saved m ⊆ rc_saved m' /\
    rc_published m' = rc_published m /\
    (forall r, er_id r ∉ er_id <$> l -> r ∈ rc_healthy m -> r ∈ rc_healthy m') /\
    match res with
    | Ok enabled => Forall (came_back m') enabled /\
        Forall (fun r => exists r', settled m' r r' /\ (er_state r' = ExtensionState.ENABLED -> r' ∈ enabled)) l /\
        (forall r, r ∈ rc_live m' -> r ∈ rc_live m \/ er_id r ∈ er_id <$> enabled)
    | Err _ => True
    end).
Proof.
  revert m; induction l as [|r l IH]; intros m Hnd Hnw; cbn [recover_all].
  { split_and!; try done. by left. }
  rewrite fmap_cons, NoDup_cons in Hnd. destruct Hnd as [Hr Hnd].
  apply rwp_bind. eapply rwp_mono; [apply recover_one_vwp, Hnw, list_elem_of_here|]. cbn beta.
  intros m1 [r'|e] [(Ha & Hat & Hsv & Hpu & Hh & Hlv) Hout].
  2:{ split_and!; try done. intros r1 Hr1. apply Hh. rewrite fmap_cons, not_elem_of_cons in Hr1. by destruct Hr1. }
  apply rwp_bind. eapply rwp_mono; [apply IH; [done|]|].
  { intros r1 Hr1 x Hx E. assert (er_id r1 <> er_id r) as Hne.
    { intros E1. apply Hr, list_elem_of_fmap. by exists r1. }
    apply (Hnw r1 (list_elem_of_further _ _ _ Hr1) x); [|done]. apply Hlv; [congruence|done]. }
  cbn beta. intros m2 res (Ha2 & Hat2 & Hsv2 & Hpu2 & Hh2 & Hres).
  assert (forall r1, er_id r1 ∉ er_id <$> r :: l -> r1 ∈ rc_healthy m -> r1 ∈ rc_healthy m2) as Hheal.
  { intros r1 Hr1 Hin. rewrite fmap_cons, not_elem_of_cons in Hr1. destruct Hr1. by apply Hh2; [|apply Hh]. }
  destruct res as [rest|e]; [|split_and!; try done; [congruence|set_solver..|congruence]].
  destruct Hres as (Hrest & Hset & Hlive), Hout as [Hs1 Hnw1].
  split; [congruence|]. do 2 (split; [set_solver|]). split; [congruence|]. split; [done|].
  assert (settled m2 r r') as Hs2.
  { destruct Hs1 as (E1 & E2 & E3 & E4). split_and!; [done|done|set_solver|]. intros He. destruct (E4 He) as (? & ? & ?).
    split_and!; [done| |set_solver]. apply Hh2; [|done]. change (er_id (as_starting r')) with (er_id r'). by rewrite E1. }
  unfold in_state. pose proof Hs2 as (E1 & E2 & E3 & E4). case_bool_decide as He; split_and!.
  - constructor; [by apply E4|done].
  - constructor; [exists r'; split; [done|intros _; apply list_elem_of_here]|].
    eapply Forall_impl; [exact Hset|]. intros r1 (r2 & H1 & H2). exists r2. split; [done|]. intros H3. by apply list_elem_of_further, H2.
  - intros x Hx. destruct (Hlive x Hx) as [Hx1|Hx1]; [|right; rewrite fmap_cons; by apply list_elem_of_further].
    destruct (decide (er_id x = er_id r)) as [E|E]; [right; rewrite fmap_cons, E, <- E1; apply list_elem_of_here|].
    left. by apply Hlv.
  - done.
  - constructor; [exists r'; split; [done|done]|done].
  - intros x Hx. destruct (Hlive x Hx) as [Hx1|Hx1]; [|by right].
    left. apply Hlv; [|done]. by apply (Hnw1 He).
Qed.

Lemma sup_recover_vwp : vwp sup_recover restarted (fun m res =>
  match res with Ok _ => exists enabled, rc_published m = [enabled] | Err _ => rc_published m = [] end).
Proof.
  unfold sup_recover. apply rwp_bind, rwp_perform; [done|]. intros [n|e] _; [|done].
  apply rwp_bind, rwp_perform; [done|]. intros [l|e] Hl; [|done].
  apply rwp_bind. eapply rwp_mono; [apply recover_all_vwp; [exact Hl|]|].
  { intros r _ x Hx. by apply elem_of_nil in Hx. }
  cbn beta. intros m' [enabled|e] (Ha & _ & _ & Hp & _ & Hres); [|done]. destruct Hres as (H1 & H2 & H3).
  apply rwp_bind, rwp_perform.
  - cbn [rec_ok]. rewrite Ha. split_and!; [done|done|done|]. apply Forall_forall. intros r Hr.
    by destruct (H3 r Hr) as [?%elem_of_nil|?].
  - intros [s|e] _; cbn; rewrite Hp; [by exists enabled|done].
Qed.

(** ** Recovery does not give up *)

(** One broken extension may raise what it likes that is an [Exception]; the supervisor itself
    needs its operation store, its record store, its registry and its clock. *)
Definition tolerable (ev : event supE) : Prop :=
  match ev with
  | Event op ans =>
      match op with
      | OpsInterrupt _ | StoreAll | RegReplaceAll _ | SupLc (Do _ (StoreSave _)) | SupLc (Do _ Clock) => is_ok ans = true
      | _ => match ans with Ok _ => True | Err e => exn_is e PyException = true end
      end
  end.

(** With such answers the program returns, or at worst raises an [Exception]. *)
Definition calm {X} (p : prog supE X) : Prop :=
  forall tr res, execs p tr res -> Forall tolerable tr -> is_ok res = true.
Definition mild {X} (p : prog supE X) : Prop :=
  forall tr res, execs p tr res -> Forall tolerable tr ->
    match res with Ok _ => True | Err e => exn_is e PyException = true end.

Lemma calm_mild {X} (p : prog supE X) : calm p -> mild p.
Proof. intros Hp tr res H Ht. specialize (Hp tr res H Ht). by destruct res. Qed.

Lemma calm_ret {X} (x : X) : calm (Ret x).
Proof. by intros tr res [-> ->] _. Qed.

Lemma calm_match {X Y} (p : prog supE X) (f : X -> prog supE Y) h :
  mild p -> (forall x, calm (f x)) -> (forall e, exn_is e PyException = true -> calm (h e)) ->
  calm (prog_match p f h).
Proof.
  intros Hp Hf Hh tr res (tr1 & tr2 & r1 & -> & H1 & H2)%execs_match [Ht1 Ht2]%Forall_app.
  specialize (Hp tr1 r1 H1 Ht1). destruct r1 as [x|e]; [by apply (Hf x tr2)|by apply (Hh e Hp tr2)].
Qed.

Lemma calm_try {X} (p : prog supE X) h :
  mild p -> (forall e, exn_is e PyException = true -> calm (h e)) -> calm (prog_try p h).
Proof.
  intros Hp Hh tr res H Ht. assert (execs (prog_match p Ret h) tr res) as Hm.
  { clear -H. revert tr H; induction p as [x|e|Y op k IH]; intros tr H; [exact H..|].
    destruct H as (ans & tr1 & -> & H). exists ans, tr1. split; [done|]. by apply IH. }
  by apply (calm_match p Ret h Hp calm_ret Hh tr).
Qed.

Lemma calm_bind {X Y} (p : prog supE X) (f : X -> prog supE Y) :
  calm p -> (forall x, calm (f x)) -> calm (p ≫= f).
Proof.
  intros Hp Hf tr res (tr1 & tr2 & r1 & -> & H1 & H2)%execs_bind [Ht1 Ht2]%Forall_app.
  specialize (Hp tr1 r1 H1 Ht1). destruct r1 as [x|e]; [by apply (Hf x tr2)|done].
Qed.

Lemma mild_bind {X Y} (p : prog supE X) (f : X -> prog supE Y) :
  mild p -> (forall x, mild (f x)) -> mild (p ≫= f).
Proof.
  intros Hp Hf tr res (tr1 & tr2 & r1 & -> & H1 & H2)%execs_bind [Ht1 Ht2]%Forall_app.
  specialize (Hp tr1 r1 H1 Ht1). destruct r1 as [x|e]; [by apply (Hf x tr2)|]. by destruct H2 as [-> ->].
Qed.

Lemma perform_trace {X} (op : supE X) tr res : execs (perform op) tr res -> tr = [Event op res].
Proof. intros (ans & tr' & -> & [-> ->]%execs_of_result). done. Qed.

Lemma calm_perform {X} (op : supE X) : (forall ans, tolerable (Event op ans) -> is_ok ans = true) -> calm (perform op).
Proof. intros H tr res ->%perform_trace Ht. apply Forall_cons in Ht as [Ht _]. by apply H. Qed.

Lemma mild_perform {X} (op : supE X) : mild (perform op).
Proof.
  intros tr res ->%perform_trace Ht. apply Forall_cons in Ht as [Ht _]. destruct res as [x|e]; [done|].
  destruct op as [Y [b o]| | | | | | | | | | | | | | | | | | |]; try done. by destruct o.
Qed.

Lemma calm_quietly {X} (p : prog supE X) : mild p -> calm (quietly p).
Proof. intros Hp. apply calm_match; [done|intros; apply calm_ret|]. intros e ->. apply calm_ret. Qed.
Lemma mild_of_result {X} (r : result X) :
  match r with Ok _ => True | Err e => exn_is e PyException = true end -> mild (of_result r).
Proof. by intros H tr res [-> ->]%execs_of_result _. Qed.

Lemma make_operation_mild o : mild (of_result (E := supE) (make_operation o)).
Proof.
  apply mild_of_result. unfold make_operation, validate_diagnostic_code, raise_if.
  repeat case_match; try done; simplify_eq/=; repeat case_match; simplify_eq/=; done.
Qed.

Lemma record_operation_calm i kind st d : calm (_record_operation i kind st d).
Proof.
  unfold _record_operation, now. apply calm_bind; [by apply calm_perform|]. intros t. apply calm_quietly.
  apply mild_bind; [apply mild_perform|]. intros u. apply mild_bind; [apply make_operation_mild|].
  intros o. apply mild_perform.
Qed.

Lemma saved_calm r : calm (saved r).
Proof. unfold saved. apply calm_bind; [by apply calm_perform|]. intros _. apply calm_ret. Qed.

Lemma quarantine_calm r starting e : calm (_quarantine_recovered r starting e).
Proof.
  unfold _quarantine_recovered. do 2 (apply calm_bind; [apply calm_quietly, mild_perform|]; intros []).
  apply calm_bind; [apply record_operation_calm|]. intros []. apply calm_ret.
Qed.

Lemma or_quarantine_calm {X} r starting (p : prog supE X) f :
  mild p -> (forall x, calm (f x)) -> calm (or_quarantine r starting p f).
Proof. intros Hp Hf. apply calm_match; [done|done|]. intros e ->. apply quarantine_calm. Qed.

Lemma restart_calm r : calm (restart r).
Proof.
  unfold restart. apply calm_bind; [by apply calm_perform|]. intros _. apply or_quarantine_calm.
  - apply mild_bind; [apply mild_perform|]. intros _. apply mild_bind; [apply mild_perform|].
    intros []; [apply calm_mild, calm_ret|]. by intros tr res [-> ->] _.
  - intros _. apply or_quarantine_calm; [apply mild_perform|]. intros _. apply calm_ret.
Qed.

Lemma discard_mild r : mild (embed (F := supE) (discard_staged_record r)).
Proof.
  intros tr res. unfold discard_staged_record. destruct (er_install_path r); [by intros [-> ->] _|].
  intros (ans & tr1 & -> & H1) [Ht Ht1]%Forall_cons. destruct ans as [[]|e]; [| |by destruct H1 as [-> ->]].
  2:{ by destruct H1 as [-> ->]. }
  destruct H1 as (ans & tr2 & -> & H2). apply Forall_cons in Ht1 as [Ht1 _].
  destruct ans as [[]|e]; [by destruct H2 as [-> ->]|].
  change (execs (embed (F := supE) (if existsb (exn_is e) [ExtensionError; PyOSError] then Ret tt else Raise e)) tr2 res) in H2.
  destruct (existsb _ _); destruct H2 as [-> ->]; [done|exact Ht1].
Qed.

Lemma recover_record_mild r : mild (_recover_record r).
Proof.
  assert (mild (match transient (er_state r) with
       | Some s' => _ ← (if bool_decide (er_state r = ExtensionState.STAGED)
                         then embed (discard_staged_record r) else Ret tt);
                    saved (r {{ er_state := s' }})
       | None => Ret r
       end)) as Hset.
  { destruct (transient (er_state r)); [|apply calm_mild, calm_ret]. apply mild_bind; [|intros _; apply calm_mild, saved_calm].
    case_bool_decide; [apply discard_mild|apply calm_mild, calm_ret]. }
  unfold _recover_record. destruct (er_state r) eqn:Es; try (by apply Hset); clear Hset.
  - destruct (negb _); [|apply calm_mild, restart_calm]. apply calm_mild, calm_bind; [apply saved_calm|].
    intros q. apply calm_bind; [apply record_operation_calm|]. intros _. apply calm_ret.
  - apply mild_bind; [destruct (er_install_path r); [apply mild_perform|apply calm_mild, calm_ret]|].
    intros []; apply calm_mild, saved_calm.
Qed.

Lemma recover_all_calm l : calm (recover_all l).
Proof.
  induction l as [|r l IH]; cbn [recover_all]; [apply calm_ret|]. apply calm_bind.
  - apply calm_try; [apply recover_record_mild|]. intros e ->.
    apply calm_bind; [apply calm_quietly, mild_perform|]. intros []. apply calm_bind; [apply saved_calm|].
    intros q. apply calm_bind; [apply record_operation_calm|]. intros []. apply calm_ret.
  - intros r'. apply calm_bind; [exact IH|]. intros rest. apply calm_ret.
Qed.

Lemma sup_recover_calm : calm sup_recover.
Proof.
  unfold sup_recover, ignore. do 2 (apply calm_bind; [by apply calm_perform|]; intros ?).
  apply calm_bind; [apply recover_all_calm|]. intros enabled.
  apply calm_bind; [by apply calm_perform|]. intros _. apply calm_ret.
Qed.

(** C28. A restarted supervisor publishes what came back and nothing else.  In every trace of [recover]:
    the operations a crash interrupted are closed before any extension is looked at; no code is
    installed and nothing is published along the way; a worker is started only for a record with an
    installation whose STARTING state was saved.  A recovery that returns has published exactly once, one
    that raises has published nothing.  The publication lists ENABLED records whose workers were started,
    found healthy, not stopped since and persisted; every other worker it had tried to start was told to
    stop; and every listed extension was found at rest or had a resting state saved, save that the write
    of QUARANTINED may have failed (its error is suppressed).  Recovery does return when the supervisor's
    own stores and clock answer, whatever exceptions the extensions' workers raise. *)
Theorem recovery_publishes_what_came_back tr res :
  execs sup_recover tr res -> answered rec_next rec_may restarted tr ->
  watched rec_ok rec_next restarted tr /\
  match res with
  | Ok _ => exists enabled, rc_published (after rec_next restarted tr) = [enabled]
  | Err _ => rc_published (after rec_next restarted tr) = []
  end /\
  (Forall tolerable tr -> is_ok res = true).
Proof.
  intros Hx Hans. destruct (rwp_execs _ _ _ _ _ _ _ _ sup_recover_vwp Hx Hans) as [H1 H2].
  split; [exact H1|]. split; [exact H2|]. by apply sup_recover_calm.
Qed.

Module RecoveryScenario.

(** Three extensions were installed when the host died: one served, one whose worker no longer starts
    healthily, and one in the middle of being started. *)
Definition named (id : string) (s : ExtensionState.t) : ExtensionRecord :=
  let r := LifecycleScenario.installed "1.0.0" in
  r {{ er_manifest := (er_manifest r) {{ em_id := id }}; er_state := s }}.
Definition mail := named "nju.smail" ExtensionState.ENABLED.
Definition broken := named "nju.broken" ExtensionState.ENABLED.
Definition halfway := named "nju.halfway" ExtensionState.STARTING.
Definition listed : list ExtensionRecord := [mail; broken; halfway].

Definition answer_of (X : Type) (op : supE X) : result X :=
  match op in supE X return result X with
  | StoreAll => Ok listed
  | OpsInterrupt _ => Ok 0
  | OpsCreate _ => Ok tt
  | Uuid => Ok "u"
  | RegReplaceAll l => (replace_all l empty_registry).2
  | SupLc (Do _ op) =>
      match op in lcOp X return result X with
      | Start _ | Stop _ => Ok tt
      | StoreSave _ => Ok true
      | Health r => Ok (bool_decide (er_id r = "nju.smail"))
      | Clock => Ok 0
      | _ => fail PyRuntimeError "not used"
      end
  | _ => fail PyRuntimeError "not used"
  end.

Definition answer (X : Type) (op : supE X) : M recovery X := fun m =>
  (rec_next X m op (answer_of X op), answer_of X op).

Lemma recovery_answer_may X (op : supE X) m :
  exists ans, answer X op m = (rec_next X m op ans, ans) /\ rec_may X m op ans.
Proof.
  exists (answer_of X op). split; [done|]. destruct op; cbn; try done.
  repeat constructor; cbn; set_solver.
Qed.

Definition seen : recovery := (run answer sup_recover restarted).1.

End RecoveryScenario.

(** The served extension comes back alone; the others end at rest. *)
Lemma recovery_publishes_what_came_back_witness :
  exists tr res, execs sup_recover tr res /\
    (er_id <$> rc_healthy (after rec_next restarted tr)) = ["nju.smail"] /\
    ((fun r => (er_id r, er_state r)) <$> rc_saved (after rec_next restarted tr)) =
      [("nju.halfway", ExtensionState.QUARANTINED); ("nju.broken", ExtensionState.QUARANTINED);
       ("nju.broken", ExtensionState.STARTING); ("nju.smail", ExtensionState.ENABLED);
       ("nju.smail", ExtensionState.STARTING)] /\
    map (map er_id) (rc_published (after rec_next restarted tr)) = [["nju.smail"]] /\
    watched rec_ok rec_next restarted tr.
Proof.
  pose proof (trace_run_execs RecoveryScenario.answer sup_recover restarted) as Hx.
  destruct (trace_run_answered _ _ RecoveryScenario.answer sup_recover restarted RecoveryScenario.recovery_answer_may)
    as [Hans Haft].
  do 2 eexists. split; [exact Hx|]. rewrite Haft. do 3 (split; [vm_compute; reflexivity|]).
  exact (proj1 (recovery_publishes_what_came_back _ _ Hx Hans)).
Defined.
