(* ===== verification/Url.v ===== *)
(** * Url: code points and Python's URL functions

    Page text and URLs may hold any code point, so this file works on lists of code points ([ustr]).
    It models what the sources use of [urllib.parse] ([urlsplit] with its derived attributes,
    [unquote], [parse_qsl]), of [ipaddress] (for bracketed hosts), of [fnmatch] and of [str].  The two
    Unicode tables behind [str.lower] (beyond Latin-1) and [unicodedata.normalize] are parameters. *)

From S2P Require Import Prelude Text Json JsonParse JsonGrammar JsonRoundTrip.
Local Open Scope string_scope.
Local Open Scope Z_scope.

Notation ustr := (list Z).

Definition codes (s : string) : ustr := code <$> chars s.
Definition of_codes (l : ustr) : string := of_chars ((fun c => Ascii.ascii_of_N (Z.to_N c)) <$> l).

Class Unicode := { unicode_lower : ustr -> ustr; nfkc : ustr -> ustr }.

(** ** [str] *)

Definition uspace (c : Z) : bool :=
  ((9 <=? c) && (c <=? 13)) || ((28 <=? c) && (c <=? 32))
  || mem_b c [133; 160; 5760; 8232; 8233; 8239; 8287; 12288] || ((8192 <=? c) && (c <=? 8202)).

Fixpoint drop_while {A} (f : A -> bool) (l : list A) : list A :=
  match l with
  | a :: l' => if f a then drop_while f l' else l
  | [] => []
  end.

Definition ustrip (s : ustr) : ustr := reverse (drop_while uspace (reverse (drop_while uspace s))).

Definition is_ascii (s : ustr) : bool := forallb (fun c => c <? 128) s.
Definition is_alpha (c : Z) : bool := ((65 <=? c) && (c <=? 90)) || ((97 <=? c) && (c <=? 122)).
Definition is_num (c : Z) : bool := (48 <=? c) && (c <=? 57).
Definition is_hex (c : Z) : bool := is_num c || ((65 <=? c) && (c <=? 70)) || ((97 <=? c) && (c <=? 102)).

Definition lower_c (c : Z) : Z :=
  if ((65 <=? c) && (c <=? 90)) || ((192 <=? c) && (c <=? 222) && negb (c =? 215)) then c + 32 else c.

(** [s.partition(c)]: the parts around the first [c], if there is one. *)
Fixpoint cut (c : Z) (s : ustr) : option (ustr * ustr) :=
  match s with
  | [] => None
  | x :: s' => if x =? c then Some ([], s')
               else match cut c s' with Some (a, b) => Some (x :: a, b) | None => None end
  end.
Definition before (c : Z) (s : ustr) : ustr := match cut c s with Some (a, _) => a | None => s end.
Definition beyond (c : Z) (s : ustr) : ustr := match cut c s with Some (_, b) => b | None => [] end.
(** [s.rpartition(c)[2]] *)
Definition after_last (c : Z) (s : ustr) : ustr := reverse (before c (reverse s)).

(** [s.split(c)] *)
Fixpoint usplit (c : Z) (s : ustr) : list ustr :=
  match s with
  | [] => [[]]
  | x :: s' => if x =? c then [] :: usplit c s'
               else match usplit c s' with a :: l => (x :: a) :: l | [] => [[x]] end
  end.

Fixpoint uprefix (p s : ustr) : bool :=
  match p, s with
  | [], _ => true
  | a :: p, b :: s => (a =? b) && uprefix p s
  | _, [] => false
  end.

(** [int(s)] on ASCII digits, and [str(n)]. *)
Definition udecimal (s : ustr) : Z := fold_left (fun acc c => acc * 10 + (c - 48)) s 0.
Definition udigits (n : Z) : ustr := codes (str_of_Z n).

(** ** [bytes.decode("utf-8", "replace")] *)

Definition between (lo hi b : Z) : bool := (lo <=? b) && (b <=? hi).
Definition REPLACEMENT : Z := 65533.

(** The admissible second byte after a lead byte, and the number of bytes that follow the lead. *)
Definition utf8_lead (b : Z) : option (nat * Z * Z) :=
  if between 194 223 b then Some (1%nat, 128, 191)
  else if b =? 224 then Some (2%nat, 160, 191)
  else if b =? 237 then Some (2%nat, 128, 159)
  else if between 225 239 b then Some (2%nat, 128, 191)
  else if b =? 240 then Some (3%nat, 144, 191)
  else if b =? 244 then Some (3%nat, 128, 143)
  else if between 241 243 b then Some (3%nat, 128, 191)
  else None.

Fixpoint utf8_decode (l : list Z) : ustr :=
  match l with
  | [] => []
  | b :: l1 =>
      if b <? 128 then b :: utf8_decode l1 else
      match utf8_lead b with
      | None => REPLACEMENT :: utf8_decode l1
      | Some (n, lo, hi) =>
          match l1 with
          | [] => [REPLACEMENT]
          | b1 :: l2 =>
              if negb (between lo hi b1) then REPLACEMENT :: utf8_decode l1 else
              match n with
              | 1%nat => (b - 192) * 64 + (b1 - 128) :: utf8_decode l2
              | _ =>
                  match l2 with
                  | [] => [REPLACEMENT]
                  | b2 :: l3 =>
                      if negb (between 128 191 b2) then REPLACEMENT :: utf8_decode l2 else
                      match n with
                      | 2%nat => (b - 224) * 4096 + (b1 - 128) * 64 + (b2 - 128) :: utf8_decode l3
                      | _ =>
                          match l3 with
                          | [] => [REPLACEMENT]
                          | b3 :: l4 =>
                              if negb (between 128 191 b3) then REPLACEMENT :: utf8_decode l3 else
                              (b - 240) * 262144 + (b1 - 128) * 4096 + (b2 - 128) * 64 + (b3 - 128) :: utf8_decode l4
                          end
                      end
                  end
              end
          end
      end
  end.

(** ** [unquote], [parse_qsl] *)

Definition hex_digit (c : Z) : Z :=
  if is_num c then c - 48 else if 97 <=? c then c - 87 else c - 55.

(** Runs of ASCII are unescaped to bytes and decoded; other characters are kept. *)
Fixpoint unquote_run (run : list Z) (s : ustr) : ustr :=
  match s with
  | [] => utf8_decode (reverse run)
  | c :: s1 =>
      if negb (c <? 128) then (utf8_decode (reverse run) ++ c :: unquote_run [] s1)%list
      else match s1 with
           | h :: l :: s2 => if (c =? 37) && is_hex h && is_hex l
                             then unquote_run (hex_digit h * 16 + hex_digit l :: run) s2
                             else unquote_run (c :: run) s1
           | _ => unquote_run (c :: run) s1
           end
  end.
Definition unquote (s : ustr) : ustr := unquote_run [] s.

Definition plus_to_space (s : ustr) : ustr := (fun c => if c =? 43 then 32 else c) <$> s.

(** [parse_qsl(query, keep_blank_values=True)] *)
Definition parse_qsl (query : ustr) : list (ustr * ustr) :=
  (fun nv => (unquote (plus_to_space (before 61 nv)), unquote (plus_to_space (beyond 61 nv))))
    <$> List.filter (fun nv => negb (bool_decide (nv = []))) (usplit 38 query).

(** ** Bracketed hosts: [_check_bracketed_netloc] and [ipaddress.ip_address] *)

Definition octet_ok (s : ustr) : bool :=
  negb (bool_decide (s = [])) && forallb is_num s && (Z.of_nat (length s) <=? 3)
  && (bool_decide (s = [48]) || negb (bool_decide (head s = Some 48))) && (udecimal s <=? 255).
Definition ipv4_ok (s : ustr) : bool := let l := usplit 46 s in (length l =? 4)%nat && forallb octet_ok l.

Definition hextet_ok (s : ustr) : bool :=
  negb (bool_decide (s = [])) && forallb is_hex s && (Z.of_nat (length s) <=? 4).

(** The positions of the empty parts that are not at an end. *)
Definition gaps (parts : list ustr) : list nat :=
  List.filter (fun i => bool_decide (parts !! i = Some [])) (seq 1 (length parts - 2)).

Definition hextets_ok (parts : list ustr) : bool :=
  let n := length parts in
  let first_empty := bool_decide (head parts = Some []) in
  let last_empty := bool_decide (last parts = Some []) in
  match gaps parts with
  | [] => (n =? 8)%nat && forallb hextet_ok parts
  | [i] =>
      let hi := if first_empty then (i - 1)%nat else i in
      let lo := if last_empty then (n - i - 2)%nat else (n - i - 1)%nat in
      (if first_empty then (hi =? 0)%nat else true) && (if last_empty then (lo =? 0)%nat else true)
      && (hi + lo <=? 7)%nat && forallb hextet_ok (take hi parts) && forallb hextet_ok (drop (n - lo) parts)
  | _ => false
  end.

Definition ipv6_ok (s : ustr) : bool :=
  let addr := before 37 s in
  let scope_ok := match cut 37 s with
                  | Some (_, scope) => negb (bool_decide (scope = [])) && negb (mem_b 37 scope)
                  | None => true
                  end in
  let parts := usplit 58 addr in
  let tail := default [] (last parts) in
  scope_ok && (3 <=? length parts)%nat
  && (if mem_b 46 tail then ipv4_ok tail else true)
  && let parts := if mem_b 46 tail then (take (length parts - 1) parts ++ [[48]; [48]])%list else parts in
     (length parts <=? 9)%nat && hextets_ok parts.

(** [re.match(r"\Av[a-fA-F0-9]+\..+\Z", hostname)] *)
Definition ipvfuture_ok (s : ustr) : bool :=
  match s with
  | 118 :: s => match cut 46 s with
                | Some (v, rest) => negb (bool_decide (v = [])) && forallb is_hex v && negb (bool_decide (rest = []))
                | None => false
                end
  | _ => false
  end.

Definition bracketed_host_ok (hostname : ustr) : bool :=
  if uprefix [118] hostname then ipvfuture_ok hostname else ipv6_ok hostname.

Definition bracketed_netloc_ok (netloc : ustr) : bool :=
  let hostinfo := after_last 64 netloc in
  match cut 91 hostinfo with
  | Some (pre, bracketed) =>
      let port := beyond 93 bracketed in
      bool_decide (pre = []) && (bool_decide (port = []) || uprefix [58] port)
      && bracketed_host_ok (before 93 bracketed)
  | None => bracketed_host_ok (before 58 hostinfo)
  end.

(** ** [urlsplit] *)

Record SplitResult := { us_scheme : ustr; us_netloc : ustr; us_path : ustr; us_query : ustr; us_fragment : ustr }.

Definition is_scheme_char (c : Z) : bool := is_alpha c || is_num c || mem_b c [43; 45; 46].

(** [_splitnetloc]: up to the first of the three delimiters. *)
Fixpoint split_netloc (s : ustr) : ustr * ustr :=
  match s with
  | [] => ([], [])
  | c :: s' => if mem_b c [47; 63; 35] then ([], s)
               else let '(a, b) := split_netloc s' in (c :: a, b)
  end.

Section unicode.
Context `{Unicode}.

Definition ulower (s : ustr) : ustr :=
  if forallb (fun c => c <? 256) s then lower_c <$> s else unicode_lower s.

Definition check_netloc (netloc : ustr) : bool :=
  if is_ascii netloc then true else
  let n := List.filter (fun c => negb (mem_b c [64; 58; 35; 63])) netloc in
  let n2 := nfkc n in
  bool_decide (n = n2) || negb (existsb (fun c => mem_b c n2) [47; 63; 35; 64; 58]).

(** The scheme and what follows it. *)
Definition split_scheme (url : ustr) : ustr * ustr :=
  match cut 58 url with
  | Some (c :: s, rest) => if is_alpha c && forallb is_scheme_char (c :: s)
                           then (lower_c <$> c :: s, rest) else ([], url)
  | _ => ([], url)
  end.

Definition clean_url (url : ustr) : ustr :=
  List.filter (fun c => negb (mem_b c [9; 13; 10])) (drop_while (fun c => c <=? 32) url).

(** [None]: [urlsplit] raises [ValueError]. *)
Definition urlsplit (url : ustr) : option SplitResult :=
  let '(scheme, url) := split_scheme (clean_url url) in
  let '(netloc, url) := if uprefix [47; 47] url then split_netloc (drop 2 url) else ([], url) in
  let opens := mem_b 91 netloc in
  let closes := mem_b 93 netloc in
  if negb (Bool.eqb opens closes) then None
  else if opens && closes && negb (bracketed_netloc_ok netloc) then None
  else
    let fragment := beyond 35 url in
    let url := before 35 url in
    let query := beyond 63 url in
    let url := before 63 url in
    if check_netloc netloc
    then Some {| us_scheme := scheme; us_netloc := netloc; us_path := url; us_query := query; us_fragment := fragment |}
    else None.

(** [_hostinfo] *)
Definition hostinfo (p : SplitResult) : ustr * ustr :=
  let h := after_last 64 (us_netloc p) in
  match cut 91 h with
  | Some (_, bracketed) => (before 93 bracketed, beyond 58 (beyond 93 bracketed))
  | None => (before 58 h, beyond 58 h)
  end.

(** [parts.hostname]; [None] where Python has [None]. *)
Definition hostname (p : SplitResult) : option ustr :=
  match (hostinfo p).1 with
  | [] => None
  | h => Some (match cut 37 h with
               | Some (a, zone) => (ulower a ++ 37 :: zone)%list
               | None => ulower h
               end)
  end.

(** [parts.port]: [None] where the attribute raises [ValueError]. *)
Definition port (p : SplitResult) : option (option Z) :=
  match (hostinfo p).2 with
  | [] => Some None
  | d => if forallb is_num d && (udecimal d <=? 65535) then Some (Some (udecimal d)) else None
  end.

End unicode.

(** ** [fnmatchcase] *)

Inductive glob := GStar | GAny | GLit (c : Z) | GSet (negated : bool) (ranges : list (Z * Z)) | GNever.

(** The first hyphen at or after position [off]. *)
Fixpoint find_dash (off : nat) (s : ustr) : option (ustr * ustr) :=
  match s with
  | [] => None
  | c :: s' =>
      let later := match find_dash (off - 1) s' with Some (a, b) => Some (c :: a, b) | None => None end in
      match off with
      | O => if c =? 45 then Some ([], s') else later
      | S _ => later
      end
  end.

Fixpoint set_chunks (fuel : nat) (off : nat) (s : ustr) : list ustr :=
  match fuel, find_dash off s with
  | S fuel, Some (a, b) => a :: set_chunks fuel 2 b
  | _, _ => [s]
  end.

(** A hyphen at the end of the set is a character of the last chunk. *)
Fixpoint close_chunks (l : list ustr) : list ustr :=
  match l with
  | [x; []] => [(x ++ [45])%list]
  | x :: l' => x :: close_chunks l'
  | [] => []
  end.

(** Ranges without an element are removed, from the right. *)
Fixpoint merge_chunks (l : list ustr) : list ustr :=
  match l with
  | [] => []
  | x :: l' =>
      match merge_chunks l' with
      | [] => [x]
      | y :: rest => if List.hd 0 y <? List.last x 0
                     then (removelast x ++ tail y)%list :: rest else x :: y :: rest
      end
  end.

Fixpoint set_ranges (x : ustr) (rest : list ustr) : list (Z * Z) :=
  match rest with
  | [] => (fun c => (c, c)) <$> x
  | y :: rest => (((fun c => (c, c)) <$> removelast x) ++ (List.last x 0, List.hd 0 y) :: set_ranges (tail y) rest)%list
  end.

Definition glob_set (stuff : ustr) : glob :=
  let negated := uprefix [33] stuff in
  let chunks := if mem_b 45 stuff
                then merge_chunks (close_chunks (set_chunks (length stuff) (if negated then 2 else 1) stuff))
                else [stuff] in
  match chunks with
  | [] | [[]] => GNever
  | [[33]] => GAny
  | x :: rest => if uprefix [33] x then GSet true (set_ranges (tail x) rest) else GSet false (set_ranges x rest)
  end.

(** The text of a set after its opening bracket, and what follows the closing one. *)
Definition glob_close (s : ustr) : option (ustr * ustr) :=
  let '(pre, s) := match s with
                   | 33 :: 93 :: s => ([33; 93], s)
                   | 33 :: s => ([33], s)
                   | 93 :: s => ([93], s)
                   | s => ([], s)
                   end in
  match cut 93 s with Some (a, b) => Some ((pre ++ a)%list, b) | None => None end.

Fixpoint glob_tokens (fuel : nat) (pat : ustr) : list glob :=
  match fuel, pat with
  | S fuel, c :: pat =>
      if c =? 42 then GStar :: glob_tokens fuel pat
      else if c =? 63 then GAny :: glob_tokens fuel pat
      else if c =? 91 then
        match glob_close pat with
        | Some (stuff, rest) => glob_set stuff :: glob_tokens fuel rest
        | None => GLit 91 :: glob_tokens fuel pat
        end
      else GLit c :: glob_tokens fuel pat
  | _, _ => []
  end.

Definition glob_char (g : glob) (c : Z) : bool :=
  match g with
  | GAny => true
  | GLit d => c =? d
  | GSet negated ranges => xorb negated (existsb (fun r => between r.1 r.2 c) ranges)
  | GStar | GNever => false
  end.

(** Some split of the text after a star. *)
Fixpoint some_suffix (f : ustr -> bool) (s : ustr) : bool :=
  f s || match s with _ :: s' => some_suffix f s' | [] => false end.

Fixpoint glob_match (l : list glob) (s : ustr) : bool :=
  match l with
  | [] => bool_decide (s = [])
  | GStar :: l => some_suffix (glob_match l) s
  | g :: l => match s with c :: s => glob_char g c && glob_match l s | [] => false end
  end.

Definition fnmatchcase (name pat : ustr) : bool := glob_match (glob_tokens (length pat) pat) name.

(** ** Lemmas *)

Lemma drop_while_length {A} (f : A -> bool) l : (length (drop_while f l) <= length l)%nat.
Proof. induction l as [|a l IH]; simpl; [lia|]. destruct (f a); simpl; lia. Qed.

Lemma drop_while_suffix {A} (f : A -> bool) l : exists p, l = (p ++ drop_while f l)%list /\ Forall (fun a => f a = true) p.
Proof.
  induction l as [|a l (p & E & Hp)]; simpl; [by exists []|]. destruct (f a) eqn:Ha; [|by exists []].
  exists (a :: p). split; [by rewrite E at 1|by constructor].
Qed.

Lemma drop_while_head {A} (f : A -> bool) l a l' : drop_while f l = a :: l' -> f a = false.
Proof. induction l as [|b l IH]; simpl; [done|]. destruct (f b) eqn:E; [done|]. by intros [= <- _]. Qed.

Lemma ustrip_head c s : ustrip (c :: s) = c :: s -> uspace c = false.
Proof.
  unfold ustrip. simpl. destruct (uspace c); [|done]. intros E. apply (f_equal length) in E.
  rewrite length_reverse in E. pose proof (drop_while_length uspace (reverse (drop_while uspace s))) as H1.
  pose proof (drop_while_length uspace s) as H2. rewrite length_reverse in H1. simpl in E. lia.
Qed.

Lemma cut_Some c s a b : cut c s = Some (a, b) <-> s = (a ++ c :: b)%list /\ c ∉ a.
Proof.
  revert a b; induction s as [|x s IH]; intros a b; simpl.
  - split; [done|]. by intros [E _]; destruct a.
  - destruct (Z.eqb_spec x c) as [->|Hx].
    + split; [intros [= <- <-]; split; [done|apply not_elem_of_nil]|].
      intros [E Hc]. destruct a as [|y a]; [by injection E as ->|]. injection E as <- _. set_solver.
    + destruct (cut c s) as [[a' b']|] eqn:E.
      * assert (s = (a' ++ c :: b')%list /\ c ∉ a') as [-> Hc] by (by apply IH). split.
        -- intros [= <- <-]. split; [done|]. set_solver.
        -- intros [E' Hc']. destruct a as [|y a]; [simplify_eq/=|]. injection E' as -> E'.
           assert (Some (a', b') = Some (a, b)) as [= -> ->]; [|done]. apply IH. split; [done|]. set_solver.
      * split; [done|]. intros [E' Hc']. destruct a as [|y a]; [simplify_eq/=|]. injection E' as -> E'.
        assert (@None (ustr * ustr) = Some (a, b)); [|done]. apply IH. split; [done|]. set_solver.
Qed.

Lemma cut_None c s : cut c s = None <-> c ∉ s.
Proof.
  induction s as [|x s IH]; simpl; [split; [intros _; apply not_elem_of_nil|done]|].
  destruct (Z.eqb_spec x c) as [->|Hx]; [split; [done|set_solver]|].
  destruct (cut c s) as [[a b]|]; split; try done.
  - intros H. assert (c ∉ s) as Hn by set_solver. by apply IH in Hn.
  - intros _. assert (c ∉ s) by (by apply IH). set_solver.
Qed.

(** The text around the first [c]. *)
Lemma before_beyond c s :
  (c ∉ s /\ before c s = s /\ beyond c s = []) \/
  (s = (before c s ++ c :: beyond c s)%list /\ c ∉ before c s).
Proof.
  unfold before, beyond. destruct (cut c s) as [[a b]|] eqn:E; [right; by apply cut_Some|left].
  split; [by apply cut_None|done].
Qed.

Lemma before_absent c s : c ∉ s -> before c s = s.
Proof. intros H. unfold before. by rewrite (proj2 (cut_None c s) H). Qed.

Lemma beyond_absent c s : c ∉ s -> beyond c s = [].
Proof. intros H. unfold beyond. by rewrite (proj2 (cut_None c s) H). Qed.

Lemma before_app c a b : c ∉ a -> before c (a ++ c :: b) = a.
Proof. intros H. unfold before. by rewrite (proj2 (cut_Some c _ a b) (conj eq_refl H)). Qed.

Lemma beyond_app c a b : c ∉ a -> beyond c (a ++ c :: b) = b.
Proof. intros H. unfold beyond. by rewrite (proj2 (cut_Some c _ a b) (conj eq_refl H)). Qed.

Lemma after_last_absent c s : c ∉ s -> after_last c s = s.
Proof. intros H. unfold after_last. rewrite before_absent by (by rewrite elem_of_reverse). apply reverse_involutive. Qed.

(** [_splitnetloc] splits at the first delimiter. *)
Definition delimiter (c : Z) : bool := mem_b c [47; 63; 35].

Lemma split_netloc_spec s a b :
  split_netloc s = (a, b) <->
  s = (a ++ b)%list /\ Forall (fun c => delimiter c = false) a /\ (forall c b', b = c :: b' -> delimiter c = true).
Proof.
  revert a b; induction s as [|x s IH]; intros a b; simpl.
  - split; [intros [= <- <-]; done|]. intros (E & _ & _). by destruct a, b.
  - change (mem_b x [47; 63; 35]) with (delimiter x). destruct (delimiter x) eqn:Ex.
    + split.
      * intros [= <- <-]. split; [done|]. split; [done|]. by intros c b' [= <- _].
      * intros (E & Ha & _). destruct a as [|y a]; [by simpl in E; rewrite E|]. injection E as <- _.
        apply Forall_cons in Ha as [Ha _]. congruence.
    + destruct (split_netloc s) as [a' b'] eqn:Es. destruct (proj1 (IH a' b') eq_refl) as (E & Ha & Hb). split.
      * intros [= <- <-]. subst s. split; [done|]. split; [by constructor|done].
      * intros (E' & Ha' & Hb'). destruct a as [|y a].
        { simpl in E'. subst b. rewrite (Hb' x s eq_refl) in Ex. done. }
        injection E' as -> E'. apply Forall_cons in Ha' as [_ Ha'].
        assert ((a', b') = (a, b)) as [= -> ->] by (by apply IH). done.
Qed.

Lemma mem_b_false_elem c (l : ustr) : mem_b c l = false <-> c ∉ l.
Proof. apply mem_b_false. Qed.

(** Decimal digits. *)
Lemma udecimal_codes l acc :
  fold_left (fun acc c => acc * 10 + (c - 48)) (code <$> l) acc = fold_left digit_val l acc.
Proof. revert acc; induction l as [|a l IH]; intros acc; simpl; [done|]. apply IH. Qed.

Lemma udigits_spec n : 0 <= n ->
  Forall (fun c => is_num c = true) (udigits n) /\ udecimal (udigits n) = n /\ udigits n <> [].
Proof.
  intros Hn. unfold udigits, codes. destruct n as [|p|p]; [by repeat constructor| |lia].
  destruct (pretty_pos_digits p) as (d & ds & E & Hd & _ & Hv). rewrite E. split_and!; [| |done].
  - apply Forall_fmap, List.Forall_forall. intros a Ha. by apply (proj1 (forallb_forall _ _) Hd).
  - unfold udecimal. by rewrite udecimal_codes.
Qed.

Lemma clean_url_id url : Forall (fun c => 32 < c) url -> clean_url url = url.
Proof.
  intros H. unfold clean_url. assert (drop_while (fun c => c <=? 32) url = url) as ->.
  { destruct H as [|c s Hc Hs]; simpl; [done|]. destruct (Z.leb_spec c 32); [lia|done]. }
  induction H as [|c s Hc Hs IH]; cbn [List.filter]; [done|].
  rewrite (proj2 (mem_b_false c [9; 13; 10])) by set_solver by lia. cbn [negb]. by rewrite IH.
Qed.

Lemma clean_url_stripped url : Forall (fun c => 32 <= c) url -> url = ustrip url -> clean_url url = url.
Proof.
  intros Hc Hs. destruct Hc as [|c s Hc Hr]; [done|]. pose proof (ustrip_head c s (eq_sym Hs)) as Hsp.
  assert (32 < c) as Hlt. { destruct (decide (c = 32)) as [->|]; [by vm_compute in Hsp|lia]. }
  unfold clean_url. cbn [drop_while]. destruct (Z.leb_spec c 32); [lia|]. clear Hs Hsp Hlt H.
  assert (Forall (fun c => 32 <= c) (c :: s)) as Hall by (by constructor). clear Hc Hr.
  induction Hall as [|x l Hx Hl IH]; cbn [List.filter]; [done|].
  rewrite (proj2 (mem_b_false x [9; 13; 10])) by set_solver by lia. cbn [negb]. by rewrite IH.
Qed.

(** The brackets of an accepted authority. *)
Definition brackets_ok (netloc : ustr) : Prop :=
  (91 ∈ netloc <-> 93 ∈ netloc) /\ (91 ∈ netloc -> bracketed_netloc_ok netloc = true).

Section split.
Context `{Unicode}.

Lemma urlsplit_inv url p : clean_url url = url -> urlsplit url = Some p -> us_scheme p <> [] -> us_netloc p <> [] ->
  exists s tail, url = (s ++ 58 :: 47 :: 47 :: us_netloc p ++ tail)%list /\ lower_c <$> s = us_scheme p /\ 58 ∉ s /\
    Forall (fun c => delimiter c = false) (us_netloc p) /\ (forall c t, tail = c :: t -> delimiter c = true) /\
    us_path p = before 63 (before 35 tail) /\ us_query p = beyond 63 (before 35 tail) /\
    us_fragment p = beyond 35 tail /\ brackets_ok (us_netloc p).
Proof.
  intros Hclean. unfold urlsplit. rewrite Hclean. destruct (split_scheme url) as [scheme rest] eqn:Es.
  destruct (if uprefix [47; 47] rest then split_netloc (drop 2 rest) else ([], rest)) as [netloc tail] eqn:En.
  intros Hp Hscheme Hnetloc.
  assert (us_scheme p = scheme /\ us_netloc p = netloc /\ us_path p = before 63 (before 35 tail) /\
          us_query p = beyond 63 (before 35 tail) /\ us_fragment p = beyond 35 tail /\ brackets_ok netloc)
    as (E1 & E3 & -> & -> & -> & Hbr).
  { destruct (Bool.eqb (mem_b 91 netloc) (mem_b 93 netloc)) eqn:Eb; [|done]. cbn [negb] in Hp.
    apply Bool.eqb_prop in Eb. destruct (mem_b 91 netloc && mem_b 93 netloc && _) eqn:E2; [done|].
    destruct (check_netloc netloc); [|done]. injection Hp as <-. split_and!; try done. split.
    - rewrite <- !mem_b_true. by rewrite Eb.
    - intros Hin. apply mem_b_true in Hin. rewrite <- Eb, Hin in E2. cbn in E2. by apply negb_false_iff in E2. }
  rewrite E1 in *. rewrite E3 in *. clear Hp E1 E3 p.
  assert (exists s, url = (s ++ 58 :: rest)%list /\ lower_c <$> s = scheme /\ 58 ∉ s) as (s & -> & Hs & Hc).
  { unfold split_scheme in Es. destruct (cut 58 url) as [[[|c s] b]|] eqn:E; [congruence| |congruence].
    destruct (is_alpha c && _); [|congruence]. injection Es as <- <-. apply cut_Some in E as [-> Hc]. by exists (c :: s). }
  assert (exists u, rest = 47 :: 47 :: u /\ split_netloc u = (netloc, tail)) as (u & -> & Hu).
  { destruct (uprefix [47; 47] rest) eqn:Ep; [|congruence]. destruct rest as [|a [|b u]]; cbn [uprefix] in Ep; bool_props; [done..|].
    exists u. split; [congruence|done]. }
  apply split_netloc_spec in Hu as (-> & Hd & Ht). by exists s, tail.
Qed.

(** An origin: everything after the scheme is the authority. *)
Lemma urlsplit_origin auth p : Forall (fun c => 32 < c) auth -> Forall (fun c => delimiter c = false) auth -> auth <> [] ->
  urlsplit (codes "https://" ++ auth) = Some p ->
  p = {| us_scheme := codes "https"; us_netloc := auth; us_path := []; us_query := []; us_fragment := [] |} /\ brackets_ok auth.
Proof.
  intros Hc Hd Hne. unfold urlsplit. rewrite clean_url_id.
  2:{ apply Forall_app. split; [|done]. repeat constructor. }
  change (split_scheme (codes "https://" ++ auth)) with (codes "https", 47 :: 47 :: auth).
  cbn iota beta. change (uprefix [47; 47] (47 :: 47 :: auth)) with true. cbn iota beta.
  change (drop 2 (47 :: 47 :: auth)) with auth. rewrite (proj2 (split_netloc_spec auth auth [])).
  2:{ split; [by rewrite app_nil_r|]. by split. }
  destruct (Bool.eqb (mem_b 91 auth) (mem_b 93 auth)) eqn:Eb; [|done]. cbn [negb]. apply Bool.eqb_prop in Eb.
  destruct (mem_b 91 auth && mem_b 93 auth && _) eqn:E2; [done|]. destruct (check_netloc auth); [|done].
  intros [= <-]. split; [done|]. split.
  - rewrite <- !mem_b_true. by rewrite Eb.
  - intros Hin. apply mem_b_true in Hin. rewrite <- Eb, Hin in E2. cbn in E2. by apply negb_false_iff in E2.
Qed.

End split.
