(* ===== verification/BrowserPolicy.v ===== *)
(** * BrowserPolicy: where the supervised browser may go, and what is prohibited

    Models [core/browser/policy.py]: the origin policy, the open-redirect check, the scan for
    permanently prohibited terms and the risk assessment.  Theorems: an allowed URL names exactly the
    origin that was compared with the allow-list, and page evidence only raises a risk. *)

From S2P Require Import Prelude Text Url Domain.
From stdpp Require Import sorting.
Local Open Scope string_scope.
Local Open Scope Z_scope.

Definition MAX_URL_LENGTH : Z := 2048.
Definition MAX_SCAN_CHARS : Z := 200000.

Definition _REDIRECT_QUERY_KEYS : list ustr :=
  codes <$> ["url"; "uri"; "redirect"; "redirect_uri"; "redirect_url"; "redirect_to"; "next"; "target"; "continue";
             "callback"; "return"; "return_url"; "returnurl"; "goto"; "dest"; "destination"; "forward"; "service"].

Definition _FORBIDDEN_SCHEMES : list ustr :=
  codes <$> ["http"; "javascript"; "data"; "file"; "blob"; "about"; "chrome"; "chrome-extension"; "vbscript"; "ftp";
             "ws"; "wss"; "mailto"; "tel"; "view-source"].

Definition risk_rank (r : RiskLevel) : Z :=
  match r with READ => 0 | INTERNAL_WRITE => 1 | EXTERNAL_WRITE => 2 | PROHIBITED => 3 end.

Definition escalate_risk (base observed : RiskLevel) : RiskLevel :=
  if risk_rank observed <=? risk_rank base then base else observed.

Record NavigationDecision := { nd_allowed : bool; nd_origin : ustr; nd_path : ustr; nd_reason : string }.

Definition refused (origin path : ustr) (reason : string) : NavigationDecision :=
  {| nd_allowed := false; nd_origin := origin; nd_path := path; nd_reason := reason |}.

(** [BrowserPolicyError(reason, message)] and its subclasses: [exn_ref] is the reason. *)
Definition policy_exn (c : exn_class) (reason msg : string) : exn :=
  Exn c (if bool_decide (msg = "") then reason else msg) (Some reason) false.
Definition policy_fail {A} (reason msg : string) : result A := Err (policy_exn BrowserPolicyError reason msg).
Definition policy_if (b : bool) (reason msg : string) : result unit := if b then policy_fail reason msg else Ok tt.

Definition https : ustr := codes "https".
Definition https_slashes : ustr := codes "https://".

Section policy.
Context `{Unicode}.

(** [while value.endswith("."): value = value[:-1]] *)
Definition rstrip_dots (s : ustr) : ustr := reverse (drop_while (fun c => c =? 46) (reverse s)).

Definition _canonical_host (host : ustr) : result ustr :=
  let value := rstrip_dots (ulower host) in
  _ ← policy_if (bool_decide (value = [])) "MISSING_HOST" "origin requires a host";
  _ ← policy_if (existsb (fun c => mem_b c value) [37; 92; 47]) "MALFORMED_HOST" "origin host is malformed";
  Ok value.

Definition _origin_port (parts : SplitResult) : result (option Z) :=
  match port parts with
  | Some p => Ok p
  | None => policy_fail "MALFORMED_ORIGIN" "origin has an invalid port"
  end.

Definition origin_text (host : ustr) (port : option Z) : ustr :=
  (https_slashes ++ host ++ match port with Some p => 58 :: udigits p | None => [] end)%list.

Definition normalize_origin (raw : ustr) : result ustr :=
  _ ← policy_if (bool_decide (ustrip raw = [])) "EMPTY_ORIGIN" "origin is required";
  _ ← policy_if (negb (bool_decide (ustrip raw = raw))) "MALFORMED_ORIGIN" "origin must not contain padding";
  _ ← policy_if (existsb (fun c => c <? 33) raw) "CONTROL_CHARACTERS" "origin contains control characters";
  parts ← match urlsplit raw with Some parts => Ok parts | None => fail PyValueError "urlsplit" end;
  _ ← policy_if (negb (bool_decide (us_scheme parts = https))) "SCHEME_NOT_ALLOWED" "only https origins are allowed";
  _ ← policy_if (negb (mem_b (us_path parts) [[]; [47]]) || negb (bool_decide (us_query parts = []))
                 || negb (bool_decide (us_fragment parts = [])))
        "MALFORMED_ORIGIN" "origin must not carry path/query/fragment";
  _ ← policy_if (mem_b 64 (us_netloc parts)) "USERINFO_NOT_ALLOWED" "origin must not carry userinfo";
  match hostname parts with
  | None => policy_fail "MISSING_HOST" "origin requires a host"
  | Some host =>
      port ← _origin_port parts;
      _ ← policy_if (bool_decide (port = Some 0)) "MALFORMED_ORIGIN" "port zero is not a valid origin";
      canonical_host ← _canonical_host host;
      Ok (origin_text canonical_host (if bool_decide (port = Some 443) then None else port))
  end.

(** Up to [n] rounds of [unquote], until nothing changes. *)
Fixpoint decode_rounds (n : nat) (s : ustr) : ustr :=
  match n with
  | O => s
  | S n => let decoded := unquote s in if bool_decide (decoded = s) then s else decode_rounds n decoded
  end.
Definition _decoded_path (path : ustr) : ustr := decode_rounds 3 path.

Definition _path_matches (path pattern : ustr) : bool := fnmatchcase path pattern.

Definition _redirect_target_allowed (candidate : ustr) (allowed_origins : list ustr) (origin_mode : string) : result bool :=
  if mem_b 92 candidate || mem_b 64 candidate then Ok false else
  let candidate := if uprefix [47; 47] candidate then (codes "https:" ++ candidate)%list else candidate in
  match urlsplit candidate with
  | None => Ok false
  | Some nested =>
      if bool_decide (us_scheme nested = []) then Ok true
      else if negb (bool_decide (us_scheme nested = https)) || bool_decide (hostname nested = None) then Ok false
      else match normalize_origin (us_scheme nested ++ codes "://" ++ us_netloc nested)%list with
           | Ok origin => Ok (bool_decide (origin_mode = "open") || mem_b origin allowed_origins)
           | Err e => if exn_is e BrowserPolicyError then Ok false else Err e
           end
  end.

(** The loop over the parameters: the first target that is not allowed decides. *)
Fixpoint redirects_out (items : list (ustr * ustr)) (allowed_origins : list ustr) (origin_mode : string) : result bool :=
  match items with
  | [] => Ok false
  | (key, value) :: items =>
      let candidate := ustrip value in
      if negb (mem_b (ulower key) _REDIRECT_QUERY_KEYS) || bool_decide (candidate = [])
      then redirects_out items allowed_origins origin_mode
      else
        allowed ← _redirect_target_allowed (decode_rounds 3 candidate) allowed_origins origin_mode;
        if (negb allowed : bool) then Ok true else redirects_out items allowed_origins origin_mode
  end.

Definition _has_open_redirect (query : ustr) (allowed_origins : list ustr) (origin_mode : string) : result bool :=
  if bool_decide (query = []) then Ok false else redirects_out (parse_qsl query) allowed_origins origin_mode.

Definition has_control (url : ustr) : bool := existsb (fun c => (c <? 32) || (c =? 127)) url.

(** The checks on the path and the query of a URL whose origin was accepted. *)
Definition evaluate_target (parts : SplitResult) (origin : ustr) (allowed_origins allowed_paths : list ustr)
    (origin_mode : string) : result NavigationDecision :=
  let path := if bool_decide (us_path parts = []) then [47] else us_path parts in
  let decoded := _decoded_path path in
  if mem_b 92 decoded then Ok (refused origin path "ENCODED_SEPARATOR")
  else if mem_b 0 decoded then Ok (refused origin path "ENCODED_SEPARATOR")
  else if existsb (fun segment => mem_b segment [[46]; [46; 46]]) (usplit 47 decoded)
  then Ok (refused origin path "ENCODED_TRAVERSAL")
  else
    redirect ← _has_open_redirect (us_query parts) allowed_origins origin_mode;
    if (redirect : bool) then Ok (refused origin path "OPEN_REDIRECT")
    else if negb (bool_decide (allowed_paths = [])) && negb (existsb (_path_matches path) allowed_paths)
    then Ok (refused origin path "PATH_NOT_ALLOWED")
    else Ok {| nd_allowed := true; nd_origin := origin; nd_path := path; nd_reason := "ALLOWED" |}.

(** The canonical origin of the host and port; any policy error makes the URL malformed. *)
Definition url_origin (parts : SplitResult) (host : ustr) : result (option (option Z * ustr)) :=
  match port ← _origin_port parts;
        origin ← normalize_origin (origin_text host (if bool_decide (port = Some 0) then None else port));
        Ok (port, origin)
  with
  | Ok x => Ok (Some x)
  | Err e => if exn_is e BrowserPolicyError then Ok None else Err e
  end.

Definition evaluate_navigation (url : ustr) (allowed_origins allowed_paths : list ustr) (origin_mode : string)
    : result NavigationDecision :=
  if negb (mem_b origin_mode ["allowlist"; "open"]) then Ok (refused [] [] "ORIGIN_MODE_INVALID")
  else if bool_decide (url = []) then Ok (refused [] [] "EMPTY_URL")
  else if MAX_URL_LENGTH <? Z.of_nat (length url) then Ok (refused [] [] "URL_TOO_LONG")
  else if has_control url then Ok (refused [] [] "CONTROL_CHARACTERS")
  else if negb (bool_decide (url = ustrip url)) then Ok (refused [] [] "MALFORMED_URL")
  else if mem_b 92 url then Ok (refused [] [] "BACKSLASH")
  else match urlsplit url with
       | None => Ok (refused [] [] "MALFORMED_URL")
       | Some parts =>
           if mem_b (us_scheme parts) _FORBIDDEN_SCHEMES || negb (bool_decide (us_scheme parts = https))
           then Ok (refused [] [] "SCHEME_NOT_ALLOWED")
           else if mem_b 64 (us_netloc parts) then Ok (refused [] [] "USERINFO_NOT_ALLOWED")
           else match hostname parts with
                | None => Ok (refused [] [] "MISSING_HOST")
                | Some host =>
                    found ← url_origin parts host;
                    match found with
                    | None => Ok (refused [] [] "MALFORMED_URL")
                    | Some (port, origin) =>
                        if bool_decide (port = Some 0) then Ok (refused [] [] "PORT_NOT_ALLOWED")
                        else if bool_decide (origin_mode = "allowlist") && negb (mem_b origin allowed_origins)
                        then Ok (refused origin [] "HOST_NOT_ALLOWED")
                        else evaluate_target parts origin allowed_origins allowed_paths origin_mode
                    end
                end
       end.

(** ** Prohibited terms *)

End policy.

Module ProhibitedCategory.
Inductive t :=
| COURSE_WITHDRAWAL | REVOCATION | PAYMENT | COURSE_CHANGE | LEGAL_DECLARATION | HIGH_CONSEQUENCE
| UNKNOWN_TRANSACTION | UNKNOWN_PAGE_VERSION.

#[global] Instance eq_dec : EqDecision t.
Proof. solve_decision. Defined.

Definition all : list t :=
  [COURSE_WITHDRAWAL; REVOCATION; PAYMENT; COURSE_CHANGE; LEGAL_DECLARATION; HIGH_CONSEQUENCE;
   UNKNOWN_TRANSACTION; UNKNOWN_PAGE_VERSION].

Definition value (c : t) : string :=
  match c with
  | COURSE_WITHDRAWAL => "COURSE_WITHDRAWAL" | REVOCATION => "REVOCATION" | PAYMENT => "PAYMENT"
  | COURSE_CHANGE => "COURSE_CHANGE" | LEGAL_DECLARATION => "LEGAL_DECLARATION"
  | HIGH_CONSEQUENCE => "HIGH_CONSEQUENCE" | UNKNOWN_TRANSACTION => "UNKNOWN_TRANSACTION"
  | UNKNOWN_PAGE_VERSION => "UNKNOWN_PAGE_VERSION"
  end.
End ProhibitedCategory.

Definition PROHIBITED_TERM_CATALOG : list (ProhibitedCategory.t * list ustr) :=
  [(ProhibitedCategory.COURSE_WITHDRAWAL,
    [[36864; 35838]; [36864; 36873]; [25764; 35838]; [21462; 28040; 36873; 35838];
     codes "withdraw course"; codes "withdraw from course"; codes "drop course"; codes "course withdrawal";
     codes "course drop"]);
   (ProhibitedCategory.REVOCATION,
    [[25764; 38144]; [25764; 22238]; [25764; 38144; 30003; 35831]; [25764; 22238; 30003; 35831];
     [21462; 28040; 30003; 35831]; codes "revoke"; codes "revocation"; codes "withdraw application";
     codes "cancel application"]);
   (ProhibitedCategory.PAYMENT,
    [[32564; 36153]; [25903; 20184]; [20184; 27454]; [20132; 36153];
     [32564; 32435]; [20184; 36153]; [36864; 36153]; [36864; 27454];
     [36716; 36134]; [27719; 27454]; [32593; 38134]; codes "payment";
     codes "pay fee"; codes "make a payment"; codes "checkout"; codes "refund";
     codes "transfer funds"]);
   (ProhibitedCategory.COURSE_CHANGE,
    [[36873; 35838]; [21152; 35838]; [25442; 35838]; [35843; 35838];
     [34917; 36873]; [36873; 35838; 21464; 26356]; codes "course registration"; codes "add course";
     codes "drop/add"; codes "change course"]);
   (ProhibitedCategory.LEGAL_DECLARATION,
    [[25215; 35834; 20070]; [27861; 24459; 22768; 26126]; [20813; 36131; 22768; 26126]; [25918; 24323; 26435; 21033];
     [25480; 26435; 20070]; [35802; 20449; 25215; 35834]; [22768; 26126; 20070]; [36131; 20219; 20813; 38500];
     codes "legal declaration"; codes "waiver"; codes "disclaimer"; codes "terms of service"]);
   (ProhibitedCategory.HIGH_CONSEQUENCE,
    [[36829; 32422; 37329]; [22788; 32602]; [22788; 20998]; [20923; 32467];
     [27880; 38144]; [24320; 38500]; [40657; 21517; 21333]; codes "penalty";
     codes "blacklist"; codes "termination"; codes "consequences acknowledged"])].

Definition catalog_terms : list (ProhibitedCategory.t * ustr) :=
  flat_map (fun p => map (fun term => (p.1, term)) p.2) PROHIBITED_TERM_CATALOG.
Definition _ASCII_TERMS : list (ProhibitedCategory.t * ustr) := List.filter (fun p => is_ascii p.2) catalog_terms.
Definition _CJK_TERMS : list (ProhibitedCategory.t * ustr) := List.filter (fun p => negb (is_ascii p.2)) catalog_terms.

Record ProhibitedMatch := { pm_category : ProhibitedCategory.t; pm_term : ustr; pm_span : Z * Z }.
#[global] Instance ProhibitedMatch_eq_dec : EqDecision ProhibitedMatch.
Proof. solve_decision. Defined.

Definition is_word (c : Z) : bool := is_num c || ((97 <=? c) && (c <=? 122)).
Definition no_word (o : option Z) : bool := match o with Some c => negb (is_word c) | None => true end.

(** The spans of the leftmost occurrences of [term] that do not overlap: [str.find] in a loop, and with
    [words] the regular expression [(?<![a-z0-9])term(?![a-z0-9])].  [prev] is the character before,
    [pos] the position and [skip] what is left of the occurrence found last. *)
Fixpoint occurrences_of (words : bool) (term : ustr) (prev : option Z) (pos : Z) (skip : nat) (s : ustr) : list (Z * Z) :=
  match s with
  | [] => []
  | c :: s' =>
      match skip with
      | S skip => occurrences_of words term (Some c) (pos + 1) skip s'
      | O => if uprefix term s && (negb words || (no_word prev && no_word (head (drop (length term) s))))
             then (pos, pos + Z.of_nat (length term)) :: occurrences_of words term (Some c) (pos + 1) (length term - 1) s'
             else occurrences_of words term (Some c) (pos + 1) 0 s'
      end
  end.

Definition term_matches (words : bool) (category : ProhibitedCategory.t) (shown term text : ustr) : list ProhibitedMatch :=
  map (fun span => {| pm_category := category; pm_term := shown; pm_span := span |}) (occurrences_of words term None 0 0 text).

(** The sort key [(span[0], category.value, term)]. *)
Fixpoint ustr_leb (a b : ustr) : bool :=
  match a, b with
  | [], _ => true
  | _, [] => false
  | x :: a, y :: b => (x <? y) || ((x =? y) && ustr_leb a b)
  end.
Definition match_le (a b : ProhibitedMatch) : Prop :=
  ((a.(pm_span).1 <? b.(pm_span).1)
   || ((a.(pm_span).1 =? b.(pm_span).1)
       && (String.ltb (ProhibitedCategory.value (pm_category a)) (ProhibitedCategory.value (pm_category b))
           || (bool_decide (pm_category a = pm_category b) && ustr_leb (pm_term a) (pm_term b))))) = true.
#[global] Instance match_le_dec : RelDecision match_le := fun a b => decide (_ = true).

Section scan.
Context `{Unicode}.

Definition scan_text_for_prohibited_terms (text : ustr) (extra_terms : list ustr) (max_chars : Z) : list ProhibitedMatch :=
  let bounded := take (Z.to_nat max_chars) text in
  let lowered := ulower bounded in
  merge_sort match_le
    (flat_map (fun p => term_matches true p.1 p.2 p.2 lowered) _ASCII_TERMS
     ++ flat_map (fun p => term_matches false p.1 p.2 p.2 bounded) _CJK_TERMS
     ++ flat_map (fun term =>
          let needle := ustrip term in
          if bool_decide (needle = []) then []
          else if is_ascii needle then term_matches false ProhibitedCategory.HIGH_CONSEQUENCE needle (ulower needle) lowered
          else term_matches false ProhibitedCategory.HIGH_CONSEQUENCE needle needle bounded) extra_terms)%list.

Definition classify_labels (labels extra_terms : list ustr) : list (ustr * list ProhibitedMatch) :=
  (fun label => (label, scan_text_for_prohibited_terms label extra_terms MAX_SCAN_CHARS)) <$> labels.

End scan.

(** ** Risk *)

Record RiskSignal := { rs_code : string; rs_detail : string; rs_risk : RiskLevel }.

Record RiskAssessment := {
  ra_risk : RiskLevel;
  ra_categories : list ProhibitedCategory.t;
  ra_signals : list (list (string * string));
  ra_escalated : bool
}.
Definition prohibited (a : RiskAssessment) : bool := bool_decide (ra_risk a = PROHIBITED).

Definition add_match (acc : RiskAssessment) (m : ProhibitedMatch) : RiskAssessment :=
  {| ra_risk := PROHIBITED;
     ra_categories := if mem_b (pm_category m) (ra_categories acc) then ra_categories acc
                      else (ra_categories acc ++ [pm_category m])%list;
     ra_signals := (ra_signals acc ++ [[("code", "PROHIBITED_TERM"); ("category", ProhibitedCategory.value (pm_category m))]])%list;
     ra_escalated := false |}.

Definition add_signal (acc : RiskAssessment) (s : RiskSignal) : RiskAssessment :=
  {| ra_risk := escalate_risk (ra_risk acc) (rs_risk s);
     ra_categories := ra_categories acc;
     ra_signals := (ra_signals acc ++ [[("code", rs_code s); ("risk", risk_value (rs_risk s))]])%list;
     ra_escalated := false |}.

Definition assess_risk (declared : RiskLevel) (matches : list ProhibitedMatch) (extra_signals : list RiskSignal)
    (transaction_known page_version_known : bool) : RiskAssessment :=
  let categories := ((if transaction_known then [] else [ProhibitedCategory.UNKNOWN_TRANSACTION])
                     ++ (if page_version_known then [] else [ProhibitedCategory.UNKNOWN_PAGE_VERSION]))%list in
  let start := {| ra_risk := if bool_decide (categories = []) then declared else PROHIBITED;
                  ra_categories := categories; ra_signals := []; ra_escalated := false |} in
  let acc := foldl add_signal (foldl add_match start matches) extra_signals in
  let highest := if risk_rank (ra_risk acc) <? risk_rank declared then declared else ra_risk acc in
  {| ra_risk := highest; ra_categories := ra_categories acc; ra_signals := ra_signals acc;
     ra_escalated := (risk_rank declared <? risk_rank highest) || negb (bool_decide (ra_categories acc = [])) |}.

(** ** The origin policy *)

(** What the policy relies on of [str.lower]: it neither adds nor removes an ASCII character that is
    not a letter, and applying it again changes nothing. *)
Class UnicodeLaws `{Unicode} : Prop := {
  ulower_same : forall s c, c < 128 -> is_alpha c = false -> c ∈ ulower s <-> c ∈ s;
  ulower_idem : forall s, ulower (ulower s) = ulower s
}.

Lemma policy_if_Ok b reason msg u : policy_if b reason msg = Ok u <-> b = false.
Proof. destruct b, u; naive_solver. Qed.

Section origins.
Context `{UnicodeLaws}.

Lemma rstrip_dots_elem s c : c <> 46 -> c ∈ rstrip_dots s <-> c ∈ s.
Proof.
  intros Hc. unfold rstrip_dots. destruct (drop_while_suffix (fun c => c =? 46) (reverse s)) as (p & E & Hp).
  rewrite elem_of_reverse. transitivity (c ∈ reverse s); [rewrite E at 2|by rewrite elem_of_reverse].
  rewrite elem_of_app. split; [by right|].
  intros [Hin|]; [|done]. apply (proj1 (Forall_forall _ _) Hp), Z.eqb_eq in Hin. done.
Qed.

Lemma canonical_host_inv host h : _canonical_host host = Ok h ->
  h = rstrip_dots (ulower host) /\ h <> [] /\ 37 ∉ host.
Proof.
  unfold _canonical_host. rewrite result_bind_Ok. intros (? & H1%policy_if_Ok & H2).
  apply result_bind_Ok in H2 as (? & H2%policy_if_Ok & [= <-]). cbn [existsb] in H2. bool_props.
  split_and!; [done|done|]. intros Hin. apply (ulower_same host 37), (rstrip_dots_elem _ 37) in Hin; [|done..].
  apply mem_b_true in Hin. congruence.
Qed.

Lemma normalize_origin_inv raw o : normalize_origin raw = Ok o ->
  Forall (fun c => 32 < c) raw /\ exists parts host p h,
    urlsplit raw = Some parts /\ us_scheme parts = https /\ 64 ∉ us_netloc parts /\ hostname parts = Some host /\
    port parts = Some p /\ p <> Some 0 /\ _canonical_host host = Ok h /\
    o = origin_text h (if bool_decide (p = Some 443) then None else p).
Proof.
  unfold normalize_origin. intros E. repeat (apply result_bind_Ok in E as (? & ?%policy_if_Ok & E)).
  apply result_bind_Ok in E as (parts & Hp & E). destruct (urlsplit raw) as [parts'|] eqn:Eu; [|done]. injection Hp as <-.
  repeat (apply result_bind_Ok in E as (? & ?%policy_if_Ok & E)). destruct (hostname parts') as [host|] eqn:Eh; [|done].
  apply result_bind_Ok in E as (p & Hp & E). unfold _origin_port in Hp. destruct (port parts') as [p'|] eqn:Epp; [|done].
  injection Hp as <-. apply result_bind_Ok in E as (? & ?%policy_if_Ok & E). apply result_bind_Ok in E as (h & Hh & [= <-]).
  bool_props. split.
  - apply List.Forall_forall. intros c Hc. destruct (Z.ltb_spec 32 c); [done|exfalso].
    assert (existsb (fun c => c <? 33) raw = true) as Hx; [|congruence].
    apply existsb_exists. exists c. split; [done|]. apply Z.ltb_lt. lia.
  - exists parts', host, p', h. split_and!; try done. by apply mem_b_false.
Qed.

(** The host and the port of an authority without brackets and user information. *)
Lemma hostinfo_plain p : 64 ∉ us_netloc p -> 91 ∉ us_netloc p ->
  hostinfo p = (before 58 (us_netloc p), beyond 58 (us_netloc p)).
Proof. intros H1 H2. unfold hostinfo. rewrite after_last_absent by done. by rewrite (proj2 (cut_None 91 _) H2). Qed.

(** [hostname] without a zone. *)
Definition plain (host : ustr) : Prop := Forall (fun c => delimiter c = false) host /\ 58 ∉ host /\ 64 ∉ host /\ 91 ∉ host.

Lemma ulower_plain s : plain s -> plain (ulower s).
Proof.
  intros (Hd & H1 & H2 & H3). split_and!; try (rewrite ulower_same; done).
  apply Forall_forall. intros c Hc. destruct (delimiter c) eqn:E; [|done].
  assert (c ∈ s) as Hs. { apply ulower_same; [| |done]; apply mem_b_true in E; set_solver by lia. }
  apply (proj1 (Forall_forall _ _) Hd) in Hs. congruence.
Qed.

Lemma is_num_plain l : Forall (fun c => is_num c = true) l -> plain l.
Proof.
  intros Hl. assert (forall c, c ∈ l -> 48 <= c <= 57) as Hn.
  { intros c Hc. apply (proj1 (Forall_forall _ _) Hl) in Hc. unfold is_num in Hc. by bool_props. }
  split_and!; try (intros Hc%Hn; lia). apply Forall_forall. intros c Hc%Hn. unfold delimiter. apply mem_b_false. set_solver by lia.
Qed.

(** Normalising a host and a port keeps both; the host is stripped of its final dots. *)
Lemma normalize_origin_text host p o : plain host -> (forall n, p = Some n -> 0 <= n) ->
  normalize_origin (origin_text host p) = Ok o ->
  37 ∉ host /\ o = origin_text (rstrip_dots (ulower host)) (if bool_decide (p = Some 443) then None else p).
Proof.
  intros Hpl Hp E. pose proof Hpl as (Hd & H58 & H64 & H91).
  apply normalize_origin_inv in E as (Hc & parts & h & p' & h' & Eu & _ & _ & Eh & Ep & Hp0 & Ec & ->).
  unfold origin_text, https_slashes in Eu, Hc. apply Forall_app in Hc as [_ Hc].
  set (auth := (host ++ match p with Some p => 58 :: udigits p | None => [] end)%list) in *.
  assert (auth <> []) as Hne. { intros E. rewrite E in Eu. vm_compute in Eu. injection Eu as <-. discriminate Eh. }
  assert (Forall (fun c => delimiter c = false) auth /\ 64 ∉ auth /\ 91 ∉ auth) as (Hd' & H64' & H91').
  { unfold auth. destruct p as [n|]; [|by rewrite app_nil_r]. destruct (udigits_spec n (Hp n eq_refl)) as (Hn & _).
    apply is_num_plain in Hn as (Hn1 & _ & Hn2 & Hn3). split_and!; [|set_solver by lia..].
    apply Forall_app. split; [done|]. by constructor. }
  apply urlsplit_origin in Eu as [-> _]; [|done..].
  unfold hostname, port in *. rewrite hostinfo_plain in Eh, Ep by done. cbn [us_netloc fst snd] in Eh, Ep.
  assert (before 58 auth = host /\ p' = p) as [Eb ->].
  { unfold auth in *. destruct p as [n|].
    - rewrite before_app by done. split; [done|]. rewrite beyond_app in Ep by done.
      destruct (udigits_spec n (Hp n eq_refl)) as (_ & Hv & Hnil). destruct (udigits n) as [|d ds]; [done|].
      destruct (forallb is_num (d :: ds) && _); [|done]. rewrite Hv in Ep. by injection Ep as <-.
    - rewrite app_nil_r in *. rewrite before_absent by done. split; [done|]. rewrite beyond_absent in Ep by done. by injection Ep as <-. }
  rewrite Eb in Eh. destruct host as [|c0 host0] eqn:Ehost; [discriminate Eh|]. rewrite <- Ehost in *. injection Eh as Eh.
  apply canonical_host_inv in Ec as (-> & _ & H37). destruct (cut 37 host) as [[a zone]|] eqn:E37.
  { exfalso. apply H37. rewrite <- Eh. set_solver. }
  apply cut_None in E37. split; [done|]. rewrite <- Eh, ulower_idem. done.
Qed.

(** The port a URL names: the default one is not written. *)
Definition named_port (digits : ustr) : option Z :=
  if bool_decide (digits = []) || (udecimal digits =? 443) then None else Some (udecimal digits).

Lemma port_named p n : 64 ∉ us_netloc p -> 91 ∉ us_netloc p -> port p = Some n ->
  (forall m, n = Some m -> 0 <= m) /\ (if bool_decide (n = Some 443) then None else n) = named_port (beyond 58 (us_netloc p)).
Proof.
  intros H1 H2. unfold port. rewrite hostinfo_plain by done. cbn [snd]. unfold named_port.
  destruct (beyond 58 (us_netloc p)) as [|c s] eqn:E; [by intros [= <-]|]. rewrite <- E.
  destruct (forallb is_num (beyond 58 (us_netloc p)) && _) eqn:Ed; [|done]. intros [= <-]. bool_props. split.
  - intros m [= <-]. assert (forall l acc, forallb is_num l = true -> 0 <= acc -> 0 <= fold_left (fun acc c => acc * 10 + (c - 48)) l acc) as Hl.
    { induction l as [|x l IH]; intros acc Hl Ha; cbn [fold_left]; [done|]. cbn [forallb] in Hl. unfold is_num at 1 in Hl. bool_props.
      apply IH; [done|lia]. }
    by apply Hl.
  - rewrite (bool_decide_eq_false_2 (beyond 58 (us_netloc p) = [])) by congruence. cbn [orb].
    destruct (Z.eqb_spec (udecimal (beyond 58 (us_netloc p))) 443) as [->|Hne]; [done|]. rewrite bool_decide_eq_false_2; [done|congruence].
Qed.

Lemma url_origin_named parts host p o : 64 ∉ us_netloc parts -> 91 ∉ us_netloc parts ->
  Forall (fun c => delimiter c = false) (us_netloc parts) -> hostname parts = Some host ->
  url_origin parts host = Ok (Some (p, o)) -> p <> Some 0 ->
  o = origin_text (rstrip_dots (ulower (before 58 (us_netloc parts)))) (named_port (beyond 58 (us_netloc parts))).
Proof.
  intros H64 H91 Hd Eh Eu Hp0. unfold url_origin, _origin_port in Eu. destruct (port parts) as [p'|] eqn:Ep; [|discriminate Eu].
  cbn [mbind result_bind] in Eu. destruct (port_named parts p' H64 H91 Ep) as [Hpos Hport].
  set (q := if bool_decide (p' = Some 0) then None else p') in *.
  destruct (normalize_origin (origin_text host q)) as [o'|e] eqn:En; cbn [mbind result_bind] in Eu;
    [|destruct (exn_is e BrowserPolicyError); discriminate Eu].
  injection Eu as -> ->. assert (q = p) as Eq by (unfold q; by rewrite bool_decide_eq_false_2). rewrite Eq in *.
  set (h0 := before 58 (us_netloc parts)) in *.
  assert (plain h0) as Hpl.
  { destruct (before_beyond 58 (us_netloc parts)) as [(H58 & Hb & _)|[Hb H58]]; fold h0 in Hb.
    - rewrite Hb. by split_and!.
    - fold h0 in H58. rewrite Hb in Hd, H64, H91. apply Forall_app in Hd as [Hd _]. split_and!; [done|done|set_solver..]. }
  unfold hostname in Eh. rewrite hostinfo_plain in Eh by done. cbn [fst] in Eh. fold h0 in Eh.
  destruct h0 as [|c h1] eqn:Eh0; [discriminate|]. rewrite <- Eh0 in *. injection Eh as Eh.
  destruct (cut 37 h0) as [[a zone]|] eqn:E37.
  - exfalso. apply cut_Some in E37 as [E37 _]. assert (plain host) as Hpl'.
    { rewrite E37 in Hpl. destruct Hpl as (Ha & Hb & Hc & Hd'). apply Forall_app in Ha as [Ha Hz]. rewrite Forall_cons in Hz.
      assert (plain a) as (? & ? & ? & ?)%ulower_plain by (split_and!; [done|set_solver..]). subst host.
      split_and!; [|set_solver by lia..]. apply Forall_app. split; [done|]. constructor; [done|by destruct Hz]. }
    apply normalize_origin_text in En as [Hn _]; [|done..]. apply Hn. subst host. set_solver.
  - subst host. apply normalize_origin_text in En as [_ ->]; [|by apply ulower_plain|done]. by rewrite ulower_idem, <- Hport.
Qed.

(** The guards that a URL passes before it is split, and the split. *)
Lemma evaluate_navigation_inv url origins paths mode d :
  evaluate_navigation url origins paths mode = Ok d -> nd_allowed d = true ->
  clean_url url = url /\ 92 ∉ url /\ Forall (fun c => 32 <= c) url /\ exists parts host p o,
    urlsplit url = Some parts /\ us_scheme parts = https /\ 64 ∉ us_netloc parts /\ hostname parts = Some host /\
    url_origin parts host = Ok (Some (p, o)) /\ p <> Some 0 /\ (mode = "allowlist" -> o ∈ origins) /\
    evaluate_target parts o origins paths mode = Ok d.
Proof.
  intros E Ha. unfold evaluate_navigation in E.
  destruct (negb (mem_b mode _)); [by injection E as <-|]. case_bool_decide as Hne; [by injection E as <-|].
  destruct (MAX_URL_LENGTH <? _); [by injection E as <-|]. destruct (has_control url) eqn:Ec; [by injection E as <-|].
  case_bool_decide as Es; [cbn [negb] in E|by injection E as <-]. destruct (mem_b 92 url) eqn:Eb; [by injection E as <-|].
  assert (Forall (fun c => 32 <= c) url) as Hc.
  { apply List.Forall_forall. intros c Hin. destruct (Z.leb_spec 32 c); [done|exfalso]. unfold has_control in Ec.
    assert (existsb (fun c => (c <? 32) || (c =? 127)) url = true) as Hx; [|congruence].
    apply existsb_exists. exists c. split; [done|]. apply orb_true_iff. left. apply Z.ltb_lt. lia. }
  split; [by apply clean_url_stripped|]. split; [by apply mem_b_false|]. split; [done|].
  destruct (urlsplit url) as [parts|] eqn:Eu; [|by injection E as <-].
  destruct (mem_b (us_scheme parts) _FORBIDDEN_SCHEMES || _) eqn:Esc; [by injection E as <-|].
  destruct (mem_b 64 (us_netloc parts)) eqn:E64; [by injection E as <-|].
  destruct (hostname parts) as [host|] eqn:Eh; [|by injection E as <-]. apply result_bind_Ok in E as (found & Eo & E).
  destruct found as [[p o]|]; [|by injection E as <-]. case_bool_decide as Ep; [by injection E as <-|].
  destruct (bool_decide (mode = "allowlist") && _) eqn:Em; [by injection E as <-|]. bool_props.
  exists parts, host, p, o. split_and!; try done; [by apply mem_b_false|]. intros ->.
  rewrite bool_decide_eq_true_2 in Em by done. cbn in Em. apply negb_false_iff in Em. by apply mem_b_true.
Qed.

Lemma evaluate_target_inv parts o origins paths mode d :
  evaluate_target parts o origins paths mode = Ok d -> nd_allowed d = true ->
  nd_origin d = o /\ nd_path d = (if bool_decide (us_path parts = []) then [47] else us_path parts) /\
  (forall segment, segment ∈ usplit 47 (_decoded_path (nd_path d)) -> segment <> [46] /\ segment <> [46; 46]) /\
  _has_open_redirect (us_query parts) origins mode = Ok false /\
  (paths <> [] -> exists pattern, pattern ∈ paths /\ fnmatchcase (nd_path d) pattern = true).
Proof.
  unfold evaluate_target. set (path := if bool_decide (us_path parts = []) then [47] else us_path parts). intros E Ha.
  destruct (mem_b 92 _); [by injection E as <-|]. destruct (mem_b 0 _); [by injection E as <-|].
  destruct (existsb _ (usplit 47 (_decoded_path path))) eqn:Et; [by injection E as <-|].
  apply result_bind_Ok in E as ([] & Er & E); [by injection E as <-|].
  destruct (negb (bool_decide (paths = [])) && _) eqn:Em; [by injection E as <-|]. injection E as <-. cbn [nd_origin nd_path].
  split_and!; try done.
  - intros segment Hs. assert (mem_b segment [[46]; [46; 46]] = false) as Hm.
    { destruct (mem_b segment _) eqn:Hx; [|done]. rewrite <- Et. symmetry. apply existsb_exists. exists segment. by rewrite <- list_elem_of_In. }
    apply mem_b_false in Hm. set_solver.
  - intros Hp. rewrite bool_decide_eq_false_2 in Em by done. cbn in Em. apply negb_false_iff, existsb_exists in Em as (pat & Hin & Hm).
    exists pat. by rewrite list_elem_of_In.
Qed.

(** C21. A URL that the policy allows names the origin that was allowed.  Its text is an https scheme, an
    authority and a tail; the authority holds no delimiter, user information, backslash or control character;
    when it has no bracket (no IPv6 literal), its host and port are the answered origin; in allow-list mode
    the answered origin is in the allow-list; the answered path is the text between the authority and the
    query, has no dot segment after up to three rounds of percent-decoding, and matches a declared pattern
    where there are any.  The claim says nothing of redirect parameters in the query. *)
Theorem allowed_navigation_names_its_origin url origins paths mode d :
  evaluate_navigation url origins paths mode = Ok d -> nd_allowed d = true ->
  exists scheme authority tail,
    url = (scheme ++ codes "://" ++ authority ++ tail)%list /\ lower_c <$> scheme = https /\
    Forall (fun c => delimiter c = false /\ c <> 64 /\ c <> 92 /\ 32 <= c) authority /\
    (forall c t, tail = c :: t -> delimiter c = true) /\
    (91 ∉ authority -> nd_origin d = origin_text (rstrip_dots (ulower (before 58 authority))) (named_port (beyond 58 authority))) /\
    (mode = "allowlist" -> nd_origin d ∈ origins) /\
    nd_path d = (if bool_decide (before 63 (before 35 tail) = []) then [47] else before 63 (before 35 tail)) /\
    (forall segment, segment ∈ usplit 47 (_decoded_path (nd_path d)) -> segment <> [46] /\ segment <> [46; 46]) /\
    (paths <> [] -> exists pattern, pattern ∈ paths /\ fnmatchcase (nd_path d) pattern = true).
Proof.
  intros E Ha. apply evaluate_navigation_inv in E as (Hclean & H92 & Hc & parts & host & p & o & Eu & Es & H64 & Eh & Eo & Hp0 & Hal & Et); [|done].
  apply evaluate_target_inv in Et as (-> & Hpath & Hseg & _ & Hpat); [|done].
  assert (us_netloc parts <> []) as Hnl. { intros E. unfold hostname, hostinfo in Eh. rewrite E in Eh. done. }
  destruct (urlsplit_inv url parts Hclean Eu) as (s & tail & Eurl & Hs & _ & Hd & Ht & E1 & _ & _ & _); [by rewrite Es|done|].
  exists s, (us_netloc parts), tail. rewrite E1 in Hpath. split_and!; try done; [congruence| |].
  - rewrite Eurl in H92, Hc. apply Forall_app in Hc as [_ Hc]. rewrite !Forall_cons, Forall_app in Hc. destruct Hc as (_ & _ & _ & Hc & _).
    apply Forall_forall. intros c Hin. split_and!; [by apply (proj1 (Forall_forall _ _) Hd)|set_solver..|].
    by apply (proj1 (Forall_forall _ _) Hc).
  - intros H91. by eapply url_origin_named.
Qed.

End origins.

(** ** Page evidence only raises a risk *)

(** An occurrence of a term: as a word where [words] is set. *)
Definition occurs (words : bool) (term : ustr) (prev : option Z) (s : ustr) : Prop :=
  exists a b, s = (a ++ term ++ b)%list /\
    (words = true -> no_word (if bool_decide (a = []) then prev else last a) = true /\ no_word (head b) = true).

Lemma uprefix_app p s : uprefix p (p ++ s) = true.
Proof. induction p as [|c p IH]; simpl; [done|]. by rewrite Z.eqb_refl, IH. Qed.

Lemma occurrences_complete words term prev pos s :
  term <> [] -> occurs words term prev s -> occurrences_of words term prev pos 0 s <> [].
Proof.
  intros Ht (a & b & -> & Hw). revert prev pos Hw; induction a as [|x a IH]; intros prev pos Hw; cbn [app].
  - destruct term as [|c term]; [done|]. cbn [app occurrences_of]. 
    change (c :: term ++ b)%list with ((c :: term) ++ b)%list. rewrite uprefix_app, drop_app_length. cbn [andb].
    destruct words; [|done]. destruct (Hw eq_refl) as [H1 H2]. cbn in H1. by rewrite H1, H2.
  - cbn [occurrences_of]. destruct (uprefix _ _ && _); [done|]. apply IH. intros E. destruct (Hw E) as [H1 H2]. split; [|done].
    destruct a as [|y a]; cbn in *; [done|]. by destruct (last (y :: a)).
Qed.

Lemma catalog_term_nonempty c term : (c, term) ∈ catalog_terms -> term <> [].
Proof.
  assert (forallb (fun p => negb (bool_decide (p.2 = []))) catalog_terms = true) as H by (vm_compute; reflexivity).
  intros Hin%list_elem_of_In. apply (proj1 (forallb_forall _ _) H) in Hin. by bool_props.
Qed.

Section risk.
Context `{Unicode}.

(** The text that is searched for a term of the catalogue: in lower case for ASCII terms. *)
Definition searched (term text : ustr) : ustr :=
  let bounded := take (Z.to_nat MAX_SCAN_CHARS) text in if is_ascii term then ulower bounded else bounded.

Lemma scan_complete c term text extra : (c, term) ∈ catalog_terms -> occurs (is_ascii term) term None (searched term text) ->
  exists m, m ∈ scan_text_for_prohibited_terms text extra MAX_SCAN_CHARS /\ pm_category m = c /\ pm_term m = term.
Proof.
  intros Hin Ho. unfold scan_text_for_prohibited_terms. set (bounded := take (Z.to_nat MAX_SCAN_CHARS) text) in *.
  assert (exists m, m ∈ term_matches (is_ascii term) c term term (searched term text) /\ pm_category m = c /\ pm_term m = term) as (m & Hm & H1 & H2).
  { pose proof (occurrences_complete _ _ None 0 _ (catalog_term_nonempty _ _ Hin) Ho) as Hne. unfold term_matches.
    destruct (occurrences_of _ _ _ _ _ _) as [|span l]; [done|]. eexists. split; [apply list_elem_of_here|done]. }
  exists m. split; [|done]. rewrite merge_sort_Permutation. unfold searched in Hm. fold bounded in Hm.
  rewrite !elem_of_app, !list_elem_of_In, !in_flat_map. destruct (is_ascii term) eqn:Ea.
  - left. exists (c, term). split; [|by rewrite <- list_elem_of_In]. apply filter_In. by rewrite <- list_elem_of_In.
  - right; left. exists (c, term). split; [|by rewrite <- list_elem_of_In]. apply filter_In. cbn [snd]. by rewrite Ea, <- list_elem_of_In.
Qed.

Lemma escalate_le a b : risk_rank a <= risk_rank (escalate_risk a b) /\ risk_rank b <= risk_rank (escalate_risk a b).
Proof. by destruct a, b. Qed.

Lemma signals_raise l acc : risk_rank (ra_risk acc) <= risk_rank (ra_risk (foldl add_signal acc l)) /\
  Forall (fun s => risk_rank (rs_risk s) <= risk_rank (ra_risk (foldl add_signal acc l))) l /\
  (ra_risk (foldl add_signal acc l) = ra_risk acc \/ Exists (fun s => rs_risk s = ra_risk (foldl add_signal acc l)) l).
Proof.
  revert acc; induction l as [|s l IH]; intros acc; cbn [foldl]; [split_and!; [lia|constructor|by left]|].
  destruct (IH (add_signal acc s)) as (H1 & H2 & H3). destruct (escalate_le (ra_risk acc) (rs_risk s)) as [H4 H5]. cbn [add_signal ra_risk] in H1, H3.
  split_and!; [lia|constructor; [lia|done]|]. destruct H3 as [H3|H3]; [|by right; apply Exists_cons; right].
  rewrite H3. unfold escalate_risk in *. destruct (_ <=? _); [by left|right; by left].
Qed.

Lemma matches_prohibit l acc : ra_risk (foldl add_match acc l) = match l with [] => ra_risk acc | _ => PROHIBITED end.
Proof.
  revert acc; induction l as [|m l IH]; intros acc; cbn [foldl]; [done|]. rewrite IH. by destruct l.
Qed.

Lemma prohibited_highest r : 3 <= risk_rank r -> r = PROHIBITED.
Proof. by destruct r. Qed.

(** C24. Page evidence only raises a risk.  The assessed risk is at least the declared one and at least that of
    every signal of the page; an unknown transaction, an unknown page version or a prohibited term makes it
    PROHIBITED, and without them it is the declared one or that of a signal.  Every term of the catalogue
    that occurs in the scanned text, as a word if it is ASCII, is found and prohibits. *)
Theorem page_evidence_only_raises_risk declared matches signals known version :
  let a := assess_risk declared matches signals known version in
  risk_rank declared <= risk_rank (ra_risk a) /\
  Forall (fun s => risk_rank (rs_risk s) <= risk_rank (ra_risk a)) signals /\
  (known = false \/ version = false \/ matches <> [] -> ra_risk a = PROHIBITED) /\
  (known = true -> version = true -> matches = [] -> ra_risk a = declared \/ Exists (fun s => rs_risk s = ra_risk a) signals) /\
  (forall c term text extra, (c, term) ∈ catalog_terms -> occurs (is_ascii term) term None (searched term text) ->
     matches = scan_text_for_prohibited_terms text extra MAX_SCAN_CHARS -> ra_risk a = PROHIBITED).
Proof.
  unfold assess_risk. set (start := {| ra_risk := _; ra_categories := _; ra_signals := []; ra_escalated := false |}).
  destruct (signals_raise signals (foldl add_match start matches)) as (H1 & H2 & H3). rewrite matches_prohibit in H1, H3.
  set (acc := foldl add_signal _ signals) in *.
  assert (risk_rank declared <= risk_rank (ra_risk acc)) as Hd.
  { etransitivity; [|exact H1]. destruct matches; [|by destruct declared]. cbn. by destruct known, version, declared. }
  cbn [ra_risk]. destruct (Z.ltb_spec (risk_rank (ra_risk acc)) (risk_rank declared)); [lia|].
  assert (known = false \/ version = false \/ matches <> [] -> ra_risk acc = PROHIBITED) as Hp.
  { intros Hc. apply prohibited_highest. etransitivity; [|exact H1]. destruct matches; [|by cbn].
    destruct known, version; cbn; try done. by destruct Hc as [|[|]]. }
  split_and!; try done.
  - intros -> -> ->. exact H3.
  - intros c term text extra Hin Ho ->. apply Hp. right; right.
    destruct (scan_complete c term text extra Hin Ho) as (m & Hm & _). destruct (scan_text_for_prohibited_terms _ _ _); [|done].
    by apply not_elem_of_nil in Hm.
Qed.

End risk.

(** ** Concrete URLs *)

Module PolicyScenario.

(** Tables that leave everything beyond Latin-1 alone. *)
#[local] Instance tables : Unicode := {| unicode_lower := fun s => s; nfkc := fun s => s |}.

Lemma lower_c_same c d : d < 128 -> is_alpha d = false -> lower_c c = d <-> c = d.
Proof.
  intros H1 H2. unfold lower_c, is_alpha in *. destruct (((65 <=? c) && (c <=? 90)) || _) eqn:E; [|done].
  apply orb_true_iff in E as [E|E]; bool_props; split; intros; subst; lia.
Qed.

Lemma lower_c_idem c : lower_c (lower_c c) = lower_c c.
Proof.
  unfold lower_c at 2 3. destruct (((65 <=? c) && (c <=? 90)) || _) eqn:E.
  - apply orb_true_iff in E. unfold lower_c. destruct (((65 <=? c + 32) && (c + 32 <=? 90)) || _) eqn:E'; [|done].
    apply orb_true_iff in E'. destruct E, E'; bool_props; lia.
  - unfold lower_c. by rewrite E.
Qed.

Lemma lower_c_latin l : forallb (fun c => c <? 256) l = true -> forallb (fun c => c <? 256) (lower_c <$> l) = true.
Proof.
  induction l as [|c l IH]; cbn; [done|]. intros [H1 H2]%andb_true_iff. rewrite IH by done. rewrite andb_true_r.
  unfold lower_c. destruct (_ || _) eqn:E; [|done]. apply orb_true_iff in E. destruct E; bool_props; apply Z.ltb_lt; lia.
Qed.

#[local] Instance tables_laws : UnicodeLaws.
Proof.
  split.
  - intros s c H1 H2. unfold ulower. destruct (forallb _ s); [|done]. rewrite list_elem_of_fmap. split.
    + intros (d & E & Hd). by rewrite <- (proj1 (lower_c_same d c H1 H2) (eq_sym E)).
    + intros Hc. exists c. split; [|done]. symmetry. by apply (lower_c_same c c).
  - intros s. unfold ulower. destruct (forallb (fun c => c <? 256) s) eqn:E; cbn [unicode_lower tables].
    + rewrite lower_c_latin by done. rewrite <- list_fmap_compose. apply list_fmap_ext. intros i c _. cbn. apply lower_c_idem.
    + by rewrite E.
Qed.

Definition campus : list ustr := [codes "https://ehall.nju.edu.cn"].
Definition visit (url : string) : result NavigationDecision :=
  evaluate_navigation (codes url) campus [codes "/app/*"] "allowlist".
Definition reason_of (r : result NavigationDecision) : string :=
  match r with Ok d => nd_reason d | Err e => exn_msg e end.

Example policy_examples :
  reason_of <$> [visit "https://EHALL.nju.edu.cn.:443/app/1"; visit "https://ehall.nju.edu.cn@evil.com/app/"; visit "https://evil.com/app/";
                 visit "https://ehall.nju.edu.cn/app/%252e%252e/x"; visit "https://ehall.nju.edu.cn:8443/app/"; visit "https://[::1]/app/";
                 visit "https://ehall.nju.edu.cn/app/?next=//evil.com"; visit "https://ehall.nju.edu.cn/x"]
  = ["ALLOWED"; "USERINFO_NOT_ALLOWED"; "HOST_NOT_ALLOWED"; "ENCODED_TRAVERSAL"; "HOST_NOT_ALLOWED"; "MALFORMED_URL"; "OPEN_REDIRECT";
     "PATH_NOT_ALLOWED"].
Proof. vm_compute. reflexivity. Qed.

(** A redirect target with an encoded tab, or with a space before its slashes, has no scheme for
    [urlsplit], which drops both characters, and counts as a relative path. *)
Example redirect_check_misses_stripped_characters :
  reason_of <$> [visit "https://ehall.nju.edu.cn/app/?next=/%09/evil.com"; visit "https://ehall.nju.edu.cn/app/?next=%2520//evil.com"]
  = ["ALLOWED"; "ALLOWED"] /\
  (us_netloc <$> urlsplit (codes "/" ++ [9] ++ codes "/evil.com")) = Some (codes "evil.com").
Proof. vm_compute. by split. Qed.

(** A bracketed host may itself hold a bracket: splitting the origin again raises [ValueError]. *)
Example bracket_in_a_bracketed_host_raises : visit "https://[v1.[a]/app/" = fail PyValueError "urlsplit".
Proof. vm_compute. reflexivity. Qed.

(** The canonical form of an IPv6 origin has lost its brackets and is not an origin. *)
Example ipv6_origins_are_not_canonical :
  normalize_origin (codes "https://[::1]:8443") = Ok (codes "https://::1:8443") /\
  normalize_origin (codes "https://::1:8443") = policy_fail "MISSING_HOST" "origin requires a host".
Proof. vm_compute. by split. Qed.

End PolicyScenario.

#[local] Existing Instance PolicyScenario.tables.
#[local] Existing Instance PolicyScenario.tables_laws.

Lemma allowed_navigation_names_its_origin_witness :
  exists d, PolicyScenario.visit "https://ehall.nju.edu.cn/app/1?next=/app/2" = Ok d /\ nd_allowed d = true /\ nd_origin d ∈ PolicyScenario.campus.
Proof.
  destruct (PolicyScenario.visit "https://ehall.nju.edu.cn/app/1?next=/app/2") as [d|e] eqn:E; [|vm_compute in E; discriminate E].
  exists d. split; [reflexivity|]. assert (nd_allowed d = true) as Ha by (vm_compute in E; by injection E as <-). split; [exact Ha|].
  destruct (allowed_navigation_names_its_origin _ _ _ _ _ E Ha) as (s & a & t & _ & _ & _ & _ & _ & Hin & _). by apply Hin.
Defined.
