(* ===== verification/PyValue.v ===== *)
(** * PyValue: Python's conversions of values that come over a JSON transport

    [str(v)], [int(v)], [float(v)] and [iter(v)] on parsed JSON.  A value of another Python type
    ([JOther]) does not come over such a transport; its conversions raise. *)

From S2P Require Import Prelude Text PyFloat Json Schemas.
From Stdlib Require Import Floats.SpecFloat.
Local Open Scope string_scope.
Local Open Scope Z_scope.

(** ** [str(v)] *)

Fixpoint py_repr (v : json) : string :=
  match v with
  | JNull => "None"
  | JBool b => if b then "True" else "False"
  | JInt n => str_of_Z n
  | JFloat f => float_repr f
  | JStr s => str_repr s
  | JList l => "[" ++ str_join ", " (py_repr <$> l) ++ "]"
  | JObj kvs => "{" ++ str_join ", " ((fun kv => str_repr kv.1 ++ ": " ++ py_repr kv.2) <$> kvs) ++ "}"
  | JOther ty => "<" ++ ty ++ ">"
  end.

Definition py_str (v : json) : string := match v with JStr s => s | _ => py_repr v end.

(** ** [int(v)] and [float(v)] *)

(** The digits of [s], single underscores between digits allowed. *)
Fixpoint number_digits (l : list Ascii.ascii) (acc : list Ascii.ascii) (after_digit : bool)
    : list Ascii.ascii * bool * list Ascii.ascii :=
  match l with
  | a :: l' =>
      if is_digit a then number_digits l' (a :: acc) true
      else if (code a =? 95) && after_digit then
        match l' with
        | b :: _ => if is_digit b then number_digits l' acc false else (reverse acc, after_digit, l)
        | [] => (reverse acc, after_digit, l)
        end
      else (reverse acc, after_digit, l)
  | [] => (reverse acc, after_digit, [])
  end.

Definition digits_to_Z (l : list Ascii.ascii) : Z := fold_left (fun acc a => acc * 10 + (code a - 48)) l 0.

Definition sign_of (l : list Ascii.ascii) : bool * list Ascii.ascii :=
  match l with
  | a :: l' => if code a =? 45 then (true, l') else if code a =? 43 then (false, l') else (false, l)
  | [] => (false, [])
  end.

Definition int_of_str (s : string) : result Z :=
  let '(neg, l) := sign_of (chars (strip s)) in
  let '(ds, _, rest) := number_digits l [] false in
  if bool_decide (ds = []) || negb (bool_decide (rest = [])) then fail PyValueError "invalid literal for int() with base 10"
  else Ok (if neg then - digits_to_Z ds else digits_to_Z ds).

(** Truncation towards zero. *)
Definition trunc (s : bool) (m : positive) (e : Z) : Z :=
  let n := if 0 <=? e then Zpos m * 2 ^ e else Zpos m / 2 ^ (- e) in if s then - n else n.

Definition py_int (v : json) : result Z :=
  match v with
  | JBool b => Ok (if b then 1 else 0)
  | JInt n => Ok n
  | JFloat (S754_zero _) => Ok 0
  | JFloat (S754_finite s m e) => Ok (trunc s m e)
  | JFloat S754_nan => fail PyValueError "cannot convert float NaN to integer"
  | JFloat (S754_infinity _) => fail PyException "cannot convert float infinity to integer"
  | JStr s => int_of_str s
  | _ => fail PyTypeError "int() argument must be a string, a bytes-like object or a real number"
  end.

(** [int(v or 0)] *)
Definition py_int_or0 (v : json) : result Z := if py_truth v then py_int v else Ok 0.

Definition exponent_of (l : list Ascii.ascii) : option (Z * list Ascii.ascii) :=
  match l with
  | a :: l' =>
      if (code a =? 101) || (code a =? 69) then
        let '(neg, l1) := sign_of l' in
        let '(ds, _, rest) := number_digits l1 [] false in
        if bool_decide (ds = []) then None else Some (if neg then - digits_to_Z ds else digits_to_Z ds, rest)
      else Some (0, l)
  | [] => Some (0, [])
  end.

Definition float_of_str (s : string) : result spec_float :=
  let '(neg, l) := sign_of (chars (strip s)) in
  let bad := fail PyValueError "could not convert string to float" in
  if mem_b (lower (of_chars l)) ["inf"; "infinity"] then Ok (S754_infinity neg)
  else if bool_decide (lower (of_chars l) = "nan") then Ok S754_nan
  else
    let '(whole, _, l1) := number_digits l [] false in
    let '(frac, l2) := match l1 with
                       | a :: l2 => if code a =? 46 then let '(ds, _, rest) := number_digits l2 [] false in (ds, rest) else ([], l1)
                       | [] => ([], [])
                       end in
    if bool_decide (whole ++ frac = [])%list then bad
    else match exponent_of l2 with
         | Some (ex, []) => Ok (float_of_dec neg (digits_to_Z (whole ++ frac)%list) (ex - Z.of_nat (length frac)))
         | _ => bad
         end.

Definition float_of_Z (n : Z) : result spec_float :=
  match float_of_dec (n <? 0) (Z.abs n) 0 with
  | S754_infinity _ => fail PyOverflowError "int too large to convert to float"
  | S754_zero _ => Ok (S754_zero false)
  | f => Ok f
  end.

Definition py_float (v : json) : result spec_float :=
  match v with
  | JBool b => float_of_Z (if b then 1 else 0)
  | JInt n => float_of_Z n
  | JFloat f => Ok f
  | JStr s => float_of_str s
  | _ => fail PyTypeError "float() argument must be a string or a real number"
  end.

(** [round(f, n)] for [n >= 0]: the decimal of [n] places nearest to [f], read back. *)
Definition round_places (n : Z) (f : spec_float) : spec_float :=
  match f with
  | S754_finite s m e =>
      let '(num, den) := if 0 <=? e then (Zpos m * 2 ^ e, 1) else (Zpos m, 2 ^ (- e)) in
      float_of_dec s (round_half_even (num * 10 ^ n) den) (- n)
  | _ => f
  end.

(** ** [iter(v)] and [dict] access *)

Definition py_iter (v : json) : result (list json) :=
  match v with
  | JList l => Ok l
  | JObj kvs => Ok ((fun kv => JStr kv.1) <$> kvs)
  | JStr s => Ok ((fun a => JStr (of_chars [a])) <$> chars s)
  | _ => fail PyTypeError "object is not iterable"
  end.

(** [isinstance(v, Sequence)] of [collections.abc]. *)
Definition is_sequence (v : json) : bool := match v with JList _ | JStr _ => true | _ => false end.

(** [d[k]], [d.get(k, default)] and [str(d.get(k, default))]. *)
Definition item (k : string) (d : list (string * json)) : result json :=
  match assoc k d with Some v => Ok v | None => fail PyKeyError k end.
Definition get_or (k : string) (default_ : json) (d : list (string * json)) : json := default default_ (assoc k d).
Definition str_item (k : string) (d : list (string * json)) : result string := v ← item k d; Ok (py_str v).
Definition str_or_empty (k : string) (d : list (string * json)) : string := py_str (get_or k (JStr "") d).

(** [tuple(str(x) for x in d.get(k, []))] *)
Definition str_items (k : string) (d : list (string * json)) : result (list string) :=
  l ← py_iter (get_or k (JList []) d); Ok (map py_str l).

(** The dictionaries among the items of [v]. *)
Definition objects (l : list json) : list (list (string * json)) := omap as_obj l.

Example py_str_nested : py_str (JObj [("a", JList [JNull; JBool true; JStr "x"])]) = "{'a': [None, True, 'x']}".
Proof. vm_compute. reflexivity. Qed.
Example round_places_half : round_places 6 (float_of_dec false 12345675 (-7)) = float_of_dec false 1234568 (-6).
Proof. vm_compute. reflexivity. Qed.
Example float_of_str_exp : float_of_str " -1_0.5e-1 " = Ok (float_of_dec true 105 (-2)).
Proof. vm_compute. reflexivity. Qed.
