(* ===== verification/IsoTime.v ===== *)
(** * IsoTime: [isoformat] and [fromisoformat] are inverse

    The calendar arithmetic of [Scheduling.v] on the 400-year cycle of the Gregorian calendar, and the
    round trip of instants through the texts that records and documents store. *)

From S2P Require Import Prelude Text Json JsonParse JsonGrammar JsonRoundTrip Scheduling.
Local Open Scope string_scope.
Local Open Scope Z_scope.

(** ** The calendar *)

(** Year of the era, day of the year and month (counted from March) of a day of the era. *)
Definition era_year (doe : Z) : Z := (doe - doe / 1460 + doe / 36524 - doe / 146096) / 365.
Definition era_day (doe : Z) : Z := doe - (365 * era_year doe + era_year doe / 4 - era_year doe / 100).
Definition era_month (doe : Z) : Z := (5 * era_day doe + 2) / 153.

Lemma era_year_bounds doe : 0 <= doe < 146097 -> 0 <= era_year doe < 400.
Proof. intros H. unfold era_year. Z.div_mod_to_equations; lia. Qed.

(** A year has at most 366 days; the centuries of an era are distinguished for the arithmetic. *)
Lemma era_day_bounds doe : 0 <= doe < 146097 -> 0 <= era_day doe <= 365.
Proof.
  intros H. pose proof (era_year_bounds doe H) as Hy. unfold era_day.
  assert (doe / 36524 = 0 \/ doe / 36524 = 1 \/ doe / 36524 = 2 \/ doe / 36524 = 3 \/ doe / 36524 = 4) as Hb by (Z.div_mod_to_equations; lia).
  unfold era_year in *. destruct Hb as [E|[E|[E|[E|E]]]]; rewrite ?E in *; Z.div_mod_to_equations; lia.
Qed.

Lemma era_month_bounds doe : 0 <= doe < 146097 ->
  0 <= era_month doe <= 11 /\ 0 <= era_day doe - (153 * era_month doe + 2) / 5 < 31.
Proof. intros H. pose proof (era_day_bounds doe H) as Hd. unfold era_month. Z.div_mod_to_equations; lia. Qed.

Lemma days_of_civil days : days_of (civil days).1.1 (civil days).1.2 (civil days).2 = days.
Proof.
  unfold civil. cbv zeta. set (z := days + 719468). pose proof (Z.mod_pos_bound z 146097 ltac:(lia)) as Hz.
  pose proof (Z.div_mod z 146097 ltac:(lia)) as Hdm. set (doe := z mod 146097) in *. set (era := z / 146097) in *.
  pose proof (era_year_bounds doe Hz) as Hy. destruct (era_month_bounds doe Hz) as [Hm Hd]. fold (era_year doe). fold (era_day doe). fold (era_month doe).
  set (m := if era_month doe <? 10 then era_month doe + 3 else era_month doe - 9).
  assert ((if 2 <? m then m - 3 else m + 9) = era_month doe) as Em.
  { subst m. destruct (Z.ltb_spec (era_month doe) 10) as [Hlt|Hge]; [destruct (Z.ltb_spec 2 (era_month doe + 3))|destruct (Z.ltb_spec 2 (era_month doe - 9))]; lia. }
  cbn [fst snd]. unfold days_of. rewrite Em.
  assert ((if m <=? 2 then era_year doe + 400 * era + (if m <=? 2 then 1 else 0) - 1 else era_year doe + 400 * era + (if m <=? 2 then 1 else 0))
    = era_year doe + era * 400) as -> by (destruct (m <=? 2); lia).
  rewrite Z.div_add, Z.mod_add, Z.div_small, Z.mod_small by lia.
  assert (doe = 365 * era_year doe + era_year doe / 4 - era_year doe / 100 + era_day doe) as Ed by (unfold era_day; lia). subst z. lia.
Qed.

(** Months and days have two digits. *)
Lemma civil_bounds days : 0 <= (civil days).1.2 < 100 /\ 0 <= (civil days).2 < 100.
Proof.
  unfold civil. cbv zeta. set (z := days + 719468). pose proof (Z.mod_pos_bound z 146097 ltac:(lia)) as Hz. set (doe := z mod 146097) in *.
  pose proof (era_year_bounds doe Hz) as Hy. destruct (era_month_bounds doe Hz) as [Hm Hd]. fold (era_year doe). fold (era_day doe). fold (era_month doe). cbn [fst snd].
  destruct (Z.ltb_spec (era_month doe) 10); lia.
Qed.

(** ** Numbers of a fixed width *)

Lemma digits_lower_bound d ds : is_digit d = true -> forallb is_digit ds = true -> code d <> 48 ->
  10 ^ Z.of_nat (length ds) <= digits_value (d :: ds).
Proof.
  intros Hd Hds H0. unfold is_digit in Hd. apply andb_true_iff in Hd as [H1%Z.leb_le H2%Z.leb_le].
  assert (forall acc, 1 <= acc -> acc * 10 ^ Z.of_nat (length ds) <= fold_left (fun acc a => acc * 10 + (code a - 48)) ds acc) as Hf.
  { clear H0 H1 H2. induction ds as [|a ds IH]; intros acc Hacc; cbn [fold_left length]; [lia|].
    cbn [forallb] in Hds. apply andb_true_iff in Hds as [Ha Hds]. unfold is_digit in Ha. apply andb_true_iff in Ha as [A1%Z.leb_le A2%Z.leb_le].
    etransitivity; [|apply (IH Hds); lia]. rewrite Nat2Z.inj_succ, Z.pow_succ_r by lia.
    assert (0 < 10 ^ Z.of_nat (length ds)) by (apply Z.pow_pos_nonneg; lia). nia. }
  unfold digits_value. cbn [fold_left]. etransitivity; [|apply Hf; lia].
  assert (0 < 10 ^ Z.of_nat (length ds)) by (apply Z.pow_pos_nonneg; lia). nia.
Qed.

Lemma zeros_digits k ds : fold_left (fun acc a => acc * 10 + (code a - 48)) (chars (zeros k) ++ ds)%list 0
  = fold_left (fun acc a => acc * 10 + (code a - 48)) ds 0 /\ forallb is_digit (chars (zeros k)) = true /\ length (chars (zeros k)) = k.
Proof. induction k as [|k IH]; [done|]. cbn [zeros]. rewrite chars_app. cbn. destruct IH as (H1 & H2 & H3). split_and!; [done|done|by f_equal]. Qed.

(** The digits of a number below [10 ^ w]. *)
Lemma number_chars (w : nat) n : 0 < n < 10 ^ Z.of_nat w -> exists ds, chars (str_of_Z n) = ds /\ forallb is_digit ds = true /\
  digits_value ds = n /\ (length ds <= w)%nat.
Proof.
  intros Hn. destruct n as [|p|p]; [lia| |lia]. destruct (pretty_pos_digits p) as (d & ds & Hc & Hd & H0 & Hv). exists (d :: ds).
  split_and!; [done|done|done|]. cbn [forallb] in Hd. apply andb_true_iff in Hd as [Hd Hds]. pose proof (digits_lower_bound d ds Hd Hds H0) as Hl.
  rewrite Hv in Hl. cbn [length]. destruct (decide (length ds < w)%nat); [lia|]. exfalso.
  pose proof (Z.pow_le_mono_r 10 (Z.of_nat w) (Z.of_nat (length ds)) ltac:(lia) ltac:(lia)). lia.
Qed.

Lemma digits_pad w n rest : (0 < w)%nat -> 0 <= n < 10 ^ Z.of_nat w -> digits w (chars (pad w n) ++ rest)%list = Some (n, rest).
Proof.
  intros Hw Hn. assert (exists ds, chars (str_of_Z n) = ds /\ forallb is_digit ds = true /\ digits_value ds = n /\ (length ds <= w)%nat)
    as (ds & Hc & Hd & Hv & Hl).
  { destruct (decide (n = 0)) as [->|]; [exists (chars "0"); split_and!; [done..|cbn; lia]|]. apply number_chars; lia. }
  unfold pad. rewrite chars_app, Hc, <- (length_chars (str_of_Z n)), Hc.
  destruct (zeros_digits (w - length ds) ds) as (Hz & Hzd & Hzl).
  set (l := (chars (zeros (w - length ds)) ++ ds)%list) in *. assert (length l = w) as El by (subst l; rewrite length_app, Hzl; lia).
  unfold digits. rewrite take_app_length', drop_app_length' by done.
  assert (forallb is_digit l = true) as ->. { subst l. by rewrite forallb_app, Hzd, Hd. }
  rewrite El, Nat.eqb_refl. cbn [andb]. rewrite Hz. unfold digits_value in Hv. by rewrite Hv.
Qed.

Lemma expect_app s rest : expect s (chars s ++ rest)%list = Some rest.
Proof.
  unfold expect. assert (is_prefix_l (chars s) (chars s ++ rest)%list = true) as ->.
  { induction (chars s) as [|a l IH]; [done|]. cbn. by rewrite IH, andb_true_r, bool_decide_eq_true_2. }
  f_equal. rewrite <- length_chars. apply drop_app_length.
Qed.

(** ** Instants *)

(** [datetime.min] and [datetime.max] in UTC. *)
Definition datetime_range (t : Z) : Prop := 1 <= (civil (t / day_us)).1.1 <= 9999.

Lemma instant_split t : t / day_us * day_us + (t / hours 1) mod 24 * hours 1 + (t / minute) mod 60 * minute
  + seconds ((t / seconds 1) mod 60) + t mod 1000000 = t.
Proof. unfold day_us, minute, hours, minutes, seconds. Z.div_mod_to_equations; lia. Qed.

(** [datetime.fromisoformat] reads every instant back that [isoformat] writes. *)
Lemma parse_isoformat t : datetime_range t -> parse_utc (isoformat t) = Some t.
Proof.
  intros Hy. unfold datetime_range in Hy. set (days := t / day_us) in *. pose proof (civil_bounds days) as [Hm Hd].
  pose proof (Z.mod_pos_bound (t / hours 1) 24 ltac:(lia)) as Hh. pose proof (Z.mod_pos_bound (t / minute) 60 ltac:(lia)) as Hmi.
  pose proof (Z.mod_pos_bound (t / seconds 1) 60 ltac:(lia)) as Hs. pose proof (Z.mod_pos_bound t 1000000 ltac:(lia)) as Hus.
  pose proof (instant_split t) as Ht. fold days in Ht.
  assert (forall n rest, 0 <= n < 100 -> digits 2 (chars (pad 2 n) ++ rest)%list = Some (n, rest)) as P2 by (intros; apply digits_pad; lia).
  assert (forall n rest, 0 <= n < 10000 -> digits 4 (chars (pad 4 n) ++ rest)%list = Some (n, rest)) as P4 by (intros; apply digits_pad; lia).
  assert (forall n rest, 0 <= n < 1000000 -> digits 6 (chars (pad 6 n) ++ rest)%list = Some (n, rest)) as P6 by (intros; apply digits_pad; lia).
  unfold isoformat, parse_utc. fold days. rewrite !chars_app.
  rewrite P4 by lia. cbn [mbind option_bind]. rewrite expect_app. cbn [mbind option_bind].
  rewrite P2 by lia. cbn [mbind option_bind]. rewrite expect_app. cbn [mbind option_bind].
  rewrite P2 by lia. cbn [mbind option_bind]. rewrite expect_app. cbn [mbind option_bind].
  rewrite P2 by lia. cbn [mbind option_bind]. rewrite expect_app. cbn [mbind option_bind].
  rewrite P2 by lia. cbn [mbind option_bind]. rewrite expect_app. cbn [mbind option_bind].
  rewrite P2 by lia. cbn [mbind option_bind].
  assert (match expect "." (chars (if t mod 1000000 =? 0 then "" else "." ++ pad 6 (t mod 1000000)) ++ chars "+00:00")%list with
    | Some l => digits 6 l
    | None => Some (0, chars (if t mod 1000000 =? 0 then "" else "." ++ pad 6 (t mod 1000000)) ++ chars "+00:00")%list
    end = Some (t mod 1000000, chars "+00:00")) as ->.
  { destruct (Z.eqb_spec (t mod 1000000) 0) as [E|E]; [by rewrite E|]. rewrite chars_app, <- app_assoc, expect_app. by apply P6. }
  cbn [mbind option_bind]. change (expect "+00:00" (chars "+00:00")) with (Some (@nil Ascii.ascii)). cbn [mbind option_bind].
  rewrite days_of_civil, bool_decide_eq_true_2 by done. rewrite bool_decide_eq_true_2 by (by destruct (civil days) as [[? ?] ?]).
  rewrite (proj2 (Z.ltb_lt _ _)), (proj2 (Z.ltb_lt _ _)), (proj2 (Z.ltb_lt _ _)) by lia. cbn [andb]. by rewrite Ht.
Qed.
