(* ===== verification/BrowserModels.v ===== *)
(** * BrowserModels: supervised sessions, pages and previews

    Models [core/browser/models.py] and [core/browser/fingerprint.py]: the session state machine, what
    is read of a page, the structured preview with its documents and digests, and the fingerprint of a
    page's structure. *)

From stdpp Require Import sorting.
From S2P Require Import Prelude Text PyFloat Sha256 Json Schemas Domain Scheduling Url BrowserPolicy PyValue.
From Stdlib Require Import Floats.SpecFloat.
Local Open Scope string_scope.
Local Open Scope Z_scope.

Definition MAX_SNAPSHOT_BYTES : Z := 1048576.
Definition MAX_FIELDS : Z := 128.
Definition MAX_ATTACHMENTS : Z := 20.
Definition MAX_ATTACHMENT_BYTES : Z := 8 * 1024 * 1024.
Definition MAX_RENAVIGATIONS : Z := 3.
Definition MAX_FIELD_VALUE_CHARS : Z := 10000.
Definition MAX_ACTIONS : Z := 32.

(** ** Sessions *)

Module BrowserSessionState.
Inductive t :=
| REQUESTED | WAITING_USER | AUTHENTICATED | DISCOVERED | PREPARING | PREVIEW_READY | APPROVED | EXECUTING
| SUCCEEDED | FAILED | UNKNOWN | CANCELLED | SAFETY_PAUSED.

#[global] Instance eq_dec : EqDecision t.
Proof. solve_decision. Defined.

Definition value (s : t) : string :=
  match s with
  | REQUESTED => "REQUESTED" | WAITING_USER => "WAITING_USER" | AUTHENTICATED => "AUTHENTICATED"
  | DISCOVERED => "DISCOVERED" | PREPARING => "PREPARING" | PREVIEW_READY => "PREVIEW_READY"
  | APPROVED => "APPROVED" | EXECUTING => "EXECUTING" | SUCCEEDED => "SUCCEEDED" | FAILED => "FAILED"
  | UNKNOWN => "UNKNOWN" | CANCELLED => "CANCELLED" | SAFETY_PAUSED => "SAFETY_PAUSED"
  end.

Definition terminal (s : t) : bool := mem_b s [SUCCEEDED; FAILED; CANCELLED].
End BrowserSessionState.

Import BrowserSessionState.

Definition _ALLOWED_TRANSITIONS (s : BrowserSessionState.t) : list BrowserSessionState.t :=
  match s with
  | REQUESTED => [WAITING_USER; AUTHENTICATED; DISCOVERED; CANCELLED; SAFETY_PAUSED; UNKNOWN]
  | WAITING_USER => [AUTHENTICATED; CANCELLED; SAFETY_PAUSED; UNKNOWN]
  | AUTHENTICATED => [WAITING_USER; DISCOVERED; PREPARING; CANCELLED; SAFETY_PAUSED; UNKNOWN]
  | DISCOVERED => [PREPARING; WAITING_USER; CANCELLED; SAFETY_PAUSED; UNKNOWN]
  | PREPARING => [PREVIEW_READY; DISCOVERED; WAITING_USER; CANCELLED; SAFETY_PAUSED; FAILED; UNKNOWN]
  | PREVIEW_READY => [APPROVED; PREPARING; WAITING_USER; CANCELLED; SAFETY_PAUSED; FAILED; UNKNOWN]
  | APPROVED => [EXECUTING; CANCELLED; SAFETY_PAUSED; FAILED; UNKNOWN]
  | EXECUTING => [SUCCEEDED; FAILED; UNKNOWN]
  | UNKNOWN => [SUCCEEDED; FAILED]
  | SUCCEEDED | FAILED | CANCELLED => []
  | SAFETY_PAUSED => [PREPARING; DISCOVERED; CANCELLED]
  end.

Definition allowed_browser_transitions (s : BrowserSessionState.t) : list BrowserSessionState.t := _ALLOWED_TRANSITIONS s.

Definition ensure_browser_transition (current target : BrowserSessionState.t) : result unit :=
  raise_if (negb (mem_b target (allowed_browser_transitions current))) BrowserSessionStateError
    ("invalid browser session transition " ++ value current ++ " -> " ++ value target).

(** ** Pages *)

Module FieldValueSource.
Inductive t := PAGE | USER_INPUT | EVIDENCE | TEMPLATE | DEFAULT | UNKNOWN.
#[global] Instance eq_dec : EqDecision t.
Proof. solve_decision. Defined.
Definition value (s : t) : string :=
  match s with
  | PAGE => "PAGE" | USER_INPUT => "USER_INPUT" | EVIDENCE => "EVIDENCE" | TEMPLATE => "TEMPLATE"
  | DEFAULT => "DEFAULT" | UNKNOWN => "UNKNOWN"
  end.
Definition all : list t := [PAGE; USER_INPUT; EVIDENCE; TEMPLATE; DEFAULT; UNKNOWN].
End FieldValueSource.

Module FieldValidation.
Inductive t := VALID | MISSING | INVALID | UNKNOWN.
#[global] Instance eq_dec : EqDecision t.
Proof. solve_decision. Defined.
Definition value (s : t) : string :=
  match s with VALID => "VALID" | MISSING => "MISSING" | INVALID => "INVALID" | UNKNOWN => "UNKNOWN" end.
Definition all : list t := [VALID; MISSING; INVALID; UNKNOWN].
End FieldValidation.

(** [Enum(text)]: the member with this value, or [ValueError]. *)
Definition member {A} (value : A -> string) (all : list A) (text : string) : result A :=
  match List.find (fun a => bool_decide (value a = text)) all with
  | Some a => Ok a
  | None => fail PyValueError (str_repr text ++ " is not a valid member")
  end.
Definition risk_of_value (text : string) : result RiskLevel :=
  member risk_value [READ; INTERNAL_WRITE; EXTERNAL_WRITE; PROHIBITED] text.

Record BrowserLimits := {
  bl_max_renavigations : Z;
  bl_max_snapshot_bytes : Z;
  bl_max_fields : Z;
  bl_max_attachments : Z;
  bl_max_attachment_bytes : Z
}.

Record PageField := {
  pf_field_id : string;
  pf_locator : string;
  pf_kind : string;
  pf_value : string;
  pf_name : string;
  pf_required : bool;
  pf_readonly : bool;
  pf_options : list string;
  pf_max_length : Z;
  pf_known : bool
}.

Record PageAction := {
  pa_action_id : string;
  pa_locator : string;
  pa_label : string;
  pa_kind : string;
  pa_risk : RiskLevel;
  pa_known : bool
}.

Record PageLink := { pl_text : string; pl_path : string }.

Record PageSnapshot := {
  ps_session_id : string;
  ps_url : string;
  ps_origin : string;
  ps_path : string;
  ps_title : string;
  ps_fingerprint : string;
  ps_captured_at : time;
  ps_fields : list PageField;
  ps_actions : list PageAction;
  ps_signals : list RiskSignal;
  ps_links : list PageLink;
  ps_text_digest : string;
  ps_byte_size : Z;
  ps_truncated : bool;
  ps_scan_incomplete : bool;
  ps_authenticated : bool
}.

Definition field_by_id (s : PageSnapshot) (field_id : string) : option PageField :=
  List.find (fun f => bool_decide (pf_field_id f = field_id)) (ps_fields s).

(** ** Planned values *)

Record FieldChange := {
  fc_field_id : string;
  fc_locator : string;
  fc_label : string;
  fc_old_value : string;
  fc_new_value : string;
  fc_source : FieldValueSource.t;
  fc_confidence : spec_float;
  fc_validation : FieldValidation.t;
  fc_evidence_sha256 : option string
}.
#[export] Instance FieldChange_eta : Eta FieldChange := fun c =>
  Build_FieldChange (fc_field_id c) (fc_locator c) (fc_label c) (fc_old_value c) (fc_new_value c) (fc_source c)
    (fc_confidence c) (fc_validation c) (fc_evidence_sha256 c).

(** [0.0 <= c <= 1.0] *)
Definition unit_interval (c : spec_float) : bool :=
  match float_compare_Z c 0, float_compare_Z c 1 with
  | Some lo, Some hi => negb (bool_decide (lo = Lt)) && negb (bool_decide (hi = Gt))
  | _, _ => false
  end.

Definition make_change (c : FieldChange) : result FieldChange :=
  _ ← raise_if (MAX_FIELD_VALUE_CHARS <? str_len (fc_new_value c)) BrowserLimitError "a field value exceeds the length limit";
  _ ← raise_if (negb (unit_interval (fc_confidence c))) BrowserLimitError "field confidence must be between 0 and 1";
  Ok c.

Record AttachmentPreview := { ap_name : string; ap_size_bytes : Z; ap_sha256 : string; ap_media_type : string }.
#[export] Instance AttachmentPreview_eta : Eta AttachmentPreview := fun a =>
  Build_AttachmentPreview (ap_name a) (ap_size_bytes a) (ap_sha256 a) (ap_media_type a).

Definition make_attachment (a : AttachmentPreview) : result AttachmentPreview :=
  _ ← raise_if (bool_decide (ap_name a = "") || (255 <? str_len (ap_name a))) BrowserLimitError "invalid attachment name";
  _ ← raise_if (negb ((0 <=? ap_size_bytes a) && (ap_size_bytes a <=? MAX_ATTACHMENT_BYTES))) BrowserLimitError
        "attachment size exceeds the limit";
  let digest := lower (ap_sha256 a) in
  _ ← raise_if (negb (str_len digest =? 64) || existsb (fun ch => negb (is_hex_lower ch)) (chars digest)) BrowserLimitError
        "attachment sha256 must be 64 lowercase hex characters";
  Ok a.

Definition _field_document (c : FieldChange) : list (string * json) :=
  [("field_id", JStr (fc_field_id c)); ("locator", JStr (fc_locator c)); ("label", JStr (fc_label c));
   ("old_value", JStr (fc_old_value c)); ("new_value", JStr (fc_new_value c));
   ("source", JStr (FieldValueSource.value (fc_source c)));
   ("confidence", JFloat (round_places 6 (fc_confidence c)));
   ("validation", JStr (FieldValidation.value (fc_validation c)));
   ("evidence_sha256", match fc_evidence_sha256 c with Some s => JStr s | None => JNull end)].

Definition _attachment_document (a : AttachmentPreview) : list (string * json) :=
  [("name", JStr (ap_name a)); ("size_bytes", JInt (ap_size_bytes a)); ("sha256", JStr (ap_sha256 a));
   ("media_type", JStr (ap_media_type a))].

(** ** Digests *)

(** [sorted] with a key: stable. *)
Fixpoint insert_sorted {A} (le : A -> A -> bool) (x : A) (l : list A) : list A :=
  match l with
  | [] => [x]
  | y :: l' => if le x y then x :: l else y :: insert_sorted le x l'
  end.
Fixpoint stable_sort {A} (le : A -> A -> bool) (l : list A) : list A :=
  match l with
  | [] => []
  | x :: l => insert_sorted le x (stable_sort le l)
  end.

(** The order of [sorted] on pairs of strings. *)
Definition pair_le (a b : string * string) : Prop :=
  (String.ltb a.1 b.1 || (bool_decide (a.1 = b.1) && String.leb a.2 b.2)) = true.
#[global] Instance pair_le_dec : RelDecision pair_le := fun a b => decide (_ = true).

Definition compact_opts : dump_opts := {| sort_keys := false; allow_nan := true; item_sep := ","; key_sep := ":" |}.

Definition payload_json (pairs : list (string * string)) : json :=
  JList (map (fun p => JList [JStr p.1; JStr p.2]) (merge_sort pair_le pairs)).

Definition form_payload_sha256 (pairs : list (string * string)) : result string :=
  text ← dumps compact_opts (payload_json pairs); Ok (sha256 text).

Definition pair_leb (a b : string * string) : bool := bool_decide (pair_le a b).

Definition field_leb (a b : FieldChange) : bool := pair_leb (fc_field_id a, fc_locator a) (fc_field_id b, fc_locator b).

Definition attachment_leb (a b : AttachmentPreview) : bool :=
  String.ltb (ap_name a) (ap_name b)
  || (bool_decide (ap_name a = ap_name b)
      && (String.ltb (ap_sha256 a) (ap_sha256 b)
          || (bool_decide (ap_sha256 a = ap_sha256 b) && (ap_size_bytes a <=? ap_size_bytes b)))).

(** The submission target: action, method, origin and path. *)
Record SubmitTarget := { st_action_id : string; st_method : string; st_origin : string; st_path : string }.

Definition preview_payload (origin app_id transaction_id adapter_id adapter_version extension_id extension_version
    page_fingerprint : string) (risk : RiskLevel) (consequences : string) (fields : list FieldChange)
    (attachments : list AttachmentPreview) (target : SubmitTarget) : json :=
  JObj [("origin", JStr origin); ("app_id", JStr app_id); ("transaction_id", JStr transaction_id);
        ("adapter_id", JStr adapter_id); ("adapter_version", JStr adapter_version);
        ("extension_id", JStr extension_id); ("extension_version", JStr extension_version);
        ("page_fingerprint", JStr page_fingerprint); ("risk", JStr (risk_value risk)); ("consequences", JStr consequences);
        ("fields", JList (map (fun c => JObj (_field_document c)) (stable_sort field_leb fields)));
        ("attachments", JList (map (fun a => JObj (_attachment_document a)) (stable_sort attachment_leb attachments)));
        ("target_action_id", JStr (st_action_id target)); ("target_method", JStr (st_method target));
        ("target_origin", JStr (st_origin target)); ("target_path", JStr (st_path target))].

Definition canonical_preview_sha256 (origin app_id transaction_id adapter_id adapter_version extension_id extension_version
    page_fingerprint : string) (risk : RiskLevel) (consequences : string) (fields : list FieldChange)
    (attachments : list AttachmentPreview) (target : SubmitTarget) : result string :=
  canonical_sha256 (preview_payload origin app_id transaction_id adapter_id adapter_version extension_id extension_version
    page_fingerprint risk consequences fields attachments target).

(** ** Previews *)

Record TransactionPreview := {
  tp_session_id : string;
  tp_origin : string;
  tp_app_id : string;
  tp_transaction_id : string;
  tp_adapter_id : string;
  tp_adapter_version : string;
  tp_page_fingerprint : string;
  tp_risk : RiskLevel;
  tp_consequences : string;
  tp_fields : list FieldChange;
  tp_canonical_payload_hash : string;
  tp_nonce : string;
  tp_generated_at : time;
  tp_expires_at : time;
  tp_missing_fields : list string;
  tp_unknown_fields : list string;
  tp_attachments : list AttachmentPreview;
  tp_extension_id : string;
  tp_extension_version : string;
  tp_target_action_id : string;
  tp_target_method : string;
  tp_target_origin : string;
  tp_target_path : string
}.
#[export] Instance TransactionPreview_eta : Eta TransactionPreview := fun p =>
  Build_TransactionPreview (tp_session_id p) (tp_origin p) (tp_app_id p) (tp_transaction_id p) (tp_adapter_id p)
    (tp_adapter_version p) (tp_page_fingerprint p) (tp_risk p) (tp_consequences p) (tp_fields p)
    (tp_canonical_payload_hash p) (tp_nonce p) (tp_generated_at p) (tp_expires_at p) (tp_missing_fields p)
    (tp_unknown_fields p) (tp_attachments p) (tp_extension_id p) (tp_extension_version p) (tp_target_action_id p)
    (tp_target_method p) (tp_target_origin p) (tp_target_path p).

Definition make_preview (p : TransactionPreview) : result TransactionPreview :=
  _ ← raise_if (MAX_FIELDS <? Z.of_nat (length (tp_fields p))) BrowserLimitError "preview exceeds the field limit";
  _ ← raise_if (MAX_ATTACHMENTS <? Z.of_nat (length (tp_attachments p))) BrowserLimitError "preview exceeds the attachment limit";
  _ ← raise_if (bool_decide (tp_risk p = PROHIBITED)) BrowserLimitError "a prohibited transaction can never reach a preview";
  _ ← raise_if (bool_decide (tp_nonce p = "")) BrowserLimitError "a preview requires a nonce";
  _ ← raise_if (tp_expires_at p <=? tp_generated_at p) BrowserLimitError "preview expiry must be after generation";
  Ok p.

Definition is_expired (p : TransactionPreview) (now : time) : bool := tp_expires_at p <=? now.

Definition require_fresh (p : TransactionPreview) (now : time) : result unit :=
  raise_if (is_expired p now) PreviewExpiredError "the transaction preview has expired".

Definition to_document (p : TransactionPreview) : list (string * json) :=
  [("session_id", JStr (tp_session_id p)); ("origin", JStr (tp_origin p)); ("app_id", JStr (tp_app_id p));
   ("transaction_id", JStr (tp_transaction_id p)); ("adapter_id", JStr (tp_adapter_id p));
   ("adapter_version", JStr (tp_adapter_version p)); ("extension_id", JStr (tp_extension_id p));
   ("extension_version", JStr (tp_extension_version p)); ("page_fingerprint", JStr (tp_page_fingerprint p));
   ("risk", JStr (risk_value (tp_risk p))); ("consequences", JStr (tp_consequences p));
   ("fields", JList (map (fun c => JObj (_field_document c)) (tp_fields p)));
   ("missing_fields", JList (map JStr (tp_missing_fields p)));
   ("unknown_fields", JList (map JStr (tp_unknown_fields p)));
   ("attachments", JList (map (fun a => JObj (_attachment_document a)) (tp_attachments p)));
   ("canonical_payload_hash", JStr (tp_canonical_payload_hash p)); ("nonce", JStr (tp_nonce p));
   ("generated_at", JStr (isoformat (tp_generated_at p))); ("expires_at", JStr (isoformat (tp_expires_at p)));
   ("target_action_id", JStr (tp_target_action_id p)); ("target_method", JStr (tp_target_method p));
   ("target_origin", JStr (tp_target_origin p)); ("target_path", JStr (tp_target_path p))].

Definition change_from_document (d : list (string * json)) : result FieldChange :=
  field_id ← str_item "field_id" d;
  locator ← str_item "locator" d;
  source ← member FieldValueSource.value FieldValueSource.all (py_str (get_or "source" (JStr "UNKNOWN") d));
  confidence ← py_float (get_or "confidence" (JFloat (float_of_dec false 1 0)) d);
  validation ← member FieldValidation.value FieldValidation.all (py_str (get_or "validation" (JStr "VALID") d));
  make_change {| fc_field_id := field_id; fc_locator := locator; fc_label := str_or_empty "label" d;
    fc_old_value := str_or_empty "old_value" d; fc_new_value := str_or_empty "new_value" d; fc_source := source;
    fc_confidence := confidence; fc_validation := validation;
    fc_evidence_sha256 := match get_or "evidence_sha256" JNull d with JNull => None | v => Some (py_str v) end |}.

Definition attachment_from_document (d : list (string * json)) : result AttachmentPreview :=
  name ← str_item "name" d;
  size ← item "size_bytes" d; size_bytes ← py_int size;
  sha256 ← str_item "sha256" d;
  make_attachment {| ap_name := name; ap_size_bytes := size_bytes; ap_sha256 := sha256;
    ap_media_type := py_str (get_or "media_type" (JStr "application/octet-stream") d) |}.

Definition has_key {A} (k : string) (d : list (string * A)) : bool := match assoc k d with Some _ => true | None => false end.

Section documents.
(** [datetime.fromisoformat] on texts that [isoformat] does not write. *)
Context (iso_other : string -> result Z).

Definition _parse_time (v : json) : result time :=
  match parse_utc (py_str v) with Some t => Ok t | None => iso_other (py_str v) end.

Definition from_document (d : list (string * json)) : result TransactionPreview :=
  field_items ← py_iter (get_or "fields" (JList []) d);
  fields ← result_map change_from_document (List.filter (has_key "field_id") (objects field_items));
  attachment_items ← py_iter (get_or "attachments" (JList []) d);
  attachments ← result_map attachment_from_document (List.filter (has_key "sha256") (objects attachment_items));
  session_id ← str_item "session_id" d;
  origin ← str_item "origin" d;
  adapter_id ← str_item "adapter_id" d;
  adapter_version ← str_item "adapter_version" d;
  page_fingerprint ← str_item "page_fingerprint" d;
  risk_text ← str_item "risk" d; risk ← risk_of_value risk_text;
  missing_fields ← str_items "missing_fields" d;
  unknown_fields ← str_items "unknown_fields" d;
  canonical_payload_hash ← str_item "canonical_payload_hash" d;
  nonce ← str_item "nonce" d;
  generated ← item "generated_at" d; generated_at ← _parse_time generated;
  expires ← item "expires_at" d; expires_at ← _parse_time expires;
  make_preview {| tp_session_id := session_id; tp_origin := origin; tp_app_id := str_or_empty "app_id" d;
    tp_transaction_id := str_or_empty "transaction_id" d; tp_adapter_id := adapter_id;
    tp_adapter_version := adapter_version; tp_page_fingerprint := page_fingerprint; tp_risk := risk;
    tp_consequences := str_or_empty "consequences" d; tp_fields := fields;
    tp_canonical_payload_hash := canonical_payload_hash; tp_nonce := nonce; tp_generated_at := generated_at;
    tp_expires_at := expires_at; tp_missing_fields := missing_fields; tp_unknown_fields := unknown_fields;
    tp_attachments := attachments; tp_extension_id := str_or_empty "extension_id" d;
    tp_extension_version := str_or_empty "extension_version" d; tp_target_action_id := str_or_empty "target_action_id" d;
    tp_target_method := str_or_empty "target_method" d; tp_target_origin := str_or_empty "target_origin" d;
    tp_target_path := str_or_empty "target_path" d |}.

End documents.

(** ** Plans and outcomes *)

Record FillPlan := {
  fp_adapter_id : string;
  fp_adapter_version : string;
  fp_transaction_id : string;
  fp_expected_origin : string;
  fp_expected_page_fingerprint : string;
  fp_fields : list FieldChange;
  fp_app_id : string;
  fp_attachments : list AttachmentPreview;
  fp_consequences : string
}.

Definition make_plan (p : FillPlan) : result FillPlan :=
  _ ← raise_if (MAX_FIELDS <? Z.of_nat (length (fp_fields p))) BrowserLimitError "fill plan exceeds the field limit";
  _ ← raise_if (MAX_ATTACHMENTS <? Z.of_nat (length (fp_attachments p))) BrowserLimitError "fill plan exceeds the attachment limit";
  _ ← raise_if (bool_decide (fp_adapter_id p = "") || bool_decide (fp_adapter_version p = "")) BrowserLimitError
        "fill plan requires an adapter identity";
  _ ← raise_if (bool_decide (fp_transaction_id p = "")) BrowserLimitError "fill plan requires a transaction id";
  _ ← raise_if (existsb (fun c => bool_decide (fc_source c = FieldValueSource.UNKNOWN)) (fp_fields p)) BrowserLimitError
        "every planned value needs a known source";
  Ok p.

Definition field_ids (p : FillPlan) : list string := fc_field_id <$> fp_fields p.

Record SubmissionOutcome := {
  so_state : BrowserSessionState.t;
  so_receipt : option (list (string * json));
  so_reference : string;
  so_diagnostic_code : string
}.

(** ** The fingerprint of a page's structure ([core/browser/fingerprint.py]) *)

Definition MAX_STRUCTURE_CONTROLS : Z := 512.
Definition MAX_STRUCTURE_HEADINGS : Z := 128.
Definition MAX_STRUCTURE_LINKS : Z := 128.
Definition MAX_STRUCTURE_FORMS : Z := 32.
Definition MAX_STRUCTURE_FORM_FIELD : Z := 512.
Definition MAX_STRUCTURE_OPTIONS : Z := 64.
Definition MAX_STRUCTURE_TEXT : Z := 256.
Definition MAX_STRUCTURE_BYTES : Z := 256 * 1024.

Definition _CONTROL_FIELDS : list string :=
  ["tag"; "type"; "name"; "element_id"; "locator"; "role"; "aria_label"; "placeholder"; "inputmode"; "autocomplete"].
Definition _CONTROL_FLAGS : list string := ["required"; "readonly"; "disabled"; "multiple"].

Definition _bounded_text (v : json) : string :=
  str_take MAX_STRUCTURE_TEXT (strip (match v with JNull => "" | v => py_str v end)).

(** [raw.get(key)] as bounded text. *)
Definition bounded_get (k : string) (d : list (string * json)) : string := _bounded_text (get_or k JNull d).

Definition _normalize_control (raw : list (string * json)) (index : Z) : json :=
  JObj ([("order", JInt index)]
        ++ map (fun k => (k, JStr (bounded_get k raw))) _CONTROL_FIELDS
        ++ map (fun k => (k, match get_or k JNull raw with JBool b => JBool b | _ => JBool false end)) _CONTROL_FLAGS
        ++ [("options", match get_or "options" JNull raw with
                        | JList l => JList (map (fun v => JStr (_bounded_text v)) (take (Z.to_nat MAX_STRUCTURE_OPTIONS) l))
                        | _ => JList []
                        end);
            ("max_length", match get_or "max_length" JNull raw with
                           | JInt n => JInt n
                           | JBool b => JInt (if b then 1 else 0)
                           | _ => JInt 0
                           end)])%list.

Fixpoint enumerate {A B} (f : Z -> A -> B) (i : Z) (l : list A) : list B :=
  match l with
  | [] => []
  | x :: l => f i x :: enumerate f (i + 1) l
  end.

Fixpoint headings_json (i : Z) (l : list (list (string * json))) : result (list json) :=
  match l with
  | [] => Ok []
  | h :: l =>
      level ← py_int_or0 (get_or "level" (JInt 0) h);
      rest ← headings_json (i + 1) l;
      Ok (JObj [("order", JInt i); ("level", JInt level); ("text", JStr (bounded_get "text" h))] :: rest)
  end.

Definition link_json (i : Z) (d : list (string * json)) : json :=
  JObj [("order", JInt i); ("text", JStr (bounded_get "text" d)); ("path", JStr (bounded_get "path" d))].
Definition form_json (i : Z) (d : list (string * json)) : json :=
  JObj [("order", JInt i); ("action", JStr (str_take MAX_STRUCTURE_FORM_FIELD (bounded_get "action" d)));
        ("method", JStr (lower (bounded_get "method" d))); ("element_id", JStr (bounded_get "element_id" d));
        ("name", JStr (bounded_get "name" d))].
Definition hidden_json (i : Z) (d : list (string * json)) : json :=
  let ty := bounded_get "type" d in
  JObj [("order", JInt i); ("type", JStr (if bool_decide (ty = "") then "hidden" else ty));
        ("name", JStr (bounded_get "name" d)); ("element_id", JStr (bounded_get "element_id" d))].

Definition page_structure_document (controls headings links forms hidden_fields : list (list (string * json))) : result json :=
  let over l limit := limit <? Z.of_nat (length l) in
  _ ← raise_if (over controls MAX_STRUCTURE_CONTROLS) BrowserLimitError "page structure exceeds the control limit";
  _ ← raise_if (over headings MAX_STRUCTURE_HEADINGS) BrowserLimitError "page structure exceeds the heading limit";
  _ ← raise_if (over links MAX_STRUCTURE_LINKS) BrowserLimitError "page structure exceeds the link limit";
  _ ← raise_if (over forms MAX_STRUCTURE_FORMS) BrowserLimitError "page structure exceeds the form limit";
  normalized_headings ← headings_json 0 headings;
  let hidden := enumerate hidden_json 0 (take (Z.to_nat MAX_STRUCTURE_CONTROLS) hidden_fields) in
  let document := JObj ([("controls", JList (enumerate (fun i c => _normalize_control c i) 0 controls));
                         ("headings", JList normalized_headings);
                         ("links", JList (enumerate link_json 0 links)); ("forms", JList (enumerate form_json 0 forms))]
                        ++ if bool_decide (hidden = []) then [] else [("hidden_fields", JList hidden)])%list in
  text ← canonical_json document;
  _ ← raise_if (MAX_STRUCTURE_BYTES <? Z.of_nat (length (utf8_encode text))) BrowserLimitError "page structure exceeds the byte limit";
  Ok document.

Definition compute_page_fingerprint (structure : json) : result string := canonical_sha256 structure.
