(* ===== verification/BrowserAdapters.v ===== *)
(** * BrowserAdapters: transaction adapters and session records

    Models [core/browser/ports.py] (descriptors with their validation, the records that are stored),
    the descriptor documents of [core/browser/session.py] and the in-memory stores of
    [infrastructure/memory/browser.py]. *)

From stdpp Require Import sorting.
From S2P Require Import Prelude Text PyFloat Json Schemas Domain Scheduling Url BrowserPolicy PyValue BrowserModels.
Local Open Scope string_scope.
Local Open Scope Z_scope.
Import BrowserSessionState.

(** ** The patterns.  [$] also matches before a final newline. *)

Definition chomp (l : list Ascii.ascii) : list Ascii.ascii :=
  match reverse l with
  | a :: r => if code a =? 10 then reverse r else l
  | [] => l
  end.

Definition is_lower_alnum (a : Ascii.ascii) : bool := is_digit a || ((97 <=? code a) && (code a <=? 122)).

(** What follows the first letter of an identifier: letters and digits, with single separators between
    them; [need]: a separator was read. *)
Fixpoint id_rest (need : bool) (l : list Ascii.ascii) : bool :=
  match l with
  | [] => negb need
  | a :: l => if is_lower_alnum a then id_rest false l
              else (mem_b (code a) [46; 95; 45]) && negb need && id_rest true l
  end.
Definition _ID_PATTERN (s : string) : bool :=
  match chomp (chars s) with
  | a :: l => (97 <=? code a) && (code a <=? 122) && id_rest false l
  | [] => false
  end.

Definition one_to_four_digits (l : list Ascii.ascii) : bool :=
  (1 <=? length l)%nat && (length l <=? 4)%nat && forallb is_digit l.
Definition starts (p : string) (l : list Ascii.ascii) : option (list Ascii.ascii) :=
  if is_prefix_l (chars p) l then Some (drop (String.length p) l) else None.

Definition ctl_locator (l : list Ascii.ascii) : bool :=
  existsb (fun g => match starts g l with Some rest => one_to_four_digits rest | None => false end) ["ctl:0:"; "ctl:1:"; "ctl:2:"].
Definition act_locator (l : list Ascii.ascii) : bool :=
  match starts "act:" l with Some rest => one_to_four_digits rest | None => false end.
Definition text_locator (l : list Ascii.ascii) : bool :=
  match starts "text:" l with
  | Some rest => (1 <=? length rest)%nat && (length rest <=? 200)%nat && forallb (fun a => negb (code a =? 10)) rest
  | None => false
  end.
Definition _FIELD_LOCATOR_PATTERN (s : string) : bool := ctl_locator (chomp (chars s)).
Definition _ACTION_LOCATOR_PATTERN (s : string) : bool := act_locator (chomp (chars s)).
Definition _RECEIPT_LOCATOR_PATTERN (s : string) : bool :=
  let l := chomp (chars s) in text_locator l || ctl_locator l || act_locator l.
Definition _SHA256_HEX (s : string) : bool :=
  let l := chomp (chars s) in (length l =? 64)%nat && forallb is_hex_lower l.

Definition _SUBMIT_METHODS : list string := ["POST"; "PUT"; "PATCH"; "DELETE"].
Definition _FIELD_KINDS : list string :=
  ["text"; "textarea"; "select"; "checkbox"; "radio"; "date"; "number"; "email"; "tel"; "file"; "unknown"].
Definition _ACTION_KINDS : list string := ["submit"; "next"; "save"; "other"; "navigate"].

(** ** Descriptors *)

Record AdapterFieldSpec := {
  fs_field_id : string;
  fs_label : string;
  fs_kind : string;
  fs_required : bool;
  fs_max_length : Z;
  fs_pattern : string;
  fs_locator : string;
  fs_source : FieldValueSource.t
}.

Record AdapterActionSpec := {
  as_action_id : string;
  as_locator : string;
  as_label : string;
  as_kind : string;
  as_risk : RiskLevel;
  as_final : bool;
  as_method : string;
  as_target_origin : string;
  as_target_path : string;
  as_transaction_id : string;
  as_navigates_to_path : string
}.

Record TransactionAdapterDescriptor := {
  ad_extension_id : string;
  ad_extension_version : string;
  ad_adapter_id : string;
  ad_adapter_version : string;
  ad_display_name : string;
  ad_allowed_origins : list string;
  ad_allowed_paths : list string;
  ad_declared_risk : RiskLevel;
  ad_transaction_ids : list string;
  ad_fields : list AdapterFieldSpec;
  ad_actions : list AdapterActionSpec;
  ad_login_paths : list string;
  ad_forbidden_terms : list string;
  ad_discovery_path : string;
  ad_tracking_path : string;
  ad_receipt_locator : string;
  ad_consequences : string;
  ad_allowed_page_fingerprints : list string;
  ad_receipt_pattern : string
}.

Definition final_action (d : TransactionAdapterDescriptor) : option AdapterActionSpec := List.find as_final (ad_actions d).
Definition field_spec (d : TransactionAdapterDescriptor) (field_id : string) : option AdapterFieldSpec :=
  List.find (fun s => bool_decide (fs_field_id s = field_id)) (ad_fields d).
Definition field_spec_by_locator (d : TransactionAdapterDescriptor) (locator : string) : option AdapterFieldSpec :=
  List.find (fun s => bool_decide (fs_locator s = locator)) (ad_fields d).
Definition action_by_locator (d : TransactionAdapterDescriptor) (locator : string) : option AdapterActionSpec :=
  List.find (fun a => bool_decide (as_locator a = locator)) (ad_actions d).
Definition navigation_action (d : TransactionAdapterDescriptor) (transaction_id : string) : option AdapterActionSpec :=
  List.find (fun a => bool_decide (as_kind a = "navigate") && bool_decide (as_transaction_id a = transaction_id)) (ad_actions d).

(** ** Validation *)

Definition invalid_if (b : bool) (msg : string) : result unit := policy_if b "ADAPTER_INVALID" msg.

Definition _require_id (v field_name : string) (max_length : Z) : result unit :=
  _ ← invalid_if (bool_decide (v = "")) (field_name ++ " is required");
  invalid_if ((max_length <? str_len v) || negb (_ID_PATTERN v)) (field_name ++ " is malformed").

Definition str_contains (needle s : string) : bool := str_contains_l (chars needle) (chars s).

Definition bad_start (path : string) : bool := negb (is_prefix_l (chars "/") (chars path)) || (256 <? str_len path).
Definition backslash : string := of_chars [Ascii.ascii_of_N 92].

Definition _validate_path (path : string) : result unit :=
  _ ← invalid_if (bad_start path) "adapter paths must start with '/'";
  invalid_if (existsb (fun x => str_contains x path) [".."; backslash; "?"; "#"]) "adapter paths must be static".

Definition _validate_navigation_path (path : string) : result unit :=
  _ ← invalid_if (bad_start path) "a navigation target must start with '/'";
  invalid_if (existsb (fun x => str_contains x path) [".."; backslash; "?"]) "a navigation target must be static".

(** [s.upper()].  The capitals of two letters (codes 181 and 255) lie beyond Latin-1; they are kept, so
    that comparisons of capitalised texts come out the same. *)
Definition upper_char (a : Ascii.ascii) : list Ascii.ascii :=
  let c := code a in
  if ((97 <=? c) && (c <=? 122)) || ((224 <=? c) && (c <=? 254) && negb (c =? 247)) then [Ascii.ascii_of_N (Z.to_N (c - 32))]
  else if c =? 223 then chars "SS" else [a].
Definition str_upper (s : string) : string := of_chars (concat (upper_char <$> chars s)).

Section validation.
Context `{Unicode}.
(** [re.compile] accepts the pattern. *)
Context (re_valid : string -> bool).
Context (allowed_origins : list string) (origin_mode : string).

Definition validate_origin (origin not_normal not_allowed : string) : result unit :=
  canonical ← normalize_origin (codes origin);
  _ ← invalid_if (negb (bool_decide (canonical = codes origin))) not_normal;
  policy_if (bool_decide (origin_mode = "allowlist") && negb (mem_b origin allowed_origins)) "ORIGIN_NOT_ALLOWED" not_allowed.

Definition validate_field (spec : AdapterFieldSpec) : result unit :=
  _ ← _require_id (fs_field_id spec) "field_id" 128;
  _ ← invalid_if (negb (mem_b (fs_kind spec) _FIELD_KINDS)) ("unknown field kind " ++ str_repr (fs_kind spec));
  _ ← invalid_if (negb (_FIELD_LOCATOR_PATTERN (fs_locator spec))) "a field locator must be a ctl:<index> reference";
  _ ← invalid_if ((fs_max_length spec <? 0) || (MAX_FIELD_VALUE_CHARS <? fs_max_length spec)) "field length limit is out of range";
  if bool_decide (fs_pattern spec = "") then Ok tt else
  _ ← invalid_if (512 <? str_len (fs_pattern spec)) "field pattern is too long";
  invalid_if (negb (re_valid (fs_pattern spec))) "field pattern is not a valid regex".

Definition validate_action (d : TransactionAdapterDescriptor) (a : AdapterActionSpec) : result unit :=
  _ ← _require_id (as_action_id a) "action_id" 128;
  _ ← invalid_if (negb (mem_b (as_kind a) _ACTION_KINDS)) ("unknown action kind " ++ str_repr (as_kind a));
  _ ← policy_if (bool_decide (as_risk a = PROHIBITED)) "ADAPTER_RISK_PROHIBITED" "a prohibited action can never be declared";
  _ ← invalid_if (negb (_ACTION_LOCATOR_PATTERN (as_locator a))) "an action locator must be an act:<index> reference";
  _ ← if bool_decide (as_kind a = "navigate") then
        _ ← invalid_if (as_final a) "a navigation action can never be final";
        _ ← invalid_if (negb (bool_decide (as_method a = "")) || negb (bool_decide (as_target_origin a = ""))
                        || negb (bool_decide (as_target_path a = ""))) "a navigation action must not declare a submit target";
        _ ← invalid_if (bool_decide (as_transaction_id a = "") || negb (mem_b (as_transaction_id a) (ad_transaction_ids d)))
              "a navigation action must open a declared transaction";
        _validate_navigation_path (as_navigates_to_path a)
      else invalid_if (negb (bool_decide (as_transaction_id a = "")) || negb (bool_decide (as_navigates_to_path a = "")))
             "only a navigation action may declare an entry target";
  if as_final a then
    _ ← invalid_if (negb (mem_b (str_upper (as_method a)) _SUBMIT_METHODS)) "a final action must declare a non-GET submit method";
    _ ← validate_origin (as_target_origin a) "a final action origin must be normalized"
          "a final action target origin is not in the user allowlist";
    _validate_path (as_target_path a)
  else Ok tt.

(** The loops that also reject a repeated identifier. *)
Fixpoint distinct_iter {A} (key : A -> string) (f : A -> result unit) (msg : string) (seen : list string) (l : list A) : result unit :=
  match l with
  | [] => Ok tt
  | x :: l => _ ← invalid_if (mem_b (key x) seen) msg; _ ← f x; distinct_iter key f msg (key x :: seen) l
  end.

Definition count_over {A} (l : list A) (limit : Z) : bool := limit <? Z.of_nat (length l).
Definition none_of {A} (l : list A) : bool := match l with [] => true | _ => false end.

Definition validate_adapter_descriptor (d : TransactionAdapterDescriptor) : result unit :=
  _ ← _require_id (ad_extension_id d) "extension_id" 128;
  _ ← _require_id (ad_adapter_id d) "adapter_id" 128;
  _ ← invalid_if (bool_decide (ad_extension_version d = "") || (64 <? str_len (ad_extension_version d))) "extension_version is required";
  _ ← invalid_if (bool_decide (ad_adapter_version d = "") || (64 <? str_len (ad_adapter_version d))) "adapter_version is required";
  _ ← invalid_if (bool_decide (ad_display_name d = "") || (200 <? str_len (ad_display_name d))) "display_name is required";
  _ ← invalid_if (none_of (ad_allowed_origins d) || count_over (ad_allowed_origins d) 8) "one to eight adapter origins are required";
  _ ← invalid_if (count_over (ad_allowed_paths d) 64) "too many allowed paths";
  _ ← invalid_if (none_of (ad_transaction_ids d) || count_over (ad_transaction_ids d) 64) "transaction ids are required";
  _ ← policy_if (bool_decide (ad_declared_risk d = PROHIBITED)) "ADAPTER_RISK_PROHIBITED" "a prohibited transaction can never be declared";
  _ ← result_iter (fun o => validate_origin o "adapter origins must be normalized" "an adapter origin is not in the user allowlist")
        (ad_allowed_origins d);
  _ ← result_iter _validate_path (ad_allowed_paths d ++ ad_login_paths d)%list;
  _ ← if bool_decide (ad_discovery_path d = "") then Ok tt else _validate_path (ad_discovery_path d);
  _ ← if bool_decide (ad_tracking_path d = "") then Ok tt else _validate_path (ad_tracking_path d);
  _ ← invalid_if (negb (bool_decide (ad_receipt_locator d = "")) && negb (_RECEIPT_LOCATOR_PATTERN (ad_receipt_locator d)))
        "receipt locator must be a bounded text/ctl/act reference";
  _ ← if bool_decide (ad_receipt_pattern d = "") then Ok tt else
        _ ← invalid_if (256 <? str_len (ad_receipt_pattern d)) "receipt pattern is too long";
        invalid_if (negb (re_valid (ad_receipt_pattern d))) "receipt pattern is not a valid regex";
  _ ← invalid_if (none_of (ad_allowed_page_fingerprints d)) "an adapter must carry at least one human-verified page fingerprint";
  _ ← invalid_if (count_over (ad_allowed_page_fingerprints d) 8) "too many allowed page fingerprints";
  _ ← result_iter (fun f => invalid_if (negb (_SHA256_HEX f)) "allowed page fingerprints must be 64 lowercase hex")
        (ad_allowed_page_fingerprints d);
  _ ← invalid_if (2000 <? str_len (ad_consequences d)) "consequences text is too long";
  _ ← invalid_if (count_over (ad_fields d) MAX_FIELDS) "too many adapter fields";
  _ ← distinct_iter fs_field_id validate_field "duplicate adapter field id" [] (ad_fields d);
  _ ← invalid_if (count_over (ad_actions d) MAX_ACTIONS) "too many adapter actions";
  _ ← distinct_iter as_action_id (validate_action d) "duplicate adapter action id" [] (ad_actions d);
  invalid_if (1 <? Z.of_nat (length (List.filter as_final (ad_actions d)))) "only one final action may be declared".

End validation.

(** ** Descriptor documents ([core/browser/session.py]) *)

Definition strs (l : list string) : json := JList (map JStr l).

Definition field_spec_document (s : AdapterFieldSpec) : json :=
  JObj [("field_id", JStr (fs_field_id s)); ("label", JStr (fs_label s)); ("kind", JStr (fs_kind s));
        ("required", JBool (fs_required s)); ("max_length", JInt (fs_max_length s)); ("pattern", JStr (fs_pattern s));
        ("locator", JStr (fs_locator s)); ("source", JStr (FieldValueSource.value (fs_source s)))].

Definition action_spec_document (a : AdapterActionSpec) : json :=
  JObj [("action_id", JStr (as_action_id a)); ("locator", JStr (as_locator a)); ("label", JStr (as_label a));
        ("kind", JStr (as_kind a)); ("risk", JStr (risk_value (as_risk a))); ("final", JBool (as_final a));
        ("method", JStr (as_method a)); ("target_origin", JStr (as_target_origin a));
        ("target_path", JStr (as_target_path a)); ("transaction_id", JStr (as_transaction_id a));
        ("navigates_to_path", JStr (as_navigates_to_path a))].

Definition _descriptor_document (d : TransactionAdapterDescriptor) : list (string * json) :=
  [("extension_id", JStr (ad_extension_id d)); ("extension_version", JStr (ad_extension_version d));
   ("adapter_id", JStr (ad_adapter_id d)); ("adapter_version", JStr (ad_adapter_version d));
   ("display_name", JStr (ad_display_name d)); ("allowed_origins", strs (ad_allowed_origins d));
   ("allowed_paths", strs (ad_allowed_paths d)); ("declared_risk", JStr (risk_value (ad_declared_risk d)));
   ("transaction_ids", strs (ad_transaction_ids d));
   ("fields", JList (map field_spec_document (ad_fields d))); ("actions", JList (map action_spec_document (ad_actions d)));
   ("login_paths", strs (ad_login_paths d)); ("forbidden_terms", strs (ad_forbidden_terms d));
   ("discovery_path", JStr (ad_discovery_path d)); ("tracking_path", JStr (ad_tracking_path d));
   ("receipt_locator", JStr (ad_receipt_locator d)); ("receipt_pattern", JStr (ad_receipt_pattern d));
   ("allowed_page_fingerprints", strs (ad_allowed_page_fingerprints d)); ("consequences", JStr (ad_consequences d))].

Definition field_spec_from_document (d : list (string * json)) : result AdapterFieldSpec :=
  field_id ← str_item "field_id" d;
  max_length ← py_int_or0 (get_or "max_length" (JInt 0) d);
  source ← member FieldValueSource.value FieldValueSource.all (py_str (get_or "source" (JStr "USER_INPUT") d));
  Ok {| fs_field_id := field_id; fs_label := str_or_empty "label" d; fs_kind := py_str (get_or "kind" (JStr "text") d);
        fs_required := py_truth (get_or "required" (JBool true) d); fs_max_length := max_length;
        fs_pattern := str_or_empty "pattern" d; fs_locator := str_or_empty "locator" d; fs_source := source |}.

Definition action_spec_from_document (d : list (string * json)) : result AdapterActionSpec :=
  action_id ← str_item "action_id" d;
  risk ← risk_of_value (py_str (get_or "risk" (JStr "EXTERNAL_WRITE") d));
  Ok {| as_action_id := action_id; as_locator := str_or_empty "locator" d; as_label := str_or_empty "label" d;
        as_kind := py_str (get_or "kind" (JStr "submit") d); as_risk := risk;
        as_final := py_truth (get_or "final" (JBool false) d); as_method := str_or_empty "method" d;
        as_target_origin := str_or_empty "target_origin" d; as_target_path := str_or_empty "target_path" d;
        as_transaction_id := str_or_empty "transaction_id" d; as_navigates_to_path := str_or_empty "navigates_to_path" d |}.

Definition descriptor_from_document (d : list (string * json)) : result TransactionAdapterDescriptor :=
  field_items ← py_iter (get_or "fields" (JList []) d);
  fields ← result_map field_spec_from_document (objects field_items);
  action_items ← py_iter (get_or "actions" (JList []) d);
  actions ← result_map action_spec_from_document (objects action_items);
  extension_id ← str_item "extension_id" d;
  extension_version ← str_item "extension_version" d;
  adapter_id ← str_item "adapter_id" d;
  adapter_version ← str_item "adapter_version" d;
  allowed_origins ← str_items "allowed_origins" d;
  allowed_paths ← str_items "allowed_paths" d;
  risk_text ← str_item "declared_risk" d; declared_risk ← risk_of_value risk_text;
  transaction_ids ← str_items "transaction_ids" d;
  login_paths ← str_items "login_paths" d;
  forbidden_terms ← str_items "forbidden_terms" d;
  allowed_page_fingerprints ← str_items "allowed_page_fingerprints" d;
  Ok {| ad_extension_id := extension_id; ad_extension_version := extension_version; ad_adapter_id := adapter_id;
        ad_adapter_version := adapter_version; ad_display_name := str_or_empty "display_name" d;
        ad_allowed_origins := allowed_origins; ad_allowed_paths := allowed_paths; ad_declared_risk := declared_risk;
        ad_transaction_ids := transaction_ids; ad_fields := fields; ad_actions := actions; ad_login_paths := login_paths;
        ad_forbidden_terms := forbidden_terms; ad_discovery_path := str_or_empty "discovery_path" d;
        ad_tracking_path := str_or_empty "tracking_path" d; ad_receipt_locator := str_or_empty "receipt_locator" d;
        ad_consequences := str_or_empty "consequences" d; ad_allowed_page_fingerprints := allowed_page_fingerprints;
        ad_receipt_pattern := str_or_empty "receipt_pattern" d |}.

(** ** Records *)

Record BrowserAdapterRecord := {
  bar_extension_id : string;
  bar_extension_version : string;
  bar_adapter_id : string;
  bar_adapter_version : string;
  bar_descriptor : list (string * json);
  bar_created_at : time;
  bar_updated_at : time;
  bar_version : Z
}.
#[export] Instance BrowserAdapterRecord_eta : Eta BrowserAdapterRecord := fun r =>
  Build_BrowserAdapterRecord (bar_extension_id r) (bar_extension_version r) (bar_adapter_id r) (bar_adapter_version r)
    (bar_descriptor r) (bar_created_at r) (bar_updated_at r) (bar_version r).

Record BrowserSessionRecord := {
  bs_session_id : string;
  bs_task_id : string;
  bs_extension_id : string;
  bs_extension_version : string;
  bs_purpose : string;
  bs_state : BrowserSessionState.t;
  bs_created_at : time;
  bs_updated_at : time;
  bs_expires_at : time;
  bs_version : Z;
  bs_origin : string;
  bs_url : string;
  bs_adapter_id : string;
  bs_adapter_version : string;
  bs_app_id : string;
  bs_transaction_id : string;
  bs_page_fingerprint : string;
  bs_preview_hash : string;
  bs_preview_nonce : string;
  bs_preview : option (list (string * json));
  bs_outcome : string;
  bs_receipt : option (list (string * json));
  bs_diagnostic_code : string;
  bs_re_navigations : Z;
  bs_visited_paths : list string;
  bs_receipt_baseline : string;
  bs_fill_count : Z;
  bs_submit_count : Z;
  bs_apps_count : Z;
  bs_owner_id : string
}.
#[export] Instance BrowserSessionRecord_eta : Eta BrowserSessionRecord := fun r =>
  Build_BrowserSessionRecord (bs_session_id r) (bs_task_id r) (bs_extension_id r) (bs_extension_version r) (bs_purpose r)
    (bs_state r) (bs_created_at r) (bs_updated_at r) (bs_expires_at r) (bs_version r) (bs_origin r) (bs_url r)
    (bs_adapter_id r) (bs_adapter_version r) (bs_app_id r) (bs_transaction_id r) (bs_page_fingerprint r) (bs_preview_hash r)
    (bs_preview_nonce r) (bs_preview r) (bs_outcome r) (bs_receipt r) (bs_diagnostic_code r) (bs_re_navigations r)
    (bs_visited_paths r) (bs_receipt_baseline r) (bs_fill_count r) (bs_submit_count r) (bs_apps_count r) (bs_owner_id r).

Definition bs_terminal (r : BrowserSessionRecord) : bool := terminal (bs_state r).

(** ** The in-memory stores ([infrastructure/memory/browser.py]) *)

Definition _OPEN_STATES (s : BrowserSessionState.t) : bool := negb (mem_b s [SUCCEEDED; FAILED; CANCELLED]).

Notation session_map := (list (string * BrowserSessionRecord)).

Definition sessions_create (record : BrowserSessionRecord) : M session_map BrowserSessionRecord := fun s =>
  if has_key (bs_session_id record) s
  then (s, fail AlreadyExistsError ("browser session " ++ bs_session_id record ++ " already exists"))
  else if _OPEN_STATES (bs_state record)
          && existsb (fun kv => bool_decide (bs_task_id kv.2 = bs_task_id record) && _OPEN_STATES (bs_state kv.2)) s
  then (s, fail AlreadyExistsError ("an open browser session already exists for task " ++ bs_task_id record))
  else let stored := record {{ bs_version := 0 }} in (assoc_set (bs_session_id record) stored s, Ok stored).

Definition sessions_get (session_id : string) : M session_map (option BrowserSessionRecord) := fun s =>
  (s, Ok (assoc session_id s)).

Definition sessions_save (record : BrowserSessionRecord) (expected_version : Z) (now : time)
    : M session_map BrowserSessionRecord := fun s =>
  match assoc (bs_session_id record) s with
  | None => (s, fail NotFoundError ("browser session " ++ bs_session_id record ++ " not found"))
  | Some current =>
      if negb (bs_version current =? expected_version)
      then (s, fail ConcurrentModificationError "the browser session was modified by another writer")
      else let stored := record {{ bs_version := expected_version + 1; bs_updated_at := now }} in
           (assoc_set (bs_session_id record) stored s, Ok stored)
  end.

Definition created_leb (a b : BrowserSessionRecord) : bool := bs_created_at a <=? bs_created_at b.

Definition find_active_for_task (task_id : string) : M session_map (list BrowserSessionRecord) := fun s =>
  (s, Ok (stable_sort created_leb (List.filter (fun r => bool_decide (bs_task_id r = task_id)) (s.*2)))).

Definition is_stale (active_owners : list string) (r : BrowserSessionRecord) : bool :=
  bool_decide (bs_state r = EXECUTING)
  && negb (negb (bool_decide (bs_owner_id r = "")) && mem_b (bs_owner_id r) active_owners).

Definition interrupted (now : time) (r : BrowserSessionRecord) : BrowserSessionRecord :=
  r {{ bs_state := UNKNOWN; bs_outcome := "UNKNOWN"; bs_diagnostic_code := "EXECUTION_INTERRUPTED";
       bs_updated_at := now; bs_version := bs_version r + 1 }}.

Definition recover_stale_executions (active_owners : list string) (now : time) : M session_map (list string) := fun s =>
  (map (fun kv => (kv.1, if is_stale active_owners kv.2 then interrupted now kv.2 else kv.2)) s,
   Ok (map fst (List.filter (fun kv => is_stale active_owners kv.2) s))).

Notation adapter_key := (string * string * string)%type.
Notation adapter_map := (list (adapter_key * BrowserAdapterRecord)).

Definition adapter_lookup (k : adapter_key) (s : adapter_map) : option BrowserAdapterRecord :=
  snd <$> List.find (fun kv => bool_decide (kv.1 = k)) s.

Fixpoint adapter_set (k : adapter_key) (r : BrowserAdapterRecord) (s : adapter_map) : adapter_map :=
  match s with
  | [] => [(k, r)]
  | kv :: s => if bool_decide (kv.1 = k) then (k, r) :: s else kv :: adapter_set k r s
  end.

Definition adapters_upsert (record : BrowserAdapterRecord) (now : time) : M adapter_map BrowserAdapterRecord := fun s =>
  let k := (bar_extension_id record, bar_adapter_id record, bar_adapter_version record) in
  let version := match adapter_lookup k s with Some current => bar_version current + 1 | None => 0 end in
  let stored := record {{ bar_version := version; bar_updated_at := now }} in
  (adapter_set k stored s, Ok stored).

Definition adapters_get (extension_id adapter_id adapter_version : string) : M adapter_map (option BrowserAdapterRecord) := fun s =>
  (s, Ok (adapter_lookup (extension_id, adapter_id, adapter_version) s)).

Definition adapter_leb (a b : BrowserAdapterRecord) : bool :=
  pair_leb (bar_adapter_id a, bar_adapter_version a) (bar_adapter_id b, bar_adapter_version b).

Definition list_for_extension (extension_id : string) : M adapter_map (list BrowserAdapterRecord) := fun s =>
  (s, Ok (stable_sort adapter_leb (map snd (List.filter (fun kv => bool_decide (kv.1.1.1 = extension_id)) s)))).
