(* ===== verification/BrowserDocuments.v ===== *)
(** * BrowserDocuments: what the browser component stores and hashes

    Previews and adapter descriptors are stored as documents and read back before a submission, and the host
    and the driver compare form payloads by digest. *)

From stdpp Require Import sorting.
From S2P Require Import Prelude Text PyFloat Sha256 Json JsonParse JsonRoundTrip Schemas Domain Scheduling IsoTime Url BrowserPolicy PyValue.
From S2P Require Import BrowserModels BrowserAdapters.
Local Open Scope string_scope.
Local Open Scope Z_scope.

(** ** Enumerations and lists of strings *)

Lemma source_member s : member FieldValueSource.value FieldValueSource.all (FieldValueSource.value s) = Ok s.
Proof. by destruct s. Qed.
Lemma validation_member s : member FieldValidation.value FieldValidation.all (FieldValidation.value s) = Ok s.
Proof. by destruct s. Qed.
Lemma risk_member r : risk_of_value (risk_value r) = Ok r.
Proof. by destruct r. Qed.

Lemma map_py_str l : map py_str (map JStr l) = l.
Proof. induction l as [|s l IH]; [done|]. cbn [map]. by rewrite IH. Qed.

Lemma objects_map {A} (f : A -> list (string * json)) l : objects (map (fun x => JObj (f x)) l) = map f l.
Proof. unfold objects. induction l as [|x l IH]; cbn; [done|]. by rewrite IH. Qed.

Lemma result_map_map {A B C} (f : A -> B) (g : B -> result C) (h : A -> C) l :
  (forall x, x ∈ l -> g (f x) = Ok (h x)) -> result_map g (map f l) = Ok (map h l).
Proof.
  induction l as [|x l IH]; intros Hl; cbn [map result_map]; [done|]. rewrite (Hl x) by (by left). cbn [mbind result_bind].
  rewrite IH; [done|]. intros y Hy. apply Hl. by right.
Qed.

(** ** Descriptors *)

Definition field_spec_entries (s : AdapterFieldSpec) : list (string * json) := match field_spec_document s with JObj d => d | _ => [] end.
Definition action_spec_entries (a : AdapterActionSpec) : list (string * json) := match action_spec_document a with JObj d => d | _ => [] end.

Lemma field_spec_round_trip s : field_spec_from_document (field_spec_entries s) = Ok s.
Proof.
  destruct s as [i l k r m p lo so]. unfold field_spec_from_document.
  change (get_or "max_length" (JInt 0) _) with (JInt m). change (py_str (get_or "source" _ _)) with (FieldValueSource.value so).
  rewrite source_member. assert (py_int_or0 (JInt m) = Ok m) as ->; [|done].
  unfold py_int_or0. cbn [py_truth]. by destruct (Z.eqb_spec m 0) as [->|].
Qed.

Lemma action_spec_round_trip a : action_spec_from_document (action_spec_entries a) = Ok a.
Proof.
  destruct a as [i lo la k r f me o p tx n]. unfold action_spec_from_document.
  change (py_str (get_or "risk" _ _)) with (risk_value r). rewrite risk_member. done.
Qed.

Lemma str_items_get k d l : get_or k (JList []) d = strs l -> str_items k d = Ok l.
Proof. intros E. unfold str_items. rewrite E. cbn [py_iter strs mbind result_bind]. by rewrite map_py_str. Qed.

Lemma descriptor_round_trip d : descriptor_from_document (_descriptor_document d) = Ok d.
Proof.
  destruct d as [xi xv ai av dn ao ap dr ti fs acs lp ft dp tp rl cq fp rp]. unfold descriptor_from_document.
  change (get_or "fields" _ _) with (JList (map field_spec_document fs)). cbn [py_iter mbind result_bind].
  change (map field_spec_document fs) with (map (fun s => JObj (field_spec_entries s)) fs). rewrite objects_map.
  rewrite (result_map_map field_spec_entries _ (fun s => s)) by (intros; apply field_spec_round_trip). cbn [mbind result_bind].
  change (get_or "actions" _ _) with (JList (map action_spec_document acs)). cbn [py_iter mbind result_bind].
  change (map action_spec_document acs) with (map (fun s => JObj (action_spec_entries s)) acs). rewrite objects_map.
  rewrite (result_map_map action_spec_entries _ (fun s => s)) by (intros; apply action_spec_round_trip). cbn [mbind result_bind].
  rewrite (str_items_get "allowed_origins" _ ao), (str_items_get "allowed_paths" _ ap), (str_items_get "transaction_ids" _ ti),
    (str_items_get "login_paths" _ lp), (str_items_get "forbidden_terms" _ ft), (str_items_get "allowed_page_fingerprints" _ fp) by done.
  change (str_item "declared_risk" _) with (Ok (risk_value dr)). cbn [mbind result_bind]. rewrite risk_member. cbn. by rewrite !map_id.
Qed.

(** ** Previews *)

(** What a stored preview keeps of a change: the confidence to six places. *)
Definition stored_change (c : FieldChange) : FieldChange := c {{ fc_confidence := round_places 6 (fc_confidence c) }}.

Lemma change_round_trip c : make_change (stored_change c) = Ok (stored_change c) ->
  change_from_document (_field_document c) = Ok (stored_change c).
Proof.
  intros Hv. destruct c as [i lo la ov nv so co va ev]. unfold change_from_document.
  change (py_str (get_or "source" _ _)) with (FieldValueSource.value so). change (py_str (get_or "validation" _ _)) with (FieldValidation.value va).
  rewrite source_member, validation_member. change (str_item "field_id" _) with (Ok i). change (str_item "locator" _) with (Ok lo).
  change (py_float _) with (Ok (round_places 6 co)). cbn [mbind result_bind]. rewrite <- Hv. f_equal. by destruct ev.
Qed.

Lemma attachment_round_trip a : make_attachment a = Ok a -> attachment_from_document (_attachment_document a) = Ok a.
Proof. intros Hv. destruct a as [n s h m]. exact Hv. Qed.

Lemma filter_all {A} (f : A -> bool) l : (forall x, x ∈ l -> f x = true) -> List.filter f l = l.
Proof.
  induction l as [|x l IH]; intros Hl; cbn; [done|]. rewrite Hl by (by left). f_equal. apply IH. intros y Hy. apply Hl. by right.
Qed.

Section previews.
Context (iso_other : string -> result Z).

Lemma time_round_trip t : datetime_range t -> _parse_time iso_other (JStr (isoformat t)) = Ok t.
Proof. intros Ht. unfold _parse_time. cbn [py_str]. by rewrite parse_isoformat. Qed.

(** A preview that can be stored. *)
Record storable (p : TransactionPreview) : Prop := {
  st_valid : make_preview (p {{ tp_fields := map stored_change (tp_fields p) }}) = Ok (p {{ tp_fields := map stored_change (tp_fields p) }});
  st_changes : forall c, c ∈ tp_fields p -> make_change (stored_change c) = Ok (stored_change c);
  st_attachments : forall a, a ∈ tp_attachments p -> make_attachment a = Ok a;
  st_times : datetime_range (tp_generated_at p) /\ datetime_range (tp_expires_at p)
}.

Lemma preview_round_trip p : storable p -> from_document iso_other (to_document p) = Ok (p {{ tp_fields := map stored_change (tp_fields p) }}).
Proof.
  intros [Hv Hc Ha [Ht1 Ht2]]. destruct p as [si o ap tx ai av fp ri cq fs h n ga ea ms us at_ xi xv ta tm to tp]. cbn in Hc, Ha, Ht1, Ht2.
  unfold from_document. change (get_or "fields" _ _) with (JList (map (fun c => JObj (_field_document c)) fs)). cbn [py_iter mbind result_bind].
  rewrite objects_map, filter_all by (by intros d (c & -> & _)%list_elem_of_fmap).
  rewrite (result_map_map _ _ stored_change) by (intros; by apply change_round_trip, Hc). cbn [mbind result_bind].
  change (get_or "attachments" _ _) with (JList (map (fun a => JObj (_attachment_document a)) at_)). cbn [py_iter mbind result_bind].
  rewrite objects_map, filter_all by (by intros d (c & -> & _)%list_elem_of_fmap).
  rewrite (result_map_map _ _ (fun a => a)) by (intros; by apply attachment_round_trip, Ha). cbn [mbind result_bind].
  change (str_item "risk" _) with (Ok (risk_value ri)).
  rewrite (str_items_get "missing_fields" _ ms), (str_items_get "unknown_fields" _ us) by done.
  change (item "generated_at" _) with (Ok (JStr (isoformat ga))). change (item "expires_at" _) with (Ok (JStr (isoformat ea))).
  cbn [mbind result_bind item str_item assoc to_document]. rewrite risk_member. cbn [mbind result_bind]. rewrite !time_round_trip by done. cbn [mbind result_bind].
  rewrite <- Hv. f_equal. cbn. by rewrite map_id.
Qed.
End previews.

(** C30. What is stored is read back.  A registered adapter is read from its document exactly as it was
    declared, and a preview exactly as it was shown, with its times to the microsecond and its confidences
    to the six places that its digest covers: every enumeration, optional value, list, field change and
    attachment survives, for every instant of [datetime]. *)
Theorem stored_documents_read_back iso_other d p : storable p ->
  descriptor_from_document (_descriptor_document d) = Ok d /\
  from_document iso_other (to_document p) = Ok (p {{ tp_fields := map stored_change (tp_fields p) }}).
Proof. intros Hp. split; [apply descriptor_round_trip|by apply preview_round_trip]. Qed.

(** ** Payload digests *)

Lemma str_ltb_spec s t : String.ltb s t = true <-> String.leb t s = false.
Proof. rewrite str_ltb_leb. by rewrite negb_true_iff. Qed.

Lemma pair_le_spec a b : pair_le a b <-> String.leb b.1 a.1 = false \/ (a.1 = b.1 /\ String.leb a.2 b.2 = true).
Proof. unfold pair_le. rewrite orb_true_iff, andb_true_iff, str_ltb_spec, bool_decide_eq_true. done. Qed.

Lemma str_leb_total s t : String.leb s t = false -> String.leb t s = true.
Proof. intros H. destruct (String.leb_total s t); congruence. Qed.

#[local] Instance pair_le_total : Total pair_le.
Proof.
  intros a b. rewrite !pair_le_spec. destruct (String.leb b.1 a.1) eqn:E1; [|by left; left]. destruct (String.leb a.1 b.1) eqn:E2; [|by right; left].
  assert (a.1 = b.1) as E by (by apply str_leb_antisym). destruct (String.leb_total a.2 b.2); [left|right]; right; by rewrite E.
Qed.

#[local] Instance pair_le_anti : AntiSymm eq pair_le.
Proof.
  intros [a1 a2] [b1 b2]. rewrite !pair_le_spec. cbn. intros [H1|[H1 H2]] [H3|[H3 H4]].
  - apply str_leb_total in H1. congruence.
  - subst b1. apply not_true_iff_false in H1. exfalso. apply H1. destruct (String.leb_total a1 a1); done.
  - subst b1. apply not_true_iff_false in H3. exfalso. apply H3. destruct (String.leb_total a1 a1); done.
  - f_equal; [done|by apply str_leb_antisym].
Qed.

#[local] Instance pair_le_trans : Transitive pair_le.
Proof.
  intros [a1 a2] [b1 b2] [c1 c2]. rewrite !pair_le_spec. cbn. intros [H1|[H1 H2]] [H3|[H3 H4]]; subst.
  - left. apply not_true_iff_false. intros Hc. apply not_true_iff_false in H1. apply H1. eapply str_leb_trans; [apply str_leb_total, H3|exact Hc].
  - by left.
  - by left.
  - right. split; [done|by eapply str_leb_trans].
Qed.

(** The sorted payload determines, and is determined by, the pairs up to order. *)
Lemma sorted_pairs_eq p q : merge_sort pair_le p = merge_sort pair_le q <-> p ≡ₚ q.
Proof.
  split; intros E.
  - by rewrite <- (merge_sort_Permutation pair_le p), <- (merge_sort_Permutation pair_le q), E.
  - apply (Sorted_unique pair_le); [apply Sorted_merge_sort, _|apply Sorted_merge_sort, _|]. by rewrite !merge_sort_Permutation.
Qed.

Lemma payload_canonical p : json_canonical (payload_json p) = true.
Proof. unfold payload_json. cbn [json_canonical]. rewrite forallb_forall. by intros v (x & <- & _)%in_map_iff. Qed.

Lemma payload_text p : dumps compact_opts (payload_json p) = dumps canonical_opts (payload_json p).
Proof.
  unfold payload_json. cbn [dumps]. f_equal. f_equal. rewrite <- !list_fmap_compose. apply list_fmap_ext. done.
Qed.

Lemma canonical_text_inj v w t : json_canonical v = true -> json_canonical w = true ->
  dumps canonical_opts v = Ok t -> dumps canonical_opts w = Ok t -> v = w.
Proof.
  intros Hv Hw Tv Tw. destruct (canonical_loads v Hv) as (t1 & T1 & L1), (canonical_loads w Hw) as (t2 & T2 & L2).
  congruence.
Qed.

Lemma payload_json_inj p q : payload_json p = payload_json q -> merge_sort pair_le p = merge_sort pair_le q.
Proof.
  unfold payload_json. intros [= E]. revert E. generalize (merge_sort pair_le p) (merge_sort pair_le q).
  intros l; induction l as [|[a b] l IH]; intros [|[c d] k]; cbn; try done. intros [= -> -> E]. f_equal. by apply IH.
Qed.

(** C38. The payload digest identifies the form.  The host hashes the previewed pairs of locator and value,
    the driver the pairs of the real request: the digest always exists, it does not depend on the order of
    the pairs, and equal digests mean the same pairs with the same multiplicities, or a SHA-256 collision
    between the two canonical texts. *)
Theorem payload_digest_identifies_the_form p q : exists a b, form_payload_sha256 p = Ok a /\ form_payload_sha256 q = Ok b /\
  (p ≡ₚ q -> a = b) /\
  (a = b -> p ≡ₚ q \/ exists s t, dumps compact_opts (payload_json p) = Ok s /\ dumps compact_opts (payload_json q) = Ok t /\
                                 s <> t /\ sha256 s = sha256 t).
Proof.
  destruct (canonical_loads _ (payload_canonical p)) as (s & Hs & _), (canonical_loads _ (payload_canonical q)) as (t & Ht & _).
  unfold form_payload_sha256. rewrite !payload_text, Hs, Ht. exists (sha256 s), (sha256 t). split_and!; [done|done| |].
  - intros E%sorted_pairs_eq. unfold payload_json in Hs, Ht. rewrite E, Ht in Hs. by injection Hs as ->.
  - intros E. destruct (decide (s = t)) as [->|Hne]; [left|right; by exists s, t].
    apply sorted_pairs_eq, payload_json_inj. by eapply canonical_text_inj; [apply payload_canonical..| |].
Qed.

(** ** A stored preview *)

Module DocumentScenario.
Definition change (value : string) : FieldChange :=
  {| fc_field_id := "reason"; fc_locator := "ctl:0:1"; fc_label := "Reason"; fc_old_value := ""; fc_new_value := value;
     fc_source := FieldValueSource.EVIDENCE; fc_confidence := float_of_dec false 12345675 (-8); fc_validation := FieldValidation.VALID;
     fc_evidence_sha256 := Some "e3b0" |}.
Definition preview : TransactionPreview :=
  {| tp_session_id := "s1"; tp_origin := "https://ehall.nju.edu.cn"; tp_app_id := "leave"; tp_transaction_id := "leave";
     tp_adapter_id := "leave"; tp_adapter_version := "1"; tp_page_fingerprint := "f"; tp_risk := EXTERNAL_WRITE; tp_consequences := "";
     tp_fields := [change "ill"]; tp_canonical_payload_hash := "h"; tp_nonce := "n"; tp_generated_at := seconds 1709209800 + 250;
     tp_expires_at := seconds 1709210100; tp_missing_fields := ["days"]; tp_unknown_fields := [];
     tp_attachments := [{| ap_name := "note.pdf"; ap_size_bytes := 1; ap_sha256 := sha256 "abc"; ap_media_type := "application/pdf" |}];
     tp_extension_id := "nju.ehall"; tp_extension_version := "1.0"; tp_target_action_id := "submit"; tp_target_method := "POST";
     tp_target_origin := "https://ehall.nju.edu.cn"; tp_target_path := "/leave/save" |}.
Definition descriptor : TransactionAdapterDescriptor :=
  {| ad_extension_id := "nju.ehall"; ad_extension_version := "1.0"; ad_adapter_id := "leave"; ad_adapter_version := "1";
     ad_display_name := "Leave"; ad_allowed_origins := ["https://ehall.nju.edu.cn"]; ad_allowed_paths := ["/leave"];
     ad_declared_risk := EXTERNAL_WRITE; ad_transaction_ids := ["leave"]; ad_fields := []; ad_actions := []; ad_login_paths := [];
     ad_forbidden_terms := []; ad_discovery_path := ""; ad_tracking_path := "/track"; ad_receipt_locator := ""; ad_consequences := "";
     ad_allowed_page_fingerprints := []; ad_receipt_pattern := "" |}.
Definition iso_other (s : string) : result Z := fail PyValueError s.

Lemma preview_storable : storable preview.
Proof.
  split.
  - vm_compute. reflexivity.
  - intros c Hc. apply list_elem_of_singleton in Hc as ->. vm_compute. reflexivity.
  - intros a Ha. apply list_elem_of_singleton in Ha as ->. vm_compute. reflexivity.
  - split; vm_compute; split; discriminate.
Qed.

(** Two changes of one field at one locator are sorted by neither: their order changes the digest. *)
Definition digest (fields : list FieldChange) : result string :=
  canonical_preview_sha256 "o" "a" "t" "ad" "1" "x" "1" "f" EXTERNAL_WRITE "" fields []
    {| st_action_id := ""; st_method := ""; st_origin := ""; st_path := "" |}.
Example preview_digest_depends_on_the_order_of_equal_keys :
  digest [change "a"; change "b"] <> digest [change "b"; change "a"].
Proof. vm_compute. discriminate. Qed.
End DocumentScenario.

Lemma stored_documents_read_back_witness : storable DocumentScenario.preview /\
  from_document DocumentScenario.iso_other (to_document DocumentScenario.preview)
  = Ok (DocumentScenario.preview {{ tp_fields := map stored_change (tp_fields DocumentScenario.preview) }}).
Proof.
  split; [exact DocumentScenario.preview_storable|].
  exact (proj2 (stored_documents_read_back DocumentScenario.iso_other DocumentScenario.descriptor _ DocumentScenario.preview_storable)).
Defined.
