(* ===== verification/BrowserSession.v ===== *)
(** * BrowserSession: the supervised browser session broker

    Models [BrowserSessionBroker] of [core/browser/session.py] as coroutines over the Desktop Companion,
    the session store, the adapter store, the clock and the identifier sources.  Any of them may answer
    with any exception, cancellation included. *)

From stdpp Require Import sorting.
From S2P Require Import Prelude Text PyFloat Sha256 Json JsonParse Schemas Domain Scheduling Url BrowserPolicy PyValue BrowserModels.
From S2P Require Import BrowserAdapters.
Local Open Scope string_scope.
Local Open Scope Z_scope.
Import BrowserSessionState.

Definition SESSION_TTL : Z := minutes 30.
Definition _PREVIEW_TTL : Z := seconds 300.
Definition _TERMINAL_STATES : list BrowserSessionState.t := [SUCCEEDED; FAILED; CANCELLED].
Definition _ACTIVE_STATES (s : BrowserSessionState.t) : bool := negb (mem_b s _TERMINAL_STATES).
Definition _EXPIRABLE_STATES (s : BrowserSessionState.t) : bool := _ACTIVE_STATES s && negb (mem_b s [UNKNOWN; EXECUTING]).

(** ** The ports *)

(** The arguments of [DesktopBrowserPort.click]. *)
Record click := {
  ck_session_id : string;
  ck_action_id : string;
  ck_locator : string;
  ck_receipt_locator : string;
  ck_method : string;
  ck_origin : string;
  ck_path : string;
  ck_payload_sha256 : string;
  ck_payload_locators : string
}.

Inductive brE : Type -> Type :=
(* DesktopBrowserPort *)
| CompCreate (session_id purpose : string) (allowed_origins : list string) (origin_mode task_id extension_id : string) : brE json
| CompClose (session_id : string) : brE unit
| CompCancel (session_id : string) : brE unit
| CompStatus (session_id : string) : brE json
| CompNavigate (session_id url : string) (login_paths : list string) : brE json
| CompSnapshot (session_id : string) (prohibited_terms : list string) (scan_text : bool) (login_paths : list string) : brE json
| CompFill (session_id : string) (fields : list (string * string)) : brE json
| CompFindText (session_id query : string) : brE json
| CompActivate (session_id locator expected_path : string) : brE json
| CompCollect (session_id pattern : string) (limit : Z) (url : string) : brE json
| CompClick (c : click) : brE json
| CompAclose : brE unit
(* BrowserSessionStore *)
| SessCreate (record : BrowserSessionRecord) : brE BrowserSessionRecord
| SessGet (session_id : string) : brE (option BrowserSessionRecord)
| SessSave (record : BrowserSessionRecord) (expected_version : Z) : brE BrowserSessionRecord
| SessFind (task_id : string) : brE (list BrowserSessionRecord)
| SessRecover (active_owners : list string) : brE (list string)
(* BrowserAdapterStore *)
| AdUpsert (record : BrowserAdapterRecord) : brE BrowserAdapterRecord
| AdGet (extension_id adapter_id adapter_version : string) : brE (option BrowserAdapterRecord)
| AdList (extension_id : string) : brE (list BrowserAdapterRecord)
(* the clock, [id_factory], [nonce_factory], and whether the caller was cancelled behind a shield *)
| BNow : brE time
| BId : brE string
| BNonce : brE string
| BCancelled : brE bool.

Notation now := (perform BNow).

Definition quiet {X} (p : prog brE X) : prog brE unit :=
  prog_match p (fun _ => Ret tt) (fun e => if exn_is e PyException then Ret tt else Raise e).

(** [_settle_after_cancellation]: [p] runs to its end in a task of its own; nothing escapes. *)
Definition _settle_after_cancellation {X} (p : prog brE X) : prog brE unit :=
  prog_match p (fun _ => Ret tt) (fun _ => Ret tt).

(** [policy_exn] and plain browser errors as coroutines. *)
Definition deny {A} (reason msg : string) : prog brE A := of_result (policy_fail reason msg).
Definition deny_if (b : bool) (reason msg : string) : prog brE unit := of_result (policy_if b reason msg).
Definition stop_if (b : bool) (c : exn_class) (msg : string) : prog brE unit := of_result (raise_if b c msg).
Definition stop {A} (c : exn_class) (msg : string) : prog brE A := raise_prog c msg.

(** ** What is read of the companion's answers *)

Notation mapping := (list (string * json)).

Definition malformed {A} (what : string) : result A := policy_fail "COMPANION_MALFORMED" ("companion " ++ what ++ " is malformed").
Definition _require_mapping (v : json) (what : string) : result mapping :=
  match v with JObj d => Ok d | _ => malformed what end.
Definition _require_str (v : json) (what : string) (max_length : Z) : result string :=
  match v with JStr s => if max_length <? str_len s then malformed what else Ok s | _ => malformed what end.

Definition flag (k : string) (d : mapping) : bool := py_truth (get_or k (JBool false) d).
Definition count (k : string) (d : mapping) : result Z := py_int_or0 (get_or k (JInt 0) d).

Record CompanionSessionStatus := {
  css_session_id : string;
  css_open : bool;
  css_url : string;
  css_origin : string;
  css_path : string;
  css_login_page : bool;
  css_headless : bool;
  css_browser_alive : bool;
  css_re_navigations : Z;
  css_blocked_origin_requests : Z;
  css_blocked_mutating_requests : Z;
  css_fill_operations : Z;
  css_click_operations : Z
}.

Definition read_status (session_id : string) (v : json) : result CompanionSessionStatus :=
  raw ← _require_mapping v "status";
  url ← _require_str (get_or "url" (JStr "") raw) "status url" 2048;
  origin ← _require_str (get_or "origin" (JStr "") raw) "status origin" 255;
  path ← _require_str (get_or "path" (JStr "/") raw) "status path" 2048;
  re_navigations ← count "re_navigations" raw;
  blocked_origin ← count "blocked_origin_requests" raw;
  blocked_mutating ← count "blocked_mutating_requests" raw;
  fills ← count "fill_operations" raw;
  clicks ← count "click_operations" raw;
  Ok {| css_session_id := session_id; css_open := flag "open" raw; css_url := url; css_origin := origin; css_path := path;
        css_login_page := flag "login_page" raw; css_headless := flag "headless" raw;
        css_browser_alive := flag "browser_alive" raw; css_re_navigations := re_navigations;
        css_blocked_origin_requests := blocked_origin; css_blocked_mutating_requests := blocked_mutating;
        css_fill_operations := fills; css_click_operations := clicks |}.

(** The items of a sequence; nothing for another value. *)
Definition seq_items (v : json) : list json := match v with JList l => l | _ => [] end.

(** [str(a or b or default)] *)
Definition str_of_first (a b : json) (d : string) : string :=
  if py_truth a then py_str a else if py_truth b then py_str b else d.

(** Controls by locator; a locator that occurs twice is ambiguous. *)
Fixpoint live_controls (seen : list string) (controls : list mapping) : result (list (string * mapping)) :=
  match controls with
  | [] => Ok []
  | item :: controls =>
      let locator := str_or_empty "locator" item in
      if bool_decide (locator = "") then live_controls seen controls
      else if mem_b locator seen then fail BrowserLimitError "the page has ambiguous field locators"
      else rest ← live_controls (locator :: seen) controls; Ok ((locator, item) :: rest)
  end.

Definition page_field (descriptor : option TransactionAdapterDescriptor) (entry : string * mapping) : result PageField :=
  let '(locator, item) := entry in
  let spec := match descriptor with Some d => field_spec_by_locator d locator | None => None end in
  let ty := get_or "type" JNull item in
  let tag := get_or "tag" JNull item in
  options ← py_iter (get_or "options" (JList []) item);
  max_length ← py_int_or0 (get_or "max_length" (JInt 0) item);
  Ok {| pf_field_id := match spec with Some s => fs_field_id s | None => "" end;
        pf_locator := locator;
        pf_kind := str_of_first ty tag "unknown";
        pf_value := if mem_b (lower (str_of_first ty tag "")) ["hidden"; "password"] then "" else str_or_empty "value" item;
        pf_name := str_or_empty "name" item;
        pf_required := flag "required" item;
        pf_readonly := flag "readonly" item;
        pf_options := map py_str options;
        pf_max_length := max_length;
        pf_known := match spec with Some _ => true | None => false end |}.

Definition page_action (descriptor : option TransactionAdapterDescriptor) (item : mapping) : option PageAction :=
  let locator := str_or_empty "locator" item in
  let spec := match descriptor with Some d => action_by_locator d locator | None => None end in
  if bool_decide (locator = "") then None else
  Some {| pa_action_id := match spec with Some s => as_action_id s | None => "" end;
          pa_locator := locator;
          pa_label := str_take 200 (str_or_empty "label" item);
          pa_kind := str_take 32 (py_str (get_or "kind" (JStr "other") item));
          pa_risk := match spec with Some s => as_risk s | None => EXTERNAL_WRITE end;
          pa_known := match spec with Some _ => true | None => false end |}.

Definition _parse_actions (raw : json) (descriptor : option TransactionAdapterDescriptor) : list PageAction :=
  omap (page_action descriptor) (objects (take (Z.to_nat MAX_ACTIONS) (seq_items raw))).

Definition page_signal (item : mapping) : option RiskSignal :=
  let code := str_take 64 (str_or_empty "code" item) in
  if bool_decide (code = "") then None else
  Some {| rs_code := code; rs_detail := str_take 200 (str_or_empty "detail" item);
          rs_risk := match risk_of_value (py_str (get_or "risk" (JStr "EXTERNAL_WRITE") item)) with
                     | Ok r => r
                     | Err _ => PROHIBITED
                     end |}.

Definition _parse_signals (raw : json) : list RiskSignal := omap page_signal (objects (take 64 (seq_items raw))).

Definition page_link (item : mapping) : result PageLink :=
  text ← _require_str (get_or "text" (JStr "") item) "link text" 200;
  path ← _require_str (get_or "path" (JStr "") item) "link path" 2048;
  Ok {| pl_text := text; pl_path := path |}.

(** ** Helpers at the end of the module *)

Definition _receipt_hash (v : string) : string := sha256 v.

(** [list(dict.fromkeys(l))] *)
Fixpoint dedup_first (seen l : list string) : list string :=
  match l with
  | [] => []
  | x :: l => if mem_b x seen then dedup_first seen l else x :: dedup_first (x :: seen) l
  end.

Definition str_le (a b : string) : bool := String.leb a b.

Definition _baseline_document (hashes : list string) (truncated : bool) : result string :=
  dumps compact_opts
    (JObj [("captured", JBool (negb (bool_decide (hashes = [])) || negb truncated));
           ("hashes", JList (map JStr (stable_sort str_le (dedup_first [] hashes))));
           ("truncated", JBool truncated)]).

(** [(hashes, truncated, captured)] *)
Definition _parse_baseline (text : string) : list string * bool * bool :=
  if bool_decide (text = "") then ([], false, false) else
  match loads text with
  | Ok (JObj document) =>
      match get_or "hashes" JNull document with
      | JList hashes => (omap as_str hashes, flag "truncated" document, true)
      | _ => ([], false, false)
      end
  | _ => ([], false, false)
  end.

Definition _is_expired (record : BrowserSessionRecord) (t : time) : bool :=
  negb (bs_terminal record) && (bs_expires_at record <=? t).

Definition _replace_state (record : BrowserSessionRecord) (target : BrowserSessionState.t) (t : time)
    (updates : BrowserSessionRecord -> BrowserSessionRecord) : result BrowserSessionRecord :=
  _ ← if bool_decide (target = bs_state record) then Ok tt else ensure_browser_transition (bs_state record) target;
  Ok (updates (record {{ bs_state := target; bs_updated_at := t }})).

Definition _is_transaction_page (d : TransactionAdapterDescriptor) (transaction_id path : string) : bool :=
  negb (bool_decide (transaction_id = "")) && mem_b transaction_id (ad_transaction_ids d) && mem_b path (ad_allowed_paths d).

Definition _adapter_paths (d : TransactionAdapterDescriptor) : list string :=
  foldl (fun paths extra => if bool_decide (extra = "") || mem_b extra paths then paths else (paths ++ [extra])%list)
    (ad_allowed_paths d) (ad_login_paths d ++ [ad_discovery_path d; ad_tracking_path d])%list.

Definition _label_for (d : TransactionAdapterDescriptor) (field_id : string) : string :=
  match field_spec d field_id with Some s => fs_label s | None => field_id end.

Fixpoint _split_signals (signals : list RiskSignal) : list ProhibitedMatch * list RiskSignal :=
  match signals with
  | [] => ([], [])
  | s :: signals =>
      let '(matches, others) := _split_signals signals in
      if bool_decide (rs_code s = "PROHIBITED_TERM")
      then ((map (fun c => {| pm_category := c; pm_term := codes (ProhibitedCategory.value c); pm_span := (0, 0) |})
               (List.filter (fun c => bool_decide (ProhibitedCategory.value c = rs_detail s)) ProhibitedCategory.all) ++ matches)%list, others)
      else (matches, s :: others)
  end.

(** [{item.field_id: (item.old_value, item.new_value)}]: the last change of a field counts. *)
Definition change_of (changes : list FieldChange) (field_id : string) : option (string * string) :=
  (fun c => (fc_old_value c, fc_new_value c))
    <$> List.find (fun c => bool_decide (fc_field_id c = field_id)) (reverse changes).
Definition same_changes (a b : list FieldChange) : bool :=
  forallb (fun k => bool_decide (change_of a k = change_of b k)) (map fc_field_id a ++ map fc_field_id b)%list.

Definition _plan_matches_preview (plan : FillPlan) (preview : TransactionPreview) : bool :=
  bool_decide (fp_transaction_id plan = tp_transaction_id preview)
  && bool_decide (fp_expected_page_fingerprint plan = tp_page_fingerprint preview)
  && same_changes (tp_fields preview) (fp_fields plan).

(** [hmac.compare_digest] on [str]: ASCII only. *)
Definition compare_digest (a b : string) : result bool :=
  if is_ascii (codes a) && is_ascii (codes b) then Ok (bool_decide (a = b))
  else fail PyTypeError "comparing strings with non-ASCII characters is not supported".

(** ** The broker *)

Section broker.
Context `{Unicode}.
(** [datetime.fromisoformat] on other texts, [re.compile] accepting a pattern, [re.fullmatch]. *)
Context (iso_other : string -> result Z) (re_valid : string -> bool) (re_fullmatch : string -> string -> result bool).
(** The configuration of [BrowserSessionBroker.__init__]. *)
Context (_allowed_origins : list string) (_origin_mode : string) (_limits : BrowserLimits) (_submit_enabled : bool).

Definition check_url (url : string) (allowed_paths : list string) : result NavigationDecision :=
  evaluate_navigation (codes url) (map codes _allowed_origins) (map codes allowed_paths) _origin_mode.

(** [if not decision.allowed: raise NavigationDeniedError(decision.reason)] *)
Definition allowed_url (url : string) (allowed_paths : list string) : result NavigationDecision :=
  decision ← check_url url allowed_paths;
  if nd_allowed decision then Ok decision
  else Err (policy_exn NavigationDeniedError (nd_reason decision) "").

(** [urlsplit(url)] of a URL in a record. *)
Definition split_url (url : string) : result SplitResult :=
  match urlsplit (codes url) with Some p => Ok p | None => fail PyValueError "urlsplit" end.

Definition _navigation_path (url : string) : result string :=
  parts ← split_url url;
  let path := if bool_decide (us_path parts = []) then [47] else us_path parts in
  Ok (of_codes (if bool_decide (us_fragment parts = []) then path else (path ++ 35 :: us_fragment parts)%list)).

Definition _origin (url : string) : result string :=
  parts ← split_url url;
  let host := ulower (default [] (hostname parts)) in
  match port parts with
  | None => fail PyValueError "port"
  | Some p => Ok (of_codes (origin_text host (if bool_decide (p = Some 443) then None else p)))
  end.

Definition _path_only (url : string) : result string :=
  parts ← split_url url;
  Ok (of_codes (if bool_decide (us_path parts = []) then [47] else us_path parts)).

Definition _tracking_url_matches (url origin tracking : string) : result bool :=
  match split_url url with
  | Err _ => Ok false
  | Ok parts =>
      if negb (bool_decide (us_query parts = [])) then Ok false else
      path ← _navigation_path url;
      if negb (bool_decide (path = tracking)) then Ok false else
      live ← _origin url; Ok (bool_decide (live = origin))
  end.

Definition _save (record : BrowserSessionRecord) : prog brE BrowserSessionRecord :=
  perform (SessSave record (bs_version record)).

(** [self._save(_replace_state(record, target, self._now(), ...), {})] *)
Definition move (record : BrowserSessionRecord) (target : BrowserSessionState.t)
    (updates : BrowserSessionRecord -> BrowserSessionRecord) : prog brE BrowserSessionRecord :=
  t ← now; moved ← of_result (_replace_state record target t updates); _save moved.

Definition _pause (record : BrowserSessionRecord) (code : string) : prog brE unit :=
  if bool_decide (bs_state record = SAFETY_PAUSED) then Ret tt
  else _ ← move record SAFETY_PAUSED (fun r => r {{ bs_diagnostic_code := code }}); Ret tt.

Definition _fail (record : BrowserSessionRecord) (code : string) : prog brE unit :=
  if bs_terminal record then Ret tt
  else _ ← move record FAILED (fun r => r {{ bs_diagnostic_code := code }}); Ret tt.

Definition _transition_terminal (record : BrowserSessionRecord) (target : BrowserSessionState.t) (code : string)
    : prog brE BrowserSessionRecord := move record target (fun r => r {{ bs_diagnostic_code := code }}).

Definition _require_active (record : BrowserSessionRecord) : prog brE unit :=
  let refuse := stop BrowserSessionStateError "the supervised session is not active for this step" in
  if mem_b (bs_state record) [SUCCEEDED; FAILED; CANCELLED; WAITING_USER] then refuse
  else if _EXPIRABLE_STATES (bs_state record)
       then t ← now; if _is_expired record t then refuse else Ret tt
       else Ret tt.

Definition _require_origins : prog brE unit :=
  deny_if (bool_decide (_origin_mode = "allowlist") && none_of _allowed_origins) "NO_ALLOWED_ORIGINS"
    "no browser origin is allow-listed; refusing to open a session".

Definition _expire (record : BrowserSessionRecord) (code : string) : prog brE BrowserSessionRecord :=
  if bs_terminal record then Ret record else
  _ ← quiet (perform (CompClose (bs_session_id record)));
  move record CANCELLED (fun r => r {{ bs_outcome := "EXPIRED"; bs_diagnostic_code := code }}).

Definition get_session (session_id extension_id : string) : prog brE BrowserSessionRecord :=
  found ← perform (SessGet session_id);
  match found with
  | None => stop BrowserSessionStateError "unknown browser session"
  | Some record =>
      if negb (bool_decide (bs_extension_id record = extension_id))
      then stop BrowserSessionStateError "the session belongs to another extension"
      else if _EXPIRABLE_STATES (bs_state record)
      then t ← now; if _is_expired record t then _expire record "SESSION_EXPIRED" else Ret record
      else Ret record
  end.

(** [max(candidates, key=lambda item: item.updated_at)]: the first of the latest. *)
Fixpoint latest (best : BrowserAdapterRecord) (l : list BrowserAdapterRecord) : BrowserAdapterRecord :=
  match l with
  | [] => best
  | r :: l => latest (if bar_updated_at best <? bar_updated_at r then r else best) l
  end.

Definition _require_adapter (record : BrowserSessionRecord) (adapter_id adapter_version : string)
    : prog brE TransactionAdapterDescriptor :=
  _ ← deny_if (bool_decide (adapter_id = "")) "UNKNOWN_ADAPTER" "an adapter id is required";
  _ ← deny_if (negb (bool_decide (bs_adapter_id record = "")) && negb (bool_decide (adapter_id = bs_adapter_id record)))
        "UNKNOWN_ADAPTER" "another adapter owns this session";
  let version := if bool_decide (adapter_version = "") then bs_adapter_version record else adapter_version in
  registered ← (if bool_decide (version = "")
                then all ← perform (AdList (bs_extension_id record));
                     Ret (match List.filter (fun r => bool_decide (bar_adapter_id r = adapter_id)) all with
                          | [] => None
                          | r :: l => Some (latest r l)
                          end)
                else perform (AdGet (bs_extension_id record) adapter_id version));
  match registered with
  | None => deny "UNKNOWN_ADAPTER" "the adapter is not registered"
  | Some found =>
      descriptor ← of_result (descriptor_from_document (bar_descriptor found));
      _ ← stop_if (negb (bool_decide (ad_extension_version descriptor = bs_extension_version record)))
            BrowserSessionStateError "the extension was upgraded during a supervised session";
      Ret descriptor
  end.

(** ** Reading a page *)

(** The structure of the answer, its fingerprint and its decision: everything up to the first effect. *)
Record page_reading := {
  pr_url : string;
  pr_title : string;
  pr_fingerprint : string;
  pr_decision : NavigationDecision;
  pr_controls : list mapping;
  pr_links : list mapping
}.

Definition read_page (raw : mapping) (paths : list string) : result page_reading :=
  text ← canonical_json (JObj raw);
  _ ← raise_if (bl_max_snapshot_bytes _limits <? Z.of_nat (length (utf8_encode text))) BrowserLimitError
        "the page snapshot exceeds the byte limit";
  url ← _require_str (get_or "url" (JStr "") raw) "snapshot url" 2048;
  title ← _require_str (get_or "title" (JStr "") raw) "snapshot title" 500;
  structure ← _require_mapping (get_or "structure" (JObj []) raw) "snapshot structure";
  let controls_raw := get_or "controls" (JList []) structure in
  let headings_raw := get_or "headings" (JList []) structure in
  _ ← policy_if (negb (is_sequence controls_raw) || negb (is_sequence headings_raw)) "COMPANION_MALFORMED"
        "snapshot structure is malformed";
  let size := match controls_raw with JList l => Z.of_nat (length l) | JStr s => str_len s | _ => 0 end in
  _ ← raise_if (bl_max_fields _limits * 8 <? size) BrowserLimitError "the page has too many controls";
  let controls := objects (seq_items controls_raw) in
  let links := objects (take 128 (seq_items (get_or "links" (JList []) raw))) in
  let forms := objects (take 32 (seq_items (get_or "forms" (JList []) structure))) in
  let hidden := objects (take 512 (seq_items (get_or "hidden_fields" (JList []) structure))) in
  document ← page_structure_document controls (objects (seq_items headings_raw)) links forms hidden;
  fingerprint ← compute_page_fingerprint document;
  decision ← allowed_url url paths;
  Ok {| pr_url := url; pr_title := title; pr_fingerprint := fingerprint; pr_decision := decision;
        pr_controls := controls; pr_links := links |}.

(** The state that a page with or without a login form moves the session to. *)
Definition page_state (login_page : bool) (s : BrowserSessionState.t) : BrowserSessionState.t :=
  if login_page && mem_b s [REQUESTED; AUTHENTICATED; DISCOVERED; PREPARING; PREVIEW_READY] then WAITING_USER
  else if negb login_page && mem_b s [REQUESTED; WAITING_USER] then AUTHENTICATED
  else s.

Definition prohibit {A} (reason msg : string) : prog brE A := Raise (policy_exn ProhibitedTransactionError reason msg).

Definition _snapshot_impl (record : BrowserSessionRecord) (descriptor : option TransactionAdapterDescriptor)
    (transaction_id : string) : prog brE PageSnapshot :=
  let terms := match descriptor with Some d => ad_forbidden_terms d | None => [] end in
  let login_paths := match descriptor with Some d => ad_login_paths d | None => [] end in
  let known := match descriptor with Some _ => true | None => false end in
  answer ← perform (CompSnapshot (bs_session_id record) terms known login_paths);
  raw ← of_result (_require_mapping answer "snapshot");
  page ← of_result (read_page raw (match descriptor with Some d => _adapter_paths d | None => [] end));
  _ ← match descriptor with
      | None => Ret tt
      | Some d =>
          if _is_transaction_page d transaction_id (of_codes (nd_path (pr_decision page)))
             && negb (mem_b (pr_fingerprint page) (ad_allowed_page_fingerprints d))
          then _ ← _pause record "UNKNOWN_PAGE_VERSION";
               prohibit "UNKNOWN_PAGE_VERSION" "the live page version is not in the adapter's verified fingerprint set"
          else if flag "scan_incomplete" raw
          then _ ← _pause record "PAGE_TEXT_SCAN_INCOMPLETE";
               prohibit "PAGE_TEXT_SCAN_INCOMPLETE" "the page text could not be fully scanned; failing closed"
          else Ret tt
      end;
  fields ← of_result (live ← live_controls [] (pr_controls page); result_map (page_field descriptor) live);
  let actions := _parse_actions (get_or "actions" (JList []) raw) descriptor in
  let signals := _parse_signals (get_or "signals" (JList []) raw) in
  let login_page := flag "login_page" raw in
  t ← now;
  let state := page_state login_page (bs_state record) in
  origin ← of_result (_origin (pr_url page));
  _ ← (if negb (bool_decide (state = bs_state record)) || negb (bool_decide (bs_url record = pr_url page))
          || negb (bool_decide (bs_origin record = origin))
       then moved ← of_result (_replace_state record state t (fun r => r {{ bs_url := pr_url page; bs_origin := origin }}));
            _ ← _save moved; Ret tt
       else Ret tt);
  path ← of_result (_path_only (pr_url page));
  links ← of_result (result_map page_link (pr_links page));
  text_digest ← of_result (_require_str (get_or "text_digest" (JStr "") raw) "text digest" 64);
  byte_size ← of_result (count "byte_size" raw);
  Ret {| ps_session_id := bs_session_id record; ps_url := pr_url page; ps_origin := origin; ps_path := path;
         ps_title := pr_title page; ps_fingerprint := pr_fingerprint page; ps_captured_at := t; ps_fields := fields;
         ps_actions := actions; ps_signals := signals; ps_links := links; ps_text_digest := text_digest;
         ps_byte_size := byte_size; ps_truncated := flag "truncated" raw; ps_scan_incomplete := flag "scan_incomplete" raw;
         ps_authenticated := negb login_page |}.

(** [assess_risk] of what the page showed, for a known transaction on a known page. *)
Definition page_risk (d : TransactionAdapterDescriptor) (signals : list RiskSignal) : RiskAssessment :=
  let '(matches, others) := _split_signals signals in assess_risk (ad_declared_risk d) matches others true true.
Definition escalated (d : TransactionAdapterDescriptor) (signals : list RiskSignal) : bool :=
  let risk := page_risk d signals in
  prohibited risk || (risk_rank (ad_declared_risk d) <? risk_rank (ra_risk risk)).

(** ** Sessions and adapters *)

(** The candidates that are still active; expired ones are released. *)
Fixpoint still_active (t : time) (candidates : list BrowserSessionRecord) : prog brE (list BrowserSessionRecord) :=
  match candidates with
  | [] => Ret []
  | c :: candidates =>
      if negb (_ACTIVE_STATES (bs_state c)) then still_active t candidates
      else if _EXPIRABLE_STATES (bs_state c) && _is_expired c t
      then _ ← _expire c "SESSION_EXPIRED"; still_active t candidates
      else rest ← still_active t candidates; Ret (c :: rest)
  end.

Fixpoint first_usable (extension_id : string) (t : time) (e : exn) (candidates : list BrowserSessionRecord)
    : prog brE BrowserSessionRecord :=
  match candidates with
  | [] => Raise e
  | c :: candidates =>
      if _ACTIVE_STATES (bs_state c) && negb (_is_expired c t)
      then _ ← stop_if (negb (bool_decide (bs_extension_id c = extension_id))) BrowserLimitError
                 "a task already owns an active browser session";
           Ret c
      else first_usable extension_id t e candidates
  end.

Definition new_session (session_id task_id extension_id extension_version purpose owner_id : string) (t : time) : BrowserSessionRecord :=
  {| bs_session_id := session_id; bs_task_id := task_id; bs_extension_id := extension_id;
     bs_extension_version := extension_version; bs_purpose := purpose; bs_state := REQUESTED; bs_created_at := t;
     bs_updated_at := t; bs_expires_at := t + SESSION_TTL; bs_version := 0; bs_origin := ""; bs_url := "";
     bs_adapter_id := ""; bs_adapter_version := ""; bs_app_id := ""; bs_transaction_id := ""; bs_page_fingerprint := "";
     bs_preview_hash := ""; bs_preview_nonce := ""; bs_preview := None; bs_outcome := ""; bs_receipt := None;
     bs_diagnostic_code := ""; bs_re_navigations := 0; bs_visited_paths := []; bs_receipt_baseline := "";
     bs_fill_count := 0; bs_submit_count := 0; bs_apps_count := 0; bs_owner_id := owner_id |}.

(** [payload.get(...)] of a value that is not a mapping raises [AttributeError]. *)
Definition attributes (v : json) : result mapping :=
  match v with JObj d => Ok d | _ => fail PyException "object has no attribute 'get'" end.

Definition open_window (created : BrowserSessionRecord) : prog brE BrowserSessionRecord :=
  payload ← prog_try
    (perform (CompCreate (bs_session_id created) (bs_purpose created) (stable_sort str_le _allowed_origins) _origin_mode
       (bs_task_id created) (bs_extension_id created)))
    (fun e => _ ← move created CANCELLED (fun r => r); Raise e);
  d ← of_result (attributes payload);
  url ← of_result (_require_str (get_or "url" (JStr "") d) "session url" 2048);
  origin ← of_result (_require_str (get_or "origin" (JStr "") d) "session origin" 255);
  _ ← (if negb (bool_decide (url = "")) && negb (bool_decide (url = "about:blank"))
       then _ ← of_result (check_url url []); Ret tt else Ret tt);
  _save (created {{ bs_url := url; bs_origin := origin }}).

Definition create_session (task_id extension_id extension_version purpose owner_id : string) : prog brE BrowserSessionRecord :=
  _ ← _require_origins;
  _ ← deny_if (bool_decide (task_id = "") || bool_decide (extension_id = "")) "INVALID_SESSION_REQUEST" "task and extension are required";
  _ ← deny_if (bool_decide (purpose = "") || (500 <? str_len purpose)) "INVALID_SESSION_REQUEST" "a purpose is required";
  t ← now;
  candidates ← perform (SessFind task_id);
  existing ← still_active t candidates;
  match existing with
  | record :: _ =>
      _ ← stop_if (negb (bool_decide (bs_extension_id record = extension_id))) BrowserLimitError
            "a task already owns an active browser session";
      Ret record
  | [] =>
      session_id ← perform BId;
      prog_match (perform (SessCreate (new_session session_id task_id extension_id extension_version purpose owner_id t)))
        open_window
        (fun e => if exn_is e AlreadyExistsError
                  then again ← perform (SessFind task_id); first_usable extension_id t e again
                  else Raise e)
  end.

Definition register_adapter (descriptor : TransactionAdapterDescriptor) : prog brE BrowserAdapterRecord :=
  _ ← of_result (validate_adapter_descriptor re_valid _allowed_origins _origin_mode descriptor);
  let document := _descriptor_document descriptor in
  t ← now;
  existing ← perform (AdGet (ad_extension_id descriptor) (ad_adapter_id descriptor) (ad_adapter_version descriptor));
  perform (AdUpsert {| bar_extension_id := ad_extension_id descriptor; bar_extension_version := ad_extension_version descriptor;
    bar_adapter_id := ad_adapter_id descriptor; bar_adapter_version := ad_adapter_version descriptor;
    bar_descriptor := document;
    bar_created_at := match existing with Some r => bar_created_at r | None => t end;
    bar_updated_at := t;
    bar_version := match existing with Some r => bar_version r + 1 | None => 0 end |}).

Definition list_adapters (extension_id : string) : prog brE (list BrowserAdapterRecord) := perform (AdList extension_id).

Definition broker_classify_labels (labels : list json) (forbidden_terms : list string)
    : prog brE (list (string * list ProhibitedMatch)) :=
  _ ← stop_if (64 <? Z.of_nat (length labels)) BrowserLimitError "too many labels to classify";
  Ret (map (fun l => (l, scan_text_for_prohibited_terms (codes l) (map codes forbidden_terms) MAX_SCAN_CHARS))
         (map (str_take 500) (omap as_str labels))).

Definition session_status (session_id extension_id : string) : prog brE (BrowserSessionRecord * CompanionSessionStatus) :=
  record ← get_session session_id extension_id;
  raw ← perform (CompStatus session_id);
  status ← of_result (read_status session_id raw);
  Ret (record, status).

Definition navigate (session_id extension_id adapter_id transaction_id url : string) : prog brE PageSnapshot :=
  record ← get_session session_id extension_id;
  _ ← stop_if (mem_b (bs_state record) _TERMINAL_STATES) BrowserSessionStateError
        "the supervised session is not active for this step";
  descriptor ← _require_adapter record adapter_id "";
  decision ← of_result (allowed_url url (_adapter_paths descriptor));
  let path := of_codes (nd_path decision) in
  let repeated := mem_b path (bs_visited_paths record) in
  _ ← stop_if (repeated && (bl_max_renavigations _limits <=? bs_re_navigations record)) BrowserLimitError
        "the session reached its re-navigation limit";
  answer ← perform (CompNavigate session_id url (ad_login_paths descriptor));
  payload ← of_result (_require_mapping answer "navigation");
  let login_page := flag "login_page" payload in
  t ← now;
  live ← of_result (_require_str (get_or "url" (JStr url) payload) "navigation url" 2048);
  let target := if login_page && mem_b (bs_state record) [REQUESTED; AUTHENTICATED] then WAITING_USER
                else if negb login_page && bool_decide (bs_state record = WAITING_USER) then AUTHENTICATED
                else bs_state record in
  moved ← of_result (_replace_state record target t (fun r => r {{
    bs_url := live; bs_origin := of_codes (nd_origin decision);
    bs_re_navigations := bs_re_navigations r + (if repeated then 1 else 0);
    bs_visited_paths := if repeated then bs_visited_paths r else (bs_visited_paths r ++ [path])%list }}));
  saved ← _save moved;
  _snapshot_impl saved (Some descriptor) transaction_id.

Definition snapshot (session_id extension_id adapter_id transaction_id : string) : prog brE (PageSnapshot * RiskAssessment) :=
  record ← get_session session_id extension_id;
  _ ← _require_active record;
  descriptor ← (if bool_decide (adapter_id = "") then Ret None
                else d ← _require_adapter record adapter_id ""; Ret (Some d));
  page ← _snapshot_impl record descriptor transaction_id;
  Ret (page, match descriptor with
             | None => assess_risk READ [] [] true true
             | Some d => page_risk d (ps_signals page)
             end).

Definition find_text (session_id extension_id query : string) : prog brE mapping :=
  record ← get_session session_id extension_id;
  _ ← _require_active record;
  _ ← stop_if (bool_decide (query = "") || (200 <? str_len query)) BrowserLimitError "a text query must be 1-200 characters";
  answer ← perform (CompFindText session_id query);
  raw ← of_result (_require_mapping answer "text search");
  n ← of_result (count "count" raw);
  excerpt ← of_result (_require_str (get_or "excerpt" (JStr "") raw) "text excerpt" 500);
  Ret [("found", JBool (flag "found" raw)); ("count", JInt n); ("excerpt", JStr excerpt)].

Definition record_discovery (session_id extension_id : string) (app_count : Z) : prog brE BrowserSessionRecord :=
  record ← get_session session_id extension_id;
  _ ← stop_if ((app_count <? 0) || (500 <? app_count)) BrowserLimitError "invalid discovered app count";
  t ← now;
  if mem_b (bs_state record) [REQUESTED; AUTHENTICATED]
  then moved ← of_result (_replace_state record DISCOVERED t (fun r => r {{ bs_apps_count := app_count }})); _save moved
  else if bool_decide (bs_state record = DISCOVERED)
  then _save (record {{ bs_updated_at := t; bs_apps_count := app_count }})
  else stop BrowserSessionStateError "discovery is not valid in the current state".

Definition record_preparation (session_id extension_id adapter_id adapter_version app_id transaction_id page_fingerprint : string)
    (planned_fields : Z) : prog brE BrowserSessionRecord :=
  record ← get_session session_id extension_id;
  _ ← _require_active record;
  _ ← stop_if ((planned_fields <? 0) || (bl_max_fields _limits <? planned_fields)) BrowserLimitError "invalid planned field count";
  registered ← perform (AdGet extension_id adapter_id adapter_version);
  _ ← deny_if (match registered with None => true | Some _ => false end) "UNKNOWN_ADAPTER" "the adapter version is not registered";
  _ ← stop_if (negb (mem_b (bs_state record) [AUTHENTICATED; DISCOVERED; PREPARING; PREVIEW_READY; SAFETY_PAUSED]))
        BrowserSessionStateError "preparation is not valid in the current state";
  move record PREPARING (fun r => r {{ bs_adapter_id := adapter_id; bs_adapter_version := adapter_version; bs_app_id := app_id;
    bs_transaction_id := transaction_id; bs_page_fingerprint := page_fingerprint; bs_preview_hash := "";
    bs_preview_nonce := ""; bs_preview := None }}).

(** ** Opening a transaction *)

Definition execute_navigation (session_id extension_id adapter_id transaction_id : string) : prog brE mapping :=
  record ← get_session session_id extension_id;
  _ ← _require_active record;
  _ ← stop_if (negb (mem_b (bs_state record) [AUTHENTICATED; DISCOVERED])) BrowserSessionStateError
        "opening a transaction requires an authenticated or discovered session";
  descriptor ← _require_adapter record adapter_id "";
  _ ← deny_if (negb (mem_b transaction_id (ad_transaction_ids descriptor))) "UNKNOWN_TRANSACTION" "the transaction is not registered";
  match navigation_action descriptor transaction_id with
  | None => deny "NAVIGATION_NOT_DECLARED" "the adapter declares no navigation action for this transaction"
  | Some action =>
      page ← _snapshot_impl record (Some descriptor) "";
      let live := List.find (fun a => bool_decide (pa_locator a = as_locator action)) (ps_actions page) in
      _ ← (if match live with Some a => bool_decide (pa_label a = as_label action) | None => false end then Ret tt
           else _ ← _pause record "NAVIGATION_ACTION_DRIFT";
                stop PageDriftError "the navigation action is not on the live page as declared");
      answer ← perform (CompActivate session_id (as_locator action) (as_navigates_to_path action));
      raw ← of_result (_require_mapping answer "navigation activation");
      blocked ← of_result (count "blocked_mutating_requests" raw);
      _ ← (if 0 <? blocked
           then _ ← _pause record "NAVIGATION_WRITE_BLOCKED";
                deny "NAVIGATION_WRITE_BLOCKED" "a page-initiated write was blocked during the navigation action"
           else Ret tt);
      landed ← of_result (_require_str (get_or "url" (JStr "") raw) "landing url" 2048);
      landing_path ← of_result (_navigation_path landed);
      _ ← (if bool_decide (landing_path = as_navigates_to_path action) then Ret tt
           else _ ← _pause record "NAVIGATION_MISMATCH"; stop PageDriftError "the navigation action landed on an unexpected path");
      landing ← _snapshot_impl record (Some descriptor) transaction_id;
      live_path ← of_result (_navigation_path (ps_url landing));
      _ ← (if bool_decide (live_path = as_navigates_to_path action) then Ret tt
           else _ ← _pause record "NAVIGATION_MISMATCH"; stop PageDriftError "the live page moved after the navigation action");
      record ← get_session session_id extension_id;
      t ← now;
      _ ← _save (record {{ bs_url := ps_url landing; bs_adapter_id := adapter_id;
            bs_adapter_version := ad_adapter_version descriptor; bs_transaction_id := transaction_id;
            bs_page_fingerprint := ps_fingerprint landing;
            bs_visited_paths := dedup_first [] (bs_visited_paths record ++ [as_navigates_to_path action])%list;
            bs_updated_at := t }});
      Ret [("session_id", JStr session_id); ("transaction_id", JStr transaction_id); ("url", JStr (ps_url landing));
           ("path", JStr (as_navigates_to_path action)); ("page_fingerprint", JStr (ps_fingerprint landing));
           ("state", JStr (value (bs_state record)))]
  end.

(** ** Filling *)

Definition verify_change (d : TransactionAdapterDescriptor) (page : PageSnapshot) (c : FieldChange) : result unit :=
  match field_spec d (fc_field_id c) with
  | None => policy_fail "UNKNOWN_FIELD" "the plan contains an unknown field"
  | Some spec =>
      _ ← raise_if (negb (bool_decide (fs_locator spec = fc_locator c))) PageDriftError
            "the planned locator no longer matches the adapter";
      match field_by_id page (fc_field_id c) with
      | None => fail PageDriftError "a planned field is missing from the live page"
      | Some live =>
          _ ← raise_if (negb (bool_decide (pf_value live = fc_old_value c))) PageDriftError
                "a field changed since the preview was planned";
          if bool_decide (fc_new_value c = "")
          then policy_if (fs_required spec) "MISSING_REQUIRED_FIELD" "a required field is empty"
          else
            _ ← policy_if (negb (fs_max_length spec =? 0) && (fs_max_length spec <? str_len (fc_new_value c)))
                  "INVALID_FIELD_VALUE" "a value exceeds its limit";
            matched ← (if bool_decide (fs_pattern spec = "") then Ok true else re_fullmatch (fs_pattern spec) (fc_new_value c));
            _ ← policy_if (negb matched) "INVALID_FIELD_VALUE" "a value fails validation";
            policy_if (negb (none_of (pf_options live)) && negb (mem_b (fc_new_value c) (pf_options live)))
              "INVALID_FIELD_VALUE" "a select value is not an option"
      end
  end.

Definition _verify_fields (d : TransactionAdapterDescriptor) (plan : FillPlan) (page : PageSnapshot) : result unit :=
  _ ← raise_if (count_over (fp_fields plan) (bl_max_fields _limits)) BrowserLimitError "the fill plan exceeds the field limit";
  _ ← raise_if (count_over (fp_attachments plan) (bl_max_attachments _limits)) BrowserLimitError
        "the fill plan exceeds the attachment limit";
  _ ← raise_if (existsb (fun a => bl_max_attachment_bytes _limits <? ap_size_bytes a) (fp_attachments plan)) BrowserLimitError
        "an attachment exceeds the size limit";
  _ ← result_iter (verify_change d page) (fp_fields plan);
  _ ← policy_if (existsb (fun spec => fs_required spec && negb (mem_b (fs_field_id spec) (field_ids plan))) (ad_fields d))
        "MISSING_REQUIRED_FIELD" "a required field is missing";
  policy_if (existsb (fun f => negb (pf_known f) && negb (mem_b (pf_kind f) ["hidden"; "button"; "submit"])) (ps_fields page))
    "UNKNOWN_FIELD" "the live page contains fields the adapter does not know".

Definition previewed_change (d : TransactionAdapterDescriptor) (c : FieldChange) : result FieldChange :=
  make_change (c {{ fc_label := if bool_decide (fc_label c = "") then _label_for d (fc_field_id c) else fc_label c;
                    fc_validation := if bool_decide (fc_new_value c = "") then FieldValidation.MISSING else FieldValidation.VALID }}).

Definition target_of (d : TransactionAdapterDescriptor) : SubmitTarget :=
  match final_action d with
  | Some a => {| st_action_id := as_action_id a; st_method := as_method a; st_origin := as_target_origin a; st_path := as_target_path a |}
  | None => {| st_action_id := ""; st_method := ""; st_origin := ""; st_path := "" |}
  end.

Definition _build_preview (record : BrowserSessionRecord) (d : TransactionAdapterDescriptor) (plan : FillPlan) (page : PageSnapshot)
    : prog brE TransactionPreview :=
  t ← now;
  changes ← of_result (result_map (previewed_change d) (fp_fields plan));
  let missing := map fs_field_id (List.filter (fun s => fs_required s && negb (mem_b (fs_field_id s) (field_ids plan))) (ad_fields d)) in
  attachments ← of_result (result_map (fun a => make_attachment (a {{ ap_sha256 := lower (ap_sha256 a) }})) (fp_attachments plan));
  let consequences := if bool_decide (fp_consequences plan = "") then ad_consequences d else fp_consequences plan in
  let target := target_of d in
  digest ← of_result (canonical_preview_sha256 (ps_origin page) (fp_app_id plan) (fp_transaction_id plan) (ad_adapter_id d)
    (ad_adapter_version d) (ad_extension_id d) (ad_extension_version d) (ps_fingerprint page) (ad_declared_risk d) consequences
    changes attachments target);
  nonce ← perform BNonce;
  of_result (make_preview {| tp_session_id := bs_session_id record; tp_origin := ps_origin page; tp_app_id := fp_app_id plan;
    tp_transaction_id := fp_transaction_id plan; tp_adapter_id := ad_adapter_id d; tp_adapter_version := ad_adapter_version d;
    tp_page_fingerprint := ps_fingerprint page; tp_risk := ad_declared_risk d; tp_consequences := consequences;
    tp_fields := changes; tp_canonical_payload_hash := digest; tp_nonce := nonce; tp_generated_at := t;
    tp_expires_at := t + _PREVIEW_TTL; tp_missing_fields := missing; tp_unknown_fields := []; tp_attachments := attachments;
    tp_extension_id := ad_extension_id d; tp_extension_version := ad_extension_version d; tp_target_action_id := st_action_id target;
    tp_target_method := st_method target; tp_target_origin := st_origin target; tp_target_path := st_path target |}).

(** The page shows every planned value that differs from the old one. *)
Definition accepted (page : PageSnapshot) (c : FieldChange) : bool :=
  bool_decide (fc_new_value c = fc_old_value c)
  || match field_by_id page (fc_field_id c) with Some live => bool_decide (pf_value live = fc_new_value c) | None => false end.

Definition changed_fields (plan : FillPlan) : list (string * string) :=
  map (fun c => (fc_locator c, fc_new_value c))
    (List.filter (fun c => negb (bool_decide (fc_new_value c = fc_old_value c))) (fp_fields plan)).

(** A repeated fill answers with the stored preview. *)
Definition stored_preview (record : BrowserSessionRecord) (plan : FillPlan) : prog brE TransactionPreview :=
  match bs_preview record with
  | Some document =>
      if bool_decide (bs_preview_hash record = "") then stop BrowserSessionStateError "the session has no stored preview" else
      stored ← of_result (from_document iso_other document);
      if _plan_matches_preview plan stored then Ret stored
      else _ ← _pause record "REPEATED_FILL_DRIFT"; stop PageDriftError "a repeated fill does not match the stored preview"
  | None => stop BrowserSessionStateError "the session has no stored preview"
  end.

(** The fields verified, with a pause for a field the adapter does not know. *)
Definition verify_or_pause (record : BrowserSessionRecord) (d : TransactionAdapterDescriptor) (plan : FillPlan) (page : PageSnapshot)
    : prog brE unit :=
  match _verify_fields d plan page with
  | Ok _ => Ret tt
  | Err e => if exn_is e BrowserPolicyError && bool_decide (exn_ref e = Some "UNKNOWN_FIELD")
             then _ ← _pause record "UNKNOWN_FIELD"; Raise e else Raise e
  end.

Definition fill_page (session_id : string) (record : BrowserSessionRecord) (d : TransactionAdapterDescriptor) (plan : FillPlan)
    (page : PageSnapshot) : prog brE PageSnapshot :=
  match changed_fields plan with
  | [] => Ret page
  | changed =>
      _ ← perform (CompFill session_id changed);
      after ← _snapshot_impl record (Some d) (fp_transaction_id plan);
      if forallb (accepted after) (fp_fields plan) then Ret after
      else _ ← _fail record "FILL_VERIFICATION_FAILED"; deny "FILL_VERIFICATION_FAILED" "the page did not accept a planned value"
  end.

Definition pause_if_escalated (record : BrowserSessionRecord) (d : TransactionAdapterDescriptor) (page : PageSnapshot) : prog brE unit :=
  if escalated d (ps_signals page)
  then _ ← _pause record "PROHIBITED_SEMANTICS"; prohibit "PROHIBITED_SEMANTICS" ""
  else Ret tt.

Definition fill_prepared (session_id : string) (record : BrowserSessionRecord) (plan : FillPlan) : prog brE TransactionPreview :=
  _ ← stop_if (negb (bool_decide (bs_state record = PREPARING))) BrowserSessionStateError "fill requires a prepared session";
  d ← _require_adapter record (fp_adapter_id plan) (fp_adapter_version plan);
  _ ← deny_if (negb (mem_b (fp_transaction_id plan) (ad_transaction_ids d))) "UNKNOWN_TRANSACTION" "the transaction is not registered";
  page ← _snapshot_impl record (Some d) (fp_transaction_id plan);
  decision ← of_result (allowed_url (ps_url page) (_adapter_paths d));
  _ ← stop_if (negb (bool_decide (of_codes (nd_origin decision) = fp_expected_origin plan))) PageDriftError
        "the page origin changed since the preview was planned";
  _ ← (if bool_decide (ps_fingerprint page = fp_expected_page_fingerprint plan) then Ret tt
       else _ ← _pause record "PAGE_FINGERPRINT_DRIFT"; stop PageDriftError "the page structure changed since it was inspected");
  _ ← pause_if_escalated record d page;
  _ ← verify_or_pause record d plan page;
  page ← fill_page session_id record d plan page;
  preview ← _build_preview record d plan page;
  _ ← move record PREVIEW_READY (fun r => r {{ bs_page_fingerprint := ps_fingerprint page;
        bs_preview := Some (to_document preview); bs_preview_hash := tp_canonical_payload_hash preview;
        bs_preview_nonce := tp_nonce preview; bs_fill_count := bs_fill_count r + 1 }});
  Ret preview.

Definition execute_fill (session_id task_id extension_id : string) (plan : FillPlan) : prog brE TransactionPreview :=
  record ← get_session session_id extension_id;
  _ ← stop_if (negb (bool_decide (bs_task_id record = task_id))) BrowserSessionStateError "the session belongs to another task";
  if mem_b (bs_state record) [PREVIEW_READY; APPROVED] then stored_preview record plan
  else fill_prepared session_id record plan.

(** ** Reconciliation *)

Definition tracking_url (d : TransactionAdapterDescriptor) : result string :=
  match ad_allowed_origins d with
  | [] => fail PyIndexError "tuple index out of range"
  | o :: _ => Ok (o ++ ad_tracking_path d)
  end.
Definition tracked (d : TransactionAdapterDescriptor) : bool :=
  negb (bool_decide (ad_tracking_path d = "")) && negb (bool_decide (ad_receipt_pattern d = "")).

(** One collection on the tracking page: whether the live URL is exactly the declared one, and the answer. *)
Definition collect_tracking (session_id : string) (d : TransactionAdapterDescriptor) (limit : Z) : prog brE (bool * mapping) :=
  url ← of_result (tracking_url d);
  _ ← of_result (allowed_url url (_adapter_paths d));
  answer ← perform (CompCollect session_id (ad_receipt_pattern d) limit url);
  collected ← of_result (_require_mapping answer "tracking matches");
  live ← of_result (_require_str (get_or "url" (JStr "") collected) "tracking url" 2048);
  same ← of_result (_tracking_url_matches live (default "" (head (ad_allowed_origins d))) (ad_tracking_path d));
  Ret (same, collected).

Definition collected_matches (collected : mapping) : result (list string) :=
  l ← py_iter (get_or "matches" (JList []) collected); Ok (map (str_take 128) (omap as_str l)).

Definition _tracking_baseline (record : BrowserSessionRecord) (d : TransactionAdapterDescriptor) : prog brE (list string * bool) :=
  if negb (tracked d) then Ret ([], false) else
  found ← collect_tracking (bs_session_id record) d 128;
  _ ← deny_if (negb found.1) "TRACKING_URL_MISMATCH" "the tracking page redirected away from its declared target";
  matches ← of_result (collected_matches found.2);
  Ret (map _receipt_hash matches, flag "truncated" found.2).

(** [self._save(replace(record, updated_at=t, diagnostic_code=code), {})] *)
Definition diagnose (record : BrowserSessionRecord) (code : string) (t : time) : prog brE BrowserSessionRecord :=
  _save (record {{ bs_updated_at := t; bs_diagnostic_code := code }}).

Definition receipt_of (record : BrowserSessionRecord) (d : TransactionAdapterDescriptor) (reference : string) (t : time) : mapping :=
  [("reference", JStr reference); ("issued_by", JStr "host_tracking"); ("session_id", JStr (bs_session_id record));
   ("transaction_id", JStr (bs_transaction_id record)); ("adapter_id", JStr (ad_adapter_id d));
   ("adapter_version", JStr (ad_adapter_version d)); ("reference_sha256", JStr (_receipt_hash reference));
   ("observed_at", JStr (isoformat t))].

(** The references on the page that were not there before the click. *)
Definition fresh_references (baseline matches : list string) : list string :=
  dedup_first [] (List.filter (fun m => negb (mem_b (_receipt_hash m) baseline)) matches).

Definition conclude (record : BrowserSessionRecord) (d : TransactionAdapterDescriptor) (collected : mapping) : prog brE BrowserSessionRecord :=
  matches ← of_result (collected_matches collected);
  let '(baseline, baseline_truncated, captured) := _parse_baseline (bs_receipt_baseline record) in
  t ← now;
  if negb captured || baseline_truncated || flag "truncated" collected then diagnose record "RECONCILE_UNSAFE" t
  else match fresh_references baseline matches with
       | [reference] =>
           moved ← of_result (_replace_state record SUCCEEDED t (fun r => r {{ bs_outcome := "SUCCEEDED";
             bs_receipt := Some (receipt_of record d reference t); bs_diagnostic_code := "RECONCILED" }}));
           _save moved
       | [] => diagnose record "RECONCILE_NOT_FOUND" t
       | _ => diagnose record "RECONCILE_AMBIGUOUS" t
       end.

Definition reconcile (session_id extension_id : string) : prog brE BrowserSessionRecord :=
  record ← get_session session_id extension_id;
  _ ← stop_if (negb (bool_decide (bs_state record = UNKNOWN))) BrowserSessionStateError "only an UNKNOWN session can be reconciled";
  d ← _require_adapter record (bs_adapter_id record) (bs_adapter_version record);
  _ ← deny_if (negb (tracked d)) "TRACKING_NOT_CONFIGURED" "the adapter declares no tracking page";
  found ← collect_tracking session_id d 256;
  if negb found.1 then t ← now; diagnose record "RECONCILE_UNSAFE" t
  else conclude record d found.2.

(** ** Submitting *)

Definition unknown_outcome (code : string) : SubmissionOutcome :=
  {| so_state := UNKNOWN; so_receipt := None; so_reference := ""; so_diagnostic_code := code |}.

Definition _converge_submission (session_id extension_id : string) : prog brE SubmissionOutcome :=
  prog_match (reconcile session_id extension_id)
    (fun record =>
       Ret (match bs_state record, bs_receipt record with
            | SUCCEEDED, Some ((_ :: _) as receipt) =>
                {| so_state := SUCCEEDED; so_receipt := Some receipt; so_reference := str_or_empty "reference" receipt;
                   so_diagnostic_code := "" |}
            | _, _ => unknown_outcome (if bool_decide (bs_diagnostic_code record = "") then "SUBMIT_OUTCOME_UNKNOWN"
                                       else bs_diagnostic_code record)
            end))
    (fun e => if exn_is e PyException then Ret (unknown_outcome "SUBMIT_UNVERIFIED") else Raise e).

Definition _mark_submit_unknown_and_converge (executing : BrowserSessionRecord) (session_id extension_id code : string)
    : prog brE SubmissionOutcome :=
  prog_match (_transition_terminal executing UNKNOWN code)
    (fun _ => _converge_submission session_id extension_id)
    (fun e => if exn_is e PyException
              then stop UnknownBrowserOutcomeError "the submit may have reached the site; UNKNOWN persistence failed"
              else Raise e).

(** The settlement runs in a task of its own behind [asyncio.shield]; a cancelled caller waits for it. *)
Definition _settle_submit_outcome (executing : BrowserSessionRecord) (session_id extension_id code : string)
    : prog brE SubmissionOutcome :=
  let settlement := _mark_submit_unknown_and_converge executing session_id extension_id code in
  prog_match settlement
    (fun outcome => gone ← perform BCancelled; if (gone : bool) then Raise cancelled else Ret outcome)
    (fun e => gone ← perform BCancelled; if (gone : bool) then Raise cancelled else Raise e).

Definition click_of (session_id : string) (d : TransactionAdapterDescriptor) (final : AdapterActionSpec) (preview : TransactionPreview)
    : result click :=
  payload ← form_payload_sha256 (map (fun c => (fc_locator c, fc_new_value c)) (tp_fields preview));
  Ok {| ck_session_id := session_id; ck_action_id := as_action_id final; ck_locator := as_locator final;
        ck_receipt_locator := ad_receipt_locator d; ck_method := as_method final; ck_origin := as_target_origin final;
        ck_path := as_target_path final; ck_payload_sha256 := payload;
        ck_payload_locators := str_join "," (map fc_locator (tp_fields preview)) |}.

(** What the [try] block does: [None] unless the server rejected the submission. *)
Definition click_and_read (executing : BrowserSessionRecord) (session_id : string) (d : TransactionAdapterDescriptor)
    (final : AdapterActionSpec) (preview : TransactionPreview) : prog brE (option SubmissionOutcome) :=
  c ← of_result (click_of session_id d final preview);
  raw ← perform (CompClick c);
  result ← of_result (_require_mapping raw "click result");
  outcome ← of_result (_require_str (get_or "outcome" (JStr "UNKNOWN") result) "click outcome" 32);
  if bool_decide (outcome = "REJECTED")
  then _ ← move executing FAILED (fun r => r {{ bs_outcome := "FAILED"; bs_diagnostic_code := "SERVER_REJECTED" }});
       Ret (Some {| so_state := FAILED; so_receipt := None; so_reference := ""; so_diagnostic_code := "SERVER_REJECTED" |})
  else Ret None.

Definition submit_and_settle (executing : BrowserSessionRecord) (session_id extension_id : string) (d : TransactionAdapterDescriptor)
    (final : AdapterActionSpec) (preview : TransactionPreview) : prog brE SubmissionOutcome :=
  prog_match (click_and_read executing session_id d final preview)
    (fun rejected => match rejected with
                     | Some outcome => Ret outcome
                     | None => _settle_submit_outcome executing session_id extension_id "SUBMIT_OUTCOME_UNKNOWN"
                     end)
    (fun e => if exn_is e PyCancelledError
              then _ ← _settle_after_cancellation
                         (_mark_submit_unknown_and_converge executing session_id extension_id "SUBMIT_CANCELLED_AFTER_START");
                   Raise e
              else if exn_is e PyException
              then _settle_submit_outcome executing session_id extension_id "SUBMIT_OUTCOME_LOST"
              else Raise e).

Definition same_target (preview : TransactionPreview) (final : AdapterActionSpec) : bool :=
  bool_decide (tp_target_action_id preview = as_action_id final)
  && bool_decide (str_upper (tp_target_method preview) = str_upper (as_method final))
  && bool_decide (tp_target_origin preview = as_target_origin final)
  && bool_decide (tp_target_path preview = as_target_path final).

(** The page still shows every value of the preview. *)
Definition shows (page : PageSnapshot) (c : FieldChange) : bool :=
  match field_by_id page (fc_field_id c) with Some live => bool_decide (pf_value live = fc_new_value c) | None => false end.

(** The checks against the live page, and the two saves before the click. *)
Definition commit_submit (record : BrowserSessionRecord) (session_id extension_id owner_id : string) (t : time)
    (d : TransactionAdapterDescriptor) (final : AdapterActionSpec) (preview : TransactionPreview) : prog brE SubmissionOutcome :=
  baseline ← _tracking_baseline record d;
  page ← _snapshot_impl record (Some d) (bs_transaction_id record);
  _ ← (if bool_decide (ps_fingerprint page = tp_page_fingerprint preview) then Ret tt
       else _ ← _pause record "PAGE_FINGERPRINT_DRIFT"; stop PageDriftError "the page changed after the preview was generated");
  _ ← (if forallb (shows page) (tp_fields preview) then Ret tt
       else _ ← _pause record "PREVIEW_DRIFT"; stop PageDriftError "a field changed after the preview was generated");
  _ ← pause_if_escalated record d page;
  approved ← of_result (_replace_state record APPROVED t (fun r => r));
  approved ← _save approved;
  t2 ← now;
  document ← of_result (_baseline_document baseline.1 baseline.2);
  executing ← of_result (_replace_state approved EXECUTING t2 (fun r => r {{
    bs_submit_count := bs_submit_count record + 1; bs_owner_id := owner_id; bs_receipt_baseline := document }}));
  executing ← _save executing;
  submit_and_settle executing session_id extension_id d final preview.

Definition execute_submit (session_id task_id extension_id preview_hash preview_nonce action_id owner_id : string)
    : prog brE SubmissionOutcome :=
  record ← get_session session_id extension_id;
  _ ← stop_if (negb (bool_decide (bs_task_id record = task_id))) BrowserSessionStateError "the session belongs to another task";
  _ ← stop_if (negb (bool_decide (bs_state record = PREVIEW_READY))) BrowserSessionStateError "submit requires a preview-ready session";
  _ ← deny_if (negb _submit_enabled) "SUBMIT_DISABLED" "real browser submission is disabled on this host";
  match bs_preview record with
  | Some ((_ :: _) as document) =>
      if bool_decide (bs_preview_hash record = "") || bool_decide (bs_preview_nonce record = "")
      then stop BrowserSessionStateError "the session has no stored preview" else
      same_hash ← of_result (compare_digest (bs_preview_hash record) preview_hash);
      _ ← stop_if (negb same_hash) PreviewExpiredError "the submitted preview hash does not match";
      same_nonce ← of_result (compare_digest (bs_preview_nonce record) preview_nonce);
      _ ← stop_if (negb same_nonce) PreviewExpiredError "the submitted preview nonce does not match";
      preview ← of_result (from_document iso_other document);
      t ← now;
      _ ← of_result (require_fresh preview t);
      d ← _require_adapter record (bs_adapter_id record) (bs_adapter_version record);
      match final_action d with
      | None => deny "ACTION_NOT_ALLOWED" "the action is not the final submit"
      | Some final =>
          _ ← deny_if (negb (bool_decide (as_action_id final = action_id))) "ACTION_NOT_ALLOWED" "the action is not the final submit";
          if bool_decide (as_risk final = PROHIBITED) then prohibit "PROHIBITED_SEMANTICS" "" else
          _ ← (if same_target preview final then Ret tt
               else _ ← _pause record "SUBMIT_TARGET_DRIFT"; stop PageDriftError "the submission target changed after the preview");
          commit_submit record session_id extension_id owner_id t d final preview
      end
  | _ => stop BrowserSessionStateError "the session has no stored preview"
  end.

(** ** Ending *)

Definition end_record (record : BrowserSessionRecord) (outcome : string) : prog brE unit :=
  if mem_b CANCELLED (allowed_browser_transitions (bs_state record))
  then _ ← move record CANCELLED (fun r => r {{ bs_outcome := outcome }}); Ret tt else Ret tt.

Definition close_session (session_id extension_id : string) : prog brE unit :=
  record ← get_session session_id extension_id;
  prog_finally (perform (CompClose session_id)) (end_record record "CLOSED").

Definition cancel_session (session_id extension_id : string) : prog brE unit :=
  record ← get_session session_id extension_id;
  prog_finally (perform (CompCancel session_id)) (end_record record "CANCELLED").

Definition recover_stale_sessions (active_owners : list string) : prog brE (list string) := perform (SessRecover active_owners).
Definition broker_aclose : prog brE unit := perform CompAclose.

End broker.
