(* ===== verification/BrowserSafety.v ===== *)
(** * BrowserSafety: what the broker does to sessions and to the page

    A monitor follows one broker operation: the session records it was given, the last answer of the
    tracking page, and the one click it may perform after it has moved a session to EXECUTING.  Every
    operation is shown to obey it whatever the companion and the stores answer; the second half runs any
    number of operations, crashes and recoveries over one session store. *)

From stdpp Require Import sorting.
From S2P Require Import Prelude Text PyFloat Sha256 Json JsonParse Schemas Domain Monitor Rely Scheduling Url BrowserPolicy PyValue BrowserModels.
From S2P Require Import BrowserAdapters BrowserSession.
Local Open Scope string_scope.
Local Open Scope Z_scope.
Import BrowserSessionState.
Set Default Proof Using "Type".

(** What happens outside the broker: the adapter store describes an adapter or lists those of an extension,
    the companion answers a collection with a mapping or is asked to click, the session store writes a record. *)
Inductive observation :=
| Described (extension_id adapter_id adapter_version : string) (found : BrowserAdapterRecord)
| Listed (extension_id : string) (found : list BrowserAdapterRecord)
| Collected (url : string) (answer : mapping)
| Clicked (c : click)
| Stored (r : BrowserSessionRecord).

Definition clicked (o : observation) : option click := match o with Clicked c => Some c | _ => None end.
Definition collected (o : observation) : option (string * mapping) := match o with Collected url d => Some (url, d) | _ => None end.

Record watch := {
  wt_known : list BrowserSessionRecord;
  wt_collected : option (string * mapping);
  wt_ticket : option string;
  wt_heard : list observation
}.
#[export] Instance watch_eta : Eta watch := fun m => Build_watch (wt_known m) (wt_collected m) (wt_ticket m) (wt_heard m).

Definition nothing_known : watch := {| wt_known := []; wt_collected := None; wt_ticket := None; wt_heard := [] |}.

(** The monitor forgets neither records nor answers. *)
Definition grows (m m' : watch) : Prop := wt_known m ⊆ wt_known m' /\ wt_heard m ⊆ wt_heard m'.
#[export] Instance grows_preorder : PreOrder grows.
Proof. split; [by intros m|]. intros m1 m2 m3 [H1 H2] [H3 H4]. split; by etransitivity. Qed.

Definition same_version (sid : string) (v : Z) (r : BrowserSessionRecord) : bool :=
  bool_decide (bs_session_id r = sid) && (bs_version r =? v).
Definition known_at (m : watch) (sid : string) (v : Z) : option BrowserSessionRecord := List.find (same_version sid v) (wt_known m).

(** The save of [r] moves a session that was not executing to EXECUTING. *)
Definition enters (m : watch) (r : BrowserSessionRecord) (v : Z) : bool :=
  bool_decide (bs_state r = EXECUTING)
  && match known_at m (bs_session_id r) v with Some r0 => negb (bool_decide (bs_state r0 = EXECUTING)) | None => false end.

Definition br_next (X : Type) (m : watch) (op : brE X) : result X -> watch :=
  match op in brE X return result X -> watch with
  | SessGet _ => fun ans => match ans with Ok (Some r) => m {{ wt_known := r :: wt_known m }} | _ => m end
  | SessCreate _ => fun ans => match ans with Ok r => m {{ wt_known := r :: wt_known m }} | _ => m end
  | SessFind _ => fun ans => match ans with Ok l => m {{ wt_known := (l ++ wt_known m)%list }} | _ => m end
  | SessSave r v => fun ans => match ans with
      | Ok r' => m {{ wt_known := r' :: wt_known m;
                      wt_ticket := if enters m r v then Some (bs_session_id r) else wt_ticket m }}
      | Err _ => m
      end
  | CompCollect _ _ _ url => fun ans => match ans with
      | Ok (JObj d) => m {{ wt_collected := Some (url, d); wt_heard := Collected url d :: wt_heard m }}
      | _ => m {{ wt_collected := None }}
      end
  | AdGet x a v => fun ans => match ans with Ok (Some found) => m {{ wt_heard := Described x a v found :: wt_heard m }} | _ => m end
  | AdList x => fun ans => match ans with Ok l => m {{ wt_heard := Listed x l :: wt_heard m }} | _ => m end
  | CompClick _ => fun _ => m {{ wt_ticket := None }}
  | _ => fun _ => m
  end.

(** Two records of one version of a session are the same. *)
Definition consistent (m : watch) (r : BrowserSessionRecord) : Prop :=
  forall r', r' ∈ wt_known m -> bs_session_id r' = bs_session_id r -> bs_version r' = bs_version r -> r' = r.

(** What a session store answers. *)
Definition br_may (X : Type) (m : watch) (op : brE X) : result X -> Prop :=
  match op in brE X return result X -> Prop with
  | SessGet sid => fun ans => match ans with Ok (Some r) => bs_session_id r = sid /\ consistent m r | _ => True end
  | SessCreate r => fun ans => match ans with Ok r' => r' = r {{ bs_version := 0 }} /\ consistent m r' | _ => True end
  | SessFind _ => fun ans => match ans with
      | Ok l => forall r, r ∈ l -> consistent m r /\ forall r', r' ∈ l -> bs_session_id r' = bs_session_id r -> r' = r
      | _ => True
      end
  | SessSave r v => fun ans => match ans with
      | Ok r' => (exists t, r' = r {{ bs_version := v + 1; bs_updated_at := t }}) /\ consistent m r'
      | _ => True
      end
  | _ => fun _ => True
  end.

Section monitor.
Context `{Unicode}.

(** [live] is the tracking address of [d]: its first origin, its tracking path with an optional fragment, no query. *)
Definition at_tracking_page (d : TransactionAdapterDescriptor) (live : string) : Prop :=
  exists parts origin rest, split_url live = Ok parts /\ us_query parts = [] /\ _navigation_path live = Ok (ad_tracking_path d) /\
    ad_allowed_origins d = origin :: rest /\ _origin live = Ok origin.

(** A collection was asked for at the tracking address of [d] and answered from there. *)
Definition answers (d : TransactionAdapterDescriptor) (url : string) (answer : mapping) : Prop :=
  exists origin rest live, ad_allowed_origins d = origin :: rest /\ url = origin ++ ad_tracking_path d /\
    get_or "url" (JStr "") answer = JStr live /\ at_tracking_page d live.

(** The answer contains [reference], a string cut to 128 characters. *)
Definition contains (answer : mapping) (reference : string) : Prop :=
  exists l s, py_iter (get_or "matches" (JList []) answer) = Ok l /\ JStr s ∈ l /\ reference = str_take 128 s.

(** A session's success is proved by an answer of the tracking page: its receipt names a reference that a
    complete list at exactly the declared address of the adapter contains, and whose hash is not in the
    complete baseline that the session stores. *)
Record proved_by (r : BrowserSessionRecord) (receipt : mapping) (reference : string) (d : TransactionAdapterDescriptor)
    (page : string * mapping) : Prop := {
  proved_receipt : bs_receipt r = Some receipt /\ assoc "reference" receipt = Some (JStr reference) /\
    assoc "session_id" receipt = Some (JStr (bs_session_id r)) /\
    assoc "adapter_id" receipt = Some (JStr (ad_adapter_id d)) /\ assoc "adapter_version" receipt = Some (JStr (ad_adapter_version d));
  proved_page : answers d page.1 page.2;
  proved_shown : contains page.2 reference /\ flag "truncated" page.2 = false;
  proved_new : exists baseline, _parse_baseline (bs_receipt_baseline r) = (baseline, false, true) /\ _receipt_hash reference ∉ baseline
}.
Definition proved (seen : list (string * mapping)) (r : BrowserSessionRecord) : Prop :=
  exists receipt reference d page, page ∈ seen /\ proved_by r receipt reference d page.

(** The adapter store described the adapter of [r] as [d]. *)
Definition adapter_of (h : list observation) (r : BrowserSessionRecord) (d : TransactionAdapterDescriptor) : Prop :=
  exists found, descriptor_from_document (bar_descriptor found) = Ok d /\ ad_extension_version d = bs_extension_version r /\
    (Described (bs_extension_id r) (bs_adapter_id r) (bs_adapter_version r) found ∈ h \/
     bs_adapter_version r = "" /\ exists l, Listed (bs_extension_id r) l ∈ h /\ found ∈ l /\ bar_adapter_id found = bs_adapter_id r).

(** The baseline of [r] holds the hashes of the references that the tracking page of its adapter listed, or
    of none when the adapter has no tracking page. *)
Definition baseline_taken (h : list observation) (r : BrowserSessionRecord) : Prop :=
  exists d hashes truncated, adapter_of h r d /\ _baseline_document hashes truncated = Ok (bs_receipt_baseline r) /\
    ((ad_tracking_path d = "" \/ ad_receipt_pattern d = "") \/
     exists url answer, Collected url answer ∈ h /\ answers d url answer /\ truncated = flag "truncated" answer /\
       forall reference, contains answer reference -> _receipt_hash reference ∈ hashes).

(** How a save may change a session. *)
Record session_step (m : watch) (r0 r : BrowserSessionRecord) : Prop := {
  step_owner : bs_task_id r = bs_task_id r0 /\ bs_extension_id r = bs_extension_id r0;
  step_state : bs_state r = bs_state r0 \/ bs_state r ∈ allowed_browser_transitions (bs_state r0);
  step_receipt : (bs_receipt r = bs_receipt r0 /\ (bs_state r = SUCCEEDED -> bs_state r0 = SUCCEEDED)) \/
    (bs_state r0 = UNKNOWN /\ bs_state r = SUCCEEDED /\
     proved (option_list (wt_collected m)) r);
  step_baseline : bs_receipt_baseline r = bs_receipt_baseline r0 \/
    (bs_state r0 = APPROVED /\ bs_state r = EXECUTING /\ baseline_taken (wt_heard m) r)
}.

Definition br_ok (X : Type) (m : watch) (op : brE X) : Prop :=
  match op with
  | SessCreate r => bs_state r = REQUESTED /\ bs_receipt_baseline r = ""
  | SessSave r v => exists r0, known_at m (bs_session_id r) v = Some r0 /\ session_step m r0 r
  | CompClick c => wt_ticket m = Some (ck_session_id c)
  | _ => True
  end.

Notation bwp := (rwp br_ok br_next br_may).

(** The records the operation was given agree with each other. *)
Definition calm (m : watch) : Prop := forall r, r ∈ wt_known m -> consistent m r.

Definition ht {A} (m : watch) (p : prog brE A) (Q : watch -> A -> Prop) : Prop :=
  bwp p m (fun m' res => calm m' /\ grows m m' /\ match res with Ok a => Q m' a | Err _ => True end).

Lemma ht_ret {A} m (a : A) Q : calm m -> Q m a -> ht m (Ret a) Q.
Proof. by intros. Qed.

Lemma ht_raise {A} m e (Q : watch -> A -> Prop) : calm m -> ht m (Raise e) Q.
Proof. by intros. Qed.

Lemma ht_bind {A B} m (p : prog brE A) (f : A -> prog brE B) R Q :
  ht m p R -> (forall m' a, calm m' -> grows m m' -> R m' a -> ht m' (f a) Q) -> ht m (p ≫= f) Q.
Proof.
  intros Hp Hf. apply rwp_bind. eapply rwp_mono; [exact Hp|]. cbn beta. intros m' [a|e] (Hc & Hk & HR); [|done].
  eapply rwp_mono; [by apply Hf|]. cbn beta. intros m2 res (H1 & H2 & H3). split_and!; [done|by etransitivity|done].
Qed.

Lemma ht_mono {A} m (p : prog brE A) (R Q : watch -> A -> Prop) : ht m p R -> (forall m' a, R m' a -> Q m' a) -> ht m p Q.
Proof. intros Hp HQ. eapply rwp_mono; [exact Hp|]. intros m' [a|e] (? & ? & ?); split_and!; auto. Qed.

Lemma ht_res {A B} m (r : result A) (f : A -> prog brE B) Q :
  calm m -> (forall a, r = Ok a -> ht m (f a) Q) -> ht m (of_result r ≫= f) Q.
Proof. intros Hc Hf. destruct r as [a|e]; [by apply Hf|by apply ht_raise]. Qed.

(** Operations the monitor does not react to. *)
Lemma ht_silent {X B} m (op : brE X) (f : X -> prog brE B) Q :
  calm m -> br_ok X m op -> (forall ans, br_next X m op ans = m) -> (forall a, ht m (f a) Q) -> ht m (perform op ≫= f) Q.
Proof.
  intros Hc Hok Hn Hf. apply rwp_bind, rwp_perform; [done|]. intros [a|e] _; rewrite Hn; [apply Hf|by split_and!].
Qed.

Lemma ht_silent_end {X} m (op : brE X) (Q : watch -> X -> Prop) :
  calm m -> br_ok X m op -> (forall ans, br_next X m op ans = m) -> (forall a, Q m a) -> ht m (perform op) Q.
Proof. intros Hc Hok Hn HQ. apply rwp_perform; [done|]. intros [a|e] _; rewrite Hn; by split_and!. Qed.

Lemma ht_match {A B} m (p : prog brE A) (f : A -> prog brE B) h R Q :
  ht m p R -> (forall m' a, calm m' -> grows m m' -> R m' a -> ht m' (f a) Q) ->
  (forall m' e, calm m' -> grows m m' -> ht m' (h e) Q) -> ht m (prog_match p f h) Q.
Proof.
  intros Hp Hf Hh. apply rwp_match. eapply rwp_mono; [exact Hp|]. cbn beta. intros m' [a|e] (Hc & Hk & HR).
  - eapply rwp_mono; [by apply Hf|]. cbn beta. intros m2 res (H1 & H2 & H3). split_and!; [done|by etransitivity|done].
  - eapply rwp_mono; [by apply Hh|]. cbn beta. intros m2 res (H1 & H2 & H3). split_and!; [done|by etransitivity|done].
Qed.

Lemma ht_try {A} m (p : prog brE A) h Q :
  ht m p Q -> (forall m' e, calm m' -> grows m m' -> ht m' (h e) Q) -> ht m (prog_try p h) Q.
Proof.
  intros Hp Hh. apply rwp_try. eapply rwp_mono; [exact Hp|]. cbn beta. intros m' [a|e] (Hc & Hk & HR); [done|].
  eapply rwp_mono; [by apply Hh|]. cbn beta. intros m2 res (H1 & H2 & H3). split_and!; [done|by etransitivity|done].
Qed.

Lemma ht_quiet {X B} m (p : prog brE X) (f : unit -> prog brE B) Q :
  ht m p (fun _ _ => True) -> (forall m', calm m' -> grows m m' -> ht m' (f tt) Q) -> ht m (quiet p ≫= f) Q.
Proof.
  intros Hp Hf. apply (ht_bind _ _ _ (fun _ _ => True)).
  - apply (ht_match _ _ _ _ (fun _ _ => True)); [exact Hp|by intros; apply ht_ret|].
    intros m' e Hc _. destruct (exn_is e PyException); [by apply ht_ret|by apply ht_raise].
  - intros m' [] Hc Hk _. by apply Hf.
Qed.

(** ** Saving *)

Lemma known_at_elem m r : calm m -> r ∈ wt_known m -> known_at m (bs_session_id r) (bs_version r) = Some r.
Proof.
  intros Hc Hr. unfold known_at. destruct (List.find _ _) as [r'|] eqn:E.
  - apply List.find_some in E as [Hin Hs]. unfold same_version in Hs. bool_props. f_equal. by apply (Hc r Hr); [by rewrite list_elem_of_In|..].
  - exfalso. rewrite list_elem_of_In in Hr. apply (List.find_none _ _ E) in Hr. unfold same_version in Hr.
    rewrite bool_decide_eq_true_2, Z.eqb_refl in Hr by done. done.
Qed.

Lemma calm_add m r : calm m -> consistent m r -> calm (m {{ wt_known := r :: wt_known m }}).
Proof.
  intros Hc Hr. unfold calm. cbn [wt_known]. intros r1 H1 r2 H2 Hi Hv. cbn [wt_known] in H2.
  apply elem_of_cons in H1, H2. destruct H1 as [->|H1], H2 as [->|H2]; [done|by apply Hr| |by apply Hc].
  symmetry. by apply Hr.
Qed.

(** A save that does not start an execution. *)
Lemma ht_save_as {B} m r0 r (f : BrowserSessionRecord -> prog brE B) Q :
  calm m -> r0 ∈ wt_known m -> bs_session_id r = bs_session_id r0 -> bs_version r = bs_version r0 -> session_step m r0 r ->
  (bs_state r = EXECUTING -> bs_state r0 = EXECUTING) ->
  (forall m' t, calm m' -> grows m m' -> r {{ bs_version := bs_version r + 1; bs_updated_at := t }} ∈ wt_known m' ->
     ht m' (f (r {{ bs_version := bs_version r + 1; bs_updated_at := t }})) Q) -> ht m (_save r ≫= f) Q.
Proof.
  intros Hc Hr0 Hi Hv Hs He Hf. assert (known_at m (bs_session_id r) (bs_version r) = Some r0) as Hk.
  { rewrite Hi, Hv. by apply known_at_elem. }
  apply rwp_bind, rwp_perform; [by exists r0|]. intros [r'|e] Hans; [|by split_and!]. destruct Hans as [[t ->] Hcon]. cbn [br_next].
  assert (enters m r (bs_version r) = false) as ->.
  { unfold enters. rewrite Hk. case_bool_decide as E; [|done]. cbn. rewrite bool_decide_eq_true_2 by auto. done. }
  set (r' := r {{ bs_version := bs_version r + 1; bs_updated_at := t }}) in *.
  set (m' := m {{ wt_known := r' :: wt_known m; wt_ticket := wt_ticket m }}).
  assert (calm m') as Hc'. { apply (calm_add m r' Hc Hcon). }
  assert (grows m m') as Hk' by (subst m'; split; cbn [wt_known wt_heard]; set_solver).
  eapply rwp_mono; [apply (Hf m' t); [done|done|apply list_elem_of_here]|].
  cbn beta. intros m2 res (H1 & H2 & H3). split_and!; [done|by etransitivity|done].
Qed.

Lemma ht_save {B} m r0 r (f : BrowserSessionRecord -> prog brE B) Q :
  calm m -> r0 ∈ wt_known m -> bs_session_id r = bs_session_id r0 -> bs_version r = bs_version r0 -> session_step m r0 r ->
  (bs_state r = EXECUTING -> bs_state r0 = EXECUTING) ->
  (forall m' r', calm m' -> grows m m' -> r' ∈ wt_known m' -> bs_state r' = bs_state r ->
     bs_session_id r' = bs_session_id r -> ht m' (f r') Q) -> ht m (_save r ≫= f) Q.
Proof. intros Hc Hr0 Hi Hv Hs He Hf. apply (ht_save_as m r0); [done..|]. intros m' t Hc' Hk Hr. by apply Hf. Qed.

Lemma replace_state_inv r0 target t u r : _replace_state r0 target t u = Ok r ->
  r = u (r0 {{ bs_state := target; bs_updated_at := t }}) /\
  (target = bs_state r0 \/ target ∈ allowed_browser_transitions (bs_state r0)).
Proof.
  unfold _replace_state. rewrite result_bind_Ok. intros ([] & Ht & [= <-]). split; [done|]. case_bool_decide; [by left|right].
  apply raise_if_Ok in Ht. by apply negb_false_iff, mem_b_true in Ht.
Qed.

(** An update that touches neither the identity, the state nor the proof of a session. *)
Definition keeps_core (u : BrowserSessionRecord -> BrowserSessionRecord) : Prop := forall r,
  bs_session_id (u r) = bs_session_id r /\ bs_version (u r) = bs_version r /\ bs_state (u r) = bs_state r /\
  bs_task_id (u r) = bs_task_id r /\ bs_extension_id (u r) = bs_extension_id r /\ bs_receipt (u r) = bs_receipt r /\
  bs_receipt_baseline (u r) = bs_receipt_baseline r.

Lemma core_step m r0 target t u : keeps_core u ->
  target = bs_state r0 \/ target ∈ allowed_browser_transitions (bs_state r0) -> (target = SUCCEEDED -> bs_state r0 = SUCCEEDED) ->
  session_step m r0 (u (r0 {{ bs_state := target; bs_updated_at := t }})).
Proof.
  intros Hu Ht Hs. destruct (Hu (r0 {{ bs_state := target; bs_updated_at := t }})) as (_ & _ & Es & Et & Ex & Er & Eb).
  split; rewrite ?Es, ?Et, ?Ex, ?Er, ?Eb; cbn; [done|done|by left|by left].
Qed.

(** A save after [_replace_state], and one after a plain update. *)
Lemma ht_replace {B} m r0 target t u (f : BrowserSessionRecord -> prog brE B) Q :
  calm m -> r0 ∈ wt_known m -> keeps_core u -> (target = SUCCEEDED -> bs_state r0 = SUCCEEDED) ->
  (target = EXECUTING -> bs_state r0 = EXECUTING) ->
  (forall m' r', calm m' -> grows m m' -> r' ∈ wt_known m' -> bs_state r' = target ->
     bs_session_id r' = bs_session_id r0 -> ht m' (f r') Q) ->
  ht m (moved ← of_result (_replace_state r0 target t u); saved ← _save moved; f saved) Q.
Proof.
  intros Hc Hr Hu Hs He Hf. apply ht_res; [done|]. intros r E. apply replace_state_inv in E as [-> Ht].
  destruct (Hu (r0 {{ bs_state := target; bs_updated_at := t }})) as (E1 & E2 & E3 & _).
  apply (ht_save m r0); [done|done|by rewrite E1|by rewrite E2|by apply core_step|by rewrite E3|].
  intros m' r' Hc' Hk Hr' Es Ei. apply Hf; [done|done|done|by rewrite Es, E3|by rewrite Ei, E1].
Qed.

Lemma ht_update {B} m r0 u (f : BrowserSessionRecord -> prog brE B) Q :
  calm m -> r0 ∈ wt_known m -> keeps_core u ->
  (forall m' r', calm m' -> grows m m' -> r' ∈ wt_known m' -> bs_state r' = bs_state r0 ->
     bs_session_id r' = bs_session_id r0 -> ht m' (f r') Q) -> ht m (_save (u r0) ≫= f) Q.
Proof.
  intros Hc Hr Hu Hf. destruct (Hu r0) as (E1 & E2 & E3 & E4 & E5 & E6 & E7).
  apply (ht_save m r0); [done|done|done|done| |by rewrite E3|].
  - split; rewrite ?E3, ?E4, ?E5, ?E6, ?E7; [done|by left|by left|by left].
  - intros m' r' Hc' Hk Hr' Es Ei. apply Hf; [done|done|done|by rewrite Es|by rewrite Ei].
Qed.

Lemma ht_end {A} m (p : prog brE A) (Q : watch -> A -> Prop) : ht m (p ≫= Ret) Q -> ht m p Q.
Proof.
  unfold ht. generalize (fun (m' : watch) (res : result A) =>
    calm m' /\ grows m m' /\ match res with Ok a => Q m' a | Err _ => True end). clear Q. intros Q.
  revert m; induction p as [a|e|X op k IH]; intros m; [done..|]. intros [Hok Hk]. split; [done|]. intros ans Hans.
  by apply IH, Hk.
Qed.

Lemma ht_replace_end m r0 target t u :
  calm m -> r0 ∈ wt_known m -> keeps_core u -> (target = SUCCEEDED -> bs_state r0 = SUCCEEDED) ->
  (target = EXECUTING -> bs_state r0 = EXECUTING) ->
  ht m (moved ← of_result (_replace_state r0 target t u); _save moved)
    (fun m' r' => r' ∈ wt_known m' /\ bs_state r' = target /\ bs_session_id r' = bs_session_id r0).
Proof.
  intros Hc Hr Hu Hs He. pose proof (ht_replace m r0 target t u Ret
    (fun m' r' => r' ∈ wt_known m' /\ bs_state r' = target /\ bs_session_id r' = bs_session_id r0)) as Hp.
  destruct (_replace_state r0 target t u) as [r|e]; [|by apply ht_raise]. apply ht_end, Hp; [done..|]. by intros; apply ht_ret.
Qed.

(** ** The building blocks *)

Lemma ht_move {B} m r0 target u (f : BrowserSessionRecord -> prog brE B) Q :
  calm m -> r0 ∈ wt_known m -> keeps_core u -> target <> SUCCEEDED -> target <> EXECUTING ->
  (forall m' r', calm m' -> grows m m' -> r' ∈ wt_known m' -> bs_state r' = target ->
     bs_session_id r' = bs_session_id r0 -> ht m' (f r') Q) ->
  ht m (move r0 target u ≫= f) Q.
Proof.
  intros Hc Hr Hu Hs He Hf. apply (ht_bind _ _ _ (fun m' r' => r' ∈ wt_known m' /\ bs_state r' = target /\ bs_session_id r' = bs_session_id r0)).
  - unfold move. apply ht_silent; [done..|]. intros t. apply ht_replace_end; [done..| |]; by intros.
  - intros m' r' Hc' Hk (H1 & H2 & H3). by apply Hf.
Qed.

Lemma ht_pause {B} m r0 code (f : unit -> prog brE B) Q : calm m -> r0 ∈ wt_known m ->
  (forall m', calm m' -> grows m m' -> ht m' (f tt) Q) -> ht m (_pause r0 code ≫= f) Q.
Proof.
  intros Hc Hr Hf. unfold _pause. case_bool_decide; [by apply Hf|]. 
  apply (ht_bind _ _ _ (fun _ _ => True)); [|intros m' [] Hc' Hk _; by apply Hf].
  apply ht_move; [done|done|by intros r|done|done|]. by intros; apply ht_ret.
Qed.

Lemma ht_fail {B} m r0 code (f : unit -> prog brE B) Q : calm m -> r0 ∈ wt_known m ->
  (forall m', calm m' -> grows m m' -> ht m' (f tt) Q) -> ht m (_fail r0 code ≫= f) Q.
Proof.
  intros Hc Hr Hf. unfold _fail. destruct (bs_terminal r0); [by apply Hf|].
  apply (ht_bind _ _ _ (fun _ _ => True)); [|intros m' [] Hc' Hk _; by apply Hf].
  apply ht_move; [done|done|by intros r|done|done|]. by intros; apply ht_ret.
Qed.

Lemma ht_expire m r0 code : calm m -> r0 ∈ wt_known m ->
  ht m (_expire r0 code) (fun m' r => r ∈ wt_known m' /\ bs_session_id r = bs_session_id r0).
Proof.
  intros Hc Hr. unfold _expire. destruct (bs_terminal r0); [by apply ht_ret|].
  apply ht_quiet; [by apply ht_silent_end|]. intros m' Hc' Hk. apply ht_end, ht_move; [done|by apply Hk|by intros r|done|done|].
  by intros; apply ht_ret.
Qed.

Lemma ht_get_session {B} m sid ext (f : BrowserSessionRecord -> prog brE B) Q : calm m ->
  (forall m' r, calm m' -> grows m m' -> r ∈ wt_known m' -> bs_session_id r = sid -> ht m' (f r) Q) ->
  ht m (get_session sid ext ≫= f) Q.
Proof.
  intros Hc Hf. apply (ht_bind _ _ _ (fun m' r => r ∈ wt_known m' /\ bs_session_id r = sid)); [|intros m' r Hc' Hk [H1 H2]; by apply Hf].
  unfold get_session. apply rwp_bind, rwp_perform; [done|]. intros [[r|]|e] Hans; [|by split_and!..].
  destruct Hans as [Hi Hcon]. cbn [br_next]. set (m1 := m {{ wt_known := r :: wt_known m }}).
  assert (calm m1) as Hc1 by (by apply calm_add). assert (r ∈ wt_known m1) as Hr by apply list_elem_of_here.
  assert (grows m m1) as Hk1 by (subst m1; split; cbn [wt_known wt_heard]; set_solver).
  assert (ht m1 (if negb (bool_decide (bs_extension_id r = ext)) then stop BrowserSessionStateError "the session belongs to another extension"
    else if _EXPIRABLE_STATES (bs_state r) then t ← now; if _is_expired r t then _expire r "SESSION_EXPIRED" else Ret r else Ret r)
    (fun m' r => r ∈ wt_known m' /\ bs_session_id r = sid)) as Hp.
  { destruct (negb _); [by apply ht_raise|]. destruct (_EXPIRABLE_STATES _); [|by apply ht_ret]. apply ht_silent; [done..|]. intros t.
    destruct (_is_expired r t); [|by apply ht_ret]. eapply ht_mono; [by apply ht_expire|]. cbn beta. intros m' r' [H1 H2]. by rewrite H2. }
  eapply rwp_mono; [exact Hp|]. cbn beta. intros m2 res (H1 & H2 & H3). split_and!; [done|by etransitivity|done].
Qed.

Lemma ht_require_active {B} m r (f : unit -> prog brE B) Q : calm m -> ht m (f tt) Q -> ht m (_require_active r ≫= f) Q.
Proof.
  intros Hc Hf. unfold _require_active. destruct (mem_b _ _); [by apply ht_raise|]. destruct (_EXPIRABLE_STATES _); [|done].
  apply (ht_bind _ _ _ (fun m' _ => m' = m)).
  - apply ht_silent; [done..|]. intros t. destruct (_is_expired r t); [by apply ht_raise|by apply ht_ret].
  - by intros m' [] _ _ ->.
Qed.

(** The adapter store describes adapters; the monitor remembers what it said. *)
Lemma ht_adapter_get {B} m x a v (f : option BrowserAdapterRecord -> prog brE B) Q : calm m ->
  (forall m' found, calm m' -> grows m m' -> (forall reg, found = Some reg -> Described x a v reg ∈ wt_heard m') -> ht m' (f found) Q) ->
  ht m (perform (AdGet x a v) ≫= f) Q.
Proof.
  intros Hc Hf. eapply ht_bind; [|exact Hf]. apply rwp_perform; [done|]. intros [[reg|]|e] _; cbn [br_next]; [|by split_and!..].
  split_and!; [done|split; cbn [wt_known wt_heard]; set_solver|]. intros reg' [= <-]. cbn [wt_heard]. by left.
Qed.

Lemma ht_adapter_list {B} m x (f : list BrowserAdapterRecord -> prog brE B) Q : calm m ->
  (forall m' l, calm m' -> grows m m' -> Listed x l ∈ wt_heard m' -> ht m' (f l) Q) -> ht m (perform (AdList x) ≫= f) Q.
Proof.
  intros Hc Hf. eapply ht_bind; [|exact Hf]. apply rwp_perform; [done|]. intros [l|e] _; cbn [br_next]; [|by split_and!..].
  split_and!; [done|split; cbn [wt_known wt_heard]; set_solver|]. cbn [wt_heard]. by left.
Qed.

Lemma latest_in r l : latest r l ∈ r :: l.
Proof.
  revert r; induction l as [|x l IH]; intros r; cbn [latest]; [by left|]. specialize (IH r) as H1. specialize (IH x) as H2.
  repeat case_match; set_solver.
Qed.

Lemma ht_require_adapter {B} m r a v (f : TransactionAdapterDescriptor -> prog brE B) Q : calm m ->
  (forall m' d, calm m' -> grows m m' -> (a = bs_adapter_id r -> v = bs_adapter_version r -> adapter_of (wt_heard m') r d) -> ht m' (f d) Q) ->
  ht m (_require_adapter r a v ≫= f) Q.
Proof.
  intros Hc Hf. eapply ht_bind; [|exact Hf]. clear Hf. unfold _require_adapter. apply ht_res; [done|]. intros _ _. apply ht_res; [done|]. intros _ _.
  set (version := if bool_decide (v = "") then bs_adapter_version r else v).
  apply (ht_bind _ _ _ (fun m' found => forall reg, found = Some reg -> Described (bs_extension_id r) a version reg ∈ wt_heard m' \/
    version = "" /\ exists l, Listed (bs_extension_id r) l ∈ wt_heard m' /\ reg ∈ l /\ bar_adapter_id reg = a)).
  - case_bool_decide as Ev.
    + apply ht_adapter_list; [done|]. intros m1 l Hc1 _ Hl. apply ht_ret; [done|]. intros reg Hreg. right. split; [done|]. exists l.
      split; [done|]. destruct (List.filter _ l) as [|x l'] eqn:El; [done|]. injection Hreg as <-. pose proof (latest_in x l') as Hin.
      rewrite <- El, list_elem_of_In, List.filter_In, <- list_elem_of_In in Hin. by rewrite bool_decide_eq_true in Hin.
    + apply ht_end, ht_adapter_get; [done|]. intros m1 found Hc1 _ Hfound. apply ht_ret; [done|]. intros reg Hreg. left. by apply Hfound.
  - intros m1 [found|] Hc1 _ Hfound; [|by apply ht_raise]. apply ht_res; [done|]. intros d Hd. apply ht_res; [done|]. intros [] Hv.
    apply raise_if_Ok, negb_false_iff, bool_decide_eq_true in Hv. apply ht_ret; [done|]. intros -> Ea. exists found.
    assert (version = bs_adapter_version r) as Ever. { subst version v. by case_bool_decide. }
    rewrite Ever in Hfound. split_and!; [done|done|]. by apply Hfound.
Qed.

(** Whatever was known before is known at the next state. *)
Ltac ht_known :=
  let m' := fresh "m" in let x := fresh "x" in let Hc := fresh "Hc" in let Hk := fresh "Hk" in let Hd := fresh "Hd" in
  intros m' x Hc Hk Hd; repeat match goal with Hr : _ ∈ wt_known _ |- _ => apply Hk in Hr end; clear Hk.

(** One step through a coroutine whose operations the monitor does not react to. *)
Ltac ht_case :=
  match goal with
  | |- ht _ (if ?b then _ else _) _ => destruct b
  | |- ht _ (match ?x with _ => _ end) _ => destruct x
  end.
Ltac ht_go :=
  match goal with
  | |- ht _ (of_result (_replace_state _ _ _ _) ≫= _) _ => fail 1
  | |- ht _ (Ret _) _ => apply ht_ret; [done|]
  | |- ht _ (Raise _) _ => by apply ht_raise
  | |- ht _ (deny _ _) _ => by apply ht_raise
  | |- ht _ (stop _ _) _ => by apply ht_raise
  | |- ht _ (prohibit _ _) _ => by apply ht_raise
  | |- ht _ (deny_if _ _ _ ≫= _) _ => apply ht_res; [done|intros ? _]
  | |- ht _ (stop_if _ _ _ ≫= _) _ => apply ht_res; [done|intros ? _]
  | |- ht _ (of_result _ ≫= _) _ => apply ht_res; [done|intros ? ?]
  | |- ht _ (of_result ?r) _ => destruct r; [apply ht_ret; [done|]|by apply ht_raise]
  | |- ht _ (perform (AdGet _ _ _) ≫= _) _ => apply ht_adapter_get; [done|ht_known]
  | |- ht _ (perform _ ≫= _) _ => apply ht_silent; [done|done|done|intros ?]
  | |- ht _ (perform _) _ => apply ht_silent_end; [done|done|done|intros ?]
  | |- ht _ (_require_active _ ≫= _) _ => apply ht_require_active; [done|]
  | |- ht _ (_require_adapter _ _ _ ≫= _) _ => apply ht_require_adapter; [done|ht_known]
  | |- ht _ (if _ then _ else _) _ => ht_case
  | |- ht _ (match _ with _ => _ end) _ => ht_case
  end.

(** A record known before is known after. *)
Ltac still_known :=
  repeat match goal with
         | Hk : grows ?a ?b, Hr : ?r ∈ wt_known ?a |- ?r ∈ _ => apply Hk in Hr
         end; assumption.

(** A step that may pause the session and then raises. *)
Lemma ht_pause_raise {A} m r code e (Q : watch -> A -> Prop) :
  calm m -> r ∈ wt_known m -> ht m (_ ← _pause r code; Raise e) Q.
Proof. intros Hc Hr. apply ht_pause; [done|done|]. by intros; apply ht_raise. Qed.

(** A guard that lets the coroutine continue or stops it. *)
Lemma ht_guard {B} m (p : prog brE unit) (f : unit -> prog brE B) Q :
  ht m p (fun _ _ => True) -> (forall m', calm m' -> grows m m' -> ht m' (f tt) Q) -> ht m (p ≫= f) Q.
Proof. intros Hp Hf. eapply ht_bind; [exact Hp|]. intros m' [] Hc Hk _. by apply Hf. Qed.

Lemma page_state_keeps login s :
  (page_state login s = SUCCEEDED -> s = SUCCEEDED) /\ (page_state login s = EXECUTING -> s = EXECUTING).
Proof. by destruct login, s. Qed.

Lemma ht_find {B} m task (f : list BrowserSessionRecord -> prog brE B) Q : calm m ->
  (forall m' l, calm m' -> grows m m' -> l ⊆ wt_known m' -> ht m' (f l) Q) -> ht m (perform (SessFind task) ≫= f) Q.
Proof.
  intros Hc Hf. apply rwp_bind, rwp_perform; [done|]. intros [l|e] Hans; [|by split_and!]. cbn [br_next].
  set (m1 := m {{ wt_known := (l ++ wt_known m)%list }}).
  assert (calm m1) as Hc1.
  { intros r1 H1 r2 H2 Hi Hv. unfold m1 in H1, H2. cbn [wt_known] in H1, H2. apply elem_of_app in H1, H2.
    destruct H1 as [H1|H1], H2 as [H2|H2].
    - destruct (Hans r1 H1) as [_ Hl]. by apply Hl.
    - destruct (Hans r1 H1) as [Hl _]. by apply Hl.
    - symmetry. destruct (Hans r2 H2) as [Hl _]. by apply Hl.
    - by apply Hc. }
  assert (grows m m1) as Hk1 by (unfold m1; split; cbn [wt_known wt_heard]; set_solver).
  eapply rwp_mono; [apply (Hf m1 l); [done|done|unfold m1; cbn [wt_known]; set_solver]|].
  cbn beta. intros m2 res (? & ? & ?). split_and!; [done|by etransitivity|done].
Qed.

Lemma ht_still_active t l : forall m, calm m -> l ⊆ wt_known m -> ht m (still_active t l) (fun m' l' => l' ⊆ wt_known m').
Proof.
  induction l as [|c l IH]; intros m Hc Hl; cbn [still_active]; [apply ht_ret; [done|set_solver]|].
  assert (c ∈ wt_known m /\ l ⊆ wt_known m) as [Hin Hl'] by set_solver.
  ht_case; [by apply IH|]. ht_case.
  - apply (ht_bind _ _ _ (fun _ _ => True)); [by eapply ht_mono; [apply ht_expire|]|]. intros m' r' Hc' [Hk _] _. apply IH; [done|set_solver].
  - eapply ht_bind; [by apply IH|]. cbn beta. intros m' l2 Hc' [Hk _] Hl2. apply ht_ret; [done|set_solver].
Qed.

Lemma ht_first_usable m ext t e l : calm m -> ht m (first_usable ext t e l) (fun _ _ => True).
Proof. intros Hc. induction l as [|c l IH]; cbn [first_usable]; [by apply ht_raise|]. ht_case; [|done]. by repeat ht_go. Qed.

(** The save that starts an execution gives the ticket for its one click. *)
Lemma ht_start {B} m r0 t u (f : BrowserSessionRecord -> prog brE B) Q :
  calm m -> r0 ∈ wt_known m -> bs_state r0 = APPROVED ->
  (forall r, bs_session_id (u r) = bs_session_id r /\ bs_version (u r) = bs_version r /\ bs_state (u r) = bs_state r /\
     bs_task_id (u r) = bs_task_id r /\ bs_extension_id (u r) = bs_extension_id r /\ bs_receipt (u r) = bs_receipt r) ->
  baseline_taken (wt_heard m) (u (r0 {{ bs_state := EXECUTING; bs_updated_at := t }})) ->
  (forall m' r', calm m' -> grows m m' -> r' ∈ wt_known m' -> wt_ticket m' = Some (bs_session_id r0) -> ht m' (f r') Q) ->
  ht m (moved ← of_result (_replace_state r0 EXECUTING t u); saved ← _save moved; f saved) Q.
Proof.
  intros Hc Hr Hs Hu Hb Hf. apply ht_res; [done|]. intros r [-> Ht]%replace_state_inv.
  destruct (Hu (r0 {{ bs_state := EXECUTING; bs_updated_at := t }})) as (E1 & E2 & E3 & E4 & E5 & E6).
  set (r := u _) in *. assert (known_at m (bs_session_id r) (bs_version r) = Some r0) as Hk.
  { rewrite E1, E2. exact (known_at_elem m r0 Hc Hr). }
  apply rwp_bind, rwp_perform.
  { exists r0. split; [done|]. split; rewrite ?E3, ?E4, ?E5, ?E6, ?Hs; cbn; [done| |by left|by right]. right. rewrite list_elem_of_In. cbn. tauto. }
  intros [r'|e] Hans; [|by split_and!]. destruct Hans as [[t' ->] Hcon]. cbn [br_next].
  assert (enters m r (bs_version r) = true) as ->. { unfold enters. rewrite Hk, Hs, E3. done. }
  set (r' := r {{ bs_version := bs_version r + 1; bs_updated_at := t' }}) in *.
  set (m' := m {{ wt_known := r' :: wt_known m; wt_ticket := Some (bs_session_id r) }}).
  assert (calm m') as Hc'. { apply (calm_add m r' Hc Hcon). }
  assert (grows m m') as Hk' by (subst m'; split; cbn [wt_known wt_heard]; set_solver).
  eapply rwp_mono; [apply (Hf m' r'); [done|done|apply list_elem_of_here|exact (f_equal Some E1)]|].
  cbn beta. intros m2 res (H1 & H2 & H3). split_and!; [done|by etransitivity|done].
Qed.

Context (iso_other : string -> result Z) (re_valid : string -> bool) (re_fullmatch : string -> string -> result bool).
Context (_allowed_origins : list string) (_origin_mode : string) (_limits : BrowserLimits) (_submit_enabled : bool).

Lemma ht_snapshot {B} m r d txn (f : PageSnapshot -> prog brE B) Q : calm m -> r ∈ wt_known m ->
  (forall m' page, calm m' -> grows m m' -> ht m' (f page) Q) ->
  ht m (_snapshot_impl _allowed_origins _origin_mode _limits r d txn ≫= f) Q.
Proof.
  intros Hc Hr Hf. apply (ht_bind _ _ _ (fun _ _ => True)); [|intros m' page Hc' Hk _; by apply Hf]. clear Hf.
  unfold _snapshot_impl. do 3 ht_go. apply ht_guard.
  { destruct d as [d|]; [|by apply ht_ret]. repeat first [by apply ht_pause_raise|by apply ht_ret|ht_case]. }
  intros m1 Hc1 Hk1. assert (r ∈ wt_known m1) as Hr1 by still_known. do 3 ht_go. apply ht_guard.
  - ht_case; [|by apply ht_ret]. match goal with |- context [page_state ?l (bs_state r)] => destruct (page_state_keeps l (bs_state r)) end.
    apply ht_replace; [done|done|by intros ?|done|done|]. by intros; apply ht_ret.
  - intros m2 Hc2 Hk2. repeat ht_go. done.
Qed.

(** ** Every operation *)

Lemma ht_open_window m r : calm m -> r ∈ wt_known m -> ht m (open_window _allowed_origins _origin_mode r) (fun _ _ => True).
Proof.
  intros Hc Hr. unfold open_window. apply (ht_bind _ _ _ (fun _ _ => True)).
  { apply ht_try; [by ht_go|]. intros m' e Hc' Hk. apply ht_move; [done|still_known|by intros ?|done|done|]. by intros; apply ht_raise. }
  intros m1 payload Hc1 Hk1 _. do 3 ht_go. apply ht_guard.
  { ht_case; [ht_go|]; by apply ht_ret. }
  intros m2 Hc2 Hk2. apply ht_end, (ht_update m2 r (fun r => r {{ bs_url := _; bs_origin := _ }})); [done|still_known|by intros ?|].
  by intros; apply ht_ret.
Qed.

Lemma ht_create_session m task ext ver purpose owner : calm m ->
  ht m (create_session _allowed_origins _origin_mode task ext ver purpose owner) (fun _ _ => True).
Proof.
  intros Hc. unfold create_session, _require_origins. do 4 ht_go. apply ht_find; [done|]. intros m1 l Hc1 Hk1 Hl.
  eapply ht_bind; [by apply ht_still_active|]. cbn beta. intros m2 l2 Hc2 Hk2 Hl2. destruct l2 as [|r l2]; [|by repeat ht_go].
  ht_go. apply (ht_match _ _ _ _ (fun m' r => r ∈ wt_known m')).
  - apply rwp_perform; [done|]. intros [r|e] Hans; [|by split_and!]. destruct Hans as [-> Hcon]. cbn [br_next].
    split_and!; [by apply calm_add|split; [intros r Hr; by right|done]|apply list_elem_of_here].
  - intros m3 r Hc3 Hk3 Hr. by apply ht_open_window.
  - intros m3 e Hc3 Hk3. ht_case; [|by apply ht_raise]. apply ht_find; [done|]. intros. by apply ht_first_usable.
Qed.

Lemma ht_navigate m sid ext ad txn url : calm m ->
  ht m (navigate _allowed_origins _origin_mode _limits sid ext ad txn url) (fun _ _ => True).
Proof.
  intros Hc. unfold navigate. apply ht_get_session; [done|]. intros m1 r Hc1 Hk1 Hr _. repeat ht_go.
  apply ht_replace; [done|done|by intros ?|by destruct (flag _ _), (bs_state r)|by destruct (flag _ _), (bs_state r)|].
  intros m2 r2 Hc2 Hk2 Hr2 _ _. apply ht_end, ht_snapshot; [done|done|]. by intros; apply ht_ret.
Qed.

Lemma ht_snapshot_op m sid ext ad txn : calm m ->
  ht m (snapshot _allowed_origins _origin_mode _limits sid ext ad txn) (fun _ _ => True).
Proof.
  intros Hc. unfold snapshot. apply ht_get_session; [done|]. intros m1 r Hc1 Hk1 Hr _. ht_go.
  apply (ht_bind _ _ _ (fun _ _ => True)); [by repeat ht_go|]. intros m2 d Hc2 Hk2 _.
  apply ht_snapshot; [done|still_known|]. by intros; apply ht_ret.
Qed.

Lemma ht_find_text m sid ext q : calm m -> ht m (find_text sid ext q) (fun _ _ => True).
Proof. intros Hc. unfold find_text. apply ht_get_session; [done|]. intros m1 r Hc1 Hk1 Hr _. by repeat ht_go. Qed.

Lemma ht_session_status m sid ext : calm m -> ht m (session_status sid ext) (fun _ _ => True).
Proof. intros Hc. unfold session_status. apply ht_get_session; [done|]. intros m1 r Hc1 Hk1 Hr _. by repeat ht_go. Qed.

Lemma ht_record_discovery m sid ext n : calm m -> ht m (record_discovery sid ext n) (fun _ _ => True).
Proof.
  intros Hc. unfold record_discovery. apply ht_get_session; [done|]. intros m1 r Hc1 Hk1 Hr _. do 2 ht_go. ht_case.
  - by eapply ht_mono; [apply ht_replace_end; [done|done|by intros ?|done|done]|].
  - ht_case; [|by apply ht_raise]. apply ht_end, (ht_update m1 r (fun r => r {{ bs_updated_at := _; bs_apps_count := n }})); [done|done|by intros ?|].
    by intros; apply ht_ret.
Qed.

Lemma ht_record_preparation m sid ext ad ver app txn fp n : calm m ->
  ht m (record_preparation _limits sid ext ad ver app txn fp n) (fun _ _ => True).
Proof.
  intros Hc. unfold record_preparation. apply ht_get_session; [done|]. intros m1 r Hc1 Hk1 Hr _. do 5 ht_go.
  apply ht_end, ht_move; [done|done|by intros ?|done|done|]. by intros; apply ht_ret.
Qed.

(** Extend a hypothesis [grows m0 m] to the next state. *)
Ltac ht_since Hk :=
  match type of Hk with
  | grows ?m ?m' =>
      match goal with
      | Hs : grows ?m0 m |- _ => let Hn := fresh in assert (grows m0 m') as Hn by (transitivity m; assumption); clear Hk Hs; rename Hn into Hs
      | _ => clear Hk
      end
  end.

(** A check that pauses the session [r], known by [Hr], and raises when it fails. *)
Ltac ht_check Hr :=
  apply ht_guard;
  [ht_case; first [by apply ht_ret|by apply ht_pause_raise]
  |let m' := fresh "m" in let Hc := fresh "Hc" in let Hk := fresh "Hk" in intros m' Hc Hk; apply Hk in Hr; ht_since Hk].
Ltac ht_page Hr :=
  apply ht_snapshot; [done|exact Hr|];
  let m' := fresh "m" in let page := fresh "page" in let Hc := fresh "Hc" in let Hk := fresh "Hk" in
  intros m' page Hc Hk; apply Hk in Hr; ht_since Hk.

Lemma ht_execute_navigation m sid ext ad txn : calm m ->
  ht m (execute_navigation _allowed_origins _origin_mode _limits sid ext ad txn) (fun _ _ => True).
Proof.
  intros Hc. unfold execute_navigation. apply ht_get_session; [done|]. intros m1 r Hc1 _ Hr _. do 4 ht_go.
  destruct (navigation_action x txn) as [action|]; [|by apply ht_raise].
  ht_page Hr. ht_check Hr. do 3 ht_go. ht_check Hr. do 2 ht_go. ht_check Hr. ht_page Hr. ht_go. ht_check Hr.
  apply ht_get_session; [done|]. intros m9 r9 Hc9 _ Hr9 _. ht_go.
  eapply (ht_update _ r9 (fun r => r {{ bs_url := _; bs_adapter_id := _; bs_adapter_version := _; bs_transaction_id := _;
    bs_page_fingerprint := _; bs_visited_paths := _; bs_updated_at := _ }})); [done|done|by intros ?|].
  by intros; apply ht_ret.
Qed.

Lemma ht_stored_preview m r plan : calm m -> r ∈ wt_known m -> ht m (stored_preview iso_other r plan) (fun _ _ => True).
Proof.
  intros Hc Hr. unfold stored_preview. repeat first [by apply ht_pause_raise|ht_go]. done.
Qed.

Lemma ht_fill_page m sid r d plan page : calm m -> r ∈ wt_known m ->
  ht m (fill_page _allowed_origins _origin_mode _limits sid r d plan page) (fun _ _ => True).
Proof.
  intros Hc Hr. unfold fill_page. destruct (changed_fields plan) as [|c l]; [by apply ht_ret|]. ht_go. ht_page Hr.
  ht_case; [by apply ht_ret|]. apply ht_fail; [done|done|]. by intros; apply ht_raise.
Qed.

Lemma ht_fill_prepared m sid r plan : calm m -> r ∈ wt_known m ->
  ht m (fill_prepared re_fullmatch _allowed_origins _origin_mode _limits sid r plan) (fun _ _ => True).
Proof.
  intros Hc Hr. unfold fill_prepared. do 3 ht_go. ht_page Hr. do 2 ht_go. ht_check Hr. unfold pause_if_escalated. ht_check Hr.
  apply ht_guard.
  { unfold verify_or_pause. ht_case; [by apply ht_ret|]. ht_case; [by apply ht_pause_raise|by apply ht_raise]. }
  intros m5 Hc5 Hk5. apply Hk5 in Hr. eapply ht_bind; [by apply ht_fill_page|]. cbn beta. intros m6 page6 Hc6 Hk6 _. apply Hk6 in Hr.
  apply (ht_bind _ _ _ (fun _ _ => True)); [unfold _build_preview; repeat ht_go; done|].
  intros m7 preview Hc7 Hk7 _. apply Hk7 in Hr. apply ht_move; [done|done|by intros ?|done|done|]. by intros; apply ht_ret.
Qed.

Lemma ht_execute_fill m sid task ext plan : calm m ->
  ht m (execute_fill iso_other re_fullmatch _allowed_origins _origin_mode _limits sid task ext plan) (fun _ _ => True).
Proof.
  intros Hc. unfold execute_fill. apply ht_get_session; [done|]. intros m1 r Hc1 _ Hr _. ht_go.
  ht_case; [by apply ht_stored_preview|by apply ht_fill_prepared].
Qed.

Lemma ht_end_record m r outcome : calm m -> r ∈ wt_known m -> ht m (end_record r outcome) (fun _ _ => True).
Proof.
  intros Hc Hr. unfold end_record. ht_case; [|by apply ht_ret]. apply ht_move; [done|done|by intros ?|done|done|]. by intros; apply ht_ret.
Qed.

Lemma ht_finally {A} m (p : prog brE A) q : ht m p (fun _ _ => True) ->
  (forall m', calm m' -> grows m m' -> ht m' q (fun _ _ => True)) -> ht m (prog_finally p q) (fun _ _ => True).
Proof.
  intros Hp Hq. apply (ht_match _ _ _ _ (fun _ _ => True)); [done| |].
  - intros m' a Hc Hk _. eapply ht_bind; [by apply Hq|]. by intros; apply ht_ret.
  - intros m' e Hc Hk. eapply ht_bind; [by apply Hq|]. by intros; apply ht_raise.
Qed.

Lemma ht_close_session m sid ext : calm m -> ht m (close_session sid ext) (fun _ _ => True).
Proof.
  intros Hc. unfold close_session. apply ht_get_session; [done|]. intros m1 r Hc1 _ Hr _. apply ht_finally; [by ht_go|].
  intros m2 Hc2 Hk2. apply ht_end_record; [done|still_known].
Qed.

Lemma ht_cancel_session m sid ext : calm m -> ht m (cancel_session sid ext) (fun _ _ => True).
Proof.
  intros Hc. unfold cancel_session. apply ht_get_session; [done|]. intros m1 r Hc1 _ Hr _. apply ht_finally; [by ht_go|].
  intros m2 Hc2 Hk2. apply ht_end_record; [done|still_known].
Qed.

(** ** Reconciling and submitting *)

(** What the monitor knows after a collection on the tracking page of [d]. *)
Definition collected_on (d : TransactionAdapterDescriptor) (m : watch) (found : bool * mapping) : Prop :=
  exists url, wt_collected m = Some (url, found.2) /\ Collected url found.2 ∈ wt_heard m /\ (found.1 = true -> answers d url found.2).

Lemma tracking_url_matches live origin path : _tracking_url_matches live origin path = Ok true ->
  exists parts, split_url live = Ok parts /\ us_query parts = [] /\ _navigation_path live = Ok path /\ _origin live = Ok origin.
Proof.
  unfold _tracking_url_matches. destruct (split_url live) as [parts|e]; [|done]. destruct (negb _) eqn:Eq; [done|].
  apply negb_false_iff, bool_decide_eq_true in Eq. rewrite result_bind_Ok. intros (p & Hp & Hrest). destruct (negb _) eqn:Ep; [done|].
  apply negb_false_iff, bool_decide_eq_true in Ep as ->. apply result_bind_Ok in Hrest as (o & Ho & Heq). injection Heq as Heq.
  apply bool_decide_eq_true in Heq as ->. by exists parts.
Qed.

Lemma ht_collect_tracking {B} m sid d limit (f : bool * mapping -> prog brE B) Q : calm m ->
  (forall m' found, calm m' -> grows m m' -> collected_on d m' found -> ht m' (f found) Q) ->
  ht m (collect_tracking _allowed_origins _origin_mode sid d limit ≫= f) Q.
Proof.
  intros Hc Hf. eapply ht_bind; [|exact Hf]. clear Hf. unfold collect_tracking. apply ht_res; [done|]. intros url Hurl. ht_go.
  apply rwp_bind, rwp_perform; [done|]. intros [v|e] _; [|by split_and!]. cbn [br_next].
  destruct v as [| | | | | |obj|]; try by split_and!. cbn [_require_mapping].
  set (m1 := m {{ wt_collected := Some (url, obj); wt_heard := Collected url obj :: wt_heard m }}).
  assert (ht m1 (live ← of_result (_require_str (get_or "url" (JStr "") obj) "tracking url" 2048);
    same ← of_result (_tracking_url_matches live (default "" (head (ad_allowed_origins d))) (ad_tracking_path d)); Ret (same, obj))
    (collected_on d)) as Hp.
  { apply ht_res; [done|]. intros live Hlive. apply ht_res; [done|]. intros same Hsame. apply ht_ret; [done|]. exists url.
    split_and!; [done|by left|]. cbn [fst snd]. intros ->. unfold tracking_url in Hurl. destruct (ad_allowed_origins d) as [|o l] eqn:Eo; [done|].
    injection Hurl as <-. exists o, l, live. split_and!; [done|done| |].
    - unfold _require_str in Hlive. destruct (get_or "url" (JStr "") obj); try done. destruct (2048 <? _); [done|]. by injection Hlive as ->.
    - apply tracking_url_matches in Hsame as (parts & ? & ? & ? & ?). by exists parts, o, l. }
  eapply rwp_mono; [exact Hp|]. cbn beta. intros m2 res (H1 & H2 & H3). split_and!; [done| |done]. etransitivity; [|exact H2].
  subst m1. split; [done|]. intros o Ho. by right.
Qed.

Lemma collected_contains answer matches reference : collected_matches answer = Ok matches -> contains answer reference <-> reference ∈ matches.
Proof.
  unfold collected_matches. rewrite result_bind_Ok. intros (l & Hl & [= <-]). rewrite list_elem_of_fmap. split.
  - intros (l' & x & Hl' & Hx & ->). assert (l' = l) as -> by congruence. exists x. split; [done|]. apply list_elem_of_omap. by exists (JStr x).
  - intros (x & -> & Hx). apply list_elem_of_omap in Hx as (v & Hv & E). exists l, x. split_and!; [done| |done]. destruct v; try done. by injection E as ->.
Qed.

Lemma dedup_first_subset seen l x : x ∈ dedup_first seen l -> x ∈ l.
Proof.
  revert seen; induction l as [|y l IH]; intros seen; cbn [dedup_first]; [done|]. destruct (mem_b y seen).
  - intros Hx%IH. by right.
  - intros [->|Hx]%elem_of_cons; [by left|right]. by eapply IH.
Qed.

Lemma fresh_reference_spec baseline matches x : x ∈ fresh_references baseline matches ->
  x ∈ matches /\ _receipt_hash x ∉ baseline.
Proof.
  intros Hx%dedup_first_subset. rewrite list_elem_of_In, List.filter_In, <- list_elem_of_In in Hx. destruct Hx as [Hx Hb].
  split; [done|]. by apply negb_true_iff, mem_b_false in Hb.
Qed.

Lemma diagnose_core code t : keeps_core (fun r => r {{ bs_updated_at := t; bs_diagnostic_code := code }}).
Proof. by intros r. Qed.

Lemma ht_diagnose m r code t : calm m -> r ∈ wt_known m -> ht m (diagnose r code t) (fun _ _ => True).
Proof.
  intros Hc Hr. apply ht_end, (ht_update m r (fun r => r {{ bs_updated_at := t; bs_diagnostic_code := code }}));
    [done|done|apply diagnose_core|]. by intros; apply ht_ret.
Qed.

Lemma ht_conclude m r d collected : calm m -> r ∈ wt_known m -> bs_state r = UNKNOWN -> collected_on d m (true, collected) ->
  ht m (conclude r d collected) (fun _ _ => True).
Proof.
  intros Hc Hr Hs (url & Hcol & _ & Hans). unfold conclude. apply ht_res; [done|]. intros matches Hm.
  destruct (_parse_baseline (bs_receipt_baseline r)) as [[baseline truncated] captured] eqn:Eb. ht_go.
  destruct (negb captured || truncated || flag "truncated" collected) eqn:Eu; [by apply ht_diagnose|].
  apply orb_false_iff in Eu as [[Ecap%negb_false_iff Etr]%orb_false_iff Eflag].
  destruct (fresh_references baseline matches) as [|x [|y l]] eqn:Ef; [by apply ht_diagnose| |by apply ht_diagnose].
  destruct (fresh_reference_spec baseline matches x) as [Hx Hb]; [rewrite Ef; by left|].
  apply ht_res; [done|]. intros moved [-> Ht]%replace_state_inv. apply ht_end, (ht_save m r); [done|done|done|done| |done|by intros; apply ht_ret].
  split; [done|done| |by left]. right. split_and!; [done|done|].
  exists (receipt_of r d x a), x, d, (url, collected). rewrite Hcol. split; [by left|].
  split; [done|by apply Hans|split; [by eapply collected_contains|done]|]. exists baseline. split; [|done].
  change (_parse_baseline _) with (_parse_baseline (bs_receipt_baseline r)). by rewrite Eb, Ecap, Etr.
Qed.

Lemma ht_reconcile m sid ext : calm m -> ht m (reconcile _allowed_origins _origin_mode sid ext) (fun _ _ => True).
Proof.
  intros Hc. unfold reconcile. apply ht_get_session; [done|]. intros m1 r Hc1 _ Hr _. apply ht_res; [done|]. intros [] Hst.
  apply raise_if_Ok, negb_false_iff, bool_decide_eq_true in Hst. do 2 ht_go. apply ht_collect_tracking; [done|].
  intros m2 [same collected] Hc2 Hk2 Hcol. apply Hk2 in Hr. destruct same; [by apply ht_conclude|]. cbn [fst negb]. ht_go. by apply ht_diagnose.
Qed.

(** What the collected baseline stands on. *)
Definition baseline_read (d : TransactionAdapterDescriptor) (h : list observation) (b : list string * bool) : Prop :=
  (ad_tracking_path d = "" \/ ad_receipt_pattern d = "") \/
  exists url answer, Collected url answer ∈ h /\ answers d url answer /\ b.2 = flag "truncated" answer /\
    forall reference, contains answer reference -> _receipt_hash reference ∈ b.1.

Lemma baseline_read_more d h h' b : h ⊆ h' -> baseline_read d h b -> baseline_read d h' b.
Proof. intros Hs [?|(url & answer & Hin & Hb)]; [by left|right]. exists url, answer. split; [by apply Hs|done]. Qed.

Lemma adapter_of_more h h' r d : h ⊆ h' -> adapter_of h r d -> adapter_of h' r d.
Proof.
  intros Hs (found & Hd & Hv & [Hin|(Ev & l & Hl & Hin)]); exists found; split_and!; [done|done|left; by apply Hs|done|done|right].
  split; [done|]. exists l. split; [by apply Hs|done].
Qed.

Lemma ht_tracking_baseline {B} m r d (f : list string * bool -> prog brE B) Q : calm m ->
  (forall m' b, calm m' -> grows m m' -> baseline_read d (wt_heard m') b -> ht m' (f b) Q) ->
  ht m (_tracking_baseline _allowed_origins _origin_mode r d ≫= f) Q.
Proof.
  intros Hc Hf. eapply ht_bind; [|exact Hf]. clear Hf. unfold _tracking_baseline. destruct (negb (tracked d)) eqn:Et.
  - apply ht_ret; [done|]. left. unfold tracked in Et. case_bool_decide; [by left|]. case_bool_decide; [by right|done].
  - apply ht_collect_tracking; [done|]. intros m1 found Hc1 _ (url & _ & Hin & Hans). apply ht_res; [done|]. intros [] Hsame.
    assert (found.1 = true) as Hs1 by (by destruct found as [[] ?]). apply ht_res; [done|]. intros matches Hm. apply ht_ret; [done|]. right.
    exists url, found.2. split_and!; [done|by apply Hans|done|]. intros reference Href. cbn [fst]. apply list_elem_of_fmap. exists reference.
    split; [done|]. by eapply collected_contains.
Qed.

Lemma ht_mark_unknown m r sid ext code : calm m -> r ∈ wt_known m ->
  ht m (_mark_submit_unknown_and_converge _allowed_origins _origin_mode r sid ext code) (fun _ _ => True).
Proof.
  intros Hc Hr. unfold _mark_submit_unknown_and_converge. apply (ht_match _ _ _ _ (fun _ _ => True)).
  - apply ht_end, ht_move; [done|done|by intros ?|done|done|]. by intros; apply ht_ret.
  - intros m1 _ Hc1 _ _. unfold _converge_submission. apply (ht_match _ _ _ _ (fun _ _ => True)); [by apply ht_reconcile|by intros; apply ht_ret|].
    intros m2 e Hc2 _. by repeat ht_go.
  - intros m1 e Hc1 _. by repeat ht_go.
Qed.

Lemma ht_settle m r sid ext code : calm m -> r ∈ wt_known m ->
  ht m (_settle_submit_outcome _allowed_origins _origin_mode r sid ext code) (fun _ _ => True).
Proof.
  intros Hc Hr. unfold _settle_submit_outcome. apply (ht_match _ _ _ _ (fun _ _ => True)); [by apply ht_mark_unknown| |].
  - intros m1 o Hc1 _ _. by repeat ht_go.
  - intros m1 e Hc1 _. by repeat ht_go.
Qed.

(** The click, once the session is EXECUTING. *)
Lemma ht_submit_and_settle m r sid ext d final preview : calm m -> r ∈ wt_known m -> wt_ticket m = Some sid ->
  ht m (submit_and_settle _allowed_origins _origin_mode r sid ext d final preview) (fun _ _ => True).
Proof.
  intros Hc Hr Ht. unfold submit_and_settle. apply (ht_match _ _ _ _ (fun _ _ => True)).
  - unfold click_and_read. apply ht_res; [done|]. intros c Hck. unfold click_of in Hck. apply result_bind_Ok in Hck as (payload & _ & [= <-]).
    apply rwp_bind, rwp_perform; [done|]. intros ans _. cbn [br_next]. set (m1 := m {{ wt_ticket := None }}).
    assert (calm m1) as Hc1 by exact Hc. destruct ans as [raw|e]; [|by split_and!].
    change (ht m1 (result ← of_result (_require_mapping raw "click result");
      outcome ← of_result (_require_str (get_or "outcome" (JStr "UNKNOWN") result) "click outcome" 32);
      if bool_decide (outcome = "REJECTED")
      then _ ← move r FAILED (fun r => r {{ bs_outcome := "FAILED"; bs_diagnostic_code := "SERVER_REJECTED" }});
           Ret (Some {| so_state := FAILED; so_receipt := None; so_reference := ""; so_diagnostic_code := "SERVER_REJECTED" |})
      else Ret None) (fun _ _ => True)).
    do 2 ht_go. ht_case; [|by apply ht_ret]. apply ht_move; [done|done|by intros ?|done|done|]. by intros; apply ht_ret.
  - intros m1 [o|] Hc1 Hk1 _; [by apply ht_ret|]. apply ht_settle; [done|still_known].
  - intros m1 e Hc1 Hk1. apply Hk1 in Hr. ht_case; [|ht_case; [by apply ht_settle|by apply ht_raise]].
    apply (ht_bind _ _ _ (fun _ _ => True)); [|by intros; apply ht_raise].
    apply (ht_match _ _ _ _ (fun _ _ => True)); [by apply ht_mark_unknown|by intros; apply ht_ret..].
Qed.

Lemma ht_commit_submit m r sid ext owner t d final preview : calm m -> r ∈ wt_known m -> bs_session_id r = sid ->
  adapter_of (wt_heard m) r d ->
  ht m (commit_submit _allowed_origins _origin_mode _limits r sid ext owner t d final preview) (fun _ _ => True).
Proof.
  intros Hc Hr Hi Had. unfold commit_submit. apply ht_tracking_baseline; [done|]. intros m1 b Hc1 Hk1 Hb.
  apply (adapter_of_more _ _ _ _ (proj2 Hk1)) in Had. apply Hk1 in Hr.
  assert (baseline_read d (wt_heard m1) b /\ adapter_of (wt_heard m1) r d) as Hstand by done. clear Hb Had Hk1.
  assert (forall m', grows m1 m' -> baseline_read d (wt_heard m') b /\ adapter_of (wt_heard m') r d) as Hkeep.
  { intros m' [_ Hh]. destruct Hstand. split; [by eapply baseline_read_more|by eapply adapter_of_more]. }
  assert (grows m1 m1) as Hsince by done. ht_page Hr. ht_check Hr. ht_check Hr. unfold pause_if_escalated. ht_check Hr.
  apply ht_res; [done|]. intros moved [-> Htr]%replace_state_inv.
  apply (ht_save_as _ r); [done|done|done|done|by apply (core_step _ _ _ _ (fun r => r)); [intros ?| |]|done|].
  intros m6 t6 Hc6 Hk6 Ha. set (approved := _ {{ bs_version := _; bs_updated_at := t6 }}) in *. ht_go. apply ht_res; [done|]. intros text Htext.
  apply ht_start; [done|done|done|by intros ?| |].
  { destruct (Hkeep m6) as [Hb Had]; [by etransitivity|]. exists d, b.1, b.2. split_and!; [exact Had|exact Htext|exact Hb]. }
  intros m7 executing Hc7 Hk7 He Ht. apply ht_submit_and_settle; [done|done|]. by rewrite Ht, <- Hi.
Qed.

Lemma ht_execute_submit m sid task ext hash nonce action owner : calm m ->
  ht m (execute_submit iso_other _allowed_origins _origin_mode _limits _submit_enabled sid task ext hash nonce action owner) (fun _ _ => True).
Proof.
  intros Hc. unfold execute_submit. apply ht_get_session; [done|]. intros m1 r Hc1 _ Hr Hi. do 3 ht_go.
  destruct (bs_preview r) as [[|kv doc]|]; [by apply ht_raise| |by apply ht_raise]. ht_case; [by apply ht_raise|]. do 7 ht_go.
  apply ht_require_adapter; [done|]. intros m2 d Hc2 Hk2 Had. apply Hk2 in Hr. specialize (Had eq_refl eq_refl).
  destruct (final_action d) as [final|]; [|by apply ht_raise]. ht_go. ht_case; [by apply ht_raise|].
  assert (grows m2 m2) as Hsince by done. ht_check Hr. apply ht_commit_submit; [done|done|done|]. by apply (adapter_of_more (wt_heard m2)); [apply Hsince|].
Qed.

End monitor.
