(* ===== verification/BrowserSystem.v ===== *)
(** * BrowserSystem: broker operations, crashes and recoveries over one session store

    Any number of broker operations run against one session store, interleaved at their awaits.  A store
    call may be answered, refused without effect, or performed with its answer lost; the companion answers
    anything; operations are cancelled and die; stale executions are recovered while others run.  The
    theorems bound the clicks per session, and say what a session that is stored as SUCCEEDED stands on. *)

From stdpp Require Import sorting.
From S2P Require Import Prelude Text Pool PyFloat Sha256 Json JsonParse JsonGrammar JsonRoundTrip Schemas Domain Monitor Rely Scheduling Extensions SupervisionSafety Url.
From S2P Require Import BrowserPolicy PyValue BrowserModels BrowserAdapters BrowserSession BrowserSafety.
Local Open Scope string_scope.
Local Open Scope Z_scope.
Import BrowserSessionState.

(** ** The system *)

(** The session store, and what happened outside the broker so far, newest first. *)
Record bsys := { by_sessions : session_map; by_log : list observation }.
#[export] Instance bsys_eta : Eta bsys := fun s => Build_bsys (by_sessions s) (by_log s).

Definition by_clicks (s : bsys) : list click := omap clicked (by_log s).
Definition by_collected (s : bsys) : list (string * mapping) := omap collected (by_log s).

Definition no_sessions : bsys := {| by_sessions := []; by_log := [] |}.

(** The calls of the session store, at a time of its clock. *)
Definition on_store (t : time) {X} (op : brE X) : option (M session_map X) :=
  match op in brE X return option (M session_map X) with
  | SessCreate r => Some (sessions_create r)
  | SessGet i => Some (sessions_get i)
  | SessSave r v => Some (sessions_save r v t)
  | SessFind task => Some (find_active_for_task task)
  | SessRecover owners => Some (recover_stale_executions owners t)
  | _ => None
  end.

Definition is_store {X} (op : brE X) : bool :=
  match op with SessCreate _ | SessGet _ | SessSave _ _ | SessFind _ | SessRecover _ => true | _ => false end.

(** What an operation and its answer add to the log. *)
Definition noted {X} (op : brE X) (ans : result X) : list observation :=
  match op in brE X return result X -> list observation with
  | CompClick c => fun _ => [Clicked c]
  | CompCollect _ _ _ url => fun ans => match ans with Ok (JObj d) => [Collected url d] | _ => [] end
  | AdGet x a v => fun ans => match ans with Ok (Some found) => [Described x a v found] | _ => [] end
  | AdList x => fun ans => match ans with Ok l => [Listed x l] | _ => [] end
  | SessSave _ _ => fun ans => match ans with Ok r => [Stored r] | _ => [] end
  | _ => fun _ => []
  end ans.
Definition note (l : list observation) (s : bsys) : bsys := s {{ by_log := (l ++ by_log s)%list }}.

(** The session store performs [h]. *)
Definition performed {X} (op : brE X) (h : M session_map X) (s : bsys) : bsys :=
  note (noted op (h (by_sessions s)).2) (s {{ by_sessions := (h (by_sessions s)).1 }}).

Inductive by_step X (op : brE X) (s : bsys) : bsys -> result X -> Prop :=
| by_answer t h : on_store t op = Some h -> by_step X op s (performed op h s) (h (by_sessions s)).2
| by_lost t h e : on_store t op = Some h -> by_step X op s (performed op h s) (Err e)
| by_refused e : by_step X op s s (Err e)
| by_outside ans : is_store op = false -> by_step X op s (note (noted op ans) s) ans.

(** ** The history of the store *)

(** The states of a session whose submission was started. *)
Definition spent (s : BrowserSessionState.t) : bool := mem_b s [EXECUTING; UNKNOWN; SUCCEEDED; FAILED].

Lemma spent_allowed s s' : spent s = true -> s' = s \/ s' ∈ allowed_browser_transitions s -> spent s' = true.
Proof. intros Hs [->|Ht]; [done|]. destruct s; try done; cbn in Ht; set_solver. Qed.

Section history.
Context `{Unicode}.

(** The submission of [r] was started: a record of its session with its baseline was stored as EXECUTING,
    when the companion had not been asked to click for the session, and the baseline had been taken before. *)
Definition started (log : list observation) (r : BrowserSessionRecord) : Prop :=
  exists later x earlier, log = (later ++ Stored x :: earlier)%list /\ bs_session_id x = bs_session_id r /\ bs_state x = EXECUTING /\
    bs_receipt_baseline x = bs_receipt_baseline r /\ (forall c, Clicked c ∈ earlier -> ck_session_id c <> bs_session_id r) /\
    baseline_taken earlier x.
Definition grounded (log : list observation) (r : BrowserSessionRecord) : Prop := bs_receipt_baseline r = "" \/ started log r.

Definition entered (i : string) (H0 : list BrowserSessionRecord) : nat :=
  if decide (Exists (fun r => bs_session_id r = i /\ bs_state r = EXECUTING) H0) then 1 else 0.

(** Before any click for the session of [r], and before it was stored as EXECUTING, its adapter was read; the
    complete list on the tracking page of that adapter did not contain [reference], unless the adapter
    declares no tracking page. *)
Definition unlisted_before (log : list observation) (r : BrowserSessionRecord) (reference : string) : Prop :=
  exists later x earlier d, log = (later ++ Stored x :: earlier)%list /\ bs_session_id x = bs_session_id r /\ bs_state x = EXECUTING /\
    (forall c, Clicked c ∈ earlier -> ck_session_id c <> bs_session_id r) /\ adapter_of earlier x d /\
    ((ad_tracking_path d = "" \/ ad_receipt_pattern d = "") \/
     exists url answer, Collected url answer ∈ earlier /\ answers d url answer /\ flag "truncated" answer = false /\
       ~ contains answer reference).

(** [r] is stored in place of [r0]. *)
Record next_version (log : list observation) (r0 r : BrowserSessionRecord) : Prop := {
  nv_id : bs_session_id r = bs_session_id r0;
  nv_task : bs_task_id r = bs_task_id r0;
  nv_version : bs_version r = bs_version r0 + 1;
  nv_state : bs_state r = bs_state r0 \/ bs_state r ∈ allowed_browser_transitions (bs_state r0);
  nv_proved : bs_state r = SUCCEEDED -> (bs_state r0 = SUCCEEDED -> proved (omap collected log) r0) -> proved (omap collected log) r;
  nv_grounded : grounded log r0 -> grounded log r
}.

(** [H] holds every record the store ever contained. *)
Record history (s : session_map) (log : list observation) (H : list BrowserSessionRecord) : Prop := {
  h_keys : NoDup (keys s);
  h_current : forall i r, assoc i s = Some r -> bs_session_id r = i /\ r ∈ H;
  h_behind : forall r, r ∈ H -> exists cur, assoc (bs_session_id r) s = Some cur /\ bs_version r <= bs_version cur /\
    (spent (bs_state r) = true -> spent (bs_state cur) = true);
  h_unique : forall r1 r2, r1 ∈ H -> r2 ∈ H -> bs_session_id r1 = bs_session_id r2 -> bs_version r1 = bs_version r2 -> r1 = r2;
  h_proved : forall r, r ∈ H -> bs_state r = SUCCEEDED -> proved (omap collected log) r;
  h_grounded : forall r, r ∈ H -> grounded log r;
  h_open : forall i j ri rj, assoc i s = Some ri -> assoc j s = Some rj -> _OPEN_STATES (bs_state ri) = true ->
    _OPEN_STATES (bs_state rj) = true -> bs_task_id ri = bs_task_id rj -> i = j
}.

Lemma proved_more seen seen' r : seen ⊆ seen' -> proved seen r -> proved seen' r.
Proof. intros Hs (a & b & c & d & Hin & Hp). exists a, b, c, d. split; [by apply Hs|done]. Qed.

Lemma grounded_more l log r : grounded log r -> grounded (l ++ log)%list r.
Proof.
  intros [E|(later & x & earlier & -> & Hx)]; [by left|right]. exists (l ++ later)%list, x, earlier. by rewrite <- app_assoc.
Qed.

Lemma omap_subset {A B} (f : A -> option B) (l l' : list A) : l ⊆ l' -> omap f l ⊆ omap f l'.
Proof. intros Hs x (y & Hy & Hx)%list_elem_of_omap. apply list_elem_of_omap. exists y. split; [by apply Hs|done]. Qed.

Lemma history_log s log l H0 : history s log H0 -> history s (l ++ log)%list H0.
Proof.
  intros Hh. destruct Hh. split; try done.
  - intros r Hr Hst. eapply proved_more; [|eauto]. apply omap_subset. set_solver.
  - intros r Hr. by apply grounded_more, h_grounded0.
Qed.

(** What may happen to one entry of the store. *)
Definition entry_step (log : list observation) (s s' : session_map) (i : string) : Prop :=
  match assoc i s, assoc i s' with
  | Some r0, Some r => r = r0 \/ next_version log r0 r
  | None, None => True
  | None, Some r => bs_session_id r = i /\ bs_state r = REQUESTED /\ bs_receipt_baseline r = "" /\
      forall j rj, assoc j s' = Some rj -> _OPEN_STATES (bs_state rj) = true -> bs_task_id rj = bs_task_id r -> j = i
  | Some _, None => False
  end.

Lemma reopened seen r0 r : next_version seen r0 r -> _OPEN_STATES (bs_state r) = true -> _OPEN_STATES (bs_state r0) = true.
Proof. intros Hn Ho. destruct (nv_state _ _ _ Hn) as [E|E]; [by rewrite <- E|]. destruct (bs_state r0); try done; cbn in E; set_solver. Qed.

(** The entry before: the record itself, an older version of it, or nothing. *)
Lemma entry_before seen s s' i r : entry_step seen s s' i -> assoc i s' = Some r ->
  assoc i s = None \/ exists r0, assoc i s = Some r0 /\ (r = r0 \/ next_version seen r0 r).
Proof. unfold entry_step. intros He Hr. rewrite Hr in He. destruct (assoc i s) as [r0|]; [right; by exists r0|by left]. Qed.

(** One step of the store keeps its history. *)
Section update.
Context (s s' : session_map) (seen : list observation) (H0 : list BrowserSessionRecord).
Hypothesis Hh : history s seen H0.
Hypothesis Hnd : NoDup (keys s').
Hypothesis He : forall i, entry_step seen s s' i.

Lemma update_stored r : r ∈ s'.*2 -> exists i, assoc i s' = Some r.
Proof. intros ([i r'] & -> & Hin)%list_elem_of_fmap. exists i. by apply assoc_In. Qed.

Lemma update_id i r : assoc i s' = Some r -> bs_session_id r = i.
Proof.
  intros Hr. pose proof (He i) as Hi. unfold entry_step in Hi. rewrite Hr in Hi. destruct (assoc i s) as [r0|] eqn:E0; [|apply Hi].
  destruct (h_current _ _ _ Hh i r0 E0) as [E1 _]. destruct Hi as [->|Hn]; [done|]. by rewrite (nv_id _ _ _ Hn).
Qed.

Lemma update_old i r x : assoc i s' = Some r -> x ∈ H0 -> bs_session_id x = i -> bs_version x = bs_version r -> x = r.
Proof.
  intros Hr Hx Hxi Hxv. destruct (h_behind _ _ _ Hh x Hx) as (cur & Ec & Hv & _). rewrite Hxi in Ec.
  destruct (entry_before _ _ _ _ _ (He i) Hr) as [E|(r0 & E & [->|Hn])]; [congruence| |].
  - apply (h_unique _ _ _ Hh); [done|by apply (h_current _ _ _ Hh i)| |done]. by rewrite (update_id i r0).
  - assert (cur = r0) as -> by congruence. rewrite (nv_version _ _ _ Hn) in Hxv. lia.
Qed.

Lemma update_behind r : r ∈ H0 -> exists cur, assoc (bs_session_id r) s' = Some cur /\ bs_version r <= bs_version cur /\
  (spent (bs_state r) = true -> spent (bs_state cur) = true).
Proof.
  intros Hr. destruct (h_behind _ _ _ Hh r Hr) as (cur & Ec & Hv & Hs). pose proof (He (bs_session_id r)) as Hi. unfold entry_step in Hi.
  rewrite Ec in Hi. destruct (assoc (bs_session_id r) s') as [r'|]; [|done]. exists r'. split; [done|]. destruct Hi as [->|Hn]; [done|].
  split; [rewrite (nv_version _ _ _ Hn); lia|]. intros Hsp. eapply spent_allowed; [by apply Hs|apply Hn].
Qed.

Lemma update_proved i r : assoc i s' = Some r -> bs_state r = SUCCEEDED -> proved (omap collected seen) r.
Proof.
  intros Hi Hs. pose proof (He i) as Hei. unfold entry_step in Hei. rewrite Hi in Hei.
  destruct (assoc i s) as [r0|] eqn:E0; [|destruct Hei as (_ & E & _); congruence].
  destruct (h_current _ _ _ Hh i r0 E0) as [_ Hin]. destruct Hei as [->|Hn]; [by apply (h_proved _ _ _ Hh)|].
  apply (nv_proved _ _ _ Hn Hs). intros Hs0. by apply (h_proved _ _ _ Hh).
Qed.

Lemma update_grounded i r : assoc i s' = Some r -> grounded seen r.
Proof.
  intros Hi. pose proof (He i) as Hei. unfold entry_step in Hei. rewrite Hi in Hei.
  destruct (assoc i s) as [r0|] eqn:E0; [|left; apply Hei].
  destruct (h_current _ _ _ Hh i r0 E0) as [_ Hin]. destruct Hei as [->|Hn]; [by apply (h_grounded _ _ _ Hh)|].
  by apply (nv_grounded _ _ _ Hn), (h_grounded _ _ _ Hh).
Qed.

Lemma update_open i r : assoc i s' = Some r -> _OPEN_STATES (bs_state r) = true ->
  (exists r0, assoc i s = Some r0 /\ _OPEN_STATES (bs_state r0) = true /\ bs_task_id r0 = bs_task_id r) \/
  (forall j rj, assoc j s' = Some rj -> _OPEN_STATES (bs_state rj) = true -> bs_task_id rj = bs_task_id r -> j = i).
Proof.
  intros Hr Ho. pose proof (He i) as Hi. unfold entry_step in Hi. rewrite Hr in Hi. destruct (assoc i s) as [r0|]; [|right; apply Hi].
  left. exists r0. split; [done|]. destruct Hi as [->|Hn]; [done|]. split; [by eapply reopened|by rewrite (nv_task _ _ _ Hn)].
Qed.

Lemma history_update : history s' seen (s'.*2 ++ H0).
Proof.
  split; [done| | | | | |].
  - intros i r Hr. split; [by apply update_id|]. apply elem_of_app. left. apply list_elem_of_fmap. exists (i, r). split; [done|].
    by apply assoc_In.
  - intros r [Hr|Hr]%elem_of_app; [|by apply update_behind]. destruct (update_stored r Hr) as [i Hi]. exists r.
    rewrite (update_id i r Hi). split_and!; [done|lia|done].
  - intros r1 r2 [H1|H1]%elem_of_app [H2|H2]%elem_of_app Hi Hv.
    + destruct (update_stored r1 H1) as [i Hi1], (update_stored r2 H2) as [j Hj2].
      assert (i = j) as -> by (rewrite <- (update_id i r1), <- (update_id j r2); done). congruence.
    + destruct (update_stored r1 H1) as [i Hi1]. symmetry. apply (update_old i); [done|done|by rewrite <- (update_id i r1)|done].
    + destruct (update_stored r2 H2) as [i Hi2]. apply (update_old i); [done|done|by rewrite <- (update_id i r2)|done].
    + by apply (h_unique _ _ _ Hh).
  - intros r [Hr|Hr]%elem_of_app Hs; [|by apply (h_proved _ _ _ Hh)]. destruct (update_stored r Hr) as [i Hi]. by eapply update_proved.
  - intros r [Hr|Hr]%elem_of_app; [|by apply (h_grounded _ _ _ Hh)]. destruct (update_stored r Hr) as [i Hi]. by eapply update_grounded.
  - intros i j ri rj Hri Hrj Ho1 Ho2 Ht. destruct (update_open i ri Hri Ho1) as [(r1 & A1 & A2 & A3)|Hn]; [|symmetry; by eapply Hn].
    destruct (update_open j rj Hrj Ho2) as [(r2 & B1 & B2 & B3)|Hn]; [|by eapply Hn].
    eapply (h_open _ _ _ Hh i j r1 r2); congruence.
Qed.
End update.

(** ** The baseline *)

Lemma insert_sorted_elem {A} (le : A -> A -> bool) x l y : y ∈ insert_sorted le x l <-> y = x \/ y ∈ l.
Proof. induction l as [|z l IH]; cbn; [set_solver|]. destruct (le x z); set_solver. Qed.

Lemma stable_sort_elem {A} (le : A -> A -> bool) l y : y ∈ stable_sort le l <-> y ∈ l.
Proof. induction l as [|x l IH]; cbn [stable_sort]; [done|]. rewrite insert_sorted_elem, IH. set_solver. Qed.

Lemma dedup_first_keeps seen l x : x ∈ l -> x ∈ seen \/ x ∈ dedup_first seen l.
Proof.
  revert seen; induction l as [|y l IH]; intros seen; [by intros ?%not_elem_of_nil|]. cbn [dedup_first].
  intros [->|Hx]%elem_of_cons; destruct (mem_b y seen) eqn:E.
  - left. by apply mem_b_true.
  - right. by left.
  - by apply IH.
  - destruct (IH (y :: seen) Hx) as [[->|Hs]%elem_of_cons|Hd]; [right; by left|by left|right; by right].
Qed.

Lemma compact_spaced : spaced compact_opts.
Proof. exists "", "". split_and!; [apply white_nil|apply white_nil|done|done]. Qed.

Lemma baseline_document_parses hashes truncated text : _baseline_document hashes truncated = Ok text ->
  exists l, _parse_baseline text = (l, truncated, true) /\ forall h, h ∈ hashes -> h ∈ l.
Proof.
  unfold _baseline_document. set (l := stable_sort str_le (dedup_first [] hashes)). set (v := JObj _). intros Htext.
  destruct (dumps_loads compact_opts v [] [] compact_spaced) as (t & Ht & Hl); [|apply white_nil|apply white_nil|].
  { cbn. rewrite andb_true_r. clearbody l. clear. induction l as [|h l IH]; [done|exact IH]. }
  assert (t = text) as -> by congruence. specialize (Hl float_constant). cbn [app] in Hl. rewrite app_nil_r, of_chars_chars in Hl.
  exists l. split.
  - unfold _parse_baseline, loads. rewrite Hl. case_bool_decide as E; [subst text; vm_compute in Hl; done|].
    assert (omap as_str (map JStr l) = l) as Hom. { clearbody l. clear. induction l as [|h l IH]; [done|]. cbn. by f_equal. }
    change ((omap as_str (map JStr l), truncated, true) = (l, truncated, true)). by rewrite Hom.
  - intros h Hh. apply stable_sort_elem. by destruct (dedup_first_keeps [] hashes h Hh) as [?%not_elem_of_nil|?].
Qed.

Lemma grounded_unlisted log r reference : grounded log r ->
  (exists baseline, _parse_baseline (bs_receipt_baseline r) = (baseline, false, true) /\ _receipt_hash reference ∉ baseline) ->
  unlisted_before log r reference.
Proof.
  intros [E|(later & x & earlier & -> & Hi & Hs & Eb & Hc & d & hashes & truncated & Had & Hdoc & Hread)] (baseline & Hparse & Hnew).
  { rewrite E in Hparse. done. }
  rewrite <- Eb in Hparse. destruct (baseline_document_parses _ _ _ Hdoc) as (l & Hl & Hin). rewrite Hl in Hparse. injection Hparse as -> ->.
  exists later, x, earlier, d. split_and!; [done..|]. destruct Hread as [?|(url & answer & Hcol & Hans & Htr & Hall)]; [by left|right].
  exists url, answer. split_and!; [done|done|done|]. intros Href. by apply Hnew, Hin, Hall.
Qed.

(** ** Counting *)

Definition clicks (i : string) (s : bsys) : nat := length (List.filter (fun c => bool_decide (ck_session_id c = i)) (by_clicks s)).
Definition ticket_for (i : string) (m : watch) : nat := if decide (wt_ticket m = Some i) then 1 else 0.

Lemma entered_mono i H1 H2 : H1 ⊆ H2 -> (entered i H1 <= entered i H2)%nat.
Proof.
  intros Hs. unfold entered. destruct (decide _) as [He|_]; [|lia]. rewrite decide_True; [done|].
  apply Exists_exists in He as (r & Hin & Hr). apply Exists_exists. exists r. split; [by apply Hs|done].
Qed.

Lemma entered_spent s log H0 i : history s log H0 -> entered i H0 = 1%nat ->
  exists r, assoc i s = Some r /\ spent (bs_state r) = true.
Proof.
  intros Hh. unfold entered. destruct (decide _) as [He|_]; [|done]. intros _. apply Exists_exists in He as (r & Hin & Hi & Hs).
  destruct (h_behind _ _ _ Hh r Hin) as (cur & Ec & _ & Hsp). exists cur. rewrite <- Hi. split; [done|]. apply Hsp. by rewrite Hs.
Qed.

Lemma entered_le i H0 : (entered i H0 <= 1)%nat.
Proof. unfold entered. destruct (decide _); lia. Qed.

(** Only sessions whose submission was started are clicked for. *)
Definition counted (log : list observation) (H0 : list BrowserSessionRecord) : Prop :=
  forall c, Clicked c ∈ log -> entered (ck_session_id c) H0 = 1%nat.

Lemma clicks_counted s H0 : (forall i, clicks i s <= entered i H0)%nat -> counted (by_log s) H0.
Proof.
  intros Hn c Hc. specialize (Hn (ck_session_id c)). pose proof (entered_le (ck_session_id c) H0).
  assert (c ∈ List.filter (fun x => bool_decide (ck_session_id x = ck_session_id c)) (by_clicks s)) as Hin.
  { rewrite list_elem_of_In, List.filter_In, <- list_elem_of_In, bool_decide_eq_true. split; [|done].
    apply list_elem_of_omap. by exists (Clicked c). }
  unfold clicks in Hn. destruct (List.filter _ _); [by apply not_elem_of_nil in Hin|]. cbn [length] in Hn. lia.
Qed.

(** ** The calls of the store *)

Lemma assoc_set_keys {A} k (v : A) l : NoDup (keys l) -> NoDup (keys (assoc_set k v l)).
Proof.
  intros Hnd. destruct (assoc k l) as [v0|] eqn:E.
  - assert (keys (assoc_set k v l) = keys l) as ->; [|done]. clear Hnd. induction l as [|[k1 v1] l IH]; [done|]. cbn [assoc assoc_set] in *.
    case_bool_decide as Ek; [by subst|]. unfold keys in *. rewrite !fmap_cons. f_equal. by apply IH.
  - rewrite assoc_set_new by (by apply assoc_None). unfold keys. rewrite fmap_app. apply NoDup_app. split_and!; [done| |repeat constructor; set_solver].
    intros x Hx Hx2. apply list_elem_of_singleton in Hx2. subst x. apply assoc_None in E. by apply E.
Qed.

(** Writing one entry. *)
Lemma entry_set seen s i r : 
  match assoc i s with
  | Some r0 => next_version seen r0 r
  | None => bs_session_id r = i /\ bs_state r = REQUESTED /\ bs_receipt_baseline r = "" /\
      forall j rj, assoc j s = Some rj -> _OPEN_STATES (bs_state rj) = true -> bs_task_id rj = bs_task_id r -> j = i
  end -> forall k, entry_step seen s (assoc_set i r s) k.
Proof.
  intros Hi k. unfold entry_step. destruct (decide (k = i)) as [->|Hk].
  - rewrite assoc_set_same. destruct (assoc i s) as [r0|]; [by right|]. destruct Hi as (H1 & H2 & H2' & H3). split_and!; [done|done|done|].
    intros j rj Hj. destruct (decide (j = i)) as [->|Hji]; [done|]. rewrite assoc_set_other in Hj by done. by apply H3.
  - rewrite assoc_set_other by done. destruct (assoc k s); [by left|done].
Qed.

Lemma create_history s seen H0 r : history s seen H0 -> bs_state r = REQUESTED /\ bs_receipt_baseline r = "" ->
  let '(s', ans) := sessions_create r s in history s' seen (s'.*2 ++ H0) /\
    match ans with Ok r' => r' = r {{ bs_version := 0 }} /\ r' ∈ s'.*2 | Err _ => s' = s end.
Proof.
  intros Hh [Hs Hb]. unfold sessions_create. assert (history s seen (s.*2 ++ H0)) as Hsame.
  { apply (history_update s s); [done|apply Hh|]. intros i. unfold entry_step. destruct (assoc i s); [by left|done]. }
  destruct (has_key (bs_session_id r) s) eqn:Ek; [done|]. destruct (_ && existsb _ s) eqn:Eo; [done|].
  assert (assoc (bs_session_id r) s = None) as Hn. { unfold has_key in Ek. by destruct (assoc (bs_session_id r) s). }
  split; [|split; [done|]].
  - apply (history_update s); [done|apply assoc_set_keys, Hh|]. apply entry_set. rewrite Hn. split_and!; [done|done|done|].
    intros j rj Hj Ho Ht. exfalso. rewrite Hs in Eo. cbn [andb] in Eo. apply not_true_iff_false in Eo. apply Eo, existsb_exists.
    exists (j, rj). split; [by apply list_elem_of_In, assoc_elem_of|]. cbn. rewrite Ho, bool_decide_eq_true_2 by exact Ht. done.
  - apply list_elem_of_fmap. exists (bs_session_id r, r {{ bs_version := 0 }}). split; [done|]. apply assoc_elem_of, assoc_set_same.
Qed.

Lemma history_same s seen H0 : history s seen H0 -> history s seen (s.*2 ++ H0).
Proof.
  intros Hh. apply (history_update s s); [done|apply Hh|]. intros i. unfold entry_step. destruct (assoc i s); [by left|done].
Qed.

Lemma known_at_Some m i v r : known_at m i v = Some r -> r ∈ wt_known m /\ bs_session_id r = i /\ bs_version r = v.
Proof.
  intros [Hin Hs]%List.find_some. unfold same_version in Hs. apply andb_true_iff in Hs as [H1%bool_decide_eq_true H2%Z.eqb_eq].
  split; [by apply list_elem_of_In|done].
Qed.

(** A step of the monitor is a new version. *)
Lemma session_step_version m log r0 r t : let r' := r {{ bs_version := bs_version r0 + 1; bs_updated_at := t }} in
  session_step m r0 r -> option_list (wt_collected m) ⊆ omap collected log -> wt_heard m ⊆ log ->
  (bs_state r0 = APPROVED -> forall c, Clicked c ∈ log -> ck_session_id c <> bs_session_id r0) ->
  bs_session_id r = bs_session_id r0 -> next_version (Stored r' :: log) r0 r'.
Proof.
  intros r' [Ho Hs Hr Hb] Hseen Hheard Hfresh Hi. split; [done|apply Ho|done|done| |].
  - change (omap collected (Stored r' :: log)) with (omap collected log). intros Est Hpr. cbn in Est.
    destruct Hr as [[Er Es]|(_ & _ & Hp)]; [|apply (proved_more (option_list (wt_collected m))); [done|]].
    + destruct Hb as [Eb|(E1 & E2 & _)]; [|specialize (Es Est); congruence]. destruct (Hpr (Es Est)) as (a & b & c & d & Hin & Hp).
      exists a, b, c, d. split; [done|]. destruct Hp as [H1 H2 H3 H4]. split; [|done|done|].
      * change (bs_receipt r = Some a /\ assoc "reference" a = Some (JStr b) /\
          assoc "session_id" a = Some (JStr (bs_session_id r)) /\ assoc "adapter_id" a = Some (JStr (ad_adapter_id c)) /\
          assoc "adapter_version" a = Some (JStr (ad_adapter_version c))). by rewrite Er, Hi.
      * change (exists baseline, _parse_baseline (bs_receipt_baseline r) = (baseline, false, true) /\ _receipt_hash b ∉ baseline). by rewrite Eb.
    + destruct Hp as (a & b & c & d & Hin & Hp). exists a, b, c, d. split; [done|]. by destruct Hp.
  - destruct Hb as [Eb|(E1 & E2 & d & hashes & truncated & Had & Hdoc & Hread)].
    + unfold grounded. change (bs_receipt_baseline r') with (bs_receipt_baseline r). rewrite Eb. intros [Hg|Hg]; [by left|right].
      destruct Hg as (later & x & earlier & Elog & Hx). exists later, x, earlier. split; [done|]. change (bs_session_id r') with (bs_session_id r).
      change (bs_receipt_baseline r') with (bs_receipt_baseline r). by rewrite Eb, Hi.
    + intros _. right. exists [], r', log. split_and!; [done|done|done|done| |].
      * intros c Hc. change (ck_session_id c <> bs_session_id r). rewrite Hi. by apply Hfresh.
      * exists d, hashes, truncated. split_and!; [by apply (adapter_of_more (wt_heard m))|done|].
        by apply (baseline_read_more d (wt_heard m) log (hashes, truncated)).
Qed.

Lemma save_history s log H0 m r v t : history s log H0 -> counted log H0 -> wt_known m ⊆ H0 ->
  option_list (wt_collected m) ⊆ omap collected log -> wt_heard m ⊆ log -> br_ok _ m (SessSave r v) ->
  let '(s', ans) := sessions_save r v t s in history s' (noted (SessSave r v) ans ++ log) (s'.*2 ++ H0) /\
    match ans with
    | Ok r' => r' = r {{ bs_version := v + 1; bs_updated_at := t }} /\ r' ∈ s'.*2 /\
        exists r0, known_at m (bs_session_id r) v = Some r0 /\ session_step m r0 r /\ assoc (bs_session_id r) s = Some r0
    | Err _ => s' = s
    end.
Proof.
  intros Hh Hn Hk Hseen Hheard (r0 & Hr0 & Hstep). unfold sessions_save. pose proof (history_same s log H0 Hh) as Hsame.
  destruct (assoc (bs_session_id r) s) as [cur|] eqn:Ec; [|done]. destruct (negb _) eqn:Ev; [done|].
  apply negb_false_iff, Z.eqb_eq in Ev. destruct (known_at_Some _ _ _ _ Hr0) as (Hin & Hi & Hv).
  destruct (h_current _ _ _ Hh _ _ Ec) as [Ei Hcin]. assert (r0 = cur) as ->.
  { apply (h_unique _ _ _ Hh); [by apply Hk|done|congruence|congruence]. }
  split; [|split_and!; [done| |by exists cur]].
  - cbn [noted app]. apply (history_update s); [by apply (history_log _ _ [_])|apply assoc_set_keys, Hh|]. apply entry_set. rewrite Ec, <- Hv.
    apply (session_step_version m); [done|done|done| |by rewrite Hi]. intros Ha c Hc Eid. apply Hn in Hc.
    destruct (entered_spent _ _ _ _ Hh Hc) as (x & Hx & Hsp). assert (x = cur) as -> by congruence. by rewrite Ha in Hsp.
  - apply list_elem_of_fmap. eexists (bs_session_id r, _). split; [done|]. apply assoc_elem_of, assoc_set_same.
Qed.

Lemma recover_history s seen H0 owners t : history s seen H0 ->
  let s' := (recover_stale_executions owners t s).1 in history s' seen (s'.*2 ++ H0).
Proof.
  intros Hh. set (f := fun kv : string * BrowserSessionRecord => (kv.1, if is_stale owners kv.2 then interrupted t kv.2 else kv.2)).
  change (recover_stale_executions owners t s).1 with (f <$> s). cbv zeta. apply (history_update s); [done| |].
  - unfold keys. rewrite <- list_fmap_compose. apply Hh.
  - intros i. unfold entry_step. rewrite (assoc_fmap_keys f) by done. destruct (assoc i s) as [r|]; [|done]. cbn.
    destruct (is_stale owners r) eqn:Es; [right|by left]. unfold is_stale in Es. apply andb_true_iff in Es as [Es%bool_decide_eq_true _].
    split; [done|done|done| |done|done]. right. rewrite Es. rewrite list_elem_of_In. cbn. tauto.
Qed.

Lemma found_stored s task r : NoDup (keys s) -> r ∈ stable_sort created_leb (List.filter (fun r => bool_decide (bs_task_id r = task)) (s.*2)) ->
  exists i, assoc i s = Some r.
Proof.
  intros Hnd Hr. rewrite stable_sort_elem, list_elem_of_In, List.filter_In, <- list_elem_of_In in Hr. destruct Hr as [Hr _].
  apply list_elem_of_fmap in Hr as ([i r'] & -> & Hin). exists i. by apply assoc_In.
Qed.

(** ** One operation *)

Definition bsys_inv (s : bsys) (H0 : list BrowserSessionRecord) : Prop :=
  history (by_sessions s) (by_log s) H0 /\ counted (by_log s) H0.
Record watch_inv (s : bsys) (H0 : list BrowserSessionRecord) (m : watch) : Prop := {
  wi_known : wt_known m ⊆ H0;
  wi_collected : option_list (wt_collected m) ⊆ by_collected s;
  wi_heard : wt_heard m ⊆ by_log s
}.

(** What one operation of a coroutine in monitor state [m] does to the invariant. *)
Definition advances {X} (s s' : bsys) (H0 : list BrowserSessionRecord) (m : watch) (op : brE X) (ans : result X) : Prop :=
  exists H1, H0 ⊆ H1 /\ history (by_sessions s') (by_log s') H1 /\ br_may X m op ans /\ watch_inv s' H1 (br_next X m op ans) /\
    by_log s ⊆ by_log s' /\
    forall i, (ticket_for i (br_next X m op ans) + clicks i s' + entered i H0 <= ticket_for i m + clicks i s + entered i H1)%nat.

Lemma watch_grows s s' H0 H1 m : H0 ⊆ H1 -> by_log s ⊆ by_log s' -> watch_inv s H0 m -> watch_inv s' H1 m.
Proof. intros Hs Hl [Hk Hc Hh]. split; [by etrans| |by etrans]. etrans; [exact Hc|]. by apply omap_subset. Qed.

(** An operation that changes neither the store nor the monitor. *)
Lemma advances_still {X} s H0 m (op : brE X) ans : bsys_inv s H0 -> watch_inv s H0 m -> br_may X m op ans -> br_next X m op ans = m ->
  advances s s H0 m op ans.
Proof. intros [Hi _] Hm Ha Hn. exists H0. rewrite Hn. split_and!; try done. Qed.

Lemma advances_refused {X} s H0 m (op : brE X) e : bsys_inv s H0 -> watch_inv s H0 m -> advances s s H0 m op (Err e).
Proof.
  intros Hi Hm. assert (br_may X m op (Err e)) as Ha by (by destruct op).
  destruct op; try (by apply advances_still); destruct Hi as [Hi _], Hm as [Hk Hc Hh].
  - exists H0. split_and!; try done. split; [done|cbn; set_solver|done].
  - exists H0. split_and!; try done. intros i. change (ticket_for i (br_next json m (CompClick c) (Err e))) with 0%nat. lia.
Qed.

(** What a call of the store adds to the log is no click. *)
Lemma performed_clicks {X} (op : brE X) h s i : is_store op = true -> clicks i (performed op h s) = clicks i s.
Proof. intros Ho. unfold clicks, by_clicks, performed. by destruct op; try done; destruct ((h (by_sessions s)).2). Qed.

Lemma performed_log {X} (op : brE X) h s : by_log s ⊆ by_log (performed op h s).
Proof. unfold performed, note. cbn [by_log]. set_solver. Qed.

(** A store call whose effect keeps the history and whose answer was lost. *)
Lemma advances_stored {X} s H0 m (op : brE X) h e : is_store op = true -> bsys_inv s H0 -> watch_inv s H0 m ->
  let s' := performed op h s in history (by_sessions s') (by_log s') ((by_sessions s').*2 ++ H0) -> advances s s' H0 m op (Err e).
Proof.
  intros Ho Hi Hm s' Hh. exists ((by_sessions s').*2 ++ H0)%list. assert (br_next X m op (Err e) = m) as Hn by (by destruct op). rewrite Hn.
  assert (H0 ⊆ ((by_sessions s').*2 ++ H0)%list) as Hsub by set_solver. pose proof (performed_log op h s) as Hl.
  split_and!; [done|done|by destruct op|by eapply watch_grows|done|].
  intros i. pose proof (entered_mono i _ _ Hsub). subst s'. rewrite performed_clicks by done. lia.
Qed.

Lemma consistent_in s seen H0 m r : history s seen H0 -> wt_known m ⊆ H0 -> r ∈ H0 -> consistent m r.
Proof. intros Hh Hk Hr r' Hr' Hi Hv. by apply (h_unique _ _ _ Hh); [apply Hk| | |]. Qed.

Lemma watch_known s H0 m r t : watch_inv s H0 m -> r ∈ H0 -> watch_inv s H0 (m {{ wt_known := r :: wt_known m; wt_ticket := t }}).
Proof. intros [Hk Hc Hh] Hr. split; [|done|done]. change (r :: wt_known m ⊆ H0). set_solver. Qed.

Lemma advances_create s H0 m r : bsys_inv s H0 -> watch_inv s H0 m -> br_ok _ m (SessCreate r) ->
  advances s (performed (SessCreate r) (sessions_create r) s) H0 m (SessCreate r) (sessions_create r (by_sessions s)).2.
Proof.
  intros Hi Hm Hok. pose proof (create_history _ _ _ r (proj1 Hi) Hok) as Hcr. pose proof (performed_log (SessCreate r) (sessions_create r) s) as Hl.
  pose proof (fun i => performed_clicks (SessCreate r) (sessions_create r) s i eq_refl) as Hcl.
  pose proof (advances_stored s H0 m (SessCreate r) (sessions_create r)) as Hst. cbv zeta in Hst. unfold performed in *. 
  destruct (sessions_create r (by_sessions s)) as [s' [r'|e]]; cbn [fst snd] in *.
  - destruct Hcr as (Hh & Er & Hr). exists (s'.*2 ++ H0)%list. assert (H0 ⊆ (s'.*2 ++ H0)%list) as Hsub by set_solver.
    assert (r' ∈ (s'.*2 ++ H0)%list) as Hr' by set_solver. pose proof (watch_grows _ _ _ _ m Hsub Hl Hm) as Hm'.
    split_and!; [done|done|split; [done|]|by apply (watch_known _ _ _ _ (wt_ticket m))|done|].
    + apply (consistent_in _ _ _ m r' Hh); [apply Hm'|done].
    + intros i. rewrite Hcl. pose proof (entered_mono i _ _ Hsub) as He. cbn [br_next].
      change (ticket_for i (m {{ wt_known := r' :: wt_known m }})) with (ticket_for i m). lia.
  - apply Hst; [done|done|done|]. apply Hcr.
Qed.

Lemma advances_get s H0 m i : bsys_inv s H0 -> watch_inv s H0 m ->
  advances s (performed (SessGet i) (sessions_get i) s) H0 m (SessGet i) (sessions_get i (by_sessions s)).2.
Proof.
  intros Hi Hm. assert (performed (SessGet i) (sessions_get i) s = s) as -> by (by destruct s).
  cbn [sessions_get snd]. destruct (assoc i (by_sessions s)) as [r|] eqn:Er; [|by apply advances_still].
  destruct Hi as [Hi _]. destruct (h_current _ _ _ Hi i r Er) as [Eid Hr]. exists H0.
  split_and!; [done|done|split; [done|eapply consistent_in; [done|apply Hm|done]]|by apply (watch_known _ _ _ _ (wt_ticket m))|done|done].
Qed.

Lemma advances_find s H0 m task : bsys_inv s H0 -> watch_inv s H0 m ->
  advances s (performed (SessFind task) (find_active_for_task task) s) H0 m (SessFind task) (find_active_for_task task (by_sessions s)).2.
Proof.
  intros [Hi _] Hm. assert (performed (SessFind task) (find_active_for_task task) s = s) as -> by (by destruct s).
  cbn [find_active_for_task snd]. set (l := stable_sort _ _).
  assert (forall r, r ∈ l -> assoc (bs_session_id r) (by_sessions s) = Some r /\ r ∈ H0) as Hl.
  { intros r Hr. apply found_stored in Hr as [i Hr]; [|apply Hi]. by destruct (h_current _ _ _ Hi i r Hr) as [<- ?]. }
  exists H0. destruct Hm as [Hk Hc Hh]. split_and!; [done|done| |split; [|done|done]|done|done].
  - intros r Hr. destruct (Hl r Hr) as [E Hin]. split; [by eapply consistent_in|]. intros r' Hr' Eid. destruct (Hl r' Hr') as [E' _]. congruence.
  - change ((l ++ wt_known m)%list ⊆ H0). intros r [Hr|Hr]%elem_of_app; [by apply Hl|by apply Hk].
Qed.

(** The save that starts a submission is the first of its session. *)
Lemma first_entry s log H0 m r v r0 : history s log H0 -> known_at m (bs_session_id r) v = Some r0 -> session_step m r0 r ->
  assoc (bs_session_id r) s = Some r0 -> enters m r v = true -> entered (bs_session_id r) H0 = 0%nat /\ bs_state r = EXECUTING.
Proof.
  intros Hi Ek Hstep Ec En. unfold enters in En. rewrite Ek in En.
  apply andb_true_iff in En as [Es%bool_decide_eq_true En%negb_true_iff%bool_decide_eq_false]. split; [|done].
  pose proof (entered_le (bs_session_id r) H0). destruct (entered (bs_session_id r) H0) as [|[|n]] eqn:E0; [done| |lia].
  destruct (entered_spent _ _ _ _ Hi E0) as (cur & Ecur & Hsp). assert (cur = r0) as -> by congruence.
  destruct (step_state _ _ _ Hstep) as [E|E]; [congruence|]. rewrite Es in E. destruct (bs_state r0); try done; cbn in E; set_solver.
Qed.

Lemma advances_save s H0 m r v t : bsys_inv s H0 -> watch_inv s H0 m -> br_ok _ m (SessSave r v) ->
  advances s (performed (SessSave r v) (sessions_save r v t) s) H0 m (SessSave r v) (sessions_save r v t (by_sessions s)).2.
Proof.
  intros Hi Hm Hok. pose proof Hi as [Hh0 Hn]. pose proof (save_history _ _ _ m r v t Hh0 Hn (wi_known _ _ _ Hm) (wi_collected _ _ _ Hm) (wi_heard _ _ _ Hm) Hok) as Hsv.
  pose proof (performed_log (SessSave r v) (sessions_save r v t) s) as Hl.
  pose proof (fun i => performed_clicks (SessSave r v) (sessions_save r v t) s i eq_refl) as Hcl.
  pose proof (advances_stored s H0 m (SessSave r v) (sessions_save r v t)) as Hst. cbv zeta in Hst. unfold performed in *.
  destruct (sessions_save r v t (by_sessions s)) as [s' [r'|e]]; cbn [fst snd] in *; [|by apply Hst; [..|apply Hsv]].
  destruct Hsv as (Hh & Er & Hr & r0 & Ek & Hstep & Ec). exists (s'.*2 ++ H0)%list. assert (H0 ⊆ (s'.*2 ++ H0)%list) as Hsub by set_solver.
  assert (r' ∈ (s'.*2 ++ H0)%list) as Hr' by set_solver. pose proof (watch_grows _ _ _ _ m Hsub Hl Hm) as Hm'.
  split_and!; [done|done|split; [by exists t|]|by apply watch_known|done|].
  - apply (consistent_in _ _ _ m r' Hh); [apply Hm'|done].
  - intros i. rewrite Hcl. pose proof (entered_mono i H0 (s'.*2 ++ H0)%list Hsub) as He. cbn [br_next]. destruct (enters m r v) eqn:En; [|change (
      ticket_for i (m {{ wt_known := r' :: wt_known m; wt_ticket := wt_ticket m }})) with (ticket_for i m); lia].
    destruct (first_entry _ _ _ _ _ _ _ Hh0 Ek Hstep Ec En) as [E0 Es].
    unfold ticket_for at 1. cbn [wt_ticket]. change (wt_ticket _) with (Some (bs_session_id r)) at 1. destruct (decide _) as [[= <-]|]; [|lia].
    rewrite E0. assert (entered (bs_session_id r) (s'.*2 ++ H0)%list = 1%nat) as ->; [|lia].
    unfold entered. rewrite decide_True; [done|]. apply Exists_exists. exists r'. split; [done|]. by rewrite Er.
Qed.

Lemma advances_recover s H0 m owners t : bsys_inv s H0 -> watch_inv s H0 m ->
  advances s (performed (SessRecover owners) (recover_stale_executions owners t) s) H0 m (SessRecover owners)
    (recover_stale_executions owners t (by_sessions s)).2.
Proof.
  intros Hi Hm. destruct (advances_stored s H0 m (SessRecover owners) (recover_stale_executions owners t) cancelled)
    as (H1 & Hs & Hi' & _ & Hw & Hcl & Hn); [done|done|done|by apply recover_history, Hi|]. by exists H1.
Qed.

(** The companion and the adapter store answer; the monitor hears what is logged. *)
Lemma advances_heard {X} s H0 m (op : brE X) ans o : bsys_inv s H0 -> watch_inv s H0 m -> br_may X m op ans -> clicked o = None ->
  noted op ans = [o] -> br_next X m op ans = m {{ wt_collected := wt_collected (br_next X m op ans); wt_heard := o :: wt_heard m }} ->
  option_list (wt_collected (br_next X m op ans)) ⊆ (option_list (collected o) ++ option_list (wt_collected m))%list ->
  advances s (note (noted op ans) s) H0 m op ans.
Proof.
  intros [Hi _] [Hk Hc Hh] Ha Ho Hno Hnx Hco. exists H0. rewrite Hno. assert (by_log (note [o] s) = o :: by_log s) as El by done.
  split_and!; [done|by apply (history_log _ _ [o])|done| |rewrite El; set_solver|].
  - split; [rewrite Hnx; exact Hk| |rewrite Hnx, El; change (o :: wt_heard m ⊆ o :: by_log s); set_solver].
    unfold by_collected in *. rewrite El. etrans; [exact Hco|]. destruct o; cbn [collected option_list omap list_omap app] in *; set_solver.
  - intros i. unfold clicks, by_clicks. rewrite El. change (omap clicked (o :: by_log s)) with (match clicked o with Some c => c :: omap clicked (by_log s) | None => omap clicked (by_log s) end).
    rewrite Ho, Hnx. done.
Qed.

Lemma advances_outside {X} s H0 m (op : brE X) ans : is_store op = false -> br_ok X m op -> bsys_inv s H0 -> watch_inv s H0 m ->
  advances s (note (noted op ans) s) H0 m op ans.
Proof.
  intros Ho Hok Hi Hm. assert (note [] s = s) as Hnil by (by destruct s).
  destruct op; try done; try (by cbn [noted]; rewrite Hnil; apply advances_still).
  - destruct ans as [v|e]; [|by cbn [noted]; rewrite Hnil; apply advances_refused].
    destruct v as [| | | | | |d|]; try (by cbn [noted]; rewrite Hnil; exists H0; destruct Hi, Hm; split_and!; [done..|split; [done|cbn; set_solver|done]|done|done]).
    apply (advances_heard _ _ _ _ _ (Collected url d)); [done..|]. cbn. set_solver.
  - exists H0. destruct Hi as [Hi _], Hm as [Hk Hc Hh].
    split_and!; [done|by apply (history_log _ _ [_])|done|split; [done|done|cbn; set_solver]|cbn; set_solver|]. intros i.
    change (ticket_for i (br_next json m (CompClick c) ans)) with 0%nat. unfold clicks.
    change (by_clicks (note (noted (CompClick c) ans) s)) with (c :: by_clicks s). cbn [List.filter]. cbn in Hok. unfold ticket_for. rewrite Hok.
    case_bool_decide as E; [subst i; rewrite decide_True by done; cbn [length]; lia|lia].
  - destruct ans as [[found|]|e]; [by apply (advances_heard _ _ _ _ _ (Described extension_id adapter_id adapter_version found))|by cbn [noted]; rewrite Hnil; apply advances_still..].
  - destruct ans as [l|e]; [by apply (advances_heard _ _ _ _ _ (Listed extension_id l))|by cbn [noted]; rewrite Hnil; apply advances_still].
Qed.

Lemma broker_op_advances {X} s s' H0 m (op : brE X) ans : br_ok X m op -> bsys_inv s H0 -> watch_inv s H0 m -> by_step X op s s' ans ->
  advances s s' H0 m op ans.
Proof.
  intros Hok Hi Hm [t h Hop|t h e Hop|e|ans' Ho]; [| |by apply advances_refused|by apply advances_outside].
  - destruct op; try done; injection Hop as <-;
      first [by apply advances_create|by apply advances_save|by apply advances_recover|by apply advances_get|by apply advances_find].
  - assert (is_store op = true) as Ho by (by destruct op). apply advances_stored; [done|done|done|].
    pose proof Hi as [Hh Hn]. unfold performed, note. destruct op; try done; injection Hop as <-; cbn [by_sessions by_log].
    + pose proof (create_history _ _ _ record Hh Hok) as Hcr. by destruct (sessions_create record (by_sessions s)) as [s2 r]; destruct Hcr.
    + by apply history_same.
    + pose proof (save_history _ _ _ m record expected_version t Hh Hn (wi_known _ _ _ Hm) (wi_collected _ _ _ Hm) (wi_heard _ _ _ Hm) Hok) as Hsv.
      by destruct (sessions_save record expected_version t (by_sessions s)) as [s2 r]; destruct Hsv.
    + by apply history_same.
    + by apply recover_history.
Qed.

End history.

(** ** Any number of operations *)

Section system.
Context `{Unicode}.
Context (iso_other : string -> result Z) (re_valid : string -> bool) (re_fullmatch : string -> string -> result bool).
Context (_allowed_origins : list string) (_origin_mode : string) (_limits : BrowserLimits) (_submit_enabled : bool).

Definition ignore {A} (p : prog brE A) : prog brE unit := _ ← p; Ret tt.

(** The operations of [BrowserSessionBroker]. *)
Inductive serves : prog brE unit -> Prop :=
| serves_create task ext ver purpose owner :
    serves (ignore (create_session _allowed_origins _origin_mode task ext ver purpose owner))
| serves_get sid ext : serves (ignore (get_session sid ext))
| serves_status sid ext : serves (ignore (session_status sid ext))
| serves_close sid ext : serves (close_session sid ext)
| serves_cancel sid ext : serves (cancel_session sid ext)
| serves_register d : serves (ignore (register_adapter re_valid _allowed_origins _origin_mode d))
| serves_adapters ext : serves (ignore (list_adapters ext))
| serves_navigate sid ext ad txn url : serves (ignore (navigate _allowed_origins _origin_mode _limits sid ext ad txn url))
| serves_snapshot sid ext ad txn : serves (ignore (snapshot _allowed_origins _origin_mode _limits sid ext ad txn))
| serves_find_text sid ext q : serves (ignore (find_text sid ext q))
| serves_discovery sid ext n : serves (ignore (record_discovery sid ext n))
| serves_preparation sid ext ad ver app txn fp n : serves (ignore (record_preparation _limits sid ext ad ver app txn fp n))
| serves_navigation sid ext ad txn : serves (ignore (execute_navigation _allowed_origins _origin_mode _limits sid ext ad txn))
| serves_fill sid task ext plan :
    serves (ignore (execute_fill iso_other re_fullmatch _allowed_origins _origin_mode _limits sid task ext plan))
| serves_submit sid task ext hash nonce action owner :
    serves (ignore (execute_submit iso_other _allowed_origins _origin_mode _limits _submit_enabled sid task ext hash nonce action owner))
| serves_reconcile sid ext : serves (ignore (reconcile _allowed_origins _origin_mode sid ext))
| serves_recover owners : serves (ignore (recover_stale_sessions owners))
| serves_aclose : serves broker_aclose.

Lemma calm_nothing : calm nothing_known.
Proof. intros r Hr. cbn in Hr. by apply not_elem_of_nil in Hr. Qed.

Lemma ht_ignore {A} m (p : prog brE A) Q : ht m p Q -> ht m (ignore p) (fun _ _ => True).
Proof. intros Hp. eapply ht_bind; [exact Hp|]. by intros; apply ht_ret. Qed.

Lemma serves_ht p : serves p -> ht nothing_known p (fun _ _ => True).
Proof.
  pose proof calm_nothing as Hc. intros Hp.
  destruct Hp; try (apply (ht_ignore _ _ (fun _ _ => True))); try (by apply ht_create_session); try (by apply ht_session_status);
    try (by apply ht_close_session); try (by apply ht_cancel_session); try (by apply ht_navigate); try (by apply ht_snapshot_op);
    try (by apply ht_find_text); try (by apply ht_record_discovery); try (by apply ht_record_preparation);
    try (by apply ht_execute_navigation); try (by apply ht_execute_fill); try (by apply ht_execute_submit); try (by apply ht_reconcile);
    try (by apply (ht_silent_end _ _ (fun _ _ => True))).
  - apply ht_end, ht_get_session; [done|]. intros. by apply (ht_ret _ _ (fun _ _ => True)).
  - unfold register_adapter. apply ht_res; [done|]. intros _ _. apply ht_silent; [done..|]. intros t. apply ht_adapter_get; [done|]. intros m1 found Hc1 _ _.
    by apply (ht_silent_end _ _ (fun _ _ => True)).
  - apply ht_end, ht_adapter_list; [done|]. intros. by apply (ht_ret _ _ (fun _ _ => True)).
Qed.

Notation bwp := (rwp br_ok br_next br_may).
Notation bconfig := (bsys * list (prog brE unit))%type.
Notation bstep := (pstep by_step serves).

Definition thread_ok (s : bsys) (H0 : list BrowserSessionRecord) (p : prog brE unit) (m : watch) : Prop :=
  bwp p m (fun _ _ => True) /\ watch_inv s H0 m.

Definition tickets (i : string) (ms : list watch) : nat := sum_list (ticket_for i <$> ms).

Definition broker_inv (H0 : list BrowserSessionRecord) (c : bconfig) : Prop :=
  exists ms, history (by_sessions c.1) (by_log c.1) H0 /\ Forall2 (thread_ok c.1 H0) c.2 ms /\ forall i, (tickets i ms + clicks i c.1 <= entered i H0)%nat.

Lemma broker_thread_mono s s' H0 H1 p m : H0 ⊆ H1 -> by_log s ⊆ by_log s' -> thread_ok s H0 p m -> thread_ok s' H1 p m.
Proof. intros Hs Hl (Hp & Hw). split; [done|]. by eapply watch_grows. Qed.

Lemma tickets_insert i ms j m m' : ms !! j = Some m ->
  (tickets i (<[j := m']> ms) + ticket_for i m = tickets i ms + ticket_for i m')%nat.
Proof.
  intros Hj. unfold tickets. rewrite list_fmap_insert.
  apply (sum_list_insert _ j (ticket_for i m) (ticket_for i m')). apply list_lookup_fmap_Some. by exists m.
Qed.

(** One coroutine performs one operation. *)
Lemma run_inv H0 s s' ts j X (op : brE X) k ans : ts !! j = Some (Vis op k) -> by_step X op s s' ans -> broker_inv H0 (s, ts) ->
  exists H1, broker_inv H1 (s', <[j := k ans]> ts).
Proof.
  intros Hj Hs (ms & Hi & Hf & Hn). destruct (Forall2_lookup_l _ _ _ _ _ Hf Hj) as (m & Hm & [Hok Hk] & Hw). cbn [fst snd] in *.
  assert (bsys_inv s H0) as Hb. { split; [done|]. apply clicks_counted. intros i. specialize (Hn i). lia. }
  destruct (broker_op_advances s s' H0 m op ans Hok Hb Hw Hs) as (H1 & Hsub & Hi' & Hmay & Hw' & Hcol & Hcount).
  exists H1, (<[j := br_next X m op ans]> ms). split_and!; cbn [fst snd]; [done| |].
  - apply Forall2_insert; [|by split; [apply Hk|]]. eapply Forall2_impl; [exact Hf|]. intros p m0. by apply broker_thread_mono.
  - intros i. specialize (Hn i). specialize (Hcount i). pose proof (tickets_insert i ms j m (br_next X m op ans) Hm). lia.
Qed.

Lemma bstep_inv c c' : bstep c c' -> (exists H0, broker_inv H0 c) -> exists H0, broker_inv H0 c'.
Proof.
  intros Hstep [H0 Hinv]. destruct Hstep as [s s' ts j X op k r Hj Hs|s ts j X op k Hj|s ts j p Hj|s ts p Hp].
  - by eapply run_inv.
  - eapply run_inv; [done|apply by_refused|done].
  - destruct Hinv as (ms & Hi & Hf & Hn). destruct (Forall2_lookup_l _ _ _ _ _ Hf Hj) as (m & Hm & _ & Hw). cbn [fst snd] in *.
    exists H0, (<[j := m]> ms). split_and!; [done|by apply Forall2_insert|]. intros i. pose proof (tickets_insert i ms j m m Hm).
    specialize (Hn i). cbn [fst]. lia.
  - destruct Hinv as (ms & Hi & Hf & Hn). exists H0, (ms ++ [nothing_known])%list. cbn [fst snd] in *. split_and!; [done| |].
    + apply Forall2_app; [done|]. repeat constructor; [|cbn; set_solver..]. eapply rwp_mono; [by apply serves_ht|done].
    + intros i. unfold tickets. rewrite fmap_app, sum_list_app. specialize (Hn i). unfold tickets in Hn.
      change (sum_list (ticket_for i <$> [nothing_known])) with 0%nat. lia.
Qed.

Lemma broker_reachable s ts : star bstep (no_sessions, []) (s, ts) -> exists H0, broker_inv H0 (s, ts).
Proof.
  intros Hs. apply (star_invariant bstep (fun c => exists H0, broker_inv H0 c) bstep_inv _ _ Hs). exists [], []. split_and!; [|constructor|done].
  split; cbn; [apply NoDup_nil_2|done| | | | |done]; intros; exfalso; by eapply not_elem_of_nil.
Qed.

(** C7. Whatever the companion, the page and the store answer, and however broker operations, cancellations,
    crashes and recoveries of stale executions interleave: the companion is asked to press the submit button
    of a session at most once, and a session for which it was asked is from then on stored as EXECUTING,
    UNKNOWN, SUCCEEDED or FAILED; a task never has two open sessions. *)
Theorem a_session_is_submitted_at_most_once s ts : star bstep (no_sessions, []) (s, ts) ->
  (forall i, (clicks i s <= 1)%nat) /\
  (forall i, clicks i s = 1%nat -> exists r, assoc i (by_sessions s) = Some r /\ bs_session_id r = i /\
     bs_state r ∈ [EXECUTING; UNKNOWN; SUCCEEDED; FAILED]) /\
  (forall i j ri rj, assoc i (by_sessions s) = Some ri -> assoc j (by_sessions s) = Some rj ->
     bs_task_id ri = bs_task_id rj -> terminal (bs_state ri) = false -> terminal (bs_state rj) = false -> i = j).
Proof.
  intros (H0 & ms & Hi & _ & Hn)%broker_reachable. cbn [fst snd] in *. split_and!.
  - intros i. specialize (Hn i). pose proof (entered_le i H0). lia.
  - intros i Hc. specialize (Hn i). pose proof (entered_le i H0). destruct (entered_spent _ _ _ i Hi) as (r & Hr & Hs); [lia|].
    exists r. split; [done|]. split; [by apply (h_current _ _ _ Hi)|]. by apply mem_b_true in Hs.
  - intros i j ri rj Hri Hrj Ht Ho1 Ho2. eapply (h_open _ _ _ Hi i j); unfold _OPEN_STATES; [done|done|apply negb_true_iff, Ho1|apply negb_true_iff, Ho2|done].
Qed.


End system.
