(* ===== verification/BrowserSubmit.v ===== *)
(** * BrowserSubmit: what the one click carries

    The monitor is the list of everything that was asked and answered so far.  Before [execute_submit] asks
    for the click, that list justifies it: the preview the user confirmed, the registered adapter, and the
    live page as the companion last showed it. *)

From stdpp Require Import sorting.
From S2P Require Import Prelude Text PyFloat Sha256 Json JsonParse Schemas Domain Monitor Scheduling Url BrowserPolicy PyValue BrowserModels.
From S2P Require Import BrowserAdapters BrowserSession.
Local Open Scope string_scope.
Local Open Scope Z_scope.
Import BrowserSessionState.
Set Default Proof Using "Type".

Notation past := (list (event brE)).

Lemma elem_here {A} (x : A) l : x ∈ x :: l.
Proof. apply list_elem_of_here. Qed.

Lemma latest_elem best l : latest best l ∈ best :: l.
Proof.
  revert best; induction l as [|r l IH]; intros best; cbn [latest]; [apply elem_here|].
  specialize (IH (if bar_updated_at best <? bar_updated_at r then r else best)). destruct (_ <? _); set_solver.
Qed.

(** The page shows no risk above the declared one: no term of a prohibited category, and no other signal
    that is prohibited or riskier than what the adapter declares. *)
Definition risk_as_declared (d : TransactionAdapterDescriptor) (signals : list RiskSignal) : Prop :=
  ad_declared_risk d <> PROHIBITED /\
  forall s, s ∈ signals ->
    if bool_decide (rs_code s = "PROHIBITED_TERM") then forall c, ProhibitedCategory.value c <> rs_detail s
    else rs_risk s <> PROHIBITED /\ risk_rank (rs_risk s) <= risk_rank (ad_declared_risk d).

Lemma find_in {A} (f : A -> bool) l x : List.find f l = Some x -> x ∈ l /\ f x = true.
Proof. intros [Hin Hf]%List.find_some. by rewrite list_elem_of_In. Qed.

Lemma split_signals_spec signals :
  (forall s, s ∈ signals -> rs_code s = "PROHIBITED_TERM" -> forall c, ProhibitedCategory.value c = rs_detail s -> (_split_signals signals).1 <> []) /\
  (forall s, s ∈ signals -> rs_code s <> "PROHIBITED_TERM" -> s ∈ (_split_signals signals).2).
Proof.
  induction signals as [|x signals [IH1 IH2]]; [split; intros s Hs; by apply not_elem_of_nil in Hs|].
  cbn [_split_signals]. destruct (_split_signals signals) as [matches others]. cbn [fst snd] in *.
  split; intros s [->|Hs]%elem_of_cons Hc.
  - rewrite bool_decide_eq_true_2 by done. cbn [fst]. intros c Hv. destruct (List.filter _ _) as [|y l] eqn:E; [|done].
    assert (c ∈ List.filter (fun c => bool_decide (ProhibitedCategory.value c = rs_detail x)) ProhibitedCategory.all) as Hin; [|by rewrite E in Hin; apply not_elem_of_nil in Hin].
    apply list_elem_of_In, List.filter_In. split; [destruct c; cbn; tauto|by apply bool_decide_eq_true].
  - intros c Hv. specialize (IH1 s Hs Hc c Hv). case_bool_decide; cbn [fst]; [|done].
    intros E. by apply app_eq_nil in E as [_ ?].
  - rewrite bool_decide_eq_false_2 by done. apply elem_here.
  - specialize (IH2 s Hs Hc). case_bool_decide; cbn [snd]; [done|]. by right.
Qed.

Lemma not_escalated d signals : escalated d signals = false -> risk_as_declared d signals.
Proof.
  unfold escalated, page_risk. destruct (split_signals_spec signals) as [Hm Ho].
  destruct (_split_signals signals) as [matches others]. cbn [fst snd] in *. unfold prohibited, assess_risk.
  set (start := {| ra_risk := _; ra_categories := _; ra_signals := []; ra_escalated := false |}).
  destruct (signals_raise others (foldl add_match start matches)) as (H1 & H2 & _). rewrite matches_prohibit in H1.
  set (acc := foldl add_signal _ others) in *. cbn [ra_risk].
  intros [Hp Hr]%orb_false_iff. apply bool_decide_eq_false in Hp. apply Z.ltb_ge in Hr.
  destruct (Z.ltb_spec (risk_rank (ra_risk acc)) (risk_rank (ad_declared_risk d))).
  { exfalso. destruct matches; [cbn in H1; lia|]. destruct (ad_declared_risk d); cbn in *; lia. }
  destruct matches as [|m matches]; [|exfalso; apply Hp, prohibited_highest; exact H1].
  split.
  - intros E. apply Hp, prohibited_highest. etransitivity; [|exact H1]. cbn. by rewrite E.
  - intros s Hs. case_bool_decide as Hc.
    + intros c Hv. by apply (Hm s Hs Hc c Hv).
    + specialize (Ho s Hs Hc). rewrite Forall_forall in H2. specialize (H2 s Ho). split; [|lia].
      intros E. apply Hp, prohibited_highest. by rewrite E in H2.
Qed.

Section submit.
Context `{Unicode}.
Context (iso_other : string -> result Z).
Context (_allowed_origins : list string) (_origin_mode : string) (_limits : BrowserLimits) (_submit_enabled : bool).
(** The arguments of [execute_submit]. *)
Context (session_id task_id extension_id preview_hash preview_nonce action_id owner_id : string).

(** The store answered with this record. *)
Definition answered_record (h : past) (r : BrowserSessionRecord) : Prop :=
  Event (SessGet session_id) (Ok (Some r)) ∈ h \/ exists r0 v, Event (SessSave r0 v) (Ok r) ∈ h.

(** The adapter store answered with a registration of [d]. *)
Definition answered_adapter (h : past) (d : TransactionAdapterDescriptor) : Prop :=
  exists found, descriptor_from_document (bar_descriptor found) = Ok d /\
    ((exists x a v, Event (AdGet x a v) (Ok (Some found)) ∈ h) \/ exists x l, Event (AdList x) (Ok l) ∈ h /\ found ∈ l).

(** The page that the companion showed, as the broker reads it with the adapter [d]. *)
Record page_read (d : TransactionAdapterDescriptor) (raw : mapping) (page : PageSnapshot) : Prop := {
  page_fingerprint : exists reading, read_page _allowed_origins _origin_mode _limits raw (_adapter_paths d) = Ok reading /\
    ps_fingerprint page = pr_fingerprint reading /\
    (live ← live_controls [] (pr_controls reading); result_map (page_field (Some d)) live) = Ok (ps_fields page);
  page_signals : ps_signals page = _parse_signals (get_or "signals" (JList []) raw);
  page_scanned : flag "scan_incomplete" raw = false
}.
Definition answered_page (h : past) (d : TransactionAdapterDescriptor) (page : PageSnapshot) : Prop :=
  exists sid login raw, Event (CompSnapshot sid (ad_forbidden_terms d) true login) (Ok (JObj raw)) ∈ h /\ page_read d raw page.

(** The adapter's final action is the previewed one. *)
Record targets (preview : TransactionPreview) (d : TransactionAdapterDescriptor) (final : AdapterActionSpec) : Prop := {
  tg_declared : final ∈ ad_actions d;
  tg_final : as_final final = true;
  tg_requested : as_action_id final = action_id;
  tg_permitted : as_risk final <> PROHIBITED;
  tg_action : tp_target_action_id preview = as_action_id final;
  tg_method : str_upper (tp_target_method preview) = str_upper (as_method final);
  tg_origin : tp_target_origin preview = as_target_origin final;
  tg_path : tp_target_path preview = as_target_path final
}.

(** The click carries the previewed action, target and values. *)
Record carries (c : click) (preview : TransactionPreview) (d : TransactionAdapterDescriptor) (final : AdapterActionSpec) : Prop := {
  cy_session : ck_session_id c = session_id;
  cy_action : ck_action_id c = tp_target_action_id preview;
  cy_button : ck_locator c = as_locator final;
  cy_receipt : ck_receipt_locator c = ad_receipt_locator d;
  cy_method : str_upper (ck_method c) = str_upper (tp_target_method preview);
  cy_origin : ck_origin c = tp_target_origin preview;
  cy_path : ck_path c = tp_target_path preview;
  cy_payload : form_payload_sha256 ((fun f => (fc_locator f, fc_new_value f)) <$> tp_fields preview) = Ok (ck_payload_sha256 c);
  cy_locators : ck_payload_locators c = str_join "," (fc_locator <$> tp_fields preview)
}.

(** Everything a click stands on; the history has its newest event first. *)
Record justified (h : past) (c : click) (r : BrowserSessionRecord) (preview : TransactionPreview) (d : TransactionAdapterDescriptor)
    (final : AdapterActionSpec) (page : PageSnapshot) : Prop := {
  just_enabled : _submit_enabled = true;
  just_record : answered_record h r /\ bs_state r = PREVIEW_READY /\ bs_task_id r = task_id;
  just_confirmed : bs_preview_hash r = preview_hash /\ bs_preview_nonce r = preview_nonce /\ preview_hash <> "" /\ preview_nonce <> "";
  just_preview : exists document, bs_preview r = Some document /\ from_document iso_other document = Ok preview;
  just_fresh : exists t, Event BNow (Ok t) ∈ h /\ t < tp_expires_at preview;
  just_adapter : answered_adapter h d /\ ad_extension_version d = bs_extension_version r;
  just_action : targets preview d final;
  just_page : answered_page h d page /\ ps_fingerprint page = tp_page_fingerprint preview;
  just_values : forall change, change ∈ tp_fields preview ->
    exists live, live ∈ ps_fields page /\ pf_field_id live = fc_field_id change /\ pf_value live = fc_new_value change;
  just_risk : risk_as_declared d (ps_signals page);
  just_executing : exists e v e', head h = Some (Event (SessSave e v) (Ok e')) /\ bs_state e = EXECUTING /\ bs_owner_id e = owner_id;
  just_click : carries c preview d final
}.

Definition sub_ok (X : Type) (h : past) (op : brE X) : Prop :=
  match op with CompClick c => exists r preview d final page, justified h c r preview d final page | _ => True end.
Definition sub_next (X : Type) (h : past) (op : brE X) (ans : result X) : past := Event op ans :: h.

Definition hx {A} (h : past) (p : prog brE A) (Q : past -> A -> Prop) : Prop :=
  mwp sub_ok sub_next p h (fun h' res => h ⊆ h' /\ match res with Ok a => Q h' a | Err _ => True end).

Lemma hx_ret {A} h (a : A) Q : Q h a -> hx h (Ret a) Q.
Proof. by split. Qed.

Lemma hx_raise {A} h e (Q : past -> A -> Prop) : hx h (Raise e) Q.
Proof. by split. Qed.

Lemma hx_bind {A B} h (p : prog brE A) (f : A -> prog brE B) R Q :
  hx h p R -> (forall h' a, h ⊆ h' -> R h' a -> hx h' (f a) Q) -> hx h (p ≫= f) Q.
Proof.
  intros Hp Hf. apply mwp_bind. eapply mwp_mono; [|exact Hp]. cbn beta. intros h' [a|e] [Hs HR]; [|done].
  eapply mwp_mono; [|by apply Hf]. cbn beta. intros h2 res [H1 H2]. split; [by etransitivity|done].
Qed.

Lemma hx_match {A B} h (p : prog brE A) (f : A -> prog brE B) k R Q :
  hx h p R -> (forall h' a, h ⊆ h' -> R h' a -> hx h' (f a) Q) -> (forall h' e, h ⊆ h' -> hx h' (k e) Q) -> hx h (prog_match p f k) Q.
Proof.
  intros Hp Hf Hk. apply mwp_match. eapply mwp_mono; [|exact Hp]. cbn beta. intros h' [a|e] [Hs HR].
  - eapply mwp_mono; [|by apply Hf]. cbn beta. intros h2 res [H1 H2]. split; [by etransitivity|done].
  - eapply mwp_mono; [|by apply Hk]. cbn beta. intros h2 res [H1 H2]. split; [by etransitivity|done].
Qed.

Lemma hx_mono {A} h (p : prog brE A) (R Q : past -> A -> Prop) : hx h p R -> (forall h' a, R h' a -> Q h' a) -> hx h p Q.
Proof. intros Hp HQ. eapply mwp_mono; [|exact Hp]. intros h' [a|e] [Hs HR]; split; auto. Qed.

Lemma hx_res {A B} h (r : result A) (f : A -> prog brE B) Q : (forall a, r = Ok a -> hx h (f a) Q) -> hx h (of_result r ≫= f) Q.
Proof. intros Hf. destruct r as [a|e]; [by apply Hf|by apply hx_raise]. Qed.

Lemma hx_perform {X} h (op : brE X) (Q : past -> X -> Prop) :
  sub_ok X h op -> (forall a, Q (Event op (Ok a) :: h) a) -> hx h (perform op) Q.
Proof. intros Hok HQ. apply mwp_perform; [done|]. intros [a|e]; (split; [intros x Hx; by right|]); [apply HQ|done]. Qed.

Lemma hx_op {X B} h (op : brE X) (f : X -> prog brE B) Q :
  sub_ok X h op -> (forall a, hx (Event op (Ok a) :: h) (f a) Q) -> hx h (perform op ≫= f) Q.
Proof.
  intros Hok Hf. apply (hx_bind _ _ _ (fun h' a => h' = Event op (Ok a) :: h)); [by apply hx_perform|]. intros h' a _ ->. apply Hf.
Qed.

(** A coroutine that asks for no click. *)
Definition no_click {A} (p : prog brE A) : Prop := forall h, hx h p (fun _ _ => True).

Lemma nc_hx {A} (p : prog brE A) h (Q : past -> A -> Prop) : no_click p -> (forall h' a, Q h' a) -> hx h p Q.
Proof. intros Hp HQ. eapply hx_mono; [apply Hp|]. intros; apply HQ. Qed.
Lemma nc_bind {A B} (p : prog brE A) (f : A -> prog brE B) : no_click p -> (forall a, no_click (f a)) -> no_click (p ≫= f).
Proof. intros Hp Hf h. eapply hx_bind; [apply Hp|]. intros h' a _ _. apply Hf. Qed.
Lemma nc_match {A B} (p : prog brE A) (f : A -> prog brE B) k :
  no_click p -> (forall a, no_click (f a)) -> (forall e, no_click (k e)) -> no_click (prog_match p f k).
Proof. intros Hp Hf Hk h. eapply hx_match; [apply Hp| |]; [intros h' a _ _; apply Hf|intros h' e _; apply Hk]. Qed.
Lemma nc_ret {A} (a : A) : no_click (Ret a).
Proof. intros h. by apply hx_ret. Qed.
Lemma nc_raise {A} e : no_click (Raise e : prog brE A).
Proof. intros h. apply hx_raise. Qed.
Lemma nc_of_result {A} (r : result A) : no_click (of_result r).
Proof. destruct r; [apply nc_ret|apply nc_raise]. Qed.
Lemma nc_perform {X} (op : brE X) : (forall h, sub_ok X h op) -> no_click (perform op).
Proof. intros Hok h. by apply hx_perform. Qed.

(** Walks a coroutine, closing the calls it knows. *)
Ltac no_click_walk tac :=
  repeat first
    [ apply nc_ret | apply nc_raise | apply nc_of_result | (apply nc_perform; intros; exact I) | tac
    | (apply nc_match; [|intros|intros]) | (apply nc_bind; [|intros])
    | match goal with
      | |- no_click (if ?b then _ else _) => destruct b
      | |- no_click (match ?x with _ => _ end) => destruct x
      end ].

Lemma nc_move r target u : no_click (move r target u).
Proof. unfold move, _save. no_click_walk ltac:(fail). Qed.

Lemma nc_pause r code : no_click (_pause r code).
Proof. unfold _pause. no_click_walk ltac:(apply nc_move). Qed.

Lemma nc_expire r code : no_click (_expire r code).
Proof. unfold _expire, quiet. no_click_walk ltac:(apply nc_move). Qed.

Lemma nc_get_session sid ext : no_click (get_session sid ext).
Proof. unfold get_session. no_click_walk ltac:(apply nc_expire). Qed.

Lemma nc_require_adapter r a v : no_click (_require_adapter r a v).
Proof. unfold _require_adapter, deny_if, deny, stop_if. no_click_walk ltac:(fail). Qed.

Lemma nc_collect sid d limit : no_click (collect_tracking _allowed_origins _origin_mode sid d limit).
Proof. unfold collect_tracking. no_click_walk ltac:(fail). Qed.

Lemma nc_baseline r d : no_click (_tracking_baseline _allowed_origins _origin_mode r d).
Proof. unfold _tracking_baseline, deny_if. no_click_walk ltac:(apply nc_collect). Qed.

Lemma nc_reconcile sid ext : no_click (reconcile _allowed_origins _origin_mode sid ext).
Proof.
  unfold reconcile, conclude, diagnose, deny_if, stop_if, _save.
  no_click_walk ltac:(first [apply nc_get_session|apply nc_require_adapter|apply nc_collect]).
Qed.

Lemma nc_mark_unknown r sid ext code : no_click (_mark_submit_unknown_and_converge _allowed_origins _origin_mode r sid ext code).
Proof.
  unfold _mark_submit_unknown_and_converge, _transition_terminal, _converge_submission, stop, raise_prog.
  no_click_walk ltac:(first [apply nc_move|apply nc_reconcile]).
Qed.

Lemma nc_settle r sid ext code : no_click (_settle_submit_outcome _allowed_origins _origin_mode r sid ext code).
Proof. unfold _settle_submit_outcome. no_click_walk ltac:(apply nc_mark_unknown). Qed.

(** ** What the steps before the click establish *)

Lemma hx_move_record h r target u : hx h (move r target u) answered_record.
Proof.
  unfold move, _save. apply hx_op; [done|]. intros t. apply hx_res. intros moved _. apply hx_perform; [done|].
  intros r'. right. exists moved, (bs_version moved). apply elem_here.
Qed.

Lemma hx_get_session {B} h (f : BrowserSessionRecord -> prog brE B) Q :
  (forall h' r, h ⊆ h' -> answered_record h' r -> hx h' (f r) Q) -> hx h (get_session session_id extension_id ≫= f) Q.
Proof.
  intros Hf. apply (hx_bind _ _ _ answered_record); [|by intros h' r Hs Hr; apply Hf].
  unfold get_session. apply hx_op; [done|]. intros [r|]; [|apply hx_raise]. set (h1 := _ :: h).
  assert (answered_record h1 r) as Hr by (left; apply elem_here).
  destruct (negb _); [apply hx_raise|]. destruct (_EXPIRABLE_STATES _); [|by apply hx_ret]. apply hx_op; [done|]. intros t.
  assert (answered_record (Event BNow (Ok t) :: h1) r) as Hr2 by (left; right; apply elem_here).
  destruct (_is_expired r t); [|by apply hx_ret]. unfold _expire. destruct (bs_terminal r); [by apply hx_ret|].
  apply (hx_bind _ _ _ (fun _ _ => True)); [|intros; apply hx_move_record]. apply nc_hx; [|done]. unfold quiet. no_click_walk ltac:(fail).
Qed.

Lemma hx_require_adapter {B} h r a v (f : TransactionAdapterDescriptor -> prog brE B) Q :
  (forall h' d, h ⊆ h' -> answered_adapter h' d -> ad_extension_version d = bs_extension_version r -> hx h' (f d) Q) ->
  hx h (_require_adapter r a v ≫= f) Q.
Proof.
  intros Hf. apply (hx_bind _ _ _ (fun h' d => answered_adapter h' d /\ ad_extension_version d = bs_extension_version r));
    [|intros h' d Hs [H1 H2]; by apply Hf].
  unfold _require_adapter. apply hx_res. intros _ _. apply hx_res. intros _ _. apply (hx_bind _ _ _ (fun h' found => forall reg, found = Some reg ->
    (exists x a v, Event (AdGet x a v) (Ok (Some reg)) ∈ h') \/ exists x l, Event (AdList x) (Ok l) ∈ h' /\ reg ∈ l)).
  - case_bool_decide.
    + apply hx_op; [done|]. intros l. apply hx_ret. intros reg Hreg. right. exists (bs_extension_id r), l. split; [apply elem_here|].
      destruct (List.filter _ l) as [|x l'] eqn:El; [done|]. injection Hreg as <-.
      assert (latest x l' ∈ List.filter (fun r => bool_decide (bar_adapter_id r = a)) l) as Hin by (rewrite El; apply latest_elem).
      rewrite list_elem_of_In, List.filter_In, <- list_elem_of_In in Hin. apply Hin.
    + apply hx_perform; [done|]. intros found reg ->. left. eexists _, _, _. apply elem_here.
  - intros h' [found|] Hs Hreg; [|apply hx_raise]. apply hx_res. intros d Hd. apply hx_res. intros [] Hv.
    apply raise_if_Ok, negb_false_iff, bool_decide_eq_true in Hv. apply hx_ret. split; [|done]. exists found. split; [done|]. by apply Hreg.
Qed.

Lemma hx_snapshot {B} h r d txn (f : PageSnapshot -> prog brE B) Q :
  (forall h' page, h ⊆ h' -> answered_page h' d page -> hx h' (f page) Q) ->
  hx h (_snapshot_impl _allowed_origins _origin_mode _limits r (Some d) txn ≫= f) Q.
Proof.
  intros Hf. apply (hx_bind _ _ _ (fun h' page => answered_page h' d page)); [|by intros h' page Hs Hp; apply Hf].
  unfold _snapshot_impl. apply hx_op; [done|]. intros answer. set (h1 := _ :: h). apply hx_res. intros raw Hraw.
  assert (answer = JObj raw) as -> by (destruct answer; try done; by injection Hraw as ->).
  apply hx_res. intros reading Hread.
  apply (hx_bind _ _ _ (fun _ _ => flag "scan_incomplete" raw = false)).
  { destruct (_ && _); [eapply hx_bind; [apply nc_pause|]; intros; apply hx_raise|]. destruct (flag "scan_incomplete" raw); [|by apply hx_ret].
    eapply hx_bind; [apply nc_pause|]; intros; apply hx_raise. }
  intros h2 [] Hs2 Hscan. apply hx_res. intros fields Hfields. apply hx_op; [done|]. intros t. apply hx_res. intros origin _.
  apply (hx_bind _ _ _ (fun _ _ => True)).
  { destruct (_ || _); [|by apply hx_ret]. apply hx_res. intros moved _. apply hx_op; [done|]. intros. by apply hx_ret. }
  intros h3 [] Hs3 _. do 4 (apply hx_res; intros ? _). apply hx_ret.
  exists (bs_session_id r), (ad_login_paths d), raw. split; [apply Hs3; right; apply Hs2, elem_here|].
  split; [|done|done]. by exists reading.
Qed.

(** A check that pauses the session and raises when it fails. *)
Lemma hx_check {B} h (b : bool) r code e (f : unit -> prog brE B) Q :
  (forall h', h ⊆ h' -> b = true -> hx h' (f tt) Q) ->
  hx h ((if b then Ret tt else _ ← _pause r code; Raise e) ≫= f) Q.
Proof.
  intros Hf. apply (hx_bind _ _ _ (fun _ _ => b = true)); [|intros h' [] Hs Hb; by apply Hf].
  destruct b; [by apply hx_ret|]. eapply hx_bind; [apply nc_pause|]. intros. apply hx_raise.
Qed.

(** What holds before the checks against the live page. *)
Record cleared (h : past) (r : BrowserSessionRecord) (preview : TransactionPreview) (d : TransactionAdapterDescriptor)
    (final : AdapterActionSpec) : Prop := {
  clear_enabled : _submit_enabled = true;
  clear_record : answered_record h r /\ bs_state r = PREVIEW_READY /\ bs_task_id r = task_id;
  clear_confirmed : bs_preview_hash r = preview_hash /\ bs_preview_nonce r = preview_nonce /\ preview_hash <> "" /\ preview_nonce <> "";
  clear_preview : exists document, bs_preview r = Some document /\ from_document iso_other document = Ok preview;
  clear_fresh : exists t, Event BNow (Ok t) ∈ h /\ require_fresh preview t = Ok tt;
  clear_adapter : answered_adapter h d /\ ad_extension_version d = bs_extension_version r;
  clear_action : final_action d = Some final /\ as_action_id final = action_id /\ as_risk final <> PROHIBITED /\ same_target preview final = true
}.

Lemma answered_record_more h h' r : h ⊆ h' -> answered_record h r -> answered_record h' r.
Proof. intros Hs [Hr|(r0 & v & Hr)]; [left; by apply Hs|right; exists r0, v; by apply Hs]. Qed.

Lemma answered_adapter_more h h' d : h ⊆ h' -> answered_adapter h d -> answered_adapter h' d.
Proof.
  intros Hs (found & Hd & [(x & a & v & Hf)|(x & l & Hf & Hl)]); exists found; (split; [done|]).
  - left. exists x, a, v. by apply Hs.
  - right. exists x, l. split; [by apply Hs|done].
Qed.

Lemma answered_page_more h h' d page : h ⊆ h' -> answered_page h d page -> answered_page h' d page.
Proof. intros Hs (sid & login & raw & Hr & Hp). exists sid, login, raw. split; [by apply Hs|done]. Qed.

Lemma cleared_more h h' r preview d final : h ⊆ h' -> cleared h r preview d final -> cleared h' r preview d final.
Proof.
  intros Hs []. split; try done.
  - destruct clear_record0 as [Hr Hx]. split; [by apply (answered_record_more h)|done].
  - destruct clear_fresh0 as (t & Ht & Hf). exists t. split; [by apply Hs|done].
  - destruct clear_adapter0 as [Hr Hx]. split; [by apply (answered_adapter_more h)|done].
Qed.

(** The code's checks establish the specification. *)
Lemma clears_targets h r preview d final : cleared h r preview d final -> targets preview d final.
Proof.
  intros [_ _ _ _ _ _ (Hf & Ha & Hr & Ht)]. apply find_in in Hf as [Hin Hfin]. unfold same_target in Ht.
  rewrite !andb_true_iff, !bool_decide_eq_true in Ht. destruct Ht as [[[? ?] ?] ?]. by split.
Qed.

Lemma clears_carries c h r preview d final : cleared h r preview d final -> click_of session_id d final preview = Ok c ->
  carries c preview d final.
Proof.
  intros [_ _ _ _ H1 H2 H3 H4]%clears_targets (payload & Hp & [= <-])%result_bind_Ok.
  split; cbn; try done; congruence.
Qed.

(** Everything but the request itself. *)
Definition justified_click (h : past) (r : BrowserSessionRecord) (preview : TransactionPreview) (d : TransactionAdapterDescriptor)
    (final : AdapterActionSpec) (page : PageSnapshot) : Prop :=
  forall c, click_of session_id d final preview = Ok c -> justified h c r preview d final page.

Lemma hx_click h r preview d final page executing : justified_click h r preview d final page ->
  hx h (submit_and_settle _allowed_origins _origin_mode executing session_id extension_id d final preview) (fun _ _ => True).
Proof.
  intros Hj. unfold submit_and_settle. apply (hx_match _ _ _ _ (fun _ _ => True)).
  - unfold click_and_read. apply hx_res. intros c Hc. apply hx_op; [by exists r, preview, d, final, page; apply Hj|]. intros raw.
    apply nc_hx; [|done]. no_click_walk ltac:(apply nc_move).
  - intros h' [o|] _ _; [by apply hx_ret|apply nc_settle].
  - intros h' e _. destruct (exn_is e PyCancelledError); [|destruct (exn_is e PyException); [apply nc_settle|apply hx_raise]].
    eapply hx_bind; [|intros; apply hx_raise]. unfold _settle_after_cancellation.
    apply (nc_hx _ _ (fun _ _ => True)); [|done]. no_click_walk ltac:(apply nc_mark_unknown).
Qed.

Lemma shows_value page changes : forallb (shows page) changes = true -> forall change, change ∈ changes ->
  exists live, live ∈ ps_fields page /\ pf_field_id live = fc_field_id change /\ pf_value live = fc_new_value change.
Proof.
  intros Hall change Hin. rewrite forallb_forall in Hall. rewrite list_elem_of_In in Hin. specialize (Hall change Hin). unfold shows in Hall.
  destruct (field_by_id page (fc_field_id change)) as [live|] eqn:E; [|done]. exists live.
  apply find_in in E as [Hl Hid]. by apply bool_decide_eq_true in Hall, Hid.
Qed.

Lemma hx_commit h r preview d final t : cleared h r preview d final ->
  hx h (commit_submit _allowed_origins _origin_mode _limits r session_id extension_id owner_id t d final preview) (fun _ _ => True).
Proof.
  intros Hc. unfold commit_submit. eapply hx_bind; [apply nc_baseline|]. intros h1 baseline Hs1 _. apply (cleared_more _ _ _ _ _ _ Hs1) in Hc.
  apply hx_snapshot. intros h2 page Hs2 Hpage. apply (cleared_more _ _ _ _ _ _ Hs2) in Hc.
  apply hx_check. intros h3 Hs3 Hfp%bool_decide_eq_true. apply hx_check. intros h4 Hs4 Hval.
  assert (h2 ⊆ h4) as Hs by (by etransitivity). apply (cleared_more _ _ _ _ _ _ Hs) in Hc. apply (answered_page_more _ _ _ _ Hs) in Hpage. clear Hs.
  apply (hx_bind _ _ _ (fun _ _ => escalated d (ps_signals page) = false)).
  { unfold pause_if_escalated. destruct (escalated d (ps_signals page)); [|by apply hx_ret]. eapply hx_bind; [apply nc_pause|]. intros. apply hx_raise. }
  intros h5 [] Hs5 Hrisk. apply hx_res. intros approved _. apply hx_op; [done|]. intros approved'. apply hx_op; [done|]. intros t2.
  apply hx_res. intros document _. apply hx_res. intros executing Hex. apply hx_op; [done|]. intros executing'.
  set (h6 := Event (SessSave executing _) _ :: _). assert (h4 ⊆ h6) as Hs by (intros x Hx; do 3 right; by apply Hs5).
  apply (hx_click _ r _ _ _ page). intros c Hclick. apply (cleared_more _ _ _ _ _ _ Hs) in Hc.
  pose proof (clears_targets _ _ _ _ _ Hc). pose proof (clears_carries _ _ _ _ _ _ Hc Hclick). destruct Hc.
  split; try done.
  - destruct clear_fresh0 as (t' & Ht & Hf). exists t'. split; [done|]. unfold require_fresh, is_expired in Hf.
    apply raise_if_Ok in Hf. by apply Z.leb_gt.
  - split; [by eapply answered_page_more|done].
  - by apply shows_value.
  - by apply not_escalated.
  - exists executing, (bs_version executing), executing'. split; [done|]. unfold _replace_state in Hex.
    apply result_bind_Ok in Hex as ([] & _ & [= <-]). done.
Qed.

Lemma compare_digest_true a b x msg : compare_digest a b = Ok x -> raise_if (negb x) PreviewExpiredError msg = Ok tt -> a = b.
Proof. unfold compare_digest. destruct (_ && _); [|done]. intros [= <-] Hr. apply raise_if_Ok, negb_false_iff, bool_decide_eq_true in Hr. done. Qed.

Lemma hx_execute_submit h :
  hx h (execute_submit iso_other _allowed_origins _origin_mode _limits _submit_enabled session_id task_id extension_id preview_hash
          preview_nonce action_id owner_id) (fun _ _ => True).
Proof.
  unfold execute_submit. apply hx_get_session. intros h1 r Hs1 Hr. apply hx_res. intros [] Htask. apply hx_res. intros [] Hstate.
  apply hx_res. intros [] Hen. destruct (bs_preview r) as [[|kv l]|] eqn:Hpre; [apply hx_raise| |apply hx_raise].
  destruct (_ || _) eqn:Hne; [apply hx_raise|]. apply hx_res. intros b1 Hb1. apply hx_res. intros [] Hhash. apply hx_res. intros b2 Hb2.
  apply hx_res. intros [] Hnonce. apply hx_res. intros preview Hdoc. apply hx_op; [done|]. intros t. apply hx_res. intros [] Hfresh.
  apply hx_require_adapter. intros h2 d Hs2 Had Hver. destruct (final_action d) as [final|] eqn:Hfin; [|apply hx_raise].
  apply hx_res. intros [] Hact. destruct (bool_decide (as_risk final = PROHIBITED)) eqn:Hrisk; [apply hx_raise|].
  apply bool_decide_eq_false in Hrisk. apply hx_check. intros h3 Hs3 Htarget. apply hx_commit.
  assert (answered_record h3 r) as Hr3.
  { apply (answered_record_more h2); [done|]. apply (answered_record_more (Event BNow (Ok t) :: h1)); [done|]. apply (answered_record_more h1); [|done].
    intros x Hx. by right. }
  apply orb_false_iff in Hne as [Hn1%bool_decide_eq_false Hn2%bool_decide_eq_false].
  assert (bs_preview_hash r = preview_hash) as E1 by (by eapply compare_digest_true).
  assert (bs_preview_nonce r = preview_nonce) as E2 by (by eapply compare_digest_true).
  apply raise_if_Ok, negb_false_iff, bool_decide_eq_true in Htask, Hstate. 
  split.
  - by destruct _submit_enabled.
  - done.
  - rewrite <- E1, <- E2. done.
  - by exists (kv :: l).
  - exists t. split; [apply Hs3, Hs2, elem_here|done].
  - split; [by apply (answered_adapter_more h2)|done].
  - split_and!; [done| |done|done]. unfold policy_if in Hact. by destruct (bool_decide (as_action_id final = action_id)) eqn:E; [apply bool_decide_eq_true in E|].
Qed.

(** C12. The submit button is only pressed for what the user confirmed and the page still shows.  Before the
    companion is asked for the click: submission is enabled; the store answered with the session, ready and
    of this task; the hash and the nonce of its preview are the ones the caller presents; a clock reading was
    before the preview's expiry; the adapter is registered in the session's extension version and declares
    the requested action as its final one, not prohibited, with the preview's identifier, method, origin and
    path; the companion showed the page with the previewed fingerprint, every previewed value in its field, a
    complete scan, no prohibited term and no signal above the declared risk; and the last thing done was to
    store the session as EXECUTING by this owner.  The click names the preview's action, method, origin and
    path, the adapter's button, and the digest and locators of the previewed new values. *)
Theorem a_click_is_justified tr res pre post c ans :
  execs (execute_submit iso_other _allowed_origins _origin_mode _limits _submit_enabled session_id task_id extension_id preview_hash
           preview_nonce action_id owner_id) tr res ->
  tr = (pre ++ Event (CompClick c) ans :: post)%list ->
  exists r preview d final page, justified (reverse pre) c r preview d final page.
Proof.
  intros Hx ->. destruct (mwp_execs _ _ _ _ _ _ _ (hx_execute_submit []) Hx) as [Hw _].
  apply watched_app in Hw as [_ [(r & preview & d & final & page & Hj) _]]. exists r, preview, d, final, page.
  assert (forall h, after sub_next h pre = (reverse pre ++ h)%list) as Hp.
  { clear. induction pre as [|[X op a] pre IH]; intros h; [done|]. cbn [after]. rewrite IH, reverse_cons, <- app_assoc. done. }
  rewrite Hp, app_nil_r in Hj. exact Hj.
Qed.

End submit.
