(* ===== verification/BrowserScenario.v ===== *)
(** * BrowserScenario: one supervised submission, from the empty store to its proof

    A concrete companion, adapter and page: a session is opened, prepared, filled, submitted and proved by
    the tracking page.  The scenario is a run of the system of [BrowserSystem.v], and the theorems about
    all runs are applied to it. *)

From stdpp Require Import sorting.
From S2P Require Import Prelude Text Pool PyFloat Sha256 Json JsonParse Schemas Domain Monitor Rely Scheduling Url BrowserPolicy PyValue.
From S2P Require Import BrowserModels BrowserAdapters BrowserSession BrowserSafety BrowserSystem BrowserSubmit.
Local Open Scope string_scope.
Local Open Scope Z_scope.
Import BrowserSessionState.

Module SubmissionScenario.

#[local] Instance tables : Unicode := {| unicode_lower := fun s => s; nfkc := fun s => s |}.

Definition iso_other (s : string) : result Z := fail PyValueError s.
Definition re_valid (p : string) : bool := true.
Definition re_fullmatch (p s : string) : result bool := Ok true.
Definition origin : string := "https://ehall.nju.edu.cn".
Definition limits : BrowserLimits :=
  {| bl_max_renavigations := MAX_RENAVIGATIONS; bl_max_snapshot_bytes := 65536; bl_max_fields := 10; bl_max_attachments := 2;
     bl_max_attachment_bytes := 1024 |}.

(** The page: one text field with its value, and a submit button. *)
Definition page : mapping :=
  [("url", JStr (origin ++ "/leave")); ("title", JStr "Leave");
   ("structure", JObj [("controls", JList [JObj [("locator", JStr "ctl:0:1"); ("type", JStr "text"); ("name", JStr "reason"); ("value", JStr "ill")]]);
                       ("headings", JList [])]);
   ("actions", JList [JObj [("locator", JStr "act:1"); ("label", JStr "Submit"); ("kind", JStr "submit")]])].

Definition page_fingerprint : string :=
  Eval vm_compute in match read_page [origin] "allowlist" limits page [] with Ok p => pr_fingerprint p | Err e => exn_msg e end.

Definition reason : AdapterFieldSpec :=
  {| fs_field_id := "reason"; fs_label := "Reason"; fs_kind := "text"; fs_required := true; fs_max_length := 100; fs_pattern := "";
     fs_locator := "ctl:0:1"; fs_source := FieldValueSource.USER_INPUT |}.
Definition press : AdapterActionSpec :=
  {| as_action_id := "submit"; as_locator := "act:1"; as_label := "Submit"; as_kind := "submit"; as_risk := EXTERNAL_WRITE; as_final := true;
     as_method := "POST"; as_target_origin := origin; as_target_path := "/leave/save"; as_transaction_id := ""; as_navigates_to_path := "" |}.
Definition adapter : TransactionAdapterDescriptor :=
  {| ad_extension_id := "nju.ehall"; ad_extension_version := "1.0"; ad_adapter_id := "leave"; ad_adapter_version := "1";
     ad_display_name := "Leave"; ad_allowed_origins := [origin]; ad_allowed_paths := ["/leave"]; ad_declared_risk := EXTERNAL_WRITE;
     ad_transaction_ids := ["leave"]; ad_fields := [reason]; ad_actions := [press]; ad_login_paths := []; ad_forbidden_terms := [];
     ad_discovery_path := ""; ad_tracking_path := "/track"; ad_receipt_locator := "text:ok"; ad_consequences := "Requests leave";
     ad_allowed_page_fingerprints := [page_fingerprint]; ad_receipt_pattern := "R-[0-9]+" |}.
Definition registered : BrowserAdapterRecord :=
  {| bar_extension_id := "nju.ehall"; bar_extension_version := "1.0"; bar_adapter_id := "leave"; bar_adapter_version := "1";
     bar_descriptor := _descriptor_document adapter; bar_created_at := 0; bar_updated_at := 0; bar_version := 0 |}.

Definition plan : FillPlan :=
  {| fp_adapter_id := "leave"; fp_adapter_version := "1"; fp_transaction_id := "leave"; fp_expected_origin := origin;
     fp_expected_page_fingerprint := page_fingerprint;
     fp_fields := [{| fc_field_id := "reason"; fc_locator := "ctl:0:1"; fc_label := "Reason"; fc_old_value := "ill"; fc_new_value := "ill";
                      fc_source := FieldValueSource.USER_INPUT; fc_confidence := float_of_dec false 1 0;
                      fc_validation := FieldValidation.VALID; fc_evidence_sha256 := None |}];
     fp_app_id := "leave"; fp_attachments := []; fp_consequences := "" |}.

(** What the companion and the adapter store answer; the tracking page shows a second receipt after a click. *)
Definition answer (s : bsys) {X} (op : brE X) : result X :=
  match op in brE X return result X with
  | CompCreate _ _ _ _ _ _ | CompStatus _ | CompNavigate _ _ _ | CompFill _ _ | CompFindText _ _ | CompActivate _ _ _ => Ok (JObj [])
  | CompClose _ | CompCancel _ | CompAclose => Ok tt
  | CompSnapshot _ _ _ _ => Ok (JObj page)
  | CompCollect _ _ _ _ =>
      Ok (JObj [("url", JStr (origin ++ "/track"));
                ("matches", JList (JStr "R-1" :: match by_clicks s with [] => [] | _ => [JStr "R-2"] end))])
  | CompClick _ => Ok (JObj [("outcome", JStr "UNKNOWN")])
  | SessCreate _ | SessSave _ _ => fail NotFoundError ""
  | SessGet _ => Ok None
  | SessFind _ => Ok []
  | SessRecover _ => Ok []
  | AdUpsert r => Ok r
  | AdGet _ _ _ => Ok (Some registered)
  | AdList _ => Ok [registered]
  | BNow => Ok 0
  | BId => Ok "s1"
  | BNonce => Ok "nonce"
  | BCancelled => Ok false
  end.

Definition handle X (op : brE X) : M bsys X := fun s =>
  match on_store 0 op with
  | Some h => (performed op h s, (h (by_sessions s)).2)
  | None => (note (noted op (answer s op)) s, answer s op)
  end.

Lemma handle_step X (op : brE X) s : by_step X op s (handle X op s).1 (handle X op s).2.
Proof.
  unfold handle. destruct (on_store 0 op) as [h|] eqn:E; cbn [fst snd]; [by eapply by_answer|]. apply by_outside. by destruct op.
Qed.

Definition served := serves iso_other re_valid re_fullmatch [origin] "allowlist" limits true.
Definition go (p : prog brE unit) (s : bsys) : bsys := (run handle p s).1.

Lemma go_runs p s ts : served p -> exists q, star (pstep by_step served) (s, ts) (go p s, (ts ++ [q])%list).
Proof. intros Hp. eexists. unfold go. apply (pool_run_alone by_step served handle); [intros; apply handle_step|done]. Qed.

Definition open_it := ignore (create_session [origin] "allowlist" "task" "nju.ehall" "1.0" "leave" "host").
Definition look := ignore (snapshot [origin] "allowlist" limits "s1" "nju.ehall" "" "").
Definition prepare := ignore (record_preparation limits "s1" "nju.ehall" "leave" "1" "leave" "leave" page_fingerprint 1).
Definition fill := ignore (execute_fill iso_other re_fullmatch [origin] "allowlist" limits "s1" "task" "nju.ehall" plan).

Definition filled : bsys := Eval vm_compute in go fill (go prepare (go look (go open_it no_sessions))).
Definition hash : string :=
  Eval vm_compute in match assoc "s1" (by_sessions filled) with Some r => bs_preview_hash r | None => "" end.
Definition submission := execute_submit iso_other [origin] "allowlist" limits true "s1" "task" "nju.ehall" hash "nonce" "submit" "host".
Definition submitted : bsys := Eval vm_compute in go (ignore submission) filled.

Lemma scenario_runs : exists ts, star (pstep by_step served) (no_sessions, []) (submitted, ts).
Proof.
  destruct (go_runs open_it no_sessions []) as [q1 H1]; [apply serves_create|].
  destruct (go_runs look (go open_it no_sessions) ([] ++ [q1])%list) as [q2 H2]; [apply serves_snapshot|].
  destruct (go_runs prepare (go look (go open_it no_sessions)) (([] ++ [q1]) ++ [q2])%list) as [q3 H3]; [apply serves_preparation|].
  destruct (go_runs fill (go prepare (go look (go open_it no_sessions))) ((([] ++ [q1]) ++ [q2]) ++ [q3])%list) as [q4 H4]; [apply serves_fill|].
  assert (go fill (go prepare (go look (go open_it no_sessions))) = filled) as E by (vm_compute; reflexivity). rewrite E in H4.
  destruct (go_runs (ignore submission) filled (((([] ++ [q1]) ++ [q2]) ++ [q3]) ++ [q4])%list) as [q5 H5]; [apply serves_submit|].
  assert (go (ignore submission) filled = submitted) as E5 by (vm_compute; reflexivity). rewrite E5 in H5.
  eexists. eapply star_trans; [exact H1|]. eapply star_trans; [exact H2|]. eapply star_trans; [exact H3|]. eapply star_trans; [exact H4|exact H5].
Qed.

(** The events before the first click of a trace, the click, and the rest. *)
Fixpoint at_click (tr : list (event brE)) : option (list (event brE) * click * result json * list (event brE)) :=
  match tr with
  | [] => None
  | ev :: tr =>
      match ev with
      | @Event _ X op ans =>
          match op in brE X return result X -> _ with
          | CompClick c => fun ans => Some ([], c, ans, tr)
          | _ => fun _ => match at_click tr with Some (pre, c, a, post) => Some (ev :: pre, c, a, post) | None => None end
          end ans
      end
  end.

Lemma at_click_spec tr pre c ans post : at_click tr = Some (pre, c, ans, post) -> tr = (pre ++ Event (CompClick c) ans :: post)%list.
Proof.
  revert pre; induction tr as [|[X op a] tr IH]; intros pre; cbn [at_click]; [done|].
  destruct op; try (destruct (at_click tr) as [[[[pre' c'] a'] post']|]; [|done]; intros [= <- -> -> ->]; by rewrite (IH pre')).
  intros [= <- <- <- <-]. done.
Qed.

End SubmissionScenario.
Import SubmissionScenario.
#[local] Existing Instance tables.

Lemma a_session_is_submitted_at_most_once_witness : exists ts, star (pstep by_step served) (no_sessions, []) (submitted, ts) /\
  clicks "s1" submitted = 1%nat /\ forall i, (clicks i submitted <= 1)%nat.
Proof.
  destruct scenario_runs as [ts Hs]. exists ts. split; [exact Hs|]. split; [vm_compute; reflexivity|].
  exact (proj1 (a_session_is_submitted_at_most_once iso_other re_valid re_fullmatch [origin] "allowlist" limits true submitted ts Hs)).
Defined.


Lemma a_click_is_justified_witness :
  match at_click (trace_run handle submission filled).1 with
  | Some (pre, c, _, _) => exists r preview d final page,
      justified iso_other [origin] "allowlist" limits true "s1" "task" hash "nonce" "submit" "host" (reverse pre) c r preview d final page
  | None => False
  end.
Proof.
  destruct (at_click (trace_run handle submission filled).1) as [[[[pre c] ans] post]|] eqn:E.
  - eapply (a_click_is_justified iso_other [origin] "allowlist" limits true "s1" "task" "nju.ehall" hash "nonce" "submit" "host");
      [apply (trace_run_execs handle submission filled)|exact (at_click_spec _ _ _ _ _ E)].
  - vm_compute in E. discriminate E.
Defined.
