(* ===== verification/FormDrafts.v ===== *)
(** * FormDrafts: declarative task forms and their versioned drafts

    Models [core/tasks/form_drafts.py] (the accepted subset of JSON Schema, the checks of draft
    values and [FormDraftService]) and [infrastructure/memory/form_drafts.py] (the store).  A draft
    remembers for every field where its value came from; the main theorem says that no
    interleaving of commands lets a field look like evidence that was not given as evidence. *)

From stdpp Require Import relations.
From S2P Require Import Prelude Text Pool PyFloat Json Schemas Domain Workflows Governance Tasks PyValue.
From S2P Require Import BrowserModels.
From Stdlib Require Import Floats.SpecFloat.
Local Open Scope string_scope.
Local Open Scope Z_scope.

(** ** What the checks use of Python *)

(** [json.dumps(v, ensure_ascii=False)] *)
Definition plain_opts : dump_opts := {| sort_keys := false; allow_nan := true; item_sep := ", "; key_sep := ": " |}.
Definition dumps_len (v : json) : result Z := t ← dumps plain_opts v; Ok (str_len t).

(** [math.isfinite(v)] of an [int] or a [float]: an [int] beyond the floats is an [OverflowError]. *)
Definition isfinite (v : json) : result bool :=
  f ← py_float v;
  Ok (match f with S754_nan | S754_infinity _ => false | _ => true end).

Definition is_int (v : json) : bool := match v with JInt _ => true | _ => false end.
(** [type(v) in {int, float}] *)
Definition is_number (v : json) : bool := match v with JInt _ | JFloat _ => true | _ => false end.

(** [a < b], with strings and lists. *)
Fixpoint lt_any (a b : json) {struct a} : result bool :=
  match a, b with
  | JStr s, JStr t => Ok (String.ltb s t)
  | JList l, JList m =>
      (fix go l m := match l, m with
       | [], [] => Ok false
       | [], _ :: _ => Ok true
       | _ :: _, [] => Ok false
       | x :: l, y :: m => if py_eq x y then go l m else lt_any x y
       end) l m
  | _, _ => py_lt a b
  end.

(** [sorted(l)]: every sort compares two neighbours of its result, so it raises exactly when two
    of the items have no order. *)
Fixpoint comparable (l : list json) : result unit :=
  match l with
  | [] => Ok tt
  | x :: l => _ ← result_iter (fun y => _ ← lt_any y x; Ok tt) l; comparable l
  end.
Definition not_after (x y : json) : bool := match lt_any y x with Ok b => negb b | Err _ => true end.
Definition sorted (l : list json) : result (list json) := _ ← comparable l; Ok (stable_sort not_after l).

Fixpoint distinct (l : list string) : list string :=
  match l with [] => [] | x :: l => if mem_b x l then distinct l else x :: distinct l end.

(** ** [validate_form_schema] *)

Definition _ROOT_KEYS : list string :=
  ["type"; "title"; "description"; "properties"; "required"; "additionalProperties"].
Definition _FIELD_KEYS : list string :=
  ["type"; "title"; "description"; "enum"; "minLength"; "maxLength"; "minimum"; "maximum"].
Definition _WIDGETS : list string := ["text"; "textarea"; "select"; "number"].
Definition _RESERVED_NAMES : list string := ["__proto__"; "constructor"; "prototype"].

Definition is_kind (kind : json) (s : string) : bool := py_eq kind (JStr s).

Definition _validate_value (name : string) (field : list (string * json)) (value : json) : result unit :=
  kind ← item "type" field;
  _ ← raise_if (is_kind kind "string" && negb (is_str value)) ValidationError
        ("field " ++ name ++ " requires a string");
  _ ← raise_if (is_kind kind "boolean" && negb (is_bool value)) ValidationError
        ("field " ++ name ++ " requires a boolean");
  _ ← raise_if (is_kind kind "integer" && negb (is_int value)) ValidationError
        ("field " ++ name ++ " requires an integer");
  bad ← (if is_kind kind "number"
         then if negb (is_number value) then Ok true else finite ← isfinite value; Ok (negb finite)
         else Ok false);
  _ ← raise_if bad ValidationError ("field " ++ name ++ " requires a finite number");
  bad ← (if is_kind kind "string"
         then
           let len : json := JInt (match value with JStr s => str_len s | _ => 0 end) in
           short ← py_lt len (get_or "minLength" (JInt 0) field);
           if (short : bool) then Ok true else py_lt (get_or "maxLength" (JInt 100000) field) len
         else Ok false);
  _ ← raise_if bad ValidationError ("field " ++ name ++ " has invalid length");
  numeric ← in_set kind ["integer"; "number"];
  bad ← (if (numeric : bool)
         then
           below ← py_lt value (get_or "minimum" (JFloat (S754_infinity true)) field);
           if (below : bool) then Ok true
           else py_lt (get_or "maximum" (JFloat (S754_infinity false)) field) value
         else Ok false);
  _ ← raise_if bad ValidationError ("field " ++ name ++ " is outside its bounds");
  match assoc "enum" field with
  | Some choices =>
      found ← py_in value choices;
      raise_if (negb found) ValidationError ("field " ++ name ++ " is not an allowed choice")
  | None => Ok tt
  end.

(** One of the bounds of a field. *)
Definition check_length_bound (name : string) (field : list (string * json)) (kind : json) (bound : string)
  : result unit :=
  match assoc bound field with
  | Some v =>
      raise_if (negb (is_kind kind "string") || match v with JInt n => n <? 0 | _ => true end) ValidationError
        ("invalid " ++ bound ++ " for field " ++ name)
  | None => Ok tt
  end.

Definition check_value_bound (name : string) (field : list (string * json)) (kind : json) (bound : string)
  : result unit :=
  match assoc bound field with
  | Some v =>
      numeric ← in_set kind ["integer"; "number"];
      bad ← (if negb numeric || negb (is_number v) then Ok true else finite ← isfinite v; Ok (negb finite));
      raise_if bad ValidationError ("invalid " ++ bound ++ " for field " ++ name)
  | None => Ok tt
  end.

Definition check_enum (name : string) (field : list (string * json)) (kind : json) : result unit :=
  match assoc "enum" field with
  | Some (JList values) =>
      if negb ((1 <=? Z.of_nat (length values)) && (Z.of_nat (length values) <=? 100))
      then fail ValidationError ("invalid enum for field " ++ name)
      else result_iter (_validate_value name [("type", kind)]) values
  | Some _ => fail ValidationError ("invalid enum for field " ++ name)
  | None => Ok tt
  end.

(** The body of the first [for name, field in properties.items()]. *)
Definition check_field (kv : string * json) : result unit :=
  let '(name, field) := kv in
  _ ← raise_if (bool_decide (name = "") || (128 <? str_len name) || mem_b name _RESERVED_NAMES) ValidationError
        "form field name is unsupported";
  match field with
  | JObj field =>
      _ ← raise_if (negb (keys_within field _FIELD_KEYS)) ValidationError
            ("unsupported schema keyword for field " ++ name);
      let kind := get_or "type" JNull field in
      known ← in_set kind ["string"; "boolean"; "integer"; "number"];
      _ ← raise_if (negb known) ValidationError ("unsupported schema type for field " ++ name);
      _ ← raise_if (existsb (fun key => match assoc key field with Some v => negb (is_str v) | None => false end)
                      ["title"; "description"]) ValidationError ("invalid label for field " ++ name);
      _ ← result_iter (check_length_bound name field kind) ["minLength"; "maxLength"];
      _ ← result_iter (check_value_bound name field kind) ["minimum"; "maximum"];
      check_enum name field kind
  | _ => fail ValidationError ("unsupported schema keyword for field " ++ name)
  end.

(** The body of the last loop, over the UI schema of each field. *)
Definition allowed_widgets (field : list (string * json)) : list string :=
  if mem_b "enum" (keys field) then ["select"]
  else if is_kind (get_or "type" JNull field) "string" then ["text"; "textarea"]
  else if is_kind (get_or "type" JNull field) "boolean" then ["select"]
  else ["number"].

Definition check_ui_field (ui_schema : list (string * json)) (kv : string * json) : result unit :=
  let '(name, field) := kv in
  match get_or name (JObj []) ui_schema with
  | JObj ui =>
      _ ← raise_if (negb (keys_within ui ["ui:placeholder"; "ui:widget"])) ValidationError
            ("unsupported UI Schema for field " ++ name);
      _ ← raise_if (match assoc "ui:placeholder" ui with Some v => negb (is_str v) | None => false end)
            ValidationError ("invalid placeholder for field " ++ name);
      _ ← match assoc "ui:widget" ui with
          | Some v => known ← in_set v _WIDGETS;
                      raise_if (negb known) ValidationError ("unsupported widget for field " ++ name)
          | None => Ok tt
          end;
      match get_or "ui:widget" JNull ui with
      | JNull => Ok tt
      | widget =>
          field ← as_dict field;
          fits ← in_set widget (allowed_widgets field);
          raise_if (negb fits) ValidationError ("widget does not match field " ++ name ++ " type")
      end
  | _ => fail ValidationError ("unsupported UI Schema for field " ++ name)
  end.

(** [required]: a list of distinct declared names. *)
Definition required_ok (properties : list (string * json)) (required : json) : bool :=
  match required with
  | JList l =>
      (Z.of_nat (length (distinct (py_str <$> l))) =? Z.of_nat (length l)) &&
      forallb (fun v => match v with JStr s => mem_b s (keys properties) | _ => false end) l
  | _ => false
  end.

Definition check_order (ui_schema properties : list (string * json)) : result unit :=
  match assoc "ui:order" ui_schema with
  | Some (JList l) =>
      given ← sorted l;
      declared ← sorted (JStr <$> keys properties);
      raise_if (negb (py_eq (JList given) (JList declared))) ValidationError "unsupported form field order"
  | Some _ => fail ValidationError "unsupported form field order"
  | None => Ok tt
  end.

Definition validate_form_schema (json_schema ui_schema : json) : result unit :=
  match json_schema, ui_schema with
  | JObj root, JObj ui =>
      len ← dumps_len (JList [json_schema; ui_schema]);
      _ ← raise_if (65536 <? len) ValidationError "form schema exceeds 64 KiB";
      _ ← raise_if (negb (keys_within root _ROOT_KEYS) || negb (is_kind (get_or "type" JNull root) "object"))
            ValidationError "unsupported form JSON Schema root keyword or type";
      _ ← raise_if (match get_or "additionalProperties" JNull root with JBool false => false | _ => true end)
            ValidationError "form must set additionalProperties to false";
      match get_or "properties" JNull root with
      | JObj properties =>
          _ ← raise_if (negb ((1 <=? Z.of_nat (length properties)) && (Z.of_nat (length properties) <=? 100)))
                ValidationError "form needs 1 to 100 declared fields";
          _ ← raise_if (existsb (fun key => match assoc key root with Some v => negb (is_str v) | None => false end)
                          ["title"; "description"]) ValidationError "form labels must be strings";
          _ ← raise_if (negb (required_ok properties (get_or "required" (JList []) root))) ValidationError
                "form required fields are invalid";
          _ ← result_iter check_field properties;
          _ ← raise_if (negb (keys_within ui (keys properties ++ ["sensitivity"; "ui:order"])%list)) ValidationError
                "unsupported form UI Schema field";
          _ ← match assoc "sensitivity" ui with
              | Some v => known ← in_set v ["PUBLIC"; "PERSONAL"; "SENSITIVE"];
                          raise_if (negb known) ValidationError "unsupported form sensitivity"
              | None => Ok tt
              end;
          _ ← check_order ui properties;
          result_iter (check_ui_field ui) properties
      | _ => fail ValidationError "form needs 1 to 100 declared fields"
      end
  | _, _ => fail ValidationError "form schemas must be JSON objects"
  end.

(** ** [validate_form_values] *)

Definition check_value (properties : json) (kv : string * json) : result unit :=
  let '(name, value) := kv in
  known ← py_in (JStr name) properties;
  _ ← raise_if (negb known) ValidationError ("unknown form field " ++ name);
  properties ← as_dict properties;
  field ← item name properties;
  field ← as_dict field;
  _validate_value name field value.

Definition validate_form_values (schema : list (string * json)) (values : json) : result (list (string * json)) :=
  match values with
  | JObj d =>
      len ← dumps_len values;
      _ ← raise_if (200000 <? len) ValidationError "draft values must be a JSON object of at most 200 KiB";
      properties ← item "properties" schema;
      _ ← result_iter (check_value properties) d;
      Ok d
  | _ => fail ValidationError "draft values must be a JSON object of at most 200 KiB"
  end.

(** ** Drafts and the in-memory store *)

Record FormDraft := {
  fd_task_id : string;
  fd_extension_id : string;
  fd_extension_version : string;
  fd_form_id : string;
  fd_json_schema : list (string * json);
  fd_ui_schema : list (string * json);
  fd_values : list (string * json);
  fd_sources : list (string * string);
  fd_version : Z;
  fd_updated_at : time
}.
#[export] Instance FormDraft_eta : Eta FormDraft := fun r =>
  Build_FormDraft (fd_task_id r) (fd_extension_id r) (fd_extension_version r) (fd_form_id r)
    (fd_json_schema r) (fd_ui_schema r) (fd_values r) (fd_sources r) (fd_version r) (fd_updated_at r).

Record InMemoryFormDraftStore := {
  _drafts : gmap string FormDraft;
  _commands : gmap string (string * FormDraft)
}.
#[export] Instance InMemoryFormDraftStore_eta : Eta InMemoryFormDraftStore := fun r =>
  Build_InMemoryFormDraftStore (_drafts r) (_commands r).
Definition empty_drafts : InMemoryFormDraftStore := {| _drafts := ∅; _commands := ∅ |}.

Definition draft_get (i : string) : M InMemoryFormDraftStore FormDraft :=
  s ← get_state;
  match _drafts s !! i with
  | Some d => mret d
  | None => raise NotFoundError ("form draft not found for task " ++ i)
  end.

Definition draft_command_receipt (key : string) : M InMemoryFormDraftStore (option (string * FormDraft)) :=
  s ← get_state; mret (_commands s !! key).

Definition _replay (key fingerprint : string) : M InMemoryFormDraftStore (option FormDraft) :=
  s ← get_state;
  match _commands s !! key with
  | None => mret None
  | Some (f, d) =>
      if negb (bool_decide (f = fingerprint))
      then raise ConcurrentModificationError "draft idempotency key was reused with new content"
      else mret (Some d)
  end.

Definition draft_create (draft : FormDraft) (key fingerprint : string) : M InMemoryFormDraftStore FormDraft :=
  replay ← _replay key fingerprint;
  match replay with
  | Some d => mret d
  | None =>
      s ← get_state;
      if bool_decide (is_Some (_drafts s !! fd_task_id draft))
      then raise ConcurrentModificationError "task already has a form draft"
      else
        _ ← put_state (s {{ _drafts := <[fd_task_id draft := draft]> (_drafts s) }}
                         {{ _commands := <[key := (fingerprint, draft)]> (_commands s) }});
        mret draft
  end.

(** The source of a field after its values were replaced. *)
Definition next_source (current : FormDraft) (values : list (string * json)) (name : string) : string :=
  match assoc name values with
  | Some v =>
      match assoc name (fd_values current) with
      | Some w => if py_eq w v then default "UNKNOWN" (assoc name (fd_sources current)) else "USER_INPUT"
      | None => "USER_INPUT"
      end
  | None => "UNKNOWN"
  end.

Definition draft_replace (i : string) (values : list (string * json)) (version : Z) (key fingerprint : string)
    (now : time) : M InMemoryFormDraftStore FormDraft :=
  replay ← _replay key fingerprint;
  match replay with
  | Some d => mret d
  | None =>
      s ← get_state;
      match _drafts s !! i with
      | None => raise NotFoundError ("form draft not found for task " ++ i)
      | Some current =>
          if negb (fd_version current =? version)
          then raise ConcurrentModificationError "form draft version changed"
          else
            properties ← lift (item "properties" (fd_json_schema current));
            names ← lift (as_dict properties);
            let saved := current {{ fd_values := values }}
                                 {{ fd_sources := (fun name => (name, next_source current values name)) <$> keys names }}
                                 {{ fd_version := version + 1 }}
                                 {{ fd_updated_at := now }} in
            _ ← put_state (s {{ _drafts := <[i := saved]> (_drafts s) }}
                             {{ _commands := <[key := (fingerprint, saved)]> (_commands s) }});
            mret saved
      end
  end.

(** ** [FormDraftService] *)

Inductive fdE : Type -> Type :=
| FTask {X} (op : taskE X) : fdE X
| FGet (i : string) : fdE FormDraft
| FReceipt (key : string) : fdE (option (string * FormDraft))
| FCreate (draft : FormDraft) (key fingerprint : string) : fdE FormDraft
| FReplace (i : string) (values : list (string * json)) (version : Z) (key fingerprint : string) : fdE FormDraft
| FNow : fdE time.

#[global] Instance SubE_form_task : SubE taskE fdE := fun X op => FTask op.

Definition form_get (i : string) : prog fdE FormDraft :=
  _ ← call (TGet i); perform (FGet i).

Definition _create_fingerprint (i extension_id form_id : string) (initial_values : option (list (string * json)))
    (initial_sources : option (list (string * string))) : result string :=
  canonical_sha256 (JObj [
    ("command", JStr "form-draft.create"); ("task_id", JStr i); ("extension_id", JStr extension_id);
    ("form_id", JStr form_id); ("initial_values", JObj (default [] initial_values));
    ("initial_sources", JObj ((fun kv => (kv.1, JStr kv.2)) <$> default [] initial_sources))]).

Definition replay_create (i extension_id form_id key : string) (initial_values : option (list (string * json)))
    (initial_sources : option (list (string * string))) : prog fdE (option FormDraft) :=
  _ ← call (TGet i);
  prior ← perform (FReceipt key);
  match prior with
  | None => Ret None
  | Some (original_fingerprint, receipt) =>
      fingerprint ← of_result (_create_fingerprint i extension_id form_id initial_values initial_sources);
      if negb (bool_decide (original_fingerprint = fingerprint)) || negb (fd_version receipt =? 1)
         || negb (bool_decide (fd_task_id receipt = i)) || negb (bool_decide (fd_extension_id receipt = extension_id))
         || negb (bool_decide (fd_form_id receipt = form_id))
      then raise_prog ConcurrentModificationError "draft idempotency key was reused with new content"
      else Ret (Some receipt)
  end.

(** The loop over [initial_sources]. *)
Fixpoint set_sources (values : list (string * json)) (given : list (string * string)) (sources : list (string * string))
  : result (list (string * string)) :=
  match given with
  | [] => Ok sources
  | (name, source) :: given =>
      if negb (mem_b name (keys values)) || negb (mem_b source ["EVIDENCE"; "USER_INPUT"])
      then fail ValidationError "initial form source must match a supplied value"
      else set_sources values given (assoc_set name source sources)
  end.

(** Everything [create] computes before it reads the clock. *)
Definition build_draft (i extension_id form_id : string) (form : list (string * json))
    (initial_values : option (list (string * json))) (initial_sources : option (list (string * string)))
  : result (time -> FormDraft) :=
  schema ← item "json_schema" form;
  ui ← item "ui_schema" form;
  _ ← validate_form_schema schema ui;
  schema ← as_dict schema;
  ui ← as_dict ui;
  values ← validate_form_values schema (JObj (default [] initial_values));
  properties ← item "properties" schema;
  properties ← as_dict properties;
  sources ← set_sources values (default [] initial_sources) ((fun name => (name, "UNKNOWN")) <$> keys properties);
  extension_version ← str_item "extension_version" form;
  Ok (fun now => {| fd_task_id := i; fd_extension_id := extension_id; fd_extension_version := extension_version;
                    fd_form_id := form_id; fd_json_schema := schema; fd_ui_schema := ui; fd_values := values;
                    fd_sources := sources; fd_version := 1; fd_updated_at := now |}).

Definition form_create (i : string) (form : list (string * json)) (key : string)
    (initial_values : option (list (string * json))) (initial_sources : option (list (string * string)))
  : prog fdE FormDraft :=
  extension_id ← of_result (str_item "extension_id" form);
  form_id ← of_result (str_item "id" form);
  replay ← replay_create i extension_id form_id key initial_values initial_sources;
  match replay with
  | Some receipt => Ret receipt
  | None =>
      draft ← of_result (build_draft i extension_id form_id form initial_values initial_sources);
      now ← perform FNow;
      fingerprint ← of_result (_create_fingerprint i extension_id form_id initial_values initial_sources);
      prog_try (perform (FCreate (draft now) key fingerprint)) (fun e =>
        if exn_is e ConcurrentModificationError
        then
          replay ← replay_create i extension_id form_id key initial_values initial_sources;
          match replay with Some receipt => Ret receipt | None => Raise e end
        else Raise e)
  end.

Definition form_replace (i : string) (values : json) (version : Z) (key : string) : prog fdE FormDraft :=
  _ ← call (TGet i);
  current ← perform (FGet i);
  checked ← of_result (validate_form_values (fd_json_schema current) values);
  fingerprint ← of_result (canonical_sha256
    (JObj [("task_id", JStr i); ("version", JInt version); ("values", JObj checked)]));
  perform (FReplace i checked version key fingerprint).

(** ** Commands over one store *)

Definition on_drafts {X} (m : M InMemoryFormDraftStore X) (s s' : InMemoryFormDraftStore) (r : result X) : Prop :=
  m s = (s', r).

(** The task service may answer anything; the clock always answers. *)
Definition draft_step (X : Type) (op : fdE X) (s s' : InMemoryFormDraftStore) : result X -> Prop :=
  match op in fdE Y return result Y -> Prop with
  | FTask _ => fun _ => s' = s
  | FGet i => on_drafts (draft_get i) s s'
  | FReceipt key => on_drafts (draft_command_receipt key) s s'
  | FCreate d key f => on_drafts (draft_create d key f) s s'
  | FReplace i values v key f => fun r => exists now, on_drafts (draft_replace i values v key f now) s s' r
  | FNow => fun r => s' = s /\ is_ok r = true
  end.

Inductive draft_client : prog fdE unit -> Prop :=
| dc_get i : draft_client (_ ← form_get i; Ret tt)
| dc_replay i x f key vs src : draft_client (_ ← replay_create i x f key vs src; Ret tt)
| dc_create i form key vs src : draft_client (_ ← form_create i form key vs src; Ret tt)
| dc_replace i values v key : draft_client (_ ← form_replace i values v key; Ret tt).

Definition draft_pool : InMemoryFormDraftStore * list (prog fdE unit) ->
    InMemoryFormDraftStore * list (prog fdE unit) -> Prop := pstep draft_step draft_client.

(** ** What a stored draft is, and how it evolves *)

Definition declared (d : FormDraft) (name : string) : Prop :=
  exists properties, assoc "properties" (fd_json_schema d) = Some (JObj properties) /\ name ∈ keys properties.

Record draft_ok (d : FormDraft) : Prop := {
  do_schema : validate_form_schema (JObj (fd_json_schema d)) (JObj (fd_ui_schema d)) = Ok tt;
  do_values : validate_form_values (fd_json_schema d) (JObj (fd_values d)) = Ok (fd_values d);
  do_declared name : is_Some (assoc name (fd_sources d)) <-> declared d name;
  do_sources name src : assoc name (fd_sources d) = Some src ->
    src = "UNKNOWN" \/ src ∈ ["EVIDENCE"; "USER_INPUT"] /\ name ∈ keys (fd_values d)
}.

Definition same_value (v w : json) : Prop := rtc (fun a b => py_eq a b = true) v w.

Definition still_evidence (d d' : FormDraft) (name : string) : Prop :=
  assoc name (fd_sources d) = Some "EVIDENCE" /\
  exists v v', assoc name (fd_values d) = Some v /\ assoc name (fd_values d') = Some v' /\ same_value v v'.

Definition same_form (d d' : FormDraft) : Prop :=
  fd_task_id d' = fd_task_id d /\ fd_extension_id d' = fd_extension_id d /\
  fd_extension_version d' = fd_extension_version d /\ fd_form_id d' = fd_form_id d /\
  fd_json_schema d' = fd_json_schema d /\ fd_ui_schema d' = fd_ui_schema d.

Record later_draft (d d' : FormDraft) : Prop := {
  ld_form : same_form d d';
  ld_version : fd_version d <= fd_version d';
  ld_same : fd_version d = fd_version d' -> d' = d;
  ld_evidence name : assoc name (fd_sources d') = Some "EVIDENCE" -> still_evidence d d' name
}.

Lemma later_draft_refl d : draft_ok d -> later_draft d d.
Proof.
  intros Hd. split; [done..|]. intros name Hs. split; [done|].
  destruct (do_sources d Hd name _ Hs) as [|[_ Hv]]; [done|].
  apply assoc_keys in Hv as [v Hv]. exists v, v. split_and!; try done. apply rtc_refl.
Qed.

Lemma later_draft_trans d1 d2 d3 : later_draft d1 d2 -> later_draft d2 d3 -> later_draft d1 d3.
Proof.
  intros [F12 V12 S12 E12] [F23 V23 S23 E23]. split.
  - unfold same_form in *. intuition congruence.
  - lia.
  - intros ?. rewrite S23 by lia. apply S12. lia.
  - intros name Hs. destruct (E23 name Hs) as (H2 & v & v' & Hv & Hv' & Hc).
    destruct (E12 name H2) as (H1 & w & w' & Hw & Hw' & Hc'). simplify_eq. split; [done|].
    exists w, v'. split_and!; try done. unfold same_value in *. by etrans.
Qed.

Lemma assoc_tabulate {A} (f : string -> A) l name x :
  assoc name ((fun n => (n, f n)) <$> l) = Some x <-> name ∈ l /\ x = f name.
Proof.
  induction l as [|n l IH]; cbn.
  - split; [done|]. by intros [?%not_elem_of_nil].
  - rewrite elem_of_cons. case_bool_decide as E; [naive_solver|]. rewrite IH. naive_solver.
Qed.

(** The values of an accepted draft are of declared fields. *)
Lemma values_declared schema values vs properties :
  validate_form_values schema (JObj values) = Ok vs -> assoc "properties" schema = Some (JObj properties) ->
  vs = values /\ forall name, name ∈ keys values -> name ∈ keys properties.
Proof.
  unfold validate_form_values, item. intros Hv Hp. rewrite Hp in Hv.
  apply result_bind_Ok in Hv as (len & _ & Hv). apply result_bind_Ok in Hv as (? & _ & Hv).
  cbn -[result_iter] in Hv. apply result_bind_Ok in Hv as (u & Hf & [= <-]). split; [done|].
  apply result_iter_Ok in Hf. intros name Hn. apply list_elem_of_fmap in Hn as ([k v] & -> & Hin). rewrite Forall_forall in Hf.
  specialize (Hf _ Hin). cbn in Hf. destruct (mem_b k (keys properties)) eqn:E; [|done]. by apply mem_b_true in E.
Qed.

Lemma values_kept schema values vs : validate_form_values schema values = Ok vs -> values = JObj vs.
Proof.
  unfold validate_form_values. destruct values; try discriminate. intros H.
  repeat (apply result_bind_Ok in H as (? & _ & H)). by injection H as ->.
Qed.

(** An accepted schema declares its fields in a dictionary. *)
Lemma schema_properties schema ui u : validate_form_schema (JObj schema) ui = Ok u ->
  exists properties, assoc "properties" schema = Some (JObj properties).
Proof.
  intros H. cbn [validate_form_schema] in H. destruct ui; try discriminate H.
  repeat (apply result_bind_Ok in H as (? & _ & H)).
  unfold get_or in H. destruct (assoc "properties" schema) as [[]|] eqn:E; try discriminate H. by eexists.
Qed.

Lemma set_sources_spec values given sources out : set_sources values given sources = Ok out ->
  forall name src, assoc name out = Some src ->
    assoc name sources = Some src \/ src ∈ ["EVIDENCE"; "USER_INPUT"] /\ name ∈ keys values.
Proof.
  revert sources. induction given as [|[n x] given IH]; intros sources; cbn.
  - intros [= <-]. auto.
  - destruct (_ || _) eqn:E; [done|]. intros Hset name src Hs. bool_props.
    destruct (IH _ Hset name src Hs) as [Ha|]; [|by right]. destruct (decide (name = n)) as [->|Hn].
    + rewrite assoc_set_same in Ha. injection Ha as <-. right. split; by apply mem_b_true.
    + rewrite assoc_set_other in Ha by done. by left.
Qed.

Lemma set_sources_keeps values given sources out name : set_sources values given sources = Ok out ->
  is_Some (assoc name out) <-> is_Some (assoc name sources) \/ name ∈ keys given.
Proof.
  revert sources. induction given as [|[n x] given IH]; intros sources; cbn.
  - intros [= <-]. rewrite elem_of_nil. naive_solver.
  - destruct (_ || _) eqn:E; [done|]. intros H. rewrite (IH _ H), elem_of_cons.
    destruct (decide (name = n)) as [->|Hn]; [rewrite assoc_set_same|rewrite assoc_set_other by done]; naive_solver.
Qed.

Lemma set_sources_given values given sources out : set_sources values given sources = Ok out ->
  forall name, name ∈ keys given -> name ∈ keys values.
Proof.
  revert sources. induction given as [|[n x] given IH]; intros sources; cbn.
  - intros _ name ?%elem_of_nil. done.
  - destruct (_ || _) eqn:E; [done|]. intros Hset name [->|Hn]%elem_of_cons; bool_props; [by apply mem_b_true|].
    by eapply IH.
Qed.

(** What [create] sends to the store. *)
Lemma build_draft_ok i x f form vs src draft now : build_draft i x f form vs src = Ok draft ->
  draft_ok (draft now) /\ fd_task_id (draft now) = i /\ fd_version (draft now) = 1.
Proof.
  unfold build_draft. intros H. apply result_bind_Ok in H as (schema & _ & H).
  apply result_bind_Ok in H as (ui & _ & H). apply result_bind_Ok in H as ([] & Hs & H).
  apply result_bind_Ok in H as (schema' & E1 & H). apply result_bind_Ok in H as (ui' & E2 & H).
  destruct schema as [| | | | | |schema|]; try discriminate E1. destruct ui as [| | | | | |ui|]; try discriminate E2.
  injection E1 as <-. injection E2 as <-. destruct (schema_properties _ _ _ Hs) as (properties & Hp).
  apply result_bind_Ok in H as (values & Hv & H). unfold item in H. rewrite Hp in H. cbn -[set_sources] in H.
  apply result_bind_Ok in H as (sources & Hset & H). apply result_bind_Ok in H as (version & _ & [= <-]).
  destruct (values_declared _ _ _ _ Hv Hp) as [-> Hd]. split; [|done].
  assert (forall name, declared {| fd_task_id := i; fd_extension_id := x; fd_extension_version := version;
    fd_form_id := f; fd_json_schema := schema; fd_ui_schema := ui; fd_values := default [] vs; fd_sources := sources;
    fd_version := 1; fd_updated_at := now |} name <-> name ∈ keys properties) as Hdecl.
  { intros name. unfold declared. cbn. rewrite Hp. naive_solver. }
  split; cbn; [done..| |].
  - intros name. rewrite Hdecl, (set_sources_keeps _ _ _ _ name Hset). split.
    + intros [[y Hy]|Hn]; [by apply (assoc_tabulate (fun _ => "UNKNOWN")) in Hy as [? _]|].
      apply Hd. by eapply set_sources_given.
    + intros Hn. left. exists "UNKNOWN". by apply (assoc_tabulate (fun _ => "UNKNOWN")).
  - intros name y Hy. destruct (set_sources_spec _ _ _ _ Hset name y Hy) as [Ha|]; [left|by right].
    by apply (assoc_tabulate (fun _ => "UNKNOWN")) in Ha as [_ ->].
Qed.

(** One replacement. *)
Lemma replaced_later current values sources now properties :
  draft_ok current -> assoc "properties" (fd_json_schema current) = Some (JObj properties) ->
  sources = (fun name => (name, next_source current values name)) <$> keys properties ->
  validate_form_values (fd_json_schema current) (JObj values) = Ok values ->
  let saved := current {{ fd_values := values }} {{ fd_sources := sources }}
                       {{ fd_version := fd_version current + 1 }} {{ fd_updated_at := now }} in
  draft_ok saved /\ later_draft current saved.
Proof.
  intros Hc Hp -> Hv saved.
  assert (forall name, declared saved name <-> name ∈ keys properties) as Hdecl.
  { intros name. unfold declared. cbn. rewrite Hp. naive_solver. }
  split; split; cbn.
  - apply (do_schema _ Hc).
  - done.
  - intros name. trans (name ∈ keys properties); [|symmetry; apply Hdecl]. split.
    + intros [y Hy]. by apply assoc_tabulate in Hy as [? _].
    + intros Hn. eexists. by apply assoc_tabulate.
  - intros name y Hy. apply assoc_tabulate in Hy as [Hn ->]. unfold next_source.
    destruct (assoc name values) as [v|] eqn:Ev; [|by left].
    assert (name ∈ keys values) by (apply assoc_keys; by eexists).
    destruct (assoc name (fd_values current)) as [w|] eqn:Ew; [|right; set_solver].
    destruct (py_eq w v); [|right; set_solver].
    destruct (assoc name (fd_sources current)) as [y|] eqn:Ey; [|by left]. cbn.
    destruct (do_sources _ Hc _ _ Ey) as [|[? _]]; [by left|by right].
  - unfold same_form. cbn. done.
  - lia.
  - lia.
  - intros name Hs. apply assoc_tabulate in Hs as [Hn Hs]. unfold next_source in Hs.
    destruct (assoc name values) as [v|] eqn:Ev; [|done].
    destruct (assoc name (fd_values current)) as [w|] eqn:Ew; [|done].
    destruct (py_eq w v) eqn:E; [|done]. destruct (assoc name (fd_sources current)) as [y|] eqn:Ey; [|done].
    cbn in Hs. subst y. split; [done|]. exists w, v. split_and!; try done. by apply rtc_once.
Qed.

(** ** The invariant of the store *)

Record store_ok (s : InMemoryFormDraftStore) (H : list FormDraft) : Prop := {
  so_current i d : _drafts s !! i = Some d -> fd_task_id d = i /\ draft_ok d /\ 1 <= fd_version d /\ d ∈ H;
  so_history d : d ∈ H -> exists d', _drafts s !! fd_task_id d = Some d' /\ later_draft d d';
  so_receipt k f d : _commands s !! k = Some (f, d) -> d ∈ H /\ 1 <= fd_version d;
  so_author k k' f f' d d' : _commands s !! k = Some (f, d) -> _commands s !! k' = Some (f', d') ->
    fd_task_id d = fd_task_id d' -> fd_version d = fd_version d' -> k = k';
  so_revisions i d v : _drafts s !! i = Some d -> 1 <= v <= fd_version d ->
    exists k f d', _commands s !! k = Some (f, d') /\ fd_task_id d' = i /\ fd_version d' = v
}.

(** A draft is written under an unused key: over no draft, or over the latest revision. *)
Lemma store_ok_write s H key f i d (old : option FormDraft) :
  fd_task_id d = i -> store_ok s H -> _commands s !! key = None -> _drafts s !! i = old -> draft_ok d ->
  match old with
  | None => fd_version d = 1
  | Some c => later_draft c d /\ fd_version d = fd_version c + 1
  end ->
  store_ok (s {{ _drafts := <[i := d]> (_drafts s) }}
              {{ _commands := <[key := (f, d)]> (_commands s) }}) (d :: H).
Proof.
  intros <- Hs Hk Ho Hd Hnew.
  assert (1 <= fd_version d) as Hpos.
  { destruct old as [c|]; cbn beta iota in Hnew; [|lia]. destruct Hnew as [_ ->]. destruct (so_current _ _ Hs _ _ Ho) as (_ & _ & ? & _). lia. }
  assert (forall k f' d', _commands s !! k = Some (f', d') -> fd_task_id d = fd_task_id d' ->
    fd_version d' < fd_version d) as Holder.
  { intros k f' d' Hc Ht. destruct (so_receipt _ _ Hs _ _ _ Hc) as [Hin ?].
    destruct (so_history _ _ Hs _ Hin) as (c & Hcur & Hl). rewrite <- Ht, Ho in Hcur. rewrite Hcur in Hnew.
    destruct Hnew as [_ ->]. pose proof (ld_version _ _ Hl). lia. }
  split; cbn.
  - intros i e [[<- <-]|[Hne He]]%lookup_insert_Some; [split_and!; try done; set_solver|].
    destruct (so_current _ _ Hs _ _ He) as (? & ? & ? & ?). split_and!; try done. set_solver.
  - intros e [->|He]%elem_of_cons; [exists d; rewrite lookup_insert_eq; split; [done|by apply later_draft_refl]|].
    destruct (so_history _ _ Hs _ He) as (e' & He' & Hl). destruct (decide (fd_task_id e = fd_task_id d)) as [E|E].
    + rewrite E in He'. rewrite Ho in He'. rewrite He' in Hnew. exists d. rewrite E, lookup_insert_eq. split; [done|].
      eapply later_draft_trans; [done|]. apply Hnew.
    + exists e'. rewrite lookup_insert_ne by done. done.
  - intros k g e [[<- [= <- <-]]|[Hne He]]%lookup_insert_Some; [set_solver|].
    destruct (so_receipt _ _ Hs _ _ _ He). set_solver.
  - intros k k' g g' e e' [[<- [= <- <-]]|[Hne He]]%lookup_insert_Some [[<- [= <- <-]]|[Hne' He']]%lookup_insert_Some Ht Hv;
      [done| | |by eapply (so_author _ _ Hs k k')].
    + pose proof (Holder _ _ _ He' Ht). lia.
    + pose proof (Holder _ _ _ He (eq_sym Ht)). lia.
  - intros i e v [[<- <-]|[Hne He]]%lookup_insert_Some Hv.
    + destruct (decide (v = fd_version d)) as [->|Hvd].
      { exists key, f, d. rewrite lookup_insert_eq. done. }
      destruct old as [c|]; [|lia]. destruct Hnew as [_ Hnew].
      destruct (so_revisions _ _ Hs _ _ v Ho) as (k & g & e & Hc & He & Hve); [lia|].
      exists k, g, e. rewrite lookup_insert_ne by congruence. done.
    + destruct (so_revisions _ _ Hs _ _ v He Hv) as (k & g & e' & Hc & He' & Hve).
      exists k, g, e'. rewrite lookup_insert_ne by congruence. done.
Qed.

Lemma empty_store_ok : store_ok empty_drafts [].
Proof. split; cbn; intros *; rewrite ?lookup_empty; try done. by intros ?%elem_of_nil. Qed.

(** ** The discipline of the service *)

Definition draft_allowed (X : Type) (kn : list FormDraft) (op : fdE X) : Prop :=
  match op with
  | FCreate d _ _ => draft_ok d /\ fd_version d = 1
  | FReplace i values _ _ _ => exists d, d ∈ kn /\ fd_task_id d = i /\
      validate_form_values (fd_json_schema d) (JObj values) = Ok values
  | _ => True
  end.

Definition draft_sound (X : Type) (kn : list FormDraft) (op : fdE X) : result X -> Prop :=
  match op in fdE Y return result Y -> Prop with
  | FGet i => fun r => match r with Ok d => fd_task_id d = i | Err _ => True end
  | _ => fun _ => True
  end.

Definition draft_learn (X : Type) (op : fdE X) : result X -> list FormDraft :=
  match op in fdE Y return result Y -> list FormDraft with
  | FGet i => fun r => match r with Ok d => [d] | Err _ => [] end
  | _ => fun _ => []
  end.

Ltac unfold_store := unfold mbind, M_bind, mret, M_ret, get_state, put_state, raise, lift, fail in *; cbn beta iota in *.

Lemma replay_cases key f s s' r : _replay key f s = (s', r) ->
  s' = s /\ match r with
            | Ok None => _commands s !! key = None
            | Ok (Some d) => _commands s !! key = Some (f, d)
            | Err _ => exists f' d, _commands s !! key = Some (f', d) /\ f' <> f
            end.
Proof.
  unfold _replay. unfold_store. destruct (_commands s !! key) as [[f' d]|] eqn:E; [|by intros [= <- <-]].
  case_bool_decide as Hf; cbn; intros [= <- <-]; [by subst|]. split; [done|]. by exists f', d.
Qed.

(** A create command stores its draft or leaves the store alone. *)
Lemma draft_create_cases d key f s s' r : draft_create d key f s = (s', r) ->
  s' = s \/ (_commands s !! key = None /\ _drafts s !! fd_task_id d = None /\ r = Ok d /\
    s' = s {{ _drafts := <[fd_task_id d := d]> (_drafts s) }} {{ _commands := <[key := (f, d)]> (_commands s) }}).
Proof.
  unfold draft_create. unfold_store. destruct (_replay key f s) as [s1 [[d'|]|e]] eqn:E;
    destruct (replay_cases _ _ _ _ _ E) as [-> Hk]; cbn; [intros [= <- _]; by left| |intros [= <- _]; by left].
  case_bool_decide as Hd; cbn; intros [= <- <-]; [by left|]. right. split_and!; try done. by apply eq_None_not_Some.
Qed.

Lemma draft_replace_cases i values v key f now s s' r : draft_replace i values v key f now s = (s', r) ->
  s' = s \/ exists c properties, _commands s !! key = None /\ _drafts s !! i = Some c /\ fd_version c = v /\
    assoc "properties" (fd_json_schema c) = Some (JObj properties) /\
    let saved := c {{ fd_values := values }}
                   {{ fd_sources := (fun name => (name, next_source c values name)) <$> keys properties }}
                   {{ fd_version := v + 1 }} {{ fd_updated_at := now }} in
    r = Ok saved /\
    s' = s {{ _drafts := <[i := saved]> (_drafts s) }} {{ _commands := <[key := (f, saved)]> (_commands s) }}.
Proof.
  unfold draft_replace. unfold_store. destruct (_replay key f s) as [s1 [[d'|]|e]] eqn:E;
    destruct (replay_cases _ _ _ _ _ E) as [-> Hk]; cbn; [intros [= <- _]; by left| |intros [= <- _]; by left].
  destruct (_drafts s !! i) as [c|] eqn:Hc; cbn; [|intros [= <- _]; by left].
  destruct (fd_version c =? v) eqn:Hv; cbn; [|intros [= <- _]; by left]. bool_props. unfold item.
  destruct (assoc "properties" (fd_json_schema c)) as [[| | | | | |properties|]|] eqn:Hp; cbn; intros [= <- <-];
    try by left. right. exists c, properties. done.
Qed.

Lemma draft_step_inv X (op : fdE X) s s' r H kn :
  store_ok s H -> kn ⊆ H -> draft_allowed X kn op -> draft_step X op s s' r ->
  exists H', H ⊆ H' /\ store_ok s' H' /\ draft_learn X op r ⊆ H' /\ draft_sound X kn op r.
Proof.
  intros Hs Hkn Ha Hstep. destruct op as [X op|i|key|d key f|i values v key f|]; cbn in *.
  - subst. exists H. set_solver.
  - unfold on_drafts, draft_get in Hstep. unfold_store. exists H. split; [done|].
    destruct (_drafts s !! i) as [d|] eqn:Hd; injection Hstep as <- <-; (split; [done|]); [|set_solver].
    destruct (so_current _ _ Hs _ _ Hd) as (? & _ & _ & ?). set_solver.
  - injection Hstep as <- <-. exists H. set_solver.
  - destruct Ha as [Hd Hv]. destruct (draft_create_cases _ _ _ _ _ _ Hstep) as [->|(Hk & Hn & -> & ->)];
      [exists H; set_solver|]. exists (d :: H). split_and!; [set_solver| |set_solver|done].
    by apply (store_ok_write s H key f _ d None).
  - destruct Hstep as (now & Hstep). destruct Ha as (d & Hin & Hi & Hvs).
    destruct (draft_replace_cases _ _ _ _ _ _ _ _ _ Hstep) as [->|(c & props & Hk & Hc & Hv & Hp & Hr)];
      [exists H; set_solver|]. cbn zeta in Hr. destruct Hr as [-> ->].
    destruct (so_current _ _ Hs _ _ Hc) as (Hid & Hok & Hpos & Hch).
    destruct (so_history _ _ Hs d (Hkn _ Hin)) as (c' & Hc' & Hl). rewrite Hi, Hc in Hc'. injection Hc' as <-.
    rewrite <- (proj1 (proj2 (proj2 (proj2 (proj2 (ld_form _ _ Hl)))))) in Hvs. subst v.
    destruct (replaced_later c values _ now props Hok Hp eq_refl Hvs) as [Hok' Hl'].
    unshelve epose proof (store_ok_write s H key f i _ (Some c) _ Hs Hk Hc Hok' (conj Hl' eq_refl)) as Hw; [exact Hid|].
    eexists. split; [|split; [exact Hw|]]; [intros y Hy; by apply list_elem_of_further|].
    split; [|done]. by intros y ?%elem_of_nil.
  - destruct Hstep as [-> _]. exists H. set_solver.
Qed.

Lemma draft_cancel_sound X (op : fdE X) kn :
  draft_sound X kn op (Err cancelled) /\ draft_learn X op (Err cancelled) = [].
Proof. by destruct op. Qed.

Notation ddwp := (dwp draft_allowed draft_sound draft_learn).

Lemma replay_create_free i x f key vs src kn (Q : list FormDraft -> result (option FormDraft) -> Prop) :
  (forall kn' r, Q kn' r) -> ddwp (replay_create i x f key vs src) kn Q.
Proof.
  intros HQ. unfold replay_create. apply dwp_bind, dwp_any; [done|]. intros kn1 [_t|]; [|done].
  apply dwp_bind, dwp_any; [done|]. intros kn2 [[[g d]|]|]; [|apply HQ..].
  apply dwp_bind, dwp_of_result. destruct (_create_fingerprint _ _ _ _ _); [|apply HQ]. case_match; apply HQ.
Qed.

Lemma form_create_ok i form key vs src kn : ddwp (form_create i form key vs src) kn (fun _ _ => True).
Proof.
  unfold form_create. apply dwp_bind, dwp_of_result. destruct (str_item _ form) as [x|]; [|done].
  apply dwp_bind, dwp_of_result. destruct (str_item _ form) as [f|]; [|done].
  apply dwp_bind, replay_create_free. intros kn1 [[d|]|]; [done| |done].
  apply dwp_bind, dwp_of_result. destruct (build_draft _ _ _ _ _ _) as [draft|] eqn:Hb; [|done].
  apply dwp_bind, dwp_any; [done|]. intros kn2 [now|]; [|done].
  apply dwp_bind, dwp_of_result. destruct (_create_fingerprint _ _ _ _ _) as [g|]; [|done].
  destruct (build_draft_ok _ _ _ _ _ _ _ now Hb) as (Hd & _ & Hv).
  apply dwp_try, dwp_perform; [done|]. intros [d|e] _; [done|]. destruct (exn_is e _); [|done].
  apply dwp_bind, replay_create_free. by intros kn3 [[]|].
Qed.

Lemma form_replace_ok i values v key kn : ddwp (form_replace i values v key) kn (fun _ _ => True).
Proof.
  unfold form_replace. apply dwp_bind, dwp_any; [done|]. intros kn1 [_t|]; [|done].
  apply dwp_bind, dwp_perform; [done|]. intros [d|] Hd; [|done]. cbn in Hd.
  apply dwp_bind, dwp_of_result. destruct (validate_form_values _ values) as [checked|] eqn:Hv; [|done].
  apply dwp_bind, dwp_of_result. destruct (canonical_sha256 _) as [g|]; [|done].
  apply dwp_perform; [|done]. exists d. split_and!; [set_solver|done|].
  by rewrite <- (values_kept _ _ _ Hv).
Qed.

Lemma draft_client_ok p : draft_client p -> ddwp p [] (fun _ _ => True).
Proof.
  destruct 1; apply dwp_bind.
  - unfold form_get. apply dwp_bind, dwp_any; [done|]. intros kn1 [_t|]; [|done]. apply dwp_perform; [done|].
    by intros [].
  - apply replay_create_free. by intros kn [].
  - eapply dwp_mono; [|apply form_create_ok]. by intros kn [].
  - eapply dwp_mono; [|apply form_replace_ok]. by intros kn [].
Qed.

Lemma draft_pool_later s ts s' ts' : star draft_pool (empty_drafts, []) (s, ts) ->
  star draft_pool (s, ts) (s', ts') -> exists H H', store_ok s H /\ store_ok s' H' /\ H ⊆ H'.
Proof.
  intros Hs Hs'.
  destruct (pool_reachable draft_step draft_client draft_allowed draft_sound draft_learn store_ok
    draft_step_inv draft_cancel_sound draft_client_ok [] _ _ empty_store_ok Hs) as (H & _ & Hinv).
  destruct (pool_history draft_step draft_client draft_allowed draft_sound draft_learn store_ok
    draft_step_inv draft_cancel_sound draft_client_ok H _ _ Hs' Hinv) as (H' & HH & Hinv').
  exists H, H'. destruct Hinv, Hinv'. done.
Qed.

(** Receipts are never forgotten. *)
Lemma receipts_kept_op X (op : fdE X) s s' r : draft_step X op s s' r -> _commands s ⊆ _commands s'.
Proof.
  destruct op as [X op|i|key|d key f|i values v key f|]; cbn.
  - by intros ->.
  - unfold on_drafts, draft_get. unfold_store. case_match; by intros [= <- _].
  - by intros [= <- _].
  - intros [->|(Hk & _ & _ & ->)]%draft_create_cases; [done|]. cbn. by apply insert_subseteq.
  - intros (now & [->|(c & props & Hk & _ & _ & _ & _ & ->)]%draft_replace_cases); [done|]. cbn. by apply insert_subseteq.
  - by intros [-> _].
Qed.

Lemma receipts_kept c c' : star draft_pool c c' -> _commands c.1 ⊆ _commands c'.1.
Proof.
  induction 1 as [c|c1 c2 c3 Hstep _ IH]; [done|]. etrans; [|exact IH].
  destruct Hstep as [s s' ts j X op k r _ Hs| | |]; [|done..]. by eapply receipts_kept_op.
Qed.

(** ** Theorems *)

(** C20. However form commands interleave, are retried, cancelled or cut short, a draft stays
    bound to its task and form, its values pass the checks of its schema (which do not ask for required
    fields), and its sources are honest: a field that is
    marked as evidence has been marked as evidence in every earlier revision, with an equal value
    in each; a field without a value is never marked as evidence or user input. *)
Theorem evidence_is_never_forged s ts s' ts' i d :
  star draft_pool (empty_drafts, []) (s, ts) -> star draft_pool (s, ts) (s', ts') ->
  _drafts s !! i = Some d ->
  exists d', _drafts s' !! i = Some d' /\ draft_ok d' /\ same_form d d' /\ fd_task_id d' = i /\
    fd_version d <= fd_version d' /\ (fd_version d' = fd_version d -> d' = d) /\
    forall name, assoc name (fd_sources d') = Some "EVIDENCE" -> still_evidence d d' name.
Proof.
  intros Hs Hs' Hd. destruct (draft_pool_later _ _ _ _ Hs Hs') as (H & H' & Hok & Hok' & HH).
  destruct (so_current _ _ Hok _ _ Hd) as (Hi & _ & _ & Hin).
  destruct (so_history _ _ Hok' d (HH _ Hin)) as (d' & Hd' & Hl). rewrite Hi in Hd'.
  destruct (so_current _ _ Hok' _ _ Hd') as (Hi' & Hdok & _ & _). exists d'.
  split_and!; try done; [apply (ld_form _ _ Hl)|apply (ld_version _ _ Hl)| |apply (ld_evidence _ _ Hl)].
  intros Hv. by apply (ld_same _ _ Hl).
Qed.

(** Draft commands take effect exactly once: a key that has a receipt keeps it, a repeated command
    under the key changes nothing and answers with the original draft or is refused, and every
    revision of every draft, from the first to the current one, was written under exactly one key. *)
Theorem draft_revisions_have_one_author s ts s' ts' i d v :
  star draft_pool (empty_drafts, []) (s, ts) -> star draft_pool (s, ts) (s', ts') ->
  _drafts s !! i = Some d -> 1 <= v <= fd_version d ->
  exists k f r, _commands s' !! k = Some (f, r) /\ fd_task_id r = i /\ fd_version r = v /\
    (forall k' f' r', _commands s' !! k' = Some (f', r') -> fd_task_id r' = i -> fd_version r' = v -> k' = k) /\
    (forall d' g, exists res, draft_create d' k g s' = (s', res) /\
       if bool_decide (g = f) then res = Ok r else is_ok res = false) /\
    (forall i' values v' g now, exists res, draft_replace i' values v' k g now s' = (s', res) /\
       if bool_decide (g = f) then res = Ok r else is_ok res = false).
Proof.
  intros Hs Hs' Hd Hv. destruct (draft_pool_later _ _ _ _ Hs Hs') as (H & H' & Hok & Hok' & HH).
  destruct (so_revisions _ _ Hok _ _ v Hd Hv) as (k & f & r & Hk & Hi & Hrv).
  pose proof (lookup_weaken _ _ _ _ Hk (receipts_kept _ _ Hs')) as Hk'. cbn in Hk'.
  exists k, f, r. split_and!; try done.
  - intros k' f' r' Hr' Hi' Hv'. eapply (so_author _ _ Hok'); [exact Hr'|exact Hk'|congruence..].
  - intros d' g. unfold draft_create, _replay. unfold_store. rewrite Hk'. case_bool_decide as E.
    + rewrite bool_decide_eq_true_2 by done. cbn. by eexists.
    + rewrite bool_decide_eq_false_2 by congruence. cbn. by eexists.
  - intros i' values v' g now. unfold draft_replace, _replay. unfold_store. rewrite Hk'. case_bool_decide as E.
    + rewrite bool_decide_eq_true_2 by done. cbn. by eexists.
    + rewrite bool_decide_eq_false_2 by congruence. cbn. by eexists.
Qed.

(** ** A draft that is created with evidence and edited once *)

Module DraftScenario.

Definition answer (X : Type) (op : fdE X) : M InMemoryFormDraftStore X :=
  match op in fdE Y return M InMemoryFormDraftStore Y with
  | FTask op => fun s => (s, match op in taskE Y return result Y with
      | TGet i => make_task i "apply" TaskState.QUEUED 1 0
      | _ => fail NotFoundError "task"
      end)
  | FGet i => draft_get i
  | FReceipt key => draft_command_receipt key
  | FCreate d key f => draft_create d key f
  | FReplace i values v key f => draft_replace i values v key f 7
  | FNow => fun s => (s, Ok 5)
  end.

Lemma draft_answer_step X (op : fdE X) s : draft_step X op s (answer X op s).1 (answer X op s).2.
Proof.
  destruct op as [X op|i|key|d key f|i values v key f|]; cbn; unfold on_drafts; try done;
    [by destruct (draft_get i s)|by destruct (draft_create d key f s)|exists 7; by destruct (draft_replace _ _ _ _ _ _ s)].
Qed.

Definition form : list (string * json) :=
  [("extension_id", JStr "nju.forms"); ("extension_version", JStr "1.0.0"); ("id", JStr "leave");
   ("json_schema", JObj [("type", JStr "object"); ("additionalProperties", JBool false);
      ("required", JList [JStr "name"]);
      ("properties", JObj [("name", JObj [("type", JStr "string"); ("maxLength", JInt 20)]);
                           ("days", JObj [("type", JStr "integer"); ("minimum", JInt 1)])])]);
   ("ui_schema", JObj [("ui:order", JList [JStr "name"; JStr "days"]); ("sensitivity", JStr "PERSONAL");
                       ("days", JObj [("ui:widget", JStr "number")])])].

Definition creation : prog fdE unit :=
  _ ← form_create "task_1" form "k1" (Some [("name", JStr "Li"); ("days", JInt 2)]) (Some [("name", "EVIDENCE")]); Ret tt.
Definition edit : prog fdE unit :=
  _ ← form_replace "task_1" (JObj [("name", JStr "Li"); ("days", JInt 3)]) 1 "k2"; Ret tt.

Definition created : InMemoryFormDraftStore := Eval vm_compute in (run answer creation empty_drafts).1.
Definition edited : InMemoryFormDraftStore := Eval vm_compute in (run answer edit created).1.

Lemma draft_created_reachable : exists ts, star draft_pool (empty_drafts, []) (created, ts).
Proof.
  eexists. change created with (run answer creation empty_drafts).1.
  apply pool_run_alone; [apply draft_answer_step|]. constructor.
Qed.
Lemma draft_edited_reachable ts : exists ts', star draft_pool (created, ts) (edited, ts').
Proof.
  eexists. change edited with (run answer edit created).1.
  apply pool_run_alone; [apply draft_answer_step|]. constructor.
Qed.

(** A bound that no float can hold is not rejected as an invalid bound: the check itself raises. *)
Example huge_bound_raises : validate_form_schema
  (JObj [("type", JStr "object"); ("additionalProperties", JBool false);
         ("properties", JObj [("n", JObj [("type", JStr "integer"); ("maximum", JInt (10 ^ 400))])])]) (JObj [])
  = fail PyOverflowError "int too large to convert to float".
Proof. vm_compute. reflexivity. Qed.

(** So does a field order with items of two types. *)
Example mixed_order_raises : is_ok (validate_form_schema
  (JObj [("type", JStr "object"); ("additionalProperties", JBool false);
         ("properties", JObj [("n", JObj [("type", JStr "integer")])])])
  (JObj [("ui:order", JList [JStr "n"; JInt 1])])) = false /\
  sorted [JStr "n"; JInt 1] = fail PyTypeError "'<' not supported between these operands".
Proof. vm_compute. done. Qed.
End DraftScenario.

Lemma evidence_is_never_forged_witness : exists d',
  _drafts DraftScenario.edited !! "task_1" = Some d' /\ fd_version d' = 2 /\
  assoc "name" (fd_sources d') = Some "EVIDENCE" /\ assoc "days" (fd_sources d') = Some "USER_INPUT" /\
  assoc "name" (fd_values d') = Some (JStr "Li").
Proof.
  destruct DraftScenario.draft_created_reachable as [ts Hs]. destruct (DraftScenario.draft_edited_reachable ts) as [ts' Hs'].
  destruct (evidence_is_never_forged _ _ _ _ "task_1" _ Hs Hs' eq_refl) as (d' & Hd' & _).
  exists d'. split; [done|]. vm_compute in Hd'. injection Hd' as <-. done.
Defined.

Lemma draft_revisions_have_one_author_witness : exists k f r,
  _commands DraftScenario.edited !! k = Some (f, r) /\ fd_version r = 1 /\ k = "k1".
Proof.
  destruct DraftScenario.draft_created_reachable as [ts Hs]. destruct (DraftScenario.draft_edited_reachable ts) as [ts' Hs'].
  destruct (draft_revisions_have_one_author _ _ _ _ "task_1" _ 1 Hs Hs' eq_refl ltac:(by vm_compute))
    as (k & f & r & Hk & Hi & Hv & Hu & _).
  exists k, f, r. split_and!; [done..|]. symmetry. by eapply Hu; [vm_compute; reflexivity|..].
Defined.
