(* ===== verification/DataAccess.v ===== *)
(** * DataAccess: the guard in front of the extensions' SQL namespace

    Models [core/extensions/data_access.py] and [infrastructure/memory/extension_data.py].  The
    scanners of the module walk over a statement by index; here they walk over its characters, with
    the characters already passed ([prev], latest first) for the look-behind of [_is_escape_string].
    Every iteration of a scanner consumes a character, so the length of the text is enough fuel
    ([scan_total], [split_total], [strip_total]).  The regular expressions are written out. *)

From S2P Require Import Prelude Text Sha256 Json Schemas PyValue Manifest.
From S2P Require Import Extensions BrowserModels.
From Stdlib Require Import Floats.SpecFloat.
Local Open Scope string_scope.
Local Open Scope Z_scope.

Notation text := (list Ascii.ascii) (only parsing).

(** ** Errors and constants *)

Definition _DATA_ERROR_CODES : list string :=
  ["DATA_UNAVAILABLE"; "DATA_STATEMENT_REJECTED"; "DATA_TIMEOUT"; "DATA_MIGRATION_INVALID";
   "DATA_RESULT_TOO_LARGE"; "DATA_PROTOCOL_ERROR"; "DATA_INTERNAL_ERROR"].

(** [DataAccessError(code, message)]; [code] is carried as the reference of the exception. *)
Definition data_error (code msg : string) : exn :=
  Exn DataAccessError msg (Some (if mem_b code _DATA_ERROR_CODES then code else "DATA_INTERNAL_ERROR")) false.
Definition data_fail {A} (code msg : string) : result A := Err (data_error code msg).
Definition data_if (b : bool) (code msg : string) : result unit := if b then data_fail code msg else Ok tt.

Definition MAX_STATEMENT_BYTES : Z := 65536.
Definition MAX_PARAMETERS : Z := 256.
Definition MAX_PARAMETER_BYTES : Z := 262144.
Definition MAX_PARAMETER_DEPTH : Z := 32.
Definition MAX_TRANSACTION_STATEMENTS : Z := 512.
Definition MAX_MIGRATION_BYTES : Z := 1048576.

Definition _ALLOWED_LEADING_KEYWORDS : list string :=
  ["SELECT"; "WITH"; "VALUES"; "INSERT"; "UPDATE"; "DELETE"; "CREATE"; "ALTER"; "DROP"; "COMMENT"; "TRUNCATE"].

Definition _DENIED_SUBSTRINGS : list string :=
  ["pg_read_file"; "pg_read_binary_file"; "pg_ls_dir"; "pg_stat_file"; "lo_import"; "lo_export"; "dblink";
   "postgres_fdw"; "set_config"; "search_path"; " set schema "; "create extension"; "drop extension";
   "alter system"; "set role"; "set session authorization"; "security definer"; "pg_catalog";
   "information_schema"; "pg_toast"; "pg_temp"; "pg_shadow"; "pg_authid"; "pg_subscription"; "public.";
   "create schema"; "drop schema"; "create database"; "drop database"; "create role"; "alter role"; "drop role";
   "create user"; "alter user"; "drop user"; "drop type"; "alter type"; "drop sequence"; "alter sequence";
   "setval("; "program "].

Definition bytes (s : string) : Z := Z.of_nat (length (utf8_encode s)).

(** ** Character tests and searches *)

Definition is_chr (n : Z) (a : Ascii.ascii) : bool := code a =? n.

(** [l.find(p)]: the text before the first occurrence and the text after it. *)
Fixpoint find_sub (p l : text) : option (text * text) :=
  if is_prefix_l p l then Some ([], drop (length p) l)
  else match l with
       | [] => None
       | a :: l' => (fun '(b, r) => (a :: b, r)) <$> find_sub p l'
       end.

(** [p in l] *)
Definition contains (p l : text) : bool := match find_sub p l with Some _ => true | None => false end.

Definition is_tag_char (a : Ascii.ascii) : bool := is_alnum a || is_chr 95 a.

(** [re.match(r"\$[A-Za-z_0-9]*\$", l)] *)
Definition dollar_tag (l : text) : option (text * text) :=
  match l with
  | a :: l' =>
      if is_chr 36 a then
        let '(w, r) := span is_tag_char l' in
        match r with
        | b :: r' => if is_chr 36 b then Some (a :: (w ++ [b]), r')%list else None
        | [] => None
        end
      else None
  | [] => None
  end.

Definition starts2 (x y : Z) (l : text) : bool :=
  match l with a :: b :: _ => is_chr x a && is_chr y b | _ => false end.

(** ** The scanners *)

Definition _is_escape_string (prev : text) : bool :=
  match prev with
  | [] => false
  | p :: before =>
      if negb (is_chr 69 p || is_chr 101 p) then false
      else match before with [] => true | b :: _ => negb (is_word b) end
  end.

(** [_skip_quoted], after the opening quote: the quoted text that remains, and the rest. *)
Fixpoint _skip_quoted (quote : Z) (backslash_escapes : bool) (l : text) : result (text * text) :=
  match l with
  | [] => data_fail "DATA_STATEMENT_REJECTED" "unterminated quoted string"
  | a :: l' =>
      if is_chr quote a then
        match l' with
        | b :: l'' =>
            if is_chr quote b then
              '(q, r) ← _skip_quoted quote backslash_escapes l''; Ok (a :: b :: q, r)
            else Ok ([a], l')
        | [] => Ok ([a], [])
        end
      else if backslash_escapes && is_chr 92 a then
        match l' with
        | b :: l'' => '(q, r) ← _skip_quoted quote backslash_escapes l''; Ok (a :: b :: q, r)
        | [] => data_fail "DATA_STATEMENT_REJECTED" "unterminated quoted string"
        end
      else '(q, r) ← _skip_quoted quote backslash_escapes l'; Ok (a :: q, r)
  end.

(** A quoted string or identifier at the head of the text. *)
Definition quoted_span (prev l : text) : option (result (text * text)) :=
  match l with
  | a :: l' =>
      if is_chr 39 a then Some ('(q, r) ← _skip_quoted 39 (_is_escape_string prev) l'; Ok (a :: q, r))
      else if is_chr 34 a then Some ('(q, r) ← _skip_quoted 34 false l'; Ok (a :: q, r))
      else None
  | [] => None
  end.

(** A line comment, up to and with its newline. *)
Definition line_comment (l : text) : text * text :=
  match find_sub [Ascii.ascii_of_N 10] l with
  | Some (b, r) => ((b ++ [Ascii.ascii_of_N 10])%list, r)
  | None => (l, [])
  end.

Definition block_end : text := [Ascii.ascii_of_N 42; Ascii.ascii_of_N 47].

(** A block comment; [None] when it is not closed. *)
Definition block_comment (l : text) : option (text * text) :=
  (fun '(b, r) => (take 2 l ++ b ++ block_end, r)%list) <$> find_sub block_end (drop 2 l).

(** The branches that [_scan_single_statement] and [_split_migration_statements] have in common: the
    quoted string, dollar-quoted string or comment at the head of the text, if there is one. *)
Definition skip_span (code : string) (prev l : text) : result (option (text * text)) :=
  match quoted_span prev l with
  | Some r => qr ← r; Ok (Some qr)
  | None =>
      match dollar_tag l with
      | Some (tag, rest) =>
          match find_sub tag rest with
          | Some (b, r) => Ok (Some ((tag ++ b ++ tag)%list, r))
          | None => data_fail code "unterminated dollar-quoted string"
          end
      | None =>
          if starts2 45 45 l then Ok (Some (line_comment l))
          else if starts2 47 42 l then
            match block_comment l with
            | Some s => Ok (Some s)
            | None => data_fail code "unterminated block comment"
            end
          else Ok None
      end
  end.

Fixpoint scan (fuel : nat) (prev l : text) : result unit :=
  match l with
  | [] => Ok tt
  | a :: l' =>
      match fuel with
      | O => out_of_fuel
      | S fuel =>
          s ← skip_span "DATA_STATEMENT_REJECTED" prev l;
          match s with
          | Some (span, rest) => scan fuel (reverse span ++ prev)%list rest
          | None =>
              if is_chr 59 a
              then data_fail "DATA_STATEMENT_REJECTED" "only one statement may be executed at a time"
              else scan fuel (a :: prev) l'
          end
      end
  end.
Definition _scan_single_statement (l : text) : result unit := scan (length l) [] l.

Definition lstrip (l : text) : text := lstrip_l l.
Definition rstrip (l : text) : text := reverse (lstrip_l (reverse l)).
Definition strip_text (l : text) : text := rstrip (lstrip l).

Definition _strip_single_statement (statement : text) : result text :=
  let body := rstrip statement in
  let body := match reverse body with
              | a :: r => if is_chr 59 a then rstrip (reverse r) else body
              | [] => body
              end in
  _ ← data_if (bool_decide (body = [])) "DATA_STATEMENT_REJECTED" "statement is empty";
  _ ← _scan_single_statement body;
  Ok body.

Fixpoint strip_leading (fuel : nat) (l : text) : text :=
  match fuel with
  | O => l
  | S fuel =>
      if starts2 45 45 l then
        match find_sub [Ascii.ascii_of_N 10] l with
        | Some (_, r) => strip_leading fuel (lstrip r)
        | None => []
        end
      else if starts2 47 42 l then
        match find_sub block_end (drop 2 l) with
        | Some (_, r) => strip_leading fuel (lstrip r)
        | None => []
        end
      else l
  end.
Definition _strip_leading_comments (l : text) : text := strip_leading (length l) (lstrip l).

(** [cur] is the text since [start], latest first. *)
Fixpoint split (fuel : nat) (prev cur l : text) : result (list text) :=
  match l with
  | [] => Ok [reverse cur]
  | a :: l' =>
      match fuel with
      | O => out_of_fuel
      | S fuel =>
          s ← skip_span "DATA_MIGRATION_INVALID" prev l;
          match s with
          | Some (span, rest) => split fuel (reverse span ++ prev)%list (reverse span ++ cur)%list rest
          | None =>
              if is_chr 59 a then pieces ← split fuel (a :: prev) [] l'; Ok (reverse cur :: pieces)
              else split fuel (a :: prev) (a :: cur) l'
          end
      end
  end.

Definition is_statement (candidate : text) : bool := negb (bool_decide (_strip_leading_comments candidate = [])).

Definition _split_migration_statements (sql : text) : result (list text) :=
  pieces ← split (length sql) [] [] sql;
  Ok (List.filter is_statement (strip_text <$> pieces)).

(** [_strip_comments]: a comment becomes a space, the newline of a line comment stays. *)
Fixpoint strip_comments (fuel : nat) (prev l : text) : result text :=
  match l with
  | [] => Ok []
  | a :: l' =>
      match fuel with
      | O => out_of_fuel
      | S fuel =>
          match quoted_span prev l with
          | Some r =>
              '(span, rest) ← r;
              out ← strip_comments fuel (reverse span ++ prev)%list rest; Ok (span ++ out)%list
          | None =>
              let space := Ascii.ascii_of_N 32 in
              if starts2 45 45 l then
                match find_sub [Ascii.ascii_of_N 10] l with
                | Some (b, r) =>
                    out ← strip_comments fuel (reverse b ++ prev)%list (Ascii.ascii_of_N 10 :: r); Ok (space :: out)
                | None => Ok [space]
                end
              else if starts2 47 42 l then
                match block_comment l with
                | Some (b, r) => out ← strip_comments fuel (reverse b ++ prev)%list r; Ok (space :: out)
                | None => Ok [space]
                end
              else out ← strip_comments fuel (a :: prev) l'; Ok (a :: out)
          end
      end
  end.
Definition _strip_comments (l : text) : result text := strip_comments (length l) [] l.

(** ** Schema qualifiers *)

(** The words of the text that are followed by [?\s*\.], that is, by a dot. *)
Definition dotted (r : text) : bool :=
  let r := match r with a :: r' => if is_chr 34 a then r' else r | [] => r end in
  match lstrip_l r with a :: _ => is_chr 46 a | [] => false end.

Fixpoint qualifiers (fuel : nat) (l : text) : list text :=
  match fuel with
  | O => []
  | S fuel =>
      match l with
      | [] => []
      | a :: l' =>
          if is_word a then
            let '(w, r) := span is_word l in
            ((if dotted r then [w] else []) ++ qualifiers fuel r)%list
          else qualifiers fuel l'
      end
  end.

Definition lower_text (l : text) : text := lower_a <$> l.

(** [_FORBIDDEN_SCHEMA_RE] and [_EXT_SCHEMA_RE] on one word. *)
Definition forbidden_schema (w : text) : bool :=
  let w := lower_text w in
  mem_b w [chars "public"; chars "information_schema"; chars "pg_catalog"; chars "pg_toast"]
  || is_prefix_l (chars "pg_temp") w.
Definition ext_schema (w : text) : bool :=
  let w := lower_text w in
  is_prefix_l (chars "ext_") w && forallb (fun a => is_lower a || is_digit a || is_chr 95 a) w.

(** [re.findall(r"[A-Za-z_][A-Za-z0-9_]*", sql)] *)
Fixpoint sql_words (fuel : nat) (l : text) : list text :=
  match fuel with
  | O => []
  | S fuel =>
      match l with
      | [] => []
      | a :: l' =>
          if is_letter a || is_chr 95 a then let '(w, r) := span is_tag_char l in w :: sql_words fuel r
          else sql_words fuel l'
      end
  end.

Definition upper_a (a : Ascii.ascii) : Ascii.ascii :=
  if is_lower a then Ascii.ascii_of_N (Z.to_N (code a - 32)) else a.

(** [_LEADING_KEYWORD_RE.match(...).group(0).upper()], or the empty string. *)
Definition leading_keyword (l : text) : string :=
  match l with
  | a :: _ => if is_letter a || is_chr 95 a then of_chars (upper_a <$> (span is_tag_char l).1) else ""
  | [] => ""
  end.

Definition _reject_forbidden_relations (sql : text) (forbidden_relations : list string) (code : string) : result unit :=
  let forbidden := (fun name => lower_text (chars name)) <$> forbidden_relations in
  let words := lower_text <$> sql_words (length sql) sql in
  match stable_sort String.leb (of_chars <$> List.filter (fun w => mem_b w forbidden) words) with
  | [] => Ok tt
  | name :: _ => data_fail code ("statement references a core relation: " ++ name)
  end.

(** The loop over [_DENIED_SUBSTRINGS]. *)
Definition deny_substrings (lowered : text) (code prefix : string) : result unit :=
  match List.find (fun token => contains (chars token) lowered) _DENIED_SUBSTRINGS with
  | Some token => data_fail code (prefix ++ " uses a denied construct: " ++ token)
  | None => Ok tt
  end.

(** The two schema checks on the comment-free view of the text. *)
Definition check_qualifiers (view : text) (namespace code prefix : string) : result unit :=
  let words := qualifiers (length view) view in
  _ ← data_if (existsb forbidden_schema words) code (prefix ++ " references a schema outside the extension");
  data_if (existsb (fun w => ext_schema w && negb (bool_decide (lower_text w = lower_text (chars namespace)))) words)
    code (prefix ++ " references another extension namespace").

Definition validate_statement (statement namespace : string) (forbidden_relations : list string) : result string :=
  let rejected := "DATA_STATEMENT_REJECTED" in
  _ ← data_if (blank statement) rejected "statement must be a non-empty string";
  let raw := strip statement in
  _ ← data_if (MAX_STATEMENT_BYTES <? bytes raw) rejected "statement exceeds the size limit";
  stripped ← _strip_single_statement (chars raw);
  _ ← deny_substrings (lower_text stripped) rejected "statement";
  let keyword := leading_keyword (_strip_leading_comments stripped) in
  _ ← data_if (negb (mem_b keyword _ALLOWED_LEADING_KEYWORDS)) rejected
        ("statement kind is not allowed: " ++ (if bool_decide (keyword = "") then "unknown" else keyword));
  screenable ← _strip_comments stripped;
  _ ← check_qualifiers screenable namespace rejected "statement";
  _ ← _reject_forbidden_relations stripped forbidden_relations rejected;
  Ok (of_chars stripped).

(** [try: validate_statement(...) except DataAccessError: raise DataAccessError(...)] *)
Definition validate_migration_statement (namespace : string) (forbidden_relations : list string) (statement : text)
  : result unit :=
  match validate_statement (of_chars statement) namespace forbidden_relations with
  | Ok _ => Ok tt
  | Err e => if exn_is e DataAccessError
             then data_fail "DATA_MIGRATION_INVALID" "migration contains a rejected statement" else Err e
  end.

Definition validate_migration_sql (sql namespace : string) (forbidden_relations : list string) : result string :=
  let invalid := "DATA_MIGRATION_INVALID" in
  _ ← data_if (blank sql) invalid "migration file is empty";
  _ ← data_if (MAX_MIGRATION_BYTES <? bytes sql) invalid "migration file exceeds the size limit";
  _ ← deny_substrings (lower_text (chars sql)) invalid "migration";
  view ← _strip_comments (chars sql);
  _ ← check_qualifiers view namespace invalid "migration";
  _ ← _reject_forbidden_relations (chars sql) forbidden_relations invalid;
  statements ← _split_migration_statements (chars sql);
  _ ← data_if (bool_decide (statements = [])) invalid "migration file has no statements";
  _ ← result_iter (validate_migration_statement namespace forbidden_relations) statements;
  Ok sql.

(** ** Parameters, transactions and migration descriptors *)

Fixpoint _validate_parameter (depth : Z) (value : json) : result json :=
  if MAX_PARAMETER_DEPTH <? depth
  then data_fail "DATA_STATEMENT_REJECTED" "parameter nesting exceeds the depth limit"
  else
    match value with
    | JFloat (S754_nan | S754_infinity _) => data_fail "DATA_STATEMENT_REJECTED" "numeric parameters must be finite"
    | JNull | JBool _ | JInt _ | JFloat _ => Ok value
    | JStr s =>
        if MAX_PARAMETER_BYTES <? bytes s
        then data_fail "DATA_STATEMENT_REJECTED" "a parameter value is too large" else Ok value
    | JList l => items ← sequence (_validate_parameter (depth + 1) <$> l); Ok (JList items)
    | JObj d =>
        items ← sequence ((fun kv => v ← _validate_parameter (depth + 1) kv.2; Ok (kv.1, v)) <$> d);
        Ok (JObj items)
    | JOther _ => data_fail "DATA_STATEMENT_REJECTED" "parameter values must be JSON scalars, arrays or objects"
    end.

Definition validate_parameters (parameters : list json) : result (list json) :=
  _ ← data_if (MAX_PARAMETERS <? Z.of_nat (length parameters)) "DATA_STATEMENT_REJECTED" "too many statement parameters";
  result_map (_validate_parameter 0) parameters.

Definition transaction_item (item : json) : result (string * list json) :=
  match item with
  | JObj d =>
      match get_or "parameters" (JList []) d with
      | JList parameters =>
          checked ← validate_parameters parameters;
          Ok (py_str (get_or "statement" JNull d), checked)
      | _ => data_fail "DATA_STATEMENT_REJECTED" "statement parameters must be a list"
      end
  | _ => data_fail "DATA_STATEMENT_REJECTED" "each transaction item must be an object"
  end.

Definition validate_transaction_items (value : json) : result (list (string * list json)) :=
  match value with
  | JList (_ :: _ as l) =>
      _ ← data_if (MAX_TRANSACTION_STATEMENTS <? Z.of_nat (length l)) "DATA_STATEMENT_REJECTED"
            "too many statements in one transaction";
      result_map transaction_item l
  | _ => data_fail "DATA_STATEMENT_REJECTED" "statements must be a non-empty list"
  end.

Record ExtensionMigration := {
  em_version : Z;
  em_path : string;
  em_checksum : string;
  em_description : string
}.

Section migrations.
(** The separators of [pathlib.Path] on the host's platform. *)
Context (is_separator : Ascii.ascii -> bool).

Definition path_ok (path : string) : bool :=
  match chars path with
  | [] => false
  | a :: l =>
      negb (is_chr 47 a || is_chr 92 a)
      && negb (is_letter a && match l with b :: _ => is_chr 58 b | [] => false end)
      && negb (mem_b (chars "..") (split_at is_separator (chars path)))
      && negb (existsb (is_chr 58) (chars path))
  end.

Definition parse_migration (seen : list ExtensionMigration) (item : json) : result ExtensionMigration :=
  let invalid {A} : string -> result A := data_fail "DATA_MIGRATION_INVALID" in
  match item with
  | JObj d =>
      match get_or "version" JNull d with
      | JInt version =>
          if version <=? 0 then invalid "migration version must be a positive integer" else
          match get_or "path" JNull d with
          | JStr path =>
              if negb (path_ok path) then invalid "migration path must be a relative path inside the extension payload" else
              match get_or "checksum" JNull d with
              | JStr checksum =>
                  if negb ((str_len checksum =? 64) && forallb is_hex_lower (chars checksum))
                  then invalid "migration checksum must be a lowercase sha256 hex digest" else
                  match get_or "description" (JStr "") d with
                  | JStr description =>
                      if 512 <? str_len description then invalid "migration description must be a short string"
                      else if mem_b version (em_version <$> seen) then invalid "migration versions must be unique"
                      else if mem_b path (em_path <$> seen) then invalid "migration paths must be unique"
                      else Ok {| em_version := version; em_path := path; em_checksum := checksum; em_description := description |}
                  | _ => invalid "migration description must be a short string"
                  end
              | _ => invalid "migration checksum must be a lowercase sha256 hex digest"
              end
          | _ => invalid "migration path must be a relative path inside the extension payload"
          end
      | _ => invalid "migration version must be a positive integer"
      end
  | _ => invalid "each migration must be an object"
  end.

Fixpoint parse_migration_list (seen : list ExtensionMigration) (l : list json) : result (list ExtensionMigration) :=
  match l with
  | [] => Ok seen
  | item :: l => migration ← parse_migration seen item; parse_migration_list (seen ++ [migration])%list l
  end.

Definition parse_migrations (value : json) : result (list ExtensionMigration) :=
  match value with
  | JList l =>
      migrations ← parse_migration_list [] l;
      Ok (stable_sort (fun a b => em_version a <=? em_version b) migrations)
  | _ => data_fail "DATA_MIGRATION_INVALID" "migrations must be a list"
  end.
End migrations.

(** [verify_migration_checksum]: [read] is the whole file, or [None] when it cannot be read. *)
Definition verify_migration_checksum (read : option string) (expected : string) : result string :=
  match read with
  | None => data_fail "DATA_MIGRATION_INVALID" "migration file could not be read"
  | Some file =>
      let data := str_take (MAX_MIGRATION_BYTES + 1) file in
      _ ← data_if (MAX_MIGRATION_BYTES <? str_len data) "DATA_MIGRATION_INVALID" "migration file exceeds the size limit";
      _ ← data_if (negb (bool_decide (sha256_hex (code <$> chars data) = expected))) "DATA_MIGRATION_INVALID"
            "migration checksum does not match the descriptor";
      Ok data
  end.

Definition namespace_for (extension_id : string) : string := data_namespace extension_id.

(** [UnavailableExtensionDataAccess.handle] *)
Definition unavailable_handle (method : string) (params : list (string * json)) : result json :=
  data_fail "DATA_UNAVAILABLE" "the extension data capability requires the PostgreSQL storage backend".

(** ** Statements that fool the comment-free view

    [_strip_comments] does not know dollar quotes, so a comment opener inside of one hides what follows
    from the schema checks. *)
Example dollar_quote_hides_a_schema :
  validate_statement "SELECT $$ /* $$ FROM ext_other.t /* */" "ext_mine" ["tasks"]
  = Ok "SELECT $$ /* $$ FROM ext_other.t /* */".
Proof. vm_compute. reflexivity. Qed.

(** PostgreSQL nests block comments, the scanner does not: what it reads as one string literal is a
    second statement. *)
Example nested_comment_hides_a_statement :
  is_ok (validate_statement "SELECT 1 /* /* */ ' */ ; DROP TABLE t -- '" "ext_mine" []) = true.
Proof. vm_compute. reflexivity. Qed.

Example plain_references_are_refused :
  is_ok (validate_statement "SELECT x FROM ext_other.t" "ext_mine" []) = false /\
  is_ok (validate_statement "SELECT x FROM public/*c*/ . t" "ext_mine" []) = false /\
  is_ok (validate_statement "SELECT 1; SELECT 2" "ext_mine" []) = false /\
  validate_statement " SELECT x FROM ext_mine.t WHERE y = 'a;b' ; " "ext_mine" []
  = Ok "SELECT x FROM ext_mine.t WHERE y = 'a;b'".
Proof. vm_compute. done. Qed.
