(* ===== verification/DataGuard.v ===== *)
(** * DataGuard: what a statement or a migration that passed the guard looks like

    [Lex] is the lexical structure the scanners recognise, as a relation.  The scanners are total and
    agree with it, it does not depend on what surrounds a piece of text, and so the pieces a migration
    file is cut into are the statements the single-statement scanner accepts. *)

From S2P Require Import Prelude Text Json Schemas Manifest DataAccess.
Local Open Scope string_scope.
Local Open Scope Z_scope.

Notation text := (list Ascii.ascii) (only parsing).

(** ** Searching *)

Lemma is_prefix_app p l : is_prefix_l p (p ++ l) = true.
Proof. induction p as [|a p IH]; [done|]. cbn. by rewrite bool_decide_eq_true_2, IH. Qed.

Lemma is_prefix_l_spec p l : is_prefix_l p l = true -> l = (p ++ drop (length p) l)%list.
Proof.
  revert l. induction p as [|a p IH]; intros [|b l]; cbn; try done.
  intros [E H]%andb_true_iff. apply bool_decide_eq_true in E as ->. f_equal. by apply IH.
Qed.

Lemma is_prefix_l_short p s r : (length p <= length s)%nat -> is_prefix_l p (s ++ r) = is_prefix_l p s.
Proof.
  revert s. induction p as [|a p IH]; intros [|b s] Hl; cbn in *; try done; [lia|]. f_equal. apply IH. lia.
Qed.

Lemma find_sub_spec p l b r : find_sub p l = Some (b, r) -> l = (b ++ p ++ r)%list.
Proof.
  revert b. induction l as [|a l IH]; intros b; cbn.
  - destruct (is_prefix_l p []) eqn:E; [|done]. intros [= <- <-]. by apply is_prefix_l_spec in E.
  - destruct (is_prefix_l p (a :: l)) eqn:E.
    + intros [= <- <-]. by apply is_prefix_l_spec in E.
    + destruct (find_sub p l) as [[b' r']|]; [|done]. intros [= <- <-]. cbn. f_equal. by apply IH.
Qed.

(** The first occurrence does not depend on what follows it. *)
Lemma find_sub_tail p b r r' : find_sub p (b ++ p ++ r) = Some (b, r) -> find_sub p (b ++ p ++ r') = Some (b, r').
Proof.
  assert (forall r, is_prefix_l p (p ++ r) = true) as Hp by (intros; apply is_prefix_app).
  induction b as [|a b IH]; cbn [app].
  - intros _. destruct (p ++ r')%list eqn:E; cbn; rewrite <- E, Hp, drop_app_length; done.
  - assert (forall x, is_prefix_l p (a :: b ++ p ++ x) = is_prefix_l p (a :: b ++ p)) as Hs.
    { intros x. change (a :: b ++ p ++ x)%list with ((a :: b) ++ p ++ x)%list. rewrite (app_assoc (a :: b)).
      apply is_prefix_l_short. cbn [length app]. rewrite length_app. lia. }
    cbn [find_sub]. rewrite !Hs. destruct (is_prefix_l p _); [done|].
    destruct (find_sub p (b ++ p ++ r)) as [[b' s]|] eqn:E; [|done]. cbn. intros [= -> ->]. by rewrite (IH eq_refl).
Qed.

Lemma span_app f l w a r : span f l = (w, a :: r) -> l = (w ++ a :: r)%list /\ f a = false /\
  forall s, span f (w ++ a :: s) = (w, a :: s).
Proof.
  revert w. induction l as [|b l IH]; intros w; cbn; [done|].
  destruct (f b) eqn:E.
  - destruct (span f l) as [w' r'] eqn:Hs. intros [= <- ->]. destruct (IH _ eq_refl) as (-> & Ha & Hw). split_and!; try done.
    intros s. cbn. by rewrite E, Hw.
  - intros [= <- <- <-]. split_and!; try done. intros s. cbn. by rewrite E.
Qed.

Lemma span_spec f l w r : span f l = (w, r) -> l = (w ++ r)%list /\ Forall (fun a => f a = true) w.
Proof.
  revert w. induction l as [|b l IH]; intros w; cbn; [by intros [= <- <-]|].
  destruct (f b) eqn:E; [|by intros [= <- <-]].
  destruct (span f l) as [w' r'] eqn:Hs. intros [= <- ->]. destruct (IH _ eq_refl) as [-> Hw]. split; [done|]. by constructor.
Qed.

(** ** Spans *)

Definition starts_with (q : Z) (l : text) : Prop := match l with a :: _ => is_chr q a = true | [] => False end.
Definition ends_plain (l : text) : Prop := exists l' a, l = (l' ++ [a])%list /\ is_space a = false.

Lemma chr_not_space q a : is_chr q a = true -> mem_b q [34; 36; 39; 42; 45; 47; 59] = true -> is_space a = false.
Proof.
  unfold is_chr, is_space. intros ->%Z.eqb_eq Hq%mem_b_true. set_unfold. by repeat destruct Hq as [->|Hq].
Qed.

Lemma ends_plain_cons a l : ends_plain l -> ends_plain (a :: l).
Proof. intros (l' & b & -> & Hb). by exists (a :: l'), b. Qed.

Lemma skip_quoted_spec q bs l t r : mem_b q [34; 36; 39; 42; 45; 47; 59] = true ->
  _skip_quoted q bs l = Ok (t, r) ->
  l = (t ++ r)%list /\ ends_plain t /\ ~ starts_with q r /\
  forall r', ~ starts_with q r' -> _skip_quoted q bs (t ++ r') = Ok (t, r').
Proof.
  intros Hq. remember (length l) as n eqn:Hn. revert l Hn t r.
  induction n as [n IH] using lt_wf_ind. intros [|a l] -> t r; cbn [_skip_quoted]; [done|].
  destruct (is_chr q a) eqn:Ea.
  - assert (ends_plain [a]) as Hend by (exists [], a; split; [done|]; by eapply chr_not_space).
    destruct l as [|b l]; [|destruct (is_chr q b) eqn:Eb].
    + intros [= <- <-]. split_and!; try done; [by intros []|]. intros [|c r'] Hr'; cbn; rewrite Ea; [done|].
      cbn in Hr'. by destruct (is_chr q c).
    + intros ([t' r1] & H & [= <- <-])%result_bind_Ok.
      destruct (IH (length l) ltac:(cbn; lia) l eq_refl _ _ H) as (-> & He & Hr & Hall).
      split_and!; [done|by do 2 apply ends_plain_cons|done|]. intros r' Hr'. cbn. rewrite Ea, Eb, (Hall _ Hr'). done.
    + intros [= <- <-]. split_and!; try done; [cbn; by rewrite Eb|]. intros [|c r'] Hr'; cbn; rewrite Ea; [done|].
      cbn in Hr'. by destruct (is_chr q c).
  - destruct (bs && is_chr 92 a) eqn:Eb.
    + destruct l as [|b l]; [done|]. intros ([t' r1] & H & [= <- <-])%result_bind_Ok.
      destruct (IH (length l) ltac:(cbn; lia) l eq_refl _ _ H) as (-> & He & Hr & Hall).
      split_and!; [done|by do 2 apply ends_plain_cons|done|]. intros r' Hr'. cbn. rewrite Ea, Eb, (Hall _ Hr'). done.
    + intros ([t' r1] & H & [= <- <-])%result_bind_Ok.
      destruct (IH (length l) ltac:(cbn; lia) l eq_refl _ _ H) as (-> & He & Hr & Hall).
      split_and!; [done|by apply ends_plain_cons|done|]. intros r' Hr'. cbn. rewrite Ea, Eb, (Hall _ Hr'). done.
Qed.

Lemma starts_with_prefix q (r r' : text) : r' `prefix_of` r -> ~ starts_with q r -> ~ starts_with q r'.
Proof. intros [k ->]. destruct r'; [by intros _ []|done]. Qed.

Lemma quoted_span_spec prev l t r : quoted_span prev l = Some (Ok (t, r)) ->
  l = (t ++ r)%list /\ ends_plain t /\
  forall prev' r', r' `prefix_of` r -> _is_escape_string prev' = _is_escape_string prev ->
    quoted_span prev' (t ++ r') = Some (Ok (t, r')).
Proof.
  destruct l as [|a l]; cbn; [done|]. destruct (is_chr 39 a) eqn:E1; [|destruct (is_chr 34 a) eqn:E2; [|done]].
  - intros [= H]. apply result_bind_Ok in H as ([q r0] & H & [= <- <-]).
    apply skip_quoted_spec in H as (-> & He & Hr & Hall); [|done]. split_and!; [done|by apply ends_plain_cons|].
    intros prev' r' Hp He'. cbn. rewrite E1, He', (Hall r') by (by eapply starts_with_prefix). done.
  - intros [= H]. apply result_bind_Ok in H as ([q r0] & H & [= <- <-]).
    apply skip_quoted_spec in H as (-> & He & Hr & Hall); [|done]. split_and!; [done|by apply ends_plain_cons|].
    intros prev' r' Hp He'. cbn. rewrite E1, E2, (Hall r') by (by eapply starts_with_prefix). done.
Qed.

Lemma quoted_span_None prev prev' a l l' : quoted_span prev (a :: l) = None -> quoted_span prev' (a :: l') = None.
Proof. cbn. by destruct (is_chr 39 a), (is_chr 34 a). Qed.

Lemma dollar_tag_spec l tag r : dollar_tag l = Some (tag, r) ->
  l = (tag ++ r)%list /\ ends_plain tag /\ (exists t, tag = Ascii.ascii_of_N 36 :: t) /\
  forall r', dollar_tag (tag ++ r') = Some (tag, r').
Proof.
  destruct l as [|a l]; cbn; [done|]. destruct (is_chr 36 a) eqn:Ea; [|done].
  destruct (span is_tag_char l) as [w [|b s]] eqn:Hs; [done|]. destruct (is_chr 36 b) eqn:Eb; [|done].
  intros [= <- <-]. destruct (span_app _ _ _ _ _ Hs) as (-> & _ & Hall). split_and!.
  - by rewrite <- app_comm_cons, <- app_assoc.
  - apply ends_plain_cons. exists w, b. split; [done|]. by eapply chr_not_space.
  - apply Z.eqb_eq in Ea. assert (Ascii.N_of_ascii a = 36%N) as Hn by (unfold code in Ea; lia).
    exists (w ++ [b])%list. f_equal. rewrite <- (Ascii.ascii_N_embedding a). by rewrite Hn.
  - intros r'. rewrite <- app_comm_cons, <- app_assoc. cbn. rewrite Ea, Hall. by rewrite Eb.
Qed.

Lemma dollar_tag_more l s tag r : dollar_tag l = Some (tag, r) -> dollar_tag (l ++ s) = Some (tag, (r ++ s)%list).
Proof. intros H. destruct (dollar_tag_spec _ _ _ H) as (-> & _ & _ & Hall). by rewrite <- app_assoc, Hall. Qed.

Lemma starts2_cons x y a l : starts2 x y (a :: l) = is_chr x a && match l with b :: _ => is_chr y b | [] => false end.
Proof. cbn. destruct l; [by rewrite andb_false_r|done]. Qed.

Lemma starts2_more x y l s : starts2 x y l = true -> starts2 x y (l ++ s) = true.
Proof. by destruct l as [|a [|b l]]. Qed.

Definition newline : Ascii.ascii := Ascii.ascii_of_N 10.

Lemma find_chr_None c l : find_sub [c] l = None <-> c ∉ l.
Proof.
  induction l as [|a l IH]; cbn; [split; [intros _ ?%elem_of_nil|]; done|]. rewrite andb_true_r, not_elem_of_cons, <- IH.
  case_bool_decide as E; [naive_solver|]. destruct (find_sub [c] l) as [[]|]; naive_solver.
Qed.

Lemma find_chr_Some c l b r : find_sub [c] l = Some (b, r) -> c ∉ b.
Proof.
  revert b. induction l as [|a l IH]; intros b; cbn; [done|]. rewrite andb_true_r. case_bool_decide as E.
  - intros [= <- <-]. set_solver.
  - destruct (find_sub [c] l) as [[b' r']|]; [|done]. cbn. intros [= <- <-]. apply not_elem_of_cons.
    split; [done|]. by apply IH.
Qed.

(** A line comment is cut at its newline or at the end of the text. *)
Lemma line_comment_spec l t r : starts2 45 45 l = true -> line_comment l = (t, r) ->
  l = (t ++ r)%list /\ starts2 45 45 t = true /\
  (forall r', r' `prefix_of` r -> line_comment (t ++ r') = (t, r')) /\
  (forall l1 x, t = (l1 ++ x)%list -> x <> [] -> line_comment l1 = (l1, [])).
Proof.
  unfold line_comment. fold newline. intros Hd. destruct (find_sub [newline] l) as [[b s]|] eqn:Hf.
  - intros [= <- <-]. pose proof (find_sub_spec _ _ _ _ Hf) as ->. pose proof (find_chr_Some _ _ _ _ Hf) as Hb.
    split_and!; [by rewrite <- app_assoc| | |].
    + destruct b as [|c1 [|c2 b]]; [by destruct s| |done]. by destruct (is_chr 45 c1).
    + intros r' _. rewrite <- app_assoc. by rewrite (find_sub_tail _ _ _ r' Hf).
    + intros l1 x Hx Hne. destruct x as [|z x] using rev_ind; [done|]. rewrite app_assoc in Hx.
      apply app_inj_tail in Hx as [-> <-]. rewrite (proj2 (find_chr_None _ _)); [done|]. set_solver.
  - intros [= <- <-]. apply find_chr_None in Hf. split_and!; [by rewrite app_nil_r|done| |].
    + intros r' ->%prefix_nil_inv. rewrite app_nil_r. by rewrite (proj2 (find_chr_None _ _)).
    + intros l1 x -> Hne. rewrite (proj2 (find_chr_None _ _)); [done|]. set_solver.
Qed.

Lemma block_comment_spec l t r : starts2 47 42 l = true -> block_comment l = Some (t, r) ->
  l = (t ++ r)%list /\ ends_plain t /\ starts2 47 42 t = true /\
  forall r', block_comment (t ++ r') = Some (t, r').
Proof.
  unfold block_comment. destruct l as [|a [|b l]]; try done. intros Hs.
  change (drop 2 (a :: b :: l)) with l. change (take 2 (a :: b :: l)) with [a; b].
  destruct (find_sub block_end l) as [[c s]|] eqn:Hf; [|discriminate]. intros [= <- <-].
  pose proof (find_sub_spec _ _ _ _ Hf) as ->. cbn [app]. split_and!.
  - by rewrite <- app_assoc.
  - do 2 apply ends_plain_cons. unfold block_end. exists (c ++ [Ascii.ascii_of_N 42])%list, (Ascii.ascii_of_N 47).
    split; [by rewrite <- app_assoc|done].
  - done.
  - intros r'. cbn [app]. rewrite <- app_assoc.
    change (drop 2 (a :: b :: c ++ block_end ++ r')%list) with (c ++ block_end ++ r')%list.
    by rewrite (find_sub_tail _ _ _ r' Hf).
Qed.

Lemma chr_other x y a : is_chr x a = true -> x <> y -> is_chr y a = false.
Proof. unfold is_chr. intros ->%Z.eqb_eq Hn. by apply Z.eqb_neq. Qed.

Lemma dollar_tag_other a l : is_chr 36 a = false -> dollar_tag (a :: l) = None.
Proof. cbn. by intros ->. Qed.

Definition cut_anywhere (t : text) : Prop := forall l1 x, t = (l1 ++ x)%list -> x <> [] -> line_comment l1 = (l1, []).

(** What a span is, that it can be followed by less, and that it does not depend on the error code
    or on more of the preceding text than [_is_escape_string] reads. *)
Lemma skip_span_Some code prev l t r : skip_span code prev l = Ok (Some (t, r)) ->
  l = (t ++ r)%list /\ t <> [] /\ (ends_plain t \/ starts2 45 45 t = true /\ cut_anywhere t) /\
  forall code' prev' r', r' `prefix_of` r -> _is_escape_string prev' = _is_escape_string prev ->
    skip_span code' prev' (t ++ r') = Ok (Some (t, r')).
Proof.
  unfold skip_span. destruct (quoted_span prev l) as [[[t' r']|e]|] eqn:Hq; [|done|].
  { intros [= -> ->]. apply quoted_span_spec in Hq as (-> & He & Hall). split_and!; [done| |by left|].
    - destruct He as (? & ? & -> & _). by intros [_ [=]]%app_eq_nil.
    - intros code' prev' r' Hp He'. by rewrite Hall. }
  assert (forall prev' a l1 l2, l = (a :: l1)%list -> quoted_span prev' (a :: l2) = None) as Hq'.
  { intros prev' a l1 l2 ->. by eapply quoted_span_None. }
  destruct (dollar_tag l) as [[tag rest]|] eqn:Hd.
  - destruct (find_sub tag rest) as [[b s]|] eqn:Hf; [|done]. intros [= <- <-].
    destruct (dollar_tag_spec _ _ _ Hd) as (-> & (t0 & c & Ht & Hc) & (t1 & ->) & Hall).
    pose proof (find_sub_spec _ _ _ _ Hf) as Hrest. rewrite Hrest. split_and!; [by rewrite <- !app_assoc|done| |].
    + left. exists ((Ascii.ascii_of_N 36 :: t1) ++ b ++ t0)%list, c. split; [|done]. rewrite Ht at 2. by rewrite !app_assoc.
    + intros code' prev' r' _ _. rewrite <- !app_assoc. rewrite <- app_comm_cons, (Hq' prev' _ _ _ eq_refl).
      rewrite app_comm_cons, Hall. rewrite Hrest in Hf. by rewrite (find_sub_tail _ _ _ r' Hf).
  - destruct (starts2 45 45 l) eqn:Hs; [|destruct (starts2 47 42 l) eqn:Hb; [|done]].
    + destruct (line_comment l) as [t' r'] eqn:Hl. intros [= <- <-].
      destruct (line_comment_spec _ _ _ Hs Hl) as (-> & Ht & Hall & Hcut). split_and!; [done|by intros ->|by right|].
      intros code' prev' r1 Hp _. destruct t' as [|a t']; [done|]. rewrite <- app_comm_cons, (Hq' prev' _ _ _ eq_refl).
      rewrite starts2_cons in Ht. apply andb_true_iff in Ht as [Ha Ht].
      rewrite dollar_tag_other by by eapply chr_other. rewrite app_comm_cons. rewrite starts2_more, (Hall _ Hp); [done|].
      rewrite starts2_cons, Ha. done.
    + destruct (block_comment l) as [[t' r']|] eqn:Hl; [|done]. intros [= <- <-].
      destruct (block_comment_spec _ _ _ Hb Hl) as (-> & He & Ht & Hall). split_and!; [done|by intros ->|by left|].
      intros code' prev' r1 Hp _. destruct t' as [|a t']; [done|]. rewrite <- app_comm_cons, (Hq' prev' _ _ _ eq_refl).
      rewrite starts2_cons in Ht. apply andb_true_iff in Ht as [Ha Ht].
      rewrite dollar_tag_other by by eapply chr_other. rewrite app_comm_cons.
      rewrite (starts2_more 47 42), Hall; [|by rewrite starts2_cons, Ha].
      rewrite <- app_comm_cons, starts2_cons. by rewrite (chr_other 47 45 a).
Qed.

Lemma skip_span_None code prev a l : skip_span code prev (a :: l) = Ok None ->
  forall code' prev' l', l' `prefix_of` l -> skip_span code' prev' (a :: l') = Ok None.
Proof.
  unfold skip_span. destruct (quoted_span prev (a :: l)) as [[[]|]|] eqn:Hq; [done..|].
  destruct (dollar_tag (a :: l)) as [[tag rest]|] eqn:Hd; [by destruct (find_sub _ _) as [[]|]|].
  destruct (starts2 45 45 (a :: l)) eqn:H1; [done|]. destruct (starts2 47 42 (a :: l)) eqn:H2; [by destruct (block_comment _)|].
  intros _ code' prev' l' [k ->]. rewrite (quoted_span_None prev prev' a _ l' Hq).
  destruct (dollar_tag (a :: l')) as [[tag rest]|] eqn:Hd'.
  { apply (dollar_tag_more _ k) in Hd'. cbn [app] in Hd'. congruence. }
  destruct (starts2 45 45 (a :: l')) eqn:H1'; [apply (starts2_more _ _ _ k) in H1'; cbn [app] in H1'; congruence|].
  destruct (starts2 47 42 (a :: l')) eqn:H2'; [apply (starts2_more _ _ _ k) in H2'; cbn [app] in H2'; congruence|]. done.
Qed.

(** ** The lexical structure of one statement *)

(** Text without a top-level semicolon: plain characters and spans. *)
Inductive Lex : text -> text -> Prop :=
| lex_end prev : Lex prev []
| lex_plain prev a l : skip_span "" prev (a :: l) = Ok None -> is_chr 59 a = false -> Lex (a :: prev) l -> Lex prev (a :: l)
| lex_span prev t r : skip_span "" prev (t ++ r) = Ok (Some (t, r)) -> Lex (reverse t ++ prev) r -> Lex prev (t ++ r).

Definition agree (p q : text) : Prop := forall s, _is_escape_string (s ++ p) = _is_escape_string (s ++ q).

Lemma agree_app s p q : agree p q -> agree (s ++ p) (s ++ q).
Proof. intros H s'. by rewrite !app_assoc. Qed.

(** Nothing before a character that is not part of a word matters. *)
Lemma agree_boundary a p : is_word a = false -> agree (a :: p) [].
Proof.
  intros Ha s. assert (is_chr 69 a || is_chr 101 a = false) as He.
  { destruct (is_chr 69 a) eqn:E1; [|destruct (is_chr 101 a) eqn:E2; [|done]]; exfalso;
      unfold is_chr, is_word, is_alnum, is_letter, is_lower, is_upper in *;
      [apply Z.eqb_eq in E1; rewrite E1 in Ha|apply Z.eqb_eq in E2; rewrite E2 in Ha]; done. }
  destruct s as [|b [|c s]]; cbn; [by rewrite He|by rewrite Ha|done].
Qed.

Lemma Lex_agree p q l : Lex p l -> agree p q -> Lex q l.
Proof.
  intros H. revert q. induction H as [p|p a l Hs Ha _ IH|p t r Hs _ IH]; intros q Hpq.
  - constructor.
  - apply lex_plain; [by eapply skip_span_None|done|]. apply IH. by apply (agree_app [a]).
  - apply lex_span; [|apply IH; by apply agree_app].
    destruct (skip_span_Some _ _ _ _ _ Hs) as (_ & _ & _ & Hall). apply Hall; [done|]. symmetry. apply (Hpq []).
Qed.

Lemma skip_span_shorter code prev l t r : skip_span code prev l = Ok (Some (t, r)) -> (length r < length l)%nat.
Proof.
  intros (-> & Hne & _)%skip_span_Some. rewrite length_app. destruct t; [done|]. cbn. lia.
Qed.

(** The error code is the only thing a span depends on besides the text. *)
Lemma skip_span_code code code' prev l s : skip_span code prev l = Ok s -> skip_span code' prev l = Ok s.
Proof.
  intros H. destruct s as [[t r]|].
  - destruct (skip_span_Some _ _ _ _ _ H) as (-> & _ & _ & Hall). by apply Hall.
  - destruct l as [|a l]; [done|]. by eapply skip_span_None.
Qed.

(** The scanner accepts exactly the texts without a top-level semicolon, whatever fuel beyond the
    length of the text it has. *)
Lemma scan_Lex fuel prev l : (length l <= fuel)%nat -> scan fuel prev l = Ok tt <-> Lex prev l.
Proof.
  revert prev l. induction fuel as [|fuel IH]; intros prev [|a l] Hl; cbn [scan length] in *; try (split; [constructor|done]); [lia|].
  split.
  - intros (s & Hs & H)%result_bind_Ok. apply (skip_span_code _ "") in Hs. destruct s as [[t r]|].
    + pose proof (skip_span_shorter _ _ _ _ _ Hs) as Hsh. destruct (skip_span_Some _ _ _ _ _ Hs) as (E & _).
      cbn in Hsh. rewrite E in Hs |- *. apply lex_span; [done|]. apply IH; [lia|done].
    + destruct (is_chr 59 a) eqn:Ha; [done|]. apply lex_plain; [done..|]. apply IH; [lia|done].
  - intros H. remember (a :: l) as m eqn:E. destruct H as [p|p b m Hs Ha Hx|p t r Hs Hx]; [done|injection E as -> ->|].
    + rewrite (skip_span_code _ "DATA_STATEMENT_REJECTED" _ _ _ Hs). cbn. rewrite Ha. apply IH; [lia|done].
    + rewrite (skip_span_code _ "DATA_STATEMENT_REJECTED" _ _ _ Hs). cbn.
      pose proof (skip_span_shorter _ _ _ _ _ Hs) as Hsh. rewrite E in Hsh. cbn in Hsh. apply IH; [lia|done].
Qed.

Lemma scan_single_Lex l : _scan_single_statement l = Ok tt <-> Lex [] l.
Proof. by apply scan_Lex. Qed.

(** ** Stripping *)

Lemma lstrip_l_spec l : exists w, l = (w ++ lstrip_l l)%list /\ Forall (fun a => is_space a = true) w.
Proof.
  induction l as [|a l (w & E & Hw)]; cbn; [by exists []|]. destruct (is_space a) eqn:Ha; [|by exists []].
  exists (a :: w). cbn. rewrite <- E. split; [done|]. by constructor.
Qed.

Lemma space_codes a : is_space a = true -> is_word a = false /\
  is_chr 34 a = false /\ is_chr 36 a = false /\ is_chr 39 a = false /\ is_chr 45 a = false /\ is_chr 47 a = false.
Proof.
  unfold is_space, is_word, is_alnum, is_letter, is_lower, is_upper, is_digit, is_chr, char_in. cbn.
  intros H. assert (9 <= code a <= 13 \/ 28 <= code a <= 32 \/ code a = 133 \/ code a = 160) as Hc by lia. clear H. lia.
Qed.

Lemma space_plain code prev a l : is_space a = true -> skip_span code prev (a :: l) = Ok None.
Proof.
  intros (_ & H1 & H2 & H3 & H4 & H5)%space_codes. unfold skip_span. cbn [quoted_span]. rewrite H1, H3, dollar_tag_other by done.
  rewrite !starts2_cons, H4, H5. done.
Qed.

Lemma Lex_lstrip l : Lex [] l -> Lex [] (lstrip_l l).
Proof.
  induction l as [|a l IH]; [done|]. cbn. destruct (is_space a) eqn:Ha; [|done]. intros H. apply IH.
  remember (a :: l) as m eqn:E. remember [] as p eqn:Ep. destruct H as [p|p b m Hs _ Hx|p t r Hs Hx]; [done|injection E as -> ->|].
  - subst p. eapply Lex_agree; [done|]. apply agree_boundary. by apply space_codes.
  - rewrite E in Hs. rewrite space_plain in Hs by done. done.
Qed.

Lemma ends_plain_app_space l x : ends_plain (l ++ x) -> Forall (fun a => is_space a = true) x -> x = [].
Proof.
  intros (l' & a & E & Ha) Hx. destruct x as [|b x _] using rev_ind; [done|]. rewrite app_assoc in E.
  apply app_inj_tail in E as [_ ->]. rewrite Forall_app, Forall_singleton in Hx. destruct Hx as [_ Hb]. congruence.
Qed.

(** White space at the end of a text does not change its structure. *)
Lemma Lex_cut prev l : Lex prev l -> forall l1 x, l = (l1 ++ x)%list -> Forall (fun a => is_space a = true) x ->
  (l1 = [] \/ ends_plain l1) -> Lex prev l1.
Proof.
  induction 1 as [prev|prev a l Hs Ha _ IH|prev t r Hs Hr IH]; intros l1 x E Hx Hend.
  - symmetry in E. apply app_eq_nil in E as [-> _]. constructor.
  - destruct l1 as [|b l1]; [constructor|]. injection E as <- ->. apply lex_plain; [|done|].
    + eapply skip_span_None; [done|]. by exists x.
    + eapply IH; [done..|]. destruct Hend as [|(l' & c & E & Hc)]; [done|]. destruct l1 as [|d l1]; [by left|right].
      destruct l' as [|? l']; [done|]. injection E as _ E. by exists l', c.
  - destruct (skip_span_Some _ _ _ _ _ Hs) as (_ & Hne & Hkind & Hall).
    destruct (decide (length t <= length l1)%nat) as [Hle|Hlt].
    + assert (exists r1, l1 = (t ++ r1)%list /\ r = (r1 ++ x)%list) as (r1 & -> & ->).
      { exists (drop (length t) l1). pose proof (f_equal (take (length t)) E) as E1. pose proof (f_equal (drop (length t)) E) as E2.
        rewrite take_app_length, take_app_le in E1 by done. rewrite drop_app_length, drop_app_le in E2 by done.
        split; [|done]. rewrite <- (take_drop (length t) l1) at 1. by rewrite <- E1. }
      apply lex_span; [apply Hall; [by exists x|done]|]. eapply IH; [done..|].
      destruct r1 as [|d r1 _] using rev_ind; [by left|right]. destruct Hend as [Hn|(l' & c & E' & Hc)].
      { by apply app_eq_nil in Hn as [? _]. }
      rewrite app_assoc in E'. apply app_inj_tail in E' as [_ ->]. by exists r1, c.
    + assert (exists y, t = (l1 ++ y)%list /\ y <> [] /\ Forall (fun a => is_space a = true) y) as (y & -> & Hy & Hsp).
      { exists (drop (length l1) t). pose proof (f_equal (take (length l1)) E) as E1. pose proof (f_equal (drop (length l1)) E) as E2.
        rewrite take_app_length, take_app_le in E1 by lia. rewrite drop_app_length, drop_app_le in E2 by lia. split_and!.
        - rewrite <- E1 at 1. by rewrite take_drop.
        - intros Hd%(f_equal length). rewrite length_drop in Hd. cbn in Hd. lia.
        - rewrite <- E2 in Hx. by apply Forall_app in Hx as [? _]. }
      destruct Hend as [->|Hend]; [constructor|]. destruct Hkind as [Hk|[Hd Hcut]].
      { exfalso. by apply Hy, (ends_plain_app_space l1). }
      pose proof (Hcut l1 y eq_refl Hy) as Hl. rewrite <- (app_nil_r l1). apply lex_span; [|constructor]. rewrite app_nil_r.
      assert (starts2 45 45 l1 = true) as Hd1.
      { destruct l1 as [|a1 [|a2 l1]]; [by destruct Hend as ([] & ? & ? & _)| |done].
        destruct y as [|b y]; [done|]. cbn in Hd. apply andb_true_iff in Hd as [_ Hb]. inversion Hsp as [|? ? Hbs _]; subst.
        apply space_codes in Hbs as (_ & _ & _ & _ & Hb' & _). congruence. }
      destruct l1 as [|a1 l1]; [done|]. unfold skip_span. rewrite starts2_cons in Hd1. apply andb_true_iff in Hd1 as [Ha1 Hd1].
      cbn [quoted_span]. rewrite (chr_other 45 39 a1), (chr_other 45 34 a1) by done.
      rewrite dollar_tag_other by by eapply chr_other. rewrite starts2_cons, Ha1, Hd1. cbn [andb]. by rewrite Hl.
Qed.

Lemma rstrip_spec l : exists x, l = (rstrip l ++ x)%list /\ Forall (fun a => is_space a = true) x /\
  (rstrip l = [] \/ ends_plain (rstrip l)).
Proof.
  unfold rstrip. destruct (lstrip_l_spec (reverse l)) as (w & E & Hw). exists (reverse w). split_and!.
  - rewrite <- reverse_app, <- E. by rewrite reverse_involutive.
  - by apply Forall_reverse.
  - destruct (lstrip_l (reverse l)) as [|a m] eqn:Hm; [by left|right]. exists (reverse m), a.
    split; [by rewrite reverse_cons|]. by eapply lstrip_l_head.
Qed.

Lemma Lex_strip l : Lex [] l -> Lex [] (strip_text l).
Proof.
  intros H%Lex_lstrip. unfold strip_text. destruct (rstrip_spec (lstrip l)) as (x & E & Hx & He). by eapply Lex_cut.
Qed.

(** ** Cutting a migration file into statements *)

Definition semicolon : Ascii.ascii := Ascii.ascii_of_N 59.
Definition joined (pieces : list text) : text :=
  match pieces with [] => [] | p :: ps => (p ++ concat (cons semicolon <$> ps))%list end.

Lemma chr_semicolon a : is_chr 59 a = true -> a = semicolon.
Proof.
  unfold is_chr, code, semicolon. intros E%Z.eqb_eq. assert (Ascii.N_of_ascii a = 59%N) as Hn by lia.
  rewrite <- (Ascii.ascii_N_embedding a). by rewrite Hn.
Qed.

Lemma split_spec fuel prev cur l pieces : (length l <= fuel)%nat -> split fuel prev cur l = Ok pieces ->
  exists p ps, pieces = (reverse cur ++ p)%list :: ps /\ l = joined (p :: ps) /\
    (forall prev', agree prev prev' -> Lex prev' p) /\ Forall (Lex []) ps.
Proof.
  revert prev cur l pieces. induction fuel as [|fuel IH]; intros prev cur [|a l] pieces Hl; cbn [split length] in *.
  - intros [= <-]. exists [], []. rewrite app_nil_r. split_and!; try done. intros. constructor.
  - lia.
  - intros [= <-]. exists [], []. rewrite app_nil_r. split_and!; try done. intros. constructor.
  - intros (s & Hs & H)%result_bind_Ok. destruct s as [[t r]|].
    + pose proof (skip_span_shorter _ _ _ _ _ Hs) as Hsh. cbn in Hsh.
      destruct (skip_span_Some _ _ _ _ _ Hs) as (E & _ & _ & Hall).
      destruct (IH _ _ r pieces ltac:(lia) H) as (p & ps & -> & -> & Hp & Hps). exists (t ++ p)%list, ps. split_and!.
      * by rewrite reverse_app, reverse_involutive, app_assoc.
      * rewrite E. cbn. by rewrite app_assoc.
      * intros prev' Ha. apply lex_span; [|apply Hp; by apply agree_app].
        apply Hall; [by eexists|]. symmetry. apply (Ha []).
      * done.
    + destruct (is_chr 59 a) eqn:Ea.
      * apply result_bind_Ok in H as (rest & H & [= <-]).
        destruct (IH _ _ l rest ltac:(lia) H) as (p & ps & -> & -> & Hp & Hps). exists [], (p :: ps). split_and!.
        -- by rewrite app_nil_r.
        -- cbn. by rewrite (chr_semicolon a Ea).
        -- intros. constructor.
        -- constructor; [|done]. apply Hp, agree_boundary. by rewrite (chr_semicolon a Ea).
      * destruct (IH _ _ l pieces ltac:(lia) H) as (p & ps & -> & -> & Hp & Hps). exists (a :: p), ps. split_and!; try done.
        -- by rewrite reverse_cons, <- app_assoc.
        -- intros prev' Ha. apply lex_plain; [|done|apply Hp; by apply (agree_app [a])].
           eapply skip_span_None; [done|]. by eexists.
Qed.

Lemma split_statements_spec sql statements : _split_migration_statements sql = Ok statements ->
  exists pieces, sql = joined pieces /\ statements = List.filter is_statement (strip_text <$> pieces) /\ Forall (Lex []) pieces.
Proof.
  intros (pieces & H & [= <-])%result_bind_Ok. apply split_spec in H as (p & ps & -> & -> & Hp & Hps); [|done].
  exists (p :: ps). split_and!; try done. constructor; [|done]. by apply Hp.
Qed.

(** ** Schema qualifiers *)

Definition boundary (f : Ascii.ascii -> bool) (pre : text) : Prop :=
  match last pre with Some a => f a = false | None => True end.

Lemma span_boundary f c pre x : boundary f (c :: pre) -> f c = true ->
  exists v pre', span f (c :: pre ++ x) = (c :: v, pre' ++ x)%list /\ pre = (v ++ pre')%list /\ boundary f pre'.
Proof.
  intros Hb Hc. cbn [span]. rewrite Hc. revert c Hb Hc. induction pre as [|d pre IH]; intros c Hb Hc.
  - cbn in Hb. congruence.
  - unfold boundary in Hb. rewrite last_cons_cons in Hb. fold (boundary f (d :: pre)) in Hb. cbn [app span].
    destruct (f d) eqn:Hd.
    + destruct (IH d Hb Hd) as (v & pre' & Hs & -> & Hb'). destruct (span f ((v ++ pre') ++ x)) as [p r].
      injection Hs as -> ->. by exists (d :: v), pre'.
    + by exists [], (d :: pre).
Qed.

Lemma span_all f w r : Forall (fun a => f a = true) w -> match r with a :: _ => f a = false | [] => True end ->
  span f (w ++ r) = (w, r).
Proof.
  intros Hw Hr. induction Hw as [|a w Ha _ IH]; cbn.
  - destruct r as [|a r]; cbn; [done|]. by rewrite Hr.
  - by rewrite Ha, IH.
Qed.

Lemma qualifiers_complete fuel pre w r : (length (pre ++ w ++ r) <= fuel)%nat -> boundary is_word pre ->
  w <> [] -> Forall (fun a => is_word a = true) w -> match r with a :: _ => is_word a = false | [] => True end ->
  dotted r = true -> w ∈ qualifiers fuel (pre ++ w ++ r).
Proof.
  revert pre. induction fuel as [|fuel IH]; intros pre Hl Hb Hne Hw Hr Hd.
  { destruct w; [done|]. rewrite !length_app in Hl. cbn in Hl. lia. }
  destruct pre as [|c pre]; cbn [app].
  - destruct w as [|a w]; [done|]. pose proof (Forall_inv Hw) as Ha. cbn beta in Ha. cbn [app qualifiers]. rewrite Ha.
    change (a :: w ++ r)%list with ((a :: w) ++ r)%list. rewrite (span_all is_word) by done. rewrite Hd. set_solver.
  - cbn [qualifiers]. rewrite !length_app in Hl. cbn in Hl. destruct (is_word c) eqn:Hc.
    + destruct (span_boundary is_word c pre (w ++ r) Hb Hc) as (v & pre' & -> & -> & Hb').
      apply elem_of_app. right. apply IH; try done. rewrite length_app in Hl. rewrite !length_app. lia.
    + apply IH; try done; [rewrite !length_app; lia|]. unfold boundary in *. by destruct pre.
Qed.

Lemma sql_words_complete fuel pre a w r : (length (pre ++ a :: w ++ r) <= fuel)%nat -> boundary is_tag_char pre ->
  is_letter a || is_chr 95 a = true -> Forall (fun a => is_tag_char a = true) w ->
  match r with a :: _ => is_tag_char a = false | [] => True end -> (a :: w) ∈ sql_words fuel (pre ++ a :: w ++ r).
Proof.
  revert pre. induction fuel as [|fuel IH]; intros pre Hl Hb Ha Hw Hr.
  { rewrite !length_app in Hl. cbn in Hl. lia. }
  assert (forall c, is_letter c || is_chr 95 c = true -> is_tag_char c = true) as Htag.
  { intros c Hc. unfold is_tag_char, is_alnum. destruct (is_letter c), (is_chr 95 c), (is_digit c); done. }
  destruct pre as [|c pre]; cbn [app].
  - cbn [sql_words]. rewrite Ha. change (a :: w ++ r)%list with ((a :: w) ++ r)%list.
    rewrite (span_all is_tag_char); [set_solver| |done]. constructor; [by apply Htag|done].
  - cbn [sql_words]. rewrite !length_app in Hl. cbn in Hl. rewrite length_app in Hl. destruct (is_letter c || is_chr 95 c) eqn:Hc.
    + destruct (span_boundary is_tag_char c pre (a :: w ++ r) Hb (Htag c Hc)) as (v & pre' & -> & -> & Hb').
      apply elem_of_cons. right. apply IH; try done. rewrite length_app in Hl. rewrite !length_app. cbn. rewrite length_app. lia.
    + apply IH; try done; [rewrite !length_app; cbn; rewrite length_app; lia|]. unfold boundary in *. by destruct pre.
Qed.

(** ** What the checks establish *)

Lemma data_if_Ok b code msg u : data_if b code msg = Ok u <-> b = false.
Proof. destruct b, u; cbn; naive_solver. Qed.

Lemma contains_spec p l a b : l = (a ++ p ++ b)%list -> contains p l = true.
Proof.
  intros ->. unfold contains. induction a as [|c a IH]; cbn [app].
  - assert (is_prefix_l p (p ++ b) = true) as Hp by apply is_prefix_app.
    destruct (p ++ b)%list; cbn; by rewrite Hp.
  - cbn [find_sub]. destruct (is_prefix_l p _); [done|]. by destruct (find_sub p (a ++ p ++ b)) as [[]|].
Qed.

Lemma stable_sort_nil (l : list string) : BrowserModels.stable_sort String.leb l = [] -> l = [].
Proof.
  destruct l as [|x l]; [done|]. cbn. destruct (BrowserModels.stable_sort String.leb l); cbn; [done|]. by case_match.
Qed.

(** A qualifier of the comment-free view: a word followed by an optional quote, spaces and a dot. *)
Definition qualified (view w : text) : Prop :=
  exists pre q ws post, view = (pre ++ w ++ q ++ ws ++ Ascii.ascii_of_N 46 :: post)%list /\
    boundary is_word pre /\ w <> [] /\ Forall (fun a => is_word a = true) w /\
    (q = [] \/ q = [Ascii.ascii_of_N 34]) /\ Forall (fun a => is_space a = true) ws.

(** A word of a statement, as a relation name could be written. *)
Definition mentions (l w : text) : Prop :=
  exists pre a w' post, l = (pre ++ a :: w' ++ post)%list /\ w = a :: w' /\ boundary is_tag_char pre /\
    is_letter a || is_chr 95 a = true /\ Forall (fun a => is_tag_char a = true) w' /\
    match post with b :: _ => is_tag_char b = false | [] => True end.

Lemma lstrip_spaces ws a l : Forall (fun a => is_space a = true) ws -> is_space a = false ->
  lstrip_l (ws ++ a :: l) = a :: l.
Proof. intros Hw Ha. induction Hw as [|b ws Hb _ IH]; cbn; [by rewrite Ha|by rewrite Hb]. Qed.

Lemma qualified_found view w : qualified view w -> w ∈ qualifiers (length view) view.
Proof.
  intros (pre & q & ws & post & -> & Hb & Hne & Hw & Hq & Hws). apply qualifiers_complete; try done.
  - destruct Hq as [->| ->]; [|done]. destruct ws as [|c ws]; [done|]. inversion Hws. by apply space_codes.
  - unfold dotted. destruct Hq as [->| ->]; cbn [app].
    + destruct ws as [|c ws]; [done|]. cbn [app]. inversion Hws as [|? ? Hc Hws']; subst.
      destruct (space_codes c Hc) as (_ & -> & _).
      pose proof (lstrip_spaces (c :: ws) (Ascii.ascii_of_N 46) post Hws eq_refl) as E. cbn [app] in E. by rewrite E.
    + change (is_chr 34 (Ascii.ascii_of_N 34)) with true. cbv iota. by rewrite lstrip_spaces.
Qed.

Lemma check_qualifiers_Ok view namespace code prefix u : check_qualifiers view namespace code prefix = Ok u ->
  forall w, qualified view w ->
    forbidden_schema w = false /\ (ext_schema w = true -> lower_text w = lower_text (chars namespace)).
Proof.
  intros H w Hw%qualified_found. apply result_bind_Ok in H as ([] & H1%data_if_Ok & H2%data_if_Ok).
  assert (In w (qualifiers (length view) view)) as Hin by by apply list_elem_of_In. split.
  - destruct (forbidden_schema w) eqn:E; [|done]. enough (existsb forbidden_schema (qualifiers (length view) view) = true) by congruence.
    apply List.existsb_exists. by exists w.
  - intros He. destruct (decide (lower_text w = lower_text (chars namespace))) as [|Hn]; [done|].
    enough (existsb (fun w => ext_schema w && negb (bool_decide (lower_text w = lower_text (chars namespace))))
      (qualifiers (length view) view) = true) by congruence.
    apply List.existsb_exists. exists w. split; [done|]. by rewrite He, bool_decide_eq_false_2.
Qed.

Lemma reject_relations_Ok sql relations code u : _reject_forbidden_relations sql relations code = Ok u ->
  forall w name, mentions sql w -> name ∈ relations -> lower_text w <> lower_text (chars name).
Proof.
  unfold _reject_forbidden_relations. intros H w name (pre & a & w' & post & -> & -> & Hb & Ha & Hw & Hp) Hn E.
  destruct (BrowserModels.stable_sort _ _) as [|x l] eqn:Hs; [|done]. apply stable_sort_nil, fmap_nil_inv in Hs.
  pose proof (sql_words_complete _ pre a w' post (le_n _) Hb Ha Hw Hp) as Hin.
  apply (list_elem_of_fmap_2 lower_text), list_elem_of_In in Hin.
  assert (In (lower_text (a :: w')) []) as []. rewrite <- Hs. apply List.filter_In. split; [done|].
  apply mem_b_true. rewrite E. by apply (list_elem_of_fmap_2 (fun name => lower_text (chars name))).
Qed.

Lemma deny_substrings_Ok l code prefix u : deny_substrings l code prefix = Ok u ->
  forall token a b, token ∈ _DENIED_SUBSTRINGS -> l <> (a ++ chars token ++ b)%list.
Proof.
  unfold deny_substrings. destruct (List.find _ _) eqn:H; [done|]. intros _ token a b Ht E.
  pose proof (List.find_none _ _ H token (proj1 (list_elem_of_In _ _) Ht)) as Hc. cbn beta in Hc.
  by rewrite (contains_spec _ _ _ _ E) in Hc.
Qed.

(** A guarded statement: what [validate_statement] promises of the text it returns. *)
Record guarded (namespace : string) (relations : list string) (out : string) : Prop := {
  gd_single : Lex [] (chars out);
  gd_keyword : leading_keyword (_strip_leading_comments (chars out)) ∈ _ALLOWED_LEADING_KEYWORDS;
  gd_denied token a b : token ∈ _DENIED_SUBSTRINGS -> lower_text (chars out) <> (a ++ chars token ++ b)%list;
  gd_schemas : exists view, _strip_comments (chars out) = Ok view /\ forall w, qualified view w ->
    forbidden_schema w = false /\ (ext_schema w = true -> lower_text w = lower_text (chars namespace));
  gd_relations w name : mentions (chars out) w -> name ∈ relations -> lower_text w <> lower_text (chars name)
}.

Lemma strip_single_Ok l body : _strip_single_statement l = Ok body -> Lex [] body.
Proof.
  unfold _strip_single_statement. intros ([] & _ & ([] & H & [= <-])%result_bind_Ok)%result_bind_Ok. by apply scan_single_Lex.
Qed.

(** An accepted SQL statement starts with an allowed keyword, ends where the host's own lexer says it does,
    and contains no denied construct; in its comment-free view no word before a dot is a catalog, the public
    schema, a temporary schema or the namespace of another extension; and none of its words is a core
    relation.  Names qualified with any other schema pass, and the server may read the text differently from
    the lexer: see the examples in [DataAccess]. *)
Theorem accepted_statements_are_guarded statement namespace relations out :
  validate_statement statement namespace relations = Ok out -> guarded namespace relations out.
Proof.
  unfold validate_statement. intros H. apply result_bind_Ok in H as ([] & _ & H).
  apply result_bind_Ok in H as ([] & _ & H). apply result_bind_Ok in H as (stripped & Hs & H).
  apply result_bind_Ok in H as ([] & Hd & H). apply result_bind_Ok in H as ([] & Hk & H).
  apply result_bind_Ok in H as (view & Hv & H). apply result_bind_Ok in H as ([] & Hq & H).
  apply result_bind_Ok in H as ([] & Hr & [= <-]). split; rewrite chars_of_chars.
  - by eapply strip_single_Ok.
  - apply data_if_Ok, negb_false_iff, mem_b_true in Hk. done.
  - by eapply deny_substrings_Ok.
  - exists view. split; [done|]. by eapply check_qualifiers_Ok.
  - by eapply reject_relations_Ok.
Qed.

Lemma validated_piece namespace relations q : validate_migration_statement namespace relations q = Ok tt ->
  exists out, validate_statement (of_chars q) namespace relations = Ok out.
Proof.
  unfold validate_migration_statement. destruct (validate_statement _ _ _) as [out|e]; [by eexists|]. by destruct (exn_is e _).
Qed.

(** An accepted migration file is returned as it is, and it is the concatenation of pieces with
    semicolons between them, each of which holds one statement at most: a piece that is more than
    white space and comments is a statement that the guard accepts on its own, and there is at least
    one such piece. *)
Theorem accepted_migrations_are_guarded_statements sql namespace relations out :
  validate_migration_sql sql namespace relations = Ok out ->
  out = sql /\ exists pieces, chars sql = joined pieces /\
    Forall (fun q => Lex [] q /\ Lex [] (strip_text q) /\
      (is_statement (strip_text q) = true ->
       exists st, validate_statement (of_chars (strip_text q)) namespace relations = Ok st)) pieces /\
    Exists (fun q => is_statement (strip_text q) = true) pieces.
Proof.
  unfold validate_migration_sql. intros H. do 2 apply result_bind_Ok in H as ([] & _ & H).
  apply result_bind_Ok in H as ([] & _ & H). apply result_bind_Ok in H as (view & _ & H).
  do 2 apply result_bind_Ok in H as ([] & _ & H). apply result_bind_Ok in H as (statements & Hst & H).
  apply result_bind_Ok in H as ([] & Hne%data_if_Ok%bool_decide_eq_false & H).
  apply result_bind_Ok in H as ([] & Hall%result_iter_Ok & [= <-]). split; [done|].
  apply split_statements_spec in Hst as (pieces & Hsql & -> & Hlex). exists pieces. split; [done|].
  rewrite Forall_forall in Hall. split.
  - apply Forall_forall. intros q Hq. rewrite Forall_forall in Hlex. pose proof (Hlex q Hq) as Hl.
    split_and!; [done|by apply Lex_strip|]. intros Hs. apply validated_piece, Hall. apply list_elem_of_In, List.filter_In.
    split; [|done]. by apply list_elem_of_In, list_elem_of_fmap_2.
  - destruct (List.filter _ _) as [|st sts] eqn:E; [done|]. assert (In st (List.filter is_statement (strip_text <$> pieces))) as Hin
      by (rewrite E; by left).
    apply List.filter_In in Hin as [Hin Hs]. apply list_elem_of_In, list_elem_of_fmap in Hin as (q & -> & Hq).
    apply Exists_exists. by exists q.
Qed.

(** ** A migration of two tables *)

Module MigrationScenario.
Definition sql : string :=
  "CREATE TABLE notes (id int, body text DEFAULT 'a;b'); -- the index; one per note
   CREATE INDEX notes_id ON ext_mine.notes (id); /* done; */".
End MigrationScenario.

Lemma accepted_statements_are_guarded_witness : Lex [] (chars "DELETE FROM ext_mine.notes WHERE body = 'x;y'").
Proof.
  apply (gd_single "ext_mine" ["tasks"; "jobs"]).
  apply (accepted_statements_are_guarded "DELETE FROM ext_mine.notes WHERE body = 'x;y';").
  vm_compute. reflexivity.
Defined.

Lemma accepted_migrations_are_guarded_statements_witness : exists pieces,
  chars MigrationScenario.sql = joined pieces /\ Exists (fun q => is_statement (strip_text q) = true) pieces /\
  validate_migration_sql MigrationScenario.sql "ext_mine" ["tasks"] = Ok MigrationScenario.sql.
Proof.
  assert (validate_migration_sql MigrationScenario.sql "ext_mine" ["tasks"] = Ok MigrationScenario.sql) as H
    by (vm_compute; reflexivity).
  destruct (accepted_migrations_are_guarded_statements _ _ _ _ H) as (_ & pieces & Hj & _ & He). by exists pieces.
Defined.
