(* ===== verification/MailModels.v ===== *)
(** * MailModels: mail contracts, the delivery ledger and the account registry

    Models [core/mail/ports.py], the ledger of [infrastructure/memory/mail.py], the registry of
    [infrastructure/mail/registry.py] and the guards of [infrastructure/mail/owners.py].  A [float]
    number of seconds is a [Z] of microseconds; message bytes are a [string], one [ascii] per byte.

    The ledger and the registry hold their locks for the whole of a method and do not await inside, so
    each method is one atomic function. *)

From S2P Require Import Prelude Text Sha256 Json Schemas Domain PyValue.
Local Open Scope string_scope.
Local Open Scope Z_scope.

(** ** Enumerations *)

Module MailDeliveryStatus.
Inductive t := PREPARED | EXECUTING | SUCCEEDED | PARTIAL | FAILED | UNKNOWN.

#[global] Instance mail_status_eq_dec : EqDecision t.
Proof. solve_decision. Defined.

Definition terminal (s : t) : bool := match s with SUCCEEDED | PARTIAL | FAILED | UNKNOWN => true | _ => false end.

Definition value (s : t) : string :=
  match s with
  | PREPARED => "PREPARED" | EXECUTING => "EXECUTING" | SUCCEEDED => "SUCCEEDED" | PARTIAL => "PARTIAL"
  | FAILED => "FAILED" | UNKNOWN => "UNKNOWN"
  end.
End MailDeliveryStatus.

Module MailRecipientStatus.
Inductive t := ACCEPTED | REJECTED | UNKNOWN.
#[global] Instance recipient_status_eq_dec : EqDecision t.
Proof. solve_decision. Defined.
Definition value (s : t) : string :=
  match s with ACCEPTED => "ACCEPTED" | REJECTED => "REJECTED" | UNKNOWN => "UNKNOWN" end.
End MailRecipientStatus.

(** [MailError(code)]: the code is the reference of the exception. *)
Definition mail_error (code msg : string) : exn := Exn MailError msg (Some code) false.
Definition _NEEDS_USER_ACTION : list string :=
  ["MAIL_AUTH_FAILED"; "MAIL_AUTH_UNSUPPORTED"; "MAIL_CREDENTIAL_UNAVAILABLE"].
Definition needs_user_action (e : exn) : bool :=
  match exn_ref e with Some c => mem_b c _NEEDS_USER_ACTION | None => false end.
Definition account_not_found (account_id : string) : exn :=
  Exn MailAccountNotFoundError ("mail account is not registered: " ++ account_id) (Some "MAIL_ACCOUNT_UNKNOWN") false.

(** ** Values *)

Record MailRecipientResult := {
  rr_recipient : string;
  rr_status : MailRecipientStatus.t;
  rr_error_code : option string
}.

Record MailDeliveryRequest := {
  mq_local_action_id : string;
  mq_message_id : string;
  mq_from_address : string;
  mq_to : list string;
  mq_cc : list string;
  mq_bcc : list string;
  mq_subject : string;
  mq_mime_bytes : string
}.

(** The keys of a dictionary that the items were put into in order. *)
Fixpoint first_seen (seen l : list string) : list string :=
  match l with
  | [] => []
  | x :: l => if mem_b x seen then first_seen seen l else x :: first_seen (x :: seen) l
  end.
Definition recipients (q : MailDeliveryRequest) : list string := first_seen [] (mq_to q ++ mq_cc q ++ mq_bcc q)%list.

Record MailDeliveryReceipt := {
  mc_local_action_id : string;
  mc_message_id : string;
  mc_status : MailDeliveryStatus.t;
  mc_recipient_results : list MailRecipientResult;
  mc_server_code : option string
}.
Definition accepted (r : MailDeliveryReceipt) : list string :=
  rr_recipient <$> List.filter (fun i => bool_decide (rr_status i = MailRecipientStatus.ACCEPTED)) (mc_recipient_results r).
Definition rejected (r : MailDeliveryReceipt) : list MailRecipientResult :=
  List.filter (fun i => bool_decide (rr_status i = MailRecipientStatus.REJECTED)) (mc_recipient_results r).

Record MailDeliveryRecord := {
  mr_local_action_id : string;
  mr_account_id : string;
  mr_message_id : string;
  mr_status : MailDeliveryStatus.t;
  mr_envelope_digest : string;
  mr_mime_sha256 : string;
  mr_recipient_results : list MailRecipientResult;
  mr_server_code : option string;
  mr_diagnostic_code : option string;
  mr_owner_id : option string;
  mr_lease_expires_at : option time
}.
#[export] Instance MailDeliveryRecord_eta : Eta MailDeliveryRecord := fun r =>
  Build_MailDeliveryRecord (mr_local_action_id r) (mr_account_id r) (mr_message_id r) (mr_status r)
    (mr_envelope_digest r) (mr_mime_sha256 r) (mr_recipient_results r) (mr_server_code r)
    (mr_diagnostic_code r) (mr_owner_id r) (mr_lease_expires_at r).

Record MailAccountRecord := {
  ma_account_id : string;
  ma_address : string;
  ma_imap_host : string;
  ma_smtp_host : string;
  ma_secret_handle_id : string;
  ma_imap_port : Z;
  ma_smtp_port : Z;
  ma_display_name : string;
  ma_read_enabled : bool;
  ma_send_enabled : bool;
  ma_tls_mode : string;
  ma_generation : Z
}.
#[export] Instance MailAccountRecord_eta : Eta MailAccountRecord := fun r =>
  Build_MailAccountRecord (ma_account_id r) (ma_address r) (ma_imap_host r) (ma_smtp_host r)
    (ma_secret_handle_id r) (ma_imap_port r) (ma_smtp_port r) (ma_display_name r) (ma_read_enabled r)
    (ma_send_enabled r) (ma_tls_mode r) (ma_generation r).
#[global] Instance account_eq_dec : EqDecision MailAccountRecord.
Proof. solve_decision. Defined.

Definition value_if (b : bool) (msg : string) : result unit := raise_if b PyValueError msg.
Definition valid_port (n : Z) : bool := (1 <=? n) && (n <=? 65535).
Definition has_at (s : string) : bool := existsb (fun a => code a =? 64) (chars s).
Definition _TLS_MODES : list string := ["auto"; "implicit"; "starttls"].

(** [MailAccountRecord.__post_init__] *)
Definition check_account (r : MailAccountRecord) : result MailAccountRecord :=
  _ ← result_iter (fun '(name, v) => value_if (blank v) (name ++ " is required"))
        [("account_id", ma_account_id r); ("address", ma_address r); ("imap_host", ma_imap_host r);
         ("smtp_host", ma_smtp_host r); ("secret_handle_id", ma_secret_handle_id r)];
  _ ← value_if (negb (has_at (ma_address r))) "address must be an email address";
  _ ← value_if (negb (valid_port (ma_imap_port r)) || negb (valid_port (ma_smtp_port r)))
        "mail ports must be valid TCP ports";
  _ ← value_if (negb (mem_b (ma_tls_mode r) _TLS_MODES)) "tls_mode must be auto, implicit or starttls";
  _ ← value_if (ma_generation r <? 0) "generation must be a non-negative integer";
  _ ← value_if (ma_send_enabled r && negb (ma_read_enabled r)) "send_enabled requires read_enabled";
  Ok r.

(** [MailAccountRecord.fingerprint] *)
Definition account_json (r : MailAccountRecord) : json := JObj [
  ("account_id", JStr (ma_account_id r)); ("address", JStr (ma_address r)); ("imap_host", JStr (ma_imap_host r));
  ("imap_port", JInt (ma_imap_port r)); ("smtp_host", JStr (ma_smtp_host r)); ("smtp_port", JInt (ma_smtp_port r));
  ("secret_handle_id", JStr (ma_secret_handle_id r)); ("display_name", JStr (ma_display_name r));
  ("read_enabled", JBool (ma_read_enabled r)); ("send_enabled", JBool (ma_send_enabled r));
  ("tls_mode", JStr (ma_tls_mode r)); ("generation", JInt (ma_generation r))].
Definition account_fingerprint (r : MailAccountRecord) : result string := canonical_sha256 (account_json r).

Record MailAccountBinding := {
  mb_record : MailAccountRecord;     (* the shared fields *)
  mb_secret_kind : string
}.
(** [MailAccountBinding.__post_init__] on the fields [binding_for] copies. *)
Definition check_binding (b : MailAccountBinding) : result MailAccountBinding :=
  let r := mb_record b in
  _ ← result_iter (fun '(name, v) => value_if (blank v) (name ++ " is required"))
        [("account_id", ma_account_id r); ("address", ma_address r); ("imap_host", ma_imap_host r);
         ("smtp_host", ma_smtp_host r)];
  _ ← value_if (negb (has_at (ma_address r))) "address must be an email address";
  _ ← value_if (negb (valid_port (ma_imap_port r)) || negb (valid_port (ma_smtp_port r)))
        "mail ports must be valid TCP ports";
  _ ← value_if (negb (mem_b (ma_tls_mode r) _TLS_MODES)) "tls_mode must be auto, implicit or starttls";
  _ ← value_if (bool_decide (ma_secret_handle_id r = "")) "secret_handle must be a SecretHandle";
  _ ← value_if (ma_send_enabled r && negb (ma_read_enabled r)) "send_enabled requires read_enabled";
  Ok b.

Record MailPolicy := {
  mp_allow_send : bool;
  mp_allowed_recipients : list string;
  mp_max_message_bytes : Z;
  mp_max_fetch_messages : Z
}.
Definition recipient_allowed (p : MailPolicy) (address : string) : bool :=
  mem_b (lower (strip address)) (mp_allowed_recipients p).

(** ** [InMemoryMailDeliveryLedger] *)

(** The rows in the order of their preparation. *)
Definition Ledger : Type := list (string * MailDeliveryRecord).
Import MailDeliveryStatus.

Definition conflict {A} : M Ledger A :=
  raise MailLedgerConflictError "the local action id is already bound to a different envelope".
Definition ledger_state {A} (msg : string) : M Ledger A := raise MailLedgerStateError msg.

Definition ledger_prepare (record : MailDeliveryRecord) : M Ledger MailDeliveryStatus.t :=
  s ← get_state;
  match assoc (mr_local_action_id record) s with
  | None =>
      _ ← put_state (assoc_set (mr_local_action_id record) (record {{ mr_status := PREPARED }}) s);
      mret PREPARED
  | Some existing =>
      if negb (bool_decide (mr_envelope_digest existing = mr_envelope_digest record)) then conflict
      else mret (mr_status existing)
  end.

Definition bad_lease (owner_id : string) (lease : Z) : bool :=
  bool_decide (owner_id = "") || negb ((seconds 1 <=? lease) && (lease <=? seconds 86400)).

Definition ledger_begin (i envelope_digest owner_id : string) (lease : Z) (now : time) : M Ledger MailDeliveryStatus.t :=
  if bad_lease owner_id lease then ledger_state "invalid execution lease"
  else
    s ← get_state;
    match assoc i s with
    | None => ledger_state "unknown local action id"
    | Some record =>
        if negb (bool_decide (mr_envelope_digest record = envelope_digest)) then conflict
        else if bool_decide (mr_status record = PREPARED) then
          _ ← put_state (assoc_set i (record {{ mr_status := EXECUTING }} {{ mr_owner_id := Some owner_id }}
                                       {{ mr_lease_expires_at := Some (now + lease) }}) s);
          mret EXECUTING
        else mret (mr_status record)
    end.

Definition ledger_finalize (i envelope_digest : string) (status : MailDeliveryStatus.t)
    (results : list MailRecipientResult) (server_code diagnostic_code : option string) : M Ledger MailDeliveryStatus.t :=
  if negb (terminal status) then ledger_state "finalize requires a terminal status"
  else
    s ← get_state;
    match assoc i s with
    | None => ledger_state "unknown local action id"
    | Some record =>
        if negb (bool_decide (mr_envelope_digest record = envelope_digest)) then conflict
        else if terminal (mr_status record) then mret (mr_status record)
        else if negb (bool_decide (mr_status record = EXECUTING)) then ledger_state "the ledger row is not EXECUTING"
        else
          _ ← put_state (assoc_set i (record {{ mr_status := status }} {{ mr_recipient_results := results }}
                                       {{ mr_server_code := server_code }} {{ mr_diagnostic_code := diagnostic_code }}) s);
          mret status
    end.

Definition ledger_reconcile (i account_id message_id : string) (status : MailDeliveryStatus.t)
    (diagnostic_code : option string) : M Ledger MailDeliveryStatus.t :=
  if negb (terminal status) then ledger_state "reconciliation requires a terminal status"
  else
    s ← get_state;
    match assoc i s with
    | None => ledger_state "unknown local action id"
    | Some record =>
        if bool_decide (mr_status record = UNKNOWN) && bool_decide (mr_account_id record = account_id)
           && bool_decide (mr_message_id record = message_id)
        then
          let code := match mr_server_code record with
                      | Some c => if bool_decide (c = "") then "SENT_RECONCILED" else c
                      | None => "SENT_RECONCILED"
                      end in
          _ ← put_state (assoc_set i (record {{ mr_status := status }} {{ mr_server_code := Some code }}
                                       {{ mr_diagnostic_code := diagnostic_code }}) s);
          mret status
        else mret (mr_status record)
    end.

Definition ledger_heartbeat (i owner_id : string) (lease : Z) (now : time) : M Ledger bool :=
  if bad_lease owner_id lease then ledger_state "invalid execution lease"
  else
    s ← get_state;
    match assoc i s with
    | None => mret false
    | Some record =>
        if negb (bool_decide (mr_status record = EXECUTING)) || negb (bool_decide (mr_owner_id record = Some owner_id))
        then mret false
        else
          _ ← put_state (assoc_set i (record {{ mr_lease_expires_at := Some (now + lease) }}) s);
          mret true
    end.

(** The rows [recover_stale_executions] turns into UNKNOWN. *)
Definition is_stale (active_owners : list string) (now : time) (record : MailDeliveryRecord) : bool :=
  bool_decide (mr_status record = EXECUTING)
  && match mr_lease_expires_at record with Some t => t <=? now | None => false end
  && match mr_owner_id record with Some o => negb (mem_b o active_owners) | None => true end.
Definition recovered (record : MailDeliveryRecord) : MailDeliveryRecord :=
  record {{ mr_status := UNKNOWN }} {{ mr_diagnostic_code := Some "EXECUTION_LEASE_EXPIRED" }}.
Definition ledger_recover (active_owners : list string) (now : time) : M Ledger (list string) :=
  s ← get_state;
  _ ← put_state ((fun kv => (kv.1, if is_stale active_owners now kv.2 then recovered kv.2 else kv.2)) <$> s);
  mret ((List.filter (fun kv => is_stale active_owners now kv.2) s).*1).

Definition ledger_get (i : string) : M Ledger (option MailDeliveryRecord) := s ← get_state; mret (assoc i s).

(** ** The account registries *)

Definition MAX_ACCOUNTS : Z := 32.

(** The attributes of [InMemoryMailAccountRegistry]; [reg_critical] says that an in-flight submission
    holds the critical lock. *)
Record Registry := {
  reg_records : list (string * MailAccountRecord);
  reg_revisions : list (string * Z);
  reg_critical : bool
}.
#[export] Instance Registry_eta : Eta Registry := fun r => Build_Registry (reg_records r) (reg_revisions r) (reg_critical r).

Definition registry_init (records : list MailAccountRecord) : Registry :=
  {| reg_records := fold_left (fun d r => assoc_set (ma_account_id r) r d) records [];
     reg_revisions := fold_left (fun d r => assoc_set (ma_account_id r) (ma_generation r) d) records [];
     reg_critical := false |}.

Definition _bump (previous : option MailAccountRecord) (record : MailAccountRecord) (revision_floor : Z) : MailAccountRecord :=
  record {{ ma_generation := Z.max (Z.max (ma_generation record) (revision_floor + 1))
                               (match previous with Some p => Z.max 0 (ma_generation p + 1) | None => 0 end) }}.

Definition same_fingerprint (a b : MailAccountRecord) : bool :=
  match account_fingerprint a, account_fingerprint b with Ok x, Ok y => bool_decide (x = y) | _, _ => false end.
Definition _matches (current : option MailAccountRecord) (lease : MailAccountRecord) : bool :=
  match current with
  | Some c => (ma_generation c =? ma_generation lease) && same_fingerprint c lease
  | None => false
  end.

Definition registry_resolve (account_id : string) : M Registry MailAccountRecord := fun s =>
  (s, match assoc account_id (reg_records s) with Some r => Ok r | None => Err (account_not_found account_id) end).
Definition registry_list : M Registry (list MailAccountRecord) := fun s => (s, Ok (sort_items (reg_records s)).*2).
Definition registry_verify (lease : MailAccountRecord) : M Registry bool := fun s =>
  (s, Ok (_matches (assoc (ma_account_id lease) (reg_records s)) lease)).

(** [_mutation]: an account mutation waits for the submission that is in its critical section; when it
    does not leave it within five seconds the mutation is refused. *)
Definition mutation {A} (body : M Registry A) : M Registry A := fun s =>
  if reg_critical s then (s, fail PyValueError "the mail account registry is busy with an in-flight submission")
  else body s.

Definition store_account (bumped : MailAccountRecord) (s : Registry) : Registry :=
  s {{ reg_records := assoc_set (ma_account_id bumped) bumped (reg_records s) }}
    {{ reg_revisions := assoc_set (ma_account_id bumped) (ma_generation bumped) (reg_revisions s) }}.

Definition bumped_in (s : Registry) (record : MailAccountRecord) : MailAccountRecord :=
  _bump (assoc (ma_account_id record) (reg_records s)) record (default (-1) (assoc (ma_account_id record) (reg_revisions s))).

Definition registry_upsert (record : MailAccountRecord) : M Registry unit :=
  mutation (fun s =>
    if negb (mem_b (ma_account_id record) (keys (reg_records s))) && (MAX_ACCOUNTS <=? Z.of_nat (length (reg_records s)))
    then (s, fail PyValueError "too many registered mail accounts")
    else (store_account (bumped_in s record) s, Ok tt)).

(** The loop of [replace_all]: generations advance from the previous records, new records are collected. *)
Fixpoint replace_records (s : Registry) (records : list MailAccountRecord) (updated : list (string * MailAccountRecord))
    (revisions : list (string * Z)) : list (string * MailAccountRecord) * list (string * Z) :=
  match records with
  | [] => (updated, revisions)
  | item :: records =>
      let bumped := _bump (assoc (ma_account_id item) (reg_records s)) item
                      (default (-1) (assoc (ma_account_id item) revisions)) in
      replace_records s records (assoc_set (ma_account_id item) bumped updated)
        (assoc_set (ma_account_id item) (ma_generation bumped) revisions)
  end.

Definition registry_replace_all (records : list MailAccountRecord) : M Registry unit := fun s =>
  if MAX_ACCOUNTS <? Z.of_nat (length records) then (s, fail PyValueError "too many registered mail accounts")
  else if negb (Z.of_nat (length (first_seen [] (ma_account_id <$> records))) =? Z.of_nat (length records))
  then (s, fail PyValueError "account ids must be unique")
  else
    mutation (fun s =>
      let '(updated, revisions) := replace_records s records [] (reg_revisions s) in
      (s {{ reg_records := updated }} {{ reg_revisions := revisions }}, Ok tt)) s.

Definition registry_delete (account_id : string) : M Registry unit :=
  mutation (fun s => (s {{ reg_records := assoc_del account_id (reg_records s) }}, Ok tt)).

(** ** [MailAccountDispatchGuard] over the in-memory registry *)

Record DispatchGuard := {
  dg_lease : MailAccountRecord;
  dg_valid : bool;
  dg_held : bool
}.
#[export] Instance DispatchGuard_eta : Eta DispatchGuard := fun r => Build_DispatchGuard (dg_lease r) (dg_valid r) (dg_held r).

Definition dispatch_guard (lease : MailAccountRecord) : DispatchGuard := {| dg_lease := lease; dg_valid := true; dg_held := false |}.

(** [valid]: once it was not confirmed it stays invalid. *)
Definition guard_valid (g : DispatchGuard) (s : Registry) : DispatchGuard * bool :=
  if negb (dg_valid g) then (g, false)
  else if _matches (assoc (ma_account_id (dg_lease g)) (reg_records s)) (dg_lease g) then (g, true)
  else (g {{ dg_valid := false }}, false).

Definition guard_end (g : DispatchGuard) (s : Registry) : DispatchGuard * Registry :=
  (g {{ dg_held := false }}, if dg_held g then s {{ reg_critical := false }} else s).

Definition guard_begin (g : DispatchGuard) (s : Registry) : DispatchGuard * Registry * bool :=
  if reg_critical s then (g {{ dg_valid := false }}, s, false)
  else
    let s := s {{ reg_critical := true }} in
    let '(g, ok) := guard_valid (g {{ dg_held := true }}) s in
    if ok then (g, s, true) else (guard_end g s, false).

(** ** [_LeaseGuard] of the executor *)

Record LeaseGuard := { lg_valid : bool; lg_expires_at : Z }.
#[export] Instance LeaseGuard_eta : Eta LeaseGuard := fun r => Build_LeaseGuard (lg_valid r) (lg_expires_at r).

Definition lease_guard (lease started_at : Z) : LeaseGuard := {| lg_valid := true; lg_expires_at := started_at + Z.max lease 0 |}.
Definition lease_valid (g : LeaseGuard) (monotonic : Z) : bool := lg_valid g && (monotonic <? lg_expires_at g).
Definition lease_invalidate (g : LeaseGuard) : LeaseGuard := g {{ lg_valid := false }}.
Definition lease_renew (g : LeaseGuard) (lease started_at monotonic : Z) : LeaseGuard :=
  if negb (lg_valid g) then g
  else if lg_expires_at g <=? monotonic then g
  else g {{ lg_expires_at := started_at + Z.max lease 0 }}.
Definition remaining_seconds (g : LeaseGuard) (monotonic : Z) : Z :=
  if negb (lg_valid g) then 0 else Z.max 0 (lg_expires_at g - monotonic).
