(* ===== verification/MailExecutor.v ===== *)
(** * MailExecutor: sending an approved message

    Models [infrastructure/mail/executor.py]: [MailSendExecutor] as a coroutine over the account
    registry, the owning extension, the artifact store, the delivery ledger and the transport.
    [parse_envelope] and [parse_message] (MIME parsing through the [email] package) are parameters; the heartbeat task is
    started and stopped by operations and runs as a coroutine of its own. *)

From S2P Require Import Prelude Text Sha256 Json Schemas Domain Tools Gateway PyValue MailModels.
Local Open Scope string_scope.
Local Open Scope Z_scope.

Definition MAIL_SEND_CAPABILITY : string := "mail.send".

(** ** The arguments of a send *)

Record _Expectations := {
  xp_local_action_id : string;
  xp_account_id : string;
  xp_account_fingerprint : string;
  xp_draft_id : string;
  xp_draft_version : Z;
  xp_message_id : string;
  xp_from_address : string;
  xp_to : list string;
  xp_cc : list string;
  xp_bcc : list string;
  xp_subject : string;
  xp_mime_sha256 : string;
  xp_attachment_hashes : list string
}.

Definition bad_value {A} (msg : string) : result A := fail PyValueError msg.

Definition _text (allow_empty : bool) (value : json) : result string :=
  match value with
  | JStr s =>
      if blank s && negb allow_empty then bad_value "expected a non-empty string"
      else if 512 <? str_len s then bad_value "value is too long"
      else if existsb (fun a => (code a =? 13) || (code a =? 10)) (chars s) then bad_value "value must not contain CR/LF"
      else Ok s
  | _ => bad_value "expected a non-empty string"
  end.

(** The loop of [_addresses]: a repeated address (without regard to case) is dropped. *)
Fixpoint collect_addresses (seen : list string) (items : list json) : result (list string) :=
  match items with
  | [] => Ok []
  | item :: items =>
      address ← _text false item;
      if negb (has_at address) then bad_value "recipient is not an email address"
      else if mem_b (lower address) seen then collect_addresses seen items
      else rest ← collect_addresses (lower address :: seen) items; Ok (address :: rest)
  end.

Definition _addresses (value : json) : result (list string) :=
  match value with
  | JNull => Ok []
  | JStr _ | JList _ =>
      normalized ← collect_addresses [] (match value with JList l => l | _ => [value] end);
      if 100 <? Z.of_nat (length normalized) then bad_value "too many recipients" else Ok normalized
  | _ => bad_value "recipients must be a list of addresses"
  end.

Definition _digest (value : json) : result string :=
  match value with
  | JStr s =>
      if negb (str_len s =? 64) then bad_value "sha256 digest is required"
      else if negb (forallb is_hex_lower (chars s)) then bad_value "sha256 digest must be lowercase hexadecimal"
      else Ok s
  | _ => bad_value "sha256 digest is required"
  end.

Definition _digests (value : json) : result (list string) :=
  match value with
  | JList l => if 64 <? Z.of_nat (length l) then bad_value "too many attachments" else result_map _digest l
  | _ => bad_value "expected a list of sha256 digests"
  end.

(** [{str(item).strip().lower() for item in value if str(item).strip()}], as a list *)
Definition _normalized (value : json) : list string :=
  match value with
  | JList l => (fun v => lower (strip (py_str v))) <$> List.filter (fun v => negb (blank (py_str v))) l
  | _ => []
  end.
Definition same_set (l k : list string) : bool := forallb (fun x => mem_b x k) l && forallb (fun x => mem_b x l) k.
Definition strs (l : list string) : json := JList (JStr <$> l).

Definition definitive {A} (msg : string) : result A := fail DefinitiveToolFailure msg.
Definition unknown_outcome (reference msg : string) : exn := Exn OutcomeUnknownError msg (Some reference) false.

(** The body of the [try] of [_expectations]. *)
Definition read_arguments (arguments : list (string * json)) : result _Expectations :=
  let get k := get_or k JNull arguments in
  local_action_id ← _text false (get "local_action_id");
  account_id ← _text false (get "account_id");
  account_fingerprint ← _digest (get "account_fingerprint");
  draft_id ← _text false (get "draft_id");
  draft_version ← match get "draft_version" with
                  | JInt n => if n <? 1 then bad_value "draft_version is invalid" else Ok n
                  | _ => bad_value "draft_version is invalid"
                  end;
  message_id ← _text false (get "message_id");
  from_address ← _text false (get "from_address");
  to ← _addresses (get "to");
  cc ← _addresses (get_or "cc" (JList []) arguments);
  bcc ← _addresses (get_or "bcc" (JList []) arguments);
  subject ← _text true (get "subject");
  mime_sha256 ← _digest (get "mime_sha256");
  attachment_hashes ← _digests (get_or "attachment_hashes" (JList []) arguments);
  Ok {| xp_local_action_id := local_action_id; xp_account_id := account_id; xp_account_fingerprint := account_fingerprint;
        xp_draft_id := draft_id; xp_draft_version := draft_version; xp_message_id := message_id;
        xp_from_address := from_address; xp_to := to; xp_cc := cc; xp_bcc := bcc; xp_subject := subject;
        xp_mime_sha256 := mime_sha256; xp_attachment_hashes := attachment_hashes |}.

Definition _expectations (arguments : list (string * json)) (context : ToolExecutionContext) : result _Expectations :=
  x ← match read_arguments arguments with
      | Ok x => Ok x
      | Err e => if exn_is e PyValueError then definitive ("invalid send arguments: " ++ exn_msg e) else Err e
      end;
  _ ← raise_if (negb (bool_decide (x_idempotency_key context = xp_local_action_id x))) DefinitiveToolFailure
        "the local action id must equal the gateway idempotency key";
  _ ← raise_if (bool_decide (xp_to x = []) && bool_decide (xp_cc x = []) && bool_decide (xp_bcc x = []))
        DefinitiveToolFailure "at least one recipient is required";
  Ok x.

(** [except ValueError: raise DefinitiveToolFailure(msg)] *)
Definition or_definitive {A} (r : result A) (msg : string) : result A :=
  match r with Ok a => Ok a | Err e => if exn_is e PyValueError then definitive msg else Err e end.

(** [str(actual.get(k) or "")] *)
Definition str_or_blank (k : string) (d : list (string * json)) : string :=
  let v := get_or k JNull d in if py_truth v then py_str v else "".

(** What a parsed message shows its owner. *)
Record ParsedMessage := {
  pm_body_text : string;
  pm_truncated : bool;
  pm_attachments : list (string * string * Z)     (* filename, sha256, size_bytes *)
}.

(** ** The ports *)

Inductive ledgerE : Type -> Type :=
| LPrepare (record : MailDeliveryRecord) : ledgerE MailDeliveryStatus.t
| LBegin (i envelope_digest owner_id : string) (lease : Z) : ledgerE MailDeliveryStatus.t
| LFinalize (i envelope_digest : string) (status : MailDeliveryStatus.t) (results : list MailRecipientResult)
    (server_code diagnostic_code : option string) : ledgerE MailDeliveryStatus.t
| LReconcile (i account_id message_id : string) (status : MailDeliveryStatus.t) (diagnostic_code : option string)
    : ledgerE MailDeliveryStatus.t
| LHeartbeat (i owner_id : string) (lease : Z) : ledgerE bool
| LRecover (active_owners : list string) : ledgerE (list string)
| LGet (i : string) : ledgerE (option MailDeliveryRecord).

Inductive mailE : Type -> Type :=
| MLedger {X} (op : ledgerE X) : mailE X
| MResolve (account_id : string) : mailE MailAccountRecord
| MSendAvailable : mailE bool
| MInvokeTool (extension_id tool_id : string) (arguments : list (string * json)) (task_id run_id key : string)
    (deadline : Z) : mailE (list (string * json))
| MReadArtifact (artifact_id : string) : mailE string
| MMonotonic : mailE Z
| MSleep (duration : Z) : mailE unit
| MOwner (live : bool) (owner_id : string) : mailE unit
| MHeartbeatTask (running : bool) (i owner_id : string) : mailE unit
| MSend (account_id : string) (request : MailDeliveryRequest) : mailE MailDeliveryReceipt
| MEnv {X} (op : envE X) : mailE X.

#[global] Instance SubE_mail_ledger : SubE ledgerE mailE := fun X op => MLedger op.
#[global] Instance SubE_mail_env : SubE envE mailE := fun X op => MEnv op.

Section executor.
Context (parse_envelope : string -> result (list (string * json))) (parse_message : string -> result ParsedMessage).
Context (policy : option MailPolicy) (call_deadline : Z) (lease_override heartbeat_override : option Z) (executor_owner : string).
Context (has_owners : bool).

Definition _lease_seconds : Z :=
  match lease_override with
  | Some l => Z.max l 500000
  | None => Z.min (Z.max (call_deadline * 2) (seconds 120)) (seconds 3600)
  end.
Definition _heartbeat_interval : Z :=
  match heartbeat_override with Some h => Z.max h 50000 | None => Z.max (_lease_seconds / 3) (seconds 5) end.

Definition _verify_envelope (mime_bytes : string) (materialized : list (string * json)) (x : _Expectations) : result unit :=
  let check b msg := raise_if (negb b) DefinitiveToolFailure msg in
  actual ← parse_envelope mime_bytes;
  _ ← check (py_eq (get_or "message_id" JNull actual) (JStr (xp_message_id x))) "the message id does not match the approval";
  _ ← check (bool_decide (str_or_blank "subject" actual = xp_subject x)) "the subject does not match the approval";
  _ ← check (bool_decide (lower (str_or_blank "from_address" actual) = lower (xp_from_address x)))
        "the sender does not match the approval";
  _ ← check (same_set (_normalized (get_or "to_addresses" JNull actual)) (_normalized (strs (xp_to x))))
        "the To recipients do not match the approval";
  _ ← check (same_set (_normalized (get_or "cc_addresses" JNull actual)) (_normalized (strs (xp_cc x))))
        "the Cc recipients do not match the approval";
  extension_bcc ← or_definitive (_addresses (get_or "bcc" JNull materialized)) "the materialized Bcc list is invalid";
  _ ← check (same_set (_normalized (strs extension_bcc)) (_normalized (strs (xp_bcc x))))
        "the Bcc recipients do not match the approval";
  extension_hashes ← or_definitive (_digests (get_or "attachment_hashes" (JList []) materialized))
                       "the materialized attachment list is invalid";
  check (same_set extension_hashes (xp_attachment_hashes x)
         && same_set (_normalized (get_or "attachment_hashes" JNull actual)) (xp_attachment_hashes x))
    "the attachment hashes do not match the approval".

(** [_resolve_account] and [_reconfirm_account] differ in their messages. *)
Definition confirm_account (x : _Expectations) (gone changed : string) : prog mailE MailAccountRecord :=
  prog_match (perform (MResolve (xp_account_id x)))
    (fun account =>
       fingerprint ← of_result (account_fingerprint account);
       if negb (bool_decide (fingerprint = xp_account_fingerprint x)) then raise_prog DefinitiveToolFailure changed
       else Ret account)
    (fun e => if exn_is e MailAccountNotFoundError then raise_prog DefinitiveToolFailure gone else Raise e).
Definition _resolve_account (x : _Expectations) : prog mailE MailAccountRecord :=
  confirm_account x "the account is not registered with the host" "the account binding does not match the host registry".
Definition _reconfirm_account (x : _Expectations) : prog mailE MailAccountRecord :=
  confirm_account x "the account was removed from the host registry" "the account binding changed after this action was approved".

Definition _materialize (descriptor : ToolDescriptor) (arguments : list (string * json)) (context : ToolExecutionContext)
  : prog mailE (list (string * json)) :=
  result_ ← prog_try (perform (MInvokeTool (td_extension_id descriptor) (td_id descriptor) arguments (x_task_id context)
                       (x_attempt_id context) (x_idempotency_key context) call_deadline))
             (fun e => if exn_is e PyException
                       then raise_prog DefinitiveToolFailure "the owning extension could not materialize the approved draft"
                       else Raise e);
  let outcome := get_or "outcome" JNull result_ in
  if py_eq outcome (JStr "NEEDS_USER_ACTION")
  then raise_prog UserActionRequiredError "the extension requires user action before this send"
  else if negb (py_eq outcome (JStr "SUCCEEDED"))
  then raise_prog DefinitiveToolFailure "the extension refused to materialize the approved draft version"
  else match get_or "output" JNull result_ with
       | JObj output => Ret output
       | _ => raise_prog DefinitiveToolFailure "the extension returned no send material"
       end.

Definition _verify_bytes (materialized : list (string * json)) (x : _Expectations) : prog mailE string :=
  match get_or "mime_artifact_id" JNull materialized with
  | JStr artifact_id =>
      if bool_decide (artifact_id = "") then raise_prog DefinitiveToolFailure "the extension returned no message artifact"
      else if negb (py_eq (get_or "mime_sha256" JNull materialized) (JStr (xp_mime_sha256 x)))
      then raise_prog DefinitiveToolFailure "the materialized draft version does not match the approved snapshot"
      else
        data ← prog_try (perform (MReadArtifact artifact_id))
                 (fun e => if exn_is e PyException
                           then raise_prog DefinitiveToolFailure "the approved message artifact is unavailable" else Raise e);
        if negb (bool_decide (sha256_hex (code <$> chars data) = xp_mime_sha256 x))
        then raise_prog DefinitiveToolFailure "the approved message bytes failed integrity verification"
        else Ret data
  | _ => raise_prog DefinitiveToolFailure "the extension returned no message artifact"
  end.

(** The policy's allowlist over all recipients. *)
Definition check_recipients (x : _Expectations) : result unit :=
  match policy with
  | Some p => raise_if (negb (forallb (recipient_allowed p) (xp_to x ++ xp_cc x ++ xp_bcc x)%list))
                DefinitiveToolFailure "recipient is not on the controlled test allowlist"
  | None => Ok tt
  end.

Definition common_view (x : _Expectations) (materialized : list (string * json)) : list (string * json) :=
  [("draft_id", JStr (xp_draft_id x)); ("draft_version", JInt (xp_draft_version x)); ("account_id", JStr (xp_account_id x));
   ("account_fingerprint", JStr (xp_account_fingerprint x)); ("from_address", JStr (xp_from_address x));
   ("mime_artifact_id", JStr (str_or_blank "mime_artifact_id" materialized)); ("mime_sha256", JStr (xp_mime_sha256 x));
   ("to", strs (xp_to x)); ("cc", strs (xp_cc x)); ("bcc", strs (xp_bcc x)); ("subject", JStr (xp_subject x));
   ("attachment_hashes", strs (xp_attachment_hashes x))].

Definition opt_json (o : option string) : json := match o with Some s => JStr s | None => JNull end.
Definition result_json (r : MailRecipientResult) : json :=
  JObj [("recipient", JStr (rr_recipient r)); ("status", JStr (MailRecipientStatus.value (rr_status r)));
        ("error_code", opt_json (rr_error_code r))].

Definition _view (receipt : MailDeliveryReceipt) (ledger_status : MailDeliveryStatus.t) (x : _Expectations)
    (materialized : list (string * json)) : list (string * json) :=
  (common_view x materialized ++
   [("local_action_id", JStr (mc_local_action_id receipt)); ("message_id", JStr (mc_message_id receipt));
    ("status", JStr (MailDeliveryStatus.value (mc_status receipt)));
    ("ledger_status", JStr (MailDeliveryStatus.value ledger_status)); ("accepted_recipients", strs (accepted receipt));
    ("recipient_results", JList (result_json <$> mc_recipient_results receipt));
    ("server_code", opt_json (mc_server_code receipt)); ("ledger_recorded", JBool true)])%list.

Definition _replay_view (x : _Expectations) (materialized : list (string * json)) (state : MailDeliveryStatus.t)
  : result (list (string * json)) :=
  match state with
  | MailDeliveryStatus.UNKNOWN => Err (unknown_outcome (xp_local_action_id x) "the recorded transport outcome is unknown")
  | MailDeliveryStatus.FAILED | MailDeliveryStatus.PARTIAL =>
      definitive "the local action id already reached a terminal transport state"
  | _ =>
      Ok (common_view x materialized ++
          [("local_action_id", JStr (xp_local_action_id x)); ("message_id", JStr (xp_message_id x));
           ("status", JStr (MailDeliveryStatus.value state)); ("ledger_status", JStr (MailDeliveryStatus.value state));
           ("accepted_recipients", JList []); ("recipient_results", JList []); ("server_code", JNull);
           ("ledger_recorded", JBool true); ("idempotent_replay", JBool true)])%list
  end.

Definition _prepare (record : MailDeliveryRecord) : prog mailE MailDeliveryStatus.t :=
  prog_try (call (LPrepare record)) (fun e =>
    if exn_is e MailLedgerConflictError
    then raise_prog DefinitiveToolFailure "the local action id is already bound to a different envelope"
    else if exn_is e MailLedgerStateError
    then raise_prog DefinitiveToolFailure "the transport ledger rejected the dispatch"
    else if exn_is e PyException
    then Raise (unknown_outcome (mr_local_action_id record) "the transport ledger is unavailable")
    else Raise e).

Definition _begin (i envelope_digest owner_id : string) : prog mailE MailDeliveryStatus.t :=
  prog_try (call (LBegin i envelope_digest owner_id _lease_seconds)) (fun e =>
    if exn_is e PyException then Raise (unknown_outcome i "the transport ledger could not record dispatch") else Raise e).

Definition _finalize_failure (i envelope_digest diagnostic_code : string) : prog mailE unit :=
  prog_match (call (LFinalize i envelope_digest MailDeliveryStatus.FAILED [] None (Some diagnostic_code)))
    (fun _ => Ret tt) (fun e => if exn_is e PyException then Ret tt else Raise e).

Definition _complete (x : _Expectations) (receipt : MailDeliveryReceipt) (envelope_digest : string)
    (materialized : list (string * json)) : prog mailE (list (string * json)) :=
  let i := mc_local_action_id receipt in
  final ← prog_try (call (LFinalize i envelope_digest (mc_status receipt) (mc_recipient_results receipt)
                            (mc_server_code receipt) None))
            (fun e => if exn_is e PyException
                      then Raise (unknown_outcome i "the transport result could not be recorded; outcome is unknown")
                      else Raise e);
  if MailDeliveryStatus.terminal final && negb (bool_decide (final = mc_status receipt))
  then Raise (unknown_outcome i "the transport ledger already held a different terminal state")
  else match mc_status receipt with
       | MailDeliveryStatus.UNKNOWN =>
           Raise (unknown_outcome i "the mail transport could not confirm acceptance; outcome is unknown")
       | MailDeliveryStatus.PARTIAL =>
           raise_prog DefinitiveToolFailure "the mail transport accepted only part of the recipient list"
       | MailDeliveryStatus.FAILED =>
           raise_prog DefinitiveToolFailure "the mail transport rejected the message before delivery"
       | _ => Ret (_view receipt final x materialized)
       end.

(** [heartbeat.cancel(); await _drain_task(heartbeat); owners.unregister(owner_id)]: the wait for the
    task swallows every exception, cancellations included. *)
Definition stop_heartbeat (i owner_id : string) : prog mailE unit :=
  _ ← prog_try (perform (MHeartbeatTask false i owner_id)) (fun _ => Ret tt);
  if has_owners then perform (MOwner false owner_id) else Ret tt.

Definition request_of (x : _Expectations) (mime_bytes : string) : MailDeliveryRequest :=
  {| mq_local_action_id := xp_local_action_id x; mq_message_id := xp_message_id x; mq_from_address := xp_from_address x;
     mq_to := xp_to x; mq_cc := xp_cc x; mq_bcc := xp_bcc x; mq_subject := xp_subject x; mq_mime_bytes := mime_bytes |}.

(** From the registered owner to the recorded outcome. *)
Definition dispatch (x : _Expectations) (account : MailAccountRecord) (mime_bytes envelope_digest owner_id : string)
    (materialized : list (string * json)) : prog mailE (list (string * json)) :=
  let i := xp_local_action_id x in
  _ ← (if has_owners then perform (MOwner true owner_id) else Ret tt);
  _ ← perform (MHeartbeatTask true i owner_id);
  receipt ← prog_finally
    (prog_try (perform (MSend (ma_account_id account) (request_of x mime_bytes))) (fun e =>
       if exn_is e MailError then
         _ ← _finalize_failure i envelope_digest (default "" (exn_ref e));
         if needs_user_action e
         then raise_prog UserActionRequiredError "the mail account needs user action before sending"
         else raise_prog DefinitiveToolFailure "the mail transport refused the message before submission"
       else Raise e))
    (stop_heartbeat i owner_id);
  _complete x receipt envelope_digest materialized.

Definition record_of (x : _Expectations) (account : MailAccountRecord) (envelope_digest : string) : MailDeliveryRecord :=
  {| mr_local_action_id := xp_local_action_id x; mr_account_id := ma_account_id account; mr_message_id := xp_message_id x;
     mr_status := MailDeliveryStatus.PREPARED; mr_envelope_digest := envelope_digest; mr_mime_sha256 := xp_mime_sha256 x;
     mr_recipient_results := []; mr_server_code := None; mr_diagnostic_code := None; mr_owner_id := None;
     mr_lease_expires_at := None |}.

(** From the claimed ledger row to the transport. *)
Definition claimed (x : _Expectations) (mime_bytes envelope_digest owner_id : string) (claim_started : Z)
    (materialized : list (string * json)) : prog mailE (list (string * json)) :=
  let i := xp_local_action_id x in
  account ← _reconfirm_account x;
  if negb (ma_send_enabled account) then
    _ ← _finalize_failure i envelope_digest "MAIL_ACCOUNT_DISABLED";
    raise_prog DefinitiveToolFailure "sending was disabled before dispatch"
  else
    monotonic ← perform MMonotonic;
    if negb (lease_valid (lease_guard _lease_seconds claim_started) monotonic)
    then Raise (unknown_outcome i "the transport lease expired before dispatch")
    else dispatch x account mime_bytes envelope_digest owner_id materialized.

(** From the verified message to the claim. *)
Definition prepare_and_claim (x : _Expectations) (arguments : list (string * json)) (account : MailAccountRecord)
    (mime_bytes : string) (materialized : list (string * json)) : prog mailE (list (string * json)) :=
  let i := xp_local_action_id x in
  envelope_digest ← of_result (canonical_sha256 (JObj arguments));
  state ← _prepare (record_of x account envelope_digest);
  if MailDeliveryStatus.terminal state then of_result (_replay_view x materialized state)
  else if bool_decide (state = MailDeliveryStatus.EXECUTING)
  then Raise (unknown_outcome i "a previous dispatch attempt was interrupted; outcome is unknown")
  else
    hex ← call NewUuid;
    let owner_id := executor_owner ++ "-" ++ hex in
    claim_started ← perform MMonotonic;
    state ← _begin i envelope_digest owner_id;
    if MailDeliveryStatus.terminal state then of_result (_replay_view x materialized state)
    else if negb (bool_decide (state = MailDeliveryStatus.EXECUTING))
    then Raise (unknown_outcome i "the transport ledger is not executable")
    else claimed x mime_bytes envelope_digest owner_id claim_started materialized.

Definition mail_execute (descriptor : ToolDescriptor) (arguments : list (string * json)) (context : ToolExecutionContext)
  : prog mailE (list (string * json)) :=
  if negb (mem_b MAIL_SEND_CAPABILITY (td_required_capabilities descriptor))
  then raise_prog DefinitiveToolFailure "this executor only handles tools that declare the send capability"
  else
    x ← of_result (_expectations arguments context);
    account ← _resolve_account x;
    if negb (bool_decide (lower (ma_address account) = lower (xp_from_address x)))
    then raise_prog DefinitiveToolFailure "the sender does not match the registered account"
    else
      _ ← of_result (check_recipients x);
      materialized ← _materialize descriptor arguments context;
      mime_bytes ← _verify_bytes materialized x;
      _ ← of_result (_verify_envelope mime_bytes materialized x);
      account ← _reconfirm_account x;
      if negb (ma_send_enabled account) then raise_prog DefinitiveToolFailure "sending is not enabled for this account"
      else
        available ← perform MSendAvailable;
        if negb available then raise_prog DefinitiveToolFailure "mail sending is disabled by host policy"
        else prepare_and_claim x arguments account mime_bytes materialized.

(** ** [review] and [prepare_call] *)

Definition review_matches (descriptor preview : ToolDescriptor) : bool :=
  mem_b MAIL_SEND_CAPABILITY (td_required_capabilities descriptor)
  && bool_decide (td_risk descriptor = EXTERNAL_WRITE)
  && bool_decide (td_id preview = td_id descriptor ++ ".preview")
  && bool_decide (td_risk preview = READ)
  && negb (mem_b MAIL_SEND_CAPABILITY (td_required_capabilities preview))
  && bool_decide (td_extension_id preview = td_extension_id descriptor)
  && bool_decide (td_extension_version preview = td_extension_version descriptor)
  && bool_decide (td_version preview = td_version descriptor).

Definition attachment_view (a : string * string * Z) : json :=
  let '(name, sha, size) := a in JObj [("name", JStr name); ("sha256", JStr sha); ("size_bytes", JInt size)].

Definition review (descriptor preview : ToolDescriptor) (arguments : list (string * json)) (task_id : string)
  : prog mailE (_Expectations * ParsedMessage * list (string * json)) :=
  if negb (review_matches descriptor preview)
  then raise_prog DefinitiveToolFailure "the read-only review tool does not match the send"
  else
    match get_or "local_action_id" JNull arguments with
    | JStr action_id =>
        hex ← call NewUuid;
        let context := {| x_attempt_id := "approval-review-" ++ hex; x_task_id := task_id; x_idempotency_key := action_id;
                          x_approval_id := None |} in
        x ← of_result (_expectations arguments context);
        account ← _resolve_account x;
        if negb (bool_decide (lower (ma_address account) = lower (xp_from_address x)))
        then raise_prog DefinitiveToolFailure "the sender does not match the registered account"
        else
          available ← (if ma_send_enabled account then perform MSendAvailable else Ret false);
          if negb available then raise_prog DefinitiveToolFailure "mail sending is unavailable"
          else
            _ ← of_result (check_recipients x);
            materialized ← _materialize preview arguments context;
            mime_bytes ← _verify_bytes materialized x;
            _ ← of_result (_verify_envelope mime_bytes materialized x);
            parsed ← of_result (parse_message mime_bytes);
            if pm_truncated parsed then raise_prog DefinitiveToolFailure "the complete message cannot be shown"
            else
              _ ← _reconfirm_account x;
              Ret (x, parsed,
                   [("account_id", JStr (xp_account_id x)); ("from_address", JStr (xp_from_address x));
                    ("to", strs (xp_to x)); ("cc", strs (xp_cc x)); ("bcc", strs (xp_bcc x));
                    ("subject", JStr (xp_subject x)); ("body_text", JStr (pm_body_text parsed));
                    ("mime_sha256", JStr (xp_mime_sha256 x));
                    ("attachments", JList (attachment_view <$> pm_attachments parsed))])
    | _ => raise_prog DefinitiveToolFailure "the send action id is missing"
    end.

Definition prepare_call (descriptor preview : ToolDescriptor) (arguments : list (string * json)) (task_id : string)
    (granted workflow : list string) : prog mailE ToolCall :=
  '(x, parsed, _) ← review descriptor preview arguments task_id;
  attachments ← of_result (result_map (fun '(name, sha, size) => make_attachment name sha size) (pm_attachments parsed));
  of_result (check_call
    {| tc_tool_id := td_id descriptor; tc_tool_version := td_version descriptor; tc_arguments := JObj arguments;
       tc_task_id := task_id; tc_target := JObj [("account_id", JStr (xp_account_id x))]; tc_attachments := attachments;
       tc_granted_capabilities := granted; tc_workflow_allowed_tools := workflow; tc_approval_id := None;
       tc_idempotency_key := Some (xp_local_action_id x); tc_form_version := None |}).

(** ** The heartbeat task: [rounds] iterations of its loop, over its own copy of the guard *)

Fixpoint _heartbeat_loop (rounds : nat) (i owner_id : string) (guard : LeaseGuard) : prog mailE LeaseGuard :=
  match rounds with
  | O => Ret guard
  | S rounds =>
      _ ← perform (MSleep _heartbeat_interval);
      monotonic ← perform MMonotonic;
      if remaining_seconds guard monotonic <=? 0 then Ret (lease_invalidate guard)
      else
        attempt_started ← perform MMonotonic;
        prog_match (call (LHeartbeat i owner_id _lease_seconds))
          (fun renewed : bool =>
             if negb renewed then Ret (lease_invalidate guard)
             else
               later ← perform MMonotonic;
               _heartbeat_loop rounds i owner_id (lease_renew guard _lease_seconds attempt_started later))
          (fun e =>
             if exn_is e PyTimeoutError then Ret (lease_invalidate guard)
             else if exn_is e PyException then
               later ← perform MMonotonic;
               if remaining_seconds guard later <=? 0 then Ret (lease_invalidate guard)
               else _heartbeat_loop rounds i owner_id guard
             else Raise e)
  end.
End executor.
