(* ===== verification/MailSafety.v ===== *)
(** * MailSafety: what reaches the mail transport

    Any number of executions, reviews, heartbeats, reconciliations and recovery sweeps share one delivery
    ledger; they interleave at every await, are cancelled and die.  The account registry may have been
    changed in any way whenever it is asked; the extension, the artifact store, the clock and the transport
    answer anything.  [ms_log] records, newest first, every account the registry answered, every action the
    ledger prepared or claimed for a caller, and every message that was handed to the transport. *)

From S2P Require Import Prelude Text Pool Sha256 Json Schemas Domain Tools Gateway PyValue MailModels MailExecutor.
Local Open Scope string_scope.
Local Open Scope Z_scope.

(** What an execution relies on, and the message it hands over: the registry resolved an account, the ledger
    answered PREPARED for an action, the ledger answered EXECUTING for an action and a digest. *)
Inductive mail_event :=
| Resolved (account_id : string) (account : MailAccountRecord)
| Prepared (i : string)
| Claimed (i digest : string)
| Sent (account_id : string) (request : MailDeliveryRequest).

Record mail_sys := { ms_ledger : Ledger; ms_log : list mail_event }.
#[export] Instance mail_sys_eta : Eta mail_sys := fun r => Build_mail_sys (ms_ledger r) (ms_log r).

Definition sent_event (e : mail_event) : option (string * MailDeliveryRequest) :=
  match e with Sent account_id request => Some (account_id, request) | _ => None end.
Definition ms_sent (s : mail_sys) : list (string * MailDeliveryRequest) := omap sent_event (ms_log s).

Import MailDeliveryStatus.

(** What an answer tells the coroutine that asked. *)
Definition ledger_learn (X : Type) (op : ledgerE X) : result X -> list mail_event :=
  match op in ledgerE Y return result Y -> list mail_event with
  | LPrepare record => fun r => match r with Ok PREPARED => [Prepared (mr_local_action_id record)] | _ => [] end
  | LBegin i digest _ _ => fun r => match r with Ok EXECUTING => [Claimed i digest] | _ => [] end
  | _ => fun _ => []
  end.
Definition mail_learn (X : Type) (op : mailE X) : result X -> list mail_event :=
  match op in mailE Y return result Y -> list mail_event with
  | MLedger op => ledger_learn _ op
  | MResolve account_id => fun r => match r with Ok a => [Resolved account_id a] | Err _ => [] end
  | _ => fun _ => []
  end.
(** What is written to the log: a message counts as sent when it is handed over, whatever comes back. *)
Definition mail_noted (X : Type) (op : mailE X) (r : result X) : list mail_event :=
  match op with MSend account_id request => [Sent account_id request] | _ => mail_learn X op r end.

Definition on_ledger {X} (m : M Ledger X) (l l' : Ledger) (r : result X) : Prop := l' = (m l).1 /\ r = (m l).2.

Definition ledger_step (X : Type) (op : ledgerE X) (l l' : Ledger) : result X -> Prop :=
  match op in ledgerE Y return result Y -> Prop with
  | LPrepare record => on_ledger (ledger_prepare record) l l'
  | LBegin i d o t => fun r => exists now, on_ledger (ledger_begin i d o t now) l l' r
  | LFinalize i d st rs sc dc => on_ledger (ledger_finalize i d st rs sc dc) l l'
  | LReconcile i a m st dc => on_ledger (ledger_reconcile i a m st dc) l l'
  | LHeartbeat i o t => fun r => exists now, on_ledger (ledger_heartbeat i o t now) l l' r
  | LRecover owners => fun r => exists now, on_ledger (ledger_recover owners now) l l' r
  | LGet i => on_ledger (ledger_get i) l l'
  end.

Definition mail_step (X : Type) (op : mailE X) (s s' : mail_sys) (r : result X) : Prop :=
  ms_log s' = (mail_noted X op r ++ ms_log s)%list /\
  match op in mailE Y return result Y -> Prop with
  | MLedger op => ledger_step _ op (ms_ledger s) (ms_ledger s')
  | MResolve account_id => fun r => ms_ledger s' = ms_ledger s /\ exists reg, r = (registry_resolve account_id reg).2
  | _ => fun _ => ms_ledger s' = ms_ledger s
  end r.

(** ** The ledger only moves forward *)

Definition rank (s : MailDeliveryStatus.t) : Z :=
  match s with PREPARED => 0 | EXECUTING => 1 | UNKNOWN => 2 | _ => 3 end.

(** A later version of a row. *)
Record later_row (r r' : MailDeliveryRecord) : Prop := {
  lr_same : mr_local_action_id r' = mr_local_action_id r /\ mr_account_id r' = mr_account_id r /\
    mr_message_id r' = mr_message_id r /\ mr_envelope_digest r' = mr_envelope_digest r /\
    mr_mime_sha256 r' = mr_mime_sha256 r;
  lr_rank : rank (mr_status r) <= rank (mr_status r');
  lr_final : rank (mr_status r) = 3 -> mr_status r' = mr_status r
}.

Lemma later_row_refl r : later_row r r.
Proof. split; [done|lia|done]. Qed.

Lemma later_row_trans a b c : later_row a b -> later_row b c -> later_row a c.
Proof.
  intros [Hs Hr Hf] [Hs' Hr' Hf']. split; [intuition congruence|lia|]. intros H. rewrite Hf' by (rewrite Hf; done). by apply Hf.
Qed.

Definition forward (l l' : Ledger) : Prop := forall i r, assoc i l = Some r -> exists r', assoc i l' = Some r' /\ later_row r r'.

Lemma forward_refl l : forward l l.
Proof. intros i r H. exists r. split; [done|apply later_row_refl]. Qed.

Lemma forward_trans l1 l2 l3 : forward l1 l2 -> forward l2 l3 -> forward l1 l3.
Proof.
  intros H1 H2 i r H. destruct (H1 i r H) as (r1 & Hr1 & L1). destruct (H2 i r1 Hr1) as (r2 & Hr2 & L2).
  exists r2. split; [done|]. by eapply later_row_trans.
Qed.

Lemma forward_set l i r r' : assoc i l = Some r -> later_row r r' -> forward l (assoc_set i r' l).
Proof.
  intros Hr Hl j x Hx. destruct (decide (j = i)) as [->|Hn].
  - rewrite assoc_set_same. exists r'. split; [done|]. by simplify_eq.
  - rewrite assoc_set_other by done. exists x. split; [done|apply later_row_refl].
Qed.

Lemma forward_new l i r : assoc i l = None -> forward l (assoc_set i r l).
Proof.
  intros Hn j x Hx. rewrite assoc_set_other by congruence. exists x. split; [done|apply later_row_refl].
Qed.

Ltac unfold_ledger := unfold ledger_prepare, ledger_begin, ledger_finalize, ledger_reconcile, ledger_heartbeat, ledger_recover,
  ledger_get, ledger_state, conflict, mbind, M_bind, mret, M_ret, get_state, put_state, raise in *.

Lemma stale_executing owners now r : is_stale owners now r = true -> mr_status r = EXECUTING.
Proof. unfold is_stale. intros [[H _]%andb_prop _]%andb_prop. by apply bool_decide_eq_true in H. Qed.

Lemma recover_forward owners now l :
  forward l ((fun kv => (kv.1, if is_stale owners now kv.2 then recovered kv.2 else kv.2)) <$> l).
Proof.
  intros i r. induction l as [|[k x] l IH]; [done|]. rewrite fmap_cons. cbn [assoc fst snd]. case_bool_decide as E.
  - intros [= ->]. eexists. split; [done|]. destruct (is_stale owners now r) eqn:Es; [|apply later_row_refl].
    apply stale_executing in Es. split; cbn; [done|by rewrite Es|]. by rewrite Es.
  - apply IH.
Qed.

(** The cases of [ledger_step] that write a row. *)
Ltac row_written := bool_props; (eapply forward_set; [done|]); split; cbn; try done;
  try match goal with H : mr_status ?r = _ |- _ => rewrite H end; cbn; try lia; try done.

Lemma ledger_step_forward X (op : ledgerE X) l l' r : ledger_step X op l l' r -> forward l l'.
Proof.
  destruct op as [record|i d o t|i d st rs sc dc|i a m st dc|i o t|owners|i]; cbn; unfold on_ledger; unfold_ledger.
  - intros [-> _]. destruct (assoc _ _) as [x|] eqn:E; cbn; [repeat case_match|]; cbn; try apply forward_refl. by apply forward_new.
  - intros (now & -> & _). repeat (case_match; cbn); try apply forward_refl. row_written.
  - intros [-> _]. repeat (case_match; cbn); try apply forward_refl. row_written; destruct st; cbn; try lia; done.
  - intros [-> _]. repeat (case_match; cbn); try apply forward_refl; row_written; destruct st; cbn; try lia; done.
  - intros (now & -> & _). repeat (case_match; cbn); try apply forward_refl. row_written.
  - intros (now & -> & _). cbn. apply recover_forward.
  - intros [-> _]. cbn. apply forward_refl.
Qed.

(** ** The coroutines *)

Section safety.
Context (parse_envelope : string -> result (list (string * json))) (parse_message : string -> result ParsedMessage).
Context (policy : option MailPolicy) (call_deadline : Z) (lease_override heartbeat_override : option Z) (executor_owner : string).
Context (has_owners : bool).

Definition quietly {A} (p : prog mailE A) : prog mailE unit := _ ← p; Ret tt.

Inductive mail_client : prog mailE unit -> Prop :=
| client_execute d args ctx : mail_client (quietly
    (mail_execute parse_envelope policy call_deadline lease_override executor_owner has_owners d args ctx))
| client_review d v args t : mail_client (quietly (review parse_envelope parse_message policy call_deadline d v args t))
| client_prepare d v args t g w : mail_client (quietly (prepare_call parse_envelope parse_message policy call_deadline d v args t g w))
| client_heartbeat n i o g : mail_client (quietly (_heartbeat_loop call_deadline lease_override heartbeat_override n i o g))
| client_reconcile i a m st dc : mail_client (quietly (call (LReconcile i a m st dc)))
| client_recover owners : mail_client (quietly (call (LRecover owners)))
| client_get i : mail_client (quietly (call (LGet i))).

Definition mail_pool : mail_sys * list (prog mailE unit) -> mail_sys * list (prog mailE unit) -> Prop :=
  pstep mail_step mail_client.

(** ** What an approval covers *)

(** The items of a JSON list, or a single string. *)
Definition items (v : json) : list json := match v with JList l => l | JStr _ => [v] | _ => [] end.

(** [l] are the addresses that [v] lists, each kept once without regard to case. *)
Definition recipients_of (v : json) (l : list string) : Prop :=
  (forall a, a ∈ l -> JStr a ∈ items v) /\ (forall w, w ∈ items v -> exists a b, w = JStr a /\ b ∈ l /\ lower b = lower a).

(** [v] is a list that mentions [a], up to case and surrounding white space. *)
Definition mentions (v : json) (a : string) : Prop :=
  exists l w, v = JList l /\ w ∈ l /\ blank (py_str w) = false /\ a = lower (strip (py_str w)).
Definition same_addresses (v : json) (l : list string) : Prop :=
  forall a, mentions v a <-> exists b, b ∈ l /\ blank b = false /\ a = lower (strip b).

(** The parsed message is the approved one. *)
Record shows (actual arguments : list (string * json)) (request : MailDeliveryRequest) : Prop := {
  sh_message_id : get_or "message_id" JNull actual = JStr (mq_message_id request);
  sh_subject : str_or_blank "subject" actual = mq_subject request;
  sh_from : lower (str_or_blank "from_address" actual) = lower (mq_from_address request);
  sh_to : same_addresses (get_or "to_addresses" JNull actual) (mq_to request);
  sh_cc : same_addresses (get_or "cc_addresses" JNull actual) (mq_cc request);
  sh_attachments : forall h, mentions (get_or "attachment_hashes" JNull actual) h <->
    JStr h ∈ items (get_or "attachment_hashes" (JList []) arguments)
}.

(** A message an approval of [arguments] stands behind, sent for the last of three confirmations of its account. *)
Record approved (arguments : list (string * json)) (account0 account1 account2 : MailAccountRecord)
    (account_id digest : string) (request : MailDeliveryRequest) : Prop := {
  ap_digest : canonical_sha256 (JObj arguments) = Ok digest;
  ap_action : assoc "local_action_id" arguments = Some (JStr (mq_local_action_id request));
  ap_message_id : assoc "message_id" arguments = Some (JStr (mq_message_id request));
  ap_from : assoc "from_address" arguments = Some (JStr (mq_from_address request));
  ap_subject : assoc "subject" arguments = Some (JStr (mq_subject request));
  ap_to : recipients_of (get_or "to" JNull arguments) (mq_to request);
  ap_cc : recipients_of (get_or "cc" (JList []) arguments) (mq_cc request);
  ap_bcc : recipients_of (get_or "bcc" (JList []) arguments) (mq_bcc request);
  ap_bytes : assoc "mime_sha256" arguments = Some (JStr (sha256_hex (code <$> chars (mq_mime_bytes request))));
  ap_message : exists actual, parse_envelope (mq_mime_bytes request) = Ok actual /\ shows actual arguments request;
  ap_allowed : forall p a, policy = Some p -> a ∈ (mq_to request ++ mq_cc request ++ mq_bcc request)%list ->
    lower (strip a) ∈ mp_allowed_recipients p;
  ap_binding : exists fingerprint, assoc "account_fingerprint" arguments = Some (JStr fingerprint) /\
    account_fingerprint account0 = Ok fingerprint /\ account_fingerprint account1 = Ok fingerprint /\
    account_fingerprint account2 = Ok fingerprint;
  ap_sender : lower (ma_address account0) = lower (mq_from_address request);
  ap_enabled : ma_send_enabled account1 = true /\ ma_send_enabled account2 = true;
  ap_account : account_id = ma_account_id account2
}.

(** The steps before the transport is reached, newest first. *)
Definition path (id i digest : string) (account0 account1 account2 : MailAccountRecord) : list mail_event :=
  [Resolved id account2; Claimed i digest; Prepared i; Resolved id account1; Resolved id account0].

(** The approval behind a message and the steps behind its approval, in a history that ends with the send. *)
Definition approved_after (earlier : list mail_event) (account_id : string) (request : MailDeliveryRequest) (digest : string) : Prop :=
  exists arguments id account0 account1 account2, approved arguments account0 account1 account2 account_id digest request /\
    assoc "account_id" arguments = Some (JStr id) /\
    sublist (path id (mq_local_action_id request) digest account0 account1 account2) earlier.

Definition mail_allowed (X : Type) (kn : list mail_event) (op : mailE X) : Prop :=
  match op with
  | MSend account_id request => exists digest, approved_after kn account_id request digest
  | _ => True
  end.

Definition mail_sound (X : Type) (kn : list mail_event) (op : mailE X) (r : result X) : Prop := True.

Notation mdwp := (dwp mail_allowed mail_sound mail_learn).

(** ** The executions are disciplined *)

(** A program that hands nothing to the transport. *)
Definition sends_nothing {A} (p : prog mailE A) : Prop :=
  forall kn (Q : list mail_event -> result A -> Prop), (forall kn' r, kn `suffix_of` kn' -> Q kn' r) -> mdwp p kn Q.

Lemma silent_ret {A} (a : A) : sends_nothing (Ret a).
Proof. intros kn Q HQ. by apply HQ. Qed.
Lemma silent_raise {A} e : sends_nothing (Raise (A := A) e).
Proof. intros kn Q HQ. by apply HQ. Qed.
Lemma silent_result {A} (r : result A) : sends_nothing (of_result r).
Proof. intros kn Q HQ. by apply dwp_of_result, HQ. Qed.
Lemma silent_perform {X} (op : mailE X) : (forall kn, mail_allowed X kn op) -> sends_nothing (perform op).
Proof. intros Ha kn Q HQ. apply dwp_perform; [done|]. intros ans _. apply HQ. by eexists. Qed.
Lemma silent_match {A B} (p : prog mailE A) (f : A -> prog mailE B) h :
  sends_nothing p -> (forall a, sends_nothing (f a)) -> (forall e, sends_nothing (h e)) -> sends_nothing (prog_match p f h).
Proof.
  intros Hp Hf Hh kn Q HQ. apply dwp_match, Hp. intros kn1 [a|e] H1; [apply Hf|apply Hh]; intros kn2 r H2; apply HQ; by etrans.
Qed.
Lemma silent_bind {A B} (p : prog mailE A) (f : A -> prog mailE B) :
  sends_nothing p -> (forall a, sends_nothing (f a)) -> sends_nothing (p ≫= f).
Proof.
  intros Hp Hf kn Q HQ. apply dwp_bind, Hp. intros kn1 [a|e] H1; [|by apply HQ]. apply Hf. intros kn2 r H2. apply HQ. by etrans.
Qed.
Lemma silent_try {A} (p : prog mailE A) h : sends_nothing p -> (forall e, sends_nothing (h e)) -> sends_nothing (prog_try p h).
Proof.
  intros Hp Hh kn Q HQ. apply dwp_try, Hp. intros kn1 [a|e] H1; [by apply HQ|]. apply Hh. intros kn2 r H2. apply HQ. by etrans.
Qed.

Ltac silent := repeat first
  [ apply silent_ret | apply silent_raise | apply silent_result
  | apply silent_bind; [|intro] | apply silent_match; [|intro|intro] | apply silent_try; [|intro]
  | apply silent_perform; by intros ?
  | case_match | progress unfold raise_prog ].

Lemma silent_finalize_failure i d c : sends_nothing (_finalize_failure i d c).
Proof. unfold _finalize_failure. silent. Qed.
Lemma silent_complete x receipt d m : sends_nothing (_complete x receipt d m).
Proof. unfold _complete. cbv zeta. silent. Qed.
Lemma silent_stop_heartbeat i o : sends_nothing (stop_heartbeat has_owners i o).
Proof. unfold stop_heartbeat. silent. Qed.
Lemma silent_confirm x g c : sends_nothing (confirm_account x g c).
Proof. unfold confirm_account. silent. Qed.
Lemma silent_materialize d args ctx : sends_nothing (_materialize call_deadline d args ctx).
Proof. unfold _materialize. cbv zeta. silent. Qed.
Lemma silent_verify_bytes m x : sends_nothing (_verify_bytes m x).
Proof. unfold _verify_bytes. silent. Qed.
Lemma silent_review d v args t : sends_nothing (review parse_envelope parse_message policy call_deadline d v args t).
Proof.
  unfold review, _resolve_account, _reconfirm_account.
  repeat first [apply silent_confirm | apply silent_materialize | apply silent_verify_bytes | progress silent].
Qed.
Lemma silent_prepare_call d v args t g w :
  sends_nothing (prepare_call parse_envelope parse_message policy call_deadline d v args t g w).
Proof. unfold prepare_call. apply silent_bind; [apply silent_review|]. intros [[x parsed] m]. silent. Qed.
Lemma silent_heartbeat n i o g : sends_nothing (_heartbeat_loop call_deadline lease_override heartbeat_override n i o g).
Proof. revert g. induction n as [|n IH]; intros g; cbn [_heartbeat_loop]; [apply silent_ret|]. repeat first [apply IH | progress silent]. Qed.

(** A program that sends nothing, and then the rest, which knows the steps taken so far. *)
Lemma mdwp_quiet_then {A B} (p : prog mailE A) (f : A -> prog mailE B) kn steps (Q : list mail_event -> result B -> Prop) :
  sublist steps kn -> sends_nothing p -> (forall kn' e, Q kn' (Err e)) ->
  (forall kn' a, sublist steps kn' -> mdwp (f a) kn' Q) -> mdwp (p ≫= f) kn Q.
Proof.
  intros Hs Hp He Hf. apply dwp_bind, Hp. intros kn' [a|e] [l ->]; [|apply He]. apply Hf. by apply sublist_inserts_l.
Qed.

Lemma confirm_account_ok x gone changed kn steps (Q : list mail_event -> result MailAccountRecord -> Prop) :
  sublist steps kn ->
  (forall kn' a, sublist (Resolved (xp_account_id x) a :: steps) kn' -> account_fingerprint a = Ok (xp_account_fingerprint x) ->
    Q kn' (Ok a)) -> (forall kn' e, Q kn' (Err e)) -> mdwp (confirm_account x gone changed) kn Q.
Proof.
  intros Hs HQ He. apply dwp_match, dwp_perform; [done|]. intros [a|e] _; cbn [mail_learn].
  - apply dwp_bind, dwp_of_result. destruct (account_fingerprint a) as [f|] eqn:Hf; [|apply He].
    case_match; [apply He|]. apply HQ; [by apply sublist_skip|]. bool_props. congruence.
  - case_match; apply He.
Qed.

Local Notation any := (fun (_ : list mail_event) (_ : result _) => True).

Lemma dispatch_ok x account bytes digest owner m kn steps :
  (forall kn', sublist steps kn' -> mail_allowed _ kn' (MSend (ma_account_id account) (request_of x bytes))) -> sublist steps kn ->
  mdwp (dispatch has_owners x account bytes digest owner m) kn any.
Proof.
  intros Ha Hs. unfold dispatch. cbv zeta.
  apply (mdwp_quiet_then _ _ _ steps); [done|silent|done|]. intros kn1 [] S1.
  apply (mdwp_quiet_then _ _ _ steps); [done|silent|done|]. intros kn2 [] S2.
  apply dwp_bind, dwp_match, dwp_try, dwp_perform; [by apply Ha|].
  assert (forall kn (r : result MailDeliveryReceipt), match r with
    | Ok a => mdwp (_complete x a digest m) kn any | Err _ => True end) as Hdone.
  { intros kn3 [receipt|]; [|done]. by apply silent_complete. }
  pose proof (fun A B p f kn Q => @mdwp_quiet_then A B p f kn [] Q (sublist_nil_l kn)) as Hq.
  intros [receipt|e] _.
  - apply Hq; [apply silent_stop_heartbeat|done|]. intros. by apply (Hdone _ (Ok receipt)).
  - case_match; [|apply Hq; [apply silent_stop_heartbeat|done|done]].
    apply Hq; [apply silent_finalize_failure| |].
    + intros kn' e'. apply Hq; [apply silent_stop_heartbeat|done|done].
    + intros kn' [] _. case_match; apply Hq; try done; apply silent_stop_heartbeat.
Qed.

Lemma claimed_ok x bytes digest owner started m kn steps :
  (forall kn' account, sublist (Resolved (xp_account_id x) account :: steps) kn' ->
    account_fingerprint account = Ok (xp_account_fingerprint x) -> ma_send_enabled account = true ->
    mail_allowed _ kn' (MSend (ma_account_id account) (request_of x bytes))) -> sublist steps kn ->
  mdwp (claimed call_deadline lease_override has_owners x bytes digest owner started m) kn any.
Proof.
  intros Ha Hs. unfold claimed. cbv zeta. eapply dwp_bind, confirm_account_ok; [exact Hs| |done]. intros kn1 account S1 Hf.
  destruct (ma_send_enabled account) eqn:He; cbn [negb].
  - eapply mdwp_quiet_then; [exact S1|silent|done|]. intros kn2 t S2. case_match; [done|].
    eapply dispatch_ok; [|exact S2]. intros kn' S'. by apply Ha.
  - eapply mdwp_quiet_then; [exact S1|apply silent_finalize_failure|done|done].
Qed.

Lemma prepare_and_claim_ok x arguments account1 bytes m kn steps :
  (forall kn' digest account, canonical_sha256 (JObj arguments) = Ok digest ->
    sublist (Resolved (xp_account_id x) account :: Claimed (xp_local_action_id x) digest :: Prepared (xp_local_action_id x) :: steps) kn' ->
    account_fingerprint account = Ok (xp_account_fingerprint x) -> ma_send_enabled account = true ->
    mail_allowed _ kn' (MSend (ma_account_id account) (request_of x bytes))) -> sublist steps kn ->
  mdwp (prepare_and_claim call_deadline lease_override executor_owner has_owners x arguments account1 bytes m) kn any.
Proof.
  intros Ha Hs. unfold prepare_and_claim. cbv zeta. apply dwp_bind, dwp_of_result.
  destruct (canonical_sha256 (JObj arguments)) as [digest|] eqn:Hd; [|done].
  apply dwp_bind, dwp_try, dwp_perform; [done|]. intros [state|e] _; [|by repeat case_match].
  destruct state; cbn [terminal]; try (by apply dwp_of_result); [|done]. cbn [bool_decide decide_rel decide].
  rewrite bool_decide_eq_false_2 by done.
  eapply (mdwp_quiet_then _ _ _ (Prepared (xp_local_action_id x) :: steps)); [by apply sublist_skip|silent|done|]. intros kn1 hex S1.
  eapply mdwp_quiet_then; [exact S1|silent|done|]. intros kn2 t S2.
  apply dwp_bind, dwp_try, dwp_perform; [done|]. intros [state|e] _; [|by repeat case_match].
  destruct state; cbn [terminal]; try (by apply dwp_of_result); [done|]. rewrite bool_decide_eq_true_2 by done. cbn [negb].
  apply (claimed_ok _ _ _ _ _ _ _ (Claimed (xp_local_action_id x) digest :: Prepared (xp_local_action_id x) :: steps)); [|by apply sublist_skip].
  intros kn' account. by apply Ha.
Qed.

Lemma verify_bytes_ok m x kn steps (Q : list mail_event -> result string -> Prop) : sublist steps kn ->
  (forall kn' e, Q kn' (Err e)) ->
  (forall kn' data, sublist steps kn' -> sha256_hex (code <$> chars data) = xp_mime_sha256 x -> Q kn' (Ok data)) ->
  mdwp (_verify_bytes m x) kn Q.
Proof.
  intros Hs He HQ. unfold _verify_bytes. case_match; try apply He. case_match; [apply He|]. case_match; [apply He|].
  apply dwp_bind, dwp_try, dwp_perform; [done|]. intros [data|e] _; [|case_match; apply He].
  case_match; [apply He|]. bool_props. by apply HQ.
Qed.

(** ** The checks of an execution make its message approved *)

Lemma expectations_read args ctx x : _expectations args ctx = Ok x ->
  read_arguments args = Ok x /\ xp_local_action_id x = x_idempotency_key ctx.
Proof.
  unfold _expectations, raise_if. destruct (read_arguments args) as [y|e]; [|cbn; repeat case_match; done].
  cbn. repeat case_match; cbn; try done. intros [= <-]. bool_props. done.
Qed.

Lemma text_value b v s : _text b v = Ok s -> v = JStr s.
Proof. unfold _text. destruct v as [| | | |t| | |]; try done. repeat case_match; try done. by intros [= ->]. Qed.

Lemma text_argument b args k s : _text b (get_or k JNull args) = Ok s -> assoc k args = Some (JStr s).
Proof. intros Hd%text_value. unfold get_or in Hd. destruct (assoc k args); [|done]. by cbn in Hd; subst. Qed.

Lemma digest_value v s : _digest v = Ok s -> v = JStr s.
Proof. unfold _digest. destruct v as [| | | |t| | |]; try done. repeat case_match; try done. by intros [= ->]. Qed.

Lemma digest_argument args k s : _digest (get_or k JNull args) = Ok s -> assoc k args = Some (JStr s).
Proof. intros Hd%digest_value. unfold get_or in Hd. destruct (assoc k args); [|done]. by cbn in Hd; subst. Qed.

Lemma collected_addresses seen l ys : collect_addresses seen l = Ok ys ->
  (forall a, a ∈ ys -> JStr a ∈ l) /\
  (forall w, w ∈ l -> exists a, w = JStr a /\ (lower a ∈ seen \/ exists b, b ∈ ys /\ lower b = lower a)).
Proof.
  revert seen ys; induction l as [|v l IH]; intros seen ys; cbn [collect_addresses].
  - intros [= <-]. split; intros ? ?%not_elem_of_nil; done.
  - rewrite result_bind_Ok. intros (a & ->%text_value & Hr).
    destruct (negb (has_at a)); [done|]. destruct (mem_b (lower a) seen) eqn:Em.
    + destruct (IH seen ys Hr) as [H1 H2]. split; [intros b Hb; right; by apply H1|]. intros w [->|Hw]%elem_of_cons; [|by apply H2].
      exists a. split; [done|]. left. by apply mem_b_true.
    + apply result_bind_Ok in Hr as (rest & Hrest & [= <-]). destruct (IH _ _ Hrest) as [H1 H2]. split.
      * intros b [->|Hb]%elem_of_cons; [by left|right; by apply H1].
      * intros w [->|Hw]%elem_of_cons; [exists a; split; [done|]; right; exists a; split; [by left|done]|].
        destruct (H2 w Hw) as (b & -> & [[Hb|Hb]%elem_of_cons|(c & Hc & Hcb)]); exists b; (split; [done|]).
        -- right. exists a. split; [by left|done].
        -- by left.
        -- right. exists c. split; [by right|done].
Qed.

Lemma addresses_recipients v l : _addresses v = Ok l -> recipients_of v l.
Proof.
  assert (forall l', collect_addresses [] l' = Ok l -> (forall a, a ∈ l -> JStr a ∈ l') /\
    (forall w, w ∈ l' -> exists a b, w = JStr a /\ b ∈ l /\ lower b = lower a)) as Hc.
  { intros l' [H1 H2]%collected_addresses. split; [done|]. intros w Hw. destruct (H2 w Hw) as (a & -> & [?%not_elem_of_nil|(b & Hb & E)]); [done|].
    by exists a, b. }
  unfold _addresses, recipients_of. destruct v as [| | | |t|l'| |]; cbn [items]; try done.
  - intros [= <-]. split; intros ? ?%not_elem_of_nil; done.
  - rewrite result_bind_Ok. intros (ys & Hys & Hlim). destruct (100 <? _); [done|]. injection Hlim as ->. by apply Hc.
  - rewrite result_bind_Ok. intros (ys & Hys & Hlim). destruct (100 <? _); [done|]. injection Hlim as ->. by apply Hc.
Qed.

Lemma digests_items v hashes : _digests v = Ok hashes -> forall h, h ∈ hashes <-> JStr h ∈ items v.
Proof.
  unfold _digests. destruct v as [| | | | |l| |]; try done. destruct (64 <? _); [done|]. intros Hm%result_map_Ok h. cbn [items].
  assert (l = JStr <$> hashes) as ->. { induction Hm as [|v y l ys Hv _ IH]; [done|]. rewrite fmap_cons. f_equal; [by apply digest_value|exact IH]. }
  rewrite list_elem_of_fmap. split; [by exists h|]. intros (h' & [= ->] & ?). done.
Qed.

(** What the arguments of a send read as. *)
Lemma reads_arguments args x : read_arguments args = Ok x ->
  assoc "account_id" args = Some (JStr (xp_account_id x)) /\ assoc "local_action_id" args = Some (JStr (xp_local_action_id x)) /\
  assoc "account_fingerprint" args = Some (JStr (xp_account_fingerprint x)) /\
  assoc "message_id" args = Some (JStr (xp_message_id x)) /\ assoc "from_address" args = Some (JStr (xp_from_address x)) /\
  recipients_of (get_or "to" JNull args) (xp_to x) /\ recipients_of (get_or "cc" (JList []) args) (xp_cc x) /\
  recipients_of (get_or "bcc" (JList []) args) (xp_bcc x) /\ assoc "subject" args = Some (JStr (xp_subject x)) /\
  assoc "mime_sha256" args = Some (JStr (xp_mime_sha256 x)) /\
  forall h, h ∈ xp_attachment_hashes x <-> JStr h ∈ items (get_or "attachment_hashes" (JList []) args).
Proof.
  unfold read_arguments. cbv zeta. intros Hx.
  apply result_bind_Ok in Hx as (? & ?%text_argument & Hx). apply result_bind_Ok in Hx as (? & ?%text_argument & Hx).
  apply result_bind_Ok in Hx as (? & ?%digest_argument & Hx). apply result_bind_Ok in Hx as (? & ?%text_argument & Hx).
  apply result_bind_Ok in Hx as (? & _ & Hx).
  apply result_bind_Ok in Hx as (? & ?%text_argument & Hx). apply result_bind_Ok in Hx as (? & ?%text_argument & Hx).
  apply result_bind_Ok in Hx as (? & ?%addresses_recipients & Hx). apply result_bind_Ok in Hx as (? & ?%addresses_recipients & Hx).
  apply result_bind_Ok in Hx as (? & ?%addresses_recipients & Hx). apply result_bind_Ok in Hx as (? & ?%text_argument & Hx).
  apply result_bind_Ok in Hx as (? & ?%digest_argument & Hx). apply result_bind_Ok in Hx as (? & Hd & [= <-]).
  split_and!; try done. by apply digests_items.
Qed.

Lemma normalized_mentions v a : a ∈ _normalized v <-> mentions v a.
Proof.
  unfold mentions. split.
  - unfold _normalized. destruct v as [| | | | |l| |]; try (by intros ?%not_elem_of_nil). intros (w & -> & Hw)%list_elem_of_fmap.
    rewrite list_elem_of_In, List.filter_In, negb_true_iff, <- list_elem_of_In in Hw. exists l, w. by destruct Hw.
  - intros (l & w & -> & Hw & Hb & ->). apply list_elem_of_fmap. exists w. split; [done|].
    by rewrite list_elem_of_In, List.filter_In, negb_true_iff, <- list_elem_of_In.
Qed.

Lemma same_set_spec l k : same_set l k = true -> forall a, a ∈ l <-> a ∈ k.
Proof.
  unfold same_set. rewrite andb_true_iff, !forallb_forall. intros [H1 H2] a. rewrite !list_elem_of_In.
  split; [intros Ha%H1|intros Ha%H2]; by apply mem_b_true, list_elem_of_In in Ha.
Qed.

Lemma same_addresses_spec v l : same_set (_normalized v) (_normalized (strs l)) = true -> same_addresses v l.
Proof.
  intros Hs a. rewrite <- normalized_mentions, (same_set_spec _ _ Hs), normalized_mentions. unfold mentions, strs. split.
  - intros (l' & w & [= <-] & (b & -> & Hb)%list_elem_of_fmap & Hn & ->). by exists b.
  - intros (b & Hb & Hn & ->). eexists _, (JStr b). split_and!; [done| |done|done]. apply list_elem_of_fmap. by exists b.
Qed.

Lemma verified_shows args x m bytes : read_arguments args = Ok x -> _verify_envelope parse_envelope bytes m x = Ok tt ->
  exists actual, parse_envelope bytes = Ok actual /\ shows actual args (request_of x bytes).
Proof.
  intros Hx Hv. unfold _verify_envelope in Hv. cbv zeta in Hv. apply result_bind_Ok in Hv as (actual & Ha & Hv). exists actual. split; [done|].
  apply result_bind_Ok in Hv as ([] & H1%raise_if_Ok%negb_false_iff & Hv). apply result_bind_Ok in Hv as ([] & H2%raise_if_Ok%negb_false_iff & Hv).
  apply result_bind_Ok in Hv as ([] & H3%raise_if_Ok%negb_false_iff & Hv). apply result_bind_Ok in Hv as ([] & H4%raise_if_Ok%negb_false_iff & Hv).
  apply result_bind_Ok in Hv as ([] & H5%raise_if_Ok%negb_false_iff & Hv). apply result_bind_Ok in Hv as (bcc & _ & Hv).
  apply result_bind_Ok in Hv as ([] & _ & Hv). apply result_bind_Ok in Hv as (hashes & _ & Hv).
  apply raise_if_Ok, negb_false_iff, andb_true_iff in Hv as [_ H6]. bool_props. split; cbn; [|done|done|by apply same_addresses_spec..|].
  - destruct (get_or "message_id" JNull actual); try done. cbn in H1. by apply bool_decide_eq_true in H1 as ->.
  - intros h. rewrite <- normalized_mentions, (same_set_spec _ _ H6). by apply reads_arguments.
Qed.

Lemma checked_approved args x account0 account1 account2 digest bytes m :
  read_arguments args = Ok x -> canonical_sha256 (JObj args) = Ok digest -> check_recipients policy x = Ok tt ->
  sha256_hex (code <$> chars bytes) = xp_mime_sha256 x -> _verify_envelope parse_envelope bytes m x = Ok tt ->
  account_fingerprint account0 = Ok (xp_account_fingerprint x) -> account_fingerprint account1 = Ok (xp_account_fingerprint x) ->
  account_fingerprint account2 = Ok (xp_account_fingerprint x) -> lower (ma_address account0) = lower (xp_from_address x) ->
  ma_send_enabled account1 = true -> ma_send_enabled account2 = true ->
  approved args account0 account1 account2 (ma_account_id account2) digest (request_of x bytes).
Proof.
  intros Hx Hd Hr Hb Hv H0 H1 H2 Hs He1 He2. destruct (reads_arguments args x Hx) as (A1 & A2 & A3 & A4 & A5 & A6 & A7 & A8 & A9 & A10 & _).
  split; try done; [by cbn [request_of mq_mime_bytes]; rewrite Hb|by eapply verified_shows| |by exists (xp_account_fingerprint x)].
  intros p a -> Ha. unfold check_recipients in Hr. apply raise_if_Ok, negb_false_iff in Hr. rewrite forallb_forall in Hr.
  by apply list_elem_of_In, Hr, mem_b_true in Ha.
Qed.

Lemma mail_execute_ok d args ctx : mdwp
  (mail_execute parse_envelope policy call_deadline lease_override executor_owner has_owners d args ctx) [] any.
Proof.
  unfold mail_execute. case_match; [done|]. apply dwp_bind, dwp_of_result.
  destruct (_expectations args ctx) as [x|] eqn:Hx; [|done]. apply expectations_read in Hx as [Hx _].
  eapply dwp_bind, confirm_account_ok; [apply sublist_nil_l| |done]. intros kn1 account0 S1 Hf0. case_match; [done|]. bool_props.
  apply dwp_bind, dwp_of_result. destruct (check_recipients policy x) as [[]|] eqn:Hr; [|done].
  eapply mdwp_quiet_then; [exact S1|apply silent_materialize|done|]. intros kn2 m S2.
  eapply dwp_bind, verify_bytes_ok; [exact S2|done|]. intros kn3 bytes S3 Hb.
  apply dwp_bind, dwp_of_result. destruct (_verify_envelope parse_envelope bytes m x) as [[]|] eqn:Hv; [|done].
  eapply dwp_bind, confirm_account_ok; [exact S3| |done]. intros kn4 account1 S4 Hf1. destruct (ma_send_enabled account1) eqn:He1; [|done].
  cbn [negb]. eapply mdwp_quiet_then; [exact S4|silent|done|]. intros kn5 b S5. case_match; [done|].
  eapply prepare_and_claim_ok; [|exact S5]. intros kn' digest account2 Hd S' Hf2 He2.
  destruct (reads_arguments args x Hx) as (Hid & _). exists digest, args, (xp_account_id x), account0, account1, account2.
  split_and!; [by eapply checked_approved|done|exact S'].
Qed.

Lemma mail_client_ok p : mail_client p -> mdwp p [] any.
Proof.
  assert (forall A (q : prog mailE A), mdwp q [] any -> mdwp (quietly q) [] any) as Hq.
  { intros A q H1. apply dwp_bind. eapply dwp_mono; [|exact H1]. by intros kn []. }
  destruct 1; apply Hq; [apply mail_execute_ok|by apply silent_review|by apply silent_prepare_call|by apply silent_heartbeat|
    (apply dwp_perform; done)..].
Qed.

(** ** The global invariant *)

Definition unclaimed_in (l : Ledger) (i : string) : Prop := forall row, assoc i l = Some row -> mr_status row = PREPARED.
Definition claimed_in (l : Ledger) (i digest : string) : Prop :=
  exists row, assoc i l = Some row /\ mr_envelope_digest row = digest /\ mr_status row <> PREPARED.

(** A message that was sent after [earlier], with the ledger as it was at the start and as it is now. *)
Definition justified (l0 l : Ledger) (earlier : list mail_event) (account_id : string) (request : MailDeliveryRequest) : Prop :=
  exists digest, approved_after earlier account_id request digest /\
    unclaimed_in l0 (mq_local_action_id request) /\ claimed_in l (mq_local_action_id request) digest.

Definition event_holds (l0 l : Ledger) (e : mail_event) : Prop :=
  match e with Prepared i => unclaimed_in l0 i | Claimed i digest => claimed_in l i digest | _ => True end.

Definition sent_justified (l0 l : Ledger) (H : list mail_event) : Prop :=
  forall later account_id request earlier, H = (later ++ Sent account_id request :: earlier)%list -> justified l0 l earlier account_id request.

(** [H] is the log since the start. *)
Record mail_inv (s0 s : mail_sys) (H : list mail_event) : Prop := {
  mi_log : ms_log s = (H ++ ms_log s0)%list;
  mi_forward : forward (ms_ledger s0) (ms_ledger s);
  mi_events : Forall (event_holds (ms_ledger s0) (ms_ledger s)) H;
  mi_sent : sent_justified (ms_ledger s0) (ms_ledger s) H
}.

Lemma not_prepared_rank st : st <> PREPARED <-> 1 <= rank st.
Proof. destruct st; cbn; split; try done; lia. Qed.

Lemma claimed_forward l l' i d : forward l l' -> claimed_in l i d -> claimed_in l' i d.
Proof.
  intros Hf (row & Hr & Hd & Hs). destruct (Hf i row Hr) as (row' & Hr' & [Hsame Hrank _]). exists row'.
  rewrite not_prepared_rank in Hs |- *. split_and!; [done|intuition congruence|lia].
Qed.

Lemma event_later l0 l l' e : forward l l' -> event_holds l0 l e -> event_holds l0 l' e.
Proof. intros Hf. destruct e; cbn; [done|done|by apply claimed_forward|done]. Qed.

Lemma sent_later l0 l l' H e : forward l l' -> sent_event e = None -> sent_justified l0 l H -> sent_justified l0 l' (e :: H).
Proof.
  intros Hf He Hj later account_id request earlier Heq. destruct later as [|x later]; cbn in Heq; [by injection Heq as -> _|].
  injection Heq as _ Heq. destruct (Hj _ _ _ _ Heq) as (digest & Ha & Hu & Hc). exists digest. split_and!; [done..|]. by eapply claimed_forward.
Qed.

Lemma sent_forward l0 l l' H : forward l l' -> sent_justified l0 l H -> sent_justified l0 l' H.
Proof.
  intros Hf Hj later account_id request earlier Heq. destruct (Hj _ _ _ _ Heq) as (digest & Ha & Hu & Hc). exists digest.
  split_and!; [done..|]. by eapply claimed_forward.
Qed.

(** The ledger moves forward and something other than a message is logged. *)
Lemma mail_inv_later s0 s s' H new : mail_inv s0 s H -> forward (ms_ledger s) (ms_ledger s') ->
  ms_log s' = (new ++ ms_log s)%list -> Forall (event_holds (ms_ledger s0) (ms_ledger s')) new -> Forall (fun e => sent_event e = None) new ->
  mail_inv s0 s' (new ++ H).
Proof.
  intros [Hl Hf Hh Hj] Hf' Hl' Hn Hs. split.
  - by rewrite Hl', Hl, app_assoc.
  - by eapply forward_trans.
  - apply Forall_app. split; [done|]. eapply Forall_impl; [exact Hh|]. intros e. by apply event_later.
  - apply (sent_forward _ _ _ _ Hf') in Hj. clear Hn Hl'. induction Hs as [|e new He _ IH]; [done|].
    cbn [app]. eapply sent_later; [apply forward_refl|done|exact IH].
Qed.

(** The answers of the ledger tell the truth. *)
Lemma ledger_facts l0 X (op : ledgerE X) l l' r : forward l0 l -> ledger_step X op l l' r ->
  Forall (event_holds l0 l') (ledger_learn X op r).
Proof.
  intros Hf. destruct op as [record|i d o t| | | | |]; cbn; try (by intros); unfold on_ledger; unfold_ledger.
  - intros [-> ->]. destruct (assoc _ _) as [x|] eqn:E; cbn.
    + case_match; cbn; [done|]. destruct (mr_status x) eqn:Hx; try done. repeat constructor; cbn. intros row Hrow.
      destruct (Hf _ _ Hrow) as (row' & Hr' & [_ Hrank _]). simplify_eq. rewrite Hx in Hrank. by destruct (mr_status row).
    + repeat constructor; cbn. intros row Hrow. destruct (Hf _ _ Hrow) as (row' & Hr' & _). congruence.
  - intros (now & -> & ->). repeat (case_match; cbn); try done; repeat constructor; cbn; simplify_eq; bool_props.
    + eexists. rewrite assoc_set_same. split; [done|]. cbn. split; [done|done].
    + eexists. split; [done|]. split; [done|congruence].
Qed.

Lemma learn_no_message X (op : mailE X) r : Forall (fun e => sent_event e = None) (mail_learn X op r).
Proof. destruct op as [X op|i| | | | | | | | |]; cbn; try done; [destruct op; cbn; repeat case_match; by repeat constructor|]. destruct r; by repeat constructor. Qed.

(** A message handed to the transport by a caller that knows its path. *)
Lemma mail_inv_send s0 s s' H kn account_id request : mail_inv s0 s H -> sublist kn H -> mail_allowed _ kn (MSend account_id request) ->
  ms_ledger s' = ms_ledger s -> ms_log s' = Sent account_id request :: ms_log s -> mail_inv s0 s' (Sent account_id request :: H).
Proof.
  intros [Hl Hf Hh Hj] Hk (digest & args & id & a0 & a1 & a2 & Hap & Hid & Hpath) Hled Hlog.
  split; rewrite ?Hled; [by rewrite Hlog, Hl|done|by constructor|]. intros later acc req earlier Heq. destruct later as [|x later]; cbn in Heq.
  - injection Heq as -> -> ->. assert (sublist (path id (mq_local_action_id req) digest a0 a1 a2) earlier) as Hp by (by etrans).
    assert (forall e, e ∈ path id (mq_local_action_id req) digest a0 a1 a2 -> event_holds (ms_ledger s0) (ms_ledger s) e) as Hhold.
    { intros e He. apply (proj1 (Forall_forall _ _) Hh). eapply elem_of_submseteq; [exact He|]. by apply sublist_submseteq. }
    exists digest. split_and!; [by exists args, id, a0, a1, a2| |].
    + apply (Hhold (Prepared _)). unfold path. set_solver.
    + apply (Hhold (Claimed _ _)). unfold path. set_solver.
  - injection Heq as _ Heq. by eapply Hj.
Qed.

Lemma mail_step_inv s0 X (op : mailE X) s s' r H kn : mail_inv s0 s H -> sublist kn H -> mail_allowed X kn op ->
  mail_step X op s s' r ->
  exists H', (forall kn', sublist kn' H -> sublist kn' H') /\ mail_inv s0 s' H' /\ sublist (mail_learn X op r ++ kn)%list H' /\
    mail_sound X kn op r.
Proof.
  intros Hi Hk Ha [Hlog Hs]. exists (mail_noted X op r ++ H)%list. split_and!; [intros kn' Hk'; by apply sublist_inserts_l| | |done].
  - destruct op as [X op|i| | | | | | | |account_id request|]; try (by apply (mail_inv_later _ s); [|rewrite Hs; apply forward_refl|..]).
    + apply (mail_inv_later _ s); [done|by eapply ledger_step_forward|done| |by apply (learn_no_message _ (MLedger op))].
      eapply ledger_facts; [by apply Hi|done].
    + destruct Hs as [Hs _]. apply (mail_inv_later _ s); [done|rewrite Hs; apply forward_refl|done| |apply (learn_no_message _ (MResolve i))].
      cbn. destruct r; by repeat constructor.
    + by eapply mail_inv_send.
  - destruct op; try (by apply sublist_app). by apply sublist_cons.
Qed.

Lemma mail_cancel_sound X (op : mailE X) kn : mail_sound X kn op (Err cancelled) /\ mail_learn X op (Err cancelled) = [].
Proof. split; [done|]. destruct op as [? [] | | | | | | | | | | ]; done. Qed.

Lemma mail_pool_inv s c : star mail_pool (s, []) c -> exists H, mail_inv s c.1 H.
Proof.
  intros Hs. destruct (pool_below mail_step mail_client mail_allowed mail_sound mail_learn (mail_inv s) sublist
    (mail_step_inv s) sublist_nil_l mail_cancel_sound mail_client_ok [] (s, []) c Hs) as (H & _ & Hi & _); [|by exists H].
  split; [|exists []; constructor]. split; [done|apply forward_refl|done|]. intros [] ? ? ?; done.
Qed.

(** C5. Every message that is handed to the mail transport stands on an approval, and the checks were made in
    order.  However executions, reviews, heartbeats, reconciliations and recovery sweeps interleave, are
    cancelled and die: a message sent since the start carries the action id, message id, sender, subject and
    recipients of some arguments; its bytes have the hash these name and parse to a message with that
    envelope and those attachments; its recipients are on the allowlist of the policy.  Before the send, in
    this order, the registry answered the account of the arguments with the fingerprint they name, its
    address being the sender; answered it again, enabled; the ledger prepared the action; the ledger claimed
    it under the digest of exactly these arguments; and the registry answered the account a third time, with
    the same fingerprint and enabled.  The ledger row of the action was not claimed at the start and is
    claimed under that digest now. *)
Theorem sent_mail_is_approved s c later account_id request earlier :
  ms_log s = [] -> star mail_pool (s, []) c -> ms_log c.1 = (later ++ Sent account_id request :: earlier)%list ->
  justified (ms_ledger s) (ms_ledger c.1) earlier account_id request.
Proof.
  intros Hnil Hs Hlog. destruct (mail_pool_inv _ _ Hs) as [H [Hl _ _ Hj]]. rewrite Hnil, app_nil_r in Hl. apply (Hj later). by rewrite <- Hl.
Qed.

Lemma filter_none {A} (f : A -> bool) l : Forall (fun x => f x = false) l -> List.filter f l = [].
Proof. induction 1 as [|x l Hx _ IH]; [done|]. cbn. by rewrite Hx. Qed.

Definition sent_for (i : string) (s : mail_sys) : list (string * MailDeliveryRequest) :=
  List.filter (fun sent => bool_decide (mq_local_action_id sent.2 = i)) (ms_sent s).

(** C9. After a restart nothing is sent twice.  Once the ledger row of an action has left PREPARED and no
    execution is in flight, no later history of executions, retries, crashes and recoveries hands another
    message of that action to the transport, and the row only moves forward: it keeps its account, message
    and digests, never returns to an earlier status and never leaves a final one. *)
Theorem claimed_mail_is_never_sent_again s c i row :
  star mail_pool (s, []) c -> assoc i (ms_ledger s) = Some row -> mr_status row <> PREPARED ->
  sent_for i c.1 = sent_for i s /\ exists row', assoc i (ms_ledger c.1) = Some row' /\ later_row row row'.
Proof.
  intros Hs Hr Hst. destruct (mail_pool_inv _ _ Hs) as [H [Hl Hf _ Hj]]. split; [|by apply Hf].
  unfold sent_for, ms_sent. rewrite Hl, omap_app, List.filter_app, (filter_none _ (omap sent_event H)); [done|].
  apply Forall_forall. intros [a q] (e & He & Hq)%list_elem_of_omap. destruct e as [| | |a' q']; try done. injection Hq as -> ->.
  apply list_elem_of_split in He as (later & earlier & ->). destruct (Hj _ _ _ _ eq_refl) as (_ & _ & Hu & _).
  apply bool_decide_eq_false. intros He. cbn in He. by rewrite He in Hu; apply Hu in Hr.
Qed.

End safety.

(** ** A concrete host *)

Module MailScenario.
Definition or_blank (r : result string) : string := match r with Ok s => s | Err _ => "" end.

Definition account : MailAccountRecord := {|
  ma_account_id := "work"; ma_address := "me@example.org"; ma_imap_host := "imap.example.org";
  ma_smtp_host := "smtp.example.org"; ma_secret_handle_id := "h1"; ma_imap_port := 993; ma_smtp_port := 465;
  ma_display_name := ""; ma_read_enabled := true; ma_send_enabled := true; ma_tls_mode := "auto"; ma_generation := 0 |}.
Definition account_print : string := Eval vm_compute in or_blank (account_fingerprint account).
Definition body : string := "hello".
Definition body_sha : string := Eval vm_compute in sha256_hex (code <$> chars body).

Definition send_tool : ToolDescriptor := {|
  td_id := "mail.send"; td_version := "1"; td_extension_id := "smail"; td_input_schema := JObj []; td_output_schema := JObj [];
  td_risk := EXTERNAL_WRITE; td_extension_version := Some "1"; td_required_capabilities := [MAIL_SEND_CAPABILITY];
  td_timeout_seconds := seconds 30; td_retry_policy := RETRY_NONE; td_data_classes_in := []; td_data_classes_out := [] |}.
Definition arguments : list (string * json) := [
  ("local_action_id", JStr "a1"); ("account_id", JStr "work"); ("account_fingerprint", JStr account_print);
  ("draft_id", JStr "d1"); ("draft_version", JInt 1); ("message_id", JStr "<m1>"); ("from_address", JStr "me@example.org");
  ("to", JList [JStr "you@example.org"]); ("subject", JStr "hi"); ("mime_sha256", JStr body_sha)].
Definition context : ToolExecutionContext :=
  {| x_attempt_id := "t1"; x_task_id := "task"; x_idempotency_key := "a1"; x_approval_id := Some "p1" |}.
Definition parse_ok (_ : string) : result (list (string * json)) := Ok [
  ("message_id", JStr "<m1>"); ("subject", JStr "hi"); ("from_address", JStr "me@example.org");
  ("to_addresses", JList [JStr "you@example.org"])].
Definition parsed (_ : string) : result ParsedMessage := Ok {| pm_body_text := body; pm_truncated := false; pm_attachments := [] |}.

Definition execution : prog mailE unit :=
  quietly (mail_execute parse_ok None (seconds 30) None "host" true send_tool arguments context).

Definition receipt (q : MailDeliveryRequest) : MailDeliveryReceipt :=
  {| mc_local_action_id := mq_local_action_id q; mc_message_id := mq_message_id q; mc_status := SUCCEEDED;
     mc_recipient_results := []; mc_server_code := Some "250" |}.

Definition through {X} (m : M Ledger X) (s : mail_sys) : mail_sys * result X :=
  (s {{ ms_ledger := (m (ms_ledger s)).1 }}, (m (ms_ledger s)).2).

Definition answer (X : Type) (op : mailE X) : M mail_sys X := fun s =>
  match op in mailE Y return mail_sys * result Y with
  | @MLedger Y op => match op in ledgerE Z return mail_sys * result Z with
      | LPrepare r => through (ledger_prepare r) s
      | LBegin i d o t => through (ledger_begin i d o t 0) s
      | LFinalize i d st rs sc dc => through (ledger_finalize i d st rs sc dc) s
      | LReconcile i a m st dc => through (ledger_reconcile i a m st dc) s
      | LHeartbeat i o t => through (ledger_heartbeat i o t 0) s
      | LRecover owners => through (ledger_recover owners 0) s
      | LGet i => through (ledger_get i) s
      end
  | MResolve i =>
      (s, (registry_resolve i (registry_init [account])).2)
  | MSendAvailable => (s, Ok true)
  | MInvokeTool _ _ _ _ _ _ _ => (s, Ok [("outcome", JStr "SUCCEEDED");
      ("output", JObj [("mime_artifact_id", JStr "f1"); ("mime_sha256", JStr body_sha)])])
  | MReadArtifact _ => (s, Ok body)
  | MMonotonic => (s, Ok 0)
  | MSleep _ | MOwner _ _ | MHeartbeatTask _ _ _ => (s, Ok tt)
  | MSend a q => (s, Ok (receipt q))
  | @MEnv Y op => (s, match op in envE Z return result Z with Now => Ok 0 | NewUuid => Ok "u" | NewToken => Ok "n" end)
  end.

Definition host (X : Type) (op : mailE X) : M mail_sys X := fun s =>
  let '(s', r) := answer X op s in (s' {{ ms_log := (mail_noted X op r ++ ms_log s)%list }}, r).

Lemma host_steps X (op : mailE X) s : mail_step X op s (host X op s).1 (host X op s).2.
Proof.
  destruct op as [X op| | | | | | | | | |]; try done; [|split; [done|]; split; [done|]; by exists (registry_init [account])].
  split; [by destruct op|]. destruct op; try done; by exists 0.
Qed.

Definition nothing : mail_sys := {| ms_ledger := []; ms_log := [] |}.
Definition pool := mail_pool parse_ok parsed None (seconds 30) None None "host" true.

Definition after (js : list nat) (ts : list (prog mailE unit)) : mail_sys * list (prog mailE unit) :=
  run_schedule host js (nothing, ts).

Lemma arrives (ts : list (prog mailE unit)) : Forall (eq execution) ts -> star pool (nothing, []) (nothing, ts).
Proof.
  induction ts as [|p ts IH] using rev_ind; [constructor|]. rewrite Forall_app. intros [H1 H2].
  eapply star_trans; [by apply IH|]. eapply star_step; [|constructor]. apply pstep_arrive. inversion H2; subst. constructor.
Qed.

(** One execution, to its end. *)
Definition sent_once : mail_sys * list (prog mailE unit) := Eval vm_compute in after (replicate 17 0%nat) [execution].
(** Two executions of the same action, both prepared before either of them claims it. *)
Definition overlapping : list nat := (replicate 6 0 ++ replicate 6 1 ++ replicate 8 0 ++ replicate 8 1)%list%nat.

Lemma runs js ts : Forall (eq execution) ts -> star pool (nothing, []) (after js ts).
Proof. intros H. eapply star_trans; [by apply arrives|]. apply run_schedule_star, host_steps. Qed.

Lemma sent_once_reachable : star pool (nothing, []) sent_once.
Proof.
  assert (sent_once = after (replicate 17 0%nat) [execution]) as -> by (vm_compute; reflexivity).
  apply runs. by repeat constructor.
Qed.

(** The next attempt, after a restart. *)
Definition again : mail_sys * list (prog mailE unit) := run_schedule host (replicate 17 0%nat) (sent_once.1, [execution]).

Lemma again_reachable : star pool (sent_once.1, []) again.
Proof.
  eapply star_step; [|apply run_schedule_star, host_steps]. apply (pstep_arrive _ _ _ []). apply client_execute.
Qed.
End MailScenario.

(** Two executions of one action that are both prepared before either of them claims it hand the message
    to the transport twice: [begin_execution] answers EXECUTING to the caller that claimed the row and to
    the caller that finds it claimed, and [execute] goes on in both cases.  Only the callers keep two
    executions of one action apart. *)
Theorem overlapping_executions_send_twice : exists c,
  star MailScenario.pool (MailScenario.nothing, []) c /\ length (sent_for "a1" c.1) = 2%nat.
Proof.
  exists (MailScenario.after MailScenario.overlapping [MailScenario.execution; MailScenario.execution]).
  split; [|by vm_compute]. apply MailScenario.runs. by repeat constructor.
Qed.

Lemma sent_mail_is_approved_witness : exists account_id request earlier,
  ms_log MailScenario.sent_once.1 = Sent account_id request :: earlier /\
  justified MailScenario.parse_ok None [] (ms_ledger MailScenario.sent_once.1) earlier account_id request.
Proof.
  do 3 eexists. split; [reflexivity|].
  apply (sent_mail_is_approved _ MailScenario.parsed None (seconds 30) None None "host" true MailScenario.nothing _ []).
  - reflexivity.
  - exact MailScenario.sent_once_reachable.
  - reflexivity.
Defined.

Lemma claimed_mail_is_never_sent_again_witness : exists row,
  sent_for "a1" MailScenario.again.1 = sent_for "a1" MailScenario.sent_once.1 /\
  exists row', assoc "a1" (ms_ledger MailScenario.again.1) = Some row' /\ later_row row row'.
Proof.
  eexists. eapply (claimed_mail_is_never_sent_again MailScenario.parse_ok MailScenario.parsed None (seconds 30) None None "host" true).
  - exact MailScenario.again_reachable.
  - reflexivity.
  - done.
Defined.
