(* ===== verification/SmtpSender.v ===== *)
(** * SmtpSender: one SMTP submission

    Models [infrastructure/mail/smtp_client.py] ([TlsSmtpSender]), [CompositeMailGuard] and the use of
    [MailAccountDispatchGuard] of [infrastructure/mail/owners.py], and [ConfiguredMailTransportBroker] of
    [infrastructure/mail/broker.py].

    The worker thread is a coroutine over the socket, the SMTP session of [smtplib], the guards and the
    attributes of the sender.  [send] waits for it, and joins it after a timeout or a cancellation before
    it looks at the outcome; so the thread runs to its end first, with an abort flag that may be set at
    any moment, and [SWaited] then says how the wait ended. *)

From S2P Require Import Prelude Text Monitor Rely Json Schemas Domain PyValue MailModels.
Local Open Scope string_scope.
Local Open Scope Z_scope.

(** ** Dot stuffing *)

Definition CR : Ascii.ascii := Ascii.ascii_of_nat 13.
Definition LF : Ascii.ascii := Ascii.ascii_of_nat 10.
Definition DOT : Ascii.ascii := Ascii.ascii_of_nat 46.

(** [data.replace(b"\r\n.", b"\r\n..")] *)
Fixpoint stuff_lines (l : list Ascii.ascii) : list Ascii.ascii :=
  match l with
  | a :: ((b :: c :: rest) as tail) =>
      if bool_decide (a = CR) && bool_decide (b = LF) && bool_decide (c = DOT)
      then CR :: LF :: DOT :: DOT :: stuff_lines rest
      else a :: stuff_lines tail
  | _ => l
  end.

(** [stuffed.endswith(b"\r\n")] *)
Fixpoint ends_crlf (l : list Ascii.ascii) : bool :=
  match l with
  | [] => false
  | a :: tail => match tail with [b] => bool_decide (a = CR) && bool_decide (b = LF) | _ => ends_crlf tail end
  end.

Definition _dot_stuffed (data : list Ascii.ascii) : list Ascii.ascii :=
  let stuffed := stuff_lines data in
  let stuffed := match stuffed with a :: _ => if bool_decide (a = DOT) then DOT :: stuffed else stuffed | [] => stuffed end in
  let stuffed := if ends_crlf stuffed then stuffed else (stuffed ++ [CR; LF])%list in
  (stuffed ++ [DOT; CR; LF])%list.

(** What a server reads (RFC 5321, 4.5.2): the lines up to one that is a single dot, less the first dot
    of a line; with it the input that follows.  [bol] says that a line begins. *)
Fixpoint receive (bol : bool) (l : list Ascii.ascii) : option (list Ascii.ascii * list Ascii.ascii) :=
  match l with
  | [] => None
  | a :: tail =>
      if bol && bool_decide (a = DOT) then
        match tail with
        | b :: c :: rest => if bool_decide (b = CR) && bool_decide (c = LF) then Some ([], rest) else receive false tail
        | _ => receive false tail
        end
      else
        match tail with
        | b :: rest =>
            if bool_decide (a = CR) && bool_decide (b = LF)
            then '(data, more) ← receive true rest; Some (CR :: LF :: data, more)
            else '(data, more) ← receive false tail; Some (a :: data, more)
        | [] => None
        end
  end.

(** ** Receipts *)

Definition _receipt (request : MailDeliveryRequest) (status : MailDeliveryStatus.t) (results : list MailRecipientResult)
    (server_code : option string) : MailDeliveryReceipt :=
  {| mc_local_action_id := mq_local_action_id request; mc_message_id := mq_message_id request; mc_status := status;
     mc_recipient_results := results; mc_server_code := server_code |}.
Definition recipient_result (status : MailRecipientStatus.t) (error_code : option string) (address : string) : MailRecipientResult :=
  {| rr_recipient := address; rr_status := status; rr_error_code := error_code |}.
Definition _unknown_results (l : list string) : list MailRecipientResult := recipient_result MailRecipientStatus.UNKNOWN None <$> l.
Definition _failed_results (l : list string) : list MailRecipientResult :=
  recipient_result MailRecipientStatus.REJECTED (Some "NOT_SUBMITTED") <$> l.
Definition str_code (code : Z) : string := py_str (JInt code).
Definition refused_by (code : Z) (address : string) : MailRecipientResult :=
  recipient_result MailRecipientStatus.REJECTED (Some ("SMTP_" ++ str_code code)) address.

Definition accepted_code (code : Z) : bool := mem_b code [250; 251].

(** ** The sender, its guards and the session *)

Inductive phase := AtConnect | PreData | AtData | PostData | AtDone.
#[global] Instance phase_eq_dec : EqDecision phase.
Proof. solve_decision. Defined.

Inductive guard := GLease | GAccount.
#[global] Instance guard_eq_dec : EqDecision guard.
Proof. solve_decision. Defined.

(** [_phase] and [_last_receipt]; [_valid] and [_held] of the account guard; [_held] of the composite. *)
Record Sender := {
  sd_phase : phase;
  sd_last : option MailDeliveryReceipt;
  sd_account_valid : bool;
  sd_account_held : bool;
  sd_held : list guard
}.
#[export] Instance Sender_eta : Eta Sender := fun r =>
  Build_Sender (sd_phase r) (sd_last r) (sd_account_valid r) (sd_account_held r) (sd_held r).
Definition new_sender : Sender :=
  {| sd_phase := AtConnect; sd_last := None; sd_account_valid := true; sd_account_held := false; sd_held := [] |}.

Inductive waited := InTime | TimedOut | WaitCancelled.

Inductive smtpE : Type -> Type :=
| SAttr : smtpE Sender
| SSet (s : Sender) : smtpE unit
| SAborted : smtpE bool
| SAbort : smtpE unit
| SMonotonic : smtpE Z
| SLeaseValid : smtpE bool
| SVerify : smtpE bool
| SAcquire (timeout : Z) : smtpE bool
| SRelease : smtpE unit
| SSocket : smtpE unit
| SRegister : smtpE unit
| SConnect (sockaddr : string) : smtpE unit
| SWrap : smtpE unit
| SHandshake : smtpE unit
| SCloseSocket : smtpE unit
| SGreeting : smtpE unit
| SEhlo : smtpE Z
| SEhloIfNeeded : smtpE unit
| SHasStarttls : smtpE bool
| SStarttlsCommand : smtpE Z
| SLogin (address : string) : smtpE unit
| SMail (address : string) : smtpE Z
| SRcpt (address : string) : smtpE Z
| SData : smtpE Z
| SPayload (bytes : list Ascii.ascii) : smtpE unit
| SReply : smtpE Z
| SQuit : smtpE unit
| SClose : smtpE unit
| SResolveHost (host : string) (port timeout : Z) : smtpE (list string)
| SWaited (remaining : Z) : smtpE waited.

Definition suppressed {E} (p : prog E unit) : prog E unit := prog_try p (fun e => if exn_is e PyException then Ret tt else Raise e).
Definition suppress_os {E} (p : prog E unit) : prog E unit := prog_try p (fun e => if exn_is e PyOSError then Ret tt else Raise e).
(** [except BaseException: q; raise] *)
Definition on_failure {E A} (p : prog E A) (q : prog E unit) : prog E A := prog_try p (fun e => _ ← q; Raise e).

Definition update (f : Sender -> Sender) : prog smtpE unit := s ← perform SAttr; perform (SSet (f s)).
Definition _set_phase (p : phase) : prog smtpE unit := update (fun s => s {{ sd_phase := p }}).

(** *** [MailAccountDispatchGuard], [_LeaseGuard] and [CompositeMailGuard] *)

Definition account_valid : prog smtpE bool :=
  s ← perform SAttr;
  if negb (sd_account_valid s) then Ret false
  else
    let invalid := _ ← update (fun s => s {{ sd_account_valid := false }}); Ret false in
    prog_match (perform SVerify) (fun ok : bool => if ok then Ret true else invalid)
      (fun e => if exn_is e PyException then invalid else Raise e).

Definition valid_of (g : guard) : prog smtpE bool := match g with GLease => perform SLeaseValid | GAccount => account_valid end.
Definition reason_of (g : guard) : prog smtpE (option string) :=
  ok ← valid_of g;
  Ret (if (ok : bool) then None else Some (match g with GLease => "EXECUTION_LEASE_LOST" | GAccount => "ACCOUNT_CHANGED" end)).

Definition account_end : prog smtpE unit :=
  s ← perform SAttr;
  _ ← (if sd_account_held s then perform SRelease else Ret tt);
  update (fun s => s {{ sd_account_held := false }}).
Definition account_begin (timeout : Z) : prog smtpE bool :=
  locked ← perform (SAcquire timeout);
  if negb locked then _ ← update (fun s => s {{ sd_account_valid := false }}); Ret false
  else
    _ ← update (fun s => s {{ sd_account_held := true }});
    ok ← account_valid;
    if negb ok then _ ← account_end; Ret false else Ret true.

Definition begin_of (g : guard) (timeout : Z) : prog smtpE bool :=
  match g with GLease => perform SLeaseValid | GAccount => account_begin timeout end.
Definition end_of (g : guard) : prog smtpE unit := match g with GLease => Ret tt | GAccount => account_end end.

Fixpoint all_valid (gs : list guard) : prog smtpE bool :=
  match gs with
  | [] => Ret true
  | g :: gs => ok ← valid_of g; if (ok : bool) then all_valid gs else Ret false
  end.
Fixpoint first_reason (gs : list guard) : prog smtpE (option string) :=
  match gs with
  | [] => Ret None
  | g :: gs => ok ← valid_of g; if (ok : bool) then first_reason gs else reason_of g
  end.
Fixpoint end_all (gs : list guard) : prog smtpE unit :=
  match gs with [] => Ret tt | g :: gs => _ ← end_of g; end_all gs end.

Definition end_critical_section : prog smtpE unit :=
  s ← perform SAttr;
  _ ← end_all (rev (sd_held s));
  update (fun s => s {{ sd_held := [] }}).

Fixpoint begin_all (deadline : Z) (gs : list guard) : prog smtpE bool :=
  match gs with
  | [] => Ret true
  | g :: gs =>
      now ← perform SMonotonic;
      let remaining := deadline - now in
      ok ← (if remaining <=? 0 then Ret false else begin_of g remaining);
      if negb ok then Ret false
      else _ ← update (fun s => s {{ sd_held := (sd_held s ++ [g])%list }}); begin_all deadline gs
  end.

Definition begin_critical_section (guards : list guard) : prog smtpE bool :=
  _ ← update (fun s => s {{ sd_held := [] }});
  now ← perform SMonotonic;
  success ← begin_all (now + seconds 5) (rev guards);
  success ← (if (success : bool) then all_valid guards else Ret false);
  _ ← (if negb success then end_critical_section else Ret tt);
  Ret success.

(** *** [TlsSmtpSender] *)

Section sender.
Context (guards : list guard) (account : MailAccountRecord) (policy : MailPolicy) (timeout : Z).

Definition account_changed : exn := mail_error "MAIL_ACCOUNT_CHANGED" "the account binding changed during the dispatch".
Definition aborted : exn := raise_exn SendAborted "the dispatch was aborted".
Definition is_account_changed (reason : option string) : bool := bool_decide (reason = Some "ACCOUNT_CHANGED").

Definition _check_abort : prog smtpE unit :=
  flag ← perform SAborted;
  if (flag : bool) then Raise aborted
  else
    ok ← all_valid guards;
    if negb ok then
      _ ← perform SAbort;
      reason ← first_reason guards;
      if is_account_changed reason then Raise account_changed
      else raise_prog SendAborted "the dispatch lease is no longer valid"
    else Ret tt.

Definition _raise_if_account_changed : prog smtpE unit :=
  reason ← first_reason guards;
  if is_account_changed reason then Raise account_changed else Ret tt.

(** [_TrackedSmtp]: the socket is registered before it is connected, and closed when that fails. *)
Definition _wrap_tls_socket : prog smtpE unit :=
  on_failure
    (_ ← perform SWrap; _ ← perform SRegister; _ ← _check_abort; _ ← perform SHandshake; _check_abort)
    (suppress_os (perform SCloseSocket)).
Definition _get_socket (tls : bool) (sockaddr : string) : prog smtpE unit :=
  _ ← perform SSocket;
  _ ← perform SRegister;
  on_failure
    (_ ← _check_abort; _ ← perform (SConnect sockaddr); _ ← _check_abort; if tls then _wrap_tls_socket else Ret tt)
    (suppress_os (perform SCloseSocket)).
Definition tracked_smtp (tls : bool) (sockaddr : string) : prog smtpE unit := _ ← _get_socket tls sockaddr; perform SGreeting.

Definition starttls : prog smtpE Z :=
  _ ← perform SEhloIfNeeded;
  supported ← perform SHasStarttls;
  if negb supported then raise_prog SMTPNotSupportedError "STARTTLS is not supported"
  else
    _ ← _check_abort;
    code ← perform SStarttlsCommand;
    if negb (code =? 220) then raise_prog SMTPException "SMTPResponseException"
    else _ ← on_failure _wrap_tls_socket (suppress_os (perform SClose)); Ret code.

Definition implicit_tls : bool :=
  bool_decide (ma_tls_mode account = "implicit") || (bool_decide (ma_tls_mode account = "auto") && (ma_smtp_port account =? 465)).
Definition uses_starttls : bool :=
  bool_decide (ma_tls_mode account = "starttls")
  || (bool_decide (ma_tls_mode account = "auto") && ((ma_smtp_port account =? 25) || (ma_smtp_port account =? 587))).

Definition _connect (sockaddr : string) : prog smtpE unit :=
  if implicit_tls then tracked_smtp true sockaddr
  else if negb uses_starttls
  then Raise (mail_error "MAIL_PROTOCOL_ERROR" "the SMTP port does not imply a TLS mode; configure 465 or 587")
  else
    _ ← tracked_smtp false sockaddr;
    on_failure
      (_ ← perform SRegister;
       code ← perform SEhlo;
       if negb (code =? 250) then Raise (mail_error "MAIL_PROTOCOL_ERROR" "SMTP EHLO failed")
       else
         _ ← _check_abort;
         code ← starttls;
         if negb (code =? 220) then Raise (mail_error "MAIL_TLS_FAILED" "SMTP STARTTLS failed")
         else _ ← perform SRegister; _ ← perform SEhlo; Ret tt)
      (suppressed (perform SClose)).

Definition _login : prog smtpE unit :=
  prog_try (perform (SLogin (ma_address account))) (fun e =>
    if exn_is e SMTPAuthenticationError then Raise (mail_error "MAIL_AUTH_FAILED" "the mail server rejected the credentials")
    else if exn_is e SMTPNotSupportedError then Raise (mail_error "MAIL_AUTH_UNSUPPORTED" "the server does not support AUTH")
    else if exn_is e SMTPException then Raise (mail_error "MAIL_AUTH_FAILED" "the mail server rejected the credentials")
    else Raise e).

(** The loop over the recipients. *)
Fixpoint rcpt_all (l : list string) (accepted : list string) (rejected : list MailRecipientResult)
  : prog smtpE (list string * list MailRecipientResult) :=
  match l with
  | [] => Ret (accepted, rejected)
  | recipient :: l =>
      code ← perform (SRcpt recipient);
      if accepted_code code then rcpt_all l (accepted ++ [recipient])%list rejected
      else rcpt_all l accepted (rejected ++ [refused_by code recipient])%list
  end.

(** The critical section: DATA, the message, the final reply; a refusal of DATA is a receipt. *)
Definition submit (request : MailDeliveryRequest) (accepted : list string) (rejected : list MailRecipientResult)
  : prog smtpE (MailDeliveryReceipt + Z) :=
  prog_finally
    (code ← perform SData;
     if negb (code =? 354)
     then Ret (inl (_receipt request MailDeliveryStatus.FAILED (rejected ++ (refused_by code <$> accepted))%list (Some (str_code code))))
     else
       _ ← perform (SPayload (_dot_stuffed (chars (mq_mime_bytes request))));
       _ ← _set_phase PostData;
       code ← perform SReply;
       Ret (inr code))
    end_critical_section.

(** From the accepted recipients to the receipt. *)
Definition submission (request : MailDeliveryRequest) (accepted : list string) (rejected : list MailRecipientResult)
  : prog smtpE MailDeliveryReceipt :=
  _ ← _check_abort;
  entered ← begin_critical_section guards;
  if negb entered
  then _ ← _raise_if_account_changed; Ret (_receipt request MailDeliveryStatus.FAILED (_failed_results (recipients request)) None)
  else
    outcome ← submit request accepted rejected;
    match outcome with
    | inl receipt => Ret receipt
    | inr code =>
        _ ← _set_phase AtDone;
        if (200 <=? code) && (code <? 300)
        then Ret (_receipt request (if bool_decide (rejected = []) then MailDeliveryStatus.SUCCEEDED else MailDeliveryStatus.PARTIAL)
                    ((recipient_result MailRecipientStatus.ACCEPTED None <$> accepted) ++ rejected)%list (Some (str_code code)))
        else Ret (_receipt request MailDeliveryStatus.FAILED (rejected ++ (refused_by code <$> accepted))%list (Some (str_code code)))
    end.

(** The [try] of [_send_sync], once it is connected. *)
Definition session (request : MailDeliveryRequest) : prog smtpE MailDeliveryReceipt :=
  _ ← _set_phase PreData;
  _ ← _check_abort;
  _ ← _login;
  _ ← _check_abort;
  code ← perform (SMail (mq_from_address request));
  if negb (accepted_code code)
  then Ret (_receipt request MailDeliveryStatus.FAILED (_failed_results (recipients request)) (Some (str_code code)))
  else
    '(accepted, rejected) ← rcpt_all (recipients request) [] [];
    if bool_decide (accepted = [])
    then Ret (_receipt request MailDeliveryStatus.FAILED rejected (Some "ALL_RECIPIENTS_REJECTED"))
    else _ ← _set_phase AtData; submission request accepted rejected.

(** The [except] clauses of [_send_sync]; its local [phase] follows the attribute. *)
Definition unsubmitted (request : MailDeliveryRequest) (in_doubt : list phase) : prog smtpE MailDeliveryReceipt :=
  s ← perform SAttr;
  Ret (if mem_b (sd_phase s) in_doubt
       then _receipt request MailDeliveryStatus.UNKNOWN (_unknown_results (recipients request)) None
       else _receipt request MailDeliveryStatus.FAILED (_failed_results (recipients request)) None).
Definition session_failed (request : MailDeliveryRequest) (e : exn) : prog smtpE MailDeliveryReceipt :=
  if exn_is e SendAborted then unsubmitted request [AtData; PostData; AtDone]
  else if exn_is e PyOSError || exn_is e PyTimeoutError then unsubmitted request [AtData; PostData]
  else Raise e.

Definition _send_sync (request : MailDeliveryRequest) (sockaddr : string) : prog smtpE MailDeliveryReceipt :=
  _ ← _set_phase AtConnect;
  prog_match (_connect sockaddr)
    (fun _ => prog_finally (prog_try (session request) (session_failed request))
                (_ ← suppressed (perform SQuit); suppressed (perform SClose)))
    (session_failed request).

Definition _send_guarded (request : MailDeliveryRequest) (sockaddr : string) : prog smtpE MailDeliveryReceipt :=
  receipt ← _send_sync request sockaddr;
  _ ← update (fun s => s {{ sd_last := Some receipt }});
  Ret receipt.

Definition _abort_receipt (request : MailDeliveryRequest) : prog smtpE MailDeliveryReceipt :=
  unsubmitted request [AtData; PostData; AtDone].
Definition _timeout_receipt (request : MailDeliveryRequest) : prog smtpE MailDeliveryReceipt :=
  s ← perform SAttr;
  match sd_last s with Some receipt => Ret receipt | None => _abort_receipt request end.

(** The checks of [send] before anything is resolved or opened. *)
Definition check_request (request : MailDeliveryRequest) : result unit :=
  let refuse (b : bool) code msg : result unit := if b then Err (mail_error code msg) else Ok tt in
  _ ← refuse (negb (ma_send_enabled account)) "MAIL_ACCOUNT_DISABLED" "sending is not enabled for this account";
  _ ← refuse (negb (mp_allow_send policy)) "MAIL_SEND_DISABLED" "sending is disabled by host policy";
  _ ← refuse (bool_decide (recipients request = [])) "MAIL_RECIPIENT_NOT_ALLOWED" "no recipients supplied";
  _ ← refuse (negb (forallb (recipient_allowed policy) (recipients request))) "MAIL_RECIPIENT_NOT_ALLOWED"
        "one or more recipients are not on the controlled allowlist";
  _ ← refuse (mp_max_message_bytes policy <? str_len (mq_mime_bytes request)) "MAIL_MESSAGE_TOO_LARGE"
        "message exceeds the configured size limit";
  refuse (bool_decide (mq_mime_bytes request = "")) "MAIL_PROTOCOL_ERROR" "message bytes are required".

(** The [except] clauses around the wait, in their order: an [SMTPException] is an [OSError]. *)
Definition wait_failed (e : exn) : result MailDeliveryReceipt :=
  if exn_is e MailError then Err e
  else if exn_is e SSLCertVerificationError then Err (mail_error "MAIL_TLS_FAILED" "the SMTP TLS certificate is not trusted")
  else if exn_is e PyOSError then Err (mail_error "MAIL_UNAVAILABLE" "the SMTP server is unreachable")
  else Err e.

Definition send (request : MailDeliveryRequest) : prog smtpE MailDeliveryReceipt :=
  _ ← of_result (check_request request);
  _ ← update (fun s => s {{ sd_last := None }});
  started ← perform SMonotonic;
  let deadline := started + timeout in
  prog_match (perform (SResolveHost (ma_smtp_host account) (ma_smtp_port account) timeout))
    (fun addresses =>
       match addresses with
       | [] => _abort_receipt request
       | sockaddr :: _ =>
           now ← perform SMonotonic;
           let remaining := deadline - now in
           if remaining <=? 0 then _abort_receipt request
           else
             let deliver (r : result MailDeliveryReceipt) : prog smtpE MailDeliveryReceipt :=
               how ← perform (SWaited remaining);
               match how with
               | InTime =>
                   match r with
                   | Ok receipt => Ret receipt
                   | Err e => if exn_is e PyTimeoutError then _timeout_receipt request else of_result (wait_failed e)
                   end
               | TimedOut => _timeout_receipt request
               | WaitCancelled => Raise cancelled
               end in
             prog_match (_send_guarded request sockaddr) (fun receipt => deliver (Ok receipt)) (fun e => deliver (Err e))
       end)
    (fun e => if exn_is e PyTimeoutError || exn_is e PyOSError then _abort_receipt request else Raise e).
End sender.

(** ** [ConfiguredMailTransportBroker] *)

Module MailReconciliationStatus.
Inductive t := MATCHED | NOT_FOUND | AMBIGUOUS | UNAVAILABLE.
End MailReconciliationStatus.

Record MailReconciliationResult := {
  mrr_local_action_id : string;
  mrr_message_id : string;
  mrr_status : MailReconciliationStatus.t;
  mrr_matches : list string;              (* the fetched messages, by their id *)
  mrr_diagnostic_code : option string
}.

Inductive brokerE : Type -> Type :=
| BResolve (account_id : string) : brokerE MailAccountRecord
| BSecret (handle_id : string) : brokerE (option string)       (* [None]: not a string *)
| BReadSession (binding : MailAccountBinding) (password : string) : brokerE unit
| BFind (folder message_id : string) : brokerE (list string)
| BCloseSession : brokerE unit
| BSmtp {X} (op : smtpE X) : brokerE X.
#[global] Instance SubE_broker_smtp : SubE smtpE brokerE := fun X op => BSmtp op.

Definition MAIL_CREDENTIAL_KIND : string := "mail_client_password".
Definition binding_for (record : MailAccountRecord) : result MailAccountBinding :=
  check_binding {| mb_record := record; mb_secret_kind := MAIL_CREDENTIAL_KIND |}.

(** [_resolve] *)
Definition resolve_credential (record : MailAccountRecord) : prog brokerE string :=
  if bool_decide (ma_secret_handle_id record = "")
  then Raise (mail_error "MAIL_CREDENTIAL_UNAVAILABLE" "the account credential handle is invalid")
  else
    password ← prog_try (perform (BSecret (ma_secret_handle_id record))) (fun e =>
      if exn_is e PyException
      then Raise (mail_error "MAIL_CREDENTIAL_UNAVAILABLE" "the host credential backend could not resolve this account")
      else Raise e);
    match password with
    | Some p => if bool_decide (p = "") then Raise (mail_error "MAIL_CREDENTIAL_UNAVAILABLE" "the host credential backend returned no credential")
                else Ret p
    | None => Raise (mail_error "MAIL_CREDENTIAL_UNAVAILABLE" "the host credential backend returned no credential")
    end.

Definition _verify_active (lease : MailAccountRecord) : prog brokerE MailAccountRecord :=
  current ← prog_try (perform (BResolve (ma_account_id lease))) (fun e =>
    if exn_is e PyException
    then Raise (mail_error "MAIL_ACCOUNT_CHANGED" "the account was removed while the operation was starting") else Raise e);
  if negb (ma_generation current =? ma_generation lease)
  then Raise (mail_error "MAIL_ACCOUNT_CHANGED" "the account changed while the operation was starting")
  else
    a ← of_result (account_fingerprint current);
    b ← of_result (account_fingerprint lease);
    if negb (bool_decide (a = b)) then Raise (mail_error "MAIL_ACCOUNT_CHANGED" "the account changed while the operation was starting")
    else Ret current.

Definition broker_send (has_lease : bool) (policy : MailPolicy) (timeout : Z) (account_id : string) (request : MailDeliveryRequest)
  : prog brokerE MailDeliveryReceipt :=
  lease ← perform (BResolve account_id);
  _ ← resolve_credential lease;
  record ← _verify_active lease;
  _ ← of_result (binding_for record);
  embed (send (if has_lease then [GLease; GAccount] else [GAccount]) record policy timeout request).

Definition read_session (account_id : string) : prog brokerE unit :=
  lease ← perform (BResolve account_id);
  if negb (ma_read_enabled lease) then Raise (mail_error "MAIL_ACCOUNT_DISABLED" "reading is not enabled for this account")
  else
    password ← resolve_credential lease;
    record ← _verify_active lease;
    binding ← of_result (binding_for record);
    perform (BReadSession binding password).

Definition reconcile_sent (account_id local_action_id message_id sent_folder : string) : prog brokerE MailReconciliationResult :=
  let outcome status matches code :=
    {| mrr_local_action_id := local_action_id; mrr_message_id := message_id; mrr_status := status; mrr_matches := matches;
       mrr_diagnostic_code := code |} in
  let unavailable (e : exn) : prog brokerE MailReconciliationResult :=
    if exn_is e MailError then Ret (outcome MailReconciliationStatus.UNAVAILABLE [] (exn_ref e)) else Raise e in
  prog_match (read_session account_id)
    (fun _ =>
       prog_finally
         (prog_match (perform (BFind sent_folder message_id))
            (fun matches =>
               Ret (match matches with
                    | [] => outcome MailReconciliationStatus.NOT_FOUND [] None
                    | [_] => outcome MailReconciliationStatus.MATCHED matches None
                    | _ => outcome MailReconciliationStatus.AMBIGUOUS matches (Some "MULTIPLE_MATCHES")
                    end))
            unavailable)
         (perform BCloseSession))
    unavailable.
