(* ===== verification/SmtpStuffing.v ===== *)
(** * SmtpStuffing: the server reads the message that was sent

    Theorems about [_dot_stuffed] of [SmtpSender.v]. *)

From S2P Require Import Prelude Text MailModels SmtpSender.

(** The bytes that close the last line. *)
Definition closing (data : list Ascii.ascii) : list Ascii.ascii := if ends_crlf data then [] else [CR; LF].

Definition stuffable (l : list Ascii.ascii) : bool :=
  match l with
  | a :: b :: c :: _ => bool_decide (a = CR) && bool_decide (b = LF) && bool_decide (c = DOT)
  | _ => false
  end.

Lemma stuff_cons a l : stuffable (a :: l) = false -> stuff_lines (a :: l) = a :: stuff_lines l.
Proof. destruct l as [|b [|c l]]; [done..|]. cbn [stuffable]. intros H. cbn [stuff_lines]. by rewrite H. Qed.

Lemma stuffable_inv l : stuffable l = true -> exists r, l = CR :: LF :: DOT :: r.
Proof.
  destruct l as [|a [|b [|c l]]]; [done..|]. cbn. intros H. bool_props. subst. by exists l.
Qed.

Lemma stuffable_other a l : a <> CR -> stuffable (a :: l) = false.
Proof. intros H. destruct l as [|b [|c l]]; [done..|]. cbn. by rewrite bool_decide_eq_false_2. Qed.

(** The cases [stuff_lines] distinguishes. *)
Lemma stuff_ind (P : list Ascii.ascii -> Prop) :
  P [] -> (forall l, P l -> P (CR :: LF :: DOT :: l)) ->
  (forall a l, stuffable (a :: l) = false -> P l -> P (a :: l)) -> forall l, P l.
Proof.
  intros H0 H1 H2. enough (forall n l, (length l < n)%nat -> P l) as H by (intros l; by apply (H (S (length l))); lia).
  induction n as [|n IH]; intros l Hn; [lia|]. destruct (stuffable l) eqn:E.
  - apply stuffable_inv in E as [r ->]. apply H1, IH. cbn in Hn. lia.
  - destruct l as [|a l]; [done|]. apply H2; [done|]. apply IH. cbn in Hn. lia.
Qed.

Lemma stuff_head l : hd_error (stuff_lines l) = hd_error l.
Proof. destruct (stuffable l) eqn:E; [by apply stuffable_inv in E as [r ->]|]. destruct l as [|a l]; [done|]. by rewrite stuff_cons. Qed.

Lemma stuff_single l b : stuff_lines l = [b] <-> l = [b].
Proof.
  split; [|by intros ->]. destruct (stuffable l) eqn:E; [by apply stuffable_inv in E as [r ->]|].
  destruct l as [|a l]; [done|]. rewrite stuff_cons by done. intros [= -> H]. destruct l as [|c l]; [done|].
  pose proof (stuff_head (c :: l)) as Hh. by rewrite H in Hh.
Qed.

Lemma ends_crlf_other a l : a <> CR -> ends_crlf (a :: l) = ends_crlf l.
Proof. intros H. destruct l as [|b [|c l]]; [done| |done]. cbn. by rewrite bool_decide_eq_false_2. Qed.

Lemma ends_crlf_stuff l : ends_crlf (stuff_lines l) = ends_crlf l.
Proof.
  induction l as [|l IH|a l H IH] using stuff_ind; [done| |].
  - change (ends_crlf (LF :: DOT :: DOT :: stuff_lines l) = ends_crlf (LF :: DOT :: l)).
    by rewrite !ends_crlf_other, IH by done.
  - rewrite stuff_cons by done. destruct l as [|b [|c l]]; [done..|]. change (ends_crlf (a :: b :: c :: l)) with (ends_crlf (b :: c :: l)).
    rewrite <- IH. pose proof (stuff_single (b :: c :: l)) as Hs.
    destruct (stuff_lines (b :: c :: l)) as [|x [|y m]] eqn:E; [done| |done]. by destruct (proj1 (Hs x) eq_refl).
Qed.

Definition terminator : list Ascii.ascii := [DOT; CR; LF].

(** A line that does not begin with a dot. *)
Lemma receive_bol l : hd_error l <> Some DOT -> receive true l = receive false l.
Proof. destruct l as [|a l]; [done|]. cbn. intros H. rewrite bool_decide_eq_false_2 by congruence. done. Qed.

Lemma receive_plain a l : a <> CR \/ hd_error l <> Some LF -> l <> [] ->
  receive false (a :: l) = '(data, more) ← receive false l; Some (a :: data, more).
Proof.
  destruct l as [|b l]; [done|]. intros H _. cbn [receive andb]. destruct (bool_decide (a = CR) && bool_decide (b = LF)) eqn:E; [|done].
  bool_props. subst. cbn in H. naive_solver.
Qed.

Lemma receive_crlf l : receive false (CR :: LF :: l) = '(data, more) ← receive true l; Some (CR :: LF :: data, more).
Proof. done. Qed.

Lemma receive_dot a l : a <> CR -> receive true (DOT :: a :: l) = receive false (a :: l).
Proof.
  intros H. remember (receive false (a :: l)) as r eqn:E. cbn [receive]. rewrite bool_decide_eq_true_2 by done. cbn [andb].
  destruct l as [|b l]; [by subst|]. rewrite (bool_decide_eq_false_2 (a = CR)) by done. cbn [andb]. rewrite E. cbn [receive andb]. by rewrite (bool_decide_eq_false_2 (a = CR)).
Qed.

Lemma receive_end more : receive true (terminator ++ more) = Some ([], more).
Proof. done. Qed.

Definition rest_of (l more : list Ascii.ascii) : list Ascii.ascii := (stuff_lines l ++ closing l ++ terminator ++ more)%list.

Lemma rest_head a l more : hd_error (rest_of (a :: l) more) = Some a.
Proof. unfold rest_of. pose proof (stuff_head (a :: l)) as H. destruct (stuff_lines (a :: l)); [done|]. by injection H as ->. Qed.

Lemma closing_step a l : (a <> CR \/ hd_error l <> Some LF) -> closing (a :: l) = closing l.
Proof.
  unfold closing. intros H. destruct l as [|b [|c l]]; [done| |done]. cbn.
  destruct (bool_decide (a = CR) && bool_decide (b = LF)) eqn:E; [|done]. bool_props. subst. cbn in H. naive_solver.
Qed.

Lemma receive_stuffed l more : receive false (rest_of l more) = Some ((l ++ closing l)%list, more).
Proof.
  induction l as [|l IH|a l H IH] using stuff_ind; [by vm_compute| |].
  - assert (closing (CR :: LF :: DOT :: l) = closing l) as E.
    { change (closing (LF :: DOT :: l) = closing l). unfold closing. by rewrite !ends_crlf_other. }
    change (rest_of (CR :: LF :: DOT :: l) more) with
      (CR :: LF :: DOT :: DOT :: stuff_lines l ++ closing (CR :: LF :: DOT :: l) ++ terminator ++ more)%list.
    rewrite E, receive_crlf, receive_dot by done. fold (rest_of l more).
    rewrite receive_plain; [by rewrite IH|by left|]. unfold rest_of. by destruct (stuff_lines l), (closing l).
  - destruct (decide (a = CR /\ hd_error l = Some LF)) as [[-> Hl]|Hn].
    + destruct l as [|b [|c l]]; [done| |]; injection Hl as ->; [by vm_compute|].
      assert (c <> DOT) as Hc by (intros ->; by vm_compute in H).
      unfold rest_of in *. rewrite stuff_cons by done. change (closing (CR :: LF :: c :: l)) with (closing (LF :: c :: l)).
      rewrite (stuff_cons LF) in IH |- * by (by apply stuffable_other). rewrite (closing_step LF) in IH |- * by (by left). cbn [app] in IH |- *.
      rewrite receive_crlf. fold (rest_of (c :: l) more) in IH |- *. rewrite receive_bol by (rewrite rest_head; congruence).
      rewrite receive_plain in IH; [|by left|unfold rest_of; by destruct (stuff_lines (c :: l)), (closing (c :: l))].
      destruct (receive false (rest_of (c :: l) more)) as [[d m]|]; [|done]. cbn in IH |- *. by injection IH as -> ->.
    + assert (a <> CR \/ hd_error l <> Some LF) as Ha by (destruct (decide (a = CR)); naive_solver).
      unfold rest_of in *. rewrite stuff_cons, closing_step by done. cbn [app]. rewrite receive_plain; [by rewrite IH| |by destruct (stuff_lines l), (closing l)].
      destruct Ha as [?|Ha]; [by left|right]. destruct l as [|b l]; [done|]. fold (rest_of (b :: l) more). by rewrite rest_head.
Qed.

(** C25. The server reads back the message, its last line closed, and stops where the next command begins. *)
Theorem dot_stuffing_round_trips (data more : list Ascii.ascii) :
  receive true (_dot_stuffed data ++ more) = Some ((if ends_crlf data then data else (data ++ [CR; LF])%list), more).
Proof.
  assert (forall l, (if ends_crlf l then l else (l ++ [CR; LF])%list) = (l ++ closing l)%list) as Hc.
  { intros l. unfold closing. case_match; [by rewrite app_nil_r|done]. }
  rewrite Hc. unfold _dot_stuffed. cbv zeta. rewrite Hc. rewrite <- !app_assoc. fold terminator.
  destruct data as [|a data]; [by vm_compute|].
  pose proof (receive_stuffed (a :: data) more) as Hr. unfold rest_of in Hr. pose proof (stuff_head (a :: data)) as Hh.
  pose proof (ends_crlf_stuff (a :: data)) as He.
  destruct (stuff_lines (a :: data)) as [|x l]; [done|]. injection Hh as ->. case_bool_decide as Ed.
  - subst a. unfold closing in *. rewrite (ends_crlf_other DOT) by done. rewrite He. cbn [app] in Hr |- *. by rewrite receive_dot.
  - unfold closing in *. rewrite He. cbn [app] in Hr |- *. rewrite receive_bol; [done|]. cbn. congruence.
Qed.
