(* ===== verification/SmtpSafety.v ===== *)
(** * SmtpSafety: what an SMTP submission does and what its receipt means

    A monitor follows the session: the TLS handshake, the account lock, the answers of the guards while the
    lock is held, the recipients the server accepted, the message and the final reply.  Every operation of
    [send] is allowed by it whatever the server, the network, the registry and the clock answer, and every
    receipt tells the truth about what was submitted. *)

From S2P Require Import Prelude Text Monitor Rely Json Schemas Domain PyValue MailModels SmtpSender.
Local Open Scope string_scope.
Local Open Scope Z_scope.

Record smtp_mon := {
  mo_sender : Sender;
  mo_tls : bool;
  mo_locked : bool;
  mo_account_ok : bool;        (* the last verification, under the lock *)
  mo_lease_ok : bool;
  mo_accepted : list string;
  mo_go_ahead : bool;
  mo_payloads : list (list Ascii.ascii);
  mo_reply : option Z
}.
#[export] Instance smtp_mon_eta : Eta smtp_mon := fun r =>
  Build_smtp_mon (mo_sender r) (mo_tls r) (mo_locked r) (mo_account_ok r) (mo_lease_ok r) (mo_accepted r)
    (mo_go_ahead r) (mo_payloads r) (mo_reply r).

Definition fresh_session (s : Sender) : smtp_mon :=
  {| mo_sender := s; mo_tls := false; mo_locked := false; mo_account_ok := false; mo_lease_ok := false;
     mo_accepted := []; mo_go_ahead := false; mo_payloads := []; mo_reply := None |}.

Definition is_ok_true (r : result bool) : bool := match r with Ok b => b | Err _ => false end.

Definition smtp_next (X : Type) (m : smtp_mon) (op : smtpE X) : result X -> smtp_mon :=
  match op in smtpE Y return result Y -> smtp_mon with
  | SSet s => fun _ => m {{ mo_sender := s }}
  | SConnect _ => fun _ => m {{ mo_tls := false }}
  | SHandshake => fun r => match r with Ok _ => m {{ mo_tls := true }} | Err _ => m end
  | SAcquire _ => fun r => if is_ok_true r then m {{ mo_locked := true }} {{ mo_account_ok := false }} {{ mo_lease_ok := false }} else m
  | SRelease => fun _ => m {{ mo_locked := false }} {{ mo_account_ok := false }} {{ mo_lease_ok := false }}
  | SVerify => fun r => m {{ mo_account_ok := mo_locked m && is_ok_true r }}
  | SLeaseValid => fun r => m {{ mo_lease_ok := mo_locked m && is_ok_true r }}
  | SRcpt a => fun r => match r with
                        | Ok c => if accepted_code c then m {{ mo_accepted := (mo_accepted m ++ [a])%list }} else m
                        | Err _ => m
                        end
  | SData => fun r => match r with Ok c => m {{ mo_go_ahead := c =? 354 }} | Err _ => m end
  | SPayload bytes => fun _ => m {{ mo_payloads := (mo_payloads m ++ [bytes])%list }}
  | SReply => fun r => match r with Ok c => m {{ mo_reply := Some c }} | Err _ => m end
  | _ => fun _ => m
  end.

(** The attributes answer what was last written; the clock and the lease do not raise; nothing else raises
    the program's own [MailError], and what is raised is an [Exception]. *)
Definition smtp_may (X : Type) (m : smtp_mon) (op : smtpE X) : result X -> Prop :=
  match op in smtpE Y return result Y -> Prop with
  | SAttr => fun r => r = Ok (mo_sender m)
  | SSet _ | SAbort => fun r => r = Ok tt
  | SAborted => fun r => exists b, r = Ok b
  | SMonotonic => fun r => exists t, r = Ok t
  | SLeaseValid => fun r => exists b, r = Ok b
  | SResolveHost _ _ _ => fun r => forall e, r = Err e -> exn_is e MailError = false
  | SWaited _ => fun r => exists w, r = Ok w
  | _ => fun r => forall e, r = Err e -> exn_is e MailError = false /\ exn_is e PyException = true
  end.

Section safety.
Context (has_lease : bool) (account : MailAccountRecord) (policy : MailPolicy) (timeout : Z) (request : MailDeliveryRequest).

(** [CompositeMailGuard(guard, account_guard)] *)
Definition broker_guards : list guard := if has_lease then [GLease; GAccount] else [GAccount].
Definition permitted : Prop := check_request account policy request = Ok tt.

Definition smtp_ok (X : Type) (m : smtp_mon) (op : smtpE X) : Prop :=
  match op with
  | SConnect _ => permitted
  | SLogin address => mo_tls m = true /\ address = ma_address account
  | SMail address => mo_tls m = true /\ address = mq_from_address request
  | SRcpt address => mo_tls m = true /\ address ∈ recipients request /\ recipient_allowed policy address = true
  | SAcquire _ => mo_locked m = false
  | SPayload bytes => mo_tls m = true /\ mo_locked m = true /\ mo_account_ok m = true /\ (has_lease = true -> mo_lease_ok m = true) /\
      mo_go_ahead m = true /\ mo_accepted m <> [] /\ mo_payloads m = [] /\ bytes = _dot_stuffed (chars (mq_mime_bytes request))
  | _ => True
  end.

Notation srwp := (rwp smtp_ok smtp_next smtp_may).

(** What the guards may change. *)
Definition same_session (m m' : smtp_mon) : Prop :=
  m' = m {{ mo_sender := (mo_sender m) {{ sd_account_valid := sd_account_valid (mo_sender m') }} }}
         {{ mo_account_ok := mo_account_ok m' }} {{ mo_lease_ok := mo_lease_ok m' }}.

Lemma same_refl m : same_session m m.
Proof. destruct m as [[]]. done. Qed.
Lemma same_trans m1 m2 m3 : same_session m1 m2 -> same_session m2 m3 -> same_session m1 m3.
Proof. unfold same_session. intros H1 H2. rewrite H2, H1. by destruct m1 as [[]]. Qed.

Definition own_error (e : exn) : Prop := exn_is e MailError = true \/ exn_is e SendAborted = true.

Lemma attr_ok {A} (f : Sender -> prog smtpE A) m Q : srwp (f (mo_sender m)) m Q -> srwp (perform SAttr ≫= f) m Q.
Proof. intros H. apply rwp_bind, rwp_perform; [done|]. by intros r ->. Qed.

Lemma set_attr_ok f m (Q : smtp_mon -> result unit -> Prop) : Q (m {{ mo_sender := f (mo_sender m) }}) (Ok tt) -> srwp (update f) m Q.
Proof. intros H. unfold update. apply attr_ok, rwp_perform; [done|]. by intros r ->. Qed.

Lemma account_valid_ok m (Q : smtp_mon -> result bool -> Prop) :
  (forall m' b, same_session m m' -> mo_lease_ok m' = mo_lease_ok m ->
     (b = true -> mo_account_ok m' = mo_locked m) -> Q m' (Ok b)) -> srwp account_valid m Q.
Proof.
  intros HQ. unfold account_valid. apply attr_ok. destruct (sd_account_valid (mo_sender m)) eqn:Hv; cbn [negb];
    [|apply HQ; [apply same_refl|done|done]].
  apply rwp_match, rwp_perform; [done|]. intros [b|e] He; cbn [smtp_next is_ok_true].
  - destruct b.
    + apply HQ; cbn; [|done|by rewrite andb_true_r]. by destruct m as [[]].
    + apply rwp_bind, set_attr_ok, HQ; cbn; [|done|done]. by destruct m as [[]].
  - destruct (He e eq_refl) as [_ ->]. apply rwp_bind, set_attr_ok, HQ; cbn; [|done|done]. by destruct m as [[]].
Qed.

(** One guard, and the composite. *)
Lemma valid_of_ok g m (Q : smtp_mon -> result bool -> Prop) :
  (forall m' b, same_session m m' -> (g = GAccount -> mo_lease_ok m' = mo_lease_ok m) -> (g = GLease -> mo_account_ok m' = mo_account_ok m) ->
     (b = true -> match g with GAccount => mo_account_ok m' | GLease => mo_lease_ok m' end = mo_locked m) -> Q m' (Ok b)) ->
  srwp (valid_of g) m Q.
Proof.
  intros HQ. destruct g; cbn [valid_of].
  - apply rwp_perform; [done|]. intros r [b ->]. apply HQ; cbn; try done; [by destruct m as [[]]|]. intros ->. by rewrite andb_true_r.
  - apply account_valid_ok. intros m' b Hs Hl Hb. by apply HQ.
Qed.

Lemma all_valid_ok m (Q : smtp_mon -> result bool -> Prop) :
  (forall m' b, same_session m m' -> (b = true -> mo_account_ok m' = mo_locked m /\ (has_lease = true -> mo_lease_ok m' = mo_locked m)) ->
     Q m' (Ok b)) -> srwp (all_valid broker_guards) m Q.
Proof.
  intros HQ. unfold broker_guards. destruct has_lease; cbn [all_valid].
  - apply rwp_bind, valid_of_ok. intros m1 b1 S1 _ _ H1. destruct b1; [|by apply HQ].
    apply rwp_bind, valid_of_ok. intros m2 b2 S2 L2 _ H2. pose proof (same_trans _ _ _ S1 S2) as S.
    destruct b2; [|by apply HQ]. apply HQ; [done|]. intros _. rewrite S1 in H2. split; [by apply H2|].
    intros _. rewrite L2 by done. by apply H1.
  - apply rwp_bind, valid_of_ok. intros m2 b2 S2 L2 _ H2. destruct b2; [|by apply HQ]. apply HQ; [done|]. intros _. split; [by apply H2|done].
Qed.

Lemma first_reason_ok gs m (Q : smtp_mon -> result (option string) -> Prop) :
  (forall m' o, same_session m m' -> Q m' (Ok o)) -> srwp (first_reason gs) m Q.
Proof.
  revert m; induction gs as [|g gs IH]; intros m HQ; cbn [first_reason]; [apply HQ, same_refl|].
  apply rwp_bind, valid_of_ok. intros m1 b S1 _ _ _. destruct b.
  - apply IH. intros m' o S2. apply HQ. by eapply same_trans.
  - unfold reason_of. apply rwp_bind, valid_of_ok. intros m2 b2 S2 _ _ _. apply HQ. by eapply same_trans.
Qed.

Lemma check_abort_ok m (Q : smtp_mon -> result unit -> Prop) :
  (forall m' r, same_session m m' -> (forall e, r = Err e -> own_error e) -> Q m' r) -> srwp (_check_abort broker_guards) m Q.
Proof.
  intros HQ. unfold _check_abort. apply rwp_bind, rwp_perform; [done|]. intros r [b ->]. cbn [smtp_next]. destruct b.
  { apply HQ; [apply same_refl|]. intros e [= <-]. by right. }
  apply rwp_bind, all_valid_ok. intros m1 b S1 _. destruct b; cbn [negb]; [by apply HQ|].
  apply rwp_bind, rwp_perform; [done|]. intros r ->. cbn [smtp_next]. apply rwp_bind, first_reason_ok. intros m2 o S2.
  case_match; (apply HQ; [by eapply same_trans|]); intros e [= <-]; [by left|by right].
Qed.
(** *** The critical section *)

(** What the lock and the guards do not touch. *)
Definition frame (m : smtp_mon) :=
  (sd_phase (mo_sender m), sd_last (mo_sender m), mo_tls m, mo_accepted m, mo_go_ahead m, mo_payloads m, mo_reply m).
Definition outside (e : exn) : Prop := exn_is e MailError = false.

Record at_rest (m : smtp_mon) : Prop := { ar_locked : mo_locked m = false; ar_held : sd_account_held (mo_sender m) = false }.
Record in_section (m : smtp_mon) : Prop := {
  is_locked : mo_locked m = true;
  is_held : sd_account_held (mo_sender m) = true;
  is_ours : GAccount ∈ sd_held (mo_sender m)
}.

Lemma same_frame m m' : same_session m m' -> frame m' = frame m /\ mo_locked m' = mo_locked m /\
  sd_account_held (mo_sender m') = sd_account_held (mo_sender m) /\ sd_held (mo_sender m') = sd_held (mo_sender m).
Proof. intros ->. by destruct m as [[]]. Qed.

(** The account lock is released exactly when it is held. *)
Lemma account_end_ok m (Q : smtp_mon -> result unit -> Prop) : mo_locked m = sd_account_held (mo_sender m) ->
  (forall m', frame m' = frame m -> at_rest m' -> sd_held (mo_sender m') = sd_held (mo_sender m) -> Q m' (Ok tt)) ->
  (forall m' e, frame m' = frame m -> mo_locked m' = false -> outside e -> Q m' (Err e)) -> srwp account_end m Q.
Proof.
  intros Hl HQ He. unfold account_end. apply attr_ok. apply rwp_bind. destruct (sd_account_held (mo_sender m)) eqn:Hh.
  - apply rwp_perform; [done|]. intros [[]|e] Ho; cbn [smtp_next].
    + apply set_attr_ok, HQ; by destruct m as [[]].
    + apply He; [by destruct m as [[]]|done|]. by apply (Ho e).
  - apply set_attr_ok, HQ; [by destruct m as [[]]|by split|done].
Qed.

Lemma end_all_ok gs m (Q : smtp_mon -> result unit -> Prop) :
  mo_locked m = sd_account_held (mo_sender m) -> (mo_locked m = true -> GAccount ∈ gs) ->
  (forall m', frame m' = frame m -> at_rest m' -> Q m' (Ok tt)) ->
  (forall m' e, frame m' = frame m -> mo_locked m' = false -> outside e -> Q m' (Err e)) -> srwp (end_all gs) m Q.
Proof.
  revert m; induction gs as [|[] gs IH]; intros m Hl Hin HQ He; cbn [end_all end_of].
  - apply HQ; [done|]. destruct (mo_locked m) eqn:E; [|by split]. by apply elem_of_nil in Hin.
  - apply rwp_bind. cbn [rwp]. apply IH; [done| |done..]. intros H. apply Hin in H. by apply elem_of_cons in H as [?|?].
  - apply rwp_bind, account_end_ok; [done| |done]. intros m' Hf [Hr Hh] _. apply IH; [congruence|congruence| |].
    + intros m2 Hf2. rewrite Hf in Hf2. by apply HQ.
    + intros m2 e Hf2. rewrite Hf in Hf2. by apply He.
Qed.

Lemma end_critical_ok m (Q : smtp_mon -> result unit -> Prop) : at_rest m \/ in_section m ->
  (forall m', frame m' = frame m -> at_rest m' -> Q m' (Ok tt)) ->
  (forall m' e, frame m' = frame m -> mo_locked m' = false -> outside e -> Q m' (Err e)) -> srwp end_critical_section m Q.
Proof.
  intros Hm HQ He. unfold end_critical_section. apply attr_ok, rwp_bind, end_all_ok; [| | |done].
  - destruct Hm as [[]|[]]; congruence.
  - intros H. destruct Hm as [[]|[]]; [congruence|]. by rewrite list_elem_of_In, <- in_rev, <- list_elem_of_In.
  - intros m' Hf [Hr Hh]. apply set_attr_ok, HQ; [rewrite <- Hf; by destruct m' as [[]]|]. split; by destruct m' as [[]].
Qed.

Lemma account_begin_ok t m (Q : smtp_mon -> result bool -> Prop) : at_rest m ->
  (forall m', frame m' = frame m -> mo_locked m' = true -> sd_account_held (mo_sender m') = true -> Q m' (Ok true)) ->
  (forall m', frame m' = frame m -> at_rest m' -> Q m' (Ok false)) ->
  (forall m' e, frame m' = frame m -> mo_locked m' = false -> outside e -> Q m' (Err e)) -> srwp (account_begin t) m Q.
Proof.
  intros [Hl Hh] HQ Hn He. unfold account_begin. apply rwp_bind, rwp_perform; [done|]. intros [[]|e] Ho; cbn [smtp_next is_ok_true negb].
  - apply rwp_bind, set_attr_ok, rwp_bind, account_valid_ok. intros m1 b S1 _ _.
    destruct (same_frame _ _ S1) as (Hf & H1 & H2 & H3). cbn in H1, H2. destruct b; cbn [negb].
    + apply HQ; [rewrite Hf; by destruct m as [[]]|done|done].
    + apply rwp_bind, account_end_ok; [congruence| |].
      * intros m2 Hf2 Hr _. apply Hn; [|done]. rewrite Hf2, Hf. by destruct m as [[]].
      * intros m2 e Hf2 Hr Hx. apply He; [|done..]. rewrite Hf2, Hf. by destruct m as [[]].
  - apply rwp_bind, set_attr_ok, Hn; [by destruct m as [[]]|]. split; by destruct m as [[]].
  - apply He; [done..|]. by apply (Ho e).
Qed.
Lemma begin_lease_ok d gs m (Q : smtp_mon -> result bool -> Prop) : Forall (eq GLease) gs -> in_section m ->
  (forall m' b, frame m' = frame m -> in_section m' -> Q m' (Ok b)) -> srwp (begin_all d gs) m Q.
Proof.
  intros Hg. revert m. induction Hg as [|g gs <- _ IH]; intros m Hm HQ; cbn [begin_all begin_of]; [by apply HQ|].
  apply rwp_bind, rwp_perform; [done|]. intros r [t ->]. cbn [smtp_next]. apply rwp_bind.
  destruct (_ <=? 0); [by apply HQ|]. apply rwp_perform; [done|]. intros r [b ->]. cbn [smtp_next is_ok_true].
  destruct b; cbn [negb]; [|apply HQ; [by destruct m as [[]]|destruct Hm; split; by destruct m as [[]]]].
  apply rwp_bind, set_attr_ok, IH.
  - destruct Hm; split; destruct m as [[]]; try done. cbn in *. set_solver.
  - intros m' b F. apply HQ. rewrite F. by destruct m as [[]].
Qed.

Lemma begin_account_ok d gs m (Q : smtp_mon -> result bool -> Prop) : Forall (eq GLease) gs -> at_rest m ->
  (forall m' b, frame m' = frame m -> in_section m' \/ (b = false /\ at_rest m') -> Q m' (Ok b)) ->
  (forall m' e, frame m' = frame m -> mo_locked m' = false -> outside e -> Q m' (Err e)) ->
  srwp (begin_all d (GAccount :: gs)) m Q.
Proof.
  intros Hg Hm HQ He. cbn [begin_all begin_of]. apply rwp_bind, rwp_perform; [done|]. intros r [t ->]. cbn [smtp_next].
  apply rwp_bind. destruct (_ <=? 0); [apply HQ; [done|by right]|]. apply account_begin_ok; [done| | |done].
  - intros m' F L H. cbn [negb]. apply rwp_bind, set_attr_ok, begin_lease_ok; [done| |].
    + split; destruct m' as [[]]; try done. cbn. set_solver.
    + intros m2 b F2 R2. apply HQ; [|by left]. rewrite F2, <- F. by destruct m' as [[]].
  - intros m' F R. cbn [negb]. apply HQ; [done|by right].
Qed.

Lemma begin_critical_ok m (Q : smtp_mon -> result bool -> Prop) : at_rest m ->
  (forall m', frame m' = frame m -> in_section m' -> mo_account_ok m' = true -> (has_lease = true -> mo_lease_ok m' = true) ->
     Q m' (Ok true)) ->
  (forall m', frame m' = frame m -> at_rest m' -> Q m' (Ok false)) ->
  (forall m' e, frame m' = frame m -> mo_locked m' = false -> outside e -> Q m' (Err e)) ->
  srwp (begin_critical_section broker_guards) m Q.
Proof.
  intros Hm HQ Hn He. unfold begin_critical_section. apply rwp_bind, set_attr_ok.
  apply rwp_bind, rwp_perform; [done|]. intros r [now ->]. cbn [smtp_next].
  set (m0 := m {{ mo_sender := _ }}). assert (frame m0 = frame m) as F0 by (by destruct m as [[]]).
  assert (at_rest m0) as R0 by (destruct Hm; split; by destruct m as [[]]). clearbody m0. clear Hm.
  assert (rev broker_guards = GAccount :: (if has_lease then [GLease] else [])) as -> by (unfold broker_guards; by destruct has_lease).
  assert (forall m', frame m' = frame m0 -> at_rest m' \/ in_section m' ->
    srwp (_ ← end_critical_section; Ret false) m' Q) as Hfail.
  { intros m' F' Hr. apply rwp_bind, end_critical_ok; [done| |].
    - intros m2 F2 R2. apply Hn; [congruence|done].
    - intros m2 e F2. apply He. congruence. }
  apply rwp_bind, begin_account_ok; [destruct has_lease; by repeat constructor|done| |].
  - intros m1 b F1 R1. destruct b; [|apply (Hfail m1 F1); naive_solver]. destruct R1 as [R1|[? _]]; [|done].
    apply rwp_bind, all_valid_ok. intros m2 b S2 Hb. destruct (same_frame _ _ S2) as (F2 & L2 & H2 & G2).
    destruct R1 as [Rl Rh Rg]. assert (in_section m2) as R2 by (split; congruence).
    destruct b; [|apply (Hfail m2); [congruence|by right]]. destruct (Hb eq_refl) as [Ha Hl].
    apply HQ; [congruence|done|congruence|]. intros H. rewrite Hl; congruence.
  - intros m1 e F1. apply He. congruence.
Qed.

(** *** The connection *)

(** Between the start and the session only the guards and the TLS state change. *)
Definition connecting (m m' : smtp_mon) : Prop := same_session (m {{ mo_tls := mo_tls m' }}) m'.

Lemma connecting_refl m : connecting m m.
Proof. unfold connecting. by destruct m as [[]]. Qed.
Lemma connecting_same m m1 m2 : connecting m m1 -> same_session m1 m2 -> connecting m m2.
Proof. unfold connecting, same_session. intros H1 H2. rewrite H2, H1. by destruct m as [[]]. Qed.
Lemma connecting_trans m m1 m2 : connecting m m1 -> connecting m1 m2 -> connecting m m2.
Proof. unfold connecting, same_session. intros H1 H2. rewrite H2, H1. by destruct m as [[]]. Qed.

Lemma on_failure_ok {A} (p : prog smtpE A) q m (Q : smtp_mon -> result A -> Prop) :
  (forall m, srwp q m (fun m' _ => m' = m)) ->
  srwp p m (fun m' r => match r with Ok a => Q m' (Ok a) | Err e => forall e', Q m' (Err e') end) -> srwp (on_failure p q) m Q.
Proof.
  intros Hq Hp. apply rwp_try. eapply rwp_mono; [exact Hp|]. intros m' [a|e] H; [done|].
  apply rwp_bind. eapply rwp_mono; [apply Hq|]. intros m2 [[]|e2] ->; apply H.
Qed.

Lemma close_ok (op : smtpE unit) c m : (forall m, smtp_ok _ m op /\ forall r, smtp_next _ m op r = m) ->
  srwp (prog_try (perform op) (fun e => if exn_is e c then Ret tt else Raise e)) m (fun m' _ => m' = m).
Proof.
  intros H. destruct (H m) as [Ho Hn]. apply rwp_try, rwp_perform; [done|]. intros r _. rewrite Hn. destruct r; [done|]. by case_match.
Qed.

(** A step that changes nothing the monitor looks at. *)
Lemma still_ok {X A} (op : smtpE X) (f : X -> prog smtpE A) m Q : smtp_ok _ m op -> (forall r, smtp_next _ m op r = m) ->
  (forall e, Q m (Err e)) -> (forall x, srwp (f x) m Q) -> srwp (perform op ≫= f) m Q.
Proof. intros Ho Hn He Hf. apply rwp_bind, rwp_perform; [done|]. intros [x|e] _; rewrite Hn; [apply Hf|apply He]. Qed.

Lemma check_then {A} (f : unit -> prog smtpE A) m Q :
  (forall m' e, same_session m m' -> Q m' (Err e)) -> (forall m', same_session m m' -> srwp (f tt) m' Q) ->
  srwp (_check_abort broker_guards ≫= f) m Q.
Proof. intros He Hf. apply rwp_bind, check_abort_ok. intros m' [[]|e] S _; [by apply Hf|by apply He]. Qed.

Lemma wrap_ok m (Q : smtp_mon -> result unit -> Prop) :
  (forall m' r, connecting m m' -> (r = Ok tt -> mo_tls m' = true) -> Q m' r) -> srwp (_wrap_tls_socket broker_guards) m Q.
Proof.
  intros HQ. unfold _wrap_tls_socket. apply on_failure_ok; [intros m1; by apply close_ok|].
  assert (forall m' e, connecting m m' -> Q m' (Err e)) as He by (intros; by apply HQ).
  do 2 (apply still_ok; [done|done|intros; apply He, connecting_refl|intros _]).
  apply check_then; [intros m' e S e'; apply He; eapply connecting_same; [apply connecting_refl|done]|]. intros m1 S1.
  assert (connecting m m1) as C1 by (eapply connecting_same; [apply connecting_refl|done]).
  apply rwp_bind, rwp_perform; [done|]. intros [[]|e] _; cbn [smtp_next]; [|intros; by apply He].
  apply check_abort_ok. intros m2 r S2 _.
  assert (connecting m m2) as C2 by (eapply connecting_trans; [exact C1|]; rewrite S2; by destruct m1 as [[]]).
  destruct r as [[]|]; [|intros; by apply He]. apply HQ; [done|]. intros _. by rewrite S2.
Qed.
Lemma same_connecting m m' : same_session m m' -> connecting m m'.
Proof. apply connecting_same, connecting_refl. Qed.

Lemma tracked_ok tls addr m (Q : smtp_mon -> result unit -> Prop) : permitted ->
  (forall m' r, connecting m m' -> (r = Ok tt -> tls = true -> mo_tls m' = true) -> Q m' r) ->
  srwp (tracked_smtp broker_guards tls addr) m Q.
Proof.
  intros Hp HQ. assert (forall m' e, connecting m m' -> Q m' (Err e)) as He by (intros; by apply HQ).
  unfold tracked_smtp, _get_socket. apply rwp_bind.
  do 2 (apply still_ok; [done|done|intros; apply He, connecting_refl|intros _]).
  apply on_failure_ok; [intros m1; by apply close_ok|].
  assert (forall m' r, connecting m m' -> (r = Ok tt -> tls = true -> mo_tls m' = true) ->
    match r with Ok a => srwp (perform SGreeting) m' Q | Err _ => forall e', Q m' (Err e') end) as Hend.
  { intros m' [[]|] C T; [|intros; by apply He]. apply rwp_perform; [done|]. intros [[]|e] _; cbn [smtp_next]; [|by apply He].
    apply HQ; [done|]. intros _. by apply T. }
  apply check_then; [intros m' e S e'; by apply He, same_connecting|]. intros m1 S1.
  apply rwp_bind, rwp_perform; [done|]. intros r _. cbn [smtp_next].
  assert (connecting m (m1 {{ mo_tls := false }})) as C1 by (rewrite S1; by destruct m as [[]]).
  destruct r as [[]|e]; [|intros; by apply He].
  apply check_then; [intros m' e S e'; apply He; by eapply connecting_same|]. intros m2 S2.
  pose proof (connecting_same _ _ _ C1 S2) as C2. destruct tls; [|by apply (Hend m2 (Ok tt))].
  apply wrap_ok. intros m3 r C3 T. specialize (Hend m3 r (connecting_trans _ _ _ C2 C3)).
  destruct r as [[]|]; apply Hend; auto.
Qed.

Lemma starttls_ok m (Q : smtp_mon -> result Z -> Prop) :
  (forall m' r, connecting m m' -> (forall c, r = Ok c -> mo_tls m' = true) -> Q m' r) -> srwp (starttls broker_guards) m Q.
Proof.
  intros HQ. assert (forall m' e, connecting m m' -> Q m' (Err e)) as He by (intros; by apply HQ).
  unfold starttls. apply still_ok; [done|done|intros; apply He, connecting_refl|intros _].
  apply still_ok; [done|done|intros; apply He, connecting_refl|]. intros supported. destruct supported; cbn [negb]; [|apply He, connecting_refl].
  apply check_then; [intros m' e S; by apply He, same_connecting|]. intros m1 S1. apply same_connecting in S1.
  apply still_ok; [done|done|intros; by apply He|]. intros c. destruct (negb _); [by apply He|].
  apply rwp_bind, on_failure_ok; [intros m2; by apply close_ok|]. apply wrap_ok. intros m2 r C2 T.
  pose proof (connecting_trans _ _ _ S1 C2) as C. destruct r as [[]|]; [|intros; by apply He]. apply HQ; [done|]. intros _ _. by apply T.
Qed.

Lemma connect_ok addr m (Q : smtp_mon -> result unit -> Prop) : permitted ->
  (forall m' r, connecting m m' -> (r = Ok tt -> mo_tls m' = true) -> Q m' r) ->
  srwp (_connect broker_guards account addr) m Q.
Proof.
  intros Hp HQ. assert (forall m' e, connecting m m' -> Q m' (Err e)) as He by (intros; by apply HQ).
  unfold _connect. destruct (implicit_tls account); [apply tracked_ok; [done|]; intros m' r C T; apply HQ; auto|].
  destruct (negb _); [apply He, connecting_refl|]. apply rwp_bind, tracked_ok; [done|]. intros m1 [[]|e] C1 _; [|by apply He].
  apply on_failure_ok; [intros m2; by apply close_ok|].
  apply still_ok; [done|done|intros; by apply He|intros _]. apply still_ok; [done|done|intros; by apply He|]. intros c.
  destruct (negb _); [intros ?; by apply He|].
  apply check_then; [intros m' e S e'; apply He; by eapply connecting_same|]. intros m2 S2. pose proof (connecting_same _ _ _ C1 S2) as C2.
  apply rwp_bind, starttls_ok. intros m3 r C3 T. pose proof (connecting_trans _ _ _ C2 C3) as C. destruct r as [c'|e]; [|intros; by apply He].
  destruct (negb _); [intros ?; by apply He|].
  do 2 (apply still_ok; [done|done|intros; by apply He|intros _]). apply HQ; [done|]. intros _. by eapply T.
Qed.
(** *** The session *)

Definition message : list Ascii.ascii := _dot_stuffed (chars (mq_mime_bytes request)).

(** The server took the message over. *)
Definition delivered (m : smtp_mon) : Prop := mo_payloads m = [message] /\ exists c, mo_reply m = Some c /\ 200 <= c < 300.
(** Nothing was submitted, or the server refused it. *)
Definition not_delivered (m : smtp_mon) : Prop := mo_payloads m = [] \/ exists c, mo_reply m = Some c /\ ~ (200 <= c < 300).

Record truthful (m : smtp_mon) (receipt : MailDeliveryReceipt) : Prop := {
  tr_identity : mc_local_action_id receipt = mq_local_action_id request /\ mc_message_id receipt = mq_message_id request;
  tr_recipients : (rr_recipient <$> mc_recipient_results receipt) ≡ₚ recipients request;
  tr_status : match mc_status receipt with
    | MailDeliveryStatus.SUCCEEDED => delivered m /\ mo_accepted m = recipients request /\ accepted receipt = recipients request
    | MailDeliveryStatus.PARTIAL => delivered m /\ accepted receipt = mo_accepted m /\ rejected receipt <> []
    | MailDeliveryStatus.FAILED => not_delivered m /\ accepted receipt = []
    | MailDeliveryStatus.UNKNOWN => accepted receipt = []
    | _ => False
    end
}.

Lemma accepted_app l k : List.filter (fun i => bool_decide (rr_status i = MailRecipientStatus.ACCEPTED)) (l ++ k) =
  (List.filter (fun i => bool_decide (rr_status i = MailRecipientStatus.ACCEPTED)) l ++
   List.filter (fun i => bool_decide (rr_status i = MailRecipientStatus.ACCEPTED)) k)%list.
Proof. apply List.filter_app. Qed.

Definition all_rejected : list MailRecipientResult -> Prop := Forall (fun i => rr_status i = MailRecipientStatus.REJECTED).

Lemma none_accepted l : Forall (fun i => rr_status i <> MailRecipientStatus.ACCEPTED) l ->
  List.filter (fun i => bool_decide (rr_status i = MailRecipientStatus.ACCEPTED)) l = [].
Proof. induction 1 as [|x l H _ IH]; [done|]. cbn. by rewrite bool_decide_eq_false_2. Qed.

Lemma rejected_not_accepted l : all_rejected l -> Forall (fun i => rr_status i <> MailRecipientStatus.ACCEPTED) l.
Proof. intros H. eapply Forall_impl; [exact H|]. cbn. by intros i ->. Qed.

Lemma results_accepted l : (rr_recipient <$> List.filter (fun i => bool_decide (rr_status i = MailRecipientStatus.ACCEPTED))
  (recipient_result MailRecipientStatus.ACCEPTED None <$> l)) = l.
Proof. induction l as [|x l IH]; [done|]. cbn. rewrite bool_decide_eq_true_2 by done. rewrite fmap_cons. cbn [rr_recipient recipient_result]. by rewrite IH. Qed.

Lemma results_recipients st c (l : list string) : rr_recipient <$> (recipient_result st c <$> l) = l.
Proof. rewrite <- list_fmap_compose. by apply list_fmap_id. Qed.

Lemma results_status (P : MailRecipientStatus.t -> Prop) st c l : P st -> Forall (fun i => P (rr_status i)) (recipient_result st c <$> l).
Proof. intros H. by apply Forall_fmap, Forall_forall. Qed.

(** The receipts of a submission that did not take place. *)
Lemma failed_truthful m results code : not_delivered m -> all_rejected results -> (rr_recipient <$> results) ≡ₚ recipients request ->
  truthful m (_receipt request MailDeliveryStatus.FAILED results code).
Proof. intros Hm Hr Hp. split; [done|done|]. split; [done|]. unfold accepted. cbn [mc_recipient_results _receipt]. by rewrite none_accepted by (by apply rejected_not_accepted). Qed.

Lemma unknown_truthful m : truthful m (_receipt request MailDeliveryStatus.UNKNOWN (_unknown_results (recipients request)) None).
Proof.
  unfold _receipt, _unknown_results. split; [done| |]; cbn [mc_recipient_results mc_status]; [by rewrite results_recipients|].
  unfold accepted. cbn [mc_recipient_results]. rewrite none_accepted; [done|]. by apply (results_status (fun s => s <> MailRecipientStatus.ACCEPTED)).
Qed.

Lemma unsubmitted_truthful m : mo_payloads m = [] ->
  truthful m (_receipt request MailDeliveryStatus.FAILED (_failed_results (recipients request)) None).
Proof.
  intros H. apply failed_truthful; [by left| |unfold _failed_results; by rewrite results_recipients].
  by apply (results_status (fun s => s = MailRecipientStatus.REJECTED)).
Qed.

Lemma permitted_recipients a : permitted -> a ∈ recipients request -> recipient_allowed policy a = true.
Proof.
  unfold permitted, check_request. cbv zeta. repeat (case_match; cbn; try done). intros _ Ha. bool_props.
  by eapply forallb_forall; [|apply list_elem_of_In].
Qed.

Lemma rcpt_all_ok l acc rej m (Q : smtp_mon -> result (list string * list MailRecipientResult) -> Prop) :
  permitted -> mo_tls m = true -> l ⊆ recipients request -> mo_accepted m = acc -> all_rejected rej ->
  (forall m' e, mo_locked m' = mo_locked m -> m' = m {{ mo_accepted := mo_accepted m' }} -> Q m' (Err e)) ->
  (forall acc' rej', all_rejected rej' -> (acc' ++ (rr_recipient <$> rej')) ≡ₚ (acc ++ (rr_recipient <$> rej)) ++ l ->
     (rej' = [] -> rej = [] /\ acc' = acc ++ l)%list -> Q (m {{ mo_accepted := acc' }}) (Ok (acc', rej'))) ->
  srwp (rcpt_all l acc rej) m Q.
Proof.
  intros Hp Ht. revert acc rej m Ht. induction l as [|a l IH]; intros acc rej m Ht Hl Ha Hr He HQ; cbn [rcpt_all].
  { rewrite <- Ha in *. replace m with (m {{ mo_accepted := mo_accepted m }}) by (by destruct m).
    apply HQ; [done|by rewrite app_nil_r|]. intros ->. by rewrite app_nil_r. }
  apply rwp_bind, rwp_perform.
  { split_and!; [done|set_solver|]. apply permitted_recipients; [done|set_solver]. }
  intros [c|e] _; cbn [smtp_next]; [|apply He; [done|by destruct m]].
  destruct (accepted_code c).
  - apply IH; [done|set_solver|by rewrite <- Ha|done| |].
    + intros m' e L E. apply He; [done|]. rewrite E. done.
    + intros acc' rej' R P N. apply (HQ acc' rej'); [done| |].
      * rewrite P, <- !app_assoc. apply Permutation_app_head. cbn [app]. apply Permutation_middle.
      * intros ->. destruct (N eq_refl) as [-> ->]. by rewrite <- app_assoc.
  - apply IH; [done|set_solver|done| |done|].
    + apply Forall_app. split; [done|]. by repeat constructor.
    + intros acc' rej' R P N. apply HQ; [done| |].
      * rewrite P, fmap_app. cbn. by rewrite <- !app_assoc.
      * intros ->. destruct (N eq_refl) as [E _]. by destruct rej.
Qed.
Lemma frame_fields m m' : frame m' = frame m -> sd_phase (mo_sender m') = sd_phase (mo_sender m) /\
  sd_last (mo_sender m') = sd_last (mo_sender m) /\ mo_tls m' = mo_tls m /\ mo_accepted m' = mo_accepted m /\
  mo_go_ahead m' = mo_go_ahead m /\ mo_payloads m' = mo_payloads m /\ mo_reply m' = mo_reply m.
Proof. by intros [=]. Qed.

(** What a failed submission leaves: nothing was sent, or the outcome is in doubt. *)
Definition in_doubt (m : smtp_mon) : Prop := mo_payloads m = [] \/ sd_phase (mo_sender m) ∈ [AtData; PostData].
Definition clean (m m' : smtp_mon) : Prop := mo_locked m' = false /\ sd_last (mo_sender m') = sd_last (mo_sender m) /\
  mo_accepted m' = mo_accepted m.

(** The lock is released whatever the submission came to. *)
Lemma leave_ok {A} (r : result A) m (Q : smtp_mon -> result A -> Prop) : in_section m ->
  (forall m' , frame m' = frame m -> at_rest m' -> Q m' r) ->
  (forall m' e, frame m' = frame m -> mo_locked m' = false -> outside e -> Q m' (Err e)) ->
  match r with Ok a => srwp (_ ← end_critical_section; Ret a) m Q | Err e => srwp (_ ← end_critical_section; Raise e) m Q end.
Proof.
  intros Hm HQ He. destruct r; apply rwp_bind, end_critical_ok; try (by right); intros; cbn [rwp]; auto.
Qed.

Lemma submit_ok acc rej m (Q : smtp_mon -> result (MailDeliveryReceipt + Z) -> Prop) :
  in_section m -> mo_account_ok m = true -> (has_lease = true -> mo_lease_ok m = true) -> mo_tls m = true ->
  mo_accepted m = acc -> acc <> [] -> mo_payloads m = [] -> sd_phase (mo_sender m) = AtData ->
  (forall m' e, clean m m' -> in_doubt m' -> outside e -> Q m' (Err e)) ->
  (forall m' c, clean m m' -> at_rest m' -> mo_payloads m' = [] ->
     Q m' (Ok (inl (_receipt request MailDeliveryStatus.FAILED (rej ++ (refused_by c <$> acc))%list (Some (str_code c)))))) ->
  (forall m' c, clean m m' -> at_rest m' -> mo_payloads m' = [message] -> mo_reply m' = Some c -> Q m' (Ok (inr c))) ->
  srwp (submit request acc rej) m Q.
Proof.
  intros Hs Ha Hl Ht Hacc Hne Hpay Hph He HQl HQr. unfold submit. apply rwp_match, rwp_bind, rwp_perform; [done|].
  (* leaving from a state with the frame of [m1] *)
  assert (forall m1 (r : result (MailDeliveryReceipt + Z)), in_section m1 -> sd_last (mo_sender m1) = sd_last (mo_sender m) -> mo_accepted m1 = mo_accepted m ->
    in_doubt m1 -> (forall m', frame m' = frame m1 -> at_rest m' -> clean m m' -> Q m' r) ->
    match r with Ok a => srwp (_ ← end_critical_section; Ret a) m1 Q | Err e => srwp (_ ← end_critical_section; Raise e) m1 Q end) as Hleave.
  { intros m1 r H1 L1 A1 D1 HQ1. apply leave_ok; [done| |].
    - intros m' F R. destruct (frame_fields _ _ F) as (?&?&?&?&_). apply HQ1; [done..|]. destruct R. split_and!; congruence.
    - intros m' e F R O. destruct (frame_fields _ _ F) as (Fp&?&?&?&?&Fy&_). apply He; [split_and!; congruence| |done].
      unfold in_doubt. by rewrite Fp, Fy. }
  intros [c|e] Ho; cbn [smtp_next].
  2:{ apply (Hleave m (Err e)); [done..|by left|]. intros m' F R C. apply He; [done| |by apply (Ho e)].
      left. by destruct (frame_fields _ _ F) as (?&?&?&?&?&->&_). }
  set (m1 := m {{ mo_go_ahead := _ }}). assert (in_section m1) as S1 by (by destruct Hs; split).
  destruct (c =? 354) eqn:Hc; cbn [negb].
  2:{ apply (Hleave m1 (Ok (inl _))); [done..|by left|]. intros m' F R C. apply HQl; [done..|].
      by destruct (frame_fields _ _ F) as (?&?&?&?&?&->&_). }
  apply rwp_bind, rwp_perform; [cbn; split_and!; try done; [by destruct Hs|by rewrite Hacc]|]. intros [[]|e] Ho2; cbn [smtp_next].
  2:{ eapply (Hleave _ (Err e)); [by destruct S1; split|done..|right; cbn; rewrite Hph; set_solver|]. intros m' F R C.
      apply He; [done| |by apply (Ho2 e)]. right. destruct (frame_fields _ _ F) as (->&_). cbn. rewrite Hph. set_solver. }
  apply rwp_bind, set_attr_ok. apply rwp_bind, rwp_perform; [done|]. intros [c2|e] Ho3; cbn [smtp_next].
  - eapply (Hleave _ (Ok (inr c2))); [by destruct S1; split|done..|right; cbn; set_solver|]. intros m' F R C.
    destruct (frame_fields _ _ F) as (?&?&?&?&?&Fy&Fr). apply HQr; [done..| |done]. rewrite Fy. cbn. by rewrite Hpay.
  - eapply (Hleave _ (Err e)); [by destruct S1; split|done..|right; cbn; set_solver|]. intros m' F R C.
    apply He; [done| |by apply (Ho3 e)]. right. destruct (frame_fields _ _ F) as (->&_). cbn. set_solver.
Qed.
Lemma login_ok m (Q : smtp_mon -> result unit -> Prop) : mo_tls m = true -> (forall r, Q m r) -> srwp (_login account) m Q.
Proof.
  intros Ht HQ. unfold _login. apply rwp_try, rwp_perform; [done|]. intros [[]|e] _; cbn [smtp_next]; [apply HQ|].
  repeat case_match; apply HQ.
Qed.

(** A session that is connected and has not submitted anything. *)
Record ready (m : smtp_mon) : Prop := {
  rd_rest : at_rest m;
  rd_tls : mo_tls m = true;
  rd_accepted : mo_accepted m = [];
  rd_payloads : mo_payloads m = [];
  rd_last : sd_last (mo_sender m) = None
}.

Lemma ready_same m m' : ready m -> same_session m m' -> ready m'.
Proof. intros [[? ?] ? ? ? ?] S. destruct (same_frame _ _ S) as (F & L & H & _). destruct (frame_fields _ _ F) as (?&?&?&?&?&?&?).
  split; [split|..]; congruence. Qed.

(** The outcome of the worker's session. *)
Definition session_post (m : smtp_mon) (r : result MailDeliveryReceipt) : Prop :=
  mo_locked m = false /\ sd_last (mo_sender m) = None /\
  match r with Ok receipt => truthful m receipt | Err e => mo_payloads m = [] \/ (in_doubt m /\ outside e) end.

Lemma refused_rejected c l : all_rejected (refused_by c <$> l).
Proof. by apply Forall_fmap, Forall_forall. Qed.

Lemma refused_recipients c (l : list string) : rr_recipient <$> (refused_by c <$> l) = l.
Proof. rewrite <- list_fmap_compose. by apply list_fmap_id. Qed.

(** The receipt of a final reply. *)
Lemma final_truthful m c acc rej : mo_payloads m = [message] -> mo_reply m = Some c -> mo_accepted m = acc -> acc <> [] ->
  all_rejected rej -> (acc ++ (rr_recipient <$> rej)) ≡ₚ recipients request -> (rej = [] -> acc = recipients request) ->
  truthful m (if (200 <=? c) && (c <? 300)
    then _receipt request (if bool_decide (rej = []) then MailDeliveryStatus.SUCCEEDED else MailDeliveryStatus.PARTIAL)
           ((recipient_result MailRecipientStatus.ACCEPTED None <$> acc) ++ rej)%list (Some (str_code c))
    else _receipt request MailDeliveryStatus.FAILED (rej ++ (refused_by c <$> acc))%list (Some (str_code c))).
Proof.
  intros Hp Hr Ha Hn Hj Hperm Hall. destruct ((200 <=? c) && (c <? 300)) eqn:Hc.
  - assert (200 <= c < 300) as Hc' by (bool_props; lia).
    assert (forall st, accepted (_receipt request st ((recipient_result MailRecipientStatus.ACCEPTED None <$> acc) ++ rej)%list (Some (str_code c))) = acc) as Hacc.
    { intros st. unfold accepted. cbn [mc_recipient_results _receipt]. rewrite List.filter_app, fmap_app, results_accepted.
      rewrite none_accepted by (by apply rejected_not_accepted). by rewrite app_nil_r. }
    split; [done|cbn [mc_recipient_results _receipt]; by rewrite fmap_app, results_recipients|].
    assert (delivered m) as Hd by (split; [done|by exists c]). cbn [mc_status _receipt].
    case_bool_decide as E; [split_and!; [done|by rewrite Ha, Hall|by rewrite Hacc, Hall]|].
    split_and!; [done|by rewrite Hacc|]. unfold rejected. cbn [mc_recipient_results _receipt]. rewrite List.filter_app.
    destruct rej as [|x rej]; [done|]. inversion Hj as [|? ? Hx Hj']. cbn. rewrite (bool_decide_eq_true_2 (rr_status x = _)) by done.
    intros E'. by apply app_eq_nil in E' as [_ ?].
  - apply failed_truthful; [|by apply Forall_app; split; [|apply refused_rejected]|].
    + right. exists c. split; [done|]. apply andb_false_iff in Hc. lia.
    + rewrite fmap_app, refused_recipients. by rewrite Permutation_app_comm.
Qed.

(** From the accepted recipients to the receipt. *)
Lemma data_ok acc rej m : at_rest m -> mo_tls m = true -> mo_accepted m = acc -> mo_payloads m = [] ->
  sd_last (mo_sender m) = None -> sd_phase (mo_sender m) = AtData -> acc <> [] -> all_rejected rej ->
  (acc ++ (rr_recipient <$> rej)) ≡ₚ recipients request -> (rej = [] -> acc = recipients request) ->
  srwp (submission broker_guards request acc rej) m session_post.
Proof.
  intros [Ql Qh] Qt Qa Qy Qs Qp Hne Hj Hperm Hall. unfold submission.
  assert (forall m' r, frame m' = frame m -> mo_locked m' = false -> (forall rc, r = Ok rc -> truthful m' rc) -> session_post m' r) as Hquit.
  { intros m' r F L Hr. destruct (frame_fields _ _ F) as (?&?&?&?&?&?&?). split_and!; [done|congruence|].
    destruct r; [by apply Hr|left; congruence]. }
  apply check_then; [intros m' e S; destruct (same_frame _ _ S) as (F & L & _); apply Hquit; [done|congruence|done]|].
  intros m5 S5. destruct (same_frame _ _ S5) as (F5 & L5 & H5 & G5). destruct (frame_fields _ _ F5) as (?&?&?&?&?&?&?).
  apply rwp_bind, begin_critical_ok; [split; congruence| | |].
  - intros m6 F6 I6 A6 L6. destruct (frame_fields _ _ F6) as (?&?&?&?&?&?&?). cbn [negb].
    apply rwp_bind, submit_ok; try done; try congruence.
    + intros m' e (C1&C2&C3) D O. split_and!; [done|congruence|by right].
    + intros m' c' (C1&C2&C3) R P. split_and!; [done|congruence|]. apply failed_truthful; [by left| |].
      * apply Forall_app. split; [done|apply refused_rejected].
      * rewrite fmap_app, refused_recipients. by rewrite Permutation_app_comm.
    + intros m' c' (C1&C2&C3) R P Hr. apply rwp_bind, set_attr_ok. set (m7 := m' {{ mo_sender := _ }}).
      assert (mo_accepted m7 = acc) as A7 by (change (mo_accepted m' = acc); congruence).
      pose proof (final_truthful m7 c' acc rej P Hr A7 Hne Hj Hperm Hall) as Htr.
      destruct ((200 <=? c') && (c' <? 300)); (split_and!; [done|change (sd_last (mo_sender m') = None); congruence|done]).
  - intros m6 F6 R6. cbn [negb]. unfold _raise_if_account_changed. destruct R6 as [R6 _].
    apply rwp_bind, rwp_bind, first_reason_ok. intros m7 o S7. destruct (same_frame _ _ S7) as (F7 & L7 & _).
    assert (frame m7 = frame m) as F by congruence. destruct (frame_fields _ _ F) as (?&?&?&?&?&?&?).
    case_match; (apply Hquit; [done|congruence|]); [done|]. intros rc [= <-]. apply unsubmitted_truthful. congruence.
  - intros m6 e F6 L6 _. apply Hquit; [congruence|done|done].
Qed.

Lemma session_ok m : permitted -> ready m -> srwp (session broker_guards account request) m session_post.
Proof.
  intros Hp Hm. unfold session.
  assert (forall m r, ready m -> (forall rc, r = Ok rc -> truthful m rc) -> session_post m r) as Hearly.
  { intros m1 r [[] ? ? ? ?] Hr. split_and!; [done..|]. destruct r; [by apply Hr|by left]. }
  apply rwp_bind, set_attr_ok. set (m1 := m {{ mo_sender := _ }}).
  assert (ready m1) as R1 by (destruct Hm as [[]]; split; [split|..]; by destruct m as [[]]). clearbody m1. clear m Hm.
  apply check_then; [intros m' e S; apply Hearly; [by eapply ready_same|done]|]. intros m2 S2. pose proof (ready_same _ _ R1 S2) as R2.
  apply rwp_bind, login_ok; [by destruct R2|]. intros [[]|e]; [|by apply Hearly].
  apply check_then; [intros m' e S; apply Hearly; [by eapply ready_same|done]|]. intros m3 S3. pose proof (ready_same _ _ R2 S3) as R3.
  apply still_ok; [by destruct R3|done|intros; by apply Hearly|]. intros c. destruct (accepted_code c); cbn [negb].
  2:{ apply Hearly; [done|]. intros rc [= <-]. apply failed_truthful; [left; by destruct R3| |].
      - by apply (results_status (fun s => s = MailRecipientStatus.REJECTED)).
      - unfold _failed_results. by rewrite results_recipients. }
  apply rwp_bind, rcpt_all_ok; [done|by destruct R3|done|by destruct R3|by constructor| |].
  { intros m' e L E. destruct R3 as [[R3 ?] ? ? ? ?]. rewrite E. split_and!; [done..|]. by left. }
  intros acc rej Hj Hperm Hall. cbn [app] in Hperm, Hall. destruct R3 as [[Rl Rh] Rt Ra Rp Rs].
  case_bool_decide as En.
  { split_and!; [done..|]. apply failed_truthful; [by left|done|]. by subst acc. }
  apply rwp_bind, set_attr_ok, data_ok; try done. intros E. by destruct (Hall E).
Qed.

(** The outcome of the worker: an error that leaves it after the submission is none of the classes that
    mean a definitive failure. *)
Definition worker_post (m : smtp_mon) (r : result MailDeliveryReceipt) : Prop :=
  mo_locked m = false /\
  match r with
  | Ok receipt => truthful m receipt
  | Err e => sd_last (mo_sender m) = None /\ in_doubt m /\ (mo_payloads m = [] \/ (outside e /\ exn_is e PyOSError = false))
  end.

Lemma unsubmitted_ok phases m (Q : smtp_mon -> result MailDeliveryReceipt -> Prop) : AtData ∈ phases -> PostData ∈ phases -> in_doubt m ->
  (forall rc, truthful m rc -> Q m (Ok rc)) -> srwp (unsubmitted request phases) m Q.
Proof.
  intros H1 H2 Hd HQ. unfold unsubmitted. apply attr_ok, HQ. destruct (mem_b _ _) eqn:E; [apply unknown_truthful|].
  apply unsubmitted_truthful. destruct Hd as [?|Hd]; [done|]. apply mem_b_false in E. destruct E.
  rewrite !elem_of_cons, elem_of_nil in Hd. destruct Hd as [->|[->|[]]]; done.
Qed.

Lemma session_failed_ok e m : session_post m (Err e) -> srwp (session_failed request e) m worker_post.
Proof.
  intros (Hl & Hs & He). assert (in_doubt m) as Hd by (destruct He as [?|[? _]]; [by left|done]). unfold session_failed.
  destruct (exn_is e SendAborted); [apply unsubmitted_ok; [set_solver..|done|]; by split|].
  destruct (exn_is e PyOSError) eqn:Eo; cbn [orb]; [apply unsubmitted_ok; [set_solver..|done|]; by split|].
  destruct (exn_is e PyTimeoutError); [apply unsubmitted_ok; [set_solver..|done|]; by split|].
  cbn [rwp]. split_and!; try done. destruct He as [?|[_ ?]]; [by left|by right].
Qed.

Lemma finally_still {A} (p : prog smtpE A) q m (Q : smtp_mon -> result A -> Prop) :
  (forall m, srwp q m (fun m' r => m' = m /\ r = Ok tt)) -> srwp p m Q -> srwp (prog_finally p q) m Q.
Proof.
  intros Hq Hp. apply rwp_match. eapply rwp_mono; [exact Hp|]. intros m' [a|e] H; apply rwp_bind;
    (eapply rwp_mono; [apply Hq|]); by intros m2 r [-> ->].
Qed.

Lemma suppressed_ok (op : smtpE unit) m : (forall m, smtp_ok _ m op) -> (forall m r, smtp_next _ m op r = m) ->
  (forall m r e, smtp_may _ m op r -> r = Err e -> exn_is e PyException = true) ->
  srwp (suppressed (perform op)) m (fun m' r => m' = m /\ r = Ok tt).
Proof.
  intros Ho Hn Hm. apply rwp_try, rwp_perform; [done|]. intros [[]|e] Hr; rewrite Hn; [done|]. by rewrite (Hm _ _ _ Hr eq_refl).
Qed.

Lemma send_sync_ok addr m : permitted -> at_rest m -> mo_accepted m = [] -> mo_payloads m = [] -> sd_last (mo_sender m) = None ->
  srwp (_send_sync broker_guards account request addr) m worker_post.
Proof.
  intros Hp [Hl Hh] Ha Hy Hs. unfold _send_sync. apply rwp_bind, set_attr_ok, rwp_match, connect_ok; [done|].
  intros m1 r C T. destruct (same_frame _ _ C) as (F & L & H & _). destruct (frame_fields _ _ F) as (_&Fl&_&Fa&_&Fy&_).
  assert (at_rest m1) as R1 by (split; [rewrite L|rewrite H]; done).
  assert (mo_accepted m1 = [] /\ mo_payloads m1 = [] /\ sd_last (mo_sender m1) = None) as (Ha1 & Hy1 & Hs1)
    by (split_and!; [rewrite Fa|rewrite Fy|rewrite Fl]; done).
  destruct r as [[]|e].
  - apply finally_still.
    + intros m2. apply rwp_bind. eapply rwp_mono; [apply suppressed_ok; try done; intros ? ? e Hr; by apply Hr|].
      intros m3 r [-> ->]. apply suppressed_ok; try done. intros ? ? e Hr. by apply Hr.
    + apply rwp_try. eapply rwp_mono; [apply session_ok; [done|]|].
      * split; try done. by apply T.
      * intros m2 [rc|e] Hpost; [by destruct Hpost as (?&_&?)|by apply session_failed_ok].
  - apply session_failed_ok. destruct R1. split_and!; [done..|]. by left.
Qed.

(** ** The theorems' postcondition *)
Definition send_post (m : smtp_mon) (r : result MailDeliveryReceipt) : Prop :=
  mo_locked m = false /\
  match r with Ok receipt => truthful m receipt | Err e => exn_is e MailError = true -> mo_payloads m = [] end.

Lemma cert_is_oserror e : exn_is e SSLCertVerificationError = true -> exn_is e PyOSError = true.
Proof. unfold exn_is. destruct (exn_cls e); by vm_compute. Qed.

Lemma abort_receipt_ok m : mo_locked m = false -> in_doubt m -> srwp (_abort_receipt request) m send_post.
Proof. intros Hl Hd. apply unsubmitted_ok; [set_solver..|done|]. by split. Qed.

Lemma timeout_receipt_ok m : mo_locked m = false -> in_doubt m -> sd_last (mo_sender m) = None -> srwp (_timeout_receipt request) m send_post.
Proof. intros Hl Hd Hn. unfold _timeout_receipt. apply attr_ok. rewrite Hn. by apply abort_receipt_ok. Qed.

Lemma wait_failed_ok e m : mo_locked m = false -> mo_payloads m = [] \/ (outside e /\ exn_is e PyOSError = false) ->
  send_post m (wait_failed e).
Proof.
  intros Hl He. split; [done|]. unfold wait_failed. destruct (exn_is e MailError) eqn:Em.
  { intros _. destruct He as [?|[? _]]; [done|]. unfold outside in *. congruence. }
  destruct (exn_is e SSLCertVerificationError) eqn:Ec.
  { intros _. destruct He as [?|[_ ?]]; [done|]. apply cert_is_oserror in Ec. congruence. }
  destruct (exn_is e PyOSError) eqn:Eo; [|congruence]. intros _. destruct He as [?|[_ ?]]; [done|congruence].
Qed.

Lemma truthful_last m rc : truthful m rc -> truthful (m {{ mo_sender := (mo_sender m) {{ sd_last := Some rc }} }}) rc.
Proof. intros [? ? ?]. by split. Qed.

Lemma send_ok m : at_rest m -> mo_accepted m = [] -> mo_payloads m = [] ->
  srwp (send broker_guards account policy timeout request) m send_post.
Proof.
  intros [Hl Hh] Ha Hy. unfold send. apply rwp_bind, rwp_of_result.
  destruct (check_request account policy request) as [[]|e] eqn:Hp; [|by split].
  apply rwp_bind, set_attr_ok. apply rwp_bind, rwp_perform; [done|]. intros r [t ->]. cbn [smtp_next]. cbv zeta.
  set (m1 := m {{ mo_sender := _ }}).
  assert (srwp (_abort_receipt request) m1 send_post) as Hab by (apply abort_receipt_ok; [done|by left]).
  apply rwp_match, rwp_perform; [done|]. intros [addresses|e] _; cbn [smtp_next]; [|case_match; [done|by split]].
  destruct addresses as [|addr rest]; [done|]. apply rwp_bind, rwp_perform; [done|]. intros r [t2 ->]. cbn [smtp_next].
  destruct (_ <=? 0); [done|]. apply rwp_match, rwp_bind. eapply rwp_mono; [by apply send_sync_ok|].
  intros m2 [rc|e] [Hl2 Hr].
  - apply rwp_bind, set_attr_ok. apply truthful_last in Hr. set (m3 := m2 {{ mo_sender := _ }}) in *.
    apply rwp_bind, rwp_perform; [done|]. intros r [w ->]. cbn [smtp_next].
    destruct w; [by split| |by split]. unfold _timeout_receipt. by apply attr_ok.
  - destruct Hr as (Hn & Hd & He). apply rwp_bind, rwp_perform; [done|]. intros r [w ->]. cbn [smtp_next].
    destruct w; [|by apply timeout_receipt_ok|by split].
    destruct (exn_is e PyTimeoutError); [by apply timeout_receipt_ok|]. apply rwp_of_result. by apply wait_failed_ok.
Qed.
(** The traces of a submission in which the attributes, the clock, the network and the server answer as they may. *)
Definition submission_trace (tr : list (event smtpE)) (r : result MailDeliveryReceipt) : Prop :=
  execs (send broker_guards account policy timeout request) tr r /\
  answered smtp_next smtp_may (fresh_session new_sender) tr.

Lemma submission_ok tr r : submission_trace tr r ->
  watched smtp_ok smtp_next (fresh_session new_sender) tr /\ send_post (after smtp_next (fresh_session new_sender) tr) r.
Proof. intros [Hx Ha]. eapply rwp_execs; [by apply send_ok|done|done]. Qed.

(** C10. An SMTP session is guarded.  Whatever the server, the network, the registry and the clock answer:
    no connection is opened for a request the policy refuses; credentials, the envelope and the message are
    only sent after a TLS handshake on this connection; every recipient is one of the request and allowed by
    the policy; the account lock is not taken twice; and the message is submitted at most once, only when the
    server asked for it, to at least one accepted recipient, while the account lock is held and both the
    account binding and the lease were confirmed under that lock. *)
Theorem smtp_session_is_guarded tr r :
  submission_trace tr r -> watched smtp_ok smtp_next (fresh_session new_sender) tr.
Proof. intros H. by apply (submission_ok tr r). Qed.

(** C11. A delivery receipt is truthful.  It names the request and each of its recipients once; SUCCEEDED and
    PARTIAL mean that the message was submitted and the server answered with a 2xx code, for exactly the
    recipients it had accepted; FAILED means that nothing was submitted or that the server refused it; a
    [MailError] is only raised when nothing was submitted; and the account lock is released in every case,
    timeouts and cancellations included. *)
Theorem smtp_receipts_are_truthful tr r :
  submission_trace tr r -> send_post (after smtp_next (fresh_session new_sender) tr) r.
Proof. intros H. by apply submission_ok. Qed.
End safety.

(** ** The broker *)

(** What the broker has seen: the answers of the registry, and whether a credential was given. *)
Record broker_mon := { bm_answers : list MailAccountRecord; bm_credential : bool }.
#[export] Instance broker_mon_eta : Eta broker_mon := fun r => Build_broker_mon (bm_answers r) (bm_credential r).

Definition broker_next (X : Type) (m : broker_mon) (op : brokerE X) : result X -> broker_mon :=
  match op in brokerE Y return result Y -> broker_mon with
  | BResolve _ => fun r => match r with Ok a => m {{ bm_answers := a :: bm_answers m }} | Err _ => m end
  | BSecret _ => fun r => match r with Ok (Some p) => m {{ bm_credential := negb (bool_decide (p = "")) }} | _ => m end
  | _ => fun _ => m
  end.

(** The account was confirmed twice, unchanged, and its credential is there. *)
Definition confirmed (m : broker_mon) : Prop :=
  bm_credential m = true /\ exists record lease, bm_answers m = [record; lease] /\
    ma_generation record = ma_generation lease /\ account_fingerprint record = account_fingerprint lease.
Definition broker_ok (X : Type) (m : broker_mon) (op : brokerE X) : Prop :=
  match op with
  | BSmtp _ => confirmed m
  | BReadSession binding _ => confirmed m /\ exists lease, bm_answers m = [mb_record binding; lease]
  | _ => True
  end.
Notation bwp := (mwp broker_ok broker_next).

Lemma embed_confirmed {A} (p : prog smtpE A) m (Q : broker_mon -> result A -> Prop) : confirmed m -> (forall r, Q m r) -> bwp (embed p) m Q.
Proof. intros Hm HQ. induction p as [a|e|X op k IH]; cbn; [apply HQ..|]. split; [done|]. intros ans. apply IH. Qed.

Lemma resolve_credential_ok record m (Q : broker_mon -> result string -> Prop) :
  (forall m' e, Q m' (Err e)) -> (forall p, Q (m {{ bm_credential := true }}) (Ok p)) -> bwp (resolve_credential record) m Q.
Proof.
  intros He HQ. unfold resolve_credential. case_bool_decide; [apply He|]. apply mwp_bind, mwp_try, mwp_perform; [done|].
  intros [[p|]|e]; cbn [broker_next]; [|apply He|case_match; apply He]. case_bool_decide; [apply He|]. apply HQ.
Qed.

Lemma verify_active_ok lease m (Q : broker_mon -> result MailAccountRecord -> Prop) : bm_answers m = [lease] -> bm_credential m = true ->
  (forall m' e, Q m' (Err e)) -> (forall m' record, confirmed m' -> bm_answers m' = [record; lease] -> Q m' (Ok record)) ->
  bwp (_verify_active lease) m Q.
Proof.
  intros Hl Hc He HQ. unfold _verify_active. apply mwp_bind, mwp_try, mwp_perform; [done|].
  intros [record|e]; cbn [broker_next]; [|case_match; apply He]. destruct (ma_generation record =? _) eqn:Hg; cbn [negb]; [|apply He].
  apply mwp_bind, mwp_of_result. destruct (account_fingerprint record) as [a|] eqn:Ha; [|apply He].
  apply mwp_bind, mwp_of_result. destruct (account_fingerprint lease) as [b|] eqn:Hb; [|apply He]. case_bool_decide; cbn [negb]; [|apply He].
  apply HQ; [|cbn; by rewrite Hl]. split; [done|]. exists record, lease. split_and!; [cbn; by rewrite Hl|by apply Z.eqb_eq|congruence].
Qed.

Lemma check_binding_same b b' : check_binding b = Ok b' -> b' = b.
Proof. unfold check_binding, value_if, raise_if. intros H. run_guards H. congruence. Qed.

(** No SMTP or IMAP connection is opened unless the registry answered twice with the same generation
    and fingerprint of the account and the credential store gave a credential. *)
Theorem broker_opens_confirmed_accounts account_id :
  (forall has_lease policy timeout request tr r, execs (broker_send has_lease policy timeout account_id request) tr r ->
     watched broker_ok broker_next {| bm_answers := []; bm_credential := false |} tr) /\
  (forall tr r, execs (read_session account_id) tr r ->
     watched broker_ok broker_next {| bm_answers := []; bm_credential := false |} tr).
Proof.
  split.
  - intros has_lease policy timeout request tr r. apply (mwp_execs _ _ _ _ (fun _ _ => True)). unfold broker_send.
    apply mwp_bind, mwp_perform; [done|]. intros [lease|]; cbn [broker_next]; [|done].
    apply mwp_bind, resolve_credential_ok; [done|]. intros _.
    apply mwp_bind, verify_active_ok; [done..|]. intros m' record Hc Ha. apply mwp_bind, mwp_of_result.
    destruct (binding_for record); [|done]. by apply embed_confirmed.
  - intros tr r. apply (mwp_execs _ _ _ _ (fun _ _ => True)). unfold read_session.
    apply mwp_bind, mwp_perform; [done|]. intros [lease|]; cbn [broker_next]; [|done]. case_match; [done|].
    apply mwp_bind, resolve_credential_ok; [done|]. intros p.
    apply mwp_bind, verify_active_ok; [done..|]. intros m' record Hc Ha. apply mwp_bind, mwp_of_result.
    unfold binding_for. destruct (check_binding _) as [b|] eqn:Hb; [|done]. apply mwp_perform; [|done]. split; [done|]. exists lease.
    apply check_binding_same in Hb as ->. done.
Qed.

(** ** A server that accepts one recipient of two *)

Module SmtpScenario.
Definition account : MailAccountRecord := {|
  ma_account_id := "work"; ma_address := "me@example.org"; ma_imap_host := "imap.example.org";
  ma_smtp_host := "smtp.example.org"; ma_secret_handle_id := "h1"; ma_imap_port := 993; ma_smtp_port := 587;
  ma_display_name := ""; ma_read_enabled := true; ma_send_enabled := true; ma_tls_mode := "auto"; ma_generation := 0 |}.
Definition policy : MailPolicy := {|
  mp_allow_send := true; mp_allowed_recipients := ["you@example.org"; "gone@example.org"];
  mp_max_message_bytes := 1000; mp_max_fetch_messages := 10 |}.
Definition request : MailDeliveryRequest := {|
  mq_local_action_id := "a1"; mq_message_id := "<m1>"; mq_from_address := "me@example.org";
  mq_to := ["you@example.org"; "gone@example.org"]; mq_cc := []; mq_bcc := []; mq_subject := "hi"; mq_mime_bytes := "hello" |}.

Definition answer (X : Type) (m : smtp_mon) (op : smtpE X) : result X :=
  match op in smtpE Y return result Y with
  | SAttr => Ok (mo_sender m)
  | SAborted => Ok false
  | SMonotonic => Ok 0
  | SLeaseValid | SVerify | SAcquire _ | SHasStarttls => Ok true
  | SEhlo | SMail _ | SReply => Ok 250
  | SStarttlsCommand => Ok 220
  | SRcpt a => Ok (if bool_decide (a = "gone@example.org") then 550 else 250)
  | SData => Ok 354
  | SResolveHost _ _ _ => Ok ["192.0.2.1"]
  | SWaited _ => Ok InTime
  | SSet _ | SAbort | SRelease | SSocket | SRegister | SConnect _ | SWrap | SHandshake | SCloseSocket | SGreeting
  | SEhloIfNeeded | SLogin _ | SPayload _ | SQuit | SClose => Ok tt
  end.
Definition server (X : Type) (op : smtpE X) : M smtp_mon X := fun m => (smtp_next X m op (answer X m op), answer X m op).

Definition submission : prog smtpE MailDeliveryReceipt := send (broker_guards true) account policy (seconds 30) request.
Definition trace : list (event smtpE) := (trace_run server submission (fresh_session new_sender)).1.
Definition receipt : result MailDeliveryReceipt := (trace_run server submission (fresh_session new_sender)).2.

Lemma trace_possible : submission_trace true account policy (seconds 30) request trace receipt.
Proof.
  split; [apply trace_run_execs|].
  refine (proj1 (trace_run_answered smtp_next smtp_may server submission (fresh_session new_sender) _)).
  intros X op m. exists (answer X m op). split; [done|]. destruct op; cbn; eauto; done.
Qed.

(** The receipt is partial, and the server got the whole message. *)
Example partly_delivered : (mc_status <$> match receipt with Ok r => Some r | _ => None end) = Some MailDeliveryStatus.PARTIAL.
Proof. by vm_compute. Qed.
End SmtpScenario.

Lemma smtp_session_is_guarded_witness : watched (smtp_ok true SmtpScenario.account SmtpScenario.policy SmtpScenario.request)
  smtp_next (fresh_session new_sender) SmtpScenario.trace.
Proof.
  apply (smtp_session_is_guarded true SmtpScenario.account SmtpScenario.policy (seconds 30) SmtpScenario.request _ SmtpScenario.receipt).
  exact SmtpScenario.trace_possible.
Defined.

Lemma smtp_receipts_are_truthful_witness : send_post SmtpScenario.request
  (after smtp_next (fresh_session new_sender) SmtpScenario.trace) SmtpScenario.receipt.
Proof.
  apply (smtp_receipts_are_truthful true SmtpScenario.account SmtpScenario.policy (seconds 30)).
  exact SmtpScenario.trace_possible.
Defined.
