(* ===== verification/JobFairness.v ===== *)
(** * JobFairness: a due job is served

    Liveness of the queue of [JobQueue.v].  Workers keep claiming while jobs are enqueued, completed,
    released, failed and retried; as long as nothing is scheduled into the past and no worker loses its
    lease, a due job is handed out after at most as many claims as there were due jobs ahead of it, and one. *)

From S2P Require Import Prelude Text Json Schemas JobQueue.
Local Open Scope string_scope.
Local Open Scope Z_scope.

(** The jobs a claim prefers to [j]. *)
Definition preferred (j : Job) (kv : string * Job) : Prop :=
  job_state kv.2 = JobState.READY /\ claim_before kv.2 j = true.
#[global] Instance preferred_dec j kv : Decision (preferred j kv).
Proof. unfold preferred. apply _. Defined.

Definition ahead (j : Job) (q : InMemoryJobQueue) : nat := size (filter (preferred j) (_jobs q)).

Definition event : Type := queue_op * time * time.
Definition after (ev : event) (q : InMemoryJobQueue) : InMemoryJobQueue := let '(op, now, now') := ev in queue_run op now now' q.

(** A run from time [t0] on: the clock does not go back behind [t0], no job is made available before
    [t0], and a claim never finds a lapsed lease. *)
Definition not_past (t0 : time) (t : option time) : Prop := match t with Some t => t0 <= t | None => True end.
Definition orderly (t0 : time) (ev : event) (q : InMemoryJobQueue) : Prop :=
  let '(op, now, now') := ev in
  t0 <= now <= now' /\ fresh_for op q /\
  match op with
  | QClaim _ n => 1 <= n /\ map_Forall (fun _ j => lease_expired now j = false) (_jobs q)
  | QEnqueue _ _ _ available _ _ => not_past t0 available
  | QFail _ _ _ _ retry_at => not_past t0 retry_at
  | _ => True
  end.
Fixpoint orderly_run (t0 : time) (evs : list event) (q : InMemoryJobQueue) : Prop :=
  match evs with [] => True | ev :: evs => orderly t0 ev q /\ orderly_run t0 evs (after ev q) end.

#[global] Instance not_past_dec t0 t : Decision (not_past t0 t).
Proof. unfold not_past. destruct t; apply _. Defined.
#[global] Instance orderly_dec t0 ev q : Decision (orderly t0 ev q).
Proof.
  destruct ev as [[op now] now']. apply and_dec; [apply _|]. apply and_dec; [destruct op; apply _|].
  destruct op; apply _.
Defined.
#[global] Instance orderly_run_dec t0 evs q : Decision (orderly_run t0 evs q).
Proof. revert q; induction evs as [|ev evs IH]; intros q; [apply _|]. apply and_dec; [apply _|apply IH]. Defined.

Definition is_claim (ev : event) : bool := match ev.1.1 with QClaim _ _ => true | _ => false end.
Definition claims (evs : list event) : nat := length (List.filter is_claim evs).

(** Job [i] is the answer of the operation. *)
Definition serves (i : string) (ev : event) (q : InMemoryJobQueue) : bool :=
  match ev with
  | (QClaim w n, now, _) => match (claim w n now q).2 with Ok (Some job) => bool_decide (job_id job = i) | _ => false end
  | _ => false
  end.
Fixpoint served (i : string) (evs : list event) (q : InMemoryJobQueue) : bool :=
  match evs with [] => false | ev :: evs => serves i ev q || served i evs (after ev q) end.

(** ** Counting *)

Lemma counted_insert (P : string * Job -> Prop) `{!forall x, Decision (P x)} (m : gmap string Job) i x : ~ P (i, x) ->
  (size (filter P (<[i := x]> m)) <= size (filter P m))%nat /\
  forall y, m !! i = Some y -> P (i, y) -> (size (filter P (<[i := x]> m)) < size (filter P m))%nat.
Proof.
  intros Hx. rewrite map_filter_insert, decide_False, map_filter_delete by done. split.
  - destruct (filter P m !! i) as [y|] eqn:E; [|by rewrite delete_id].
    pose proof (map_size_delete_Some _ _ (ex_intro _ y E)). lia.
  - intros y Hy HP. assert (filter P m !! i = Some y) as E by (by apply map_lookup_filter_Some).
    rewrite map_size_delete_Some by (by exists y). assert (size (filter P m) <> 0%nat); [|lia].
    intros Hz%map_size_empty_inv. by rewrite Hz, lookup_empty in E.
Qed.

Lemma late_not_preferred j x i : available_at j < available_at x -> ~ preferred j (i, x).
Proof. intros H [_ Hb]. cbn in Hb. apply claim_before_true in Hb. lia. Qed.

(** Two jobs neither of which is before the other are the same. *)
Lemma claim_before_total a b : claim_before a b = false -> claim_before b a = false -> job_id a = job_id b.
Proof.
  rewrite !claim_before_false. intros H1 H2. apply String.leb_antisym; intuition lia.
Qed.

(** ** One operation *)

Section step.
Context (t0 : time) (q : InMemoryJobQueue) (i : string) (j : Job).
Context (Hok : queue_ok q) (Hj : _jobs q !! i = Some j) (Hready : job_state j = JobState.READY) (Hdue : available_at j < t0).

Lemma no_lapse now : (forall k x, _jobs q !! k = Some x -> lease_expired now x = false) -> refresh now <$> _jobs q = _jobs q.
Proof.
  intros H. apply map_eq. intros k. rewrite lookup_fmap. destruct (_jobs q !! k) as [x|] eqn:E; [|done]. cbn. f_equal.
  unfold refresh. by rewrite (H _ _ E).
Qed.

Lemma claim_progress w n now now' : orderly t0 (QClaim w n, now, now') q -> serves i (QClaim w n, now, now') q = false ->
  _jobs (after (QClaim w n, now, now') q) !! i = Some j /\ (ahead j (after (QClaim w n, now, now') q) < ahead j q)%nat.
Proof.
  intros (Ht & _ & Hn & Hl). apply no_lapse in Hl. unfold serves, ahead. cbn [after queue_run]. unfold claim.
  destruct (n <? 1) eqn:E; bool_props; [lia|]. unfold mbind, M_bind, get_state, put_state, mret, M_ret. rewrite Hl.
  set (q1 := q {{ _jobs := _jobs q }}). assert (q1 = q) as -> by (by destruct q).
  assert (candidate now j = true) as Hc.
  { unfold candidate. rewrite bool_decide_eq_true_2 by done. cbn. apply Z.leb_le. lia. }
  pose proof (in_candidates now q i j Hj Hc) as Hin.
  destruct (min_job (candidates now q)) as [m|] eqn:Hm; [|by destruct (candidates now q); [apply elem_of_nil in Hin|]].
  pose proof (min_job_least _ _ Hm j Hin) as Hleast. destruct (candidates_spec now q m (min_job_in _ _ Hm)) as [Hcm [k Hk]].
  pose proof (ok_ids _ Hok _ _ Hk) as Hid. pose proof (ok_ids _ Hok _ _ Hj) as Hidj.
  cbn [fst snd]. intros Hne. apply bool_decide_eq_false in Hne. cbn in Hne. unfold store_job. cbn. rewrite Hid.
  split; [by rewrite lookup_insert_ne by congruence|].
  apply (counted_insert (preferred j)) with (y := m); [by intros [? _]|done|].
  split; cbn; [unfold candidate in Hcm; by bool_props|]. destruct (claim_before m j) eqn:Hb; [done|].
  exfalso. apply Hne. rewrite (claim_before_total m j); congruence.
Qed.

Lemma other_progress op now now' : orderly t0 (op, now, now') q -> is_claim (op, now, now') = false ->
  _jobs (after (op, now, now') q) !! i = Some j /\ (ahead j (after (op, now, now') q) <= ahead j q)%nat.
Proof.
  intros (Ht & Hf & Ho) Hcl. unfold ahead. cbn [after]. pose proof (ok_ids _ Hok) as Hid.
  destruct (lease_op op now') as [[[k w] f]|] eqn:Hop.
  - rewrite (lease_cases _ _ _ _ _ _ _ Hop). destruct (with_lease_cases k w now f q) as [->|(x & Hx & Hw & ->)]; [done|].
    pose proof (owns_leased _ _ _ Hw) as Hst. unfold store_job. cbn.
    rewrite (lease_op_id _ _ _ _ _ x Hop), (Hid _ _ Hx). split; [rewrite lookup_insert_ne; [done|congruence]|].
    apply counted_insert. destruct op; simplify_eq/=.
    + intros [Hr _]. cbn in Hr. congruence.
    + by intros [? _].
    + apply late_not_preferred. cbn. lia.
    + unfold fail_update. destruct (retryable && _); [apply late_not_preferred|]; cbn.
      * destruct retry_at; cbn in *; lia.
      * intros [Hr _]. cbn in Hr. by destruct retryable.
    + by intros [? _].
  - destruct op as [kind payload key av mx hex| | | | | |]; try discriminate Hop; [|done]. cbn [queue_run].
    destruct (enqueue_cases kind payload key av mx now hex q) as [->|(job & E & Hk & _ & Hi & _)]; [done|].
    assert (available_at job = opt_or av now) as Hav.
    { unfold enqueue, mbind, M_bind, get_state, put_state, mret, M_ret, raise in E.
      destruct (blank key); [done|]. destruct (mx <? 1); [done|]. rewrite Hk in E. by injection E as _ _ <-. }
    rewrite E. cbn. rewrite Hi. cbn in Hf. split; [rewrite lookup_insert_ne; [done|congruence]|].
    apply counted_insert, late_not_preferred. rewrite Hav. destruct av; cbn in *; lia.
Qed.

Lemma event_progress ev : orderly t0 ev q -> serves i ev q = false ->
  _jobs (after ev q) !! i = Some j /\ (ahead j (after ev q) + (if is_claim ev then 1 else 0) <= ahead j q)%nat.
Proof.
  destruct ev as [[op now] now']. intros Ho Hs. destruct (is_claim (op, now, now')) eqn:Hc.
  - destruct op; try discriminate Hc. destruct (claim_progress _ _ _ _ Ho Hs). split; [done|lia].
  - destruct (other_progress _ _ _ Ho Hc). split; [done|lia].
Qed.
End step.

(** C6. A due job is served: once it is due, every orderly run that claims more often than there were due
    jobs ahead of it hands it to a worker.  A run is orderly when its clock does not go back behind the
    start, job identifiers are fresh, nothing is scheduled or rescheduled to before the start, every claim
    asks for a job and no claim finds a lapsed lease. *)
Theorem due_jobs_are_served t0 q i j evs :
  star queue_step empty_queue q -> _jobs q !! i = Some j -> job_state j = JobState.READY -> available_at j < t0 ->
  orderly_run t0 evs q -> (ahead j q < claims evs)%nat -> served i evs q = true.
Proof.
  intros Hr. apply queue_reachable_ok in Hr. revert q Hr.
  induction evs as [|ev evs IH]; intros q Hok Hj Hst Hd Hrun Hn; [unfold claims in Hn; cbn in Hn; lia|].
  destruct Hrun as [Ho Hrun]. cbn [served]. destruct (serves i ev q) eqn:Hs; [done|].
  destruct (event_progress t0 q i j Hok Hj Hst Hd ev Ho Hs) as [Hj' Ha]. cbn [orb]. apply IH; try done.
  - destruct ev as [[op now] now']. destruct Ho as ([_ Ht] & Hf & _). eapply queue_step_ok; [|done]. by constructor.
  - unfold claims in *. cbn in Hn. destruct (is_claim ev); cbn in Hn; lia.
Qed.

(** Two jobs; the older one is claimed first, the younger one by the second claim. *)
Lemma due_jobs_are_served_witness : exists evs q,
  q = queue_run (QEnqueue "mail.sync" [] "k2" None 2 "b") 1 1 (queue_run QueueScenario.enqueue_mail 0 0 empty_queue) /\
  claims evs = 2%nat /\ served "job_b" evs q = true.
Proof.
  exists [(QClaim "w1" 30, 2, 2); (QRelease "job_a" "w1", 3, 3); (QClaim "w2" 30, 4, 4)]. eexists. split; [reflexivity|]. split; [reflexivity|].
  eapply (due_jobs_are_served 2).
  - apply (queue_exec_star [(QueueScenario.enqueue_mail, 0); (QEnqueue "mail.sync" [] "k2" None 2 "b", 1)]). reflexivity.
  - vm_compute. reflexivity.
  - reflexivity.
  - reflexivity.
  - apply (bool_decide_unpack _). vm_compute. reflexivity.
  - vm_compute. lia.
Defined.
