(* ===== verification/ExtensionConfig.v ===== *)
(** * ExtensionConfig: the non-secret configuration documents of extensions

    Models [core/extensions/config.py]: the accepted subset of JSON Schema, the check of a schema
    on its own and the check of a configuration against it.  [conforms] says what a schema of the
    subset means without the validator; the main theorem says that the validator accepts exactly
    the documents that conform.  The regular-expression engine is the pair [re_compile],
    [re_search]. *)

From S2P Require Import Prelude Text PyFloat Json JsonParse JsonGrammar JsonRoundTrip Schemas Manifest PyValue.
Local Open Scope string_scope.
Local Open Scope Z_scope.

Definition MAX_CONFIG_BYTES : Z := 65536.
Definition MAX_CONFIG_SCHEMA_BYTES : Z := 262144.
Definition MAX_DEPTH : Z := 16.

Definition _SUPPORTED_SCHEMA_KEYS : list string :=
  ["$schema"; "title"; "description"; "type"; "properties"; "required"; "additionalProperties";
   "items"; "minItems"; "maxItems"; "minLength"; "maxLength"; "pattern"; "enum"; "minimum";
   "maximum"; "default"; "examples"; "x_ui"; "order"].

Definition _TYPES : list string := ["object"; "array"; "string"; "integer"; "number"; "boolean"; "null"].

Record ConfigFieldError := FieldError { fe_path : string; fe_message : string }.

Definition render (e : ConfigFieldError) : string :=
  (if bool_decide (fe_path e = "") then "$" else fe_path e) ++ ": " ++ fe_message e.

(** ** Reports

    The validators append to the list [errors] of their caller, who drops it when an exception
    passes; a report is what one call appends. *)

Definition report : Type := result (list ConfigFieldError).

(** [errors.append(ConfigFieldError(path, message))] *)
Definition flag (path message : string) : report := Ok [FieldError path message].

Definition also (a b : report) : report := x ← a; y ← b; Ok (x ++ y)%list.
Infix "+++" := also (at level 60, right associativity).

Definition when (b : bool) (r : report) : report := if b then r else Ok [].

Fixpoint for_each {A} (f : A -> report) (l : list A) : report :=
  match l with [] => Ok [] | x :: l => f x +++ for_each f l end.

(** [schema.get(keyword)] *)
Definition get (keyword : string) (schema : list (string * json)) : json := default JNull (assoc keyword schema).

Definition unknown_keywords (schema : list (string * json)) : list string :=
  List.filter (fun k => negb (mem_b k _SUPPORTED_SCHEMA_KEYS)) (keys schema).

Definition unknown_message (unknown : list string) : string :=
  "unsupported schema keywords: " ++ list_repr (sorted_strings unknown).

Definition _child (path name : string) : string :=
  if bool_decide (path = "") then name else path ++ "." ++ name.

(** [math.isfinite(float(value))] *)
Definition finite_float (v : json) : result bool := f ← py_float v; Ok (isfinite f).

(** [isinstance(v, int)]: a [bool] is an [int]. *)
Definition as_int (v : json) : option Z :=
  match v with JInt n => Some n | JBool b => Some (if b then 1 else 0) | _ => None end.

Definition _matches_type (expected : string) (value : json) : bool :=
  match value with
  | JObj _ => bool_decide (expected = "object")
  | JList _ => bool_decide (expected = "array")
  | JStr _ => bool_decide (expected = "string")
  | JInt _ => bool_decide (expected = "integer") || bool_decide (expected = "number")
  | JFloat _ => bool_decide (expected = "number")
  | JBool _ => bool_decide (expected = "boolean")
  | JNull => bool_decide (expected = "null")
  | JOther _ => false
  end.

Section engine.
(** [re_compile p]: [p] compiles.  [re_search p s]: whether [p] matches in [s], [None] for [re.error]. *)
Context (re_compile : string -> bool) (re_search : string -> string -> option bool).

(** ** [_validate_schema] *)

Definition size_keyword (schema : list (string * json)) (path keyword : string) : report :=
  match get keyword schema with
  | JNull => Ok []
  | JInt n => when (n <? 0) (flag path (keyword ++ " must be a non-negative integer"))
  | _ => flag path (keyword ++ " must be a non-negative integer")
  end.

Definition bound_keyword (schema : list (string * json)) (path keyword : string) : report :=
  match get keyword schema with
  | JNull => Ok []
  | JInt _ | JFloat _ =>
      finite ← finite_float (get keyword schema);
      when (negb finite) (flag path (keyword ++ " must be a finite number"))
  | _ => flag path (keyword ++ " must be a finite number")
  end.

(** [not isinstance(required, list) or any(not isinstance(item, str) ...) or len(set(...)) != len(...)] *)
Definition required_malformed (required : json) : bool :=
  match required with
  | JList l => existsb (fun x => negb (is_str x)) l || negb (bool_decide (NoDup (omap as_str l)))
  | _ => true
  end.

Definition pattern_keyword (schema : list (string * json)) (path : string) : report :=
  match get "pattern" schema with
  | JNull => Ok []
  | JStr p =>
      if 512 <? str_len p then flag path "pattern must be a string of at most 512 chars"
      else when (negb (re_compile p)) (flag path "schema pattern is invalid")
  | _ => flag path "pattern must be a string of at most 512 chars"
  end.

Fixpoint _validate_schema (fuel : nat) (schema : json) (path : string) (depth : Z) : report :=
  match fuel with
  | O => out_of_fuel
  | S fuel =>
    if MAX_DEPTH <? depth then flag path "schema nesting is too deep" else
    match schema with
    | JObj sc =>
        let unknown := unknown_keywords sc in
        if negb (bool_decide (unknown = [])) then flag path (unknown_message unknown) else
        match get "type" sc with
        | JNull => Ok []
        | JStr t => when (negb (mem_b t _TYPES)) (flag path ("unsupported schema type: " ++ str_repr t))
        | expected => flag path ("unsupported schema type: " ++ py_repr expected)
        end +++
        match get "properties" sc with
        | JNull => Ok []
        | JObj properties =>
            for_each (fun kv => _validate_schema fuel kv.2 (_child path kv.1) (depth + 1)) properties
        | _ => flag path "properties must be an object"
        end +++
        match get "items" sc with
        | JNull => Ok []
        | items => _validate_schema fuel items (path ++ "[]") (depth + 1)
        end +++
        match get "additionalProperties" sc with
        | JNull | JBool _ => Ok []
        | JObj additional =>
            _validate_schema fuel (JObj additional)
              (if bool_decide (path = "") then "*" else path ++ ".*") (depth + 1)
        | _ => flag path "additionalProperties must be a boolean or schema"
        end +++
        match get "required" sc with
        | JNull => Ok []
        | required => when (required_malformed required)
                        (flag path "required must contain unique string names")
        end +++
        match get "enum" sc with
        | JNull | JList (_ :: _) => Ok []
        | _ => flag path "enum must be a non-empty array"
        end +++
        for_each (size_keyword sc path) ["minItems"; "maxItems"; "minLength"; "maxLength"] +++
        for_each (bound_keyword sc path) ["minimum"; "maximum"] +++
        pattern_keyword sc path
    | _ => flag path "schema must be an object"
    end
  end.

(** ** [_validate] *)

Definition limit (schema : list (string * json)) (keyword : string) (bad : Z -> bool) (path : string)
    (message : json -> string) : report :=
  match as_int (get keyword schema) with
  | Some n => when (bad n) (flag path (message (get keyword schema)))
  | None => Ok []
  end.

Definition _validate_string (schema : list (string * json)) (value path : string) : report :=
  limit schema "minLength" (fun n => str_len value <? n) path
    (fun m => "must have at least " ++ py_str m ++ " characters") +++
  limit schema "maxLength" (fun n => n <? str_len value) path
    (fun m => "must have at most " ++ py_str m ++ " characters") +++
  match get "pattern" schema with
  | JStr p =>
      if str_len p <=? 512 then
        match re_search p value with
        | None => flag path "schema pattern is invalid"
        | Some matched => when (negb matched) (flag path "does not match the required pattern")
        end
      else Ok []
  | _ => Ok []
  end.

Definition _validate_number (schema : list (string * json)) (value : json) (path : string) : report :=
  finite ← finite_float value;
  if negb finite then flag path "must be a finite number" else
  match as_num (get "minimum" schema) with
  | Some _ => b ← py_lt value (get "minimum" schema);
              when b (flag path ("must be >= " ++ py_str (get "minimum" schema)))
  | None => Ok []
  end +++
  match as_num (get "maximum" schema) with
  | Some _ => b ← py_lt (get "maximum" schema) value;
              when b (flag path ("must be <= " ++ py_str (get "maximum" schema)))
  | None => Ok []
  end.

(** [validate] is the recursive call at [depth + 1]. *)
Definition _validate_object (validate : json -> json -> string -> report)
    (schema value : list (string * json)) (path : string) : report :=
  match default (JObj []) (assoc "properties" schema) with
  | JObj properties =>
      match default (JList []) (assoc "required" schema) with
      | JList required =>
          for_each (fun name =>
            match name with
            | JStr name => when (negb (mem_b name (keys value))) (flag (_child path name) "is required")
            | _ => Ok []
            end) required
      | _ => Ok []
      end +++
      for_each (fun kv : string * json =>
        let child_path := _child path kv.1 in
        match assoc kv.1 properties with
        | Some s => validate s kv.2 child_path
        | None =>
            match default (JBool true) (assoc "additionalProperties" schema) with
            | JBool false => flag child_path "additional properties are not allowed"
            | JObj additional => validate (JObj additional) kv.2 child_path
            | _ => Ok []
            end
        end) value
  | _ => flag path "properties must be an object"
  end.

Definition _validate_array (validate : json -> json -> string -> report)
    (schema : list (string * json)) (value : list json) (path : string) : report :=
  limit schema "minItems" (fun n => Z.of_nat (length value) <? n) path
    (fun m => "must contain at least " ++ py_str m ++ " items") +++
  limit schema "maxItems" (fun n => n <? Z.of_nat (length value)) path
    (fun m => "must contain at most " ++ py_str m ++ " items") +++
  match get "items" schema with
  | JObj items =>
      for_each (fun ix : nat * json =>
        validate (JObj items) ix.2 (path ++ "[" ++ str_of_Z (Z.of_nat ix.1) ++ "]"))
        (zip (seq 0 (length value)) value)
  | _ => Ok []
  end.

Fixpoint _validate (fuel : nat) (schema value : json) (path : string) (depth : Z) : report :=
  match fuel with
  | O => out_of_fuel
  | S fuel =>
    if MAX_DEPTH <? depth then flag path "schema nesting is too deep" else
    match schema with
    | JObj sc =>
        let unknown := unknown_keywords sc in
        if negb (bool_decide (unknown = [])) then flag path (unknown_message unknown) else
        let checks :=
          match assoc "enum" sc with
          | None => Ok []
          | Some (JList l) => when (negb (existsb (py_eq value) l))
                                (flag path "value is not one of the allowed values")
          | Some _ => flag path "value is not one of the allowed values"
          end +++
          match value with
          | JStr s => _validate_string sc s path
          | JInt _ | JFloat _ => _validate_number sc value path
          | JObj kvs => _validate_object (fun s v p => _validate fuel s v p (depth + 1)) sc kvs path
          | JList l => _validate_array (fun s v p => _validate fuel s v p (depth + 1)) sc l path
          | _ => Ok []
          end in
        match get "type" sc with
        | JNull => checks
        | JStr t =>
            if negb (mem_b t _TYPES) then flag path ("unsupported schema type: " ++ str_repr t)
            else if negb (_matches_type t value) then flag path ("expected " ++ t)
            else checks
        | expected => flag path ("unsupported schema type: " ++ py_repr expected)
        end
    | _ => flag path "schema must be an object"
    end
  end.

(** ** The entry points *)

(** [json.dumps(..., ensure_ascii=False, allow_nan=False)] *)
Definition config_opts : dump_opts := {| sort_keys := false; allow_nan := false; item_sep := ", "; key_sep := ": " |}.

(** Every level of nesting takes one unit, and no level beyond [MAX_DEPTH + 1] is entered. *)
Definition config_fuel : nat := Z.to_nat MAX_DEPTH + 2.

(** [json.loads(json.dumps(...))] with the guards around it. *)
Definition reencode (what : string) (limit : Z) (v : json) : result json :=
  match dumps config_opts v with
  | Err e => if exn_is e PyTypeError || exn_is e PyValueError
             then fail ExtensionConfigError (what ++ " must be JSON serializable") else Err e
  | Ok encoded =>
      _ ← raise_if (limit <? Z.of_nat (length (utf8_encode encoded))) ExtensionConfigError
            (what ++ " exceeds the size limit");
      loads encoded
  end.

Definition rendered (errors : list ConfigFieldError) : string := str_join "; " (render <$> take 8 errors).

Definition validate_extension_config_schema (schema : json) : result json :=
  match schema with
  | JObj _ =>
      normalized ← reencode "config schema" MAX_CONFIG_SCHEMA_BYTES schema;
      errors ← _validate_schema config_fuel normalized "" 0;
      _ ← raise_if (negb (bool_decide (errors = []))) ExtensionConfigError
            ("config schema is invalid: " ++ rendered errors);
      Ok normalized
  | _ => fail ExtensionConfigError "config schema must be an object"
  end.

Definition validate_extension_config (schema : option json) (config : json) (field_name : string) : result json :=
  match config with
  | JObj _ =>
      normalized ← reencode field_name MAX_CONFIG_BYTES config;
      match schema with
      | None => Ok normalized
      | Some schema =>
          normalized_schema ← validate_extension_config_schema schema;
          errors ← _validate config_fuel normalized_schema normalized "" 0;
          _ ← raise_if (negb (bool_decide (errors = []))) ExtensionConfigError
                (field_name ++ " does not match the schema: " ++ rendered errors);
          Ok normalized
      end
  | _ => fail ExtensionConfigError (field_name ++ " must be a JSON object")
  end.
End engine.

(** ** The algebra of reports *)

(** [r] finishes, and it is empty exactly when [P] holds. *)
Definition reports (r : report) (P : Prop) : Prop := exists es, r = Ok es /\ (es = [] <-> P).

Lemma reports_iff r P Q : (P <-> Q) -> reports r P -> reports r Q.
Proof. intros H (es & -> & E). exists es. split; [done|]. by rewrite E. Qed.

Lemma reports_ok : reports (Ok []) True.
Proof. by exists []. Qed.

Lemma reports_flag p m : reports (flag p m) False.
Proof. by eexists. Qed.

Lemma reports_when b p m : reports (when b (flag p m)) (b = false).
Proof. destruct b; eexists; naive_solver. Qed.

Lemma reports_also a b P Q : reports a P -> reports b Q -> reports (a +++ b) (P /\ Q).
Proof.
  intros (x & -> & Hx) (y & -> & Hy). exists (x ++ y)%list. split; [done|]. rewrite <- Hx, <- Hy. apply app_nil.
Qed.

Lemma reports_for_each {A} (f : A -> report) l (P : A -> Prop) :
  (forall x, x ∈ l -> reports (f x) (P x)) -> reports (for_each f l) (forall x, x ∈ l -> P x).
Proof.
  induction l as [|x l IH]; intros H; simpl.
  - eapply reports_iff, reports_ok. set_solver.
  - eapply reports_iff, reports_also; [|apply H; set_solver|apply IH; set_solver]. set_solver.
Qed.

Lemma also_nil a b : a +++ b = Ok [] <-> a = Ok [] /\ b = Ok [].
Proof. destruct a as [x|e], b as [y|e']; unfold also; simpl; try naive_solver. split; [|naive_solver]. intros [= [-> ->]%app_nil]. done. Qed.

Lemma when_nil b p m : when b (flag p m) = Ok [] <-> b = false.
Proof. destruct b; naive_solver. Qed.

Lemma for_each_nil {A} (f : A -> report) l : for_each f l = Ok [] <-> Forall (fun x => f x = Ok []) l.
Proof. induction l as [|x l IH]; simpl; [naive_solver|]. rewrite also_nil, List.Forall_cons_iff. by rewrite IH. Qed.

(** ** What a schema of the subset means *)

Section meaning.
Context (re_compile : string -> bool) (re_search : string -> string -> option bool).

(** The JSON types; an integer is a number, a boolean is not. *)
Inductive has_type : string -> json -> Prop :=
| type_object kvs : has_type "object" (JObj kvs)
| type_array l : has_type "array" (JList l)
| type_string s : has_type "string" (JStr s)
| type_integer n : has_type "integer" (JInt n)
| type_number_int n : has_type "number" (JInt n)
| type_number_float f : has_type "number" (JFloat f)
| type_boolean b : has_type "boolean" (JBool b)
| type_null : has_type "null" JNull.

Lemma matches_type_iff t v : _matches_type t v = true <-> has_type t v.
Proof.
  split; [|by destruct 1]. destruct v; cbn; try done; rewrite ?orb_true_iff, ?bool_decide_eq_true; intros H; try destruct H as [H|H]; subst; constructor.
Qed.

Definition type_ok (sc : list (string * json)) (v : json) : Prop :=
  forall t, assoc "type" sc = Some (JStr t) -> has_type t v.

Definition enum_ok (sc : list (string * json)) (v : json) : Prop :=
  forall e, assoc "enum" sc = Some e -> exists l x, e = JList l /\ x ∈ l /\ py_eq v x = true.

(** A limit of the schema, when it has one. *)
Definition within (sc : list (string * json)) (low high : string) (n : Z) : Prop :=
  (forall m, assoc low sc = Some (JInt m) -> m <= n) /\ (forall m, assoc high sc = Some (JInt m) -> n <= m).

Definition number_ok (sc : list (string * json)) (v : json) : Prop :=
  (forall m, assoc "minimum" sc = Some m -> m <> JNull -> py_lt v m = Ok false) /\
  (forall m, assoc "maximum" sc = Some m -> m <> JNull -> py_lt m v = Ok false).

Definition leaf_ok (sc : list (string * json)) (v : json) : Prop :=
  match v with
  | JStr s => within sc "minLength" "maxLength" (str_len s) /\
              forall p, assoc "pattern" sc = Some (JStr p) -> re_search p s = Some true
  | JInt _ | JFloat _ => number_ok sc v
  | JList l => within sc "minItems" "maxItems" (Z.of_nat (length l))
  | _ => True
  end.

(** The schema of the member [k] of an object. *)
Definition declared (sc : list (string * json)) (k : string) : option json :=
  match assoc "properties" sc with Some (JObj ps) => assoc k ps | _ => None end.

Definition member_schema (sc : list (string * json)) (k : string) : option json :=
  match declared sc k with
  | Some s => Some s
  | None => match assoc "additionalProperties" sc with Some (JObj a) => Some (JObj a) | _ => None end
  end.

Definition object_ok (sc kvs : list (string * json)) : Prop :=
  (forall p, assoc "properties" sc = Some p -> is_obj p = true) /\
  (forall l k, assoc "required" sc = Some (JList l) -> JStr k ∈ l -> k ∈ keys kvs) /\
  (assoc "additionalProperties" sc = Some (JBool false) ->
   forall k, k ∈ keys kvs -> is_Some (declared sc k)).

Inductive conforms : json -> json -> Prop :=
| conforms_intro sc v :
    type_ok sc v -> enum_ok sc v -> leaf_ok sc v ->
    (forall kvs, v = JObj kvs -> object_ok sc kvs) ->
    (forall kvs k x s, v = JObj kvs -> (k, x) ∈ kvs -> member_schema sc k = Some s -> conforms s x) ->
    (forall l x s, v = JList l -> x ∈ l -> assoc "items" sc = Some (JObj s) -> conforms (JObj s) x) ->
    conforms (JObj sc) v.

(** ** The validator decides [conforms] *)

(** What a schema without reports guarantees about one of its levels. *)
Record checked_level (fuel : nat) (sc : list (string * json)) (path : string) (depth : Z) : Prop := {
  ck_depth : depth <= MAX_DEPTH;
  ck_known : unknown_keywords sc = [];
  ck_type : get "type" sc = JNull \/ exists t, get "type" sc = JStr t /\ mem_b t _TYPES = true;
  ck_properties : forall props, assoc "properties" sc = Some (JObj props) ->
    Forall (fun kv => _validate_schema re_compile fuel kv.2 (_child path kv.1) (depth + 1) = Ok []) props;
  ck_properties_null : forall p, assoc "properties" sc = Some p -> p = JNull \/ is_obj p = true;
  ck_items : forall s, assoc "items" sc = Some (JObj s) ->
    _validate_schema re_compile fuel (JObj s) (path ++ "[]") (depth + 1) = Ok [];
  ck_additional : forall s, assoc "additionalProperties" sc = Some (JObj s) ->
    exists p, _validate_schema re_compile fuel (JObj s) p (depth + 1) = Ok [];
  ck_size : forall k, k ∈ ["minItems"; "maxItems"; "minLength"; "maxLength"] ->
    get k sc = JNull \/ exists n, get k sc = JInt n;
  ck_bound : forall k, k ∈ ["minimum"; "maximum"] -> get k sc = JNull \/ is_Some (as_num (get k sc));
  ck_pattern : forall p, assoc "pattern" sc = Some (JStr p) -> str_len p <= 512 /\ re_compile p = true
}.

Lemma get_Some k sc v : assoc k sc = Some v -> get k sc = v.
Proof. unfold get. by intros ->. Qed.

Lemma schema_level fuel schema path depth : _validate_schema re_compile (S fuel) schema path depth = Ok [] ->
  exists sc, schema = JObj sc /\ checked_level fuel sc path depth.
Proof.
  cbn [_validate_schema]. intros H. destruct (MAX_DEPTH <? depth) eqn:Ed; [done|]. destruct schema as [| | | | | |sc|]; try done.
  exists sc. split; [done|]. destruct (negb _) eqn:Eu; [done|]. bool_props.
  rewrite !also_nil, !for_each_nil in H. destruct H as (Ht & Hp & Hi & Ha & _ & _ & Hs & Hb & Hre).
  rewrite List.Forall_forall in Hs, Hb. split; try done.
  - destruct (get "type" sc); try done; [by left|]. right. apply when_nil in Ht. bool_props. eauto.
  - intros props E. rewrite (get_Some _ _ _ E) in Hp. by apply for_each_nil.
  - intros p E. rewrite (get_Some _ _ _ E) in Hp. destruct p; naive_solver.
  - intros s E. by rewrite (get_Some _ _ _ E) in Hi.
  - intros s E. rewrite (get_Some _ _ _ E) in Ha. eauto.
  - intros k Hk%list_elem_of_In%Hs. unfold size_keyword in Hk. destruct (get k sc); naive_solver.
  - intros k Hk%list_elem_of_In%Hb. unfold bound_keyword in Hk. destruct (get k sc); naive_solver.
  - intros p E. unfold pattern_keyword in Hre. rewrite (get_Some _ _ _ E) in Hre.
    destruct (512 <? str_len p) eqn:El; [done|]. apply when_nil in Hre. bool_props. done.
Qed.

(** Every number of the value is a finite [float]. *)
Fixpoint numbers_fit (v : json) : bool :=
  match v with
  | JInt _ | JFloat _ => match finite_float v with Ok b => b | Err _ => false end
  | JList l => forallb numbers_fit l
  | JObj kvs => forallb (fun kv => numbers_fit kv.2) kvs
  | _ => true
  end.

(** A pattern that compiles can be searched for. *)
Hypothesis search_compiled : forall p s, re_compile p = true -> is_Some (re_search p s).

Section level.
Context (fuel : nat) (sc : list (string * json)) (path : string) (depth : Z).
Context (Hck : checked_level fuel sc path depth).

Lemma limit_reports k bad p msg : k ∈ ["minItems"; "maxItems"; "minLength"; "maxLength"] ->
  reports (limit sc k bad p msg) (forall m, assoc k sc = Some (JInt m) -> bad m = false).
Proof.
  intros Hk. unfold limit. destruct (ck_size _ _ _ _ Hck k Hk) as [E|[n E]]; rewrite E; simpl.
  - eapply reports_iff, reports_ok. split; [|done]. intros _ m Hm%get_Some. congruence.
  - eapply reports_iff, reports_when. split; [|intros H; apply H].
    + intros H m Hm%get_Some. congruence.
    + unfold get in E. by destruct (assoc k sc) as [[]|]; simplify_eq/=.
Qed.

Lemma string_reports s p : reports (_validate_string re_search sc s p) (leaf_ok sc (JStr s)).
Proof.
  unfold _validate_string.
  eapply reports_iff, reports_also; [|apply limit_reports; set_solver|
    eapply reports_also; [apply limit_reports; set_solver|]].
  2: { instantiate (1 := forall q, assoc "pattern" sc = Some (JStr q) -> re_search q s = Some true).
    unfold get. destruct (assoc "pattern" sc) as [[| | | |q| | |]|] eqn:E; simpl;
      try (eapply reports_iff, reports_ok; naive_solver).
    destruct (ck_pattern _ _ _ _ Hck q E) as [Hl Hc]. rewrite (proj2 (Z.leb_le _ _) Hl).
    destruct (search_compiled q s Hc) as [b Hb]. rewrite Hb.
    eapply reports_iff, reports_when. destruct b; naive_solver. }
  simpl. unfold within. setoid_rewrite Z.ltb_ge. naive_solver.
Qed.

Lemma bound_reports k (test : json -> result bool) (msg : string) (p : string) :
  k ∈ ["minimum"; "maximum"] -> (forall m, is_Some (as_num m) -> is_ok (test m) = true) ->
  reports match as_num (get k sc) with
          | Some _ => b ← test (get k sc); when b (flag p msg)
          | None => Ok []
          end (forall m, assoc k sc = Some m -> m <> JNull -> test m = Ok false).
Proof.
  intros Hk Ht. destruct (ck_bound _ _ _ _ Hck k Hk) as [E|[n E]].
  - rewrite E. eapply reports_iff, reports_ok. split; [|done]. intros _ m Hm%get_Some. congruence.
  - specialize (Ht (get k sc) (mk_is_Some _ _ E)). rewrite E. destruct (test (get k sc)) as [b|] eqn:Eb; [|done].
    cbn [mbind result_bind]. eapply reports_iff, reports_when. split.
    + intros -> m Hm%get_Some _. congruence.
    + intros H. unfold get in *. destruct (assoc k sc) as [m|]; simpl in *; [|done].
      rewrite (H m eq_refl) in Eb; [congruence|]. by intros ->.
Qed.

Lemma py_lt_ok a b : is_Some (as_num a) -> is_Some (as_num b) -> is_ok (py_lt a b) = true.
Proof. unfold py_lt. by intros [x ->] [y ->]. Qed.

Lemma number_reports v p : is_Some (as_num v) -> finite_float v = Ok true ->
  reports (_validate_number sc v p) (number_ok sc v).
Proof.
  intros Hv Hf. unfold _validate_number. rewrite Hf. cbn [mbind result_bind negb].
  apply reports_also.
  - apply (bound_reports "minimum" (py_lt v)); [set_solver|]. intros. by apply py_lt_ok.
  - apply (bound_reports "maximum" (fun m => py_lt m v)); [set_solver|]. intros. by apply py_lt_ok.
Qed.

Lemma enum_reports v p : reports
  match assoc "enum" sc with
  | None => Ok []
  | Some (JList l) => when (negb (existsb (py_eq v) l)) (flag p "value is not one of the allowed values")
  | Some _ => flag p "value is not one of the allowed values"
  end (enum_ok sc v).
Proof.
  unfold enum_ok. destruct (assoc "enum" sc) as [[]|] eqn:E; try (eapply reports_iff, reports_flag; naive_solver).
  - eapply reports_iff, reports_when. rewrite negb_false_iff, existsb_exists.
    setoid_rewrite <- list_elem_of_In. naive_solver.
  - eapply reports_iff, reports_ok. naive_solver.
Qed.

Context (validate : json -> json -> string -> report).

Definition member_ok (kv : string * json) : Prop := match declared sc kv.1 with
  | Some s => conforms s kv.2
  | None => match assoc "additionalProperties" sc with
            | Some (JBool false) => False
            | Some (JObj a) => conforms (JObj a) kv.2
            | _ => True
            end
  end.

Lemma members_ok kvs : (forall kv, kv ∈ kvs -> member_ok kv) <->
  (assoc "additionalProperties" sc = Some (JBool false) -> forall k, k ∈ keys kvs -> is_Some (declared sc k)) /\
  (forall k x s, (k, x) ∈ kvs -> member_schema sc k = Some s -> conforms s x).
Proof.
  unfold member_ok, member_schema, keys. split.
  - intros H. split.
    + intros Ha k ([k' x] & -> & Hin)%list_elem_of_fmap. specialize (H _ Hin). simpl in *.
      destruct (declared sc k'); [done|]. by rewrite Ha in H.
    + intros k x s Hin. specialize (H _ Hin). simpl in *. destruct (declared sc k); [by intros [= <-]|].
      destruct (assoc "additionalProperties" sc) as [[]|]; try done. by intros [= <-].
  - intros [H1 H2] [k x] Hin. simpl. specialize (H2 k x). destruct (declared sc k) eqn:Ed; [by apply H2|].
    destruct (assoc "additionalProperties" sc) as [[|[]| | | | | |]|]; try exact I; [|exact (H2 _ Hin eq_refl)].
    specialize (H1 eq_refl k). rewrite Ed in H1. destruct H1 as [s [=]]. apply list_elem_of_fmap. by exists (k, x).
Qed.

Lemma required_reports (kvs : list (string * json)) p : reports
  match default (JList []) (assoc "required" sc) with
  | JList required =>
      for_each (fun name =>
        match name with
        | JStr name => when (negb (mem_b name (keys kvs))) (flag (_child p name) "is required")
        | _ => Ok []
        end) required
  | _ => Ok []
  end (forall l k, assoc "required" sc = Some (JList l) -> JStr k ∈ l -> k ∈ keys kvs).
Proof.
  destruct (assoc "required" sc) as [[| | | | |l| |]|]; simpl; try (eapply reports_iff, reports_ok; by split).
  eapply reports_iff, (reports_for_each _ _ (fun name => forall k, name = JStr k -> k ∈ keys kvs)).
  - split; [intros H l' k [= <-] Hk; by eapply H|intros H x Hx k ->; by eapply H].
  - intros x _. destruct x; try (eapply reports_iff, reports_ok; by split). eapply reports_iff, reports_when.
    rewrite negb_false_iff. unfold mem_b. rewrite bool_decide_eq_true. split; [by intros ? ? [= <-]|by intros H; apply H].
Qed.

Lemma member_reports props kv q : (forall k, declared sc k = assoc k props) ->
  (forall s p, member_schema sc kv.1 = Some s -> reports (validate s kv.2 p) (conforms s kv.2)) ->
  reports match assoc kv.1 props with
          | Some s => validate s kv.2 q
          | None =>
              match default (JBool true) (assoc "additionalProperties" sc) with
              | JBool false => flag q "additional properties are not allowed"
              | JObj additional => validate (JObj additional) kv.2 q
              | _ => Ok []
              end
          end (member_ok kv).
Proof.
  intros Hp IH. unfold member_ok. unfold member_schema in IH. rewrite Hp in *.
  destruct (assoc kv.1 props); [by apply IH|].
  destruct (assoc "additionalProperties" sc) as [[|[]| | | | | |]|]; simpl;
    try (apply reports_ok || apply reports_flag). by apply IH.
Qed.

Lemma object_reports kvs p :
  (forall k x s q, (k, x) ∈ kvs -> member_schema sc k = Some s -> reports (validate s x q) (conforms s x)) ->
  reports (_validate_object validate sc kvs p)
    (object_ok sc kvs /\ forall k x s, (k, x) ∈ kvs -> member_schema sc k = Some s -> conforms s x).
Proof.
  intros IH. unfold _validate_object. destruct (assoc "properties" sc) as [ps|] eqn:Ep.
  1: destruct (ck_properties_null _ _ _ _ Hck ps Ep) as [->|Ho].
  { eapply reports_iff, reports_flag. split; [done|]. intros [[H _] _]. by specialize (H _ Ep). }
  1: destruct ps as [| | | | | |ps|]; try done.
  all: cbn [default]; (eapply reports_iff, reports_also; [|apply required_reports
    |apply (reports_for_each _ _ member_ok); intros [k x] Hin; apply member_reports; [|by intros; eapply IH]]).
  1, 3: rewrite members_ok; unfold object_ok; rewrite Ep; naive_solver.
  all: intros k'; unfold declared; by rewrite Ep.
Qed.

Lemma array_reports l p :
  (forall x s q, x ∈ l -> assoc "items" sc = Some (JObj s) -> reports (validate (JObj s) x q) (conforms (JObj s) x)) ->
  reports (_validate_array validate sc l p)
    (leaf_ok sc (JList l) /\ forall x s, x ∈ l -> assoc "items" sc = Some (JObj s) -> conforms (JObj s) x).
Proof.
  intros IH. unfold _validate_array.
  eapply reports_iff, reports_also; [|apply limit_reports; set_solver|
    eapply reports_also; [apply limit_reports; set_solver|]].
  2: { instantiate (1 := forall x s, x ∈ l -> assoc "items" sc = Some (JObj s) -> conforms (JObj s) x).
    unfold get. destruct (assoc "items" sc) as [[| | | | | |s|]|] eqn:E; simpl;
      try (eapply reports_iff, reports_ok; by split).
    eapply reports_iff, (reports_for_each _ _ (fun ix => conforms (JObj s) ix.2)).
    - rewrite <- Forall_forall. rewrite <- (Forall_fmap snd (fun x => conforms (JObj s) x)).
      change (snd <$> zip (seq 0 (length l)) l) with (zip (seq 0 (length l)) l).*2.
      rewrite snd_zip by (rewrite length_seq; lia). rewrite Forall_forall. split.
      + intros H x s' Hx [= <-]. by apply H.
      + intros H x Hx. by eapply H.
    - intros [i x] Hx%elem_of_zip_r. by apply IH. }
  simpl. unfold within. setoid_rewrite Z.ltb_ge. tauto.
Qed.
End level.

(** What [conforms] asks of a value beyond its type and the enumeration. *)
Definition parts_ok (sc : list (string * json)) (v : json) : Prop :=
  match v with
  | JObj kvs => object_ok sc kvs /\ forall k x s, (k, x) ∈ kvs -> member_schema sc k = Some s -> conforms s x
  | JList l => leaf_ok sc v /\ forall x s, x ∈ l -> assoc "items" sc = Some (JObj s) -> conforms (JObj s) x
  | _ => leaf_ok sc v
  end.

Lemma conforms_iff sc v : conforms (JObj sc) v <-> type_ok sc v /\ enum_ok sc v /\ parts_ok sc v.
Proof.
  split.
  - inversion 1 as [sc' v' Ht He Hl Ho Hm Hi]; subst. split; [exact Ht|]. split; [exact He|].
    destruct v as [| | | | |l|kvs|]; cbn [parts_ok]; [exact Hl..| | |exact Hl].
    + split; [exact Hl|]. intros x s Hx Hs. exact (Hi l x s eq_refl Hx Hs).
    + split; [exact (Ho kvs eq_refl)|]. intros k x s Hx Hs. exact (Hm kvs k x s eq_refl Hx Hs).
  - intros (Ht & He & Hp). destruct v as [| | | | |l|kvs|]; cbn [parts_ok] in Hp;
      [apply conforms_intro; [exact Ht|exact He|exact Hp|intros; discriminate..].. | | |apply conforms_intro; [exact Ht|exact He|exact Hp|intros; discriminate..]].
    + destruct Hp as [Hl Hi]. apply conforms_intro; [exact Ht|exact He|exact Hl|intros; discriminate| |].
      * intros ???? [=].
      * intros l' x s [= <-]. apply Hi.
    + destruct Hp as [Ho Hm]. apply conforms_intro; [exact Ht|exact He|exact I| | |].
      * intros kvs' [= <-]. exact Ho.
      * intros kvs' k x s [= <-]. apply Hm.
      * intros ??? [=].
Qed.

Lemma type_reports sc value path checks P :
  get "type" sc = JNull \/ (exists t, get "type" sc = JStr t /\ mem_b t _TYPES = true) -> reports checks P ->
  reports match get "type" sc with
          | JNull => checks
          | JStr t =>
              if negb (mem_b t _TYPES) then flag path ("unsupported schema type: " ++ str_repr t)
              else if negb (_matches_type t value) then flag path ("expected " ++ t)
              else checks
          | expected => flag path ("unsupported schema type: " ++ py_repr expected)
          end (type_ok sc value /\ P).
Proof.
  intros [E|(t & E & Ht)] Hc; rewrite E.
  - eapply reports_iff, Hc. split; [intros HP; split; [|exact HP]|tauto]. intros t Et%get_Some. congruence.
  - rewrite Ht. cbn [negb]. assert (assoc "type" sc = Some (JStr t)) as Ea.
    { unfold get in E. destruct (assoc "type" sc); simpl in E; congruence. }
    unfold type_ok. rewrite Ea. destruct (_matches_type t value) eqn:Em; cbn [negb].
    + eapply reports_iff, Hc. split; [intros HP; split; [|exact HP]|tauto]. intros t' [= <-]. by apply matches_type_iff.
    + eapply reports_iff, reports_flag. split; [tauto|]. intros [H _]. specialize (H t eq_refl). apply matches_type_iff in H. congruence.
Qed.

Lemma member_checked fuel sc q depth k s : checked_level fuel sc q depth -> member_schema sc k = Some s ->
  exists r, _validate_schema re_compile fuel s r (depth + 1) = Ok [].
Proof.
  intros Hck Hs. unfold member_schema in Hs. destruct (declared sc k) as [s'|] eqn:Ed.
  - injection Hs as <-. unfold declared in Ed. destruct (assoc "properties" sc) as [[| | | | | |ps|]|] eqn:Ep; try discriminate Ed.
    pose proof (ck_properties _ _ _ _ Hck ps Ep) as Hp. rewrite Forall_forall in Hp.
    apply assoc_elem_of in Ed. exists (_child q k). exact (Hp (k, s') Ed).
  - destruct (assoc "additionalProperties" sc) as [[| | | | | |a|]|] eqn:Ea; try discriminate Hs. injection Hs as <-.
    eapply ck_additional; [exact Hck|exact Ea].
Qed.

Lemma value_reports fuel1 fuel sc path q depth value :
  checked_level fuel1 sc q depth -> numbers_fit value = true ->
  (forall s x p r, _validate_schema re_compile fuel1 s r (depth + 1) = Ok [] -> numbers_fit x = true ->
     reports (_validate re_search fuel s x p (depth + 1)) (conforms s x)) ->
  reports match value with
          | JStr s => _validate_string re_search sc s path
          | JInt _ | JFloat _ => _validate_number sc value path
          | JObj kvs => _validate_object (fun s v p => _validate re_search fuel s v p (depth + 1)) sc kvs path
          | JList l => _validate_array (fun s v p => _validate re_search fuel s v p (depth + 1)) sc l path
          | _ => Ok []
          end (parts_ok sc value).
Proof.
  intros Hck Hn IH. destruct value as [| |n|f|s|l|kvs|]; cbn [numbers_fit] in Hn; try apply reports_ok.
  - eapply number_reports; [exact Hck|by eexists|]. by destruct (finite_float (JInt n)) as [[]|].
  - eapply number_reports; [exact Hck|by eexists|]. by destruct (finite_float (JFloat f)) as [[]|].
  - eapply string_reports. exact Hck.
  - rewrite forallb_Forall, Forall_forall in Hn. eapply array_reports; [exact Hck|]. intros x s p Hx Hs.
    eapply IH; [eapply ck_items; [exact Hck|exact Hs]|by apply Hn].
  - rewrite forallb_Forall, Forall_forall in Hn. eapply object_reports; [exact Hck|]. intros k x s p Hx Hs.
    apply Hn in Hx. destruct (member_checked _ _ _ _ k s Hck Hs) as [r Hr]. by eapply IH.
Qed.

(** A schema without reports and a value whose numbers fit: the validator comes to an end, and it
    has nothing to report exactly when the value conforms. *)
Lemma validate_decides : forall fuel1 fuel schema value path q depth,
  _validate_schema re_compile fuel1 schema q depth = Ok [] -> numbers_fit value = true ->
  MAX_DEPTH + 2 <= depth + Z.of_nat fuel ->
  reports (_validate re_search fuel schema value path depth) (conforms schema value).
Proof.
  intros fuel1 fuel. revert fuel1. induction fuel as [|fuel IH]; intros [|fuel1] schema value path q depth Hs Hn Hf;
    try discriminate Hs; apply schema_level in Hs as (sc & -> & Hck); pose proof (ck_depth _ _ _ _ Hck) as Hd; [lia|].
  cbn [_validate]. rewrite (proj2 (Z.ltb_ge MAX_DEPTH depth)) by exact Hd.
  rewrite (ck_known _ _ _ _ Hck). cbn [negb bool_decide].
  eapply reports_iff; [symmetry; apply conforms_iff|]. apply type_reports; [exact (ck_type _ _ _ _ Hck)|].
  apply reports_also; [apply enum_reports|]. eapply value_reports; [exact Hck|exact Hn|].
  intros s x p r Hs Hx. eapply IH; [exact Hs|exact Hx|lia].
Qed.
End meaning.

(** ** The entry points *)

Lemma config_spaced : spaced config_opts.
Proof. exists " ", " ". split_and!; try done; repeat constructor. Qed.

(** The size the limits are about. *)
Definition encoded_size (v : json) : Z :=
  match dumps config_opts v with Ok t => Z.of_nat (length (utf8_encode t)) | Err _ => 0 end.

Lemma reencode_exact what limit v : json_exact v = true -> encoded_size v <= limit -> reencode what limit v = Ok v.
Proof.
  intros He Hs. destruct (dumps_loads config_opts v [] [] config_spaced He white_nil white_nil) as (t & Ht & Hl).
  unfold encoded_size in Hs. unfold reencode. rewrite Ht in *. rewrite (proj2 (Z.ltb_ge _ _) Hs). cbn [raise_if mbind result_bind].
  specialize (Hl float_constant). cbn [app] in Hl. rewrite app_nil_r, of_chars_chars in Hl. exact Hl.
Qed.

Section decision.
Context (re_compile : string -> bool) (re_search : string -> string -> option bool).
Hypothesis search_compiled : forall p s, re_compile p = true -> is_Some (re_search p s).

Lemma bind_known {A B} (m : result A) a (f : A -> result B) r : m = Ok a -> f a = r -> m ≫= f = r.
Proof. by intros -> <-. Qed.

Lemma schema_checked schema sc : validate_extension_config_schema re_compile schema = Ok sc ->
  _validate_schema re_compile config_fuel sc "" 0 = Ok [].
Proof.
  unfold validate_extension_config_schema. destruct schema; try discriminate.
  intros (sc' & _ & (errors & Hc & (u & He & [= <-])%result_bind_Ok)%result_bind_Ok)%result_bind_Ok.
  apply raise_if_Ok in He. bool_props. subst errors. exact Hc.
Qed.

Lemma validate_outcome schema sc config v field_name es :
  validate_extension_config_schema re_compile schema = Ok sc ->
  is_obj config = true -> reencode field_name MAX_CONFIG_BYTES config = Ok v ->
  _validate re_search config_fuel sc v "" 0 = Ok es ->
  validate_extension_config re_compile re_search (Some schema) config field_name
  = if decide (es = []) then Ok v
    else fail ExtensionConfigError (field_name ++ " does not match the schema: " ++ rendered es).
Proof.
  intros Hs Ho Hr Hv. destruct config; try discriminate Ho. unfold validate_extension_config.
  apply bind_known with v; [exact Hr|]. apply bind_known with sc; [exact Hs|]. apply bind_known with es; [exact Hv|].
  destruct (decide (es = [])) as [->|Hne]; [reflexivity|]. rewrite (bool_decide_eq_false_2 _ Hne). reflexivity.
Qed.

(** C39. The configuration validator decides what the schema means.  Once the schema of an
    extension has passed its own check, a document whose numbers are finite floats is accepted,
    as it was parsed, exactly when it conforms to the schema, and everything else is refused with
    an [ExtensionConfigError]; a document without floats is accepted unchanged. *)
Theorem accepted_configs_conform schema sc config v field_name :
  validate_extension_config_schema re_compile schema = Ok sc ->
  is_obj config = true -> reencode field_name MAX_CONFIG_BYTES config = Ok v -> numbers_fit v = true ->
  (json_exact config = true -> encoded_size config <= MAX_CONFIG_BYTES -> v = config) /\
  ((validate_extension_config re_compile re_search (Some schema) config field_name = Ok v /\
    conforms re_search sc v) \/
   (exists msg, validate_extension_config re_compile re_search (Some schema) config field_name
                = fail ExtensionConfigError msg /\ ~ conforms re_search sc v)).
Proof.
  intros Hs Ho Hr Hn. split.
  { intros He Hz. rewrite reencode_exact in Hr by assumption. congruence. }
  destruct (validate_decides re_compile re_search search_compiled config_fuel config_fuel sc v "" "" 0) as (es & E & Hes);
    [by apply schema_checked in Hs|exact Hn|reflexivity|].
  rewrite (validate_outcome schema sc config v field_name es Hs Ho Hr E).
  destruct (decide (es = [])) as [He|He].
  - left. split; [reflexivity|by apply Hes].
  - right. eexists. split; [reflexivity|by rewrite <- Hes].
Qed.
End decision.

(** ** A configuration and its schema *)

Module ConfigScenario.
(** Patterns without operators. *)
Definition re_compile (p : string) : bool := forallb (fun a => negb (mem_b (code a) [40; 41; 42; 43; 63; 91; 92; 93])) (chars p).
Definition re_search (p s : string) : option bool := Some (str_contains_l (chars p) (chars s)).

Definition schema : json := JObj [
  ("type", JStr "object"); ("required", JList [JStr "host"]); ("additionalProperties", JBool false);
  ("properties", JObj [
     ("host", JObj [("type", JStr "string"); ("minLength", JInt 3); ("pattern", JStr "nju")]);
     ("port", JObj [("type", JStr "integer"); ("minimum", JInt 1); ("maximum", JInt 65535)]);
     ("folders", JObj [("type", JStr "array"); ("maxItems", JInt 2); ("items", JObj [("type", JStr "string")])])])].

Definition config : json := JObj [("host", JStr "mail.nju.edu.cn"); ("port", JInt 993); ("folders", JList [JStr "INBOX"])].

Example config_refused : validate_extension_config re_compile re_search (Some schema)
  (JObj [("host", JStr "ab"); ("port", JInt 0); ("extra", JNull)]) "config"
  = fail ExtensionConfigError ("config does not match the schema: host: must have at least 3 characters; "
      ++ "host: does not match the required pattern; port: must be >= 1; extra: additional properties are not allowed").
Proof. vm_compute. reflexivity. Qed.

(** A keyword that is [null] passes the check of the schema, and no value then passes the check of
    the configuration. *)
Definition null_schema : json := JObj [("properties", JObj [("mode", JObj [("enum", JNull)]); ("nested", JObj [("properties", JNull)])])].
Example null_keywords_pass : is_ok (validate_extension_config_schema re_compile null_schema) = true.
Proof. vm_compute. reflexivity. Qed.
Example null_keywords_refuse : validate_extension_config re_compile re_search (Some null_schema)
  (JObj [("mode", JStr "fast"); ("nested", JObj [])]) "config"
  = fail ExtensionConfigError ("config does not match the schema: mode: value is not one of the allowed values; "
      ++ "nested: properties must be an object").
Proof. vm_compute. reflexivity. Qed.

(** An integer beyond the floats is not refused but raises [OverflowError]. *)
Example huge_integer_raises : validate_extension_config re_compile re_search (Some (JObj [("type", JStr "object")]))
  (JObj [("n", JInt 1)]) "config" = Ok (JObj [("n", JInt 1)]) /\
  validate_extension_config re_compile re_search
    (Some (JObj [("properties", JObj [("n", JObj [("type", JStr "integer")])])])) (JObj [("n", JInt (10 ^ 400))]) "config"
  = fail PyOverflowError "int too large to convert to float".
Proof. vm_compute. by split. Qed.
End ConfigScenario.

Lemma accepted_configs_conform_witness :
  validate_extension_config ConfigScenario.re_compile ConfigScenario.re_search (Some ConfigScenario.schema)
    ConfigScenario.config "config" = Ok ConfigScenario.config /\
  conforms ConfigScenario.re_search ConfigScenario.schema ConfigScenario.config.
Proof.
  destruct (accepted_configs_conform ConfigScenario.re_compile ConfigScenario.re_search
    (fun p s _ => mk_is_Some _ _ eq_refl) ConfigScenario.schema ConfigScenario.schema ConfigScenario.config
    ConfigScenario.config "config") as [_ [[H1 H2]|(msg & H & _)]]; [vm_compute; reflexivity..| |].
  - split; assumption.
  - exfalso. assert (is_ok (validate_extension_config ConfigScenario.re_compile ConfigScenario.re_search
      (Some ConfigScenario.schema) ConfigScenario.config "config") = true) as E by (vm_compute; reflexivity).
    rewrite H in E. discriminate E.
Defined.
