(* ===== verification/RpcFrames.v ===== *)
(** * RpcFrames: the newline-delimited JSON-RPC frames between host and workers

    Models [personal_assistant_sdk/rpc.py].  A frame is the text of one JSON object and a newline;
    its size is that of its UTF-8 encoding.  The main theorem says that a sequence of messages
    written to the stream is read back as that sequence: the frames cut the stream where they
    were joined, and every frame decodes to the message it was written from. *)

From S2P Require Import Prelude Text PyFloat Json JsonParse JsonGrammar JsonRoundTrip.
Local Open Scope string_scope.
Local Open Scope Z_scope.

Definition JSONRPC_VERSION : string := "2.0".

(** [er_code] is an [int]; a [bool] is one. *)
Record RpcError := { er_code : json; er_message : string; er_data : list (string * json) }.

Definition error_as_dict (e : RpcError) : json :=
  JObj [("code", er_code e); ("message", JStr (er_message e)); ("data", JObj (er_data e))].

Record RpcRequest := {
  rq_id : string;
  rq_method : string;
  rq_params : list (string * json);
  rq_jsonrpc : string
}.

Record RpcResponse := {
  rs_id : option string;
  rs_result : json;
  rs_error : option RpcError;
  rs_jsonrpc : string
}.

Inductive message := Request (r : RpcRequest) | Response (r : RpcResponse).

Definition mk_request (id method : string) (params : list (string * json)) : RpcRequest :=
  {| rq_id := id; rq_method := method; rq_params := params; rq_jsonrpc := JSONRPC_VERSION |}.

(** [__post_init__] *)
Definition mk_response (id : option string) (result_ : json) (error : option RpcError) : result RpcResponse :=
  match error, result_ with
  | None, _ | _, JNull => Ok {| rs_id := id; rs_result := result_; rs_error := error; rs_jsonrpc := JSONRPC_VERSION |}
  | Some _, _ => fail PyValueError "response cannot contain both result and error"
  end.

Definition id_json (id : option string) : json := match id with Some i => JStr i | None => JNull end.

Definition request_as_dict (r : RpcRequest) : json :=
  JObj [("jsonrpc", JStr (rq_jsonrpc r)); ("id", JStr (rq_id r)); ("method", JStr (rq_method r));
        ("params", JObj (rq_params r))].

Definition response_as_dict (r : RpcResponse) : json :=
  JObj [("jsonrpc", JStr (rs_jsonrpc r)); ("id", id_json (rs_id r));
        match rs_error r with
        | Some e => ("error", error_as_dict e)
        | None => ("result", rs_result r)
        end].

Definition as_dict (m : message) : json :=
  match m with Request r => request_as_dict r | Response r => response_as_dict r end.

(** [ensure_ascii=False, separators=(",", ":")] *)
Definition frame_opts : dump_opts := {| sort_keys := false; allow_nan := true; item_sep := ","; key_sep := ":" |}.

Definition newline_a : Ascii.ascii := Ascii.ascii_of_N 10.
Definition newline : string := of_chars [newline_a].

Definition encode_frame (m : message) : result string :=
  match dumps frame_opts (as_dict m) with
  | Ok t => Ok (t ++ newline)
  | Err e => if exn_is e PyTypeError || exn_is e PyValueError
             then fail RpcProtocolError "RPC frame is not JSON serializable" else Err e
  end.

Definition frame_size (frame : string) : Z := Z.of_nat (length (utf8_encode frame)).

Definition _decode_json_object (frame : string) (max_bytes : Z) : result (list (string * json)) :=
  _ ← raise_if (max_bytes <? frame_size frame) RpcProtocolError "RPC frame exceeds configured maximum";
  match loads frame with
  | Err e => if exn_is e PyValueError then fail RpcProtocolError "invalid JSON frame" else Err e
  | Ok (JObj body) => Ok body
  | Ok _ => fail RpcProtocolError "RPC frame must contain a JSON object"
  end.

(** [body.get("jsonrpc") != JSONRPC_VERSION] *)
Definition check_version (body : list (string * json)) : result unit :=
  match assoc "jsonrpc" body with
  | Some (JStr v) => raise_if (negb (bool_decide (v = JSONRPC_VERSION))) RpcProtocolError "unsupported jsonrpc version"
  | _ => fail RpcProtocolError "unsupported jsonrpc version"
  end.

Definition non_empty (v : option json) (msg : string) : result string :=
  match v with
  | Some (JStr s) => if bool_decide (s = "") then fail RpcProtocolError msg else Ok s
  | _ => fail RpcProtocolError msg
  end.

Definition decode_request (frame : string) (max_bytes : Z) : result RpcRequest :=
  body ← _decode_json_object frame max_bytes;
  _ ← check_version body;
  request_id ← non_empty (assoc "id" body) "request id must be a non-empty string";
  method ← non_empty (assoc "method" body) "method must be a non-empty string";
  match default (JObj []) (assoc "params" body) with
  | JObj params => Ok (mk_request request_id method params)
  | _ => fail RpcProtocolError "params must be an object"
  end.

Definition decode_error_object (error : json) : result RpcError :=
  match error with
  | JObj error =>
      match assoc "code" error, assoc "message" error, default (JObj []) (assoc "data" error) with
      | Some ((JInt _ | JBool _) as code), Some (JStr message), JObj data =>
          Ok {| er_code := code; er_message := message; er_data := data |}
      | _, _, _ => fail RpcProtocolError "invalid error object"
      end
  | _ => fail RpcProtocolError "error must be an object"
  end.

Definition decode_response (frame : string) (max_bytes : Z) : result RpcResponse :=
  body ← _decode_json_object frame max_bytes;
  _ ← check_version body;
  response_id ← match assoc "id" body with
                | None | Some JNull => Ok None
                | Some (JStr i) => Ok (Some i)
                | Some _ => fail RpcProtocolError "response id must be a string or null"
                end;
  match assoc "result" body, assoc "error" body with
  | None, Some error => e ← decode_error_object error; mk_response response_id JNull (Some e)
  | Some r, None => mk_response response_id r None
  | _, _ => fail RpcProtocolError "response must contain exactly one of result or error"
  end.

(** A frame with a [method] is a request, every other frame a response. *)
Definition decode_frame (frame : string) (max_bytes : Z) : result message :=
  body ← _decode_json_object frame max_bytes;
  match assoc "method" body with
  | Some _ => r ← decode_request frame max_bytes; Ok (Request r)
  | None => r ← decode_response frame max_bytes; Ok (Response r)
  end.

(** ** The stream *)

(** [stream.readline()]: up to and including the next newline, and what is left. *)
Fixpoint cut_line (l : list Ascii.ascii) : list Ascii.ascii * list Ascii.ascii :=
  match l with
  | [] => ([], [])
  | a :: l => if bool_decide (a = newline_a) then ([a], l)
              else let '(x, y) := cut_line l in (a :: x, y)
  end.

Definition readline (stream : string) : string * string :=
  let '(x, y) := cut_line (chars stream) in (of_chars x, of_chars y).

(** The messages of a stream that has come to its end. *)
Fixpoint read_messages (fuel : nat) (stream : string) (max_bytes : Z) : result (list message) :=
  match fuel with
  | O => Ok []
  | S fuel =>
      let '(frame, rest) := readline stream in
      if bool_decide (frame = "") then Ok [] else
      m ← decode_frame frame max_bytes;
      ms ← read_messages fuel rest max_bytes;
      Ok (m :: ms)
  end.

(** ** A frame decodes to its message *)

(** A message as the constructors make it, without floats in its payload. *)
Definition well_formed (m : message) : bool :=
  match m with
  | Request r => bool_decide (rq_jsonrpc r = JSONRPC_VERSION) && negb (bool_decide (rq_id r = ""))
                 && negb (bool_decide (rq_method r = "")) && json_exact (JObj (rq_params r))
  | Response r =>
      bool_decide (rs_jsonrpc r = JSONRPC_VERSION) &&
      match rs_error r with
      | None => json_exact (rs_result r)
      | Some e => match rs_result r with JNull => true | _ => false end
                  && match er_code e with JInt _ => true | _ => false end && json_exact (JObj (er_data e))
      end
  end.

Lemma frame_spaced : spaced frame_opts.
Proof. exists "", "". split_and!; auto with pa. Qed.

Lemma exact_obj kvs : json_exact (JObj kvs) = true <-> NoDup (keys kvs) /\ Forall (fun kv => json_exact kv.2 = true) kvs.
Proof. cbn [json_exact]. by rewrite andb_true_iff, bool_decide_eq_true, forallb_Forall. Qed.

Lemma as_dict_exact m : well_formed m = true -> json_exact (as_dict m) = true.
Proof.
  destruct m as [[i me ps v]|[i res err v]]; unfold well_formed; cbn [rq_jsonrpc rq_id rq_method rq_params rs_error rs_result rs_jsonrpc];
    intros H; [|destruct err as [[c msg data]|]]; bool_props; apply exact_obj; (split; [by apply (bool_decide_unpack _)|]).
  - repeat constructor; done.
  - cbn [er_data er_code] in *. destruct c; try done. repeat constructor; [by destruct i|].
    apply exact_obj. split; [by apply (bool_decide_unpack _)|]. repeat constructor; done.
  - repeat constructor; [by destruct i|done].
Qed.

Lemma frame_loads m : well_formed m = true -> exists t,
  encode_frame m = Ok (t ++ newline) /\ dumps frame_opts (as_dict m) = Ok t /\ loads (t ++ newline) = Ok (as_dict m).
Proof.
  intros Hm. destruct (dumps_loads frame_opts (as_dict m) [] [newline_a] frame_spaced (as_dict_exact m Hm))
    as (t & Ht & Hl); [apply white_nil|by repeat constructor|]. exists t. unfold encode_frame. rewrite Ht.
  split; [done|]. split; [done|]. specialize (Hl float_constant). cbn [app] in Hl.
  assert (of_chars (chars t ++ [newline_a])%list = t ++ newline) as E.
  { apply chars_inj. by rewrite chars_of_chars, chars_app. }
  by rewrite E in Hl.
Qed.

Lemma non_empty_str s msg : s <> "" -> non_empty (Some (JStr s)) msg = Ok s.
Proof. intros H. unfold non_empty. by rewrite bool_decide_eq_false_2. Qed.

Lemma decode_encode m frame max_bytes : well_formed m = true -> encode_frame m = Ok frame ->
  frame_size frame <= max_bytes -> decode_frame frame max_bytes = Ok m.
Proof.
  intros Hm He Hs. destruct (frame_loads m Hm) as (t & He' & _ & Hl). rewrite He in He'. injection He' as ->.
  assert (exists body, as_dict m = JObj body /\ _decode_json_object (t ++ newline) max_bytes = Ok body) as (body & Eb & Hd).
  { unfold _decode_json_object. rewrite (proj2 (Z.ltb_ge _ _) Hs), Hl. cbn [raise_if mbind result_bind].
    destruct m; by eexists. }
  unfold decode_frame, decode_request, decode_response. rewrite Hd. cbn [mbind result_bind].
  destruct m as [[i me ps v]|[i res err v]]; unfold well_formed in Hm; cbn in Hm; bool_props; subst; injection Eb as <-.
  - change (assoc "method" _) with (Some (JStr me)). change (assoc "id" _) with (Some (JStr i)). cbn [mbind result_bind].
    rewrite !non_empty_str by done. done.
  - destruct err as [[c msg data]|]; cbn in *; bool_props.
    + destruct res; try done. destruct c; try done. by destruct i.
    + by destruct i.
Qed.

(** ** A frame is one line *)

Definition one_line (t : string) : Prop := newline_a ∉ chars t.

Lemma one_line_app s t : one_line s -> one_line t -> one_line (s ++ t).
Proof. unfold one_line. rewrite chars_app. set_solver. Qed.

Lemma one_line_join sep ps : one_line sep -> Forall one_line ps -> one_line (str_join sep ps).
Proof.
  intros Hs. induction 1 as [|p ps Hp Hps IH]; [by apply not_elem_of_nil|].
  destruct ps as [|q ps]; [done|]. change (str_join sep (p :: q :: ps)) with (p ++ sep ++ str_join sep (q :: ps)).
  by repeat apply one_line_app.
Qed.

Lemma escape_one_line a : newline_a ∉ escape_char a.
Proof. apply (bool_decide_unpack _). by destruct a as [[] [] [] [] [] [] [] []]. Qed.

Lemma string_one_line s : one_line (json_string s).
Proof.
  unfold one_line. rewrite chars_json_string. rewrite not_elem_of_cons, not_elem_of_app. split_and!; [done| |set_solver].
  induction (chars s) as [|a l IH]; [apply not_elem_of_nil|]. rewrite fmap_cons. cbn [concat].
  rewrite not_elem_of_app. split; [apply escape_one_line|done].
Qed.

Lemma int_one_line n : one_line (str_of_Z n).
Proof.
  assert (forall l, forallb is_digit l = true -> newline_a ∉ l) as Hd.
  { intros l Hl Hn. rewrite forallb_forall in Hl. by specialize (Hl newline_a (proj1 (list_elem_of_In _ _) Hn)). }
  unfold one_line. destruct n as [|p|p]; [by apply (bool_decide_unpack _)| |].
  - destruct (pretty_pos_digits p) as (d & ds & -> & Hds & _). by apply Hd.
  - destruct (pretty_pos_digits p) as (d & ds & Hc & Hds & _).
    assert (chars (str_of_Z (Z.neg p)) = Ascii.ascii_of_N 45 :: d :: ds) as -> by (simpl; f_equal; exact Hc).
    rewrite not_elem_of_cons. split; [done|by apply Hd].
Qed.

Lemma dumps_one_line v t : json_exact v = true -> dumps frame_opts v = Ok t -> one_line t.
Proof.
  revert t. induction v as [|[]|n| |s|l IH|kvs IH|] using json_nested_ind; intros t He Ht; try discriminate He;
    try (injection Ht as <-; by apply (bool_decide_unpack _)).
  - injection Ht as <-. apply int_one_line.
  - injection Ht as <-. apply string_one_line.
  - cbn [dumps] in Ht. apply result_bind_Ok in Ht as (ps & Hp%sequence_fmap_Ok & [= <-]). simpl in He. rewrite forallb_Forall in He.
    apply one_line_app; [by apply (bool_decide_unpack _)|]. apply one_line_app; [|by apply (bool_decide_unpack _)].
    apply one_line_join; [by apply (bool_decide_unpack _)|]. induction Hp as [|x p l ps Hx _ IHp]; [done|].
    rewrite List.Forall_cons_iff in IH, He. destruct IH, He. constructor; auto.
  - rewrite dumps_obj in Ht. apply result_bind_Ok in Ht as (ps & Hp%sequence_fmap_Ok & [= <-]). apply exact_obj in He as [_ He].
    apply one_line_app; [by apply (bool_decide_unpack _)|]. apply one_line_app; [|by apply (bool_decide_unpack _)].
    apply one_line_join; [by apply (bool_decide_unpack _)|]. cbn [written sort_keys frame_opts] in Hp.
    induction Hp as [|x p l ps Hx _ IHp]; [done|].
    rewrite List.Forall_cons_iff in IH, He. destruct IH, He. constructor; [|auto].
    apply result_bind_Ok in Hx as (t & Ht & [= <-]). apply one_line_app; [apply string_one_line|].
    apply one_line_app; [by apply (bool_decide_unpack _)|auto].
Qed.

Lemma readline_frame t rest : one_line t -> readline ((t ++ newline) ++ rest) = (t ++ newline, rest).
Proof.
  unfold one_line, readline. rewrite !chars_app. change (chars newline) with [newline_a]. intros H.
  assert (cut_line ((chars t ++ [newline_a]) ++ chars rest) = (chars t ++ [newline_a], chars rest))%list as ->.
  { revert H. induction (chars t) as [|a l IH]; intros H; [done|]. apply not_elem_of_cons in H as [H1 H2].
    cbn [app cut_line]. rewrite bool_decide_eq_false_2 by congruence. by rewrite IH. }
  f_equal; [|by rewrite of_chars_chars]. apply chars_inj. by rewrite chars_of_chars, chars_app.
Qed.

(** The stream between host and worker is faithful.  Whatever sequence of well-formed
    messages one side writes, each within the limit of the other, the other side reads exactly
    those messages in that order: no payload can end a frame early or pass for another message. *)
Theorem rpc_stream_round_trips ms frames max_bytes :
  Forall (fun m => well_formed m = true) ms ->
  Forall2 (fun m f => encode_frame m = Ok f) ms frames -> Forall (fun f => frame_size f <= max_bytes) frames ->
  read_messages (S (length ms)) (str_join "" frames) max_bytes = Ok ms.
Proof.
  intros Hw He. revert Hw. induction He as [|m f ms frames Hm He IH]; intros Hw Hs; [done|].
  rewrite List.Forall_cons_iff in Hw, Hs. destruct Hw as [Hw Hws], Hs as [Hf Hfs].
  destruct (frame_loads m Hw) as (t & Hm' & Ht & _). rewrite Hm in Hm'. injection Hm' as ->.
  assert (str_join "" ((t ++ newline) :: frames) = (t ++ newline) ++ str_join "" frames) as ->.
  { destruct frames; [|done]. cbn [str_join]. apply chars_inj. rewrite (chars_app _ (String.EmptyString)). symmetry. apply app_nil_r. }
  cbn [length]. remember (S (length ms)) as n eqn:En. cbn [read_messages]. rewrite readline_frame by (eapply dumps_one_line; [by apply as_dict_exact|done]).
  rewrite bool_decide_eq_false_2 by (by destruct t). rewrite (decode_encode m (t ++ newline) max_bytes) by done.
  cbn [mbind result_bind]. rewrite (IH Hws Hfs). done.
Qed.

Module FrameScenario.
Definition call : message := Request (mk_request "call_1" "tool.invoke" [("tool_id", JStr ("a" ++ newline ++ "b"))]).
Definition answer : message := Response {| rs_id := Some "call_1"; rs_result := JObj [("ok", JBool true)]; rs_error := None;
  rs_jsonrpc := JSONRPC_VERSION |}.
Definition failure : message := Response {| rs_id := None; rs_result := JNull;
  rs_error := Some {| er_code := JInt (-32700); er_message := "invalid frame"; er_data := [] |}; rs_jsonrpc := JSONRPC_VERSION |}.
Definition text (m : message) : string := match encode_frame m with Ok f => f | Err _ => "" end.
End FrameScenario.

Lemma rpc_stream_round_trips_witness :
  read_messages 4 (str_join "" (FrameScenario.text <$> [FrameScenario.call; FrameScenario.answer; FrameScenario.failure])) 1048576
  = Ok [FrameScenario.call; FrameScenario.answer; FrameScenario.failure].
Proof.
  apply (rpc_stream_round_trips [FrameScenario.call; FrameScenario.answer; FrameScenario.failure]).
  - repeat constructor.
  - repeat constructor; vm_compute; reflexivity.
  - repeat constructor; vm_compute; discriminate.
Defined.
