(* ===== verification/RpcClient.v ===== *)
(** * RpcClient: the host side of the stdio JSON-RPC stream

    Models [core/extensions/rpc.py]: the process client with its calls, its reader and the host
    capability requests of the worker, and the worker facade that checks the handshake.  An
    operation of [rpcE] is what the code does between two suspensions of the event loop: the whole
    of [_exchange] up to its first [await], for instance, is [Send].  Calls, readers, shutdowns and
    the worker processes interleave in any order. *)

From stdpp Require Import gmap.
From S2P Require Import Prelude Text Pool Monitor PyFloat Json JsonParse JsonGrammar JsonRoundTrip Schemas Manifest Extensions FormDrafts RpcFrames.
Local Open Scope string_scope.
Local Open Scope Z_scope.

Definition WORKER_INPUT_FRAME_BYTES : Z := 1024 * 1024.

(** An [RpcCallError]; the exception that carries it has its code as text. *)
Definition rpc_error (code : Z) (message : string) : RpcError :=
  {| er_code := JInt code; er_message := message; er_data := [] |}.
Definition call_error (e : RpcError) : exn :=
  Exn RpcCallError (er_message e) (match er_code e with JInt n => Some (str_of_Z n) | _ => None end) false.
Definition raise_call {A} (code : Z) (message : string) : result A := Err (call_error (rpc_error code message)).

(** ** The state *)

Inductive fvalue := Unresolved | Result (r : json) | Failed (e : RpcError) | Cancelled.

(** A future, with the request it waits for. *)
Record future := { fu_method : string; fu_params : list (string * json); fu_value : fvalue }.

(** What the host writes to a worker: a request of its own or an answer. *)
Inductive written_frame := WRequest (id frame : string) | WReply (frame : string).

(** A worker process.  [wk_out] are the lines on its standard output that nobody has read yet,
    [wk_sent] are all the lines it ever wrote. *)
Record worker := { wk_running : bool; wk_in : list written_frame; wk_out : list string; wk_sent : list string }.

#[export] Instance future_eta : Eta future := fun f => Build_future (fu_method f) (fu_params f) (fu_value f).
#[export] Instance worker_eta : Eta worker := fun w => Build_worker (wk_running w) (wk_in w) (wk_out w) (wk_sent w).

(** [JsonRpcProcessClient]: a process is its number among the workers ever started, and
    [cl_futures] is the heap of futures by request id, of which [cl_pending] are registered. *)
Record client := {
  cl_process : option nat;
  cl_locked : bool;
  cl_broken : bool;
  cl_in_flight : bool;
  cl_pending : list string;
  cl_failure : option RpcError;
  cl_futures : gmap string future;
  cl_workers : list worker
}.
#[export] Instance client_eta : Eta client := fun s => Build_client (cl_process s) (cl_locked s) (cl_broken s)
  (cl_in_flight s) (cl_pending s) (cl_failure s) (cl_futures s) (cl_workers s).

Definition new_client : client := {| cl_process := None; cl_locked := false; cl_broken := false; cl_in_flight := false;
  cl_pending := []; cl_failure := None; cl_futures := ∅; cl_workers := [] |}.

Definition new_worker : worker := {| wk_running := true; wk_in := []; wk_out := []; wk_sent := [] |}.

(** [process.returncode is None] *)
Definition alive (g : nat) (s : client) : bool :=
  match cl_workers s !! g with Some w => wk_running w | None => false end.

Definition running (s : client) : bool :=
  match cl_process s with Some g => alive g s && negb (cl_broken s) | None => false end.

Definition with_worker (g : nat) (f : worker -> worker) (s : client) : client :=
  s {{ cl_workers := alter f g (cl_workers s) }}.

Definition write_frame (g : nat) (x : written_frame) : client -> client :=
  with_worker g (fun w => w {{ wk_in := (wk_in w ++ [x])%list }}).

(** The statements of [start] after the process has been created. *)
Definition install (g : nat) (s : client) : client :=
  s {{ cl_process := Some g }} {{ cl_broken := false }} {{ cl_failure := None }} {{ cl_pending := [] }}.

Definition set_future (v : fvalue) (f : future) : future :=
  match fu_value f with Unresolved => f {{ fu_value := v }} | _ => f end.

(** [_fail_pending]: every registered future that is not done fails. *)
Definition _fail_pending (error : RpcError) (s : client) : client :=
  s {{ cl_futures := foldr (alter (set_future (Failed error))) (cl_futures s) (cl_pending s) }} {{ cl_pending := [] }}.

(** [_terminate] and [_stop_bounded] up to their first suspension: the process is swapped out and
    gets the signal. *)
Definition _terminate (s : client) : client :=
  match cl_process s with
  | Some g => with_worker g (fun w => w {{ wk_running := false }}) (s {{ cl_process := None }})
  | None => s
  end.

Definition _fail (error : RpcError) (s : client) : client :=
  _terminate (_fail_pending error (s {{ cl_broken := true }} {{ cl_failure := Some error }})).

Definition _break (s : client) : client :=
  let error := match cl_failure s with Some e => e | None => rpc_error (-32090) "extension worker is not running" end in
  _terminate (_fail_pending error (s {{ cl_broken := true }})).

Section limits.
Context (max_frame_bytes max_outbound_frame_bytes : Z).

(** ** What happens between two suspensions *)

(** [_exchange] up to the first [await]. *)
Definition send_request (id method : string) (params : list (string * json)) (s : client) : client * result string :=
  let closed := (s, raise_call (-32090) "extension worker is not running") in
  match cl_process s with
  | None => closed
  | Some g =>
      if negb (alive g s) || cl_broken s then closed else
      match encode_frame (Request (mk_request id method params)) with
      | Err e => (s, Err e)
      | Ok frame =>
          if max_outbound_frame_bytes <? frame_size frame then
            (s, raise_call (-32600) "extension request exceeded the worker input frame limit")
          else
            (write_frame g (WRequest id frame)
               (s {{ cl_futures := <[id := {| fu_method := method; fu_params := params; fu_value := Unresolved |}]> (cl_futures s) }}
                  {{ cl_pending := (cl_pending s ++ [id])%list }}), Ok id)
      end
  end.

(** What the reader does next. *)
Inductive routed := Continue | Stop | Handle (r : RpcRequest).

Definition drop_id (id : string) (l : list string) : list string := filter (fun i => i <> id) l.

(** The body of [_read_loop] for one line. *)
Definition route_frame (frame : string) (s : client) : client * result routed :=
  if max_frame_bytes <? frame_size frame then
    (_fail (rpc_error (-32092) "extension response exceeded maximum frame size") s, Ok Stop)
  else
    match decode_frame frame max_frame_bytes with
    | Err e => if exn_is e RpcProtocolError
               then (_fail (rpc_error (-32700) "extension sent an invalid JSON-RPC frame") s, Ok Stop)
               else (s, Err e)
    | Ok (Request r) => (s, Ok (Handle r))
    | Ok (Response m) =>
        match rs_id m with
        | None => (_fail (rpc_error (-32700) "extension rejected a host frame as invalid JSON-RPC") s, Ok Stop)
        | Some id =>
            if negb (mem_b id (cl_pending s)) then
              (_fail (rpc_error (-32093) "extension response id mismatch") s, Ok Stop)
            else
              (s {{ cl_pending := drop_id id (cl_pending s) }}
                 {{ cl_futures := alter (set_future match rs_error m with Some e => Failed e | None => Result (rs_result m) end)
                                    id (cl_futures s) }}, Ok Continue)
        end
    end.

(** The frame of an answer to the worker: an answer that does not fit becomes an error. *)
Definition reply_frame (request_id : string) (response : RpcResponse) : result string :=
  encoded ← encode_frame (Response response);
  if max_outbound_frame_bytes <? frame_size encoded then
    too_large ← mk_response (Some request_id) JNull (Some {| er_code := JInt (-32101);
      er_message := "host capability result exceeded the frame limit";
      er_data := [("code", JStr "DATA_RESULT_TOO_LARGE"); ("retryable", JBool false)] |});
    encode_frame (Response too_large)
  else Ok encoded.

(** ** Operations *)

(** The failures that are noticed outside of a line: [_handle_host_request] and the last clause of [_read_loop]. *)
Inductive stream_failure := InputClosed | StreamFailed.
Definition failure_error (why : stream_failure) : RpcError :=
  match why with
  | InputClosed => rpc_error (-32091) "extension worker closed its input stream"
  | StreamFailed => rpc_error (-32100) "extension stream failed unexpectedly"
  end.

Inductive rpcE : Type -> Type :=
| Clock : rpcE Z
| WallClock : rpcE Z
| Expired : rpcE bool
| IsRunning : rpcE bool
| HasProcess : rpcE (option bool)
| Spawn : rpcE nat
| Install (g : nat) : rpcE unit
| Acquire : rpcE unit
| Release : rpcE unit
| Send (method : string) (params : list (string * json)) : rpcE string
| Drain (id : string) : rpcE unit
| Forget (id : string) : rpcE unit
| Wait (id : string) (timeout : Z) : rpcE json
| Break : rpcE unit
| Fail (why : stream_failure) : rpcE unit
| Terminate : rpcE unit
| ReadFrame (g : nat) : rpcE routed
| HostCall (method : string) (params : list (string * json)) : rpcE json
| Reply (frame : string) : rpcE unit
| Emit (g : nat) (line : string) : rpcE unit
| Exit (g : nat) : rpcE unit.

(** The environment may cancel an [await], break a pipe or let a deadline pass. *)
Definition interrupted {X} (r : result X) : Prop := r = Err cancelled.

Definition reads (g : nat) (s s' : client) (r : result routed) : Prop :=
  match cl_workers s !! g with
  | None => s' = s /\ interrupted r
  | Some w =>
      (exists line rest, wk_out w = line :: rest /\
         (s', r) = route_frame line (with_worker g (fun w => w {{ wk_out := tail (wk_out w) }}) s)) \/
      ((s', r) = (_fail (rpc_error (-32092) "extension response exceeded maximum frame size") s, Ok Stop)) \/
      (wk_out w = [] /\ wk_running w = false /\
       exists code, (s', r) = (_fail (rpc_error (-32091) ("extension worker exited unexpectedly (" ++ code ++ ")")) s, Ok Stop)) \/
      (s' = s /\ interrupted r)
  end.

(** [asyncio.wait_for(future, timeout)] cancels a future that it gives up. *)
Definition waits (id : string) (s s' : client) (r : result json) : Prop :=
  match fu_value <$> cl_futures s !! id with
  | Some (Result v) => s' = s /\ r = Ok v
  | Some (Failed e) => s' = s /\ r = Err (call_error e)
  | _ => s' = s {{ cl_futures := alter (set_future Cancelled) id (cl_futures s) }} /\
         (r = fail PyTimeoutError "" \/ interrupted r)
  end.

Definition rpc_step (X : Type) (op : rpcE X) (s s' : client) (r : result X) : Prop :=
  match op in rpcE X return result X -> Prop with
  | Clock | WallClock => fun r => s' = s /\ exists t, r = Ok t
  | Expired => fun r => s' = s /\ exists b, r = Ok b
  | IsRunning => fun r => s' = s /\ r = Ok (running s)
  | HasProcess => fun r => s' = s /\
      r = Ok (match cl_process s with Some g => Some (alive g s && negb (cl_broken s)) | None => None end)
  | Spawn => fun r => (s' = s {{ cl_workers := (cl_workers s ++ [new_worker])%list }} /\ r = Ok (length (cl_workers s))) \/
                      (s' = s /\ exists e, r = Err e)
  | Install g => fun r => s' = install g s /\ r = Ok tt
  | Acquire => fun r => (cl_locked s = false /\ s' = s {{ cl_locked := true }} {{ cl_in_flight := true }} /\ r = Ok tt) \/
                        (s' = s /\ interrupted r)
  | Release => fun r => s' = s {{ cl_locked := false }} {{ cl_in_flight := false }} /\ r = Ok tt
  | Send method params => fun r => exists u, cl_futures s !! ("call_" ++ u) = None /\
      (s', r) = send_request ("call_" ++ u) method params s
  | Drain id => fun r => s' = s /\ (r = Ok tt \/ interrupted r \/ exists e, r = Err e /\ exn_is e PyOSError = true)
  | Forget id => fun r => s' = s {{ cl_pending := drop_id id (cl_pending s) }} /\ r = Ok tt
  | Wait id _ => waits id s s'
  | Break => fun r => s' = _break s /\ (r = Ok tt \/ interrupted r)
  | Fail why => fun r => s' = _fail (failure_error why) s /\ (r = Ok tt \/ interrupted r)
  | Terminate => fun r => s' = _terminate s /\ (r = Ok tt \/ interrupted r)
  | ReadFrame g => reads g s s'
  | HostCall _ _ => fun r => s' = s
  | Reply frame => fun r =>
      s' = match cl_process s with Some g => write_frame g (WReply frame) s | None => s end /\
      (r = Ok tt \/ interrupted r \/ exists e, r = Err e /\ exn_is e PyOSError = true)
  | Emit g line => fun r =>
      s' = (if alive g s then with_worker g (fun w => w {{ wk_out := (wk_out w ++ [line])%list }} {{ wk_sent := (wk_sent w ++ [line])%list }}) s else s) /\ r = Ok tt
  | Exit g => fun r => s' = with_worker g (fun w => w {{ wk_running := false }}) s /\ r = Ok tt
  end r.

(** ** [JsonRpcProcessClient] *)

Definition raise_rpc {A} (code : Z) (message : string) : prog rpcE A := of_result (raise_call code message).

(** [await shield_cleanup(self._break()); raise] *)
Definition break_and_raise {A} (e : exn) : prog rpcE A :=
  prog_match (perform Break) (fun _ => Raise e) (fun _ => Raise e).

Definition start : prog rpcE unit :=
  b ← perform IsRunning;
  if (b : bool) then Ret tt else g ← perform Spawn; perform (Install g).

Definition _exchange (method : string) (params : list (string * json)) (timeout_seconds : Z) : prog rpcE json :=
  id ← perform (Send method params);
  _ ← prog_try (perform (Drain id)) (fun e =>
        if exn_is e PyCancelledError then _ ← perform (Forget id); break_and_raise e
        else if exn_is e PyOSError || exn_is e PyValueError then
          _ ← perform (Forget id); _ ← perform Break;
          raise_rpc (-32091) "extension worker closed its input stream"
        else Raise e);
  prog_finally
    (prog_try (perform (Wait id timeout_seconds)) (fun e =>
       if exn_is e PyTimeoutError then
         _ ← perform Break; raise_prog RpcTimeoutError ("extension RPC timed out: " ++ method)
       else if exn_is e PyCancelledError then break_and_raise e
       else Raise e))
    (perform (Forget id)).

(** [async with asyncio.timeout_at(deadline)] around the stream lock and the exchange, with the two
    [except] clauses of [call] and [drain]: a cancellation that the deadline caused is a
    [TimeoutError]. *)
Definition under_deadline (deadline : Z) (timed_out method : string) (params : list (string * json)) : prog rpcE json :=
  prog_try
    (prog_try
       (_ ← perform Acquire;
        prog_finally
          (now ← perform Clock;
           let budget := deadline - now in
           if budget <=? 0 then raise_prog PyTimeoutError "" else _exchange method params budget)
          (perform Release))
       (fun e => if exn_is e PyCancelledError then
                   expired ← perform Expired;
                   if (expired : bool) then raise_prog PyTimeoutError "" else Raise e
                 else Raise e))
    (fun e => if exn_is e PyTimeoutError then _ ← perform Break; raise_prog RpcTimeoutError timed_out
              else if exn_is e PyCancelledError then break_and_raise e
              else Raise e).

Definition call (method : string) (params : list (string * json)) (timeout_seconds : Z) : prog rpcE json :=
  if timeout_seconds <=? 0 then raise_prog PyValueError "timeout_seconds must be positive" else
  now ← perform Clock;
  under_deadline (now + timeout_seconds) ("extension RPC timed out: " ++ method) method params.

(** The report of a drain: [drained is True] and [active_calls == 0]. *)
Definition drain_report (result_ : json) : result json :=
  match result_ with
  | JObj report =>
      match assoc "drained" report, assoc "active_calls" report with
      | Some (JBool true), Some (JInt 0) | Some (JBool true), Some (JBool false) => Ok result_
      | _, _ => Err (Exn ExtensionOperationError
          "extension drain report is not clean (drained must be true and active_calls must be zero)"
          (Some "DRAIN_TIMEOUT") false)
      end
  | _ => raise_call (-32094) "drain result must be an object"
  end.

Definition drain (deadline_epoch : json) (deadline_seconds timeout_seconds : Z) : prog rpcE json :=
  now ← perform WallClock;
  let remaining := Z.min timeout_seconds (Z.max 0 (deadline_seconds - now)) in
  if remaining <=? 0 then
    _ ← perform Break; raise_prog RpcTimeoutError "extension drain deadline already expired"
  else
    t ← perform Clock;
    result_ ← under_deadline (t + remaining) "extension drain deadline exceeded with a call in flight"
                "system.drain" [("deadline", deadline_epoch)];
    of_result (drain_report result_).

Definition PROTOCOL_VERSION : string := "1".

Definition _base_params (extension_id extension_version : string) : list (string * json) :=
  [("protocol_version", JStr PROTOCOL_VERSION); ("extension_id", JStr extension_id);
   ("extension_version", JStr extension_version)].

Definition close (graceful_timeout_seconds : Z) : prog rpcE unit :=
  p ← perform HasProcess;
  match p with
  | None => Ret tt
  | Some open =>
      _ ← (if (open : bool) then
             prog_try (_ ← call "system.shutdown" (_base_params "" "") graceful_timeout_seconds; Ret tt)
               (fun e => if exn_is e RpcCallError || exn_is e RpcTimeoutError then Ret tt else Raise e)
           else Ret tt);
      perform Terminate
  end.

(** ** Requests of the worker *)

(** [_json_result] *)
Definition _json_result (v : json) : result json :=
  match v with
  | JNull => Ok (JObj [])
  | JOther ty => fail PyTypeError ("host capability returned unsupported value type: " ++ ty)
  | _ => Ok v
  end.

Definition _safe_host_code (code : option string) : string :=
  match code with
  | Some c => if negb (bool_decide (c = "")) && (str_len c <=? 64) then c else "DATA_INTERNAL_ERROR"
  | None => "DATA_INTERNAL_ERROR"
  end.

Definition host_error (id : string) (code : Z) (message data_code : string) : result RpcResponse :=
  mk_response (Some id) JNull (Some {| er_code := JInt code; er_message := message;
    er_data := [("code", JStr data_code); ("retryable", JBool false)] |}).

Context (host_handler : bool).

Definition host_response (request : RpcRequest) : prog rpcE RpcResponse :=
  if negb host_handler then
    of_result (host_error (rq_id request) (-32601) ("host capability is not available: " ++ rq_method request) "DATA_UNAVAILABLE")
  else
    prog_try
      (v ← perform (HostCall (rq_method request) (rq_params request));
       of_result (r ← _json_result v; mk_response (Some (rq_id request)) r None))
      (fun e => if exn_is e ExtensionOperationError then
                  of_result (host_error (rq_id request) (-32100) (exn_msg e) (_safe_host_code (exn_ref e)))
                else if exn_is e PyCancelledError then Raise e
                else of_result (host_error (rq_id request) (-32100) "host capability failed" "DATA_INTERNAL_ERROR")).

Definition _handle_host_request (request : RpcRequest) : prog rpcE unit :=
  response ← host_response request;
  encoded ← of_result (reply_frame (rq_id request) response);
  prog_try (perform (Reply encoded)) (fun e =>
    if exn_is e PyCancelledError then Raise e
    else if exn_is e PyOSError || exn_is e PyValueError then perform (Fail InputClosed)
    else Raise e).

(** [_read_loop] for the process [g], through [n] lines at most. *)
Fixpoint read_lines (n : nat) (g : nat) : prog rpcE unit :=
  match n with
  | O => Ret tt
  | S n =>
      next ← perform (ReadFrame g);
      match next with
      | Stop => Ret tt
      | Continue => read_lines n g
      | Handle request => _ ← _handle_host_request request; read_lines n g
      end
  end.

Definition _read_loop (n : nat) (g : nat) : prog rpcE unit :=
  prog_try (read_lines n g) (fun e =>
    if exn_is e PyCancelledError then Raise e
    else if exn_is e PyException then perform (Fail StreamFailed)
    else Raise e).

(** ** [ExtensionWorker] *)

(** [set(values)]: the first of equal values, a [TypeError] for a value without hash. *)
Fixpoint py_set (values seen : list json) : result (list json) :=
  match values with
  | [] => Ok seen
  | v :: values => if negb (hashable v) then fail PyTypeError "unhashable type"
                   else py_set values (if existsb (py_eq v) seen then seen else (seen ++ [v])%list)
  end.

(** The keys of [mismatches]: what the worker does not confirm of [expected], and the slots when
    they are not the declared ones. *)
Definition handshake_mismatches (manifest : ExtensionManifest) (schema_hash : string) (result_ : list (string * json))
    : result (list string) :=
  let expected := [("id", em_id manifest); ("version", em_version manifest); ("protocol_version", PROTOCOL_VERSION);
                   ("schema_hash", schema_hash)] in
  let wrong := List.filter (fun k => negb match assoc k result_, assoc k expected with
                                          | Some (JStr v), Some w => bool_decide (v = w)
                                          | _, _ => false
                                          end) (keys expected) in
  let declared := keys (slots manifest) in
  actual ← match assoc "slots" result_ with Some (JList l) => py_set l [] | _ => Ok [] end;
  if forallb (fun x => match x with JStr k => mem_b k declared | _ => false end) actual
     && forallb (fun k => existsb (py_eq (JStr k)) actual) declared
  then Ok wrong else _ ← sorted actual; Ok (wrong ++ ["slots"])%list.

Definition handshake_params (manifest : ExtensionManifest) (schema_hash : string) (config : list (string * json))
    (capability_handles : list json) : list (string * json) :=
  (_base_params (em_id manifest) (em_version manifest) ++
   [("runtime", JObj [
      ("protocol_version", JStr PROTOCOL_VERSION); ("extension_id", JStr (em_id manifest));
      ("extension_version", JStr (em_version manifest)); ("data_namespace", JStr (data_namespace (em_id manifest)));
      ("manifest_schema_hash", JStr schema_hash); ("non_secret_config", JObj config);
      ("capability_handles", JList capability_handles)])])%list.

(** [ExtensionWorker.start]; [schema_hash] is [compute_schema_hash(self.manifest)].  It returns
    when [_handshaken] has been set. *)
Definition worker_start (manifest : ExtensionManifest) (schema_hash : string) (config : list (string * json))
    (capability_handles : list json) (timeout_seconds : Z) : prog rpcE json :=
  _ ← start;
  result_ ← call "system.handshake" (handshake_params manifest schema_hash config capability_handles) timeout_seconds;
  match result_ with
  | JObj fields =>
      mismatches ← of_result (handshake_mismatches manifest schema_hash fields);
      if bool_decide (mismatches = []) then Ret result_
      else _ ← close 2; raise_rpc (-32095) "worker handshake does not match manifest"
  | _ => raise_rpc (-32094) "handshake result must be an object"
  end.

(** [{**base, **params}] *)
Definition merged (base params : list (string * json)) : list (string * json) :=
  fold_left (fun d kv => assoc_set kv.1 kv.2 d) params base.

Definition _call (manifest : ExtensionManifest) (handshaken : bool) (method : string) (params : list (string * json))
    (timeout : Z) : prog rpcE json :=
  if negb handshaken then raise_rpc (-32001) "extension worker has not completed handshake"
  else call method (merged (_base_params (em_id manifest) (em_version manifest)) params) timeout.

Definition object_or (message : string) (r : json) : result json :=
  match r with JObj _ => Ok r | _ => raise_call (-32094) message end.

Definition health (manifest : ExtensionManifest) (handshaken : bool) (timeout : Z) : prog rpcE json :=
  r ← _call manifest handshaken "system.health" [] timeout; of_result (object_or "health result must be an object" r).

Definition invoke_tool (manifest : ExtensionManifest) (handshaken : bool) (tool_id : string)
    (arguments context : list (string * json)) (timeout : Z) : prog rpcE json :=
  if negb (mem_b tool_id (mt_id <$> em_tools manifest)) then
    raise_rpc (-32601) ("tool not declared by manifest: " ++ tool_id)
  else
    r ← _call manifest handshaken "tool.invoke"
          [("tool_id", JStr tool_id); ("arguments", JObj arguments); ("context", JObj context)] timeout;
    of_result (object_or "tool result must be an object" r).

(** [worker_drain] is [ExtensionWorker.drain], which does not go through [JsonRpcProcessClient.drain]. *)
Definition worker_drain (manifest : ExtensionManifest) (handshaken : bool) (deadline_epoch : json) (timeout : Z) : prog rpcE json :=
  _call manifest handshaken "system.drain" [("deadline", deadline_epoch)] timeout.

(** The programs that run against one client: its callers, its readers, and the worker processes. *)
Definition ignore {A} (p : prog rpcE A) : prog rpcE unit := _ ← p; Ret tt.

Inductive rpc_client : prog rpcE unit -> Prop :=
| RcStart : rpc_client start
| RcHandshake m h c hs t : rpc_client (ignore (worker_start m h c hs t))
| RcCall method params t : rpc_client (ignore (call method params t))
| RcFacade m b method params t : rpc_client (ignore (_call m b method params t))
| RcInvoke m b tool args ctx t : rpc_client (ignore (invoke_tool m b tool args ctx t))
| RcDrain e d t : rpc_client (ignore (drain e d t))
| RcClose t : rpc_client (close t)
| RcReader n g : rpc_client (_read_loop n g)
| RcWorkerLine g line : rpc_client (perform (Emit g line))
| RcWorkerExit g : rpc_client (perform (Exit g)).
End limits.

(** ** The environment of a worker *)

Definition _SAFE_ENVIRONMENT_KEYS : list string :=
  ["PATH"; "PATHEXT"; "SYSTEMROOT"; "SYSTEMDRIVE"; "WINDIR"; "COMSPEC"; "TEMP"; "TMP"; "TMPDIR"; "HOME"; "USERPROFILE";
   "LANG"; "LC_ALL"; "PYTHONIOENCODING"; "PYTHONUTF8"; "NUMBER_OF_PROCESSORS"; "PROCESSOR_ARCHITECTURE"; "OS"].

Definition worker_environment (os_environ spec_environment : list (string * string)) : list (string * string) :=
  fold_left (fun d kv => assoc_set kv.1 kv.2 d) spec_environment
    (List.filter (fun kv => mem_b kv.1 _SAFE_ENVIRONMENT_KEYS) os_environ).
