(* ===== verification/RpcSafety.v ===== *)
(** * RpcSafety: answers reach the calls they answer, and calls are never repeated

    Two theorems about [RpcClient].  Over all interleavings of calls, readers and workers, a call
    gets a result only from a line of a worker that names its request, and its request was written
    once.  Over all runs of one call, at most one request is written, and a call that ends without
    the answer of the worker leaves the stream broken. *)

From stdpp Require Import gmap.
From S2P Require Import Prelude Text Pool Monitor Rely Json JsonParse Manifest FormDrafts RpcFrames RpcClient.
Local Open Scope string_scope.
Local Open Scope Z_scope.

Section safety.
Context (max_frame_bytes max_outbound_frame_bytes : Z) (host_handler : bool).

(** ** What the client has written and read *)

Definition request_id (x : written_frame) : list string := match x with WRequest id _ => [id] | WReply _ => [] end.
Definition request_ids (s : client) : list string := concat ((fun w => concat (request_id <$> wk_in w)) <$> cl_workers s).

(** The request of [id] was written to a worker. *)
Definition asked (s : client) (id method : string) (params : list (string * json)) : Prop := exists g w frame,
  cl_workers s !! g = Some w /\ WRequest id frame ∈ wk_in w /\
  encode_frame (Request (mk_request id method params)) = Ok frame.

(** A worker wrote a response to [id]. *)
Definition answered (s : client) (id : string) (error : option RpcError) (result_ : json) : Prop := exists g w line m,
  cl_workers s !! g = Some w /\ line ∈ wk_sent w /\ decode_frame line max_frame_bytes = Ok (Response m) /\
  rs_id m = Some id /\ rs_error m = error /\ (error = None -> rs_result m = result_).

(** The errors with which the client breaks a stream. *)
Definition own_error (e : RpcError) : Prop := er_code e ∈ JInt <$> [-32090; -32091; -32092; -32093; -32100; -32700].

Definition value_ok (s : client) (id : string) (v : fvalue) : Prop :=
  match v with
  | Result r => answered s id None r
  | Failed e => answered s id (Some e) JNull \/ own_error e
  | _ => True
  end.

Record rpc_inv (s : client) : Prop := {
  ri_once : NoDup (request_ids s);
  ri_known : forall id, id ∈ request_ids s -> is_Some (cl_futures s !! id);
  ri_futures : forall id f, cl_futures s !! id = Some f ->
    asked s id (fu_method f) (fu_params f) /\ value_ok s id (fu_value f);
  ri_broken : cl_broken s = true -> cl_pending s = [];
  ri_failure : forall e, cl_failure s = Some e -> own_error e;
  ri_sent : forall g w, cl_workers s !! g = Some w -> wk_out w ⊆ wk_sent w
}.

(** ** Changes of one part *)

(** The rest of the client. *)
Definition same_rest (s s' : client) : Prop :=
  cl_broken s' = cl_broken s /\ cl_failure s' = cl_failure s /\ cl_pending s' = cl_pending s.

Lemma asked_mono s s' id m p :
  (forall g w, cl_workers s !! g = Some w -> exists w', cl_workers s' !! g = Some w' /\ wk_in w ⊆ wk_in w') ->
  asked s id m p -> asked s' id m p.
Proof.
  intros H (g & w & frame & Hg & Hin & He). destruct (H g w Hg) as (w' & Hg' & Hs). exists g, w', frame. auto.
Qed.

Lemma answered_mono s s' id e r :
  (forall g w, cl_workers s !! g = Some w -> exists w', cl_workers s' !! g = Some w' /\ wk_sent w ⊆ wk_sent w') ->
  answered s id e r -> answered s' id e r.
Proof.
  intros H (g & w & line & m & Hg & Hin & He). destruct (H g w Hg) as (w' & Hg' & Hs). exists g, w', line, m. auto.
Qed.

Lemma value_ok_mono s s' id v :
  (forall g w, cl_workers s !! g = Some w -> exists w', cl_workers s' !! g = Some w' /\ wk_sent w ⊆ wk_sent w') ->
  value_ok s id v -> value_ok s' id v.
Proof.
  intros H. destruct v as [|r|e|]; simpl; [done|by apply answered_mono| |done].
  intros [Ha|Ho]; [left; by eapply answered_mono|by right].
Qed.

(** A change of one worker that adds no request. *)
Definition worker_change (f : worker -> worker) : Prop := forall w,
  concat (request_id <$> wk_in (f w)) = concat (request_id <$> wk_in w) /\ wk_in w ⊆ wk_in (f w) /\
  wk_sent w ⊆ wk_sent (f w) /\ (wk_out w ⊆ wk_sent w -> wk_out (f w) ⊆ wk_sent (f w)).

Lemma with_worker_grows f g s : worker_change f -> forall g' w, cl_workers s !! g' = Some w ->
  exists w', cl_workers (with_worker g f s) !! g' = Some w' /\ wk_in w ⊆ wk_in w' /\ wk_sent w ⊆ wk_sent w'.
Proof.
  intros Hf g' w Hw. unfold with_worker. cbn. destruct (decide (g' = g)) as [->|Hne].
  - rewrite list_lookup_alter_eq, Hw. exists (f w). destruct (Hf w) as (_ & H1 & H2 & _). split_and!; done.
  - rewrite list_lookup_alter_ne by done. exists w. by rewrite Hw.
Qed.

Lemma with_worker_ids f g s : worker_change f -> request_ids (with_worker g f s) = request_ids s.
Proof.
  intros Hf. unfold request_ids, with_worker. cbn. revert g. induction (cl_workers s) as [|w ws IH]; intros [|g]; try done.
  - cbn. destruct (Hf w) as [-> _]. done.
  - cbn. f_equal. apply IH.
Qed.

Lemma with_worker_inv f g s : worker_change f -> rpc_inv s -> rpc_inv (with_worker g f s).
Proof.
  intros Hf [H1 H2 H3 H4 H5 H6]. pose proof (with_worker_grows f g s Hf) as Hg. split; try done.
  - by rewrite with_worker_ids.
  - intros id. rewrite with_worker_ids by done. apply H2.
  - intros id fu Hid. destruct (H3 id fu Hid) as [Ha Hv]. split.
    + eapply asked_mono; [|exact Ha]. intros g' w Hw. destruct (Hg g' w Hw) as (w' & ? & ? & ?). eauto.
    + eapply value_ok_mono; [|exact Hv]. intros g' w Hw. destruct (Hg g' w Hw) as (w' & ? & ? & ?). eauto.
  - intros g' w. unfold with_worker. cbn. destruct (decide (g' = g)) as [->|Hne].
    + rewrite list_lookup_alter_eq. intros (w0 & Hw0 & ->)%fmap_Some. destruct (Hf w0) as (_ & _ & _ & H). apply H. by eapply H6.
    + rewrite list_lookup_alter_ne by done. apply H6.
Qed.

Lemma stop_change : worker_change (fun w => w {{ wk_running := false }}).
Proof. intros w. done. Qed.
Lemma reply_change frame : worker_change (fun w => w {{ wk_in := (wk_in w ++ [WReply frame])%list }}).
Proof. intros w. split_and!; try done; cbn; [|set_solver]. rewrite fmap_app, concat_app. cbn. by rewrite app_nil_r. Qed.
Lemma read_change : worker_change (fun w => w {{ wk_out := tail (wk_out w) }}).
Proof. intros w. split_and!; try done; cbn. destruct (wk_out w); set_solver. Qed.
Lemma emit_change line : worker_change (fun w => w {{ wk_out := (wk_out w ++ [line])%list }} {{ wk_sent := (wk_sent w ++ [line])%list }}).
Proof. intros w. split_and!; try done; cbn; set_solver. Qed.

(** A change of the futures, the pending ids and the flags. *)
Lemma futures_inv s s' : rpc_inv s -> cl_workers s' = cl_workers s ->
  (forall id, cl_futures s' !! id = None -> cl_futures s !! id = None) ->
  (forall id f', cl_futures s' !! id = Some f' -> exists f, cl_futures s !! id = Some f /\
     fu_method f' = fu_method f /\ fu_params f' = fu_params f /\ (fu_value f' = fu_value f \/ value_ok s id (fu_value f'))) ->
  (cl_broken s' = true -> cl_pending s' = []) -> (forall e, cl_failure s' = Some e -> own_error e) -> rpc_inv s'.
Proof.
  intros [H1 H2 H3 H4 H5 H6] Hw Hd Hf Hb He.
  assert (forall g w, cl_workers s !! g = Some w -> exists w', cl_workers s' !! g = Some w' /\ wk_in w ⊆ wk_in w') as Hi.
  { intros g w Hg. exists w. by rewrite Hw. }
  assert (forall g w, cl_workers s !! g = Some w -> exists w', cl_workers s' !! g = Some w' /\ wk_sent w ⊆ wk_sent w') as Hs.
  { intros g w Hg. exists w. by rewrite Hw. }
  split; try done; unfold request_ids in *; rewrite ?Hw; try done.
  - intros id Hid%H2. apply not_eq_None_Some. intros Hn%Hd. by rewrite Hn in Hid.
  - intros id f' Hid. destruct (Hf id f' Hid) as (f & Hf0 & -> & -> & Hv). destruct (H3 id f Hf0) as [Ha Hv0].
    split; [by eapply asked_mono|]. eapply value_ok_mono; [exact Hs|]. by destruct Hv as [->|Hv].
Qed.

(** ** The operations keep the invariant *)

(** Only the futures of the pending ids change, and only to a failure. *)
Lemma fail_futures error (ids : list string) (fs : gmap string future) id :
  foldr (alter (set_future (Failed error))) fs ids !! id =
  if decide (id ∈ ids) then set_future (Failed error) <$> fs !! id else fs !! id.
Proof.
  induction ids as [|i ids IH]; cbn [foldr]; [done|]. destruct (decide (i = id)) as [->|Hne].
  - rewrite lookup_alter_eq, IH. rewrite (decide_True (P := id ∈ id :: ids)) by set_solver.
    destruct (decide (id ∈ ids)); [|done]. destruct (fs !! id) as [f|]; [|done]. cbn. f_equal.
    unfold set_future. destruct (fu_value f) eqn:E; cbn; by rewrite ?E.
  - rewrite lookup_alter_ne by done. rewrite IH. destruct (decide (id ∈ ids)), (decide (id ∈ i :: ids)); set_solver.
Qed.

Lemma set_future_same v f : fu_method (set_future v f) = fu_method f /\ fu_params (set_future v f) = fu_params f /\
  (fu_value (set_future v f) = fu_value f \/ fu_value (set_future v f) = v).
Proof. unfold set_future. destruct (fu_value f) eqn:E; cbn; auto. Qed.

Lemma fail_pending_inv error s : own_error error -> (forall e, cl_failure s = Some e -> own_error e) ->
  rpc_inv (s {{ cl_broken := false }} {{ cl_failure := None }}) -> rpc_inv (_fail_pending error s).
Proof.
  intros Ho Hf Hi. eapply futures_inv; [exact Hi|done| | |done|exact Hf]; cbn.
  - intros id. rewrite fail_futures. destruct (decide _); [|done]. by intros ?%fmap_None.
  - intros id f'. rewrite fail_futures. destruct (decide _); [|by eauto 6]. intros (f & Hid & ->)%fmap_Some.
    destruct (set_future_same (Failed error) f) as (H1 & H2 & [H3|H3]); exists f; split_and!; auto. right. rewrite H3. by right.
Qed.

Lemma terminate_inv s : rpc_inv s -> rpc_inv (_terminate s).
Proof.
  intros Hi. unfold _terminate. destruct (cl_process s) as [g|]; [|done].
  apply with_worker_inv; [exact stop_change|]. by eapply futures_inv; [exact Hi|done|done|by eauto 6|apply Hi|apply Hi].
Qed.

Lemma forget_flags s : rpc_inv s -> rpc_inv (s {{ cl_broken := false }} {{ cl_failure := None }}).
Proof. intros Hi. by eapply futures_inv; [exact Hi|done|done|by eauto 6|done|done]. Qed.

Lemma fail_inv error s : own_error error -> rpc_inv s -> rpc_inv (_fail error s).
Proof.
  intros Ho Hi. apply terminate_inv, fail_pending_inv; [done|by intros e [= <-]|]. by apply forget_flags in Hi.
Qed.

Lemma break_inv s : rpc_inv s -> rpc_inv (_break s).
Proof.
  intros Hi. apply terminate_inv, fail_pending_inv; [|apply Hi|by apply forget_flags in Hi].
  destruct (cl_failure s) as [e|] eqn:E; [by eapply ri_failure|]. unfold own_error. cbn. set_solver.
Qed.

Lemma write_request_ids g id frame s : is_Some (cl_workers s !! g) ->
  request_ids (write_frame g (WRequest id frame) s) ≡ₚ id :: request_ids s.
Proof.
  unfold request_ids, write_frame, with_worker. cbn. revert g. induction (cl_workers s) as [|w ws IH]; intros g [w' Hg]; [done|].
  destruct g as [|g]; cbn in *.
  - rewrite fmap_app, concat_app. cbn. rewrite <- app_assoc. cbn. by rewrite Permutation_middle.
  - rewrite IH by (by eexists). by rewrite Permutation_middle.
Qed.

Lemma request_change_grows g id frame s g' w : cl_workers s !! g' = Some w ->
  exists w', cl_workers (write_frame g (WRequest id frame) s) !! g' = Some w' /\ wk_in w ⊆ wk_in w' /\ wk_sent w ⊆ wk_sent w' /\
    wk_out w' = wk_out w.
Proof.
  intros Hw. unfold write_frame, with_worker. cbn. destruct (decide (g' = g)) as [->|Hne].
  - rewrite list_lookup_alter_eq, Hw. eexists. split; [done|]. cbn. set_solver.
  - rewrite list_lookup_alter_ne by done. exists w. by rewrite Hw.
Qed.

Lemma send_inv id method params s : rpc_inv s -> cl_futures s !! id = None ->
  rpc_inv (send_request max_outbound_frame_bytes id method params s).1.
Proof.
  intros Hi Hn. pose proof Hi as [H1 H2 H3 H4 H5 H6]. unfold send_request.
  destruct (cl_process s) as [g|] eqn:Eg; [|done]. destruct (negb (alive g s) || cl_broken s) eqn:Ec; [done|].
  destruct (encode_frame _) as [frame|e] eqn:Ef; [|done]. destruct (_ <? _); [done|]. bool_props. cbn [fst].
  set (s1 := s {{ cl_futures := _ }} {{ cl_pending := _ }}).
  assert (is_Some (cl_workers s !! g)) as [w Hw].
  { unfold alive in H. destruct (cl_workers s !! g); [by eexists|done]. }
  pose proof (request_change_grows g id frame s1) as Hg.
  split.
  - rewrite write_request_ids by (by exists w). apply NoDup_cons. split; [|exact H1]. intros Hid%H2. rewrite Hn in Hid. by destruct Hid.
  - intros i. rewrite write_request_ids by (by exists w). rewrite elem_of_cons. cbn. intros [->|Hid].
    + by rewrite lookup_insert_eq.
    + destruct (decide (i = id)) as [->|Hne]; [by rewrite lookup_insert_eq|]. rewrite lookup_insert_ne by done. by apply H2.
  - intros i f. cbn. destruct (decide (i = id)) as [->|Hne].
    + rewrite lookup_insert_eq. intros [= <-]. split; [|done]. exists g. cbn. rewrite list_lookup_alter_eq, Hw. cbn. do 2 eexists.
      split; [done|]. cbn. split; [|exact Ef]. set_solver.
    + rewrite lookup_insert_ne by done. intros Hid. destruct (H3 i f Hid) as [Ha Hv]. split.
      * eapply asked_mono; [|exact Ha]. intros g' w' Hw'. destruct (Hg g' w' Hw') as (w'' & ? & ? & ? & ?). eauto.
      * eapply value_ok_mono; [|exact Hv]. intros g' w' Hw'. destruct (Hg g' w' Hw') as (w'' & ? & ? & ? & ?). eauto.
  - cbn. congruence.
  - exact H5.
  - intros g' w'. cbn. destruct (decide (g' = g)) as [->|Hne].
    + rewrite list_lookup_alter_eq, Hw. intros [= <-]. cbn. by eapply H6.
    + rewrite list_lookup_alter_ne by done. apply H6.
Qed.

(** Futures that change by [set_future], and fewer pending ids. *)
Lemma alter_inv s id v pending : rpc_inv s -> value_ok s id v -> (cl_broken s = true -> pending = []) ->
  rpc_inv (s {{ cl_pending := pending }} {{ cl_futures := alter (set_future v) id (cl_futures s) }}).
Proof.
  intros Hi Hv Hb. eapply futures_inv; [exact Hi|done| | |exact Hb|apply Hi]; cbn.
  - intros i. destruct (decide (i = id)) as [->|Hne]; [|by rewrite lookup_alter_ne].
    rewrite lookup_alter_eq. by intros ?%fmap_None.
  - intros i f'. destruct (decide (i = id)) as [->|Hne]; [|rewrite lookup_alter_ne by done; by eauto 6].
    rewrite lookup_alter_eq. intros (f & Hid & ->)%fmap_Some.
    destruct (set_future_same v f) as (H1 & H2 & [H3|H3]); exists f; split_and!; auto. right. by rewrite H3.
Qed.

Lemma pending_inv s pending : rpc_inv s -> (cl_broken s = true -> pending = []) -> rpc_inv (s {{ cl_pending := pending }}).
Proof. intros Hi Hb. by eapply futures_inv; [exact Hi|done|done|by eauto 6|exact Hb|apply Hi]. Qed.

Lemma drop_nil id l : l = [] -> drop_id id l = [].
Proof. by intros ->. Qed.

Lemma route_inv g w line s : rpc_inv s -> cl_workers s !! g = Some w -> line ∈ wk_sent w ->
  rpc_inv (route_frame max_frame_bytes line s).1.
Proof.
  intros Hi Hw Hl. unfold route_frame.
  assert (forall c m, JInt c ∈ JInt <$> [-32090; -32091; -32092; -32093; -32100; -32700] -> rpc_inv (_fail (rpc_error c m) s)) as Hf.
  { intros c m Hc. by apply fail_inv. }
  destruct (_ <? _); [apply Hf; cbn; set_solver|]. destruct (decode_frame line max_frame_bytes) as [[r|m]|e] eqn:Ed.
  - exact Hi.
  - destruct (rs_id m) as [id|] eqn:Eid; [|apply Hf; cbn; set_solver].
    destruct (negb (mem_b id (cl_pending s))); [apply Hf; cbn; set_solver|]. cbn [fst].
    apply (alter_inv s id); [exact Hi| |by intros Hb; apply drop_nil, Hi].
    destruct (rs_error m) as [e|] eqn:Ee; cbn; [left|]; exists g, w, line, m; split_and!; done.
  - destruct (exn_is e RpcProtocolError); [apply Hf; cbn; set_solver|exact Hi].
Qed.

Lemma read_inv g s s' r : rpc_inv s -> reads max_frame_bytes g s s' r -> rpc_inv s'.
Proof.
  unfold reads. intros Hi. destruct (cl_workers s !! g) as [w|] eqn:Hw; [|by intros [-> _]].
  intros [(line & rest & Ho & E)|[E|[(Ho & Hr & code & E)|[-> _]]]]; try (injection E as -> ->).
  - pose proof (ri_sent s Hi g w Hw) as Hs. rewrite Ho in Hs. change s' with (s', r).1. rewrite E.
    eapply (route_inv g); [by apply with_worker_inv; [apply read_change|]|unfold with_worker; cbn; by rewrite list_lookup_alter_eq, Hw|].
    cbn. set_solver.
  - apply fail_inv; [|done]. unfold own_error. cbn. set_solver.
  - apply fail_inv; [|done]. unfold own_error. cbn. set_solver.
  - exact Hi.
Qed.

Lemma spawn_inv s : rpc_inv s -> rpc_inv (s {{ cl_workers := (cl_workers s ++ [new_worker])%list }}).
Proof.
  intros [H1 H2 H3 H4 H5 H6].
  assert (request_ids (s {{ cl_workers := (cl_workers s ++ [new_worker])%list }}) = request_ids s) as Hr.
  { unfold request_ids. cbn. rewrite fmap_app, concat_app. cbn. by rewrite app_nil_r. }
  assert (forall g w, cl_workers s !! g = Some w -> (cl_workers s ++ [new_worker])%list !! g = Some w) as Hl.
  { intros g w Hg. by apply lookup_app_l_Some. }
  split; rewrite ?Hr; try done.
  - intros id f Hid. destruct (H3 id f Hid) as [Ha Hv]. split; [eapply asked_mono; [|exact Ha]|eapply value_ok_mono; [|exact Hv]];
      intros g w Hg; exists w; split; [by apply Hl|done|by apply Hl|done].
  - intros g w. cbn. rewrite lookup_app_Some. intros [Hg|[_ Hg]]; [by eapply H6|].
    destruct (g - length (cl_workers s))%nat; [injection Hg as <-; cbn; set_solver|done].
Qed.

Lemma step_inv X (op : rpcE X) s s' r : rpc_inv s -> rpc_step max_frame_bytes max_outbound_frame_bytes X op s s' r -> rpc_inv s'.
Proof.
  intros Hi. destruct op; cbn [rpc_step].
  - by intros [-> _].
  - by intros [-> _].
  - by intros [-> _].
  - by intros [-> _].
  - by intros [-> _].
  - intros [[-> _]|[-> _]]; [by apply spawn_inv|done].
  - intros [-> _]. by eapply futures_inv; [exact Hi|done|done|by eauto 6|done|done].
  - intros [(_ & -> & _)|[-> _]]; [|done]. by eapply futures_inv; [exact Hi|done|done|by eauto 6|apply Hi|apply Hi].
  - intros [-> _]. by eapply futures_inv; [exact Hi|done|done|by eauto 6|apply Hi|apply Hi].
  - intros (u & Hu & E). change s' with (s', r).1. rewrite E. by apply send_inv.
  - by intros [-> _].
  - intros [-> _]. apply pending_inv; [done|]. intros Hb. by apply drop_nil, Hi.
  - assert (rpc_inv (s {{ cl_futures := alter (set_future Cancelled) id (cl_futures s) }})) as Hc.
    { by apply (alter_inv s id Cancelled (cl_pending s)); [..|apply Hi]. }
    unfold waits. destruct (fu_value <$> cl_futures s !! id) as [[]|]; by intros [-> _].
  - intros [-> _]. by apply break_inv.
  - intros [-> _]. apply fail_inv; [|done]. unfold own_error. destruct why; cbn; set_solver.
  - intros [-> _]. by apply terminate_inv.
  - by apply read_inv.
  - by intros ->.
  - intros [-> _]. destruct (cl_process s); [|done]. by apply with_worker_inv; [apply reply_change|].
  - intros [-> _]. destruct (alive g s); [|done]. by apply with_worker_inv; [apply emit_change|].
  - intros [-> _]. by apply with_worker_inv; [apply stop_change|].
Qed.

Notation rpc_pool := (pstep (rpc_step max_frame_bytes max_outbound_frame_bytes)
  (rpc_client max_outbound_frame_bytes host_handler)).

Lemma pool_inv c c' : star rpc_pool c c' -> rpc_inv c.1 -> rpc_inv c'.1.
Proof.
  induction 1 as [|c1 c2 c3 Hs _ IH]; [done|]. intros Hi. apply IH.
  destruct Hs as [s s' ts j X op k r Hj Hs| | |]; [by eapply step_inv|done..].
Qed.

Lemma new_client_inv : rpc_inv new_client.
Proof. split; cbn; try done; try set_solver. constructor. Qed.

(** ** One call *)

Notation step := (rpc_step max_frame_bytes max_outbound_frame_bytes).

(** The answers an operation can get in some state of the client. *)
Definition possible (X : Type) (op : rpcE X) (r : result X) : Prop := exists s s', step X op s s' r.

(** What a call has done: the requests it wrote, the id of its request, what it was told about
    that request, and whether it broke the stream. *)
Record call_mon := { cm_sends : nat; cm_id : option string; cm_told : option (string * result json); cm_broken : bool }.
#[local] Instance call_mon_eta : Eta call_mon := fun m => Build_call_mon (cm_sends m) (cm_id m) (cm_told m) (cm_broken m).

Definition call_next (X : Type) (m : call_mon) (op : rpcE X) : result X -> call_mon :=
  match op in rpcE X return result X -> call_mon with
  | Send _ _ => fun r => m {{ cm_sends := S (cm_sends m) }} {{ cm_id := match r with Ok id => Some id | Err _ => cm_id m end }}
  | Wait id _ => fun r => m {{ cm_told := Some (id, r) }}
  | Break => fun _ => m {{ cm_broken := true }}
  | _ => fun _ => m
  end.

Definition call_may (X : Type) (_ : call_mon) (op : rpcE X) (r : result X) : Prop := possible X op r.

Definition idle : call_mon := {| cm_sends := 0; cm_id := None; cm_told := None; cm_broken := false |}.

Section one_call.
Context (method : string) (params : list (string * json)).

(** A request is written once, and it is the request of the call. *)
Definition call_ok (X : Type) (m : call_mon) (op : rpcE X) : Prop :=
  match op with
  | Send me ps => me = method /\ ps = params /\ cm_sends m = 0%nat
  | _ => True
  end.

(** The result is the worker's answer to the request; a call that failed after its request had been
    written was told so by the reader, or it has broken the stream. *)
Definition call_post (m : call_mon) (r : result json) : Prop :=
  (cm_sends m <= 1)%nat /\
  match r with
  | Ok v => exists id, cm_id m = Some id /\ cm_told m = Some (id, Ok v)
  | Err e => is_Some (cm_id m) -> cm_broken m = true \/
             exists id e', cm_id m = Some id /\ cm_told m = Some (id, Err e) /\ e = call_error e'
  end.

Notation crwp := (rwp call_ok call_next call_may).

(** An operation the monitor does not watch. *)
Definition unwatched {X} (op : rpcE X) : Prop := forall m r, call_next X m op r = m /\ call_ok X m op.

Lemma rwp_unwatched {X A} (op : rpcE X) (f : X -> prog rpcE A) m Q : unwatched op ->
  (forall x, possible X op (Ok x) -> crwp (f x) m Q) -> (forall e, possible X op (Err e) -> Q m (Err e)) ->
  crwp (perform op ≫= f) m Q.
Proof.
  intros Hu Hf He. apply rwp_bind, rwp_perform; [apply (Hu m (fail PyException ""))|].
  intros [x|e] Hp; destruct (Hu m (Ok x) : _ /\ _) as [-> _] || destruct (Hu m (Err e)) as [-> _]; auto.
Qed.

Lemma rwp_always {X A} (op : rpcE X) (f : X -> prog rpcE A) m Q : unwatched op ->
  (forall e, ~ possible X op (Err e)) -> (forall x, crwp (f x) m Q) -> crwp (perform op ≫= f) m Q.
Proof. intros Hu Hn Hf. apply rwp_unwatched; [done|auto|]. by intros e []%Hn. Qed.

Lemma rwp_finally_always {A} (op : rpcE unit) (p : prog rpcE A) m (Q : call_mon -> result A -> Prop) : unwatched op ->
  (forall e, ~ possible _ op (Err e)) -> crwp p m Q -> crwp (prog_finally p (perform op)) m Q.
Proof.
  intros Hu Hn Hp. unfold prog_finally. apply rwp_match. eapply rwp_mono; [exact Hp|].
  intros m' [a|e] HQ; by apply rwp_always.
Qed.

Lemma break_raise {A} e m (Q : call_mon -> result A -> Prop) : Q (m {{ cm_broken := true }}) (Err e) -> crwp (break_and_raise e) m Q.
Proof. intros HQ. apply rwp_match, rwp_perform; [done|]. by intros [] _. Qed.

Lemma broken_post m e : (cm_sends m <= 1)%nat -> cm_broken m = true -> call_post m (Err e).
Proof. intros Hs Hb. split; [done|]. intros _. by left. Qed.

Ltac no_error := let H := fresh in intros ? (? & ? & H); cbn in H; naive_solver.

Lemma exchange_ok budget m : cm_sends m = 0%nat -> cm_id m = None -> crwp (_exchange method params budget) m call_post.
Proof.
  intros Hs Hid. unfold _exchange. apply rwp_bind, rwp_perform; [done|]. intros [id|e] _; cbn [call_next]; [|].
  2: { split; cbn; [lia|]. rewrite Hid. by intros []. }
  set (m1 := m {{ cm_sends := _ }} {{ cm_id := _ }}).
  assert (cm_sends m1 <= 1)%nat as H1 by (cbn; lia). assert (cm_id m1 = Some id) as H2 by done. clearbody m1.
  apply rwp_bind, rwp_try, rwp_perform; [done|]. intros [[]|e] Hp; cbn [call_next].
  - apply rwp_finally_always; [done|no_error|]. apply rwp_try, rwp_perform; [done|]. cbn [call_next].
    intros [v|e] Hw; [split; [done|by exists id]|].
    assert (e = cancelled \/ e = raise_exn PyTimeoutError "" \/ exists e', e = call_error e') as He.
    { destruct Hw as (s & s' & Hv). cbn in Hv. unfold waits, interrupted, fail in Hv.
      destruct (fu_value <$> cl_futures s !! id) as [[]|]; naive_solver. }
    destruct He as [->|[->|[e' ->]]].
    + change (exn_is cancelled PyTimeoutError) with false. change (exn_is cancelled PyCancelledError) with true.
      by apply break_raise, broken_post.
    + change (exn_is (raise_exn PyTimeoutError "") PyTimeoutError) with true.
      apply rwp_bind, rwp_perform; [done|]. intros [] _; by apply broken_post.
    + change (exn_is (call_error e') PyTimeoutError) with false. change (exn_is (call_error e') PyCancelledError) with false.
      split; [done|]. intros _. right. by exists id, e'.
  - destruct Hp as (s & s' & _ & Hp). assert (e = cancelled \/ exn_is e PyOSError = true) as [->|He].
    { unfold interrupted in Hp. naive_solver. }
    + apply rwp_always; [done|no_error|]. intros _. by apply break_raise, broken_post.
    + rewrite He. destruct (exn_is e PyCancelledError).
      { apply rwp_always; [done|no_error|]. intros _. by apply break_raise, broken_post. }
      cbn [orb]. apply rwp_always; [done|no_error|]. intros _.
      apply rwp_bind, rwp_perform; [done|]. intros [] _; by apply broken_post.
Qed.

Lemma locked_exchange_ok deadline m : cm_sends m = 0%nat -> cm_id m = None ->
  crwp (_ ← perform Acquire;
        prog_finally
          (now ← perform Clock;
           let budget := deadline - now in
           if budget <=? 0 then raise_prog PyTimeoutError "" else _exchange method params budget)
          (perform Release)) m call_post.
Proof.
  intros Hs Hid. assert (forall e, call_post m (Err e)) as Hn.
  { intros e. split; [lia|]. rewrite Hid. by intros []. }
  apply rwp_unwatched; [done| |by intros e _; apply Hn]. intros _ _. apply rwp_finally_always; [done|no_error|].
  apply rwp_always; [done|no_error|]. intros now. cbn zeta. destruct (_ <=? _); [apply Hn|by apply exchange_ok].
Qed.

Lemma deadline_ok deadline timed_out m : cm_sends m = 0%nat -> cm_id m = None ->
  crwp (under_deadline deadline timed_out method params) m call_post.
Proof.
  intros Hs Hid. unfold under_deadline. apply rwp_try, rwp_try. eapply rwp_mono; [by apply locked_exchange_ok|].
  intros m' [v|e] Hp; [exact Hp|]. pose proof Hp as [Hs' _].
  assert (forall e', (e' = e \/ exn_is e' PyTimeoutError = true) ->
    crwp (if exn_is e' PyTimeoutError then _ ← perform Break; raise_prog RpcTimeoutError timed_out
          else if exn_is e' PyCancelledError then break_and_raise e' else Raise e') m' call_post) as Hout.
  { intros e' He. destruct (exn_is e' PyTimeoutError).
    - apply rwp_bind, rwp_perform; [done|]. intros [] _; by apply broken_post.
    - destruct He as [->|[=]]. destruct (exn_is e PyCancelledError); [by apply break_raise, broken_post|exact Hp]. }
  destruct (exn_is e PyCancelledError) eqn:Ec.
  - apply rwp_always; [done|no_error|]. intros []; [apply Hout; by right|]. exact (Hout e (or_introl eq_refl)).
  - exact (Hout e (or_introl eq_refl)).
Qed.

Lemma call_discipline timeout m : cm_sends m = 0%nat -> cm_id m = None -> crwp (call method params timeout) m call_post.
Proof.
  intros Hs Hid. unfold call. destruct (_ <=? _).
  - split; cbn; [lia|]. rewrite Hid. by intros [].
  - apply rwp_always; [done|no_error|]. intros now. by apply deadline_ok.
Qed.

End one_call.

Lemma asked_in s id m p : asked s id m p -> id ∈ request_ids s.
Proof.
  intros (g & w & frame & Hg & Hin & _). unfold request_ids. rewrite list_elem_of_In, in_concat.
  exists (concat (request_id <$> wk_in w)). rewrite <- !list_elem_of_In. split.
  - apply list_elem_of_fmap. exists w. split; [done|]. by eapply list_elem_of_lookup_2.
  - rewrite list_elem_of_In, in_concat. exists [id]. rewrite <- !list_elem_of_In. split; [|set_solver].
    apply list_elem_of_fmap. by exists (WRequest id frame).
Qed.

Lemma once_in s id m p : NoDup (request_ids s) -> asked s id m p -> length (filter (fun i => i = id) (request_ids s)) = 1%nat.
Proof.
  intros Hd Hin%asked_in. induction Hd as [|i l Hi Hd IH]; [by apply not_elem_of_nil in Hin|].
  rewrite filter_cons. destruct (decide (i = id)) as [->|Hne].
  - cbn. f_equal. apply length_zero_iff_nil. destruct (filter _ l) as [|x xs] eqn:E; [done|].
    assert (x ∈ filter (fun i => i = id) l) as [-> Hx]%list_elem_of_filter by (rewrite E; set_solver). done.
  - apply IH. set_solver.
Qed.

(** ** The theorems *)

(** A trace of a call against the client. *)
Definition call_trace (method : string) (params : list (string * json)) (timeout : Z) (tr : list (event rpcE))
    (r : result json) : Prop :=
  execs (call method params timeout) tr r /\ Rely.answered call_next call_may idle tr.

(** Calls to an extension worker are never repeated.  In every run of a call, whatever times
    out, breaks or is cancelled, at most one request is written and it is the request of the call;
    a result is what the call was told about its own request; and a call that fails after its
    request was written was told of the failure, or it has broken the stream so that no later
    answer can be mistaken for another call's. *)
Theorem calls_are_never_repeated method params timeout tr r :
  call_trace method params timeout tr r ->
  watched (call_ok method params) call_next idle tr /\ call_post (after call_next idle tr) r.
Proof.
  intros [Hx Ha]. eapply rwp_execs; [|exact Hx|exact Ha]. by apply call_discipline.
Qed.

(** Answers reach the calls they answer.  Under every interleaving of callers, readers,
    shutdowns and worker processes, what a call is told about its request is the result of a
    line that a worker wrote with the id of that request, or the error of such a line, or one of
    the errors with which the client breaks the stream; the request itself was written to exactly
    one worker exactly once; and a broken stream has no registered call left. *)
Theorem rpc_answers_are_correlated s ts :
  star rpc_pool (new_client, []) (s, ts) ->
  (cl_broken s = true -> cl_pending s = []) /\
  forall id f timeout s' r, cl_futures s !! id = Some f -> step json (Wait id timeout) s s' r ->
    asked s id (fu_method f) (fu_params f) /\ length (filter (fun i => i = id) (request_ids s)) = 1%nat /\
    match r with
    | Ok v => answered s id None v
    | Err e => (exists e', e = call_error e' /\ (answered s id (Some e') JNull \/ own_error e')) \/
               e = raise_exn PyTimeoutError "" \/ e = cancelled
    end.
Proof.
  intros Hs. pose proof (pool_inv _ _ Hs new_client_inv) as Hi. cbn in Hi. split; [apply Hi|].
  intros id f t s' r Hf Hv. destruct (ri_futures s Hi id f Hf) as [Ha Hok]. cbn in Hv. unfold waits in Hv. rewrite Hf in Hv. cbn in Hv.
  split_and!; [done|by eapply once_in; [apply Hi|]|].
  destruct (fu_value f); destruct Hv as [_ Hr]; unfold interrupted, fail in Hr; subst; cbn in Hok.
  - destruct Hr as [-> | ->]; auto.
  - done.
  - left. eauto.
  - destruct Hr as [-> | ->]; auto.
Qed.
End safety.

(** ** The handshake *)

(** A worker that completed its handshake has confirmed the manifest it was installed with: its id,
    version and schema hash, the protocol of the host, and only declared slots. *)
Theorem handshaken_workers_match_their_manifest manifest hash config handles timeout tr r :
  execs (worker_start manifest hash config handles timeout) tr (Ok r) -> exists fields, r = JObj fields /\
    assoc "id" fields = Some (JStr (em_id manifest)) /\ assoc "version" fields = Some (JStr (em_version manifest)) /\
    assoc "protocol_version" fields = Some (JStr PROTOCOL_VERSION) /\ assoc "schema_hash" fields = Some (JStr hash) /\
    (keys (slots manifest) <> [] -> exists l, assoc "slots" fields = Some (JList l)).
Proof.
  unfold worker_start. intros (t1 & t2 & r1 & _ & _ & H)%execs_bind. destruct r1; [|by destruct H as [_ [=]]].
  apply execs_bind in H as (t3 & t4 & r2 & _ & _ & H). destruct r2 as [v|]; [|by destruct H as [_ [=]]].
  destruct v as [| | | | | |fields|]; try (by destruct H as [_ [=]]).
  apply execs_bind in H as (t5 & t6 & r3 & _ & Hm & H). destruct r3 as [mm|]; [|by destruct H as [_ [=]]].
  destruct (bool_decide (mm = [])) eqn:Em.
  2: { apply execs_bind in H as (t7 & t8 & r4 & _ & _ & H). by destruct r4; destruct H as [_ [=]]. }
  destruct H as [_ [= ->]]. exists fields. split; [done|]. bool_props. subst mm.
  destruct (handshake_mismatches manifest hash fields) as [mm|] eqn:E; [|by destruct Hm as [_ [=]]]. destruct Hm as [_ [= <-]].
  unfold handshake_mismatches in E. apply result_bind_Ok in E as (actual & Ha & E).
  set (wrong := List.filter _ _) in E. assert (wrong = [] /\ (keys (slots manifest) <> [] -> actual <> [])) as [Hw Hs].
  { destruct (_ && _) eqn:Es; [|by apply result_bind_Ok in E as (? & _ & [= [_ [=]]%app_nil])].
    injection E as E. split; [done|]. bool_props. intros Hk ->. rewrite forallb_forall in H0.
    destruct (keys (slots manifest)) as [|k ks]; [done|]. specialize (H0 k (or_introl eq_refl)). done. }
  assert (forall k w, k ∈ ["id"; "version"; "protocol_version"; "schema_hash"] ->
    assoc k [("id", em_id manifest); ("version", em_version manifest); ("protocol_version", PROTOCOL_VERSION); ("schema_hash", hash)] = Some w ->
    assoc k fields = Some (JStr w)) as Hk.
  { intros k w Hin Hex. assert (~ In k wrong) as Hn by (intros Hx; rewrite Hw in Hx; destruct Hx). unfold wrong in Hn. rewrite filter_In in Hn.
    apply list_elem_of_In in Hin. destruct (assoc k fields) as [v|] eqn:Ev; [|exfalso; apply Hn; split; [exact Hin|reflexivity]].
    destruct v; try (exfalso; apply Hn; split; [exact Hin|reflexivity]). rewrite Hex in Hn.
    destruct (bool_decide (s = w)) eqn:Eb; [by bool_props; subst|]. exfalso. by apply Hn. }
  do 4 (split; [apply Hk; [repeat constructor|reflexivity]|]). intros Hne%Hs.
  destruct (assoc "slots" fields) as [v|]; [|by injection Ha as <-].
  destruct v; try (by injection Ha as <-). by eexists.
Qed.

(** A worker sees only the variables of the list and those its specification declares. *)
Lemma assoc_set_keys_in {A} k (v : A) l : forall k', k' ∈ keys (assoc_set k v l) -> k' = k \/ k' ∈ keys l.
Proof.
  induction l as [|[k1 v1] l IH]; intros k'; simpl; [set_solver|]. case_bool_decide; simpl; [set_solver|].
  rewrite !elem_of_cons. naive_solver.
Qed.

Theorem worker_environment_is_minimal os spec k :
  k ∈ keys (worker_environment os spec) -> k ∈ _SAFE_ENVIRONMENT_KEYS \/ k ∈ keys spec.
Proof.
  unfold worker_environment. set (base := List.filter _ os).
  assert (forall k, k ∈ keys base -> k ∈ _SAFE_ENVIRONMENT_KEYS) as Hb.
  { intros k' ([k1 v] & -> & Hin)%list_elem_of_fmap. unfold base in Hin. rewrite list_elem_of_In, filter_In in Hin.
    destruct Hin as [_ H]. unfold mem_b in H. by bool_props. }
  clearbody base. revert base Hb. induction spec as [|[k1 v1] spec IH]; intros base Hb; simpl; [intros H; left; by apply Hb|].
  assert (forall base, k ∈ keys (fold_left (fun d kv => assoc_set kv.1 kv.2 d) spec base) -> k ∈ keys base \/ k ∈ keys spec) as Hf.
  { clear. induction spec as [|[k2 v2] spec IH]; intros base; simpl; [by left|]. intros [H|H]%IH.
    - apply assoc_set_keys_in in H. set_solver.
    - set_solver. }
  intros [H|H]%Hf; [|set_solver]. apply assoc_set_keys_in in H as [->|H]; [set_solver|left; by apply Hb].
Qed.

(** ** Runs *)

Module RpcScenario.
Definition limit : Z := 4 * 1024 * 1024.
Definition longest (fs : gmap string future) : nat := foldr Nat.max 0%nat ((fun kv => String.length kv.1) <$> map_to_list fs).

(** An identifier longer than every known one. *)
Definition new_uuid (fs : gmap string future) : string := of_chars (replicate (S (longest fs)) (Ascii.ascii_of_N 48)).

Lemma new_uuid_fresh fs : fs !! ("call_" ++ new_uuid fs) = None.
Proof.
  destruct (fs !! _) as [f|] eqn:E; [exfalso|done]. apply elem_of_map_to_list in E.
  assert (forall l n, n ∈ l -> (n <= foldr Nat.max 0 l)%nat) as Hm.
  { induction l as [|x l IH]; intros n; [by intros ?%not_elem_of_nil|]. rewrite elem_of_cons. cbn.
    intros [->|H%IH]; lia. }
  assert (String.length ("call_" ++ new_uuid fs) <= longest fs)%nat as Hl.
  { unfold longest. apply Hm, list_elem_of_fmap. by exists ("call_" ++ new_uuid fs, f). }
  rewrite <- length_chars, chars_app, length_app in Hl. unfold new_uuid in Hl. rewrite chars_of_chars, length_replicate in Hl.
  cbn in Hl. lia.
Qed.

(** One way the environment can answer: nothing times out but what nobody answers. *)
Definition env (X : Type) (op : rpcE X) : M client X :=
  match op in rpcE X return M client X with
  | Clock | WallClock => fun s => (s, Ok 0)
  | Expired => fun s => (s, Ok false)
  | IsRunning => fun s => (s, Ok (running s))
  | HasProcess => fun s => (s, Ok (match cl_process s with Some g => Some (alive g s && negb (cl_broken s)) | None => None end))
  | Spawn => fun s => (s {{ cl_workers := (cl_workers s ++ [new_worker])%list }}, Ok (length (cl_workers s)))
  | Install g => fun s => (install g s, Ok tt)
  | Acquire => fun s => if cl_locked s then (s, Err cancelled) else (s {{ cl_locked := true }} {{ cl_in_flight := true }}, Ok tt)
  | Release => fun s => (s {{ cl_locked := false }} {{ cl_in_flight := false }}, Ok tt)
  | Send method params => fun s => send_request WORKER_INPUT_FRAME_BYTES ("call_" ++ new_uuid (cl_futures s)) method params s
  | Drain id => fun s => (s, Ok tt)
  | Forget id => fun s => (s {{ cl_pending := drop_id id (cl_pending s) }}, Ok tt)
  | Wait id _ => fun s =>
      match fu_value <$> cl_futures s !! id with
      | Some (Result v) => (s, Ok v)
      | Some (Failed e) => (s, Err (call_error e))
      | _ => (s {{ cl_futures := alter (set_future Cancelled) id (cl_futures s) }}, fail PyTimeoutError "")
      end
  | Break => fun s => (_break s, Ok tt)
  | Fail why => fun s => (_fail (failure_error why) s, Ok tt)
  | Terminate => fun s => (_terminate s, Ok tt)
  | ReadFrame g => fun s =>
      match cl_workers s !! g with
      | None => (s, Err cancelled)
      | Some w =>
          match wk_out w with
          | line :: _ => route_frame limit line (with_worker g (fun w => w {{ wk_out := tail (wk_out w) }}) s)
          | [] => if wk_running w then (s, Err cancelled)
                  else (_fail (rpc_error (-32091) ("extension worker exited unexpectedly (" ++ "1" ++ ")")) s, Ok Stop)
          end
      end
  | HostCall _ _ => fun s => (s, Ok JNull)
  | Reply frame => fun s => (match cl_process s with Some g => write_frame g (WReply frame) s | None => s end, Ok tt)
  | Emit g line => fun s => ((if alive g s then with_worker g (fun w => w {{ wk_out := (wk_out w ++ [line])%list }}
      {{ wk_sent := (wk_sent w ++ [line])%list }}) s else s), Ok tt)
  | Exit g => fun s => (with_worker g (fun w => w {{ wk_running := false }}) s, Ok tt)
  end.

Lemma env_step X (op : rpcE X) s : rpc_step limit WORKER_INPUT_FRAME_BYTES X op s (env X op s).1 (env X op s).2.
Proof.
  destruct op; cbn; unfold interrupted; eauto.
  - destruct (cl_locked s); cbn; eauto.
  - eexists. split; [apply new_uuid_fresh|]. symmetry; apply surjective_pairing.
  - unfold waits, interrupted. destruct (fu_value <$> cl_futures s !! id) as [[]|]; cbn; eauto.
  - unfold reads, interrupted. destruct (cl_workers s !! g) as [w|]; cbn; [|done]. destruct (wk_out w) as [|line rest] eqn:E.
    + destruct (wk_running w) eqn:Er; cbn; [eauto|]. right. right. left. eauto.
    + left. exists line, rest. split; [done|]. symmetry; apply surjective_pairing.
Qed.

(** The answer of a worker to a request. *)
Definition answer (id : string) : string :=
  match encode_frame (Response {| rs_id := Some id; rs_result := JObj [("ok", JBool true)]; rs_error := None;
    rs_jsonrpc := JSONRPC_VERSION |}) with Ok f => f | Err _ => "" end.

Notation pool := (pstep (rpc_step limit WORKER_INPUT_FRAME_BYTES) (rpc_client WORKER_INPUT_FRAME_BYTES true)).

Lemma arrive_all s ts ps : Forall (rpc_client WORKER_INPUT_FRAME_BYTES true) ps -> star pool (s, ts) (s, (ts ++ ps)%list).
Proof.
  intros H. revert ts. induction H as [|p ps Hp _ IH]; intros ts; [rewrite app_nil_r; constructor|].
  eapply star_step; [by apply pstep_arrive|]. specialize (IH (ts ++ [p])%list). by rewrite <- app_assoc in IH.
Qed.

Lemma scheduled ps js : Forall (rpc_client WORKER_INPUT_FRAME_BYTES true) ps ->
  star pool (new_client, []) (run_schedule env js (new_client, ps)).
Proof.
  intros H. eapply star_trans; [exact (arrive_all new_client [] ps H)|]. apply run_schedule_star. apply env_step.
Qed.

(** A worker is started, called, and its answer is read while the call waits. *)
Definition threads : list (prog rpcE unit) :=
  [start; ignore (call "tool.invoke" [("tool_id", JStr "mail.search")] 5); perform (Emit 0 (answer "call_0"));
   _read_loop WORKER_INPUT_FRAME_BYTES true 1 0].
Definition answered_run : pconfig := run_schedule env [0; 0; 0; 1; 1; 1; 1; 1; 2; 3]%nat (new_client, threads).

Lemma threads_are_clients : Forall (rpc_client WORKER_INPUT_FRAME_BYTES true) threads.
Proof. repeat constructor. Qed.

Definition call_future : future := {| fu_method := "tool.invoke"; fu_params := [("tool_id", JStr "mail.search")];
  fu_value := Result (JObj [("ok", JBool true)]) |}.

Lemma answered_reachable : star pool (new_client, []) (answered_run.1, answered_run.2).
Proof. rewrite <- surjective_pairing. apply scheduled, threads_are_clients. Qed.

Lemma wait_step id timeout s f v : cl_futures s !! id = Some f -> fu_value f = Result v ->
  rpc_step limit WORKER_INPUT_FRAME_BYTES json (Wait id timeout) s s (Ok v).
Proof. intros Hf Hv. cbn [rpc_step]. unfold waits. rewrite Hf. cbn. by rewrite Hv. Qed.

Definition ready : client := install 0 (new_client {{ cl_workers := [new_worker] }}).

(** A call that is cancelled while its request is being written. *)
Definition cancelled_trace : list (event rpcE) :=
  [Event Clock (Ok 0); Event Acquire (Ok tt); Event Clock (Ok 1); Event (Send "tool.invoke" []) (Ok "call_0");
   Event (RpcClient.Drain "call_0") (Err cancelled); Event (Forget "call_0") (Ok tt); Event Break (Ok tt); Event Release (Ok tt);
   Event Expired (Ok false); Event Break (Ok tt)].

Lemma send_possible : possible limit WORKER_INPUT_FRAME_BYTES string (Send "tool.invoke" []) (Ok "call_0").
Proof.
  exists ready, (send_request WORKER_INPUT_FRAME_BYTES "call_0" "tool.invoke" [] ready).1, "0". split; vm_compute; reflexivity.
Qed.

Lemma cancelled_trace_ok : call_trace limit WORKER_INPUT_FRAME_BYTES "tool.invoke" [] 5 cancelled_trace (Err cancelled).
Proof.
  split.
  - unfold cancelled_trace. cbn -[exn_is]. repeat (eexists _, _; split; [reflexivity|]; cbn -[exn_is]).
    change (exn_is cancelled PyCancelledError) with true. cbn -[exn_is]. done.
  - unfold cancelled_trace. cbn [Rely.answered].
    repeat split; try apply send_possible; exists ready; eexists; cbn; unfold interrupted; eauto.
Qed.

(** A second [start] after the worker has exited leaves the reader of the first worker behind; when
    that reader comes to the end of its stream it stops the second worker. *)
Definition restarted : list (prog rpcE unit) :=
  [start; perform (Exit 0); start; _read_loop WORKER_INPUT_FRAME_BYTES true 1 0].
Definition restart_run (js : list nat) : client := (run_schedule env js (new_client, restarted)).1.
Example stale_reader_stops_new_worker :
  cl_process (restart_run [0; 0; 0; 1; 2; 2; 2]%nat) = Some 1%nat /\
  running (restart_run [0; 0; 0; 1; 2; 2; 2]%nat) = true /\
  running (restart_run [0; 0; 0; 1; 2; 2; 2; 3]%nat) = false /\
  alive 1 (restart_run [0; 0; 0; 1; 2; 2; 2; 3]%nat) = false.
Proof. vm_compute. done. Qed.
End RpcScenario.

Lemma rpc_answers_are_correlated_witness :
  answered RpcScenario.limit RpcScenario.answered_run.1 "call_0" None (JObj [("ok", JBool true)]).
Proof.
  assert (cl_futures RpcScenario.answered_run.1 !! "call_0" = Some RpcScenario.call_future) as Hf by (vm_compute; reflexivity).
  destruct (rpc_answers_are_correlated RpcScenario.limit WORKER_INPUT_FRAME_BYTES true
    RpcScenario.answered_run.1 RpcScenario.answered_run.2 RpcScenario.answered_reachable) as [_ H].
  destruct (H "call_0" RpcScenario.call_future 5 RpcScenario.answered_run.1 (Ok (JObj [("ok", JBool true)])) Hf
    (RpcScenario.wait_step _ _ _ _ _ Hf eq_refl)) as (_ & _ & Ha). exact Ha.
Defined.

(** The cancelled call wrote its request once and broke the stream. *)
Lemma calls_are_never_repeated_witness :
  call_trace RpcScenario.limit WORKER_INPUT_FRAME_BYTES "tool.invoke" [] 5 RpcScenario.cancelled_trace (Err cancelled) /\
  watched (call_ok "tool.invoke" []) call_next idle RpcScenario.cancelled_trace.
Proof.
  split; [exact RpcScenario.cancelled_trace_ok|].
  exact (proj1 (calls_are_never_repeated RpcScenario.limit WORKER_INPUT_FRAME_BYTES "tool.invoke" [] 5
    RpcScenario.cancelled_trace (Err cancelled) RpcScenario.cancelled_trace_ok)).
Defined.
