(* ===== verification/Simulator.v ===== *)
(** * Simulator: executable runs of the concurrent system

    A scheduler script drives the step relation of [System.v]: requests arrive, coroutines run
    one after the other or are cut, and an [oracle] answers for the clock, the identifiers and
    the executor.  [simulate_star] says that every simulated run is a run of [pool_step], so a
    property of all runs can be looked at on a concrete one. *)

From S2P Require Import Prelude Text Json Schemas Domain Tools Approvals Outbox Gateway System.
Local Open Scope string_scope.
Local Open Scope Z_scope.

Record oracle := {
  o_clock : nat -> Z;
  o_execute : ToolDescriptor -> json -> result json
}.

Fixpoint answer (o : oracle) (n : nat) {X} (op : sysE X) (s : sys) : option (sys * result X) :=
  match op in sysE Y return option (sys * result Y) with
  | SAppr op =>
      let '(m, r) := apprE_handle op (sy_approvals s) in Some (s {{ sy_approvals := m }}, r)
  | SEnv op => Some (s, match op in envE Y return result Y with
                        | Now => Ok (o_clock o n)
                        | NewUuid => Ok ("id-" ++ pretty n)
                        | NewToken => Ok ("nonce-" ++ pretty n)
                        end)
  | SOut op =>
      match outE_handle op (sy_outbox s) with
      | Some (st, r) => Some (s {{ sy_outbox := st }}, r)
      | None => None
      end
  | SGw op =>
      match op in gwE Y return option (sys * result Y) with
      | GSnapshot => Some (s, Ok (sy_registry s))
      | GPolicy => Some (s, Ok (sy_policy s))
      | GAudit ev => Some (s {{ sy_audit := (sy_audit s ++ [ev])%list }}, Ok tt)
      | GNotify _ _ => Some (s, Ok tt)
      | GExecute d args ctx =>
          Some (s {{ sy_executions := (sy_executions s ++
            [{| ex_descriptor := d; ex_arguments := args; ex_context := ctx |}])%list }},
            o_execute o d args)
      end
  | SShield op =>
      match answer o n op s with
      | Some (s', r) => Some (s', Ok (r, false))
      | None => None
      end
  end.

Lemma answer_sound o n X (op : sysE X) s s' r :
  answer o n op s = Some (s', r) -> op_step op s s' r.
Proof.
  revert s s' r; induction op as [X op|X op|X op|X op|X op IH]; intros s s' r; simpl.
  - destruct (apprE_handle op (sy_approvals s)) as [m r']. by intros [= <- <-].
  - intros [= <- <-]. by destruct op.
  - destruct (outE_handle op (sy_outbox s)) as [[st r']|] eqn:E; [|done].
    intros [= <- <-]. by exists st.
  - destruct op; simpl; naive_solver.
  - destruct (answer o n op s) as [[s1 r1]|] eqn:E; [|done]. intros [= <- <-]. eauto.
Qed.

(** What the scheduler does next. *)
Inductive command :=
| CArrive (q : request)
| CRun (j : nat) (steps : nat)      (* at most [steps] operations of coroutine [j] *)
| CCancel (j : nat)
| CAdmin (reg : RegistrySnapshot) (pol : ToolPolicy).

(** A cancellation is delivered where the coroutine is suspended. *)
Definition cancel_thread (p : prog sysE unit) : option (prog sysE unit) :=
  match p with
  | Vis op k => if suspends op then Some (k (Err cancelled)) else None
  | _ => None
  end.

Section simulator.
Context (re_search : string -> string -> result bool) (cfg : gateway_config) (o : oracle).

Fixpoint run_thread (steps : nat) (n : nat) (j : nat) (c : config) : nat * config :=
  match steps with
  | O => (n, c)
  | S steps =>
      match c.2 !! j with
      | Some (Vis op k) =>
          match answer o n op c.1 with
          | Some (s', r) => run_thread steps (S n) j (s', <[j := k r]> c.2)
          | None => (n, c)
          end
      | _ => (n, c)
      end
  end.

Fixpoint simulate (cmds : list command) (n : nat) (c : config) : config :=
  match cmds with
  | [] => c
  | CArrive q :: cmds => simulate cmds n (c.1, (c.2 ++ [program re_search cfg q])%list)
  | CRun j steps :: cmds => let '(n', c') := run_thread steps n j c in simulate cmds n' c'
  | CCancel j :: cmds =>
      match c.2 !! j ≫= cancel_thread with
      | Some p => simulate cmds n (c.1, <[j := p]> c.2)
      | None => simulate cmds n c
      end
  | CAdmin reg pol :: cmds =>
      simulate cmds n (c.1 {{ sy_registry := reg; sy_policy := pol }}, c.2)
  end.

Lemma run_thread_star steps n j c :
  star (pool_step re_search cfg) c (run_thread steps n j c).2.
Proof.
  revert n c; induction steps as [|steps IH]; intros n [s ts]; simpl; [constructor|].
  destruct (ts !! j) as [[a|e|X op k]|] eqn:Hj; try constructor.
  destruct (answer o n op s) as [[s' r]|] eqn:E; [|constructor].
  eapply star_step; [|apply IH]. eapply pool_run; [done|]. by eapply answer_sound.
Qed.

Lemma simulate_star cmds n c : star (pool_step re_search cfg) c (simulate cmds n c).
Proof.
  revert n c; induction cmds as [|[q|j steps|j|reg pol] cmds IH]; intros n [s ts]; simpl.
  - constructor.
  - eapply star_step; [apply pool_arrive|]. apply IH.
  - destruct (run_thread steps n j (s, ts)) as [n' c'] eqn:E.
    eapply star_trans; [|apply IH]. pose proof (run_thread_star steps n j (s, ts)) as H.
    by rewrite E in H.
  - destruct (ts !! j) as [p|] eqn:Hj; simpl; [|apply IH].
    destruct p as [a|e|X op k]; simpl; try apply IH.
    destruct (suspends op) eqn:Hs; [|apply IH].
    eapply star_step; [by eapply pool_cancel|apply IH].
  - eapply star_step; [apply pool_admin|]. apply IH.
Qed.
End simulator.

(** ** A scenario: one approval, two callers who both present it *)

Module Scenario.
Definition mail_tool : ToolDescriptor := {|
  td_id := "mail.send"; td_version := "1"; td_extension_id := "smail";
  td_input_schema := JObj [("type", JStr "object"); ("additionalProperties", JBool true)];
  td_output_schema := JObj [("type", JStr "object"); ("additionalProperties", JBool true)];
  td_risk := EXTERNAL_WRITE; td_extension_version := Some "1";
  td_required_capabilities := ["mail"]; td_timeout_seconds := seconds 60;
  td_retry_policy := RETRY_NONE; td_data_classes_in := []; td_data_classes_out := [] |}.

Definition registry : RegistrySnapshot :=
  {| generation := 1; snap_tools := [(tool_key mail_tool, mail_tool)] |}.
Definition policy : ToolPolicy := {| external_writes_enabled := true; frozen_probe := Some false |}.

Definition send (approval : option string) : ToolCall := {|
  tc_tool_id := "mail.send"; tc_tool_version := "1";
  tc_arguments := JObj [("body", JStr "hello")]; tc_task_id := "task-1";
  tc_target := JStr "a@nju.edu.cn"; tc_attachments := [];
  tc_granted_capabilities := ["mail"]; tc_workflow_allowed_tools := ["mail.send"];
  tc_approval_id := approval; tc_idempotency_key := None; tc_form_version := None |}.

Definition world : oracle := {|
  o_clock := fun n => seconds (Z.of_nat n);
  o_execute := fun _ _ => Ok (JObj [("sent", JBool true)]) |}.

Definition cfg : gateway_config := {| has_outbox := true; has_notifier := true |}.
Definition re_search (pattern text : string) : result bool := Ok true.

(** The first call only prepares the approval; it is approved; then two calls that present it
    run, the second starting before the first has consumed it. *)
Definition script : list command :=
  [CArrive (RInvoke (send None)); CRun 0 100;
   CArrive (RApprove "id-3" "nonce-4" "user" None); CRun 1 100;
   CArrive (RInvoke (send (Some "id-3"))); CArrive (RInvoke (send (Some "id-3")));
   CRun 2 4; CRun 3 4; CRun 2 100; CRun 3 100].

Definition start : config := (initial_sys registry policy, []).
Definition final : config := simulate re_search cfg world script 0 start.

(** Afterwards somebody tries to reject the settled approval and to use it once more. *)
Definition later : config := simulate re_search cfg world
  [CArrive (RReject "id-3" None None); CRun 4 100;
   CArrive (RInvoke (send (Some "id-3"))); CRun 5 100] 100 final.
End Scenario.
