(* ===== verification/PoolSafety.v ===== *)
(** * PoolSafety: the invariant of the event loop and the theorems it gives *)

From S2P Require Import Prelude Text Json Schemas Domain Tools Approvals Outbox Gateway System.
From S2P Require Import GatewaySafety Simulator.
Local Open Scope string_scope.
Local Open Scope Z_scope.

(** ** The history of the approval store *)

(** [H] holds every record the store ever contained: the current record of an identifier is its
    newest version, and versions, previews and the lifecycle only move forward. *)
Definition behind (r cur : ApprovalRecord) : Prop :=
  same_preview r cur /\ ap_version r <= ap_version cur /\
  rank (ap_state r) <= rank (ap_state cur) /\
  (ap_version r < ap_version cur -> rank (ap_state r) < rank (ap_state cur)) /\
  (executed_state (ap_state r) = true -> executed_state (ap_state cur) = true) /\
  (ap_version r = ap_version cur -> r = cur).

Definition history (m : gmap string ApprovalRecord) (H : list ApprovalRecord) : Prop :=
  (forall r, r ∈ H -> record_ok r /\ exists cur, m !! ap_id r = Some cur /\ behind r cur) /\
  (forall i r, m !! i = Some r -> ap_id r = i /\ r ∈ H).

Lemma history_empty : history ∅ [].
Proof. split; [intros r Hr; set_solver|]. intros i r. by rewrite lookup_empty. Qed.

Lemma behind_refl r : behind r r.
Proof. unfold behind. pose proof (same_preview_refl r). split_and!; done || lia. Qed.

Lemma history_create m H r :
  history m H -> fresh_record r -> m !! ap_id r = None -> history (<[ap_id r := r]> m) (r :: H).
Proof.
  intros [H1 H2] [Hst Hv] Hnone.
  assert (record_ok r) by (unfold record_ok; rewrite Hst; simpl; naive_solver).
  split.
  - intros r' [->|Hin]%elem_of_cons.
    + split; [done|]. exists r. rewrite lookup_insert_eq. split; [done|apply behind_refl].
    + destruct (H1 r' Hin) as (Hok & cur & Hcur & Hb). split; [done|]. exists cur.
      rewrite lookup_insert_ne; [done|]. intros Heq. congruence.
  - intros i r' [[<- <-]|[_ Hi]]%lookup_insert_Some'; [split; [done|left]|].
    destruct (H2 i r' Hi). split; [done|by right].
Qed.

Lemma executed_allowed s t : executed_state s = true -> t ∈ approval_allowed s ->
  executed_state t = true.
Proof. destruct s; simpl; intros; try discriminate; set_solver. Qed.

Lemma history_save m H r r0 cur v :
  history m H -> r0 ∈ H -> ap_version r0 = v -> legal r0 r ->
  m !! ap_id r = Some cur -> ap_version cur = v ->
  r0 = cur /\ history (<[ap_id r := r {{ ap_version := v + 1 }}]> m)
                      (r {{ ap_version := v + 1 }} :: H).
Proof.
  intros Hh Hr0 Hv (Hp & Ha & Hok) Hcur Hvc. destruct Hh as [H1 H2].
  set (saved := r {{ ap_version := v + 1 }}).
  destruct (H1 r0 Hr0) as (Hok0 & cur' & Hcur' & Hb).
  assert (ap_id r0 = ap_id r) as Hid by apply Hp.
  assert (cur' = cur) as -> by congruence.
  assert (r0 = cur) as -> by (apply Hb; congruence). split; [done|].
  assert (record_ok saved) by (destruct (Hok Hok0) as [Ha1 Ha2]; split; [apply Ha1|apply Ha2]).
  assert (behind cur saved) as Hstep.
  { unfold saved; split_and!; simpl; [apply Hp|lia| | | |lia].
    - apply allowed_rank in Ha. change (rank (ap_state cur) <= rank (ap_state r)). lia.
    - intros _. by apply allowed_rank in Ha.
    - intros Hx. by eapply executed_allowed. }
  split.
  - intros r' [->|Hin]%elem_of_cons.
    + split; [done|]. exists saved. simpl. rewrite lookup_insert_eq. split; [done|apply behind_refl].
    + destruct (H1 r' Hin) as (Hok' & cur2 & Hcur2 & Hb2). split; [done|].
      destruct (decide (ap_id r = ap_id r')) as [He|Hne].
      * exists saved. rewrite He, lookup_insert_eq. split; [done|].
        assert (cur2 = cur) as -> by congruence.
        destruct Hb2 as (Hp2 & Hv2 & Hr2 & Hs2 & Hx2 & _), Hstep as (Hp3 & Hv3 & Hr3 & Hs3 & Hx3 & _).
        assert (ap_version cur < ap_version saved) by (unfold saved; simpl; lia).
        split_and!; [by eapply same_preview_trans|lia|lia|lia|eauto|lia].
      * exists cur2. rewrite lookup_insert_ne by done. done.
  - intros i r' [[<- <-]|[_ Hi]]%lookup_insert_Some'; [split; [done|left]|].
    destruct (H2 i r' Hi). split; [done|by right].
Qed.

(** ** Counting *)

Definition holds (i : string) (tk : token) : nat := if decide (tk = Some i) then 1 else 0.

Definition started (i : string) (H : list ApprovalRecord) : nat :=
  if decide (Exists (fun r => ap_id r = i /\ 2 <= rank (ap_state r)) H) then 1 else 0.

Definition is_external_run (i : string) (ex : execution) : bool :=
  bool_decide (td_risk (ex_descriptor ex) = EXTERNAL_WRITE)
  && bool_decide (x_approval_id (ex_context ex) = Some i).

(** How often an external action was handed to the executor under approval [i]. *)
Definition external_runs (i : string) (s : sys) : nat :=
  length (List.filter (is_external_run i) (sy_executions s)).

Definition executions_ok (s : sys) (H : list ApprovalRecord) : Prop :=
  forall ex, ex ∈ sy_executions s ->
    td_risk (ex_descriptor ex) <> PROHIBITED /\
    (td_risk (ex_descriptor ex) = EXTERNAL_WRITE ->
       exists r, r ∈ H /\ executed_state (ap_state r) = true /\ authorises r ex).

Lemma started_mono i H H' : H ⊆ H' -> (started i H <= started i H')%nat.
Proof.
  intros Hs. unfold started. destruct (decide _) as [He|_]; [|lia].
  rewrite decide_True; [done|]. apply Exists_exists in He as (r & Hin & Hr).
  apply Exists_exists. exists r. split; [by apply Hs|done].
Qed.

Lemma started_new i H r : ap_id r = i -> 2 <= rank (ap_state r) -> started i (r :: H) = 1%nat.
Proof. intros. unfold started. rewrite decide_True; [done|]. by left. Qed.

Lemma started_before m H cur :
  history m H -> m !! ap_id cur = Some cur -> rank (ap_state cur) < 2 ->
  started (ap_id cur) H = 0%nat.
Proof.
  intros [H1 _] Hcur Hr. unfold started. rewrite decide_False; [done|].
  rewrite Exists_exists. intros (r & Hin & Hid & Hrank).
  destruct (H1 r Hin) as (_ & cur' & Hcur' & _ & _ & Hle & _).
  rewrite Hid in Hcur'. assert (cur' = cur) as -> by congruence. lia.
Qed.

Lemma executions_ok_mono s s' H H' :
  sy_executions s' = sy_executions s -> H ⊆ H' -> executions_ok s H -> executions_ok s' H'.
Proof.
  intros He Hs Hok ex Hin. rewrite He in Hin. destruct (Hok ex Hin) as [? Hx]. split; [done|].
  intros Hr. destruct (Hx Hr) as (r & ? & ?). exists r. split; [by apply Hs|done].
Qed.

(** ** One operation *)

(** What one operation of a coroutine with ghost state [(kn, tk)] does to the invariant. *)
Definition advances {X} (s s' : sys) (H : list ApprovalRecord) (tk : token)
    (Q : known -> token -> result X -> Prop) (r : result X) : Prop :=
  exists H' kn' tk', H ⊆ H' /\ history (sy_approvals s') H' /\ kn' ⊆ H' /\ Q kn' tk' r /\
    executions_ok s' H' /\
    forall i, (holds i tk' + external_runs i s' + started i H
               <= holds i tk + external_runs i s + started i H')%nat.

(** A step that leaves the approvals and the executions alone. *)
Lemma advances_quiet {X} (s s' : sys) H kn tk (Q : known -> token -> result X -> Prop) r :
  history (sy_approvals s) H -> kn ⊆ H -> executions_ok s H ->
  sy_approvals s' = sy_approvals s -> sy_executions s' = sy_executions s ->
  Q kn tk r -> advances s s' H tk Q r.
Proof.
  intros Hh Hk Hx Ha He HQ. exists H, kn, tk. rewrite Ha. split_and!; try done.
  - by eapply executions_ok_mono with (H := H).
  - intros i. unfold external_runs. rewrite He. done.
Qed.

Ltac quiet s H kn :=
  apply (advances_quiet s _ H kn);
  first [done | match goal with HQ : forall _, _ |- _ => apply HQ end].

Lemma external_runs_app i s s' ex :
  sy_executions s' = (sy_executions s ++ [ex])%list ->
  external_runs i s' = (external_runs i s + if is_external_run i ex then 1 else 0)%nat.
Proof.
  intros He. unfold external_runs. rewrite He, List.filter_app, length_app. simpl.
  by destruct (is_external_run i ex).
Qed.

Lemma appr_advances {X} (op : apprE X) s H kn tk (Q : known -> token -> result X -> Prop) :
  history (sy_approvals s) H -> kn ⊆ H -> executions_ok s H -> wp_op (SAppr op) kn tk Q ->
  advances s (s {{ sy_approvals := (apprE_handle op (sy_approvals s)).1 }}) H tk Q
    (apprE_handle op (sy_approvals s)).2.
Proof.
  intros Hh Hk Hx. destruct op as [r|i|r v]; simpl.
  - intros (Hf & He & Ho). unfold repo_create, mbind, M_bind, get_state, put_state, raise. simpl.
    destruct (sy_approvals s !! ap_id r) eqn:Hm; simpl; [quiet s H kn|].
    exists (r :: H), (r :: kn), tk.
    split_and!; simpl; [set_solver|by apply history_create|set_solver|done| |].
    + eapply executions_ok_mono; [done| |done]. set_solver.
    + intros i. pose proof (started_mono i H (r :: H) ltac:(set_solver)).
      unfold external_runs. simpl. lia.
  - intros (He & Ho). unfold repo_get, mbind, M_bind, get_state, mret, M_ret, raise. simpl.
    destruct (sy_approvals s !! i) as [r|] eqn:Hm; simpl; [|quiet s H kn].
    destruct Hh as [H1 H2]. destruct (H2 i r Hm) as [Hid Hin].
    exists H, (r :: kn), tk. split_and!; simpl; [done|by split|set_solver| |done|done].
    apply Ho; [done|]. intros r0 H0 Hr0. apply Hk in H0.
    destruct (H1 r0 H0) as (_ & cur & Hcur & Hb). rewrite Hr0, Hm in Hcur.
    injection Hcur as <-. apply Hb.
  - intros ((r0 & Hr0 & Hv & Hl) & He & Ho).
    unfold repo_save, mbind, M_bind, get_state, put_state, mret, M_ret, raise. simpl.
    destruct (sy_approvals s !! ap_id r) as [cur|] eqn:Hm; simpl; [|quiet s H kn].
    destruct (ap_version cur =? v) eqn:Hvc; simpl; [|quiet s H kn].
    bool_props. set (saved := r {{ ap_version := v + 1 }}) in *.
    destruct (history_save _ _ r r0 cur v Hh (Hk _ Hr0) Hv Hl Hm Hvc) as [-> Hh'].
    fold saved in Hh'. exists (saved :: H), (saved :: kn). eexists.
    split_and!; simpl; [set_solver|done|set_solver|exact Ho| |].
    + eapply executions_ok_mono; [done| |done]. set_solver.
    + intros i. pose proof (started_mono i H (saved :: H) ltac:(set_solver)).
      unfold external_runs. simpl.
      case_bool_decide as Hex; [|lia]. unfold holds at 1.
      case_decide as Heq; [injection Heq as <-|lia].
      rewrite (started_new (ap_id r) H saved) by (done || (change (ap_state saved) with (ap_state r);
        rewrite Hex; simpl; lia)).
      assert (ap_id cur = ap_id r) as Hid by apply Hl.
      rewrite <- Hid in Hm. rewrite <- Hid, (started_before _ H cur Hh Hm); [lia|].
      destruct Hl as (_ & Ha & _). rewrite Hex in Ha.
      destruct (ap_state cur); simpl in *; try lia; set_solver.
Qed.

Lemma gw_advances {X} (op : gwE X) s s' H kn tk (Q : known -> token -> result X -> Prop) r :
  history (sy_approvals s) H -> kn ⊆ H -> executions_ok s H -> wp_op (SGw op) kn tk Q ->
  gw_step op s s' r -> advances s s' H tk Q r.
Proof.
  intros Hh Hk Hx. destruct op as [| | | |d args ctx]; simpl.
  - intros HQ [-> ->]. quiet s H kn.
  - intros HQ [-> ->]. quiet s H kn.
  - intros HQ [-> ->]. quiet s H kn.
  - intros HQ ->. quiet s H kn.
  - intros (Hr3 & Hlic & HQ) ->.
    set (ex := {| ex_descriptor := d; ex_arguments := args; ex_context := ctx |}) in *.
    exists H, kn, None. split_and!; try done.
    + intros ex' Hin. simpl in Hin. apply elem_of_app in Hin as [Hin|Hin]; [by apply Hx|].
      apply list_elem_of_singleton in Hin as ->. split; [done|]. intros Hext.
      destruct (Hlic Hext) as (a & Hin & _ & Hst & Hau). exists a. eauto.
    + intros i. rewrite (external_runs_app i s _ ex) by done. unfold is_external_run, holds at 1. simpl.
      destruct (bool_decide (td_risk d = EXTERNAL_WRITE)) eqn:Hext; simpl; [|lia]. bool_props.
      destruct (Hlic Hext) as (a & _ & -> & _ & Hcid & _). simpl in Hcid. rewrite Hcid.
      case_bool_decide as Hi; unfold holds; [|lia]. rewrite decide_True by done. lia.
Qed.

Lemma op_advances {X} (op : sysE X) s s' H kn tk (Q : known -> token -> result X -> Prop) r :
  history (sy_approvals s) H -> kn ⊆ H -> executions_ok s H ->
  wp_op op kn tk Q -> op_step op s s' r -> advances s s' H tk Q r.
Proof.
  revert r Q. induction op as [X op|X op|X op|X op|X op IH]; intros r Q Hh Hk Hx Hwp Hstep;
    simpl in Hstep.
  - destruct Hstep as [-> ->]. by apply appr_advances with (kn := kn).
  - destruct Hstep as [-> _]. quiet s H kn.
  - destruct Hstep as (st & _ & ->). quiet s H kn.
  - by apply gw_advances with (op := op) (kn := kn).
  - destruct Hstep as (r' & c & -> & Hstep).
    destruct (IH r' _ Hh Hk Hx Hwp Hstep) as (H' & kn' & tk' & ? & ? & ? & HQ & ? & ?).
    exists H', kn', tk'. by split_and!.
Qed.

(** A cancelled operation is not performed; its coroutine goes on with the exception. *)
Lemma wp_cancel {X} (op : sysE X) kn tk (Q : known -> token -> result X -> Prop) e :
  suspends op = true ->
  wp_op op kn tk Q -> exists tk', (tk' = tk \/ tk' = None) /\ Q kn tk' (Err e).
Proof. destruct op as [? []|? []|? []|? []|]; simpl; naive_solver. Qed.

(** ** The invariant of the pool *)

Notation ghost := (known * token)%type.

Definition thread_ok (H : list ApprovalRecord) (p : prog sysE unit) (g : ghost) : Prop :=
  wp p g.1 g.2 (fun _ _ _ => True) /\ g.1 ⊆ H.

Definition tokens (i : string) (gs : list ghost) : nat := sum_list ((fun g => holds i g.2) <$> gs).

Definition pool_inv (H : list ApprovalRecord) (c : config) : Prop :=
  exists gs, history (sy_approvals c.1) H /\ Forall2 (thread_ok H) c.2 gs /\
    executions_ok c.1 H /\
    forall i, (tokens i gs + external_runs i c.1 <= started i H)%nat.

Lemma thread_ok_mono H H' p g : H ⊆ H' -> thread_ok H p g -> thread_ok H' p g.
Proof. intros Hs [??]. split; [done|]. by etrans. Qed.

Lemma tokens_insert i gs j g g' : gs !! j = Some g ->
  (tokens i (<[j := g']> gs) + holds i g.2 = tokens i gs + holds i g'.2)%nat.
Proof.
  intros Hj. unfold tokens. rewrite list_fmap_insert.
  apply (sum_list_insert _ j (holds i g.2) (holds i g'.2)). apply list_lookup_fmap_Some. by exists g.
Qed.

(** Replacing one coroutine by a continuation that is safe with less token. *)
Lemma replace_thread H ts gs j p' (kn' : known) tk' :
  Forall2 (thread_ok H) ts gs ->
  wp p' kn' tk' (fun _ _ _ => True) -> kn' ⊆ H ->
  Forall2 (thread_ok H) (<[j := p']> ts) (<[j := (kn', tk')]> gs).
Proof. intros Hf Hwp Hk. apply Forall2_insert; [done|]. by split. Qed.

Lemma weaken_token H s ts gs j p g p' (kn' : known) tk' :
  history (sy_approvals s) H -> Forall2 (thread_ok H) ts gs -> executions_ok s H ->
  (forall i, (tokens i gs + external_runs i s <= started i H)%nat) ->
  ts !! j = Some p -> gs !! j = Some g -> kn' ⊆ H ->
  wp p' kn' tk' (fun _ _ _ => True) -> (tk' = g.2 \/ tk' = None) ->
  pool_inv H (s, <[j := p']> ts).
Proof.
  intros Hh Hf Hx Hc Ht Hg Hk Hwp Htk. exists (<[j := (kn', tk')]> gs).
  split_and!; simpl; try done; [by eapply replace_thread|].
  intros i. specialize (Hc i). pose proof (tokens_insert i gs j g (kn', tk') Hg) as Hti.
  simpl in Hti. assert (holds i tk' <= holds i g.2)%nat; [|lia].
  destruct Htk as [->| ->]; [done|]. unfold holds. simpl. lia.
Qed.

Section safety.
Context (re_search : string -> string -> result bool) (cfg : gateway_config).

Lemma program_wp q kn tk : wp (program re_search cfg q) kn tk (fun _ _ _ => True).
Proof.
  assert (forall A (p : prog sysE A), wp p kn tk (fun _ _ _ => True) ->
    wp (_ ← p; Ret tt) kn tk (fun _ _ _ => True)) as Hk.
  { intros A p Hp. apply wp_bind. eapply wp_mono; [|exact Hp]. by intros ?? [a|e] _. }
  destruct q; unfold program; apply Hk; first [apply invoke_wp | by apply prepare_neutral
    | by apply get_neutral | by apply approve_neutral | by apply reject_neutral
    | by apply wp_consume | by apply finish_neutral].
Qed.

Lemma pool_step_inv H c c' : pool_step re_search cfg c c' -> pool_inv H c ->
  exists H', H ⊆ H' /\ pool_inv H' c'.
Proof.
  intros Hstep (gs & Hh & Hf & Hx & Hc). destruct Hstep; simpl in *.
  - destruct (Forall2_lookup_l _ _ _ _ _ Hf H0) as ([kn tk] & Hg & [Hwp Hk]). simpl in Hwp, Hk.
    destruct (op_advances op s s' H kn tk _ r Hh Hk Hx Hwp H1)
      as (H' & kn' & tk' & Hs & Hh' & Hk' & Hwp' & Hx' & Hcount).
    exists H'. split; [done|]. exists (<[j := (kn', tk')]> gs). split_and!; simpl; try done.
    + eapply replace_thread; [|exact Hwp'|exact Hk']. eapply Forall2_impl; [done|].
      intros. eapply thread_ok_mono; [exact Hs|eassumption].
    + intros i. specialize (Hc i). specialize (Hcount i).
      pose proof (tokens_insert i gs j (kn, tk) (kn', tk') Hg) as Hti. simpl in Hti. lia.
  - destruct (Forall2_lookup_l _ _ _ _ _ Hf H0) as ([kn tk] & Hg & [Hwp Hk]).
    destruct (wp_cancel op kn tk _ cancelled H1 Hwp) as (tk' & Htk & Hwp').
    exists H. split; [done|]. by eapply weaken_token.
  - destruct (Forall2_lookup_l _ _ _ _ _ Hf H0) as ([kn tk] & Hg & [Hwp Hk]).
    exists H. split; [done|]. eapply weaken_token; try done. by left.
  - exists H. split; [done|]. exists (gs ++ [([], None)])%list. split_and!; simpl; try done.
    + apply Forall2_app; [done|]. repeat constructor; simpl; [apply program_wp|set_solver].
    + intros i. unfold tokens. rewrite fmap_app, sum_list_app. simpl. specialize (Hc i).
      unfold tokens in Hc. lia.
  - exists H. split; [done|]. exists gs. split_and!; simpl; done.
Qed.

Lemma pool_steps_inv H c c' : star (pool_step re_search cfg) c c' -> pool_inv H c ->
  exists H', H ⊆ H' /\ pool_inv H' c'.
Proof.
  intros Hs. revert H. induction Hs as [c|c1 c2 c3 Hstep _ IH]; intros H Hinv; [by exists H|].
  destruct (pool_step_inv _ _ _ Hstep Hinv) as (H1 & Hs1 & Hinv1).
  destruct (IH H1 Hinv1) as (H2 & Hs2 & Hinv2). exists H2. split; [by etrans|done].
Qed.

Lemma pool_reachable_inv reg pol c :
  star (pool_step re_search cfg) (initial_sys reg pol, []) c -> exists H, pool_inv H c.
Proof.
  intros Hs. destruct (pool_steps_inv [] _ _ Hs) as (H & _ & Hinv); [|by exists H].
  exists []. split_and!; simpl; [apply history_empty|constructor| |].
  - intros ex Hin. simpl in Hin. set_solver.
  - intros i. unfold tokens, external_runs. simpl. lia.
Qed.

(** C1. However gateway invocations, approvals, rejections, cancellations, crashes and policy
    changes interleave, an external action is handed to the executor at most once per approval. *)
Theorem external_action_at_most_once reg pol s ts i :
  star (pool_step re_search cfg) (initial_sys reg pol, []) (s, ts) ->
  (external_runs i s <= 1)%nat.
Proof.
  intros Hs. destruct (pool_reachable_inv _ _ _ Hs) as (H & gs & _ & _ & _ & Hc).
  specialize (Hc i). simpl in Hc. unfold started in Hc. destruct (decide _); lia.
Qed.

(** C2. Whatever the executor was ever given is allowed: no R3 tool, and an R2 tool only under
    a stored approval that an actor approved and that was consumed before its expiry, whose
    fingerprint is that of the very tool, version, task and arguments being executed. *)
Theorem executed_actions_are_authorised reg pol s ts ex :
  star (pool_step re_search cfg) (initial_sys reg pol, []) (s, ts) ->
  ex ∈ sy_executions s ->
  td_risk (ex_descriptor ex) <> PROHIBITED /\
  (td_risk (ex_descriptor ex) = EXTERNAL_WRITE ->
     exists r, sy_approvals s !! ap_id r = Some r /\ authorises r ex /\
       executed_state (ap_state r) = true /\ was_approved r /\ was_consumed r).
Proof.
  intros Hs Hin. destruct (pool_reachable_inv _ _ _ Hs) as (H & gs & [H1 H2] & _ & Hx & _).
  destruct (Hx ex Hin) as [Hr3 Hext]. split; [done|]. intros Hr.
  destruct (Hext Hr) as (r & HrH & Hst & Hau).
  destruct (H1 r HrH) as (_ & cur & Hcur & Hp & _ & _ & _ & Hxs & _).
  destruct (H2 _ _ Hcur) as [Hid HcurH]. destruct (H1 cur HcurH) as ((Hok1 & Hok2) & _).
  specialize (Hxs Hst). exists cur. split_and!.
  - by rewrite Hid.
  - destruct Hau as (Hxa & b & Hfp & Hb). destruct Hp as (Hpi & Hpf & _).
    split; [congruence|]. exists b. by rewrite <- Hpf.
  - done.
  - apply Hok1. by right.
  - by apply Hok2.
Qed.

(** C3. Between any two moments of a run, an approval keeps its identity, fingerprint, canonical
    action, nonce and expiry, its version and lifecycle stage never go back, and a record that
    has reached a final state is never written again. *)
Theorem approval_lifecycle_is_monotone reg pol s ts s' ts' i r :
  star (pool_step re_search cfg) (initial_sys reg pol, []) (s, ts) ->
  star (pool_step re_search cfg) (s, ts) (s', ts') ->
  sy_approvals s !! i = Some r ->
  exists r', sy_approvals s' !! i = Some r' /\ same_preview r r' /\
    ap_version r <= ap_version r' /\ rank (ap_state r) <= rank (ap_state r') /\
    (ApprovalState.terminal (ap_state r) = true -> r' = r).
Proof.
  intros Hs Hs' Hr. destruct (pool_reachable_inv _ _ _ Hs) as (H & Hinv).
  destruct (pool_steps_inv _ _ _ Hs' Hinv) as (H' & Hsub & gs' & [H1 _] & _).
  destruct Hinv as (gs & [_ H2] & _). destruct (H2 i r Hr) as [Hid Hin].
  destruct (H1 r (Hsub _ Hin)) as (_ & cur & Hcur & Hp & Hv & Hrk & Hlt & _ & Heq).
  rewrite Hid in Hcur. exists cur. split_and!; try done. intros Ht. symmetry. apply Heq.
  assert (~ ap_version r < ap_version cur); [|lia]. intros Hv'%Hlt.
  destruct (ap_state r); try discriminate Ht; destruct (ap_state cur); simpl in Hv'; lia.
Qed.
End safety.

(** In the scenario two callers present one approval: exactly one of them reaches the executor. *)
Lemma external_action_at_most_once_witness :
  external_runs "id-3" Scenario.final.1 = 1%nat /\
  (external_runs "id-3" Scenario.final.1 <= 1)%nat.
Proof.
  split; [vm_compute; reflexivity|].
  apply (external_action_at_most_once Scenario.re_search Scenario.cfg Scenario.registry
           Scenario.policy Scenario.final.1 Scenario.final.2 "id-3").
  rewrite <- surjective_pairing. apply simulate_star.
Defined.

Lemma executed_actions_are_authorised_witness :
  exists ex r, sy_executions Scenario.final.1 = [ex] /\ td_risk (ex_descriptor ex) = EXTERNAL_WRITE /\
    authorises r ex /\ was_approved r.
Proof.
  destruct (sy_executions Scenario.final.1) as [|ex l] eqn:E; [vm_compute in E; discriminate E|].
  assert (l = [] /\ td_risk (ex_descriptor ex) = EXTERNAL_WRITE) as [-> Hr].
  { revert E. vm_compute. intros [= <- <-]. by split. }
  destruct (executed_actions_are_authorised Scenario.re_search Scenario.cfg Scenario.registry
    Scenario.policy Scenario.final.1 Scenario.final.2 ex) as [_ Hx].
  - rewrite <- surjective_pairing. apply simulate_star.
  - rewrite E. apply list_elem_of_here.
  - destruct (Hx Hr) as (r & _ & Ha & _ & Hap & _). exists ex, r.
    exact (conj eq_refl (conj Hr (conj Ha Hap))).
Defined.

(** The settled approval of the scenario survives a rejection and a second use unchanged. *)
Lemma approval_lifecycle_is_monotone_witness :
  exists r, sy_approvals Scenario.final.1 !! "id-3" = Some r /\
    ap_state r = ApprovalState.SUCCEEDED /\ sy_approvals Scenario.later.1 !! "id-3" = Some r.
Proof.
  destruct (sy_approvals Scenario.final.1 !! "id-3") as [r|] eqn:E; [|vm_compute in E; discriminate E].
  assert (ap_state r = ApprovalState.SUCCEEDED) as Hst.
  { revert E. vm_compute. by intros [= <-]. }
  destruct (approval_lifecycle_is_monotone Scenario.re_search Scenario.cfg Scenario.registry
    Scenario.policy Scenario.final.1 Scenario.final.2 Scenario.later.1 Scenario.later.2 "id-3" r)
    as (r' & Hr' & _ & _ & _ & Ht).
  - rewrite <- surjective_pairing. apply simulate_star.
  - rewrite <- !surjective_pairing. apply simulate_star.
  - exact E.
  - rewrite Hst in Ht. rewrite (Ht eq_refl) in Hr'. exists r. exact (conj eq_refl (conj Hst Hr')).
Defined.
